(* ===== verification/_CoqProject ===== *)
-Q . S2P
Prelude.v
DList.v
RingBuffer.v
KString.v
KPrint.v
KPrintSpec.v
KPrintProof.v
KPrintFormat.v
KFloat.v
KFloatProof.v
HeapMem.v
HeapWp.v
HeapInv.v
HeapSpec.v
HeapObjects.v
HeapAlign.v
ListStore.v
KState.v
Scheduler.v
ObjectSys.v
Timer.v
ThreadSys.v
Ipc.v
MailBox.v
MemPool.v
DriverIpc.v
Device.v
Pipe.v
WorkQueue.v
Clock.v
Idle.v
KernelSim.v
System.v
KernelWp.v
SeqLemmas.v
KernelInv.v
KernelCheck.v
SchedProof.v
ObjectProof.v
TimerProof.v
ThreadProof.v
ClockProof.v
IpcProof.v
SemProof.v
MutexProof.v
MailProof.v
QueueProof.v
EventProof.v
PoolProof.v
DriverProof.v
DataQueueProof.v
DeviceProof.v
DeviceNames.v
PipeProof.v
WorkQueueProof.v
FinshNode.v
FinshVm.v
FinshCompiler.v
FinshToken.v
FinshHeap.v
FinshParser.v
FinshLine.v
FinshShell.v
FinshSem.v
FinshCodegen.v
FinshExec.v
FinshLex.v
FinshPrint.v
FinshParseProof.v
FinshCorrect.v
FinshEdit.v
DfsPath.v
Dfs.v
DfsFile.v
DfsPosix.v
DfsSpec.v
DfsProof.v
DfsNames.v
DfsMount.v
DfsCorrect.v
