(* ===== verification/Prelude.v ===== *)
(** * A verification development for the RT-Thread 2.1.0 kernel

    RT-Thread is a real-time kernel in C.  This library models its kernel
    (src/src, src/include), the queues of its driver framework
    (src/components/drivers/src), its shell, an interpreter for C expressions
    (src/components/finsh), and the layer above its file systems
    (src/components/dfs/src), in the configuration of the board
    bsp/stm32f10x-curer: 32 priorities, 1000 ticks per second, hard timers in one
    list, the small-memory heap, heap, semaphores, mutexes, events, mailboxes,
    message queues, memory pools and the device queues enabled, the debug checks
    [RT_DEBUG] on, and a 32-bit ARM processor.  Paths below are relative to src/.

    ** The program and its parts

    Threads are scheduled by priority, round robin within a priority
    (src/scheduler.c, src/thread.c); the ready lists, one per priority, come with
    a bitmap in which the scheduler finds the highest priority.  A thread that
    sleeps or waits has a timer (src/timer.c) in a list sorted by timeout, which
    the tick interrupt (src/clock.c) checks.  Semaphores, mutexes with priority
    inheritance, events, mailboxes and message queues (src/ipc.c), memory pools
    (src/mempool.c), completions and data queues (components/drivers/src) keep
    lists of waiting threads.  All objects are registered in lists by class
    (src/object.c).  The idle thread reclaims ended threads (src/idle.c), and
    src/components.c starts the system.  Every list is an [rt_list_t]
    (include/rtservice.h), a circular list through nodes embedded in the objects.
    Below the kernel are its string and memory functions and its formatted output
    (src/kservice.c) and the heap (src/mem.c); the ring buffer of the drivers
    stands alone.  On top of it are the devices (src/device.c), kernel objects with
    the functions of a driver, and the console, the device [rt_kprintf] writes to.
    The shell reads the characters of a line from a device (components/finsh/shell.c),
    splits them into tokens, parses these into a tree of nodes, compiles the tree
    into byte code and runs that on a stack machine (finsh_token.c, finsh_parser.c,
    finsh_compiler.c, finsh_vm.c with finsh_ops.c); it has variables, strings on a
    small heap with garbage collection, and tables of functions and variables.
    The device file systems (components/dfs/src: dfs.c, dfs_fs.c, dfs_file.c and
    dfs_posix.c) keep a table of mounted file systems and one of descriptors; a path
    is made canonical, the file system with the longest mount point is found, and
    its operations are called with the path below that.

    ** Files

    - [Prelude]: machine integers with their wrap-around ([u16], [u32], [s32]),
      bounds-checked arrays, alignment, shared lemmas and tactics ([mlia]).
    - [DList]: the functions of rtservice.h on a store of next and prev fields,
      and the theorem that on disjoint rings they are operations on sequences.
    - [ListStore]: the interface [ListOps] through which the kernel code uses its
      lists, its two instances (the pointers of [DList], finite sequences), and
      the contract [list_sim] between them.
    - [KState]: the structures of include/rtdef.h as records in maps indexed by
      address, the variables of scheduler.c, clock.c and irq.c, and the monad [K]:
      a state monad in which a failed assertion, a pointer to nothing, a stack
      overflow and exhausted fuel halt.
    - [Scheduler], [ObjectSys], [Timer], [ThreadSys], [Ipc], [MailBox], [MemPool],
      [DriverIpc], [Clock], [Idle]: one definition per function of scheduler.c,
      object.c, timer.c, thread.c, ipc.c (two files), mempool.c, completion.c and
      dataqueue.c, clock.c, idle.c with components.c.  The code is written once,
      over any instance of the list interface.  A call that gives up the processor
      ends with [Waits] (or [MbWaits], ...) when another thread runs afterwards;
      its continuation is the definition [..._resumed].
    - [KernelSim]: every function over pointers does what it does over sequences.
      [System]: histories of calls, ticks and interrupts, and that refinement for
      all histories from reset on; also the small application [demo] whose states
      serve as instances.
    - [KernelWp]: total-correctness rules for the monad.  [SeqLemmas]: the sequence
      operations.  [KernelInv]: the invariant [kinv] between threads, queues,
      bitmap and timers; [KernelCheck]: an executable test of it.
    - [SchedProof], [TimerProof], [ThreadProof], [ClockProof], [IpcProof],
      [SemProof], [MutexProof], [MailProof], [QueueProof], [EventProof],
      [PoolProof], [DriverProof], [DataQueueProof]: the theorems about the
      components of these names.
    - [KString]: the memory and string functions of kservice.c over a
      byte-addressed memory.  [RingBuffer]: components/drivers/src/ringbuffer.c.
    - [KPrint]: rt_vsnprintf and its relatives over this memory.  [KPrintSpec]: what
      a format means, as a list of directives with a rendering.  [KPrintProof],
      [KPrintFormat]: the code writes the rendering.  [KFloat]: flt and all it calls,
      over double-precision numbers (the Standard Library's SpecFloat), with the
      local arrays as regions of the memory; [KFloatProof]: the rounding of digit
      strings, numbers written by itoa and read by atoi, padding, and some outputs.
    - [HeapMem]: the functions of mem.c over the same memory, with the block
      headers in it.  [HeapWp], [HeapInv], [HeapSpec], [HeapObjects]: rules,
      blocks, what the functions do to them, and the store of objects.
      [HeapAlign]: aligned blocks and rt_strdup of kservice.c.
    - [Device]: device.c and the console of kservice.c on a system of kernel,
      device structures and memory; the functions of the drivers are the parameter
      [drivers], and what the theorems need of them is the contract [WellBehaved]:
      they return and leave reference counts alone, flags they may change.
      [ObjectProof]: searching objects by name; [DeviceProof]: opening and closing;
      [DeviceNames]: registration and what [rt_kprintf] prints.
    - [Pipe]: pipe.c, the ring buffer with readers and writers of the kernel, as
      devices.  [WorkQueue]: workqueue.c, with the parts of its endless loop.
      [PipeProof], [WorkQueueProof]: their theorems.
    - The shell.  [FinshNode]: nodes, types and error numbers.  [FinshVm]: the
      machine (finsh_vm.c, finsh_ops.c).  [FinshCompiler]: finsh_compiler.c.
      [FinshToken]: finsh_token.c.  [FinshHeap]: finsh_heap.c, finsh_var.c,
      finsh_node.c and the symbol tables.  [FinshParser]: finsh_parser.c.
      [FinshLine]: finsh_init.c and [finsh_run_line].  [FinshShell]: the loop of
      [finsh_thread_entry] over the characters, and the completion of cmd.c.
    - [FinshSem]: expressions, their meaning, their trees and their code, apart from
      the C code.  [FinshCodegen]: the compiler makes that code.  [FinshExec]: the
      machine runs it.  [FinshPrint]: expressions as they are typed.  [FinshLex],
      [FinshParseProof]: the tokeniser and the parser make the tree of what is
      typed.  [FinshCorrect]: these together.  [FinshEdit]: the line editor.
    - The device file systems.  [DfsPath]: the loops of [dfs_normalize_path] on its
      buffer, paths as lists of names, and that the loops resolve them.  [Dfs]: the
      tables, descriptors and the lookup (dfs.c, dfs_fs.c); the file systems are the
      parameter [FileEnv], functions on a world of their own.  [DfsFile]: files and
      mounting (dfs_file.c, dfs_fs.c).  [DfsPosix]: dfs_posix.c.  [DfsSpec]: the
      functions on a table of open files.  [DfsProof], [DfsNames]: the code does
      that.  [DfsMount]: mounting and unmounting.  [DfsCorrect]: histories of calls,
      the start, faults, and a file system with one file in memory as an instance.

    ** What the theorems show

    - Refinement of the data structures: the pointer lists implement sequences
      ([DList.rt_list_refines_sequences]) and so does the whole kernel
      ([System.kernel_refines_sequences]); the theorems about the kernel, proved
      over sequences, are theorems about the C lists.
    - The scheduler takes the first thread of the highest priority; suspending,
      resuming, yielding and changing priorities keep the invariant and put
      threads where they belong.
    - Time: timers are kept sorted across the wrap-around of the tick counter, the
      tick interrupt lets the timers that are due expire one by one, wakes threads,
      calls the functions of the application, starts periodic timers again and
      terminates, and a sleeping thread is woken after exactly its time.  The
      timeout functions are a parameter with the contract [ClockProof.Callbacks]:
      they return with the kernel in order and make no timer due.
    - Each IPC object against an abstract specification: a semaphore is a counter
      with a queue, a mailbox and a message queue are bounded queues, an event
      wakes exactly the satisfied threads and never loses a wakeup, a mutex lends
      priorities, a memory pool gives each block to one owner and fails on a
      release after a timeout, a data queue of a size that is a power of two is a
      bounded queue until its indices wrap; every branch, errors included.
    - The heap implements a store of independent objects; allocation is first
      fit from the lowest free block it knows, freeing undoes it, and blocks never
      overlap.
    - The memory and string functions agree with their byte-wise meaning, the ring
      buffer is a FIFO queue of bytes (its forced put apart).
    - Formatted output writes the rendering of its format, cut to the size of the
      buffer, and nothing else, with what the code does otherwise than documented
      stated; printed numbers read back.
    - Devices: over any sequence of calls and answers of the driver the reference
      count is right and a standalone device is open once; a name finds the device
      registered under it; [rt_kprintf] hands its text to the console.
    - A pipe is a bounded queue of bytes with waiting readers and writers, a work
      queue a sequence of works.
    - The shell: a line of expressions that is typed is evaluated
      ([FinshCorrect.shell_evaluates], from the characters to the value printed and
      the memory left), for the expressions [FinshSem.wt], which are those the
      compiler treats correctly; it is parsed with the precedence of C; the type
      check gives every node its width and marks the targets.  The line editor is a text with a cursor and a list of
      former lines, and the completion is the longest common prefix.
    - The device file systems: any history of calls on files and names is one on a
      table of open files ([DfsCorrect.dfs_refines_files]), for absolute paths below
      the root; paths are made canonical; the longest mount point is found;
      unmounting undoes mounting.  The heap below may refuse any request; a block
      it gives is not in use ([DfsProof.HeapLaws], which is what [HeapObjects] shows
      of rt_malloc), and what each function does without memory is stated.
    - Where the code goes wrong, a theorem says so: sizes near 2^32 in [rt_malloc],
      memory stranded by [rt_realloc], a release to a pool after a timeout, a
      wrapped data queue, a forced put that loses data, a work that is cancelled too late or submitted
      while another one waits, byte code that overruns the text segment, lines
      that overrun the buffer of the editor, paths above the root, a type of file
      system that is not known, and a file that is open while its file system is
      unmounted.

    The theorems about devices, pipes and work queues, which use the lists through
    the functions of the kernel, are proved over sequences too.

    A hypothesis [kinv k] says that the invariant holds when the call is made;
    [calls k t th] that the running thread [t] makes the call, with the scheduler
    unlocked and another thread ready (the idle thread always is).  Waiting times
    are below half the range of the tick counter, as [rt_timer_start] asserts.

    ** Fuel

    Loops over a list are given one round more than the list can have elements
    (the number of threads, timers or objects); that this is enough is part of
    the theorems, since a [wp] excludes running out of fuel.  The loops of the
    waiting calls are given two rounds: the first waits, and the rest of the loop
    is the continuation.  [rt_timer_check] has a round per timer: each fires at
    most once, as the timeout functions make none due; with a period of 0 the code
    does not end either.  Loops over
    a string have a round per byte of memory, the digits of a number 17 rounds: the
    16 bytes for them are full before.  The machine of the shell is given a round
    per byte of its text and one more, as every operation takes at least one byte;
    its parser four rounds per character of the line, since every token is asked for
    at most once at each level and given back; its tokeniser a round per character;
    its heap a round per header that fits.  That a line of expressions is parsed,
    compiled and run within these bounds is part of the theorems.

    ** Not modelled

    - The context switch (libcpu, assembly): the running thread is
      [rt_current_thread]; a call is one step, and interrupts come between calls.
      Within a call the interrupt mask is modelled and restored, but an interrupt
      does not come in the middle of one.
    - The hooks (RT_USING_HOOK is configured: functions of the application, called at
      fixed places once they are set, and null until then), the debug output, and the memory returned to the
      heap by the deletion of an object (the heap is a model of its own, and what
      it returns is an argument of the creating functions).
    - Loadable modules, the slab allocator and the memory heap objects
      (src/module.c, src/slab.c, src/memheap.c: not configured), soft timers (not
      configured), the idle loop, and the initialisation of board and components.
    - How rt_vsnprintf fetches a double from its arguments: flt is modelled, but a
      format with a floating-point conversion has no result in the model of
      rt_vsnprintf.  That the digits flt prints are those nearest to the number is
      not stated: the code rounds at each step.  Portals (portal.c) and the drivers.
    - Of the shell: what is echoed, its device, its semaphore and its thread; the
      functions a line may call are the parameter [call], which changes the memory;
      the symbol tables are constant (finsh_syscall_append and finsh_sysvar_append are not
      modelled); the commands of cmd.c and the module shell (msh, not configured).
      The theorems on lines do not cover strings and declarations, which are modelled.
    - Of the device file systems: the commands that print (ls, cat, copy, mkfs, df),
      the mount table, the descriptors of standard input and output (not
      configured), and how threads wait for their lock, which is counted.  The
      history theorem does not cover directories, relative paths and mounting on a
      directory, which are modelled.
    - The file systems themselves (mostly third-party), network, GUI, C library
      glue, C++ wrappers and the board support packages. *)

From Stdlib Require Export ZArith Lia.
From Stdlib Require Export Sorting.Sorted.
From stdpp Require Export base numbers gmap functions list sorting.

#[export] Set Default Goal Selector "!".
#[global] Open Scope Z_scope.

(** ** Machine integers

    The target is a 32-bit ARM: [unsigned long], [rt_size_t], [rt_tick_t] and
    addresses are 32 bits wide.  A w-bit unsigned value is a [Z] in
    [0, 2^w); the functions below write the truncation of an assignment or an
    arithmetic operation out. *)

Definition u8 (z : Z) : Z := z mod 2 ^ 8.
Definition u16 (z : Z) : Z := z mod 2 ^ 16.
Definition u32 (z : Z) : Z := z mod 2 ^ 32.

(** Conversion to a signed w-bit integer (two's complement). *)
Definition s8 (z : Z) : Z := (z + 2 ^ 7) mod 2 ^ 8 - 2 ^ 7.
Definition s16 (z : Z) : Z := (z + 2 ^ 15) mod 2 ^ 16 - 2 ^ 15.
Definition s32 (z : Z) : Z := (z + 2 ^ 31) mod 2 ^ 32 - 2 ^ 31.

Definition in_u8 (z : Z) : Prop := 0 <= z < 2 ^ 8.
Definition in_u16 (z : Z) : Prop := 0 <= z < 2 ^ 16.
Definition in_u32 (z : Z) : Prop := 0 <= z < 2 ^ 32.

(** [lia] after the definitions above and Euclidean division are expanded. *)
Ltac mlia :=
  unfold u8, u16, u32, s8, s16, s32, in_u8, in_u16, in_u32 in *;
  change (2 ^ 7) with 128 in *; change (2 ^ 8) with 256 in *;
  change (2 ^ 15) with 32768 in *; change (2 ^ 16) with 65536 in *;
  change (2 ^ 31) with 2147483648 in *; change (2 ^ 32) with 4294967296 in *;
  Z.to_euclidean_division_equations; lia.

(** Runs a bind of the [option] monad whose first part is known. *)
Ltac obind := cbn [mbind option_bind].

Create HintDb rt.

Lemma u8_small z : in_u8 z → u8 z = z.
Proof. intros H. by apply Z.mod_small. Qed.
Lemma u16_small z : in_u16 z → u16 z = z.
Proof. intros H. by apply Z.mod_small. Qed.
Lemma u32_small z : in_u32 z → u32 z = z.
Proof. intros H. by apply Z.mod_small. Qed.
Lemma u8_range z : in_u8 (u8 z).
Proof. by apply Z.mod_pos_bound. Qed.
Lemma u16_range z : in_u16 (u16 z).
Proof. by apply Z.mod_pos_bound. Qed.
Lemma u32_range z : in_u32 (u32 z).
Proof. by apply Z.mod_pos_bound. Qed.
#[export] Hint Resolve u8_range u16_range u32_range : rt.

Lemma s16_small z : - 2 ^ 15 <= z < 2 ^ 15 → s16 z = z.
Proof. intros. mlia. Qed.
Lemma s32_small z : - 2 ^ 31 <= z < 2 ^ 31 → s32 z = z.
Proof. intros. mlia. Qed.

(** Rounding to a power of two (include/rtdef.h). *)
Definition RT_ALIGN_SIZE : Z := 4.
Definition RT_ALIGN (size align : Z) : Z := Z.land (u32 (size + align - 1)) (Z.lnot (align - 1)).
Definition RT_ALIGN_DOWN (size align : Z) : Z := Z.land size (Z.lnot (align - 1)).

Lemma RT_ALIGN_4 x : 0 <= x <= 2 ^ 32 - 4 → RT_ALIGN x RT_ALIGN_SIZE = 4 * ((x + 3) / 4).
Proof.
  intros Hx. unfold RT_ALIGN, RT_ALIGN_SIZE. rewrite u32_small by mlia.
  rewrite <-Z.ldiff_land. change (4 - 1) with (Z.ones 2). rewrite Z.ldiff_ones_r by lia.
  rewrite Z.shiftl_mul_pow2, Z.shiftr_div_pow2 by lia. change (2 ^ 2) with 4.
  replace (x + 4 - 1) with (x + 3) by lia. lia.
Qed.

Lemma RT_ALIGN_DOWN_4 x : RT_ALIGN_DOWN x RT_ALIGN_SIZE = 4 * (x / 4).
Proof.
  unfold RT_ALIGN_DOWN, RT_ALIGN_SIZE. rewrite <-Z.ldiff_land. change (4 - 1) with (Z.ones 2).
  rewrite Z.ldiff_ones_r, Z.shiftl_mul_pow2, Z.shiftr_div_pow2 by lia. change (2 ^ 2) with 4. lia.
Qed.

(** ** Lists *)

Lemma default_last_elem {A} (d : A) (xs : list A) : default d (last xs) ∈ d :: xs.
Proof.
  destruct xs as [|x xs _] using rev_ind; simpl; [set_solver|].
  rewrite last_snoc. set_solver.
Qed.

Lemma default_head_elem {A} (d : A) (xs : list A) : default d (head xs) ∈ d :: xs.
Proof. destruct xs; set_solver. Qed.

Lemma default_last_notin {A} (d : A) (xs : list A) x :
  x ∉ d :: xs → default d (last xs) ≠ x.
Proof. intros Hx <-. apply Hx, default_last_elem. Qed.

Lemma default_head_notin {A} (d : A) (xs : list A) x :
  x ∉ d :: xs → default d (head xs) ≠ x.
Proof. intros Hx <-. apply Hx, default_head_elem. Qed.

(** ** Arrays

    A C array is a [list]; [seg a b l] is its part from index [a] to [b]
    (exclusive).  [arr_read], [arr_write] and [memcpy] are [None] when they
    touch an index outside the array: the count of [memcpy] is a [size_t], so a
    negative count is a huge one and is outside too. *)

Section arrays.
Context {A : Type}.
Implicit Types (l d e : list A) (a b c i n : Z).

Definition zlen l : Z := Z.of_nat (length l).

Definition seg a b l : list A := take (Z.to_nat (b - a)) (drop (Z.to_nat a) l).

Definition arr_get i l : option A :=
  if bool_decide (0 <= i) then l !! Z.to_nat i else None.

Definition arr_set i (v : A) l : option (list A) :=
  if bool_decide (0 <= i < zlen l) then Some (<[Z.to_nat i := v]> l) else None.

Definition arr_read a n l : option (list A) :=
  if bool_decide (0 <= a ∧ 0 <= n ∧ a + n <= zlen l) then Some (seg a (a + n) l) else None.

Definition arr_write a d l : option (list A) :=
  if bool_decide (0 <= a ∧ a + zlen d <= zlen l)
  then Some (take (Z.to_nat a) l ++ d ++ drop (Z.to_nat (a + zlen d)) l) else None.

Definition memcpy dst (doff : Z) src (soff n : Z) : option (list A) :=
  d ← arr_read soff n src; arr_write doff d dst.

Lemma zlen_nonneg l : 0 <= zlen l.
Proof. unfold zlen. lia. Qed.

Lemma zlen_cons (x : A) l : zlen (x :: l) = zlen l + 1.
Proof. unfold zlen. simpl. lia. Qed.

Lemma zlen_app l d : zlen (l ++ d) = zlen l + zlen d.
Proof. unfold zlen. rewrite length_app. lia. Qed.

Lemma zlen_seg a b l : 0 <= a <= b → b <= zlen l → zlen (seg a b l) = b - a.
Proof. unfold zlen, seg. intros. rewrite length_take, length_drop. lia. Qed.

Lemma seg_nil a l : seg a a l = [].
Proof. unfold seg. by rewrite Z.sub_diag. Qed.

Lemma seg_all l : seg 0 (zlen l) l = l.
Proof. unfold seg, zlen. rewrite Z.sub_0_r, Nat2Z.id. simpl. by rewrite firstn_all. Qed.

Lemma seg_app a b c l : 0 <= a <= b → b <= c → seg a b l ++ seg b c l = seg a c l.
Proof.
  unfold seg. intros ??.
  replace (Z.to_nat (c - a)) with (Z.to_nat (b - a) + Z.to_nat (c - b))%nat by lia.
  rewrite <-take_take_drop, drop_drop. do 3 f_equal. lia.
Qed.

Lemma seg_seg a b c i l : 0 <= c <= i → 0 <= a → i <= b - a →
  seg c i (seg a b l) = seg (a + c) (a + i) l.
Proof.
  unfold seg. intros ???. rewrite skipn_firstn_comm, firstn_firstn, skipn_skipn.
  f_equal; [lia|]. f_equal. lia.
Qed.

Lemma seg_take a b l (n : nat) : 0 <= a → b <= Z.of_nat n → seg a b (take n l) = seg a b l.
Proof.
  unfold seg. intros ??. rewrite skipn_firstn_comm, firstn_firstn. f_equal. lia.
Qed.

Lemma arr_read_ok a n l : 0 <= a → 0 <= n → a + n <= zlen l →
  arr_read a n l = Some (seg a (a + n) l).
Proof. intros. unfold arr_read. by rewrite bool_decide_true. Qed.

Lemma arr_get_ok i l : 0 <= i < zlen l →
  ∃ v, arr_get i l = Some v ∧ seg i (i + 1) l = [v].
Proof.
  unfold zlen, arr_get, seg. intros. rewrite bool_decide_true by lia.
  destruct (lookup_lt_is_Some_2 l (Z.to_nat i)) as [v Hv]; [lia|].
  exists v. split; [done|]. replace (Z.to_nat (i + 1 - i)) with 1%nat by lia.
  by rewrite (drop_S _ v _ Hv).
Qed.

(** What a write leaves: the data where it was written, the rest elsewhere. *)
Lemma arr_write_spec a d l : 0 <= a → a + zlen d <= zlen l →
  ∃ l', arr_write a d l = Some l' ∧ zlen l' = zlen l ∧
    seg a (a + zlen d) l' = d ∧
    (∀ b c, 0 <= b → c <= a → seg b c l' = seg b c l) ∧
    (∀ b c, a + zlen d <= b → seg b c l' = seg b c l).
Proof.
  intros Ha Hl. unfold arr_write. rewrite bool_decide_true by done.
  eexists. split; [done|]. unfold zlen, seg in *. split_and!.
  - rewrite !length_app, length_take, length_drop. lia.
  - rewrite drop_app_length' by (rewrite length_take; lia).
    apply take_app_length'. lia.
  - intros b c Hb Hc. destruct (decide (c <= b)).
    { replace (Z.to_nat (c - b)) with 0%nat by lia. done. }
    rewrite drop_app_le by (rewrite length_take; lia).
    rewrite take_app_le by (rewrite length_drop, length_take; lia).
    rewrite skipn_firstn_comm, firstn_firstn. f_equal. lia.
  - intros b c Hb. f_equal. rewrite (assoc_L (++)).
    rewrite drop_app_ge by (rewrite length_app, length_take; lia).
    rewrite drop_drop. f_equal. rewrite length_app, length_take. lia.
Qed.

Lemma seg_app_l d l : seg 0 (zlen d) (d ++ l) = d.
Proof. unfold seg, zlen. simpl. apply take_app_length'. lia. Qed.

Lemma seg_app_r d l : seg (zlen d) (zlen (d ++ l)) (d ++ l) = l.
Proof.
  unfold seg, zlen. rewrite drop_app_length' by lia. rewrite length_app.
  apply firstn_all2. lia.
Qed.

Lemma arr_write_app d l e : zlen e <= zlen l →
  arr_write (zlen d) e (d ++ l) = Some (d ++ e ++ seg (zlen e) (zlen l) l).
Proof.
  intros He. pose proof (zlen_nonneg d). pose proof (zlen_nonneg e).
  unfold arr_write. rewrite zlen_app, bool_decide_true by lia. f_equal.
  unfold zlen in *. rewrite take_app_length' by lia. do 2 f_equal.
  rewrite drop_app_ge by lia. unfold seg. rewrite firstn_all2 by (rewrite length_drop; lia).
  f_equal. lia.
Qed.

Lemma arr_write_0 l e : zlen e <= zlen l →
  arr_write 0 e l = Some (e ++ seg (zlen e) (zlen l) l).
Proof. apply (arr_write_app []). Qed.

Lemma arr_set_write i v l : arr_set i v l = arr_write i [v] l.
Proof.
  unfold arr_set, arr_write, zlen. simpl. case_bool_decide as Hi; case_bool_decide as Hw;
    try lia; [|done]. f_equal.
  rewrite insert_take_drop by lia. do 3 f_equal. lia.
Qed.

End arrays.

#[global] Arguments seg : simpl never.
(** The C string in an array; [None]: it is not terminated. *)
Fixpoint cstring (l : list Z) : option (list Z) :=
  match l with
  | [] => None
  | c :: l => if bool_decide (c = 0) then Some [] else s ← cstring l; Some (c :: s)
  end.

(** The element behind a prefix. *)
Lemma arr_get_mid {A} (b : list A) x r : arr_get (zlen b) (b ++ x :: r) = Some x.
Proof.
  unfold arr_get. rewrite bool_decide_true by (apply zlen_nonneg).
  rewrite lookup_app_r by (unfold zlen; lia). by replace (Z.to_nat _ - _)%nat with O by (unfold zlen; lia).
Qed.
Lemma arr_set_mid {A} (b : list A) x y r : arr_set (zlen b) y (b ++ x :: r) = Some (b ++ y :: r).
Proof.
  unfold arr_set. rewrite zlen_app, zlen_cons. pose proof (zlen_nonneg b). pose proof (zlen_nonneg r).
  rewrite bool_decide_true by lia. f_equal. rewrite insert_app_r_alt by (unfold zlen; lia).
  by replace (Z.to_nat _ - _)%nat with O by (unfold zlen; lia).
Qed.

#[global] Arguments arr_get : simpl never.
#[global] Arguments arr_set : simpl never.
#[global] Arguments arr_read : simpl never.
#[global] Arguments arr_write : simpl never.
#[global] Arguments zlen : simpl never.

(** Distinct keys of a finite map are no more than its size. *)
Lemma NoDup_keys_size `{Countable A} {B} (m : gmap A B) (l : list A) :
  NoDup l → (∀ x, x ∈ l → is_Some (m !! x)) → (length l <= size m)%nat.
Proof.
  intros Hnd Hin. assert (list_to_set l ⊆@{gset A} dom m) as Hsub.
  { intros x Hx%elem_of_list_to_set. apply elem_of_dom. auto. }
  apply subseteq_size in Hsub. by rewrite (size_dom m), size_list_to_set in Hsub.
Qed.
