(* ===== verification/DList.v ===== *)
(** * Intrusive circular doubly linked lists (include/rtservice.h)

    Every kernel queue is an [rt_list_t]: a circular list whose nodes are
    embedded in the objects.  This file models the nodes as a store of
    [next] and [prev] fields, the inline functions of rtservice.h as the
    sequences of reads and writes they are, and proves that on a store of
    disjoint rings they implement the operations on finite sequences the rest
    of the kernel relies on. *)

From S2P Require Import Prelude.

(** ** The node store and the functions of rtservice.h *)

Section dlist.
Context {A : Type} `{Countable A}.
Implicit Types (l n p : A) (xs ys : list A).

(** [struct rt_list_node], one [next] and one [prev] field per node. *)
Record lheap : Type := LHeap { nxt : gmap A A; prv : gmap A A }.

Implicit Types h : lheap.

Definition lh_empty : lheap := LHeap ∅ ∅.

(** Writing a field; reading one is the lookup [nxt h !! n], which is [None]
    on a node that was never initialised. *)
Definition set_next n v h : lheap := LHeap (<[n := v]> (nxt h)) (prv h).
Definition set_prev n v h : lheap := LHeap (nxt h) (<[n := v]> (prv h)).

Definition rt_list_init l h : lheap := set_next l l (set_prev l l h).

Definition rt_list_insert_after l n h : option lheap :=
  ln ← nxt h !! l;
  let h := set_prev ln n h in
  ln' ← nxt h !! l;
  let h := set_next n ln' h in
  let h := set_next l n h in
  Some (set_prev n l h).

Definition rt_list_insert_before l n h : option lheap :=
  lp ← prv h !! l;
  let h := set_next lp n h in
  lp' ← prv h !! l;
  let h := set_prev n lp' h in
  let h := set_prev l n h in
  Some (set_next n l h).

Definition rt_list_remove n h : option lheap :=
  nn ← nxt h !! n; np ← prv h !! n;
  let h := set_prev nn np h in
  np' ← prv h !! n; nn' ← nxt h !! n;
  let h := set_next np' nn' h in
  Some (set_next n n (set_prev n n h)).

Definition rt_list_isempty l h : option bool :=
  ln ← nxt h !! l; Some (bool_decide (ln = l)).

(** ** Rings *)

Definition lnk h p n : Prop := nxt h !! p = Some n ∧ prv h !! n = Some p.

(** [chain h p xs n]: following [next] from [p] visits [xs] and reaches [n],
    and the [prev] fields agree. *)
Fixpoint chain h p xs n : Prop :=
  match xs with
  | [] => lnk h p n
  | x :: xs => lnk h p x ∧ chain h x xs n
  end.

(** The list headed by [l] holds the nodes [xs], in this order. *)
Definition ring h l xs : Prop := chain h l xs l ∧ NoDup (l :: xs).

Lemma chain_app h p xs x ys n :
  chain h p (xs ++ x :: ys) n ↔ chain h p xs x ∧ chain h x ys n.
Proof.
  revert p. induction xs as [|y xs IH]; intros p; simpl; [done|].
  rewrite IH. tauto.
Qed.

Lemma chain_frame h h' p xs n :
  (∀ x, x ∈ p :: xs → nxt h' !! x = nxt h !! x) →
  (∀ x, x ∈ xs ++ [n] → prv h' !! x = prv h !! x) →
  chain h p xs n → chain h' p xs n.
Proof.
  revert p. induction xs as [|x xs IH]; intros p Hn Hp; simpl; unfold lnk.
  - rewrite Hn, Hp by set_solver. done.
  - rewrite Hn, Hp by set_solver. intros [? Hc]. split; [done|].
    apply IH; [set_solver..|done].
Qed.

Lemma ring_frame h h' l xs :
  (∀ x, x ∈ l :: xs → nxt h' !! x = nxt h !! x ∧ prv h' !! x = prv h !! x) →
  ring h l xs → ring h' l xs.
Proof.
  intros Hf [Hc Hnd]. split; [|done].
  apply (chain_frame h); [intros; apply Hf; set_solver..|done].
Qed.

Lemma ring_next h l xs : ring h l xs → nxt h !! l = Some (default l (head xs)).
Proof. intros [Hc _]. destruct xs; [apply Hc|apply (proj1 Hc)]. Qed.

Lemma ring_prev h l xs : ring h l xs → prv h !! l = Some (default l (last xs)).
Proof.
  intros [Hc _]. destruct xs as [|x xs] using rev_ind; [apply Hc|].
  rewrite last_snoc. rewrite chain_app in Hc. apply (proj2 Hc).
Qed.

Lemma ring_isempty h l xs :
  ring h l xs → rt_list_isempty l h = Some (bool_decide (xs = [])).
Proof.
  intros Hr. unfold rt_list_isempty. rewrite (ring_next _ _ _ Hr). simpl.
  f_equal. apply bool_decide_ext. destruct Hr as [_ Hnd].
  destruct xs; simpl; [done|]. apply NoDup_cons in Hnd as [? _]. set_solver.
Qed.

Lemma chain_mid h p xs ys n :
  chain h p (xs ++ ys) n → lnk h (default p (last xs)) (default n (head ys)).
Proof.
  destruct xs as [|a xs _] using rev_ind.
  - destruct ys; simpl; [done|tauto].
  - rewrite last_snoc, <-(assoc_L (++)), <-cons_middle, chain_app. destruct ys; simpl; tauto.
Qed.

(** Splicing [n] into a chain changes the four fields around it. *)
Lemma chain_splice h h' p xs ys n q :
  NoDup (p :: xs) → NoDup (ys ++ [q]) →
  (∀ x, x ∈ xs → x ∉ ys ++ [q]) → (∀ x, x ∈ p :: xs → x ∉ ys) →
  n ∉ p :: xs → n ∉ ys ++ [q] →
  let a := default p (last xs) in
  let b := default q (head ys) in
  lnk h' a n → lnk h' n b →
  (∀ x, x ≠ a → x ≠ n → nxt h' !! x = nxt h !! x) →
  (∀ x, x ≠ b → x ≠ n → prv h' !! x = prv h !! x) →
  chain h p (xs ++ ys) q → chain h' p (xs ++ n :: ys) q.
Proof.
  intros Hndx Hndy Hd1 Hd2 Hnx Hny a b Ha Hb Hn Hp Hc.
  rewrite chain_app. split.
  - destruct xs as [|x xs _] using rev_ind; [done|].
    subst a; rewrite last_snoc in Ha, Hn; simpl in *.
    rewrite <-(assoc_L (++)), <-cons_middle, chain_app in Hc. destruct Hc as [Hc _].
    rewrite chain_app; split; [|done].
    apply (chain_frame h); [| |done].
    + intros y Hy. apply Hn.
      * intros ->. apply NoDup_cons in Hndx as [? Hndx].
        apply NoDup_app in Hndx as (_&Hx&_). set_solver.
      * intros ->. set_solver.
    + intros y Hy. apply Hp.
      * intros ->. destruct ys as [|z ys]; simpl in *; set_solver.
      * intros ->. set_solver.
  - destruct ys as [|y ys]; [done|]. subst b; simpl in *.
    rewrite chain_app in Hc. destruct Hc as [_ Hc].
    split; [done|]. apply (chain_frame h); [| |done].
    + intros z Hz. apply Hn.
      * intros ->. subst a. destruct xs as [|x xs _] using rev_ind; simpl in *; [set_solver|].
        rewrite last_snoc in Hz. simpl in *. set_solver.
      * intros ->. set_solver.
    + intros z Hz. apply Hp.
      * intros ->. apply NoDup_cons in Hndy as [? _]. set_solver.
      * intros ->. set_solver.
Qed.

(** Heaps that agree outside the nodes [xs]. *)
Definition same_outside h h' xs : Prop :=
  ∀ x, x ∉ xs → nxt h' !! x = nxt h !! x ∧ prv h' !! x = prv h !! x.

Lemma ring_other h h' l xs zs :
  ring h l xs → same_outside h h' zs → (∀ x, x ∈ l :: xs → x ∉ zs) → ring h' l xs.
Proof. intros Hr Hs Hd. eapply ring_frame, Hr. intros x Hx. by apply Hs, Hd. Qed.

Section insert.
Context h l xs ys n (Hr : ring h l (xs ++ ys)) (Hn : n ∉ l :: xs ++ ys).

Let a := default l (last xs).
Let b := default l (head ys).

#[local] Lemma insert_ab : lnk h a b ∧ a ≠ n ∧ b ≠ n.
Proof using Hr Hn.
  destruct Hr as [Hc _]. split; [by apply chain_mid|].
  split; [apply default_last_notin|apply default_head_notin]; set_solver.
Qed.

#[local] Lemma ring_spliced h' :
  lnk h' a n → lnk h' n b →
  (∀ x, x ≠ a → x ≠ n → nxt h' !! x = nxt h !! x) →
  (∀ x, x ≠ b → x ≠ n → prv h' !! x = prv h !! x) →
  ring h' l (xs ++ n :: ys) ∧ same_outside h h' (n :: l :: xs ++ ys).
Proof using Hr Hn.
  intros Ha Hb Hnx Hpv. destruct Hr as [Hc Hnd].
  apply NoDup_cons in Hnd as [Hl Hnd]. pose proof Hnd as Hnd'.
  apply NoDup_app in Hnd' as (Hx&Hxy&Hy).
  split; [split|].
  - apply (chain_splice h); [..|done]; try done.
    + apply NoDup_cons. clear -Hl Hx. set_solver.
    + apply NoDup_app. split_and!; [done| |apply NoDup_singleton].
      intros y Hy' ->%list_elem_of_singleton. clear -Hl Hy'. set_solver.
    + clear -Hxy Hl. set_solver.
    + clear -Hxy Hl. set_solver.
    + clear -Hn. set_solver.
    + clear -Hn. set_solver.
  - rewrite <-Permutation_middle. rewrite Permutation_swap.
    apply NoDup_cons; split; [done|]. by apply NoDup_cons.
  - intros x Hx'. clear -Hnx Hpv Hx'. split; [apply Hnx|apply Hpv].
    + symmetry. apply default_last_notin. set_solver.
    + set_solver.
    + symmetry. apply default_head_notin. set_solver.
    + set_solver.
Qed.

Lemma ring_insert_before : ∃ h', rt_list_insert_before b n h = Some h' ∧
  ring h' l (xs ++ n :: ys) ∧ same_outside h h' (n :: l :: xs ++ ys).
Proof using Hr Hn.
  destruct insert_ab as ([Hab Hba]&Han&Hbn).
  unfold rt_list_insert_before. rewrite Hba. simpl. rewrite Hba. simpl.
  eexists; split; [done|]. apply ring_spliced; unfold lnk, set_next, set_prev; simpl.
  - split; [by rewrite lookup_insert_ne, lookup_insert_eq|].
    by rewrite lookup_insert_ne, lookup_insert_eq.
  - by rewrite !lookup_insert_eq.
  - intros x ??. by rewrite !lookup_insert_ne.
  - intros x ??. by rewrite !lookup_insert_ne.
Qed.

Lemma ring_insert_after : ∃ h', rt_list_insert_after a n h = Some h' ∧
  ring h' l (xs ++ n :: ys) ∧ same_outside h h' (n :: l :: xs ++ ys).
Proof using Hr Hn.
  destruct insert_ab as ([Hab Hba]&Han&Hbn).
  unfold rt_list_insert_after. rewrite Hab. simpl. rewrite Hab. simpl.
  eexists; split; [done|]. apply ring_spliced; unfold lnk, set_next, set_prev; simpl.
  - by rewrite !lookup_insert_eq.
  - split; [by rewrite lookup_insert_ne, lookup_insert_eq|].
    by rewrite lookup_insert_ne, lookup_insert_eq.
  - intros x ??. by rewrite !lookup_insert_ne.
  - intros x ??. by rewrite !lookup_insert_ne.
Qed.

End insert.

Lemma ring_init l h : ring (rt_list_init l h) l [].
Proof.
  split; [|apply NoDup_singleton]. simpl.
  split; simpl; by rewrite lookup_insert_eq.
Qed.

Lemma init_outside l h : same_outside h (rt_list_init l h) [l].
Proof. intros x Hx. simpl. rewrite !lookup_insert_ne by set_solver. done. Qed.

(** Redirecting the last link of a chain from [n] to [b]. *)
Lemma chain_relink h h' p xs n a b :
  chain h p xs n → lnk h' a b →
  (∀ x, x ≠ a → x ≠ n → nxt h' !! x = nxt h !! x) →
  (∀ x, x ≠ b → x ≠ n → prv h' !! x = prv h !! x) →
  default p (last xs) = a → NoDup (p :: xs) → b ∉ xs → n ∉ p :: xs → chain h' p xs b.
Proof.
  intros Hc Hab Hfn Hfp. revert p Hc.
  induction xs as [|x xs IH]; intros p Hc Ha Hnd Hb Hn; simpl in *; [by subst|].
  destruct Hc as [[Hx1 Hx2] Hc]. apply NoDup_cons in Hnd as [Hp Hnd].
  assert (p ≠ a).
  { intros ->. apply Hp. rewrite last_cons in Ha.
    destruct (last xs) eqn:E; simpl in Ha; subst; [|set_solver].
    apply last_Some_elem_of in E. set_solver. }
  split.
  - split; [rewrite Hfn by set_solver|rewrite Hfp by set_solver]; done.
  - apply IH; [done| |done|set_solver..].
    rewrite last_cons in Ha. destruct (last xs); done.
Qed.

(** Taking [n] out of a ring links its two neighbours. *)
Section unlink.
Context h l xs n ys (Hr : ring h l (xs ++ n :: ys)).

Let a := default l (last xs).
Let b := default l (head ys).

#[local] Lemma unlink_NoDup : NoDup (l :: xs ++ ys) ∧ n ∉ l :: xs ++ ys.
Proof using Hr.
  destruct Hr as [_ Hnd].
  rewrite <-Permutation_middle, Permutation_swap in Hnd.
  apply NoDup_cons in Hnd as [? ?]. done.
Qed.

#[local] Lemma unlink_ab : lnk h a n ∧ lnk h n b ∧ a ≠ n ∧ b ≠ n.
Proof using Hr.
  destruct unlink_NoDup as [_ Hn]. destruct Hr as [Hc _].
  apply chain_app in Hc as [Hc1 Hc2]. split_and!.
  - apply (chain_mid h l xs []). by rewrite app_nil_r.
  - by apply (chain_mid h n [] ys).
  - apply default_last_notin. clear -Hn. set_solver.
  - apply default_head_notin. clear -Hn. set_solver.
Qed.

#[local] Lemma ring_unspliced h' :
  lnk h' a b →
  (∀ x, x ≠ a → x ≠ n → nxt h' !! x = nxt h !! x) →
  (∀ x, x ≠ b → x ≠ n → prv h' !! x = prv h !! x) →
  ring h' l (xs ++ ys).
Proof using Hr.
  intros Hab Hfn Hfp. destruct unlink_NoDup as [Hnd Hn]. split; [|done].
  destruct Hr as [Hc _]. apply chain_app in Hc as [Hc1 Hc2].
  apply NoDup_cons in Hnd as [Hl Hnd]. apply NoDup_app in Hnd as (Hx&Hxy&Hy).
  assert (b ∉ xs) as Hb.
  { subst b. destruct ys; simpl; clear -Hl Hxy; set_solver. }
  assert (chain h' l xs b) as H1.
  { apply (chain_relink h h' l xs n a b); try done.
    - apply NoDup_cons. clear -Hl Hx. set_solver.
    - clear -Hn. set_solver. }
  destruct ys as [|y ys']; [by rewrite app_nil_r|]. apply chain_app. split; [done|].
  destruct Hc2 as [_ Hc2]. apply (chain_frame h); [| |done].
  - intros x Hx'. apply Hfn; [|clear -Hx' Hn; set_solver].
    symmetry. apply default_last_notin. clear -Hx' Hxy Hl. set_solver.
  - intros x Hx'. apply Hfp; [|clear -Hx' Hn; set_solver].
    subst b; simpl. intros ->.
    apply NoDup_cons in Hy as [Hy _]. clear -Hx' Hl Hy. set_solver.
Qed.

Lemma ring_remove :
  ∃ h', rt_list_remove n h = Some h' ∧ ring h' l (xs ++ ys) ∧ ring h' n [] ∧
        same_outside h h' (l :: xs ++ n :: ys).
Proof using Hr.
  destruct unlink_ab as ([Han Hna]&[Hnb Hbn]&Ha&Hb).
  unfold rt_list_remove. rewrite Hnb, Hna. simpl.
  rewrite lookup_insert_ne, Hna by done. simpl. rewrite Hnb. simpl.
  eexists; split; [done|]. set (h' := set_next n n _).
  assert (∀ x, x ≠ a → x ≠ n → nxt h' !! x = nxt h !! x) as Hfn.
  { intros. subst h'; simpl. by rewrite !lookup_insert_ne. }
  assert (∀ x, x ≠ b → x ≠ n → prv h' !! x = prv h !! x) as Hfp.
  { intros. subst h'; simpl. by rewrite !lookup_insert_ne. }
  split_and!.
  - apply ring_unspliced; [|done..].
    split; subst h'; simpl; rewrite lookup_insert_ne, lookup_insert_eq by done; done.
  - split; [|apply NoDup_singleton]. split; subst h'; simpl; by rewrite lookup_insert_eq.
  - intros x Hx. clear -Hfn Hfp Hx. split; [apply Hfn|apply Hfp].
    + symmetry. apply default_last_notin. set_solver.
    + set_solver.
    + symmetry. apply default_head_notin. set_solver.
    + set_solver.
Qed.

End unlink.

Lemma ring_remove_single h n : ring h n [] →
  ∃ h', rt_list_remove n h = Some h' ∧ ring h' n [] ∧ same_outside h h' [n].
Proof.
  intros [[Hn Hp] _]. unfold rt_list_remove. rewrite Hn, Hp. simpl.
  rewrite lookup_insert_eq. simpl. rewrite Hn. simpl. eexists; split; [done|]. split.
  - split; [|apply NoDup_singleton]. split; simpl; by rewrite lookup_insert_eq.
  - intros x Hx. simpl. rewrite !lookup_insert_ne by set_solver. done.
Qed.

End dlist.

Arguments lheap A {_ _}.
Arguments lh_empty {A _ _}.

(** ** A store of disjoint lists

    A node is the head of a list (an [rt_list_t] embedded in a queue) or an
    element (an [rt_list_t] embedded in a queued object).  [Rep h heads elems L]:
    every list of [heads] is the ring of the elements [L] gives it, no element
    is in two lists, and an element of [elems] that is in no list is a ring of
    its own, which is what [rt_list_init] and [rt_list_remove] leave. *)

Inductive node (HD EL : Type) : Type := Hd (x : HD) | El (e : EL).
Arguments Hd {HD EL} x.
Arguments El {HD EL} e.

#[global] Instance node_eq_dec `{EqDecision HD, EqDecision EL} : EqDecision (node HD EL).
Proof. solve_decision. Defined.

#[global] Instance node_countable `{Countable HD, Countable EL} : Countable (node HD EL).
Proof.
  refine (inj_countable'
    (λ n, match n with Hd x => inl x | El e => inr e end)
    (λ s, match s with inl x => Hd x | inr e => El e end) _).
  by intros [].
Defined.

Section store.
Context {HD EL : Type} `{Countable HD, Countable EL}.
Implicit Types (h : lheap (node HD EL)) (x y : HD) (e : EL) (L : HD → list EL).
Implicit Types (heads : HD → Prop) (elems : EL → Prop).

Definition detached L e : Prop := ∀ x, e ∉ L x.

Record Rep h heads elems L : Prop := {
  rep_ring x : heads x → ring h (Hd x) (El <$> L x);
  rep_self e : elems e → detached L e → ring h (El e) [];
  rep_heads x e : e ∈ L x → heads x;
  rep_elems x e : e ∈ L x → elems e;
  rep_disjoint x y e : e ∈ L x → e ∈ L y → x = y;
  rep_where e : elems e → detached L e ∨ ∃ x, e ∈ L x;
}.

(** The lists with [e] taken out of the one it is in. *)
Definition list_del e L : HD → list EL := λ x, filter (λ e', e' ≠ e) (L x).

Lemma elem_of_list_del e L x e' : e' ∈ list_del e L x ↔ e' ≠ e ∧ e' ∈ L x.
Proof. unfold list_del. by rewrite list_elem_of_filter. Qed.

Lemma list_del_detached e L : detached (list_del e L) e.
Proof. intros x. rewrite elem_of_list_del. tauto. Qed.

Lemma list_del_id e L x : e ∉ L x → list_del e L x = L x.
Proof.
  intros He. unfold list_del. induction (L x) as [|a l IH]; [done|].
  rewrite filter_cons_True by set_solver. f_equal. apply IH. set_solver.
Qed.

Lemma list_del_split e L x xs ys :
  L x = xs ++ e :: ys → e ∉ xs → e ∉ ys → list_del e L x = xs ++ ys.
Proof.
  intros E Hx Hy. pose proof (list_del_id e (λ _, xs) x Hx) as E1.
  pose proof (list_del_id e (λ _, ys) x Hy) as E2. unfold list_del in *.
  by rewrite E, filter_app, filter_cons_False, E1, E2 by tauto.
Qed.

Lemma Rep_ext h heads elems L L' :
  (∀ x, L' x = L x) → Rep h heads elems L → Rep h heads elems L'.
Proof.
  intros E [R1 R2 R3 R4 R5 R6]. split; intros.
  - rewrite E. auto.
  - apply R2; [done|]. intros x. rewrite <-E. auto.
  - rewrite E in *. eauto.
  - rewrite E in *. eauto.
  - rewrite E in *. eauto.
  - destruct (R6 e) as [Hd|[x Hx]]; [done|left|right].
    + intros x. rewrite E. auto.
    + exists x. by rewrite E.
Qed.

Lemma Rep_iff h heads heads' elems elems' L :
  (∀ x, heads x ↔ heads' x) → (∀ e, elems e ↔ elems' e) →
  Rep h heads elems L → Rep h heads' elems' L.
Proof.
  intros Eh Ee [R1 R2 R3 R4 R5 R6]. split; intros.
  - by apply R1, Eh.
  - apply R2; [by apply Ee|done].
  - apply Eh. eauto.
  - apply Ee. eauto.
  - eauto.
  - by apply R6, Ee.
Qed.

#[global] Instance Rep_proper h heads elems :
  Proper (pointwise_relation HD eq ==> iff) (Rep h heads elems).
Proof. intros L L' E. split; apply Rep_ext; intros x; by rewrite E. Qed.

Section laws.
Context h heads elems L (R : Rep h heads elems L).

Lemma Rep_next x : heads x →
  nxt h !! Hd x = Some (default (Hd x) (El <$> head (L x))).
Proof using R.
  intros Hx. rewrite (ring_next _ _ _ (rep_ring _ _ _ _ R x Hx)).
  by destruct (L x).
Qed.

Lemma Rep_isempty x : heads x →
  rt_list_isempty (Hd x) h = Some (bool_decide (L x = [])).
Proof using R.
  intros Hx. rewrite (ring_isempty _ _ _ (rep_ring _ _ _ _ R x Hx)).
  f_equal. apply bool_decide_ext. by destruct (L x).
Qed.

Lemma Rep_NoDup x : NoDup (L x).
Proof using R.
  destruct (L x) as [|a l] eqn:E; [constructor|].
  assert (heads x) as Hx by (apply (rep_heads _ _ _ _ R x a); rewrite E; left).
  pose proof (rep_ring _ _ _ _ R x Hx) as [_ Hnd]. rewrite E in Hnd.
  apply NoDup_cons in Hnd as [_ Hnd]. by apply NoDup_fmap_1 in Hnd.
Qed.

(** An element that is in some list can be found, given a finite choice. *)
Lemma Rep_split x e : e ∈ L x → ∃ xs ys, L x = xs ++ e :: ys ∧ (e ∉ xs) ∧ (e ∉ ys).
Proof using R.
  intros He. apply list_elem_of_split in He as (xs&ys&E). exists xs, ys.
  pose proof (Rep_NoDup x) as Hnd. rewrite E in Hnd.
  apply NoDup_app in Hnd as (_&Hx&[Hy _]%NoDup_cons).
  split_and!; [done| |done]. intros ?. apply (Hx e); set_solver.
Qed.

#[local] Lemma Rep_spliced h' x xs e ys :
  heads x → detached L e → L x = xs ++ ys →
  ring h' (Hd x) ((El <$> xs) ++ El e :: (El <$> ys)) →
  same_outside h h' (El e :: Hd x :: (El <$> xs) ++ (El <$> ys)) →
  Rep h' heads (λ e', e' = e ∨ elems e') (<[x := xs ++ e :: ys]> L).
Proof using R.
  intros Hx Hdet E Hr Hs. rewrite <-fmap_app, <-E in Hs.
  destruct R as [R1 R2 R3 R4 R5 R6].
  assert (∀ y e', e' ∈ <[x:=xs ++ e :: ys]> L y ↔ e' ∈ L y ∨ (e' = e ∧ y = x)) as Hin.
  { intros y e'. destruct (decide (x = y)) as [<-|].
    - rewrite fn_lookup_insert, E. set_solver.
    - rewrite fn_lookup_insert_ne by done. set_solver. }
  split.
  - intros y Hy. destruct (decide (x = y)) as [<-|].
    + rewrite fn_lookup_insert, fmap_app. done.
    + rewrite fn_lookup_insert_ne by done.
      eapply ring_other; [by apply R1|done|]. intros m Hn Hn'.
      apply elem_of_cons in Hn as [->|(a&->&Ha)%list_elem_of_fmap].
      * set_solver.
      * apply elem_of_cons in Hn' as [[= ->]|Hn']; [by eapply Hdet|].
        apply elem_of_cons in Hn' as [?|(b&[= ->]&Hb)%list_elem_of_fmap]; [done|].
        eauto.
  - intros e' He' Hd'. assert (e' ≠ e ∧ detached L e') as [Hne Hd''].
    { split; [|intros y Hy; by apply (Hd' y), Hin; left].
      intros ->. apply (Hd' x), Hin. by right. }
    destruct He' as [?|He']; [done|].
    eapply ring_other; [by apply R2|done|]. intros m Hm Hn.
    apply list_elem_of_singleton in Hm as ->.
    apply elem_of_cons in Hn as [[= ->]|Hn]; [done|].
    apply elem_of_cons in Hn as [?|(b&[= ->]&Hb)%list_elem_of_fmap]; [done|].
    by eapply Hd''.
  - intros y e' [?|[_ ->]]%Hin; eauto.
  - intros y e' [?|[-> _]]%Hin; eauto.
  - intros y z e' [?|[-> ->]]%Hin [?|[? ->]]%Hin; subst; eauto.
    + by destruct (Hdet y).
    + by destruct (Hdet z).
  - intros e' He'. destruct (decide (e' = e)) as [->|].
    { right. exists x. apply Hin. auto. }
    destruct (R6 e') as [Hd|[y Hy]]; [by destruct He'|left|right].
    + intros y [?|[? ?]]%Hin; [by eapply Hd|done].
    + exists y. apply Hin. auto.
Qed.

#[local] Lemma node_fresh x xs e ys : detached L e → L x = xs ++ ys →
  El e ∉ Hd x :: (El <$> xs) ++ (El <$> ys).
Proof using.
  intros Hd E. rewrite <-fmap_app, <-E. intros [?|(b&[= ->]&Hb)%list_elem_of_fmap]%elem_of_cons;
    [done|]. by eapply Hd.
Qed.

(** Insertion: [rt_list_insert_before] at the head appends, at an element puts
    the new one just before it; [rt_list_insert_after] at the head prepends. *)
Lemma Rep_insert_before x xs e ys :
  heads x → detached L e → L x = xs ++ ys →
  ∃ h', rt_list_insert_before (default (Hd x) (El <$> head ys)) (El e) h = Some h' ∧
        Rep h' heads (λ e', e' = e ∨ elems e') (<[x := xs ++ e :: ys]> L).
Proof using R.
  intros Hx Hdet E. pose proof (rep_ring _ _ _ _ R x Hx) as Hr.
  rewrite E, fmap_app in Hr.
  destruct (ring_insert_before h (Hd x) (El <$> xs) (El <$> ys) (El e) Hr)
    as (h'&Hop&Hr'&Hs'); [by apply node_fresh|].
  exists h'. split; [|by eapply Rep_spliced]. by destruct ys.
Qed.

Lemma Rep_append x e : heads x → detached L e →
  ∃ h', rt_list_insert_before (Hd x) (El e) h = Some h' ∧
        Rep h' heads (λ e', e' = e ∨ elems e') (<[x := L x ++ [e]]> L).
Proof using R.
  intros. apply (Rep_insert_before x (L x) e []); [done..|]. by rewrite app_nil_r.
Qed.

Lemma Rep_insert_after x xs e ys :
  heads x → detached L e → L x = xs ++ ys →
  ∃ h', rt_list_insert_after (default (Hd x) (El <$> last xs)) (El e) h = Some h' ∧
        Rep h' heads (λ e', e' = e ∨ elems e') (<[x := xs ++ e :: ys]> L).
Proof using R.
  intros Hx Hdet E. pose proof (rep_ring _ _ _ _ R x Hx) as Hr.
  rewrite E, fmap_app in Hr.
  destruct (ring_insert_after h (Hd x) (El <$> xs) (El <$> ys) (El e) Hr)
    as (h'&Hop&Hr'&Hs'); [by apply node_fresh|].
  exists h'. split; [|by eapply Rep_spliced]. by rewrite fmap_last in Hop.
Qed.

Lemma Rep_prepend x e : heads x → detached L e →
  ∃ h', rt_list_insert_after (Hd x) (El e) h = Some h' ∧
        Rep h' heads (λ e', e' = e ∨ elems e') (<[x := e :: L x]> L).
Proof using R. intros. by apply (Rep_insert_after x [] e (L x)). Qed.

(** Removal takes the element out of the list it is in, if any. *)
Definition removed h' e : Prop :=
  ring h' (El e) [] ∧
  (∀ x, heads x → ring h' (Hd x) (El <$> list_del e L x)) ∧
  (∀ e', elems e' → e' ≠ e → detached L e' → ring h' (El e') []).

#[local] Lemma removed_detached e : elems e → detached L e →
  ∃ h', rt_list_remove (El e) h = Some h' ∧ removed h' e.
Proof using R.
  intros He Hdet. destruct (ring_remove_single h (El e)) as (h'&Hop&Hr&Hs); [by apply R|].
  exists h'. split; [done|]. split_and!; [done| |].
  - intros x Hx. rewrite list_del_id by done. eapply ring_other; [by apply R|done|].
    intros m Hm ->%list_elem_of_singleton.
    apply elem_of_cons in Hm as [?|(b&[= ->]&Hb)%list_elem_of_fmap]; [done|].
    by eapply Hdet.
  - intros e' He' Hne Hd'. eapply ring_other; [by apply R|done|]. set_solver.
Qed.

#[local] Lemma removed_linked e x : e ∈ L x →
  ∃ h', rt_list_remove (El e) h = Some h' ∧ removed h' e.
Proof using R.
  intros Hx. destruct (Rep_split x e Hx) as (xs&ys&E&Hxs&Hys).
  pose proof (rep_ring _ _ _ _ R x (rep_heads _ _ _ _ R x e Hx)) as Hr.
  rewrite E, fmap_app in Hr.
  destruct (ring_remove _ _ _ _ _ Hr) as (h'&Hop&Hr1&Hr2&Hs).
  assert (same_outside h h' (Hd x :: (El <$> L x))) as Hs' by (by rewrite E, fmap_app).
  clear Hs; rename Hs' into Hs.
  exists h'. split; [done|]. split_and!; [done| |].
  - intros y Hy. destruct (decide (x = y)) as [<-|Hxy].
    { by rewrite (list_del_split e L x xs ys), fmap_app. }
    rewrite list_del_id by (intros ?; by apply Hxy, (rep_disjoint _ _ _ _ R x y e)).
    eapply ring_other; [by apply R|done|]. intros m Hm Hm'.
    apply elem_of_cons in Hm as [->|(b&->&Hb)%list_elem_of_fmap].
    + apply elem_of_cons in Hm' as [[= ->]|(?&[=]&_)%list_elem_of_fmap]. done.
    + apply elem_of_cons in Hm' as [[=]|(?&[= <-]&?)%list_elem_of_fmap].
      by apply Hxy, (rep_disjoint _ _ _ _ R x y b).
  - intros e' He' Hne Hd'. eapply ring_other; [by apply R|done|].
    intros m ->%list_elem_of_singleton Hm.
    apply elem_of_cons in Hm as [[=]|(?&[= <-]&?)%list_elem_of_fmap].
    by eapply Hd'.
Qed.

Lemma Rep_remove e : elems e →
  ∃ h', rt_list_remove (El e) h = Some h' ∧ Rep h' heads elems (list_del e L).
Proof using R.
  intros He. assert (∃ h', rt_list_remove (El e) h = Some h' ∧ removed h' e)
    as (h'&Hop&Hself&Hrings&Hselfs).
  { destruct (rep_where _ _ _ _ R e He) as [?|[x ?]];
      [by apply removed_detached|by eapply removed_linked]. }
  exists h'. split; [done|]. split.
  - done.
  - intros e' He' Hd'. destruct (decide (e' = e)) as [->|]; [done|].
    apply Hselfs; [done..|]. intros x Hx. apply (Hd' x), elem_of_list_del. done.
  - intros x e' [_ ?]%elem_of_list_del. by eapply R.
  - intros x e' [_ ?]%elem_of_list_del. by eapply R.
  - intros x y e' [_ ?]%elem_of_list_del [_ ?]%elem_of_list_del. by eapply R.
  - intros e' He'. destruct (decide (e' = e)) as [->|]; [left; apply list_del_detached|].
    destruct (rep_where _ _ _ _ R e' He') as [Hd'|[x Hx]]; [left|right].
    + intros x [_ ?]%elem_of_list_del. by eapply Hd'.
    + exists x. by apply elem_of_list_del.
Qed.

(** [rt_list_init] of the head of a new list, and of a new element. *)
Lemma Rep_new_head x : L x = [] →
  Rep (rt_list_init (Hd x) h) (λ y, y = x ∨ heads y) elems L.
Proof using R.
  intros E. split.
  - intros y [->|Hy]; [rewrite E; apply ring_init|].
    destruct (decide (y = x)) as [->|]; [rewrite E; apply ring_init|].
    eapply ring_other; [by apply R|apply init_outside|].
    intros m Hm ->%list_elem_of_singleton.
    apply elem_of_cons in Hm as [[= ->]|(?&[=]&_)%list_elem_of_fmap]. done.
  - intros e He Hd'. eapply ring_other; [by apply R|apply init_outside|]. set_solver.
  - intros y e He. right. by eapply R.
  - apply R.
  - apply R.
  - apply R.
Qed.

Lemma Rep_new_elem e : detached L e →
  Rep (rt_list_init (El e) h) heads (λ e', e' = e ∨ elems e') L.
Proof using R.
  intros Hd'. split.
  - intros y Hy. eapply ring_other; [by apply R|apply init_outside|].
    intros m Hm ->%list_elem_of_singleton.
    apply elem_of_cons in Hm as [[=]|(?&[= ->]&?)%list_elem_of_fmap]. by eapply Hd'.
  - intros e' He' Hde'. destruct (decide (e' = e)) as [->|]; [apply ring_init|].
    destruct He' as [?|He']; [done|].
    eapply ring_other; [by apply R|apply init_outside|]. set_solver.
  - apply R.
  - intros x e' ?. right. by eapply R.
  - apply R.
  - intros e' [->|He']; [by left|]. by apply R.
Qed.

End laws.

(** The store with no lists. *)
Lemma Rep_empty : Rep lh_empty (λ _, False) (λ _, False) (λ _, []).
Proof. split; try done; intros; set_solver. Qed.

End store.

(** ** The theorem *)

(** C38: On a store of disjoint lists the functions of rtservice.h are the sequence
    operations the kernel uses them as: [rt_list_insert_before] at a head
    appends, [rt_list_insert_after] at a head prepends, [rt_list_remove] takes
    the element out of whichever list it is in and leaves it removable again,
    [rt_list_isempty] tests for the empty sequence; all other lists keep their
    elements and order. *)
Theorem rt_list_refines_sequences `{Countable HD, Countable EL}
    (h : lheap (node HD EL)) heads elems (L : HD → list EL) x e :
  Rep h heads elems L → heads x → elems e →
  (detached L e →
     (∃ h', rt_list_insert_before (Hd x) (El e) h = Some h' ∧
            Rep h' heads elems (<[x := L x ++ [e]]> L)) ∧
     (∃ h', rt_list_insert_after (Hd x) (El e) h = Some h' ∧
            Rep h' heads elems (<[x := e :: L x]> L))) ∧
  (∃ h', rt_list_remove (El e) h = Some h' ∧
         Rep h' heads elems (list_del e L) ∧ detached (list_del e L) e) ∧
  rt_list_isempty (Hd x) h = Some (bool_decide (L x = [])).
Proof.
  intros R Hx He. split_and!.
  - assert (∀ e', e' = e ∨ elems e' ↔ elems e') as Hel by (intros; split; [intros [->|?]|]; auto).
    intros Hdet.
    destruct (Rep_append _ _ _ _ R x e) as (h1&?&R1); [done..|].
    destruct (Rep_prepend _ _ _ _ R x e) as (h2&?&R2); [done..|].
    split; [exists h1|exists h2]; (split; [done|]); by apply (Rep_iff _ _ _ _ _ _ (λ _, iff_refl _) Hel).
  - destruct (Rep_remove _ _ _ _ R e He) as (h'&Hop&R'). exists h'.
    split_and!; [done..|apply list_del_detached].
  - by apply (Rep_isempty _ _ _ _ R).
Qed.

Lemma rt_list_refines_sequences_witness :
  let h : lheap (node bool Z) := rt_list_init (El 7) (rt_list_init (Hd true) lh_empty) in
  ∃ h', rt_list_insert_before (Hd true) (El 7) h = Some h' ∧
        rt_list_isempty (Hd true) h = Some true.
Proof.
  pose proof (Rep_new_elem (EL:=Z) _ _ _ _ (Rep_new_head _ _ _ _ Rep_empty true eq_refl) 7
    ltac:(intros x ?; set_solver)) as R.
  destruct (rt_list_refines_sequences _ _ _ _ true 7 R) as (Hins&_&Hemp); [by left..|].
  destruct Hins as [(h'&Hop&_) _]; [intros x ?; set_solver|]. exists h'. split; [exact Hop|exact Hemp].
Defined.
