(* ===== verification/RingBuffer.v ===== *)
(** * The ring buffer (components/drivers/src/ringbuffer.c, include/rtdevice.h)

    The buffer with its mirror bits, 15-bit indices and 16-bit size as the code
    has them, and the proof that it is a bounded FIFO queue of bytes.  An
    operation is [None] when an assertion fails or a [memcpy] leaves an array. *)

From S2P Require Import Prelude.

(** ** The structure and its accessors *)

Record rt_ringbuffer : Type := RingBuffer {
  buffer_ptr : list Z;
  read_mirror : bool;  read_index : Z;
  write_mirror : bool; write_index : Z;
  buffer_size : Z }.

Inductive rt_ringbuffer_state : Type :=
  RT_RINGBUFFER_EMPTY | RT_RINGBUFFER_FULL | RT_RINGBUFFER_HALFFULL.

(** The index fields are 15 bits wide; the mirror fields one bit, so that [~]
    flips them. *)
Definition u15 (z : Z) : Z := z mod 2 ^ 15.


Definition set_read (m : bool) (i : Z) (rb : rt_ringbuffer) : rt_ringbuffer :=
  RingBuffer (buffer_ptr rb) m (u15 i) (write_mirror rb) (write_index rb) (buffer_size rb).
Definition set_write (m : bool) (i : Z) (rb : rt_ringbuffer) : rt_ringbuffer :=
  RingBuffer (buffer_ptr rb) (read_mirror rb) (read_index rb) m (u15 i) (buffer_size rb).
Definition set_buffer (b : list Z) (rb : rt_ringbuffer) : rt_ringbuffer :=
  RingBuffer b (read_mirror rb) (read_index rb) (write_mirror rb) (write_index rb)
    (buffer_size rb).

Definition rt_ringbuffer_init (pool : list Z) (size : Z) : option rt_ringbuffer :=
  if bool_decide (size > 0)
  then Some (RingBuffer pool false 0 false 0 (s16 (RT_ALIGN_DOWN size RT_ALIGN_SIZE)))
  else None.

Definition rt_ringbuffer_get_size (rb : rt_ringbuffer) : Z := u16 (buffer_size rb).

Definition rt_ringbuffer_status (rb : rt_ringbuffer) : rt_ringbuffer_state :=
  if bool_decide (read_index rb = write_index rb) then
    if bool_decide (read_mirror rb = write_mirror rb)
    then RT_RINGBUFFER_EMPTY else RT_RINGBUFFER_FULL
  else RT_RINGBUFFER_HALFFULL.

Definition rt_ringbuffer_data_len (rb : rt_ringbuffer) : Z :=
  match rt_ringbuffer_status rb with
  | RT_RINGBUFFER_EMPTY => 0
  | RT_RINGBUFFER_FULL => u16 (buffer_size rb)
  | RT_RINGBUFFER_HALFFULL =>
      if bool_decide (write_index rb > read_index rb)
      then u16 (write_index rb - read_index rb)
      else u16 (buffer_size rb - (read_index rb - write_index rb))
  end.

Definition rt_ringbuffer_space_len (rb : rt_ringbuffer) : Z :=
  buffer_size rb - rt_ringbuffer_data_len rb.

(** ** The operations *)

Definition rt_ringbuffer_put (rb : rt_ringbuffer) (ptr : list Z) (length : Z)
    : option (Z * rt_ringbuffer) :=
  let size := u16 (rt_ringbuffer_space_len rb) in
  if bool_decide (size = 0) then Some (0, rb) else
  let length := if bool_decide (size < length) then size else length in
  let first := buffer_size rb - write_index rb in
  if bool_decide (first > length) then
    b ← memcpy (buffer_ptr rb) (write_index rb) ptr 0 length;
    Some (length, set_write (write_mirror rb) (write_index rb + length) (set_buffer b rb))
  else
    b ← memcpy (buffer_ptr rb) (write_index rb) ptr 0 first;
    b ← memcpy b 0 ptr first (length - first);
    Some (length, set_write (negb (write_mirror rb)) (length - first) (set_buffer b rb)).

Definition rt_ringbuffer_put_force (rb : rt_ringbuffer) (ptr : list Z) (length : Z)
    : option (Z * rt_ringbuffer) :=
  let space_length := u16 (rt_ringbuffer_space_len rb) in
  let length := if bool_decide (length > space_length) then u16 (buffer_size rb) else length in
  let first := buffer_size rb - write_index rb in
  if bool_decide (first > length) then
    b ← memcpy (buffer_ptr rb) (write_index rb) ptr 0 length;
    let rb := set_write (write_mirror rb) (write_index rb + length) (set_buffer b rb) in
    let rb := if bool_decide (length > space_length)
              then set_read (read_mirror rb) (write_index rb) rb else rb in
    Some (length, rb)
  else
    b ← memcpy (buffer_ptr rb) (write_index rb) ptr 0 first;
    b ← memcpy b 0 ptr first (length - first);
    let rb := set_write (negb (write_mirror rb)) (length - first) (set_buffer b rb) in
    let rb := if bool_decide (length > space_length)
              then set_read (negb (read_mirror rb)) (write_index rb) rb else rb in
    Some (length, rb).

(** [get] writes into the caller's array [ptr]; its new value is returned. *)
Definition rt_ringbuffer_get (rb : rt_ringbuffer) (ptr : list Z) (length : Z)
    : option (Z * list Z * rt_ringbuffer) :=
  let size := rt_ringbuffer_data_len rb in
  if bool_decide (size = 0) then Some (0, ptr, rb) else
  let length := if bool_decide (size < length) then u16 size else length in
  let first := buffer_size rb - read_index rb in
  if bool_decide (first > length) then
    p ← memcpy ptr 0 (buffer_ptr rb) (read_index rb) length;
    Some (length, p, set_read (read_mirror rb) (read_index rb + length) rb)
  else
    p ← memcpy ptr 0 (buffer_ptr rb) (read_index rb) first;
    p ← memcpy p first (buffer_ptr rb) 0 (length - first);
    Some (length, p, set_read (negb (read_mirror rb)) (length - first) rb).

Definition rt_ringbuffer_putchar (rb : rt_ringbuffer) (ch : Z) : option (Z * rt_ringbuffer) :=
  if bool_decide (rt_ringbuffer_space_len rb = 0) then Some (0, rb) else
  b ← arr_set (write_index rb) ch (buffer_ptr rb);
  let rb := set_buffer b rb in
  if bool_decide (write_index rb = buffer_size rb - 1)
  then Some (1, set_write (negb (write_mirror rb)) 0 rb)
  else Some (1, set_write (write_mirror rb) (write_index rb + 1) rb).

Definition rt_ringbuffer_putchar_force (rb : rt_ringbuffer) (ch : Z)
    : option (Z * rt_ringbuffer) :=
  let old_state := rt_ringbuffer_status rb in
  b ← arr_set (write_index rb) ch (buffer_ptr rb);
  let rb := set_buffer b rb in
  if bool_decide (write_index rb = buffer_size rb - 1) then
    let rb := set_write (negb (write_mirror rb)) 0 rb in
    match old_state with
    | RT_RINGBUFFER_FULL => Some (1, set_read (negb (read_mirror rb)) (write_index rb) rb)
    | _ => Some (1, rb)
    end
  else
    let rb := set_write (write_mirror rb) (write_index rb + 1) rb in
    match old_state with
    | RT_RINGBUFFER_FULL => Some (1, set_read (read_mirror rb) (write_index rb) rb)
    | _ => Some (1, rb)
    end.

(** [getchar] stores through [ch]; the stored byte is returned, if any. *)
Definition rt_ringbuffer_getchar (rb : rt_ringbuffer)
    : option (Z * option Z * rt_ringbuffer) :=
  if bool_decide (rt_ringbuffer_data_len rb = 0) then Some (0, None, rb) else
  ch ← arr_get (read_index rb) (buffer_ptr rb);
  if bool_decide (read_index rb = buffer_size rb - 1)
  then Some (1, Some ch, set_read (negb (read_mirror rb)) 0 rb)
  else Some (1, Some ch, set_read (read_mirror rb) (read_index rb + 1) rb).

(** ** The abstraction: a queue of bytes *)

(** The bytes in the buffer, oldest first. *)
Definition contents (rb : rt_ringbuffer) : list Z :=
  if bool_decide (read_mirror rb = write_mirror rb)
  then seg (read_index rb) (write_index rb) (buffer_ptr rb)
  else seg (read_index rb) (buffer_size rb) (buffer_ptr rb)
       ++ seg 0 (write_index rb) (buffer_ptr rb).

Record rb_wf (rb : rt_ringbuffer) : Prop := {
  wf_size : 0 < buffer_size rb < 2 ^ 15;
  wf_pool : buffer_size rb <= zlen (buffer_ptr rb);
  wf_read : 0 <= read_index rb < buffer_size rb;
  wf_write : 0 <= write_index rb < buffer_size rb;
  wf_order : if bool_decide (read_mirror rb = write_mirror rb)
             then read_index rb <= write_index rb else write_index rb <= read_index rb }.

Lemma data_len_contents rb : rb_wf rb →
  rt_ringbuffer_data_len rb = zlen (contents rb) ∧
  0 <= zlen (contents rb) <= buffer_size rb.
Proof.
  intros [Hs Hp Hr Hw Ho]. unfold rt_ringbuffer_data_len, rt_ringbuffer_status, contents.
  destruct (bool_decide (read_mirror rb = write_mirror rb)).
  - rewrite zlen_seg by lia. repeat case_bool_decide; try lia; split; mlia.
  - rewrite zlen_app, !zlen_seg by lia. repeat case_bool_decide; try lia; split; mlia.
Qed.

Lemma u15_small z : 0 <= z < 2 ^ 15 → u15 z = z.
Proof. apply Z.mod_small. Qed.

Lemma space_len_contents rb : rb_wf rb →
  rt_ringbuffer_space_len rb = buffer_size rb - zlen (contents rb).
Proof.
  intros Hwf. unfold rt_ringbuffer_space_len.
  by rewrite (proj1 (data_len_contents rb Hwf)).
Qed.

Lemma contents_len rb : rb_wf rb →
  zlen (contents rb) =
    if bool_decide (read_mirror rb = write_mirror rb)
    then write_index rb - read_index rb
    else buffer_size rb - read_index rb + write_index rb.
Proof.
  intros [Hs Hp Hr Hw Ho]. unfold contents.
  destruct (bool_decide _); [rewrite zlen_seg by lia|rewrite zlen_app, !zlen_seg by lia]; lia.
Qed.

(** Moving the write index over data just stored, within a mirror or into the
    other one, appends the data; moving the read index removes a prefix. *)
Lemma write_short rb d : rb_wf rb →
  write_index rb + zlen d < buffer_size rb → zlen d <= buffer_size rb - zlen (contents rb) →
  ∃ b, arr_write (write_index rb) d (buffer_ptr rb) = Some b ∧
  let rb' := set_write (write_mirror rb) (write_index rb + zlen d) (set_buffer b rb) in
  rb_wf rb' ∧ contents rb' = contents rb ++ d.
Proof.
  intros Hwf Hlt. rewrite (contents_len rb Hwf). destruct Hwf as [Hs Hp Hr Hw Ho]. intros Hsp.
  pose proof (zlen_nonneg d).
  destruct (arr_write_spec (write_index rb) d (buffer_ptr rb)) as (b&Hb&Hlen&Hin&Hlo&Hhi);
    [lia..|]. exists b. split; [done|]. cbv zeta.
  unfold contents. split; [split|]; simpl; rewrite ?u15_small by lia; try lia;
    destruct (bool_decide _) in *; try lia.
  - rewrite <-(seg_app _ (write_index rb)), Hin, Hlo by lia. done.
  - rewrite Hhi by lia. rewrite <-(seg_app 0 (write_index rb)), Hin, Hlo by lia.
    by rewrite (assoc_L (++)).
Qed.

Lemma mirror_flip (a b : bool) : bool_decide (a = negb b) = negb (bool_decide (a = b)).
Proof. by destruct a, b. Qed.
Lemma mirror_flip' (a b : bool) : bool_decide (negb a = b) = negb (bool_decide (a = b)).
Proof. by destruct a, b. Qed.

Lemma write_wrap rb d1 d2 : rb_wf rb →
  write_index rb + zlen d1 = buffer_size rb →
  zlen d1 + zlen d2 <= buffer_size rb - zlen (contents rb) →
  ∃ b1 b2, arr_write (write_index rb) d1 (buffer_ptr rb) = Some b1 ∧
  arr_write 0 d2 b1 = Some b2 ∧
  let rb' := set_write (negb (write_mirror rb)) (zlen d2) (set_buffer b2 rb) in
  rb_wf rb' ∧ contents rb' = contents rb ++ d1 ++ d2.
Proof.
  intros Hwf Hlt. rewrite (contents_len rb Hwf). destruct Hwf as [Hs Hp Hr Hw Ho]. intros Hsp.
  pose proof (zlen_nonneg d1). pose proof (zlen_nonneg d2).
  destruct (bool_decide (read_mirror rb = write_mirror rb)) eqn:Em; [|lia].
  destruct (arr_write_spec (write_index rb) d1 (buffer_ptr rb)) as (b1&Hb1&Hlen1&Hin1&Hlo1&Hhi1);
    [lia..|].
  destruct (arr_write_spec 0 d2 b1) as (b2&Hb2&Hlen2&Hin2&Hlo2&Hhi2); [lia..|].
  exists b1, b2. cbv zeta. split_and!; [done..| |].
  - split; simpl; rewrite ?u15_small by lia; try lia. rewrite mirror_flip, Em. simpl. lia.
  - unfold contents; simpl. rewrite u15_small, mirror_flip, Em by lia. simpl.
    rewrite Z.add_0_l in Hin2. rewrite Hin2, Hhi2 by lia.
    rewrite <-(seg_app _ (write_index rb)) by lia.
    rewrite (Hlo1 (read_index rb)), <-Hlt, Hin1 by lia. by rewrite (assoc_L (++)).
Qed.

Lemma read_short rb n : rb_wf rb → 0 <= n → read_index rb + n < buffer_size rb →
  n <= zlen (contents rb) →
  let rb' := set_read (read_mirror rb) (read_index rb + n) rb in
  rb_wf rb' ∧ contents rb = seg (read_index rb) (read_index rb + n) (buffer_ptr rb) ++ contents rb'.
Proof.
  intros Hwf Hn Hlt. rewrite (contents_len rb Hwf). destruct Hwf as [Hs Hp Hr Hw Ho]. intros Hsp.
  cbv zeta. unfold contents. split; [split|]; simpl; rewrite ?u15_small by lia; try lia;
    destruct (bool_decide _) in *; try lia.
  - by rewrite seg_app by lia.
  - by rewrite (assoc_L (++)), seg_app by lia.
Qed.

Lemma read_wrap rb n : rb_wf rb → 0 <= n →
  buffer_size rb - read_index rb + n <= zlen (contents rb) →
  let rb' := set_read (negb (read_mirror rb)) n rb in
  rb_wf rb' ∧ contents rb = seg (read_index rb) (buffer_size rb) (buffer_ptr rb)
                            ++ seg 0 n (buffer_ptr rb) ++ contents rb'.
Proof.
  intros Hwf Hn. rewrite (contents_len rb Hwf). destruct Hwf as [Hs Hp Hr Hw Ho]. intros Hsp.
  cbv zeta. unfold contents.
  destruct (bool_decide (read_mirror rb = write_mirror rb)) eqn:Em; [lia|].
  split; [split|]; simpl; rewrite ?u15_small, ?mirror_flip', ?Em by lia; simpl; try lia.
  by rewrite seg_app by lia.
Qed.

Lemma memcpy_ok {A} (dst src : list A) doff soff n : 0 <= soff → 0 <= n → soff + n <= zlen src →
  memcpy dst doff src soff n = arr_write doff (seg soff (soff + n) src) dst.
Proof. intros. unfold memcpy. by rewrite arr_read_ok. Qed.

Lemma memcpy_out {A} (dst src : list A) doff soff n : zlen src < soff + n →
  memcpy dst doff src soff n = None.
Proof. intros. unfold memcpy, arr_read. by rewrite bool_decide_false by lia. Qed.

(** ** The specification of each operation *)

(** A bounded queue: what the operations promise their callers. *)
Definition fifo_put (cap : Z) (d : list Z) (n : Z) (q : list Z) : Z * list Z :=
  let k := Z.min n (cap - zlen q) in (k, q ++ seg 0 k d).
Definition fifo_get (n : Z) (q : list Z) : list Z * list Z :=
  let k := Z.min n (zlen q) in (seg 0 k q, seg k (zlen q) q).
Definition fifo_put_force1 (cap : Z) (c : Z) (q : list Z) : list Z :=
  if bool_decide (zlen q = cap) then seg 1 cap q ++ [c] else q ++ [c].

#[local] Arguments fifo_get : simpl never.

(** The state of the buffer agrees with the queue [q] of capacity [cap]. *)
Definition rb_repr (cap : Z) (rb : rt_ringbuffer) (q : list Z) : Prop :=
  rb_wf rb ∧ buffer_size rb = cap ∧ contents rb = q.

Lemma put_refines cap rb q ptr length : rb_repr cap rb q →
  in_u16 length → length <= zlen ptr →
  ∃ rb', rt_ringbuffer_put rb ptr length = Some ((fifo_put cap ptr length q).1, rb') ∧
         rb_repr cap rb' (fifo_put cap ptr length q).2.
Proof.
  intros (Hwf&<-&<-) Hl Hp. pose proof Hwf as [Hs Hpl Hr Hw _].
  destruct (data_len_contents rb Hwf) as [_ Hd].
  unfold rt_ringbuffer_put, fifo_put. rewrite (space_len_contents rb Hwf), u16_small by mlia.
  cbn [fst snd]. remember (Z.min _ _) as k eqn:Ek. case_bool_decide as H0.
  { replace k with 0 by (unfold in_u16 in *; lia). rewrite seg_nil, app_nil_r. by exists rb. }
  replace (if bool_decide _ then _ else _) with k by (case_bool_decide; lia).
  unfold in_u16 in *. pose proof (zlen_seg 0 k ptr) as Hk. case_bool_decide.
  - destruct (write_short rb (seg 0 k ptr)) as (b&Hb&Hwf'&Hc'); [done|lia..|].
    rewrite (Hk ltac:(lia) ltac:(lia)), Z.sub_0_r in Hwf', Hc'.
    rewrite memcpy_ok, Z.add_0_l by lia. rewrite Hb. simpl. eexists; split; [done|].
    split_and!; done.
  - remember (buffer_size rb - write_index rb) as f eqn:Ef.
    pose proof (zlen_seg 0 f ptr) as Hf. pose proof (zlen_seg f k ptr) as Hg.
    destruct (write_wrap rb (seg 0 f ptr) (seg f k ptr)) as (b1&b2&Hb1&Hb2&Hwf'&Hc');
      [done|lia..|].
    rewrite memcpy_ok, Z.add_0_l by lia. rewrite Hb1. simpl. rewrite memcpy_ok by lia.
    replace (f + (k - f)) with k by lia. rewrite Hb2. simpl.
    rewrite (Hg ltac:(lia) ltac:(lia)) in Hwf', Hc'.
    eexists; split; [done|]. split_and!; [done..|]. by rewrite Hc', seg_app by lia.
Qed.

Lemma put_force_fits cap rb q ptr length : rb_repr cap rb q →
  in_u16 length → zlen q + length <= cap → 0 < length →
  rt_ringbuffer_put_force rb ptr length = rt_ringbuffer_put rb ptr length.
Proof.
  intros (Hwf&<-&<-) Hl Hf H0. pose proof Hwf as [Hs Hpl Hr Hw _].
  destruct (data_len_contents rb Hwf) as [_ Hd].
  unfold rt_ringbuffer_put_force, rt_ringbuffer_put.
  rewrite (space_len_contents rb Hwf), (u16_small (_ - _)) by mlia.
  rewrite (bool_decide_false (length > _)), (bool_decide_false (_ = 0)),
    (bool_decide_false (_ < length)) by lia.
  by rewrite !(bool_decide_false (length > _)) by lia.
Qed.

(** Two consecutive copies into the caller's array are one. *)
Lemma arr_write_twice {A} (p d1 d2 : list A) : zlen d1 + zlen d2 <= zlen p →
  ∃ p', arr_write 0 d1 p = Some p' ∧
    arr_write (zlen d1) d2 p' = Some ((d1 ++ d2) ++ seg (zlen (d1 ++ d2)) (zlen p) p).
Proof.
  intros H. pose proof (zlen_nonneg d1). pose proof (zlen_nonneg d2).
  rewrite arr_write_0 by lia. eexists; split; [done|].
  pose proof (zlen_seg (zlen d1) (zlen p) p ltac:(lia) ltac:(lia)) as Hk.
  rewrite arr_write_app, Hk, seg_seg, zlen_app, <-(assoc_L (++)) by lia. do 4 f_equal. lia.
Qed.

(** Taking [d] off the front of a queue [d ++ q']. *)
Lemma fifo_get_app n q d q' : q = d ++ q' → zlen d = Z.min n (zlen q) → fifo_get n q = (d, q').
Proof.
  intros -> H. unfold fifo_get. rewrite <-H. f_equal; [apply seg_app_l|apply seg_app_r].
Qed.

Lemma get_refines cap rb q ptr length : rb_repr cap rb q →
  in_u16 length → length <= zlen ptr →
  let d := (fifo_get length q).1 in
  ∃ rb', rt_ringbuffer_get rb ptr length
           = Some (zlen d, d ++ seg (zlen d) (zlen ptr) ptr, rb') ∧
         rb_repr cap rb' (fifo_get length q).2.
Proof.
  intros (Hwf&<-&<-) Hl Hp. pose proof Hwf as [Hs Hpl Hr Hw _].
  destruct (data_len_contents rb Hwf) as [Hdl Hd]. unfold in_u16 in *.
  unfold rt_ringbuffer_get. rewrite Hdl. case_bool_decide as H0.
  { rewrite (fifo_get_app length _ [] (contents rb)) by (done || change (zlen []) with 0; lia). cbn [fst snd]. cbv zeta.
    change (zlen (@nil Z)) with 0. rewrite seg_all. by exists rb. }
  remember (Z.min length (zlen (contents rb))) as k eqn:Ek.
  replace (if bool_decide _ then _ else _) with k
    by (case_bool_decide; [rewrite u16_small by (unfold in_u16; lia)|]; lia).
  case_bool_decide.
  - destruct (read_short rb k) as [Hwf' Hc]; [done|lia..|].
    pose proof (zlen_seg (read_index rb) (read_index rb + k) (buffer_ptr rb)) as Hk.
    rewrite memcpy_ok, arr_write_0 by lia. 
    rewrite (fifo_get_app _ _ _ _ Hc) by lia. cbn. rewrite Hk by lia.
    replace (read_index rb + k - read_index rb) with k by lia. by eexists.
  - remember (buffer_size rb - read_index rb) as f eqn:Ef.
    destruct (read_wrap rb (k - f)) as [Hwf' Hc]; [done|lia..|].
    pose proof (zlen_seg (read_index rb) (buffer_size rb) (buffer_ptr rb)) as Hk1.
    pose proof (zlen_seg 0 (k - f) (buffer_ptr rb)) as Hk2.
    rewrite (assoc_L (++)) in Hc. rewrite !memcpy_ok by lia.
    replace (read_index rb + f) with (buffer_size rb) by lia.
    destruct (arr_write_twice ptr (seg (read_index rb) (buffer_size rb) (buffer_ptr rb))
      (seg 0 (k - f) (buffer_ptr rb))) as (p'&Hp1&Hp2); [lia|].
    rewrite Hp1. cbn [mbind option_bind]. rewrite memcpy_ok, Z.add_0_l by lia.
    rewrite Hk1, <-Ef in Hp2 by lia. rewrite Hp2. 
    rewrite (fifo_get_app _ _ _ _ Hc) by (rewrite zlen_app; lia). cbn. rewrite zlen_app, Hk1, Hk2 by lia.
    replace (buffer_size rb - read_index rb + (k - f - 0)) with k by lia. by eexists.
Qed.

Lemma putchar_refines cap rb q c : rb_repr cap rb q →
  ∃ rb', rt_ringbuffer_putchar rb c = Some ((fifo_put cap [c] 1 q).1, rb') ∧
         rb_repr cap rb' (fifo_put cap [c] 1 q).2.
Proof.
  intros (Hwf&<-&<-). pose proof Hwf as [Hs Hpl Hr Hw _].
  destruct (data_len_contents rb Hwf) as [_ Hd].
  unfold rt_ringbuffer_putchar, fifo_put. rewrite (space_len_contents rb Hwf).
  case_bool_decide as H0.
  { replace (Z.min _ _) with 0 by lia. cbn. rewrite seg_nil, app_nil_r. by exists rb. }
  replace (Z.min _ _) with 1 by lia. rewrite arr_set_write.
  change (seg 0 1 [c]) with [c].
  destruct (decide (write_index rb = buffer_size rb - 1)) as [Hw'|Hw'].
  - destruct (write_wrap rb [c] []) as (b1&b2&Hb1&Hb2&Hwf'&Hc);
      [done|change (zlen [c]) with 1|change (zlen [c] + zlen []) with 1|]; [lia..|].
    rewrite Hb1. cbn. rewrite bool_decide_true by done.
    rewrite arr_write_0 in Hb2 by apply zlen_nonneg.
    change (zlen []) with 0 in *. rewrite seg_all in Hb2. injection Hb2 as <-. by eexists.
  - destruct (write_short rb [c]) as (b&Hb&Hwf'&Hc);
      [done|change (zlen [c]) with 1..|]; [lia..|].
    rewrite Hb. cbn. rewrite bool_decide_false by done. by eexists.
Qed.

Lemma getchar_refines cap rb q : rb_repr cap rb q →
  ∃ rb', rt_ringbuffer_getchar rb = Some (zlen (fifo_get 1 q).1, head (fifo_get 1 q).1, rb') ∧
         rb_repr cap rb' (fifo_get 1 q).2.
Proof.
  intros (Hwf&<-&<-). pose proof Hwf as [Hs Hpl Hr Hw _].
  destruct (data_len_contents rb Hwf) as [Hdl Hd].
  unfold rt_ringbuffer_getchar. rewrite Hdl. case_bool_decide as H0.
  { rewrite (fifo_get_app 1 _ [] (contents rb)) by (done || change (zlen []) with 0; lia). by exists rb. }
  destruct (arr_get_ok (read_index rb) (buffer_ptr rb)) as (v&Hv&Hseg); [lia|]. rewrite Hv. cbn.
  case_bool_decide as Hi.
  - destruct (read_wrap rb 0) as [Hwf' Hc]; [done|lia..|]. rewrite seg_nil in Hc.
    replace (buffer_size rb) with (read_index rb + 1) in Hc by lia. rewrite Hseg in Hc.
    rewrite (fifo_get_app 1 _ [v] _ Hc) by (change (zlen [v]) with 1; lia). by eexists.
  - destruct (read_short rb 1) as [Hwf' Hc]; [done|lia..|]. rewrite Hseg in Hc.
    rewrite (fifo_get_app 1 _ [v] _ Hc) by (change (zlen [v]) with 1; lia). by eexists.
Qed.

Lemma status_full rb : rb_wf rb →
  rt_ringbuffer_status rb = RT_RINGBUFFER_FULL ↔ zlen (contents rb) = buffer_size rb.
Proof.
  intros Hwf. rewrite (contents_len rb Hwf). destruct Hwf as [Hs Hpl Hr Hw Ho].
  unfold rt_ringbuffer_status. repeat case_bool_decide; split; (done || lia).
Qed.

(** On a full buffer [putchar_force] is [getchar] followed by [putchar]. *)
Lemma putchar_force_full rb c : rb_wf rb → zlen (contents rb) = buffer_size rb →
  ∃ v rb1, rt_ringbuffer_getchar rb = Some (1, v, rb1) ∧
    rt_ringbuffer_putchar_force rb c = rt_ringbuffer_putchar rb1 c.
Proof.
  intros Hwf Hf. pose proof Hwf as [Hs Hpl Hr Hw _].
  pose proof (proj2 (status_full rb Hwf) Hf) as Hst.
  assert (read_index rb = write_index rb) as Hi.
  { unfold rt_ringbuffer_status in Hst. by repeat case_bool_decide. }
  destruct (getchar_refines (buffer_size rb) rb (contents rb)) as (rb1&Hg&Hwf1&Hs1&Hc1);
    [by split_and!|].
  pose proof (space_len_contents rb1 Hwf1) as Hsp. rewrite Hc1, Hs1 in Hsp.
  unfold fifo_get in Hg, Hsp. cbn [fst snd] in Hg, Hsp.
  replace (Z.min 1 (zlen (contents rb))) with 1 in * by lia.
  rewrite zlen_seg in Hsp by lia. rewrite zlen_seg in Hg by lia. rewrite Hf in Hsp.
  eexists _, rb1. split; [exact Hg|].
  unfold rt_ringbuffer_putchar_force, rt_ringbuffer_putchar. rewrite Hst, Hsp.
  rewrite bool_decide_false by lia.
  unfold rt_ringbuffer_getchar in Hg.
  rewrite bool_decide_false in Hg by (rewrite (proj1 (data_len_contents rb Hwf)); lia).
  destruct (arr_get_ok (read_index rb) (buffer_ptr rb)) as (v&Hv&_); [lia|].
  rewrite Hv, Hi in Hg. cbn [mbind option_bind] in Hg.
  destruct (decide (write_index rb = buffer_size rb - 1)) as [Hw'|Hw'].
  - rewrite bool_decide_true in Hg by done. injection Hg as _ <-. cbn.
    destruct (arr_set _ _ _); [|done]. cbn. by rewrite bool_decide_true.
  - rewrite bool_decide_false in Hg by done. injection Hg as _ <-. cbn.
    destruct (arr_set _ _ _); [|done]. cbn. rewrite bool_decide_false by done.
    unfold set_read. cbn. rewrite !(u15_small (write_index rb + 1)) by lia.
    unfold set_write. cbn. by rewrite u15_small by lia.
Qed.

Lemma putchar_force_refines cap rb q c : rb_repr cap rb q →
  ∃ rb', rt_ringbuffer_putchar_force rb c = Some (1, rb') ∧
         rb_repr cap rb' (fifo_put_force1 cap c q).
Proof.
  intros Hrep. pose proof Hrep as (Hwf&<-&<-). pose proof Hwf as [Hs Hpl Hr Hw _].
  destruct (data_len_contents rb Hwf) as [_ Hd]. unfold fifo_put_force1.
  case_bool_decide as Hf.
  - destruct (putchar_force_full rb c Hwf Hf) as (v&rb1&Hg&Hpf). rewrite Hpf.
    destruct (getchar_refines _ _ _ Hrep) as (rb1'&Hg'&Hrep1).
    rewrite Hg in Hg'. injection Hg' as _ _ <-.
    destruct (putchar_refines _ _ _ c Hrep1) as (rb2&->&Hrep2).
    unfold fifo_put, fifo_get in *. cbn [fst snd] in *.
    replace (Z.min 1 (zlen (contents rb))) with 1 in * by lia.
    rewrite zlen_seg in * by lia. rewrite Hf in *.
    replace (Z.min 1 _) with 1 in * by lia. by exists rb2.
  - destruct (putchar_refines _ _ _ c Hrep) as (rb'&Hput&Hrep').
    unfold fifo_put in *. replace (Z.min 1 _) with 1 in * by lia.
    exists rb'. split; [|done]. cbn [fst] in Hput. rewrite <-Hput.
    unfold rt_ringbuffer_putchar, rt_ringbuffer_putchar_force.
    rewrite (space_len_contents rb Hwf), bool_decide_false by lia.
    destruct (rt_ringbuffer_status rb) eqn:Hst; [..|done]; [done|].
    apply status_full in Hst; [lia|done].
Qed.

(** Initialisation: the size is rounded down to a multiple of 4. *)
Lemma init_refines pool size : 4 <= size < 2 ^ 15 → size <= zlen pool →
  ∃ rb, rt_ringbuffer_init pool size = Some rb ∧ rb_repr (size / 4 * 4) rb [].
Proof.
  intros Hs Hp. unfold rt_ringbuffer_init. rewrite bool_decide_true by lia.
  eexists; split; [done|].
  rewrite RT_ALIGN_DOWN_4, Z.mul_comm.
  rewrite s16_small by mlia. split_and!; [|done|].
  { split; cbn [buffer_size buffer_ptr read_index write_index]; try mlia. done. }
  unfold contents. cbn. apply seg_nil.
Qed.

(** ** Refinement of a whole history of calls *)

Inductive rb_call : Type :=
| Put (d : list Z) (n : Z) | Get (dst : list Z) (n : Z)
| PutChar (c : Z) | PutCharForce (c : Z) | GetChar | DataLen | SpaceLen.

(** What the caller sees: the returned size, and the bytes stored through the
    pointer argument. *)
Definition rb_exec (c : rb_call) (rb : rt_ringbuffer)
    : option (Z * list Z * rt_ringbuffer) :=
  match c with
  | Put d n => '(r, rb) ← rt_ringbuffer_put rb d n; Some (r, [], rb)
  | Get dst n => rt_ringbuffer_get rb dst n
  | PutChar c => '(r, rb) ← rt_ringbuffer_putchar rb c; Some (r, [], rb)
  | PutCharForce c => '(r, rb) ← rt_ringbuffer_putchar_force rb c; Some (r, [], rb)
  | GetChar => '(r, v, rb) ← rt_ringbuffer_getchar rb; Some (r, option_list v, rb)
  | DataLen => Some (rt_ringbuffer_data_len rb, [], rb)
  | SpaceLen => Some (rt_ringbuffer_space_len rb, [], rb)
  end.

Definition fifo_exec (cap : Z) (c : rb_call) (q : list Z) : Z * list Z * list Z :=
  match c with
  | Put d n => let '(r, q) := fifo_put cap d n q in (r, [], q)
  | Get dst n =>
      let '(d, q) := fifo_get n q in
      (zlen d, d ++ seg (zlen d) (zlen dst) dst, q)
  | PutChar c => let '(r, q) := fifo_put cap [c] 1 q in (r, [], q)
  | PutCharForce c => (1, [], fifo_put_force1 cap c q)
  | GetChar => let '(d, q) := fifo_get 1 q in (zlen d, d, q)
  | DataLen => (zlen q, [], q)
  | SpaceLen => (cap - zlen q, [], q)
  end.

(** A call passes an array that holds the length it states. *)
Definition call_ok (c : rb_call) : Prop :=
  match c with
  | Put d n | Get d n => in_u16 n ∧ n <= zlen d
  | _ => True
  end.

Fixpoint rb_run (cs : list rb_call) (rb : rt_ringbuffer)
    : option (list (Z * list Z) * rt_ringbuffer) :=
  match cs with
  | [] => Some ([], rb)
  | c :: cs =>
      '(r, d, rb) ← rb_exec c rb; '(rs, rb) ← rb_run cs rb; Some ((r, d) :: rs, rb)
  end.

Fixpoint fifo_run (cap : Z) (cs : list rb_call) (q : list Z) : list (Z * list Z) * list Z :=
  match cs with
  | [] => ([], q)
  | c :: cs =>
      let '(r, d, q) := fifo_exec cap c q in
      let '(rs, q) := fifo_run cap cs q in ((r, d) :: rs, q)
  end.

Lemma exec_refines cap c rb q : rb_repr cap rb q → call_ok c →
  let '(r, d, q') := fifo_exec cap c q in
  ∃ rb', rb_exec c rb = Some (r, d, rb') ∧ rb_repr cap rb' q'.
Proof.
  intros Hrep Hok. destruct c as [d n|dst n|c|c| | |]; simpl in *.
  - destruct (put_refines cap rb q d n) as (rb'&->&?); [done|apply Hok..|]. by eexists.
  - destruct (get_refines cap rb q dst n) as (rb'&Hg&Hr); [done|apply Hok..|].
    by exists rb'.
  - destruct (putchar_refines cap rb q c Hrep) as (rb'&->&?). by eexists.
  - destruct (putchar_force_refines cap rb q c Hrep) as (rb'&->&?). by eexists.
  - destruct (getchar_refines cap rb q Hrep) as (rb'&Hg&?). rewrite Hg. simpl.
    exists rb'. split; [|done]. unfold fifo_get. simpl. do 3 f_equal.
    destruct q as [|v q]; [done|]. replace (Z.min _ _) with 1; [done|].
    unfold zlen. simpl. lia.
  - destruct Hrep as (Hwf&<-&<-). rewrite (proj1 (data_len_contents rb Hwf)). by exists rb.
  - destruct Hrep as (Hwf&<-&<-). rewrite (space_len_contents rb Hwf). by exists rb.
Qed.

Lemma run_refines cap cs : Forall call_ok cs → ∀ rb q, rb_repr cap rb q →
  let '(rs, q') := fifo_run cap cs q in
  ∃ rb', rb_run cs rb = Some (rs, rb') ∧ rb_repr cap rb' q'.
Proof.
  induction 1 as [|c cs Hc _ IH]; intros rb q Hrep; simpl; [by exists rb|].
  pose proof (exec_refines cap c rb q Hrep Hc) as Hex.
  destruct (fifo_exec cap c q) as [[r d] q1]. destruct Hex as (rb1&->&Hrep1). simpl.
  pose proof (IH rb1 q1 Hrep1) as Hrun. destruct (fifo_run cap cs q1) as [rs q2].
  destruct Hrun as (rb2&->&Hrep2). by exists rb2.
Qed.

(** ** The theorems *)

(** C39: The ring buffer is a FIFO queue bounded by its size: after
    [rt_ringbuffer_init], any sequence of put, get, putchar, putchar_force,
    getchar and length calls, with buffers of the lengths passed, returns exactly
    what the queue returns, byte for byte, and no call reads or writes outside an
    array.  [rt_ringbuffer_put_force], which loses data, is not among the calls. *)
Theorem ringbuffer_refines_fifo pool size cs :
  4 <= size < 2 ^ 15 → size <= zlen pool → Forall call_ok cs →
  ∃ rb rb', rt_ringbuffer_init pool size = Some rb ∧
    rb_run cs rb = Some ((fifo_run (size / 4 * 4) cs []).1, rb') ∧
    contents rb' = (fifo_run (size / 4 * 4) cs []).2 ∧ rb_wf rb'.
Proof.
  intros Hs Hp Hcs. destruct (init_refines pool size Hs Hp) as (rb&->&Hrep).
  pose proof (run_refines _ cs Hcs rb [] Hrep) as Hrun.
  destruct (fifo_run _ cs []) as [rs q]. destruct Hrun as (rb'&Hrun&Hwf&_&Hc).
  by exists rb, rb'.
Qed.

Lemma ringbuffer_refines_fifo_witness : ∃ rb rb',
  rt_ringbuffer_init (replicate 8 0) 7 = Some rb ∧
  rb_run [Put [1; 2; 3] 3; GetChar; Put [4; 5; 6] 3; PutCharForce 7; Get [9; 9; 9; 9; 9] 5] rb
  = Some ([(3, []); (1, [1]); (2, []); (1, []); (4, [3; 4; 5; 7; 9])], rb') ∧
  contents rb' = [] ∧ rb_wf rb'.
Proof.
  apply (ringbuffer_refines_fifo (replicate 8 0) 7
    [Put [1; 2; 3] 3; GetChar; Put [4; 5; 6] 3; PutCharForce 7; Get [9; 9; 9; 9; 9] 5]);
    [lia|vm_compute; congruence|].
  repeat constructor; vm_compute; congruence.
Defined.

(** [rt_ringbuffer_put_force] on a buffer that cannot hold the data and whose
    indices are in the same mirror: it copies [buffer_size] bytes whatever the
    caller's length, so it reads outside a shorter array, and when the array
    is long enough it flips both mirrors and leaves the buffer empty, with
    neither the old nor the new data in it. *)
Theorem put_force_loses_data rb ptr length :
  rb_wf rb → in_u16 length → read_mirror rb = write_mirror rb →
  length > buffer_size rb - zlen (contents rb) → length <= buffer_size rb →
  (zlen ptr < buffer_size rb → rt_ringbuffer_put_force rb ptr length = None) ∧
  (buffer_size rb <= zlen ptr →
     ∃ rb', rt_ringbuffer_put_force rb ptr length = Some (buffer_size rb, rb') ∧
            contents rb' = []).
Proof.
  intros Hwf Hl Hm Hgt Hle. pose proof Hwf as [Hs Hpl Hr Hw _].
  destruct (data_len_contents rb Hwf) as [_ Hd]. unfold rt_ringbuffer_put_force.
  rewrite (space_len_contents rb Hwf), (u16_small (_ - _)) by mlia.
  rewrite (bool_decide_true (length > _)), (u16_small (buffer_size rb)) by mlia.
  rewrite (bool_decide_false (_ - write_index rb > _)) by lia.
  split; intros Hp.
  - destruct (decide (buffer_size rb - write_index rb <= zlen ptr)).
    + rewrite memcpy_ok by lia. destruct (arr_write _ _ _) as [b|]; [|done]. simpl.
      by rewrite memcpy_out by lia.
    + by rewrite memcpy_out by lia.
  - rewrite memcpy_ok, Z.add_0_l by lia.
    destruct (arr_write_spec (write_index rb) (seg 0 (buffer_size rb - write_index rb) ptr)
      (buffer_ptr rb)) as (b&->&Hb&_); [lia|rewrite zlen_seg by lia; lia|]. simpl.
    rewrite memcpy_ok by lia. rewrite arr_write_0 by (rewrite zlen_seg by lia; lia). simpl.
    rewrite bool_decide_true by lia. eexists; split; [done|].
    unfold contents; simpl. rewrite bool_decide_true by (by rewrite Hm).
    rewrite !(u15_small (_ - _)) by lia. apply seg_nil.
Qed.

Lemma put_force_loses_data_witness :
  rt_ringbuffer_put_force (RingBuffer [1; 2; 0; 0] false 0 false 2 4) [7; 8; 9] 3 = None ∧
  ∃ rb', rt_ringbuffer_put_force (RingBuffer [1; 2; 0; 0] false 0 false 2 4) [7; 8; 9; 10] 3
         = Some (4, rb') ∧ contents rb' = [].
Proof.
  assert (rb_wf (RingBuffer [1; 2; 0; 0] false 0 false 2 4)) as Hwf.
  { split; vm_compute; intuition congruence. }
  split.
  - refine (proj1 (put_force_loses_data _ [7; 8; 9] 3 Hwf _ _ _ _) _); vm_compute; intuition congruence.
  - refine (proj2 (put_force_loses_data _ [7; 8; 9; 10] 3 Hwf _ _ _ _) _);
      vm_compute; intuition congruence.
Defined.
