(* ===== verification/KString.v ===== *)
(** * Memory and string services (src/kservice.c)

    The byte and string functions of kservice.c over a byte-addressed memory,
    with the word-at-a-time fast paths as written, and their agreement with
    the plain byte-wise meaning. *)

From S2P Require Import Prelude.

(** ** Memory *)

(** A memory maps the mapped addresses to bytes; an access outside is [None]. *)
Abbreviation mem := (gmap Z Z).

Definition load (m : mem) (a : Z) : option Z := m !! a.

Definition store (m : mem) (a v : Z) : option mem :=
  match m !! a with Some _ => Some (<[a := u8 v]> m) | None => None end.

(** Little-endian 16-bit and 32-bit accesses. *)
Definition load16 (m : mem) (a : Z) : option Z :=
  b0 ← load m a; b1 ← load m (a + 1); Some (b0 + 2 ^ 8 * b1).
Definition store16 (m : mem) (a v : Z) : option mem :=
  m ← store m a v; store m (a + 1) (Z.shiftr v 8).

Definition load32 (m : mem) (a : Z) : option Z :=
  b0 ← load m a; b1 ← load m (a + 1); b2 ← load m (a + 2); b3 ← load m (a + 3);
  Some (b0 + 2 ^ 8 * b1 + 2 ^ 16 * b2 + 2 ^ 24 * b3).

Definition store32 (m : mem) (a v : Z) : option mem :=
  m ← store m a v;
  m ← store m (a + 1) (Z.shiftr v 8);
  m ← store m (a + 2) (Z.shiftr v 16);
  store m (a + 3) (Z.shiftr v 24).

(** ** memset, memcpy, memmove, memcmp *)

Definition LBLOCKSIZE : Z := 4.

(** [while (count--) *m++ = (char)d;] *)
Fixpoint set_bytes (count : nat) (m : mem) (p d : Z) : option mem :=
  match count with
  | O => Some m
  | S count => m ← store m p d; set_bytes count m (p + 1) d
  end.

(** [n] times [*aligned_addr++ = buffer]. *)
Fixpoint set_words (n : nat) (m : mem) (p buffer : Z) : option mem :=
  match n with
  | O => Some m
  | S n => m ← store32 m p buffer; set_words n m (p + 4) buffer
  end.

(** [while (count >= step) { step/4 word stores; count -= step; }]; the fuel is
    the initial count, which every iteration decreases. *)
Fixpoint set_loop (fuel : nat) (step : Z) (m : mem) (p count buffer : Z)
    : option (mem * Z * Z) :=
  match fuel with
  | O => None
  | S fuel =>
      if bool_decide (count >= step) then
        m ← set_words (Z.to_nat (step / 4)) m p buffer;
        set_loop fuel step m (p + step) (count - step) buffer
      else Some (m, p, count)
  end.

Definition rt_memset (m : mem) (s c count : Z) : option mem :=
  let d := Z.land c 0xff in
  if bool_decide (¬ count < LBLOCKSIZE ∧ Z.land s (LBLOCKSIZE - 1) = 0) then
    let buffer := Z.lor (Z.shiftl d 8) d in
    let buffer := u32 (Z.lor buffer (Z.shiftl buffer 16)) in
    '(m, p, count) ← set_loop (S (Z.to_nat count)) (LBLOCKSIZE * 4) m s count buffer;
    '(m, p, count) ← set_loop (S (Z.to_nat count)) LBLOCKSIZE m p count buffer;
    set_bytes (Z.to_nat count) m p d
  else set_bytes (Z.to_nat count) m s d.

Fixpoint copy_bytes (count : nat) (m : mem) (d s : Z) : option mem :=
  match count with
  | O => Some m
  | S count => v ← load m s; m ← store m d v; copy_bytes count m (d + 1) (s + 1)
  end.

Fixpoint copy_words (n : nat) (m : mem) (d s : Z) : option mem :=
  match n with
  | O => Some m
  | S n => v ← load32 m s; m ← store32 m d v; copy_words n m (d + 4) (s + 4)
  end.

Fixpoint copy_loop (fuel : nat) (step : Z) (m : mem) (d s len : Z)
    : option (mem * Z * Z * Z) :=
  match fuel with
  | O => None
  | S fuel =>
      if bool_decide (len >= step) then
        m ← copy_words (Z.to_nat (step / 4)) m d s;
        copy_loop fuel step m (d + step) (s + step) (len - step)
      else Some (m, d, s, len)
  end.

Definition BIGBLOCKSIZE : Z := 16.
Definition LITTLEBLOCKSIZE : Z := 4.

Definition rt_memcpy (m : mem) (dst src count : Z) : option mem :=
  if bool_decide (¬ count < BIGBLOCKSIZE ∧ Z.lor (Z.land src 3) (Z.land dst 3) = 0) then
    '(m, d, s, len) ← copy_loop (S (Z.to_nat count)) BIGBLOCKSIZE m dst src count;
    '(m, d, s, len) ← copy_loop (S (Z.to_nat len)) LITTLEBLOCKSIZE m d s len;
    copy_bytes (Z.to_nat len) m d s
  else copy_bytes (Z.to_nat count) m dst src.

(** [while (n--) *(--tmp) = *(--s);] *)
Fixpoint copy_bytes_down (count : nat) (m : mem) (d s : Z) : option mem :=
  match count with
  | O => Some m
  | S count => v ← load m (s - 1); m ← store m (d - 1) v; copy_bytes_down count m (d - 1) (s - 1)
  end.

Definition rt_memmove (m : mem) (dest src n : Z) : option mem :=
  if bool_decide (src < dest ∧ dest < src + n)
  then copy_bytes_down (Z.to_nat n) m (dest + n) (src + n)
  else copy_bytes (Z.to_nat n) m dest src.

Fixpoint cmp_bytes (count : nat) (m : mem) (su1 su2 : Z) : option Z :=
  match count with
  | O => Some 0
  | S count =>
      a ← load m su1; b ← load m su2;
      if bool_decide (a - b ≠ 0) then Some (a - b) else cmp_bytes count m (su1 + 1) (su2 + 1)
  end.

Definition rt_memcmp (m : mem) (cs ct count : Z) : option Z :=
  cmp_bytes (Z.to_nat count) m cs ct.

(** ** Strings

    A loop over a string has fuel for the bytes that are mapped: a string that
    is not terminated runs out of memory before it runs out of fuel. *)

Definition str_fuel (m : mem) : nat := S (size m).

Fixpoint strlen_loop (fuel : nat) (m : mem) (sc : Z) : option Z :=
  match fuel with
  | O => None
  | S fuel => c ← load m sc; if bool_decide (c = 0) then Some sc else strlen_loop fuel m (sc + 1)
  end.

Definition rt_strlen (m : mem) (s : Z) : option Z :=
  sc ← strlen_loop (str_fuel m) m s; Some (sc - s).

Fixpoint strcmp_loop (fuel : nat) (m : mem) (cs ct : Z) : option Z :=
  match fuel with
  | O => None
  | S fuel =>
      a ← load m cs; b ← load m ct;
      if bool_decide (a ≠ 0 ∧ a = b) then strcmp_loop fuel m (cs + 1) (ct + 1)
      else Some (a - b)
  end.

Definition rt_strcmp (m : mem) (cs ct : Z) : option Z := strcmp_loop (str_fuel m) m cs ct.

(** The result variable is a [signed char]. *)
Fixpoint rt_strncmp_loop (count : nat) (m : mem) (cs ct : Z) (res : Z) : option Z :=
  match count with
  | O => Some res
  | S count =>
      a ← load m cs; b ← load m ct;
      let res := s8 (a - b) in
      if bool_decide (res ≠ 0 ∨ a = 0) then Some res
      else rt_strncmp_loop count m (cs + 1) (ct + 1) res
  end.

Definition rt_strncmp (m : mem) (cs ct count : Z) : option Z :=
  rt_strncmp_loop (Z.to_nat count) m cs ct 0.

Fixpoint strncpy_loop (n : nat) (m : mem) (d s : Z) : option mem :=
  match n with
  | O => Some m
  | S n =>
      c ← load m s; m ← store m d c;
      if bool_decide (c = 0) then set_bytes n m (d + 1) 0 else strncpy_loop n m (d + 1) (s + 1)
  end.

Definition rt_strncpy (m : mem) (dst src n : Z) : option mem :=
  strncpy_loop (Z.to_nat n) m dst src.

Definition to_lower (c : Z) : Z := if bool_decide (65 <= c <= 90) then c + (97 - 65) else c.

Fixpoint strcasecmp_loop (fuel : nat) (m : mem) (a b : Z) : option Z :=
  match fuel with
  | O => None
  | S fuel =>
      x ← load m a; y ← load m b;
      let ca := to_lower (Z.land x 0xff) in
      let cb := to_lower (Z.land y 0xff) in
      if bool_decide (ca = cb ∧ ca ≠ 0) then strcasecmp_loop fuel m (a + 1) (b + 1)
      else Some (u32 (ca - cb))
  end.

Definition rt_strcasecmp (m : mem) (a b : Z) : option Z := strcasecmp_loop (str_fuel m) m a b.

(** [None] inside is the null pointer. *)
Fixpoint strstr_loop (l1 : nat) (l2 : Z) (m : mem) (s1 s2 : Z) : option (option Z) :=
  match l1 with
  | O => Some None
  | S l1 =>
      if bool_decide (Z.of_nat (S l1) >= l2) then
        r ← rt_memcmp m s1 s2 l2;
        if bool_decide (r = 0) then Some (Some s1) else strstr_loop l1 l2 m (s1 + 1) s2
      else Some None
  end.

Definition rt_strstr (m : mem) (s1 s2 : Z) : option (option Z) :=
  l2 ← rt_strlen m s2;
  if bool_decide (l2 = 0) then Some (Some s1) else
  l1 ← rt_strlen m s1;
  strstr_loop (Z.to_nat l1) l2 m s1 s2.

(** ** What the functions do to memory *)

(** Every value is a byte. *)
Definition byte_mem (m : mem) : Prop := ∀ a v, m !! a = Some v → in_u8 v.

Definition mapped (m : mem) (a n : Z) : Prop := ∀ i, 0 <= i < n → is_Some (m !! (a + i)).

(** The [n] bytes at [a]. *)
Definition bytes (m : mem) (a n : Z) : list Z :=
  (λ i, default 0 (m !! (a + Z.of_nat i))) <$> seq 0 (Z.to_nat n).

(** [m'] is [m] with the [n] bytes at [a] set to [g]. *)
Definition writes (m m' : mem) (a n : Z) (g : Z → Z) : Prop :=
  ∀ x, m' !! x = if bool_decide (a <= x < a + n) then Some (g x) else m !! x.

(** [m'] is [m] with the [n] bytes at [d] replaced by those [m] has at [s]. *)
Definition copies (m m' : mem) (d s n : Z) : Prop :=
  ∀ x, m' !! x = if bool_decide (d <= x < d + n) then m !! (s + (x - d)) else m !! x.

Lemma writes_trans m m1 m2 a n k g : 0 <= n → 0 <= k →
  writes m m1 a n g → writes m1 m2 (a + n) k g → writes m m2 a (n + k) g.
Proof. intros ?? H1 H2 x. rewrite H2, H1. repeat case_bool_decide; done || lia. Qed.

Lemma writes_mapped m m' a n g b k : writes m m' a n g → mapped m b k → mapped m' b k.
Proof. intros Hw Hm i Hi. rewrite Hw. case_bool_decide; [by eexists|by apply Hm]. Qed.

Lemma mapped_sub m a n b k : mapped m a n → a <= b → b + k <= a + n → mapped m b k.
Proof.
  intros Hm ?? i Hi. replace (b + i) with (a + (b + i - a)) by lia. apply Hm. lia.
Qed.

Lemma writes_nil m a g : writes m m a 0 g.
Proof. intros x. case_bool_decide; [lia|done]. Qed.

Lemma copies_nil m d s : copies m m d s 0.
Proof. intros x. case_bool_decide; [lia|done]. Qed.

Lemma copies_trans m m1 m2 d s n k : 0 <= n → 0 <= k →
  d <= s ∨ s + n + k <= d →
  copies m m1 d s n → copies m1 m2 (d + n) (s + n) k → copies m m2 d s (n + k).
Proof.
  intros ??? H1 H2 x. rewrite H2. case_bool_decide.
  - rewrite H1. rewrite bool_decide_false by lia. rewrite bool_decide_true by lia. f_equal. lia.
  - rewrite H1. repeat case_bool_decide; done || lia.
Qed.

Lemma copies_mapped m m' d s n b k : copies m m' d s n → mapped m s n →
  mapped m b k → mapped m' b k.
Proof.
  intros Hc Hs Hm i Hi. rewrite Hc. case_bool_decide; [|by apply Hm]. apply Hs. lia.
Qed.

Lemma copies_bytes m m' d s n : copies m m' d s n → byte_mem m → byte_mem m'.
Proof. intros Hc Hb a v. rewrite Hc. case_bool_decide; apply Hb. Qed.

Lemma store_spec m a v : mapped m a 1 →
  ∃ m', store m a v = Some m' ∧ writes m m' a 1 (λ _, u8 v).
Proof.
  intros Hm. destruct (Hm 0 ltac:(lia)) as [w Hw]. rewrite Z.add_0_r in Hw.
  unfold store. rewrite Hw. eexists; split; [done|]. intros x. case_bool_decide.
  - replace x with a by lia. apply lookup_insert_eq.
  - apply lookup_insert_ne. lia.
Qed.

Lemma set_bytes_spec n m p d : mapped m p (Z.of_nat n) →
  ∃ m', set_bytes n m p d = Some m' ∧ writes m m' p (Z.of_nat n) (λ _, u8 d).
Proof.
  revert m p. induction n as [|n IH]; intros m p Hm; cbn [set_bytes].
  { exists m. split; [done|apply writes_nil]. }
  destruct (store_spec m p d) as (m1&->&Hw1); [eapply mapped_sub; [done|lia..]|]. simpl.
  destruct (IH m1 (p + 1)) as (m2&->&Hw2).
  { eapply writes_mapped, mapped_sub; [done..|lia|lia]. }
  exists m2. split; [done|]. rewrite Nat2Z.inj_succ, <-Z.add_1_l.
  by apply (writes_trans m m1); [lia..| |].
Qed.

Lemma store32_spec m a v : mapped m a 4 →
  ∃ m', store32 m a v = Some m' ∧ writes m m' a 4 (λ x, u8 (Z.shiftr v (8 * (x - a)))).
Proof.
  intros Hm. unfold store32.
  assert (∀ m' b g j, writes m m' a j g → a <= b < a + 4 → mapped m' b 1) as Hmap.
  { intros. eapply writes_mapped, mapped_sub; [done..|lia|lia]. }
  destruct (store_spec m a v) as (m1&->&H1); [eapply mapped_sub; [done|lia..]|]. simpl.
  destruct (store_spec m1 (a + 1) (Z.shiftr v 8)) as (m2&->&H2); [eapply Hmap; [done|lia]|]. simpl.
  assert (mapped m2 (a + 2) 1) as Hm2.
  { eapply writes_mapped; [done|]. eapply Hmap; [done|lia]. }
  destruct (store_spec m2 (a + 2) (Z.shiftr v 16)) as (m3&->&H3); [done|]. simpl.
  destruct (store_spec m3 (a + 3) (Z.shiftr v 24)) as (m4&->&H4).
  { do 2 (eapply writes_mapped; [done|]). eapply Hmap; [done|lia]. }
  exists m4. split; [done|]. intros x. rewrite H4, H3, H2, H1.
  repeat case_bool_decide; try lia; try done; do 2 f_equal.
  - replace (8 * (x - a)) with 24 by lia. done.
  - replace (8 * (x - a)) with 16 by lia. done.
  - replace (8 * (x - a)) with 8 by lia. done.
  - replace (8 * (x - a)) with 0 by lia. by rewrite Z.shiftr_0_r.
Qed.

(** The word [rt_memset] stores holds its byte four times. *)
Definition fill_word (d : Z) : Z :=
  let b := Z.lor (Z.shiftl d 8) d in u32 (Z.lor b (Z.shiftl b 16)).

Lemma fill_word_byte d i : in_u8 d → 0 <= i < 4 → u8 (Z.shiftr (fill_word d) (8 * i)) = d.
Proof.
  intros Hd Hi.
  assert (forallb (λ d, forallb (λ i, Z.eqb (u8 (Z.shiftr (fill_word d) (8 * i))) d)
    [0; 1; 2; 3]) (Z.of_nat <$> seq 0 256) = true) as H by (vm_compute; reflexivity).
  rewrite forallb_forall in H. specialize (H d). rewrite forallb_forall in H.
  apply Z.eqb_eq, H.
  - apply list_elem_of_In, list_elem_of_fmap. exists (Z.to_nat d). unfold in_u8 in Hd.
    split; [lia|]. apply elem_of_seq. lia.
  - assert (i = 0 ∨ i = 1 ∨ i = 2 ∨ i = 3) as Hi' by lia. simpl. intuition.
Qed.

Lemma set_words_spec n m p d : in_u8 d → mapped m p (4 * Z.of_nat n) →
  ∃ m', set_words n m p (fill_word d) = Some m' ∧ writes m m' p (4 * Z.of_nat n) (λ _, d).
Proof.
  intros Hd. revert m p. induction n as [|n IH]; intros m p Hm; cbn [set_words].
  { exists m. split; [done|apply writes_nil]. }
  destruct (store32_spec m p (fill_word d)) as (m1&->&Hw1).
  { eapply mapped_sub; [done|lia..]. }
  assert (writes m m1 p 4 (λ _, d)) as Hw1'.
  { intros x. rewrite Hw1. case_bool_decide; [|done]. by rewrite fill_word_byte by (done || lia). }
  destruct (IH m1 (p + 4)) as (m2&Hm2&Hw2).
  { eapply writes_mapped, mapped_sub; [done..|lia|lia]. }
  exists m2. split; [done|]. replace (4 * Z.of_nat (S n)) with (4 + 4 * Z.of_nat n) by lia.
  by apply (writes_trans m m1); [lia..| |].
Qed.

Lemma set_loop_spec fuel step m p count d : in_u8 d → 0 < step → step mod 4 = 0 →
  0 <= count < Z.of_nat fuel → mapped m p count →
  ∃ m' k, set_loop fuel step m p count (fill_word d) = Some (m', p + k, count - k) ∧
    0 <= k <= count ∧ count - k < step ∧ writes m m' p k (λ _, d).
Proof.
  intros Hd Hs Hs4. revert m p count.
  induction fuel as [|fuel IH]; intros m p count Hf Hm; [lia|]. cbn [set_loop]. case_bool_decide.
  - assert (4 * Z.of_nat (Z.to_nat (step / 4)) = step) as E by mlia.
    destruct (set_words_spec (Z.to_nat (step / 4)) m p d) as (m1&->&Hw1); [done| |].
    { rewrite E. eapply mapped_sub; [done|lia..]. }
    rewrite E in Hw1. simpl.
    destruct (IH m1 (p + step) (count - step)) as (m2&k&->&Hk&Hlt&Hw2); [lia| |].
    { eapply writes_mapped, mapped_sub; [done..|lia|lia]. }
    exists m2, (step + k). rewrite Z.add_assoc, Z.sub_add_distr. split; [done|].
    split_and!; [lia..|].
    by apply (writes_trans m m1); [lia..| |].
  - exists m, 0. rewrite Z.add_0_r, Z.sub_0_r. split; [done|].
    split_and!; [lia..|apply writes_nil].
Qed.

Lemma memset_writes m s c count : 0 <= count → mapped m s count →
  ∃ m', rt_memset m s c count = Some m' ∧ writes m m' s count (λ _, Z.land c 0xff).
Proof.
  intros Hc Hm. unfold rt_memset. set (d := Z.land c 0xff). fold (fill_word d).
  assert (in_u8 d) as Hd.
  { subst d. change 0xff with (Z.ones 8). rewrite Z.land_ones by lia. apply u8_range. }
  clearbody d. destruct (decide (¬ count < LBLOCKSIZE ∧ Z.land s (LBLOCKSIZE - 1) = 0)).
  - rewrite bool_decide_true by done.
    destruct (set_loop_spec (S (Z.to_nat count)) (LBLOCKSIZE * 4) m s count d)
      as (m1&k1&->&Hk1&_&Hw1); [done|done|done|lia|done|]. obind.
    destruct (set_loop_spec (S (Z.to_nat (count - k1))) LBLOCKSIZE m1 (s + k1) (count - k1) d)
      as (m2&k2&->&Hk2&_&Hw2); [done|done|done|lia| |].
    { eapply writes_mapped, mapped_sub; [done..|lia|lia]. }
    obind. destruct (set_bytes_spec (Z.to_nat (count - k1 - k2)) m2 (s + k1 + k2) d)
      as (m3&->&Hw3); rewrite ?Z2Nat.id in * by lia.
    { do 2 (eapply writes_mapped; [done|]). eapply mapped_sub; [done..|lia|lia]. }
    exists m3. split; [done|]. rewrite u8_small in Hw3 by done.
    replace count with (k1 + (k2 + (count - k1 - k2))) by lia.
    apply (writes_trans m m1); [lia..|done|]. by apply (writes_trans m1 m2); [lia..| |].
  - rewrite bool_decide_false by done.
    destruct (set_bytes_spec (Z.to_nat count) m s d) as (m1&->&Hw1); rewrite ?Z2Nat.id in * by lia;
      [done|]. rewrite u8_small in Hw1 by done. by exists m1.
Qed.

Lemma copy_bytes_spec n m d s : byte_mem m → d <= s ∨ s + Z.of_nat n <= d →
  mapped m d (Z.of_nat n) → mapped m s (Z.of_nat n) →
  ∃ m', copy_bytes n m d s = Some m' ∧ copies m m' d s (Z.of_nat n).
Proof.
  revert m d s. induction n as [|n IH]; intros m d s Hb Hor Hd Hs; cbn [copy_bytes].
  { exists m. split; [done|apply copies_nil]. }
  destruct (Hs 0 ltac:(lia)) as [v Hv]. rewrite Z.add_0_r in Hv. unfold load at 1. rewrite Hv. simpl.
  destruct (store_spec m d v) as (m1&->&Hw); [apply (mapped_sub _ _ _ _ _ Hd); lia|]. obind.
  assert (copies m m1 d s 1) as Hc.
  { intros x. rewrite Hw. case_bool_decide; [|done].
    replace (s + (x - d)) with s by lia. rewrite Hv. f_equal. apply u8_small. by eapply Hb. }
  destruct (IH m1 (d + 1) (s + 1)) as (m2&->&Hc2); [by eapply copies_bytes|lia|..].
  1: apply (writes_mapped _ _ _ _ _ _ _ Hw), (mapped_sub _ _ _ _ _ Hd); lia.
  1: apply (writes_mapped _ _ _ _ _ _ _ Hw), (mapped_sub _ _ _ _ _ Hs); lia.
  exists m2. split; [done|]. rewrite Nat2Z.inj_succ, <-Z.add_1_l.
  by apply (copies_trans m m1); [lia..| |].
Qed.

Lemma load32_store32 m d s : byte_mem m → mapped m d 4 → mapped m s 4 →
  ∃ v m', load32 m s = Some v ∧ store32 m d v = Some m' ∧ copies m m' d s 4.
Proof.
  intros Hb Hd Hs. unfold load32, load.
  destruct (Hs 0 ltac:(lia)) as [b0 H0]. destruct (Hs 1 ltac:(lia)) as [b1 H1].
  destruct (Hs 2 ltac:(lia)) as [b2 H2]. destruct (Hs 3 ltac:(lia)) as [b3 H3].
  rewrite Z.add_0_r in H0. rewrite H0, H1, H2, H3. simpl.
  pose proof (Hb _ _ H0). pose proof (Hb _ _ H1). pose proof (Hb _ _ H2). pose proof (Hb _ _ H3).
  destruct (store32_spec m d (b0 + 2 ^ 8 * b1 + 2 ^ 16 * b2 + 2 ^ 24 * b3)) as (m'&Hm'&Hw); [done|].
  eexists _, m'. split; [done|]. split; [done|].
  intros x. rewrite Hw. case_bool_decide; [|done].
  rewrite Z.shiftr_div_pow2 by lia.
  assert (x = d ∨ x = d + 1 ∨ x = d + 2 ∨ x = d + 3) as [->|[->|[->| ->]]] by lia.
  - replace (s + (d - d)) with s by lia. rewrite H0. f_equal.
    replace (8 * (d - d)) with 0 by lia. mlia.
  - replace (s + (d + 1 - d)) with (s + 1) by lia. rewrite H1. f_equal.
    replace (8 * (d + 1 - d)) with 8 by lia. change (2 ^ 24) with 16777216. mlia.
  - replace (s + (d + 2 - d)) with (s + 2) by lia. rewrite H2. f_equal.
    replace (8 * (d + 2 - d)) with 16 by lia. change (2 ^ 24) with 16777216. mlia.
  - replace (s + (d + 3 - d)) with (s + 3) by lia. rewrite H3. f_equal.
    replace (8 * (d + 3 - d)) with 24 by lia. change (2 ^ 24) with 16777216. mlia.
Qed.

Lemma copy_words_spec n m d s : byte_mem m → d <= s ∨ s + 4 * Z.of_nat n <= d →
  mapped m d (4 * Z.of_nat n) → mapped m s (4 * Z.of_nat n) →
  ∃ m', copy_words n m d s = Some m' ∧ copies m m' d s (4 * Z.of_nat n).
Proof.
  revert m d s. induction n as [|n IH]; intros m d s Hb Hor Hd Hs; cbn [copy_words].
  { exists m. split; [done|apply copies_nil]. }
  assert (mapped m s 4) as Hs4 by (apply (mapped_sub _ _ _ _ _ Hs); lia).
  destruct (load32_store32 m d s) as (v&m1&Hv&Hm1&Hc); [done| |done|].
  { apply (mapped_sub _ _ _ _ _ Hd); lia. }
  rewrite Hv. obind. rewrite Hm1. obind.
  pose proof (copies_mapped _ _ _ _ _ _ _ Hc Hs4 Hd) as Hd'.
  pose proof (copies_mapped _ _ _ _ _ _ _ Hc Hs4 Hs) as Hs'.
  destruct (IH m1 (d + 4) (s + 4)) as (m2&Hm2&Hc2); [by eapply copies_bytes|lia|..].
  1: apply (mapped_sub _ _ _ _ _ Hd'); lia.
  1: apply (mapped_sub _ _ _ _ _ Hs'); lia.
  exists m2. split; [done|]. replace (4 * Z.of_nat (S n)) with (4 + 4 * Z.of_nat n) by lia.
  by apply (copies_trans m m1); [lia..| |].
Qed.

Lemma copy_loop_spec fuel step m d s len : byte_mem m → 0 < step → step mod 4 = 0 →
  0 <= len < Z.of_nat fuel → d <= s ∨ s + len <= d → mapped m d len → mapped m s len →
  ∃ m' k, copy_loop fuel step m d s len = Some (m', d + k, s + k, len - k) ∧
    0 <= k <= len ∧ copies m m' d s k.
Proof.
  intros Hb Hst Hst4. revert m d s len Hb.
  induction fuel as [|fuel IH]; intros m d s len Hb Hf Hor Hd Hs; [lia|].
  cbn [copy_loop]. case_bool_decide.
  - assert (4 * Z.of_nat (Z.to_nat (step / 4)) = step) as E by mlia.
    assert (mapped m s step) as Hss by (apply (mapped_sub _ _ _ _ _ Hs); lia).
    destruct (copy_words_spec (Z.to_nat (step / 4)) m d s) as (m1&->&Hc1);
      rewrite ?E in *; [done|lia| |done|].
    { apply (mapped_sub _ _ _ _ _ Hd); lia. }
    obind. pose proof (copies_mapped _ _ _ _ _ _ _ Hc1 Hss Hd) as Hd'.
    pose proof (copies_mapped _ _ _ _ _ _ _ Hc1 Hss Hs) as Hs'.
    destruct (IH m1 (d + step) (s + step) (len - step)) as (m2&k&->&Hk&Hc2);
      [by eapply copies_bytes|lia|lia| | |].
    1: apply (mapped_sub _ _ _ _ _ Hd'); lia.
    1: apply (mapped_sub _ _ _ _ _ Hs'); lia.
    exists m2, (step + k). rewrite !Z.add_assoc, Z.sub_add_distr. split; [done|].
    split; [lia|]. apply (copies_trans m m1); [lia..|done|done].
  - exists m, 0. rewrite !Z.add_0_r, Z.sub_0_r. split; [done|].
    split; [lia|apply copies_nil].
Qed.

Lemma memcpy_copies m dst src count : byte_mem m → 0 <= count →
  dst <= src ∨ src + count <= dst → mapped m dst count → mapped m src count →
  ∃ m', rt_memcpy m dst src count = Some m' ∧ copies m m' dst src count.
Proof.
  intros Hb Hc Hor Hd Hs. unfold rt_memcpy. case_bool_decide.
  - destruct (copy_loop_spec (S (Z.to_nat count)) BIGBLOCKSIZE m dst src count)
      as (m1&k1&->&Hk1&Hc1); [done|done|done|lia|done|done|done|]. obind.
    assert (mapped m src k1) as Hs1 by (apply (mapped_sub _ _ _ _ _ Hs); lia).
    pose proof (copies_mapped _ _ _ _ _ _ _ Hc1 Hs1 Hd) as Hd1.
    pose proof (copies_mapped _ _ _ _ _ _ _ Hc1 Hs1 Hs) as Hs1'.
    pose proof (copies_bytes _ _ _ _ _ Hc1 Hb) as Hb1.
    destruct (copy_loop_spec (S (Z.to_nat (count - k1))) LITTLEBLOCKSIZE m1 (dst + k1) (src + k1)
      (count - k1)) as (m2&k2&->&Hk2&Hc2); [done|done|done|lia|lia| | |].
    1: apply (mapped_sub _ _ _ _ _ Hd1); lia.
    1: apply (mapped_sub _ _ _ _ _ Hs1'); lia.
    obind. assert (mapped m1 (src + k1) k2) as Hs2 by (apply (mapped_sub _ _ _ _ _ Hs1'); lia).
    pose proof (copies_mapped _ _ _ _ _ _ _ Hc2 Hs2 Hd1) as Hd2.
    pose proof (copies_mapped _ _ _ _ _ _ _ Hc2 Hs2 Hs1') as Hs2'.
    destruct (copy_bytes_spec (Z.to_nat (count - k1 - k2)) m2 (dst + k1 + k2) (src + k1 + k2))
      as (m3&->&Hc3); rewrite ?Z2Nat.id in * by lia; [by eapply copies_bytes|lia| | |].
    1: apply (mapped_sub _ _ _ _ _ Hd2); lia.
    1: apply (mapped_sub _ _ _ _ _ Hs2'); lia.
    exists m3. split; [done|]. replace count with (k1 + (k2 + (count - k1 - k2))) by lia.
    apply (copies_trans m m1); [lia..|done|]. apply (copies_trans m1 m2); [lia..|done|done].
  - destruct (copy_bytes_spec (Z.to_nat count) m dst src) as (m1&->&Hc1);
      rewrite ?Z2Nat.id in * by lia; [done..|]. by exists m1.
Qed.

Lemma copy_bytes_down_spec n m d s : byte_mem m → s <= d →
  mapped m (d - Z.of_nat n) (Z.of_nat n) → mapped m (s - Z.of_nat n) (Z.of_nat n) →
  ∃ m', copy_bytes_down n m d s = Some m' ∧
        copies m m' (d - Z.of_nat n) (s - Z.of_nat n) (Z.of_nat n).
Proof.
  revert m d s. induction n as [|n IH]; intros m d s Hb Hor Hd Hs; cbn [copy_bytes_down].
  { exists m. split; [done|apply copies_nil]. }
  assert (mapped m (s - 1) 1) as Hs1 by (apply (mapped_sub _ _ _ _ _ Hs); lia).
  destruct (Hs1 0 ltac:(lia)) as [v Hv]. rewrite Z.add_0_r in Hv. unfold load. rewrite Hv. obind.
  destruct (store_spec m (d - 1) v) as (m1&->&Hw); [apply (mapped_sub _ _ _ _ _ Hd); lia|]. obind.
  assert (copies m m1 (d - 1) (s - 1) 1) as Hc.
  { intros x. rewrite Hw. case_bool_decide; [|done].
    replace (s - 1 + (x - (d - 1))) with (s - 1) by lia. rewrite Hv. f_equal.
    apply u8_small. by eapply Hb. }
  destruct (IH m1 (d - 1) (s - 1)) as (m2&Hm2&Hc2); [by eapply copies_bytes|lia|..].
  1: apply (writes_mapped _ _ _ _ _ _ _ Hw), (mapped_sub _ _ _ _ _ Hd); lia.
  1: apply (writes_mapped _ _ _ _ _ _ _ Hw), (mapped_sub _ _ _ _ _ Hs); lia.
  exists m2. split; [done|]. intros x. rewrite Hc2. case_bool_decide.
  - rewrite (bool_decide_true (d - _ <= x < _)) by lia. rewrite Hc, bool_decide_false by lia.
    f_equal. lia.
  - rewrite Hc. case_bool_decide; [rewrite bool_decide_true by lia|rewrite bool_decide_false by lia];
      f_equal; lia.
Qed.

Lemma memmove_copies m dest src n : byte_mem m → 0 <= n → mapped m dest n → mapped m src n →
  ∃ m', rt_memmove m dest src n = Some m' ∧ copies m m' dest src n.
Proof.
  intros Hb Hn Hd Hs. unfold rt_memmove. case_bool_decide.
  - pose proof (copy_bytes_down_spec (Z.to_nat n) m (dest + n) (src + n)) as H1.
    rewrite Z2Nat.id, !Z.add_simpl_r in H1 by lia. apply H1; [done|lia|done|done].
  - pose proof (copy_bytes_spec (Z.to_nat n) m dest src) as H1.
    rewrite Z2Nat.id in H1 by lia. apply H1; [done|lia|done|done].
Qed.

(** ** What the functions compute of strings *)

(** The bytes at [a] are the characters [s] and a terminating null. *)
Fixpoint cstr (m : mem) (a : Z) (s : list Z) : Prop :=
  match s with
  | [] => m !! a = Some 0
  | c :: s => m !! a = Some c ∧ c ≠ 0 ∧ cstr m (a + 1) s
  end.

Lemma cstr_mapped m a s : cstr m a s → mapped m a (zlen s + 1).
Proof.
  revert a. induction s as [|c s IH]; intros a Hs i Hi; unfold zlen in *; simpl in *.
  - replace (a + i) with a by lia. by eexists.
  - destruct Hs as (Hc&_&Hs). destruct (decide (i = 0)) as [->|].
    + rewrite Z.add_0_r. by eexists.
    + replace (a + i) with (a + 1 + (i - 1)) by lia. apply (IH _ Hs). lia.
Qed.

Lemma mapped_size (m : gmap Z Z) a n : 0 <= n → mapped m a n → n <= Z.of_nat (size m).
Proof.
  intros Hn Hm. set (ks := (λ i, a + Z.of_nat i) <$> seq 0 (Z.to_nat n)).
  assert (list_to_set ks ⊆@{gset Z} dom m) as Hsub.
  { intros x (i&->&Hi%elem_of_seq)%elem_of_list_to_set%list_elem_of_fmap.
    apply elem_of_dom, Hm. lia. }
  apply subseteq_size in Hsub. rewrite (size_dom m), size_list_to_set in Hsub.
  - subst ks. rewrite length_fmap, length_seq in Hsub. lia.
  - apply NoDup_fmap_2; [|apply NoDup_seq]. intros i j. lia.
Qed.

Lemma cstr_fuel m a s : cstr m a s → (length s < str_fuel m)%nat.
Proof.
  intros Hs%cstr_mapped. apply mapped_size in Hs; unfold zlen, str_fuel in *; lia.
Qed.

Lemma strlen_loop_spec fuel m a s : cstr m a s → (length s < fuel)%nat →
  strlen_loop fuel m a = Some (a + zlen s).
Proof.
  revert a s. induction fuel as [|fuel IH]; intros a s Hs Hf; [lia|].
  cbn [strlen_loop]. unfold load. destruct s as [|c s]; simpl in Hs.
  - rewrite Hs. obind. change (zlen []) with 0. by rewrite bool_decide_true, Z.add_0_r.
  - destruct Hs as (->&Hc&Hs). obind. rewrite bool_decide_false by done.
    rewrite (IH _ s) by (done || simpl in Hf; lia). f_equal. unfold zlen. simpl. lia.
Qed.

Lemma strlen_spec m a s : cstr m a s → rt_strlen m a = Some (zlen s).
Proof.
  intros Hs. unfold rt_strlen. rewrite (strlen_loop_spec _ _ _ s) by eauto using cstr_fuel.
  obind. f_equal. lia.
Qed.

(** The first difference of two strings, the end being a null character. *)
Fixpoint str_diff (s t : list Z) : Z :=
  match s, t with
  | [], [] => 0
  | a :: s, b :: t => if bool_decide (a = b) then str_diff s t else a - b
  | a :: _, [] => a
  | [], b :: _ => - b
  end.

Lemma cstr_head m a s : cstr m a s → m !! a = Some (default 0 (head s)).
Proof. destruct s; simpl; [done|tauto]. Qed.

Lemma strcmp_loop_spec fuel m a b s t : cstr m a s → cstr m b t → (length s < fuel)%nat →
  strcmp_loop fuel m a b = Some (str_diff s t).
Proof.
  revert a b s t. induction fuel as [|fuel IH]; intros a b s t Hs Ht Hf; [lia|].
  cbn [strcmp_loop]. unfold load.
  rewrite (cstr_head _ _ _ Hs), (cstr_head _ _ _ Ht). obind.
  destruct s as [|x s], t as [|y t]; simpl in *.
  - done.
  - done.
  - destruct Hs as (_&?&_). rewrite bool_decide_false by lia. f_equal. lia.
  - destruct Hs as (_&?&Hs), Ht as (_&?&Ht). destruct (decide (x = y)) as [->|].
    + rewrite !bool_decide_true by done. apply IH; [done..|lia].
    + rewrite !bool_decide_false by tauto. done.
Qed.

Lemma str_diff_eq m a b s t : cstr m a s → cstr m b t → str_diff s t = 0 ↔ s = t.
Proof.
  revert a b t. induction s as [|x s IH]; intros a b [|y t] Hs Ht; simpl in *.
  - done.
  - split; [lia|done].
  - split; [lia|done].
  - destruct Hs as (_&?&Hs), Ht as (_&?&Ht). case_bool_decide as E.
    + subst. rewrite (IH _ _ _ Hs Ht). split; congruence.
    + split; [lia|congruence].
Qed.

Lemma s8_zero_diff a b : in_u8 a → in_u8 b → s8 (a - b) = 0 ↔ a = b.
Proof. intros. mlia. Qed.

(** [rt_strncmp] is zero exactly when the strings agree on the first [count]
    characters; the sign of a non-zero result is lost, see [strncmp_sign]. *)
Lemma strncmp_loop_zero n m a b s t res : byte_mem m → cstr m a s → cstr m b t →
  ∃ r, rt_strncmp_loop n m a b res = Some r ∧
       (n ≠ O → r = 0 ↔ take n s = take n t) ∧ (n = O → r = res).
Proof.
  intros Hb. revert a b s t res. induction n as [|n IH]; intros a b s t res Hs Ht.
  { exists res. done. }
  pose proof (cstr_head _ _ _ Hs) as E1. pose proof (cstr_head _ _ _ Ht) as E2.
  pose proof (s8_zero_diff _ _ (Hb _ _ E1) (Hb _ _ E2)) as Hz.
  cbn [rt_strncmp_loop]. unfold load. rewrite E1, E2. obind.
  destruct s as [|x s], t as [|y t]; simpl in *.
  - exists 0. done.
  - destruct Ht as (_&?&_). rewrite bool_decide_true by (right; done).
    eexists; split; [done|]. split; [|done]. intros _. split; [|done]. intros ?%Hz. congruence.
  - destruct Hs as (_&?&_). rewrite bool_decide_true by (left; intros ?%Hz; congruence).
    eexists; split; [done|]. split; [|done]. intros _. split; [|done]. intros ?%Hz. congruence.
  - destruct Hs as (_&?&Hs), Ht as (_&?&Ht). destruct (decide (x = y)) as [->|Hne].
    + rewrite bool_decide_false by (rewrite Hz; tauto).
      destruct (IH _ _ s t (s8 (y - y)) Hs Ht) as (r&->&Hr1&Hr2). exists r.
      split; [done|]. split; [|done]. intros _. destruct n as [|n].
      * rewrite Hr2 by done. split; [done|]. intros _. by apply Hz.
      * rewrite Hr1 by done. split; [intros ->; done|congruence].
    + rewrite bool_decide_true by (left; by rewrite Hz).
      eexists; split; [done|]. split; [|done]. intros _. rewrite Hz. split; congruence.
Qed.

Lemma cstr_frame m m' a s :
  (∀ x, a <= x <= a + zlen s → m' !! x = m !! x) → cstr m a s → cstr m' a s.
Proof.
  revert a. induction s as [|c s IH]; intros a Hf Hs; unfold zlen in *; simpl in *.
  - by rewrite Hf by lia.
  - rewrite Hf by lia. destruct Hs as (?&?&?). split_and!; [done..|]. apply IH; [|done].
    intros. apply Hf. lia.
Qed.

(** The [i]th byte of a string padded with nulls. *)
Definition str_at (s : list Z) (i : Z) : Z := default 0 (s !! Z.to_nat i).

Lemma strncpy_loop_spec n m d a s : byte_mem m → cstr m a s →
  d + Z.of_nat n <= a ∨ a + zlen s < d → mapped m d (Z.of_nat n) →
  ∃ m', strncpy_loop n m d a = Some m' ∧ writes m m' d (Z.of_nat n) (λ x, str_at s (x - d)).
Proof.
  revert m d a s. induction n as [|n IH]; intros m d a s Hb Hs Hor Hm; cbn [strncpy_loop].
  { exists m. split; [done|apply writes_nil]. }
  pose proof (cstr_head _ _ _ Hs) as E. unfold load. rewrite E. obind.
  destruct (store_spec m d (default 0 (head s))) as (m1&->&Hw).
  { apply (mapped_sub _ _ _ _ _ Hm); lia. }
  obind. rewrite u8_small in Hw by eauto.
  pose proof (writes_mapped _ _ _ _ _ _ _ Hw Hm) as Hm1. destruct s as [|c s]; simpl in *.
  - destruct (set_bytes_spec n m1 (d + 1) 0) as (m2&->&Hw2).
    { apply (mapped_sub _ _ _ _ _ Hm1); lia. }
    exists m2. split; [done|]. rewrite Nat2Z.inj_succ, <-Z.add_1_l.
    apply (writes_trans m m1); [lia..| |].
    + intros x. by rewrite Hw.
    + intros x. by rewrite Hw2.
  - destruct Hs as (_&Hc&Hs). rewrite bool_decide_false by done.
    unfold zlen in Hor; simpl in Hor.
    destruct (IH m1 (d + 1) (a + 1) s) as (m2&->&Hw2).
    + intros y v. rewrite Hw. case_bool_decide; [intros [= <-]|]; eauto.
    + apply (cstr_frame m); [|done]. unfold zlen. intros x Hx. rewrite Hw.
      rewrite bool_decide_false by lia. done.
    + unfold zlen. lia.
    + apply (mapped_sub _ _ _ _ _ Hm1); lia.
    + exists m2. split; [done|]. rewrite Nat2Z.inj_succ, <-Z.add_1_l.
      apply (writes_trans m m1); [lia..| |]; intros x.
      * rewrite Hw. case_bool_decide; [|done]. unfold str_at. by replace (x - d) with 0 by lia.
      * rewrite Hw2. case_bool_decide; [|done]. unfold str_at.
        replace (Z.to_nat (x - d)) with (S (Z.to_nat (x - (d + 1)))) by lia. done.
Qed.

Lemma cmp_bytes_prefix m a b s t : cstr m a s → cstr m b t → (length t <= length s)%nat →
  ∃ r, cmp_bytes (length t) m a b = Some r ∧ (r = 0 ↔ t `prefix_of` s).
Proof.
  revert a b s. induction t as [|y t IH]; intros a b s Hs Ht Hl; simpl in *.
  { exists 0. split; [done|]. split; [intros _; by exists s|done]. }
  destruct s as [|x s]; simpl in *; [lia|].
  destruct Hs as (Hx&_&Hs), Ht as (Hy&_&Ht). unfold load. rewrite Hx, Hy. obind.
  case_bool_decide.
  - eexists; split; [done|]. split; [lia|]. intros [? [= -> _]]. lia.
  - destruct (IH _ _ _ Hs Ht ltac:(lia)) as (r&->&Hr). exists r. split; [done|].
    replace y with x by lia. rewrite Hr. split; [apply prefix_cons|apply prefix_cons_inv_2].
Qed.

(** The offset of the first occurrence of [t] in [s]. *)
Fixpoint find_sub (s t : list Z) : option nat :=
  if decide (t `prefix_of` s) then Some O else
  match s with [] => None | _ :: s => S <$> find_sub s t end.

Lemma strstr_loop_spec m a b s t : cstr m a s → cstr m b t → t ≠ [] →
  strstr_loop (length s) (zlen t) m a b = Some ((λ k, a + Z.of_nat k) <$> find_sub s t).
Proof.
  intros Hs Ht Hne. revert a Hs. induction s as [|x s IH]; intros a Hs; cbn [strstr_loop length].
  { simpl. destruct (decide _) as [Hp%prefix_nil_inv|]; done. }
  simpl find_sub. unfold zlen at 1. case_bool_decide as Hle.
  - destruct (cmp_bytes_prefix m a b (x :: s) t Hs Ht) as (r&Hr&Hr0); [simpl; lia|].
    unfold rt_memcmp, zlen. rewrite Nat2Z.id, Hr. obind. destruct Hs as (_&_&Hs).
    destruct (decide (t `prefix_of` x :: s)) as [Hp|Hp].
    + rewrite bool_decide_true by tauto. simpl. by rewrite Z.add_0_r.
    + rewrite bool_decide_false by tauto. fold (zlen t). rewrite (IH _ Hs). f_equal.
      destruct (find_sub s t); simpl; [|done]. f_equal. lia.
  - assert (∀ s', (length s' <= length s)%nat → find_sub s' t = None) as Hnone.
    { induction s' as [|y s' IH']; simpl; intros Hl'.
      - destruct (decide _) as [Hp%prefix_nil_inv|]; done.
      - destruct (decide _) as [Hp%prefix_length|]; [simpl in *; lia|].
        by rewrite IH' by lia. }
    destruct (decide _) as [Hp%prefix_length|]; [simpl in *; lia|].
    by rewrite Hnone by lia.
Qed.

(** ** Find first set *)

(** The 16 columns repeat; a row differs in its first entry. *)
Definition bitmap_row (x : Z) : list Z := [x; 0; 1; 0; 2; 0; 1; 0; 3; 0; 1; 0; 2; 0; 1; 0].

Definition __lowest_bit_bitmap : list Z :=
  mjoin (bitmap_row <$> [0; 4; 5; 4; 6; 4; 5; 4; 7; 4; 5; 4; 6; 4; 5; 4]).

Definition bitmap_at (i : Z) : Z := default 0 (__lowest_bit_bitmap !! Z.to_nat i).

(** [value] is an [int]. *)
Definition __rt_ffs (value : Z) : Z :=
  if bool_decide (value = 0) then 0
  else if bool_decide (Z.land value 0xff ≠ 0) then bitmap_at (Z.land value 0xff) + 1
  else if bool_decide (Z.land value 0xff00 ≠ 0)
    then bitmap_at (Z.shiftr (Z.land value 0xff00) 8) + 9
  else if bool_decide (Z.land value 0xff0000 ≠ 0)
    then bitmap_at (Z.shiftr (Z.land value 0xff0000) 16) + 17
  else bitmap_at (Z.shiftr (Z.land value 0xff000000) 24) + 25.

(** [k] is the least set bit of [v]. *)
Definition lowest_bit (v k : Z) : Prop :=
  0 <= k ∧ Z.testbit v k = true ∧ ∀ j, 0 <= j < k → Z.testbit v j = false.

Lemma bitmap_at_lowest b : 0 < b < 256 → lowest_bit b (bitmap_at b) ∧ bitmap_at b < 8.
Proof.
  intros Hb.
  assert (forallb (λ b, Z.testbit b (bitmap_at b) && (0 <=? bitmap_at b) && (bitmap_at b <? 8) &&
    forallb (λ j, negb (Z.testbit b j) || (bitmap_at b <=? j)) (Z.of_nat <$> seq 0 8))
    (Z.of_nat <$> seq 1 255) = true) as H by (vm_compute; reflexivity).
  rewrite forallb_forall in H. specialize (H b).
  rewrite !andb_true_iff, forallb_forall in H.
  destruct H as [[[Ht H0] H8] Hj].
  { apply list_elem_of_In, list_elem_of_fmap. exists (Z.to_nat b). rewrite elem_of_seq. lia. }
  split; [|lia]. split_and!; [lia|done|]. intros j Hj'. specialize (Hj j).
  destruct (Z.testbit b j); [|done]. rewrite orb_false_l, Z.leb_le in Hj.
  cut (bitmap_at b <= j); [lia|]. apply Hj.
  apply list_elem_of_In, list_elem_of_fmap. exists (Z.to_nat j). rewrite elem_of_seq. lia.
Qed.

(** The byte of [v] at bit [8 * i], as the code extracts it. *)
Lemma testbit_byte v i mask j : 0 <= i → mask = Z.shiftl 0xff (8 * i) → 0 <= j →
  Z.testbit (Z.shiftr (Z.land v mask) (8 * i)) j = Z.testbit v (8 * i + j) && (j <? 8).
Proof.
  intros Hi -> Hj. rewrite Z.shiftr_spec, Z.land_spec, Z.shiftl_spec by lia.
  replace (j + 8 * i) with (8 * i + j) by lia. replace (8 * i + j - 8 * i) with j by lia.
  f_equal. change 0xff with (Z.ones 8). destruct (Z.ltb_spec j 8).
  - by apply Z.ones_spec_low.
  - apply Z.ones_spec_high. lia.
Qed.

Lemma land_byte_zero v i mask j : 0 <= i → mask = Z.shiftl 0xff (8 * i) → Z.land v mask = 0 →
  8 * i <= j < 8 * i + 8 → Z.testbit v j = false.
Proof.
  intros Hi Hm Hz Hj. pose proof (testbit_byte v i mask (j - 8 * i) Hi Hm ltac:(lia)) as H.
  rewrite Hz, Z.shiftr_0_l, Z.bits_0 in H. replace (8 * i + (j - 8 * i)) with j in H by lia.
  rewrite (proj2 (Z.ltb_lt (j - 8 * i) 8)) in H by lia. by rewrite andb_true_r in H.
Qed.

Lemma byte_lowest v i mask : 0 <= i → mask = Z.shiftl 0xff (8 * i) → Z.land v mask ≠ 0 →
  (∀ j, 0 <= j < 8 * i → Z.testbit v j = false) →
  lowest_bit v (8 * i + bitmap_at (Z.shiftr (Z.land v mask) (8 * i))).
Proof.
  intros Hi Hm Hnz Hlow. set (b := Z.shiftr (Z.land v mask) (8 * i)).
  assert (Hb : ∀ j, 0 <= j → Z.testbit b j = Z.testbit v (8 * i + j) && (j <? 8))
    by (intros; by apply testbit_byte).
  assert (0 < b < 256) as Hrange.
  { assert (b = b mod 2 ^ 8) as E.
    { apply Z.bits_inj'. intros j Hj. destruct (Z.ltb_spec j 8).
      - by rewrite Z.mod_pow2_bits_low by lia.
      - rewrite Z.mod_pow2_bits_high, Hb by lia. rewrite (proj2 (Z.ltb_ge j 8)) by lia.
        by rewrite andb_false_r. }
    assert (b ≠ 0) as Hb0.
    { intros E0. apply Hnz, Z.bits_inj'. intros j Hj. rewrite Z.bits_0.
      destruct (decide (8 * i <= j)).
      - replace j with (j - 8 * i + 8 * i) by lia.
        rewrite <-Z.shiftr_spec by lia. fold b. by rewrite E0, Z.bits_0.
      - subst mask. rewrite Z.land_spec, Z.shiftl_spec_low by lia. apply andb_false_r. }
    pose proof (Z.mod_pos_bound b (2 ^ 8) ltac:(lia)). change (2 ^ 8) with 256 in *. lia. }
  destruct (bitmap_at_lowest b Hrange) as [(H0&Ht&Hlt) H8].
  split_and!; [lia| |].
  - rewrite Hb in Ht by lia. by apply andb_true_iff in Ht as [? _].
  - intros j Hj. destruct (decide (j < 8 * i)); [apply Hlow; lia|].
    pose proof (Hlt (j - 8 * i) ltac:(lia)) as Hf. rewrite Hb in Hf by lia.
    replace (8 * i + (j - 8 * i)) with j in Hf by lia.
    rewrite (proj2 (Z.ltb_lt (j - 8 * i) 8)) in Hf by lia. by rewrite andb_true_r in Hf.
Qed.

Lemma testbit_s32 v j : in_u32 v → 0 <= j < 32 → Z.testbit (s32 v) j = Z.testbit v j.
Proof.
  intros Hv Hj. assert (u32 (s32 v) = v) as E by mlia.
  rewrite <-E at 2. unfold u32. by rewrite Z.mod_pow2_bits_low by lia.
Qed.

(** The byte the code looks at, given that the bytes below are zero. *)
Lemma ffs_byte v i mask : 0 <= i < 4 → mask = Z.shiftl 0xff (8 * i) → Z.land v mask ≠ 0 →
  (∀ j, 0 <= j < 8 * i → Z.testbit v j = false) →
  let k := bitmap_at (Z.shiftr (Z.land v mask) (8 * i)) + 8 * i in lowest_bit v k ∧ k < 32.
Proof.
  intros Hi Hm Hnz Hlow. pose proof (byte_lowest v i mask ltac:(lia) Hm Hnz Hlow) as Hk.
  rewrite Z.add_comm in Hk. cbv zeta. split; [done|].
  destruct Hk as (Hk0&Ht&_). destruct (decide (bitmap_at (Z.shiftr (Z.land v mask) (8 * i)) < 8)); [lia|].
  exfalso. set (b := Z.shiftr (Z.land v mask) (8 * i)) in *.
  assert (Forall (λ x, 0 <= x < 8) __lowest_bit_bitmap) as Hall.
  { repeat (constructor; [lia|]). constructor. }
  unfold bitmap_at in n. destruct (__lowest_bit_bitmap !! Z.to_nat b) as [x|] eqn:E; simpl in n; [|lia].
  apply (Forall_lookup_1 _ _ _ _ Hall) in E. simpl in E. lia.
Qed.

(** The bits below are zero after the byte at [i] was found to be zero. *)
Lemma low_zero v i mask : 0 <= i → mask = Z.shiftl 0xff (8 * i) →
  (∀ j, 0 <= j < 8 * i → Z.testbit v j = false) → Z.land v mask = 0 →
  ∀ j, 0 <= j < 8 * (i + 1) → Z.testbit v j = false.
Proof.
  intros Hi Hm Hlow Hz j Hj. destruct (decide (j < 8 * i)); [apply Hlow; lia|].
  apply (land_byte_zero v i mask); [done|done|done|lia].
Qed.

Lemma ffs_int v : (∃ j, 0 <= j < 32 ∧ Z.testbit v j = true) →
  ∃ k, __rt_ffs v = k + 1 ∧ lowest_bit v k ∧ k < 32.
Proof.
  intros (b&Hb&Hbit). unfold __rt_ffs.
  rewrite bool_decide_false by (intros ->; by rewrite Z.bits_0 in Hbit).
  assert (∀ j, 0 <= j < 8 * 0 → Z.testbit v j = false) as L0 by (intros; lia).
  case_bool_decide as H0.
  { pose proof (ffs_byte v 0 0xff) as H. simpl in H. rewrite Z.shiftr_0_r, Z.add_0_r in H.
    eexists; split; [done|]. apply H; [lia|done|done|done]. }
  pose proof (low_zero v 0 0xff ltac:(lia) eq_refl L0 H0) as L1.
  case_bool_decide as H1.
  { eexists (_ + 8). split; [by rewrite <-Z.add_assoc|].
    apply (ffs_byte v 1 0xff00); [lia|done|done|done]. }
  pose proof (low_zero v 1 0xff00 ltac:(lia) eq_refl L1 H1) as L2.
  case_bool_decide as H2.
  { eexists (_ + 16). split; [by rewrite <-Z.add_assoc|].
    apply (ffs_byte v 2 0xff0000); [lia|done|done|done]. }
  pose proof (low_zero v 2 0xff0000 ltac:(lia) eq_refl L2 H2) as L3.
  eexists (_ + 24). split; [by rewrite <-Z.add_assoc|].
  apply (ffs_byte v 3 0xff000000); [lia|done| |done].
  intros H3. pose proof (low_zero v 3 0xff000000 ltac:(lia) eq_refl L3) as L4.
  rewrite L4 in Hbit; [done|done|lia].
Qed.

Lemma nonzero_bit v : in_u32 v → v ≠ 0 → ∃ j, 0 <= j < 32 ∧ Z.testbit v j = true.
Proof.
  intros Hv Hnz. pose proof (Z.log2_nonneg v). exists (Z.log2 v). split.
  - split; [done|]. apply Z.log2_lt_pow2; unfold in_u32 in Hv; lia.
  - apply Z.bit_log2. unfold in_u32 in Hv; lia.
Qed.

Lemma ffs_lowest v : in_u32 v → v ≠ 0 →
  lowest_bit v (__rt_ffs (s32 v) - 1) ∧ __rt_ffs (s32 v) - 1 < 32.
Proof.
  intros Hv Hnz. destruct (nonzero_bit v Hv Hnz) as (j&Hj&Ht).
  destruct (ffs_int (s32 v)) as (k&->&(H0&Hk&Hl)&H32).
  { exists j. by rewrite testbit_s32. }
  replace (k + 1 - 1) with k by lia. split; [|done]. split_and!; [done| |].
  - by rewrite <-testbit_s32 by (done || lia).
  - intros i Hi. rewrite <-testbit_s32 by (done || lia). by apply Hl.
Qed.

(** ** The theorems *)

(** [__rt_ffs] of the 32-bit word [v], passed as an [int], is 0 when [v] is 0
    and otherwise one more than the index of the least set bit of [v]. *)
Theorem rt_ffs_correct v : in_u32 v →
  if bool_decide (v = 0) then __rt_ffs (s32 v) = 0
  else ∃ k, __rt_ffs (s32 v) = k + 1 ∧ k < 32 ∧ lowest_bit v k.
Proof.
  intros Hv. case_bool_decide as E; [by subst|].
  destruct (ffs_lowest v Hv E). exists (__rt_ffs (s32 v) - 1). split_and!; [lia|done|done].
Qed.

Lemma rt_ffs_correct_witness : ∃ k, __rt_ffs (s32 0x80000000) = k + 1 ∧ k < 32 ∧ lowest_bit 0x80000000 k.
Proof. apply (rt_ffs_correct 0x80000000). vm_compute. intuition congruence. Defined.

(** [rt_memset] sets exactly the [count] bytes at [s] to the low byte of [c],
    whichever of the word and byte loops it takes. *)
Theorem rt_memset_correct m s c count : 0 <= count → mapped m s count →
  ∃ m', rt_memset m s c count = Some m' ∧
    ∀ x, m' !! x = if bool_decide (s <= x < s + count) then Some (c mod 256) else m !! x.
Proof.
  intros Hc Hm. destruct (memset_writes m s c count Hc Hm) as (m'&->&Hw).
  exists m'. split; [done|]. intros x. rewrite Hw.
  change 0xff with (Z.ones 8). by rewrite Z.land_ones by lia.
Qed.

(** A small memory: the bytes [bs] from address [a] on. *)
Definition mem_of (a : Z) (bs : list Z) : mem :=
  list_to_map (imap (λ i b, (a + Z.of_nat i, b)) bs).

(** Decides [mapped] of a concrete region. *)
Definition mappedb (m : mem) (a : Z) (n : nat) : bool :=
  forallb (λ i, bool_decide (is_Some (m !! (a + Z.of_nat i)))) (seq 0 n).

Lemma mappedb_mapped m a n : mappedb m a n = true → mapped m a (Z.of_nat n).
Proof.
  unfold mappedb. rewrite forallb_forall. intros H i Hi.
  specialize (H (Z.to_nat i)). rewrite bool_decide_eq_true, Z2Nat.id in H by lia.
  apply H, list_elem_of_In, elem_of_seq. lia.
Qed.

Definition byte_memb (m : mem) : bool :=
  forallb (λ '(_, v), bool_decide (0 <= v < 2 ^ 8)) (map_to_list m).

Lemma byte_memb_byte_mem m : byte_memb m = true → byte_mem m.
Proof.
  unfold byte_memb. rewrite forallb_forall. intros H a v Hv.
  specialize (H (a, v)). rewrite bool_decide_eq_true in H.
  apply H, list_elem_of_In, elem_of_map_to_list, Hv.
Qed.

Lemma rt_memset_correct_witness : ∃ m',
  rt_memset (mem_of 100 (replicate 30 1)) 100 0x123 23 = Some m' ∧
  ∀ x, m' !! x = if bool_decide (100 <= x < 100 + 23) then Some (0x123 mod 256)
                 else mem_of 100 (replicate 30 1) !! x.
Proof.
  apply rt_memset_correct; [lia|]. apply (mappedb_mapped _ _ 23). vm_compute. reflexivity.
Defined.

(** [rt_memmove] copies correctly whatever the overlap, and [rt_memcpy] gives
    the same memory whenever the destination does not start inside the
    source. *)
Theorem rt_memmove_correct m dst src n : byte_mem m → 0 <= n →
  mapped m dst n → mapped m src n →
  ∃ m', rt_memmove m dst src n = Some m' ∧
    (∀ x, m' !! x = if bool_decide (dst <= x < dst + n) then m !! (src + (x - dst)) else m !! x) ∧
    (dst <= src ∨ src + n <= dst → rt_memcpy m dst src n = Some m').
Proof.
  intros Hb Hn Hd Hs. destruct (memmove_copies m dst src n Hb Hn Hd Hs) as (m'&->&Hc).
  exists m'. split_and!; [done|done|]. intros Hor.
  destruct (memcpy_copies m dst src n Hb Hn Hor Hd Hs) as (m2&->&Hc2).
  f_equal. apply map_eq. intros x. by rewrite Hc, Hc2.
Qed.

Lemma rt_memmove_correct_witness : ∃ m',
  rt_memmove (mem_of 8 (Z.of_nat <$> seq 0 40)) 12 8 20 = Some m' ∧
  (∀ x, m' !! x = if bool_decide (12 <= x < 12 + 20) then mem_of 8 (Z.of_nat <$> seq 0 40) !! (8 + (x - 12))
                  else mem_of 8 (Z.of_nat <$> seq 0 40) !! x) ∧
  (12 <= 8 ∨ 8 + 20 <= 12 → rt_memcpy (mem_of 8 (Z.of_nat <$> seq 0 40)) 12 8 20 = Some m').
Proof.
  apply rt_memmove_correct.
  - apply byte_memb_byte_mem. vm_compute. reflexivity.
  - lia.
  - apply (mappedb_mapped _ _ 20). vm_compute. reflexivity.
  - apply (mappedb_mapped _ _ 20). vm_compute. reflexivity.
Defined.

(** The string functions on null-terminated strings [s] and [t]: the length,
    equality by [rt_strcmp] and by [rt_strncmp] on a prefix, and the address of
    the first occurrence by [rt_strstr]. *)
Theorem string_functions_correct m a b s t n : byte_mem m → cstr m a s → cstr m b t → 0 < n →
  rt_strlen m a = Some (zlen s) ∧
  (rt_strcmp m a b = Some 0 ↔ s = t) ∧
  (rt_strncmp m a b n = Some 0 ↔ take (Z.to_nat n) s = take (Z.to_nat n) t) ∧
  rt_strstr m a b = Some ((λ k, a + Z.of_nat k) <$> find_sub s t).
Proof.
  intros Hb Hs Ht Hn. split_and!.
  - by apply strlen_spec.
  - unfold rt_strcmp. rewrite (strcmp_loop_spec _ _ _ _ s t) by eauto using cstr_fuel.
    rewrite <-(str_diff_eq _ _ _ _ _ Hs Ht). split; congruence.
  - unfold rt_strncmp. destruct (strncmp_loop_zero (Z.to_nat n) m a b s t 0 Hb Hs Ht)
      as (r&->&Hr&_). rewrite <-Hr by lia. split; congruence.
  - unfold rt_strstr. rewrite (strlen_spec _ _ _ Ht). obind. destruct (decide (t = [])) as [->|Hne].
    + assert (find_sub s [] = Some O) as ->; [|by simpl; rewrite Z.add_0_r].
      destruct s; [done|]. cbn [find_sub]. rewrite decide_True; [done|apply prefix_nil].
    + rewrite bool_decide_false by (destruct t; unfold zlen; simpl; [done|lia]).
      rewrite (strlen_spec _ _ _ Hs). obind. unfold zlen at 1. rewrite Nat2Z.id.
      by apply strstr_loop_spec.
Qed.

(** The memory of the witness: the string abcab at 0 and the string ca at 10. *)
Definition two_strings : mem :=
  mem_of 0 [97; 98; 99; 97; 98; 0] ∪ mem_of 10 [99; 97; 0].

Lemma string_functions_correct_witness :
  rt_strlen two_strings 0 = Some 5 ∧
  (rt_strcmp two_strings 0 10 = Some 0 ↔ [97; 98; 99; 97; 98] = [99; 97]) ∧
  (rt_strncmp two_strings 0 10 2 = Some 0 ↔ [97; 98] = [99; 97]) ∧
  rt_strstr two_strings 0 10 = Some (Some 2).
Proof.
  apply (string_functions_correct two_strings 0 10 [97; 98; 99; 97; 98] [99; 97] 2).
  - apply byte_memb_byte_mem. vm_compute. reflexivity.
  - repeat split; vm_compute; congruence.
  - repeat split; vm_compute; congruence.
  - lia.
Defined.

(** [rt_strncpy] fills the destination with the string cut or padded with
    nulls to exactly [n] bytes; a name of [RT_NAME_MAX] characters or more is
    stored without a terminating null. *)
Theorem rt_strncpy_correct m dst src s n : byte_mem m → cstr m src s → 0 <= n →
  dst + n <= src ∨ src + zlen s < dst → mapped m dst n →
  ∃ m', rt_strncpy m dst src n = Some m' ∧
    ∀ x, m' !! x = if bool_decide (dst <= x < dst + n) then Some (str_at s (x - dst)) else m !! x.
Proof.
  intros Hb Hs Hn Hor Hm. unfold rt_strncpy.
  pose proof (strncpy_loop_spec (Z.to_nat n) m dst src s Hb Hs) as H.
  rewrite Z2Nat.id in H by lia. by apply H.
Qed.

Lemma rt_strncpy_correct_witness : ∃ m', rt_strncpy two_strings 0 10 6 = Some m' ∧
  ∀ x, m' !! x = if bool_decide (0 <= x < 0 + 6) then Some (str_at [99; 97] (x - 0))
                 else two_strings !! x.
Proof.
  apply rt_strncpy_correct.
  - apply byte_memb_byte_mem. vm_compute. reflexivity.
  - repeat split; vm_compute; congruence.
  - lia.
  - left. lia.
  - apply (mappedb_mapped _ _ 6). vm_compute. reflexivity.
Defined.
