(* ===== verification/KPrint.v ===== *)
(** * Formatted output (src/kservice.c)

    [rt_vsnprintf] with its number printer over the byte-addressed memory of
    [KString]: format, string arguments and buffer live in the same memory, so
    an output that overwrites its own format is an overwritten format here too.

    The argument list is the list of the 32-bit words [va_arg] fetches; fetching
    more than there are is [None].  The floating-point conversions (E, G, e, f,
    g) are [None]: they hand over to [flt], which is not modelled.  The precision
    is compiled in (RT_PRINTF_PRECISION), 64-bit numbers and the prefix of the
    flag [#] are not (RT_PRINTF_LONGLONG, RT_PRINTF_SPECIAL). *)

From S2P Require Import Prelude KString.

(** ** Output *)

(** The memory and the place of the next byte. *)
Abbreviation output := (mem * Z)%type.

(** [if (str <= end) *str = c; ++str;] *)
Definition put (en c : Z) (o : output) : option output :=
  m ← (if bool_decide (o.2 <= en) then store o.1 o.2 c else Some o.1);
  Some (m, u32 (o.2 + 1)).

Fixpoint put_times (n : nat) (en c : Z) (o : output) : option output :=
  match n with
  | O => Some o
  | S n => o ← put en c o; put_times n en c o
  end.

(** [while (size-- > 0) put c;], with the value it leaves in [size]. *)
Definition put_while (en c size : Z) (o : output) : option (output * Z) :=
  o ← put_times (Z.to_nat size) en c o; Some (o, Z.min size 0 - 1).

(** ** Numbers *)

Definition ZEROPAD : Z := Z.shiftl 1 0.
Definition SIGN : Z := Z.shiftl 1 1.
Definition PLUS : Z := Z.shiftl 1 2.
Definition SPACE : Z := Z.shiftl 1 3.
Definition LEFT : Z := Z.shiftl 1 4.
Definition SPECIAL : Z := Z.shiftl 1 5.
Definition LARGE : Z := Z.shiftl 1 6.

Definition flag (type bits : Z) : bool := bool_decide (Z.land type bits ≠ 0).

Definition isdigit (c : Z) : bool := bool_decide (u32 (c - 48) < 10).

(** The result and the new [*n]. *)
Definition divide (n base : Z) : Z * Z :=
  if bool_decide (base = 10) then (u32 n `mod` 10, u32 n / 10)
  else (u32 n `mod` 16, u32 n / 16).

Fixpoint skip_atoi (fuel : nat) (m : mem) (s i : Z) : option (Z * Z) :=
  match fuel with
  | O => None
  | S fuel =>
      c ← load m s;
      if isdigit c then skip_atoi fuel m (s + 1) (s32 (i * 10 + c - 48)) else Some (i, s)
  end.

(** "0123456789abcdef" and "0123456789ABCDEF". *)
Definition small_digits : list Z :=
  [48; 49; 50; 51; 52; 53; 54; 55; 56; 57; 97; 98; 99; 100; 101; 102].
Definition large_digits : list Z :=
  [48; 49; 50; 51; 52; 53; 54; 55; 56; 57; 65; 66; 67; 68; 69; 70].

(** [tmp[i++] = c], in the 16 bytes of [tmp]. *)
Definition tmp_push (c : Z) (tmp : list Z) : option (list Z) :=
  if bool_decide (zlen tmp < 16) then Some (tmp ++ [c]) else None.

(** [while (num != 0) tmp[i++] = digits[divide(&num, base)];]  A full [tmp]
    ends the loop before the fuel does. *)
Fixpoint number_digits (fuel : nat) (digits : list Z) (base num : Z) (tmp : list Z)
    : option (list Z) :=
  match fuel with
  | O => None
  | S fuel =>
      if bool_decide (num = 0) then Some tmp else
      let '(res, num) := divide num base in
      d ← arr_get res digits;
      tmp ← tmp_push d tmp;
      number_digits fuel digits base num tmp
  end.

(** [while (i-- > 0) put tmp[i];] *)
Fixpoint put_tmp (i : nat) (en : Z) (tmp : list Z) (o : output) : option output :=
  match i with
  | O => Some o
  | S i => c ← tmp !! i; o ← put en c o; put_tmp i en tmp o
  end.

Definition number_sign (type num : Z) : Z * Z :=
  if flag type SIGN then
    if bool_decide (num < 0) then (45, s32 (- num))
    else if flag type PLUS then (43, num)
    else if flag type SPACE then (32, num)
    else (0, num)
  else (0, num).

(** The second half of [print_number]: padding, sign and the digits of [tmp]. *)
Definition put_number (en type c sign : Z) (tmp : list Z) (s precision : Z) (o : output)
    : option output :=
  let i := zlen tmp in
  let precision := if bool_decide (i > precision) then i else precision in
  let size := s - precision in
  '(o, size) ← (if flag type (Z.lor ZEROPAD LEFT) then Some (o, size)
                else put_while en 32
                       (if bool_decide (sign ≠ 0 ∧ size > 0) then size - 1 else size) o);
  '(o, size) ← (if bool_decide (sign ≠ 0) then
                  let size := if bool_decide (o.2 <= en) then size - 1 else size in
                  o ← put en sign o; Some (o, size)
                else Some (o, size));
  '(o, size) ← (if flag type LEFT then Some (o, size) else put_while en c size o);
  o ← put_times (Z.to_nat (precision - i)) en 48 o;
  o ← put_tmp (length tmp) en tmp o;
  '(o, size) ← put_while en 32 size o;
  Some o.

(** [num] is the [long] the caller converts its argument to. *)
Definition print_number (en num base s precision type : Z) (o : output) : option output :=
  let digits := if flag type LARGE then large_digits else small_digits in
  let type := if flag type LEFT then Z.land type (Z.lnot ZEROPAD) else type in
  let c := if flag type ZEROPAD then 48 else 32 in
  let '(sign, num) := number_sign type num in
  tmp ← (if bool_decide (num = 0) then tmp_push 48 []
         else number_digits 17 digits base num []);
  put_number en type c sign tmp s precision o.

(** ** Conversions *)

Definition va_arg (args : list Z) : option (Z * list Z) :=
  match args with [] => None | a :: args => Some (a, args) end.

Fixpoint read_flags (fuel : nat) (m : mem) (fmt flags : Z) : option (Z * Z) :=
  match fuel with
  | O => None
  | S fuel =>
      let fmt := fmt + 1 in
      c ← load m fmt;
      if bool_decide (c = 45) then read_flags fuel m fmt (Z.lor flags LEFT)
      else if bool_decide (c = 43) then read_flags fuel m fmt (Z.lor flags PLUS)
      else if bool_decide (c = 32) then read_flags fuel m fmt (Z.lor flags SPACE)
      else if bool_decide (c = 35) then read_flags fuel m fmt (Z.lor flags SPECIAL)
      else if bool_decide (c = 48) then read_flags fuel m fmt (Z.lor flags ZEROPAD)
      else Some (fmt, flags)
  end.

(** The format behind the width, the flags, the width and the arguments left. *)
Definition read_width (m : mem) (fmt flags : Z) (args : list Z)
    : option (Z * Z * Z * list Z) :=
  c ← load m fmt;
  if isdigit c then '(w, fmt) ← skip_atoi (str_fuel m) m fmt 0; Some (fmt, flags, w, args)
  else if bool_decide (c = 42) then
    '(a, args) ← va_arg args;
    let w := s32 a in
    if bool_decide (w < 0) then Some (fmt + 1, Z.lor flags LEFT, s32 (- w), args)
    else Some (fmt + 1, flags, w, args)
  else Some (fmt, flags, -1, args).

Definition read_precision (m : mem) (fmt : Z) (args : list Z) : option (Z * Z * list Z) :=
  c ← load m fmt;
  if bool_decide (c = 46) then
    let fmt := fmt + 1 in
    c ← load m fmt;
    '(p, fmt, args) ← (if isdigit c then
                         '(p, fmt) ← skip_atoi (str_fuel m) m fmt 0; Some (p, fmt, args)
                       else if bool_decide (c = 42) then
                         '(a, args) ← va_arg args; Some (s32 a, fmt + 1, args)
                       else Some (-1, fmt, args));
    Some (fmt, if bool_decide (p < 0) then 0 else p, args)
  else Some (fmt, -1, args).

(** The qualifier, 'h' or 'l', or 0. *)
Definition read_qualifier (m : mem) (fmt : Z) : option (Z * Z) :=
  c ← load m fmt;
  if bool_decide (c = 104 ∨ c = 108) then Some (fmt + 1, c) else Some (fmt, 0).

(** [while (--field_width > 0) put ' ';] *)
Definition pad_char (en w : Z) (o : output) : option (output * Z) :=
  o ← put_times (Z.to_nat (w - 1)) en 32 o; Some (o, Z.min (w - 1) 0).

Definition print_char (en flags w : Z) (args : list Z) (o : output)
    : option (output * list Z) :=
  '(o, w) ← (if flag flags LEFT then Some (o, w) else pad_char en w o);
  '(a, args) ← va_arg args;
  o ← put en (u8 a) o;
  '(o, w) ← pad_char en w o;
  Some (o, args).

(** "(NULL)" *)
Definition null_text : list Z := [40; 78; 85; 76; 76; 41].

(** [s], which is the constant above when the argument is null. *)
Definition text_length (m : mem) (s : Z) : option Z :=
  if bool_decide (s = 0) then Some (zlen null_text) else rt_strlen m s.
Definition text_byte (m : mem) (s i : Z) : option Z :=
  if bool_decide (s = 0) then arr_get i null_text else load m (s + i).

(** [n] more bytes of the text from the [i]th. *)
Fixpoint put_text (n : nat) (en s i : Z) (o : output) : option output :=
  match n with
  | O => Some o
  | S n => c ← text_byte o.1 s i; o ← put en c o; put_text n en s (i + 1) o
  end.

(** [while (len < field_width--) put ' ';] *)
Definition pad_text (en len w : Z) (o : output) : option (output * Z) :=
  o ← put_times (Z.to_nat (w - len)) en 32 o; Some (o, Z.min w len - 1).

Definition print_string (en flags w precision : Z) (args : list Z) (o : output)
    : option (output * list Z) :=
  '(s, args) ← va_arg args;
  len ← text_length o.1 s;
  let len := if bool_decide (precision > 0 ∧ len > precision) then precision else len in
  '(o, w) ← (if flag flags LEFT then Some (o, w) else pad_text en len w o);
  o ← put_text (Z.to_nat len) en s 0 o;
  '(o, w) ← pad_text en len w o;
  Some (o, args).

Definition print_pointer (en flags w precision : Z) (args : list Z) (o : output)
    : option (output * list Z) :=
  let '(w, flags) := if bool_decide (w = -1) then (Z.shiftl 4 1, Z.lor flags ZEROPAD)
                     else (w, flags) in
  '(a, args) ← va_arg args;
  o ← print_number en (s32 a) 16 w precision flags o;
  Some (o, args).

Definition print_integer (en base flags qualifier w precision : Z) (args : list Z) (o : output)
    : option (output * list Z) :=
  '(a, args) ← va_arg args;
  let num := if bool_decide (qualifier = 104)
             then if flag flags SIGN then u32 (s16 (u16 a)) else u16 a
             else if flag flags SIGN then u32 (s32 (u32 a)) else u32 a in
  o ← print_number en (s32 num) base w precision flags o;
  Some (o, args).

(** The [switch] on the conversion [c] at [fmt]: the output, the place of the last
    byte used of the format and the arguments left. *)
Definition convert (en c flags qualifier w precision fmt : Z) (args : list Z) (o : output)
    : option (output * Z * list Z) :=
  let integer base flags :=
    '(o, args) ← print_integer en base flags qualifier w precision args o;
    Some (o, fmt, args) in
  if bool_decide (c = 99) then
    '(o, args) ← print_char en flags w args o; Some (o, fmt, args)
  else if bool_decide (c = 115) then
    '(o, args) ← print_string en flags w precision args o; Some (o, fmt, args)
  else if bool_decide (c = 112) then
    '(o, args) ← print_pointer en flags w precision args o; Some (o, fmt, args)
  else if bool_decide (c = 37) then o ← put en 37 o; Some (o, fmt, args)
  else if bool_decide (c = 111) then integer 8 flags
  else if bool_decide (c = 88) then integer 16 (Z.lor flags LARGE)
  else if bool_decide (c = 120) then integer 16 flags
  else if bool_decide (c = 100 ∨ c = 105) then integer 10 (Z.lor flags SIGN)
  else if bool_decide (c = 117) then integer 10 flags
  else if bool_decide (c ∈ [69; 71; 101; 102; 103]) then None
  else
    o ← put en 37 o;
    if bool_decide (c ≠ 0) then o ← put en c o; Some (o, fmt, args)
    else Some (o, fmt - 1, args).

(** From the '%' at [fmt]. *)
Definition conversion (en fmt : Z) (args : list Z) (o : output)
    : option (output * Z * list Z) :=
  let m := o.1 in
  '(fmt, flags) ← read_flags (str_fuel m) m fmt 0;
  '(fmt, flags, w, args) ← read_width m fmt flags args;
  '(fmt, precision, args) ← read_precision m fmt args;
  '(fmt, qualifier) ← read_qualifier m fmt;
  c ← load m fmt;
  convert en c flags qualifier w precision fmt args o.

Fixpoint format_loop (fuel : nat) (en fmt : Z) (args : list Z) (o : output) : option output :=
  match fuel with
  | O => None
  | S fuel =>
      c ← load o.1 fmt;
      if bool_decide (c = 0) then Some o
      else if bool_decide (c ≠ 37) then
        o ← put en c o; format_loop fuel en (fmt + 1) args o
      else
        '(o, fmt, args) ← conversion en fmt args o;
        format_loop fuel en (fmt + 1) args o
  end.

(** ** The printing functions *)

Definition rt_vsnprintf (m : mem) (buf size fmt : Z) (args : list Z) : option (mem * Z) :=
  let en := u32 (buf + size - 1) in
  let en := if bool_decide (en < buf) then 2 ^ 32 - 1 else en in
  '(m, str) ← format_loop (str_fuel m) en fmt args (m, buf);
  m ← store m (if bool_decide (str <= en) then str else en) 0;
  Some (m, s32 (str - buf)).

Definition rt_snprintf (m : mem) (buf size fmt : Z) (args : list Z) : option (mem * Z) :=
  rt_vsnprintf m buf size fmt args.

Definition rt_vsprintf (m : mem) (buf fmt : Z) (args : list Z) : option (mem * Z) :=
  rt_vsnprintf m buf (2 ^ 32 - 1) fmt args.

Definition rt_sprintf (m : mem) (buf fmt : Z) (args : list Z) : option (mem * Z) :=
  rt_vsprintf m buf fmt args.

Definition RT_CONSOLEBUF_SIZE : Z := 256.

(** The part of [rt_kprintf] that fills the buffer: the memory and the number of
    bytes it hands to the console device. *)
Definition kprintf_fill (m : mem) (rt_log_buf fmt : Z) (args : list Z) : option (mem * Z) :=
  '(m, n) ← rt_vsnprintf m rt_log_buf (RT_CONSOLEBUF_SIZE - 1) fmt args;
  let length := u32 n in
  Some (m, if bool_decide (length > RT_CONSOLEBUF_SIZE - 1) then RT_CONSOLEBUF_SIZE - 1
           else length).
