(* ===== verification/KPrintSpec.v ===== *)
(** * What formatted output means

    A format is a sequence of directives; [show] writes one as the characters of
    a format string and [render] says what text it stands for.  Nothing here
    mentions the loops of [KPrint]: a field is a text padded to a width, a number
    is its digits.

    Two behaviours of the code are not what it means to do and are part of
    [render]: the conversion [o] is hexadecimal ([divide] knows the bases 10 and 16
    only), and a precision of 0 does not shorten a string.  [doc_render] is the
    text with an octal [o] and strings cut to any precision, and [as_documented]
    says of a format that it does without the two. *)

From S2P Require Import Prelude KString.

(** ** Directives *)

Inductive fflag := FLeft | FPlus | FSpace | FSpecial | FZero.
Inductive fwidth := WNone | WNum (ds : list Z) | WStar.
Inductive fprec := PNone | PNum (ds : list Z) | PStar.
Inductive fqual := QNone | QShort | QLong.
Inductive fconv :=
  | CChar | CString | CPointer | CPercent
  | COctal | CHexUpper | CHexLower | CDecimal | CInteger | CUnsigned
  | COther (c : Z).
Inductive directive :=
  | Lit (c : Z)
  | Conv (fs : list fflag) (w : fwidth) (p : fprec) (q : fqual) (k : fconv).

#[global] Instance fflag_eq_dec : EqDecision fflag.
Proof. solve_decision. Defined.

Definition flag_char (f : fflag) : Z :=
  match f with FLeft => 45 | FPlus => 43 | FSpace => 32 | FSpecial => 35 | FZero => 48 end.
Definition digit_chars (ds : list Z) : list Z := (Z.add 48) <$> ds.
Definition show_width (w : fwidth) : list Z :=
  match w with WNone => [] | WNum ds => digit_chars ds | WStar => [42] end.
Definition show_prec (p : fprec) : list Z :=
  match p with PNone => [] | PNum ds => 46 :: digit_chars ds | PStar => [46; 42] end.
Definition show_qual (q : fqual) : list Z :=
  match q with QNone => [] | QShort => [104] | QLong => [108] end.
Definition conv_char (k : fconv) : Z :=
  match k with
  | CChar => 99 | CString => 115 | CPointer => 112 | CPercent => 37
  | COctal => 111 | CHexUpper => 88 | CHexLower => 120
  | CDecimal => 100 | CInteger => 105 | CUnsigned => 117 | COther c => c
  end.
Definition show (d : directive) : list Z :=
  match d with
  | Lit c => [c]
  | Conv fs w p q k =>
      37 :: (flag_char <$> fs) ++ show_width w ++ show_prec p ++ show_qual q ++ [conv_char k]
  end.

(** The number a list of digits denotes. *)
Definition value (radix : Z) (ds : list Z) : Z := foldl (λ v d, v * radix + d) 0 ds.

(** Characters with a meaning of their own behind a '%'. *)
Definition reserved : list Z :=
  [45; 43; 32; 35; 48; 49; 50; 51; 52; 53; 54; 55; 56; 57; 42; 46; 104; 108;
   99; 115; 112; 37; 111; 88; 120; 100; 105; 117; 69; 71; 101; 102; 103].

Definition decimal_digit (d : Z) : Prop := 0 <= d < 10.

(** [show] can be read back: no zero in front of a width (it would be a flag), no
    reserved character in place of an unknown one, numbers that fit an int. *)
Definition wf_digits (ds : list Z) : Prop := Forall decimal_digit ds ∧ value 10 ds < 2 ^ 31.
Definition wf (d : directive) : Prop :=
  match d with
  | Lit c => 0 < c < 256 ∧ c ≠ 37
  | Conv _ w p _ k =>
      match w with WNum ds => wf_digits ds ∧ 0 < default 0 (head ds) | _ => True end ∧
      match p with PNum ds => wf_digits ds | _ => True end ∧
      match k with COther c => 0 < c < 256 ∧ c ∉ reserved | _ => True end
  end.

#[global] Instance wf_dec d : Decision (wf d).
Proof. destruct d as [c|fs [|ds|] [|es|] q []]; apply _. Defined.

(** ** Arguments *)

Inductive farg := ANum (z : Z) | AText (p : Z) (s : list Z) | ANull.

Definition arg_word (a : farg) : Z :=
  match a with ANum z => z | AText p _ => p | ANull => 0 end.

(** ** Texts *)

Definition pad_left (w c : Z) (s : list Z) : list Z := replicate (Z.to_nat (w - zlen s)) c ++ s.
Definition pad_right (w c : Z) (s : list Z) : list Z := s ++ replicate (Z.to_nat (w - zlen s)) c.

(** The digits of [n], the most significant first. *)
Fixpoint digits_of (fuel : nat) (radix n : Z) : list Z :=
  match fuel with
  | O => []
  | S fuel =>
      if bool_decide (n < radix) then [n]
      else digits_of fuel radix (n / radix) ++ [n `mod` radix]
  end.
Definition digits (radix n : Z) : list Z := digits_of (S (Z.to_nat (Z.log2 n))) radix n.

Definition digit_char (upper : bool) (d : Z) : Z :=
  if bool_decide (d < 10) then 48 + d else (if upper then 65 else 97) + (d - 10).

Record field := Field {
  f_left : bool; f_zero : bool; f_plus : bool; f_space : bool;
  f_width : option Z; f_prec : option Z;
}.

Definition width f : Z := default 0 (f_width f).

Definition align (f : field) (s : list Z) : list Z :=
  if f_left f then pad_right (width f) 32 s else pad_left (width f) 32 s.

Definition sign_text (f : field) (signed : bool) (v : Z) : list Z :=
  if bool_decide (v < 0) then [45]
  else if signed && f_plus f then [43]
  else if signed && f_space f then [32] else [].

(** The number [v]: sign, then at least as many digits as the precision; padded
    with zeros between the two, or with spaces. *)
Definition number_text (f : field) (radix : Z) (upper signed : bool) (v : Z) : list Z :=
  let sign := sign_text f signed v in
  let body := pad_left (default 0 (f_prec f)) 48 (digit_char upper <$> digits radix (Z.abs v)) in
  if negb (f_left f) && f_zero f then sign ++ pad_left (width f - zlen sign) 48 body
  else align f (sign ++ body).

Definition integer_value (signed : bool) (q : fqual) (a : Z) : Z :=
  match q with
  | QShort => if signed then s16 a else u16 a
  | _ => if signed then s32 a else u32 a
  end.

Definition string_text (f : field) (s : list Z) : list Z :=
  align f (match f_prec f with
           | Some p => if bool_decide (p > 0) then take (Z.to_nat p) s else s
           | None => s
           end).

(** A pointer is eight hexadecimal digits unless a width is given. *)
Definition pointer_text (f : field) (a : Z) : list Z :=
  let f := match f_width f with
           | Some _ => f
           | None => Field (f_left f) true (f_plus f) (f_space f) (Some 8) (f_prec f)
           end in
  number_text f 16 false false (u32 a).

(** ** Meaning *)

(** Width, whether the argument asks for left alignment, arguments left.  The
    smallest int has no negation and is no width. *)
Definition width_of (w : fwidth) (args : list farg) : option (option Z * bool * list farg) :=
  match w, args with
  | WNone, _ => Some (None, false, args)
  | WNum ds, _ => Some (Some (value 10 ds), false, args)
  | WStar, a :: args =>
      let v := s32 (arg_word a) in
      if bool_decide (v = - 2 ^ 31) then None
      else Some (Some (Z.abs v), bool_decide (v < 0), args)
  | WStar, [] => None
  end.

Definition prec_of (p : fprec) (args : list farg) : option (option Z * list farg) :=
  match p, args with
  | PNone, _ => Some (None, args)
  | PNum ds, _ => Some (Some (value 10 ds), args)
  | PStar, a :: args => Some (Some (Z.max 0 (s32 (arg_word a))), args)
  | PStar, [] => None
  end.

Definition conv_text (f : field) (q : fqual) (k : fconv) (args : list farg)
    : option (list Z * list farg) :=
  match k, args with
  | CPercent, _ => Some ([37], args)
  | COther c, _ => Some ([37; c], args)
  | CChar, a :: args => Some (align f [u8 (arg_word a)], args)
  | CString, AText _ s :: args => Some (string_text f s, args)
  | CString, ANull :: args => Some (string_text f [40; 78; 85; 76; 76; 41], args)
  | CPointer, a :: args => Some (pointer_text f (arg_word a), args)
  | COctal, a :: args | CHexLower, a :: args =>
      Some (number_text f 16 false false (integer_value false q (arg_word a)), args)
  | CHexUpper, a :: args =>
      Some (number_text f 16 true false (integer_value false q (arg_word a)), args)
  | CDecimal, a :: args | CInteger, a :: args =>
      Some (number_text f 10 false true (integer_value true q (arg_word a)), args)
  | CUnsigned, a :: args =>
      Some (number_text f 10 false false (integer_value false q (arg_word a)), args)
  | _, _ => None
  end.

Definition render1 (d : directive) (args : list farg) : option (list Z * list farg) :=
  match d with
  | Lit c => Some ([c], args)
  | Conv fs w p q k =>
      '(w, l, args) ← width_of w args;
      '(p, args) ← prec_of p args;
      conv_text (Field (bool_decide (FLeft ∈ fs) || l) (bool_decide (FZero ∈ fs))
                       (bool_decide (FPlus ∈ fs)) (bool_decide (FSpace ∈ fs)) w p) q k args
  end.

Fixpoint render (ds : list directive) (args : list farg) : option (list Z) :=
  match ds with
  | [] => Some []
  | d :: ds => '(s, args) ← render1 d args; t ← render ds args; Some (s ++ t)
  end.

(** *** As documented *)

Definition doc_string (f : field) (s : list Z) : list Z :=
  align f (match f_prec f with Some p => take (Z.to_nat p) s | None => s end).

Definition doc_conv (f : field) (q : fqual) (k : fconv) (args : list farg)
    : option (list Z * list farg) :=
  match k, args with
  | CString, AText _ s :: args => Some (doc_string f s, args)
  | CString, ANull :: args => Some (doc_string f [40; 78; 85; 76; 76; 41], args)
  | COctal, a :: args =>
      Some (number_text f 8 false false (integer_value false q (arg_word a)), args)
  | _, _ => conv_text f q k args
  end.

Definition doc_render1 (d : directive) (args : list farg) : option (list Z * list farg) :=
  match d with
  | Lit c => Some ([c], args)
  | Conv fs w p q k =>
      '(w, l, args) ← width_of w args;
      '(p, args) ← prec_of p args;
      doc_conv (Field (bool_decide (FLeft ∈ fs) || l) (bool_decide (FZero ∈ fs))
                      (bool_decide (FPlus ∈ fs)) (bool_decide (FSpace ∈ fs)) w p) q k args
  end.

Fixpoint doc_render (ds : list directive) (args : list farg) : option (list Z) :=
  match ds with
  | [] => Some []
  | d :: ds => '(s, args) ← doc_render1 d args; t ← doc_render ds args; Some (s ++ t)
  end.

(** No octal number, and no string with the precision 0. *)
Definition documented1 (d : directive) (args : list farg) : bool :=
  match d with
  | Conv _ w p _ COctal => false
  | Conv _ w p _ CString =>
      match width_of w args with
      | Some (_, _, args) =>
          match prec_of p args with Some (Some n, _) => bool_decide (n > 0) | _ => true end
      | None => true
      end
  | _ => true
  end.

Fixpoint as_documented (ds : list directive) (args : list farg) : bool :=
  match ds with
  | [] => true
  | d :: ds =>
      documented1 d args &&
      match render1 d args with Some (_, args) => as_documented ds args | None => true end
  end.

Lemma documented_render1 d args : documented1 d args = true → doc_render1 d args = render1 d args.
Proof.
  destruct d as [c|fs w p q k]; [done|]. simpl. intros Hd.
  destruct (width_of w args) as [[[w' l] args1]|]; [|done]. simpl.
  destruct (prec_of p args1) as [[p' args2]|]; [|by destruct k]. simpl.
  destruct k; try done. simpl. unfold doc_string, string_text. destruct args2 as [|[] args2]; try done.
  all: destruct p' as [n|]; [|done]; cbn [f_prec]; by rewrite Hd.
Qed.

Lemma documented_render ds args : as_documented ds args = true → doc_render ds args = render ds args.
Proof.
  revert args. induction ds as [|d ds IH]; intros args; [done|]. simpl.
  intros [Hd Hr]%andb_true_iff. rewrite (documented_render1 d args Hd).
  destruct (render1 d args) as [[s args']|]; [|done]. simpl. by rewrite IH.
Qed.

(** ** Digits *)

Lemma digits_of_spec fuel radix n : 2 <= radix → 0 <= n < 2 ^ Z.of_nat fuel →
  Forall (λ d, 0 <= d < radix) (digits_of fuel radix n) ∧
  (fuel ≠ O → value radix (digits_of fuel radix n) = n).
Proof.
  intros Hr. revert n. induction fuel as [|fuel IH]; intros n Hn; [by split|].
  rewrite Nat2Z.inj_succ, Z.pow_succ_r in Hn by lia.
  cbn [digits_of]. case_bool_decide as Hlt.
  { split; [|done]. constructor; [lia|done]. }
  assert (0 <= n / radix < 2 ^ Z.of_nat fuel) as Hq.
  { split; [apply Z.div_pos; lia|]. apply Z.div_lt_upper_bound; [lia|]. nia. }
  destruct (IH _ Hq) as [H1 H2]. split.
  - apply Forall_app. split; [done|]. constructor; [|done]. apply Z.mod_pos_bound. lia.
  - intros _. unfold value in *. rewrite foldl_app. cbn [foldl]. rewrite H2.
    + pose proof (Z.div_mod n radix). lia.
    + intros ->. change (2 ^ Z.of_nat 0) with 1 in *. lia.
Qed.

Lemma digits_fuel n : 0 <= n → 0 <= n < 2 ^ Z.of_nat (S (Z.to_nat (Z.log2 n))).
Proof.
  intros Hn. split; [done|]. pose proof (Z.log2_nonneg n).
  rewrite Nat2Z.inj_succ, Z2Nat.id by done.
  destruct (decide (n = 0)) as [->|]; [done|]. apply Z.log2_spec. lia.
Qed.

(** More fuel changes nothing. *)
Lemma digits_of_more fuel fuel' radix n : 2 <= radix → 0 <= n < 2 ^ Z.of_nat fuel →
  fuel ≠ O → (fuel <= fuel')%nat → digits_of fuel' radix n = digits_of fuel radix n.
Proof.
  intros Hr. revert fuel' n. induction fuel as [|fuel IH]; intros fuel' n Hn ? Hle; [done|].
  destruct fuel' as [|fuel']; [lia|]. cbn [digits_of]. case_bool_decide as Hlt; [done|].
  rewrite Nat2Z.inj_succ, Z.pow_succ_r in Hn by lia.
  f_equal. apply IH; [|intros ->; change (2 ^ Z.of_nat 0) with 1 in *; lia|lia].
  split; [apply Z.div_pos; lia|]. apply Z.div_lt_upper_bound; [lia|]. nia.
Qed.

Lemma digits_step radix n : 2 <= radix → radix <= n →
  digits radix n = digits radix (n / radix) ++ [n `mod` radix].
Proof.
  intros Hr Hn. unfold digits at 1. cbn [digits_of]. rewrite bool_decide_false by lia. f_equal.
  assert (0 < n / radix) by (apply Z.div_str_pos; lia).
  pose proof (Z.log2_spec n ltac:(lia)). rewrite Z.pow_succ_r in * by (apply Z.log2_nonneg).
  pose proof (Z.log2_nonneg n).
  assert (n / radix < 2 ^ Z.log2 n) by (apply Z.div_lt_upper_bound; nia).
  assert (Z.log2 (n / radix) < Z.log2 n) by (apply Z.log2_lt_pow2; lia).
  pose proof (Z.log2_nonneg (n / radix)).
  apply digits_of_more; [lia|apply digits_fuel; lia|done|lia].
Qed.

Lemma digits_small radix n : n < radix → digits radix n = [n].
Proof. intros. unfold digits. cbn [digits_of]. by rewrite bool_decide_true. Qed.

Lemma digits_length radix n k : 2 <= radix → 0 <= n < radix ^ Z.of_nat (S k) →
  (1 <= length (digits radix n) <= S k)%nat.
Proof.
  intros Hr. revert n. induction k as [|k IH]; intros n Hn.
  - rewrite digits_small; [simpl; lia|]. change (Z.of_nat 1) with 1 in Hn.
    rewrite Z.pow_1_r in Hn. lia.
  - destruct (decide (n < radix)); [rewrite digits_small by done; simpl; lia|].
    rewrite digits_step by lia. rewrite length_app. simpl.
    destruct (IH (n / radix)); [|lia]. split; [apply Z.div_pos; lia|].
    apply Z.div_lt_upper_bound; [lia|]. rewrite (Nat2Z.inj_succ (S k)), Z.pow_succ_r in Hn by lia. lia.
Qed.

Lemma digits_value radix n : 2 <= radix → 0 <= n →
  Forall (λ d, 0 <= d < radix) (digits radix n) ∧ value radix (digits radix n) = n.
Proof.
  intros Hr Hn. destruct (digits_of_spec _ radix n Hr (digits_fuel n Hn)) as [H1 H2].
  split; [done|]. by apply H2.
Qed.
