(* ===== verification/KPrintProof.v ===== *)
(** * Formatted output does what its directives mean

    [puts] writes a text byte by byte; the printers of [KPrint] are shown to be
    [puts] of the texts of [KPrintSpec], the parsers to read what [show] wrote,
    and [emitted] says what an output leaves in a buffer of bounded size. *)

From S2P Require Import Prelude KString KPrint KPrintSpec.

(** ** Writing a text *)

Fixpoint puts (en : Z) (cs : list Z) (o : output) : option output :=
  match cs with
  | [] => Some o
  | c :: cs => o ← put en c o; puts en cs o
  end.

Lemma puts_app en cs ds o : puts en (cs ++ ds) o = (o ← puts en cs o; puts en ds o).
Proof.
  revert o. induction cs as [|c cs IH]; intros o; simpl; [done|].
  destruct (put en c o); simpl; [apply IH|done].
Qed.

Lemma put_times_puts n en c o : put_times n en c o = puts en (replicate n c) o.
Proof.
  revert o. induction n as [|n IH]; intros o; simpl; [done|].
  destruct (put en c o); simpl; [apply IH|done].
Qed.

Lemma put_tmp_puts i en tmp o : (i <= length tmp)%nat →
  put_tmp i en tmp o = puts en (rev (take i tmp)) o.
Proof.
  revert o. induction i as [|i IH]; intros o Hi; [done|].
  destruct (lookup_lt_is_Some_2 tmp i) as [c Hc]; [lia|].
  cbn [put_tmp]. rewrite (take_S_r _ _ _ Hc), rev_app_distr, Hc. simpl.
  destruct (put en c o); simpl; [|done]. apply IH. lia.
Qed.

Lemma put_while_puts en c size o :
  put_while en c size o =
  (o ← puts en (replicate (Z.to_nat size) c) o; Some (o, Z.min size 0 - 1)).
Proof. unfold put_while. by rewrite put_times_puts. Qed.

(** ** Flags *)

Lemma flag_testbit t i : 0 <= i → flag t (Z.shiftl 1 i) = Z.testbit t i.
Proof.
  intros Hi. unfold flag. apply eq_true_iff_eq. rewrite bool_decide_eq_true. split.
  - intros Hne. destruct (Z.testbit t i) eqn:Ht; [done|]. destruct Hne.
    apply Z.bits_inj'. intros k Hk. rewrite Z.land_spec, Z.shiftl_1_l, Z.bits_0.
    rewrite Z.pow2_bits_eqb by lia. destruct (Z.eqb_spec i k) as [<-|]; [by rewrite Ht|].
    by rewrite andb_false_r.
  - intros Ht Hz. assert (Z.testbit (Z.land t (Z.shiftl 1 i)) i = true) as H.
    { by rewrite Z.land_spec, Ht, Z.shiftl_1_l, Z.pow2_bits_true by lia. }
    by rewrite Hz, Z.bits_0 in H.
Qed.

Lemma flag_lor t a b : flag t (Z.lor a b) = flag t a || flag t b.
Proof.
  unfold flag. rewrite Z.land_lor_distr_r. apply eq_true_iff_eq.
  rewrite orb_true_iff, !bool_decide_eq_true, Z.lor_eq_0_iff. lia.
Qed.

(** ** Digits *)

Definition radix_of (base : Z) : Z := if bool_decide (base = 10) then 10 else 16.

Lemma digit_lookup (upper : bool) d : 0 <= d < 16 →
  arr_get d (if upper then large_digits else small_digits) = Some (digit_char upper d).
Proof.
  intros Hd. assert (forallb (λ b, forallb (λ d,
    bool_decide (arr_get d (if b : bool then large_digits else small_digits) =
                 Some (digit_char b d))) (Z.of_nat <$> seq 0 16)) [true; false] = true) as H
    by (vm_compute; reflexivity).
  rewrite forallb_forall in H. specialize (H upper).
  rewrite forallb_forall in H. specialize (H ltac:(destruct upper; simpl; auto) d).
  rewrite bool_decide_eq_true in H. apply H, list_elem_of_In, list_elem_of_fmap.
  exists (Z.to_nat d). split; [lia|]. apply elem_of_seq. lia.
Qed.

Lemma divide_radix n base :
  divide n base = (u32 n `mod` radix_of base, u32 n / radix_of base).
Proof. unfold divide, radix_of. by case_bool_decide. Qed.

Lemma radix_of_range base : 2 <= radix_of base <= 16.
Proof. unfold radix_of. case_bool_decide; lia. Qed.

Lemma number_digits_zero fuel ds base tmp : number_digits (S fuel) ds base 0 tmp = Some tmp.
Proof. done. Qed.

Lemma number_digits_spec k fuel (upper : bool) base num tmp :
  0 < u32 num < radix_of base ^ Z.of_nat (S k) → - 2 ^ 31 <= num < 2 ^ 31 →
  (S k < fuel)%nat → zlen tmp + Z.of_nat (S k) <= 16 →
  number_digits fuel (if upper then large_digits else small_digits) base num tmp =
  Some (tmp ++ rev (digit_char upper <$> digits (radix_of base) (u32 num))).
Proof.
  pose proof (radix_of_range base) as Hr. intros Hn Hnum Hf Ht.
  revert num tmp fuel Hn Hnum Hf Ht.
  induction k as [|k IH]; intros num tmp [|fuel] Hn Hnum Hf Ht; try lia;
    cbn [number_digits]; (rewrite bool_decide_false by (intros ->; change (u32 0) with 0 in *; lia));
    rewrite divide_radix, digit_lookup by
      (pose proof (Z.mod_pos_bound (u32 num) (radix_of base)); lia);
    cbn [mbind option_bind]; unfold tmp_push; rewrite bool_decide_true by lia;
    cbn [mbind option_bind].
  - change (Z.of_nat 1) with 1 in Hn. rewrite Z.pow_1_r in Hn.
    rewrite Z.div_small, Z.mod_small, digits_small by lia. by destruct fuel; [lia|].
  - destruct (decide (u32 num < radix_of base)).
    { rewrite Z.div_small, Z.mod_small, digits_small by lia. by destruct fuel; [lia|]. }
    assert (0 < u32 num / radix_of base) by (apply Z.div_str_pos; lia).
    assert (u32 num / radix_of base <= u32 num / 2) by (apply Z.div_le_compat_l; lia).
    assert (u32 (u32 num / radix_of base) = u32 num / radix_of base) as Hu.
    { pose proof (u32_range num). apply u32_small. mlia. }
    rewrite IH.
    + rewrite Hu, (digits_step _ (u32 num)) by lia.
      rewrite fmap_app, rev_app_distr. by rewrite <-(assoc_L (++)).
    + rewrite Hu. split; [done|]. apply Z.div_lt_upper_bound; [lia|].
      rewrite (Nat2Z.inj_succ (S k)), Z.pow_succ_r in Hn by lia. lia.
    + pose proof (u32_range num). mlia.
    + lia.
    + unfold zlen in *. rewrite length_app. simpl. lia.
Qed.

Lemma radix_pow_u32 base num : u32 num < radix_of base ^ Z.of_nat 10.
Proof.
  pose proof (u32_range num). unfold radix_of. case_bool_decide;
    [change (10 ^ Z.of_nat 10) with 10000000000|change (16 ^ Z.of_nat 10) with 1099511627776];
    mlia.
Qed.

(** What [print_number] collects in [tmp]. *)
Lemma number_tmp (upper : bool) base num : - 2 ^ 31 <= num < 2 ^ 31 →
  (if bool_decide (num = 0) then tmp_push 48 []
   else number_digits 17 (if upper then large_digits else small_digits) base num []) =
  Some (rev (digit_char upper <$> digits (radix_of base) (u32 num))).
Proof.
  intros Hnum. case_bool_decide as Hz.
  - subst. pose proof (radix_of_range base). change (u32 0) with 0.
    by rewrite digits_small by lia.
  - rewrite (number_digits_spec 9); [done| |done|lia|unfold zlen; simpl; lia].
    split; [|apply radix_pow_u32]. pose proof (u32_range num). mlia.
Qed.

(** ** Numbers *)

(** The flag bits stand for a field. *)
Record type_of (type : Z) (f : field) (upper signed : bool) : Prop := {
  t_left : flag type LEFT = f_left f;
  t_zero : flag type ZEROPAD = f_zero f;
  t_plus : flag type PLUS = f_plus f;
  t_space : flag type SPACE = f_space f;
  t_large : flag type LARGE = upper;
  t_sign : flag type SIGN = signed;
}.

(** Dropping the zero flag of a left aligned field. *)
Lemma drop_zero type f upper signed : type_of type f upper signed →
  type_of (if flag type LEFT then Z.land type (Z.lnot ZEROPAD) else type)
    (Field (f_left f) (f_zero f && negb (f_left f)) (f_plus f) (f_space f) (f_width f) (f_prec f))
    upper signed.
Proof.
  intros [H1 H2 H3 H4 H5 H6].
  assert (∀ i, 0 <= i → flag (Z.land type (Z.lnot ZEROPAD)) (Z.shiftl 1 i) =
                        flag type (Z.shiftl 1 i) && negb (bool_decide (i = 0))) as Hbit.
  { intros i Hi. rewrite !flag_testbit, Z.land_spec, Z.lnot_spec by done. unfold ZEROPAD.
    rewrite Z.shiftl_1_l, Z.pow2_bits_eqb by lia.
    by destruct (Z.eqb_spec 0 i), (bool_decide_reflect (i = 0)); try lia. }
  destruct (flag type LEFT) eqn:Hl; split; cbn [f_left f_zero f_plus f_space]; rewrite <-?H1;
    rewrite ?andb_true_r, ?andb_false_r; try done;
    [unfold LEFT in *|unfold ZEROPAD at 2|unfold PLUS in *|unfold SPACE in *|unfold LARGE in *
    |unfold SIGN in *]; rewrite Hbit by lia; by rewrite ?andb_false_r, ?andb_true_r.
Qed.

(** The number that is printed: [num] is the [long] made of it. *)
Definition printable (signed : bool) (v : Z) : Prop :=
  if signed then - 2 ^ 31 <= v < 2 ^ 31 else 0 <= v < 2 ^ 32.

Lemma number_sign_spec type f upper signed v : type_of type f upper signed →
  printable signed v →
  ∃ sign num, number_sign type (s32 v) = (sign, num) ∧ u32 num = Z.abs v ∧
    - 2 ^ 31 <= num < 2 ^ 31 ∧
    sign_text f signed v = (if bool_decide (sign = 0) then [] else [sign]).
Proof.
  intros Ht Hv. unfold number_sign, sign_text.
  rewrite (t_sign _ _ _ _ Ht), (t_plus _ _ _ _ Ht), (t_space _ _ _ _ Ht).
  destruct signed; simpl in Hv.
  - rewrite s32_small by done. case_bool_decide as Hneg.
    + exists 45, (s32 (- v)). split_and!; [done|mlia..|done].
    + destruct (f_plus f); [|destruct (f_space f)]; eexists _, v;
        (split_and!; [done|mlia..|done]).
  - rewrite bool_decide_false by lia. exists 0, (s32 v). simpl. split_and!; [done|mlia..|done].
Qed.

(** ** Layout *)

Lemma zlen_replicate {A} n (c : A) : zlen (replicate n c) = Z.of_nat n.
Proof. unfold zlen. by rewrite length_replicate. Qed.

Lemma zlen_rev {A} (l : list A) : zlen (rev l) = zlen l.
Proof. unfold zlen. by rewrite length_rev. Qed.

(** The three layouts of a number: sign and body, [zeros] the digits the
    precision adds. *)
Definition layout (left zero : bool) (w : Z) (sign body : list Z) : list Z :=
  if left then sign ++ body ++ replicate (Z.to_nat (w - zlen sign - zlen body)) 32
  else if zero then sign ++ replicate (Z.to_nat (w - zlen sign - zlen body)) 48 ++ body
  else replicate (Z.to_nat (w - zlen sign - zlen body)) 32 ++ sign ++ body.

Definition sign_list (sign : Z) : list Z := if bool_decide (sign = 0) then [] else [sign].

Lemma zlen_sign_list sign : zlen (sign_list sign) = if bool_decide (sign = 0) then 0 else 1.
Proof. unfold sign_list. by case_bool_decide. Qed.

Lemma number_text_layout f radix upper signed v :
  number_text f radix upper signed v =
  layout (f_left f) (f_zero f) (width f) (sign_text f signed v)
    (pad_left (default 0 (f_prec f)) 48 (digit_char upper <$> digits radix (Z.abs v))).
Proof.
  unfold number_text, layout, align.
  set (body := pad_left _ _ (digit_char upper <$> _)).
  destruct (f_left f); simpl; [|destruct (f_zero f)]; unfold pad_left, pad_right;
    rewrite ?zlen_app, ?Z.sub_add_distr; [by rewrite <-(assoc_L (++))|done..].
Qed.

Lemma zlen_pad_left w c s : zlen (pad_left w c s) = Z.max w (zlen s).
Proof. unfold pad_left. rewrite zlen_app, zlen_replicate. pose proof (zlen_nonneg s). lia. Qed.

(** The digits and what is left of the width behind them. *)
Lemma put_body_puts en cs p size o : cs ≠ [] →
  (o ← put_times (Z.to_nat (Z.max p (zlen cs) - zlen cs)) en 48 o;
   o ← put_tmp (length (rev cs)) en (rev cs) o;
   '(o, _) ← put_while en 32 size o; Some o) =
  puts en (pad_left p 48 cs ++ replicate (Z.to_nat size) 32) o.
Proof.
  intros Hcs. rewrite put_times_puts. unfold pad_left. rewrite !puts_app.
  replace (Z.to_nat (Z.max p (zlen cs) - zlen cs)) with (Z.to_nat (p - zlen cs)) by lia.
  destruct (puts en (replicate _ 48) o) as [o1|]; [obind|done].
  rewrite put_tmp_puts, firstn_all, rev_involutive by done.
  destruct (puts en cs o1) as [o2|]; [obind|done].
  rewrite put_while_puts. by destruct (puts en _ o2).
Qed.

(** The sign and the size left behind it. *)
Lemma put_sign_puts en sign size o {B} (k : output * Z → option B) :
  ((if bool_decide (sign ≠ 0) then
      o' ← put en sign o; Some (o', if bool_decide (o.2 <= en) then size - 1 else size)
    else Some (o, size)) ≫= k) =
  (o' ← puts en (sign_list sign) o;
   k (o', if bool_decide (sign ≠ 0 ∧ o.2 <= en) then size - 1 else size)).
Proof.
  unfold sign_list. destruct (decide (sign = 0)) as [->|Hs].
  - by rewrite !(bool_decide_true (0 = 0)), !bool_decide_false by tauto.
  - rewrite !(bool_decide_true (sign ≠ 0)), (bool_decide_false (sign = 0)) by done. simpl.
    destruct (put en sign o); [obind|done]. repeat case_bool_decide; tauto.
Qed.

Lemma puts_bind en s o {B} (k k' : output → option B) : (∀ o', k o' = k' o') →
  (puts en s o ≫= k) = (puts en s o ≫= k').
Proof. intros Hk. by destruct (puts en s o); [apply Hk|]. Qed.

Lemma put_while_bind en c size o {B} (k : output * Z → option B) :
  (put_while en c size o ≫= k) =
  (o' ← puts en (replicate (Z.to_nat size) c) o; k (o', Z.min size 0 - 1)).
Proof. rewrite put_while_puts. by destruct (puts en _ o). Qed.

Lemma put_while_none en c size o : size <= 0 → put_while en c size o = Some (o, size - 1).
Proof.
  intros. unfold put_while. replace (Z.to_nat size) with O by lia. simpl. do 2 f_equal. lia.
Qed.

(** The same when padding has used the width up. *)
Lemma put_body_full en cs p size o : cs ≠ [] → size <= 0 →
  (o ← put_times (Z.to_nat (Z.max p (zlen cs) - zlen cs)) en 48 o;
   o ← put_tmp (length (rev cs)) en (rev cs) o;
   '(o, _) ← put_while en 32 size o; Some o) = puts en (pad_left p 48 cs) o.
Proof.
  intros. rewrite put_body_puts by done. replace (Z.to_nat size) with O by lia.
  by rewrite app_nil_r.
Qed.

Lemma put_number_puts en type (left zero : bool) sign cs w p o :
  flag type LEFT = left → flag type ZEROPAD = zero && negb left → cs ≠ [] →
  ∃ s, put_number en type (if flag type ZEROPAD then 48 else 32) sign (rev cs) w p o =
       puts en s o ∧
    (s = layout left zero w (sign_list sign) (pad_left p 48 cs) ∨
     o.2 > en ∧ s = layout left zero (w + 1) (sign_list sign) (pad_left p 48 cs)).
Proof.
  intros Hl Hz Hcs. unfold put_number. rewrite flag_lor, Hl, Hz, zlen_rev.
  assert (0 < zlen cs) by (destruct cs; [done|unfold zlen; simpl; lia]).
  replace (if bool_decide (zlen cs > p) then zlen cs else p) with (Z.max p (zlen cs))
    by (case_bool_decide; lia).
  set (P := Z.max p (zlen cs)). unfold layout. rewrite zlen_pad_left, zlen_sign_list. fold P.
  destruct left; [|destruct zero]; cbn [andb orb negb mbind option_bind].
  - rewrite orb_true_r. obind. rewrite put_sign_puts.
    eexists (sign_list sign ++ pad_left p 48 cs ++ replicate (Z.to_nat _) 32). split.
    + rewrite puts_app. apply puts_bind. intros o'. apply (put_body_puts en cs p _ o'); done.
    + repeat case_bool_decide; try tauto; (left; do 3 f_equal; lia) || right.
      split; [lia|]. do 3 f_equal; lia.
  - rewrite put_sign_puts.
    eexists (sign_list sign ++ replicate (Z.to_nat _) 48 ++ pad_left p 48 cs). split.
    + rewrite puts_app. apply puts_bind. intros o1. rewrite put_while_bind, puts_app.
      apply puts_bind. intros o2. apply (put_body_full en cs p _ o2); [done|lia].
    + repeat case_bool_decide; try tauto; (left; do 3 f_equal; lia) || right.
      split; [lia|]. do 3 f_equal; lia.
  - rewrite put_while_bind.
    eexists (replicate (Z.to_nat _) 32 ++ sign_list sign ++ pad_left p 48 cs). split.
    + rewrite puts_app. apply puts_bind. intros o1. rewrite put_sign_puts, puts_app.
      apply puts_bind. intros o2.
      rewrite put_while_none by (repeat case_bool_decide; lia). obind.
      apply (put_body_full en cs p _ o2); [done|]. repeat case_bool_decide; lia.
    + left. do 2 f_equal. repeat case_bool_decide; lia.
Qed.

Lemma pad_left_default p c s : pad_left (default (-1) p) c s = pad_left (default 0 p) c s.
Proof. destruct p; [done|]. unfold pad_left. simpl. do 2 f_equal. pose proof (zlen_nonneg s). lia. Qed.

Lemma layout_default l z w sign body :
  layout l z (default (-1) w) sign body = layout l z (default 0 w) sign body.
Proof.
  destruct w; [done|]. unfold layout. simpl.
  replace (Z.to_nat (-1 - zlen sign - zlen body)) with (Z.to_nat (0 - zlen sign - zlen body));
    [done|]. pose proof (zlen_nonneg sign). pose proof (zlen_nonneg body). lia.
Qed.

Lemma zlen_layout l z w sign body :
  zlen (layout l z w sign body) = Z.max w (zlen sign + zlen body).
Proof.
  unfold layout. destruct l; [|destruct z]; rewrite !zlen_app, zlen_replicate;
    pose proof (zlen_nonneg sign); pose proof (zlen_nonneg body); lia.
Qed.

Lemma digit_chars_nonempty upper radix n : digit_char upper <$> digits radix n ≠ [].
Proof.
  unfold digits. cbn [digits_of]. case_bool_decide; [done|].
  rewrite fmap_app. intros [_ ?]%app_nil. done.
Qed.

(** A number is printed as its text; when its first byte is already behind the
    end of the buffer, it may be counted one byte longer. *)
Lemma print_number_puts en base f upper signed type v o :
  type_of type f upper signed → printable signed v →
  ∃ s, print_number en (s32 v) base (default (-1) (f_width f)) (default (-1) (f_prec f)) type o =
       puts en s o ∧
    (s = number_text f (radix_of base) upper signed v ∨
     o.2 > en ∧
       zlen (number_text f (radix_of base) upper signed v) <= zlen s <=
       zlen (number_text f (radix_of base) upper signed v) + 1).
Proof.
  intros Ht Hv. unfold print_number.
  set (type' := if flag type LEFT then Z.land type (Z.lnot ZEROPAD) else type).
  assert (type_of type' (Field (f_left f) (f_zero f && negb (f_left f)) (f_plus f) (f_space f)
    (f_width f) (f_prec f)) upper signed) as Ht' by (by apply drop_zero).
  rewrite (t_large _ _ _ _ Ht).
  destruct (number_sign_spec _ _ _ _ v Ht' Hv) as (sign&num&->&Habs&Hnum&Hsign).
  rewrite number_tmp by done. obind. rewrite Habs.
  destruct (put_number_puts en type' (f_left f) (f_zero f) sign
    (digit_char upper <$> digits (radix_of base) (Z.abs v))
    (default (-1) (f_width f)) (default (-1) (f_prec f)) o) as (s&->&Hs).
  { apply Ht'. } { apply Ht'. } { apply digit_chars_nonempty. }
  fold (sign_list sign) in Hsign. change (sign_text f signed v = sign_list sign) in Hsign.
  rewrite pad_left_default in Hs. rewrite number_text_layout, Hsign. exists s. split; [done|].
  destruct Hs as [->|[Hen ->]]; [left; by rewrite layout_default|right].
  split; [done|]. rewrite !zlen_layout. unfold width. destruct (f_width f); simpl; lia.
Qed.

(** ** Characters *)

Lemma default_width f k : 0 <= k →
  Z.to_nat (default (-1) (f_width f) - k) = Z.to_nat (width f - k).
Proof. unfold width. destruct (f_width f); simpl; lia. Qed.

Lemma pad_char_bind en w o {B} (k : output * Z → option B) :
  (pad_char en w o ≫= k) =
  (o' ← puts en (replicate (Z.to_nat (w - 1)) 32) o; k (o', Z.min (w - 1) 0)).
Proof. unfold pad_char. rewrite put_times_puts. by destruct (puts en _ o). Qed.

Lemma print_char_puts en f flags a args o : flag flags LEFT = f_left f →
  print_char en flags (default (-1) (f_width f)) (a :: args) o =
  (o ← puts en (align f [u8 a]) o; Some (o, args)).
Proof.
  intros Hl. unfold print_char, align, pad_left, pad_right. rewrite Hl.
  change (zlen [u8 a]) with 1. rewrite <-default_width by lia.
  destruct (f_left f); rewrite puts_app.
  - cbn [va_arg puts mbind option_bind].
    destruct (put en (u8 a) o) as [o1|]; [obind|done]. by rewrite pad_char_bind.
  - rewrite pad_char_bind. destruct (puts en (replicate _ _) o) as [o1|]; [obind|done].
    cbn [va_arg puts mbind option_bind]. destruct (put en (u8 a) o1) as [o2|]; [obind|done].
    rewrite pad_char_bind. replace (Z.to_nat (Z.min _ 0 - 1)) with O by lia. done.
Qed.

(** ** A bounded buffer *)

Lemma arr_get_app_l {A} i (s t : list A) : i < zlen s → arr_get i (s ++ t) = arr_get i s.
Proof.
  unfold arr_get, zlen. intros Hi. case_bool_decide; [|done]. apply lookup_app_l. lia.
Qed.

Lemma arr_get_snoc {A} (s : list A) c : arr_get (zlen s) (s ++ [c]) = Some c.
Proof.
  unfold arr_get, zlen. rewrite bool_decide_true by lia. rewrite Nat2Z.id.
  by rewrite lookup_app_r, Nat.sub_diag.
Qed.

Lemma cstr_lookup m p t i c : cstr m p t → t !! i = Some c → m !! (p + Z.of_nat i) = Some c.
Proof.
  revert p i. induction t as [|d t IH]; intros p i Ht Hi; [done|].
  destruct Ht as (Hd&_&Ht), i as [|i]; simpl in Hi.
  - rewrite Z.add_0_r. congruence.
  - replace (p + Z.of_nat (S i)) with (p + 1 + Z.of_nat i) by lia. by apply IH.
Qed.

(** How much of a string the precision leaves. *)
Definition shorten (prec : option Z) (t : list Z) : list Z :=
  match prec with
  | Some p => if bool_decide (p > 0) then take (Z.to_nat p) t else t
  | None => t
  end.

Lemma shorten_length prec t :
  (if bool_decide (default (-1) prec > 0 ∧ zlen t > default (-1) prec) then default (-1) prec
   else zlen t) = zlen (shorten prec t).
Proof.
  destruct prec as [p|]; simpl; [|done]. unfold zlen.
  repeat case_bool_decide; rewrite ?length_take; lia.
Qed.

Lemma shorten_lookup prec t k c : shorten prec t !! k = Some c → t !! k = Some c.
Proof.
  destruct prec as [p|]; simpl; [|done]. case_bool_decide; [|done].
  intros Hk. by apply lookup_take_Some in Hk as [? _].
Qed.

(** The output goes to [n] bytes at [buf]; [L] bounds the length of the text and
    [J] how far the count may run ahead of it. *)
Section buffer.
Context (m0 : mem) (buf n L J : Z).
Hypothesis (Hbuf : 0 <= buf) (Hn : 0 < n).
Hypothesis (Hspace : buf + L + J < 2 ^ 32).
Hypothesis (Hmap : mapped m0 buf (Z.min n L)).
Local Abbreviation en := (buf + n - 1).

(** What has been written of the text [s]: as much as the buffer holds. *)
Record emitted (j : Z) (s : list Z) (o : output) : Prop := {
  em_count : zlen s <= o.2 - buf <= zlen s + j;
  em_exact : zlen s < n → o.2 - buf = zlen s;
  em_mem : ∀ x, o.1 !! x =
    if bool_decide (buf <= x < buf + Z.min n (zlen s)) then arr_get (x - buf) s else m0 !! x;
}.

Lemma emitted_past j d s t o : emitted j s o → o.2 > en → zlen t <= d <= zlen t + 1 →
  emitted (j + 1) (s ++ t) (o.1, o.2 + d).
Proof.
  intros [Hc He Hm] Hp Hd. assert (n <= zlen s) by lia.
  split; cbn [fst snd]; rewrite ?zlen_app; pose proof (zlen_nonneg t); try (intros; lia).
  intros x. rewrite Hm.
  repeat case_bool_decide; try lia; [|done]. rewrite arr_get_app_l by lia. done.
Qed.

Lemma put_emitted j s c o : emitted j s o → zlen s < L → j <= J → in_u8 c →
  ∃ o', put en c o = Some o' ∧ emitted j (s ++ [c]) o'.
Proof.
  intros [Hc He Hm] HL Hj Hu. pose proof (zlen_nonneg s).
  unfold put. rewrite u32_small by mlia. case_bool_decide as Hp.
  - assert (o.2 = buf + zlen s) as Ho by lia. rewrite Ho. unfold store.
    rewrite Hm, bool_decide_false by lia.
    destruct (Hmap (zlen s)) as [v Hv]; [lia|]. rewrite Hv. obind.
    eexists; split; [done|]. split; cbn [fst snd]; rewrite ?zlen_app, ?zlen_cons;
      change (zlen []) with 0; try (intros; lia).
    intros x. destruct (decide (x = buf + zlen s)) as [->|Hne].
    + rewrite lookup_insert_eq, bool_decide_true by lia.
      replace (buf + zlen s - buf) with (zlen s) by lia. by rewrite arr_get_snoc, u8_small.
    + rewrite lookup_insert_ne by done. rewrite Hm. repeat case_bool_decide; try lia; [|done].
      by rewrite arr_get_app_l by lia.
  - eexists; split; [done|]. split; cbn [fst snd]; rewrite ?zlen_app, ?zlen_cons;
      change (zlen []) with 0; try (intros; lia).
    intros x. rewrite Hm. repeat case_bool_decide; try lia; [|done].
    by rewrite arr_get_app_l by lia.
Qed.

Lemma puts_emitted j s t o : emitted j s o → zlen s + zlen t <= L → j <= J →
  Forall in_u8 t → ∃ o', puts en t o = Some o' ∧ emitted j (s ++ t) o'.
Proof.
  revert s o. induction t as [|c t IH]; intros s o He HL Hj Ht; simpl.
  { rewrite app_nil_r. eauto. }
  apply Forall_cons in Ht as [Hc Ht]. rewrite zlen_cons in HL. pose proof (zlen_nonneg t).
  destruct (put_emitted j s c o) as (o1&->&He1); [done|lia|done..|]. obind.
  destruct (IH (s ++ [c]) o1) as (o2&->&He2); [done|..|done|].
  { rewrite zlen_app, zlen_cons. change (zlen []) with 0. lia. } { done. }
  exists o2. split; [done|]. by rewrite <-(assoc_L (++)) in He2.
Qed.

Lemma puts_past t o : o.2 > en → o.2 + zlen t < 2 ^ 32 →
  puts en t o = Some (o.1, o.2 + zlen t).
Proof.
  revert o. induction t as [|c t IH]; intros o Hp Ho; simpl.
  { rewrite Z.add_0_r. by destruct o. }
  rewrite zlen_cons in *. pose proof (zlen_nonneg t). unfold put.
  rewrite bool_decide_false by lia. obind. rewrite u32_small by mlia.
  rewrite IH; cbn [fst snd]; [|lia..]. do 2 f_equal. lia.
Qed.

Lemma emitted_mono j j' s o : emitted j s o → j <= j' → emitted j' s o.
Proof. intros [???] ?. split; [lia|done..]. Qed.

(** One printer: it adds its text, and the count at most one more. *)
Definition prints (f : output → option output) (t : list Z) : Prop :=
  ∀ j s o, emitted j s o → zlen s + zlen t <= L → j < J →
  ∃ o', f o = Some o' ∧ emitted (j + 1) (s ++ t) o'.

Lemma prints_puts t : Forall in_u8 t → prints (puts en t) t.
Proof.
  intros Ht j s o He HL Hj. destruct (puts_emitted j s t o) as (o'&->&?); [done..|lia|done|].
  eauto using emitted_mono with lia.
Qed.

Lemma number_text_bytes f radix upper signed v : 2 <= radix <= 16 →
  Forall in_u8 (number_text f radix upper signed v).
Proof.
  intros Hr. rewrite number_text_layout.
  assert (∀ k c, in_u8 c → Forall in_u8 (replicate k c)) as Hrep
    by (intros; by apply Forall_replicate).
  assert (Forall in_u8 (sign_text f signed v)) as Hs.
  { unfold sign_text. repeat case_match; repeat constructor; done. }
  assert (Forall in_u8 (digit_char upper <$> digits radix (Z.abs v))) as Hd.
  { apply Forall_fmap. destruct (digits_value radix (Z.abs v)) as [Hd _]; [lia..|].
    eapply Forall_impl; [exact Hd|]. intros d Hd'. unfold compose, digit_char.
    repeat case_match; mlia. }
  unfold layout, pad_left. destruct (f_left f); [|destruct (f_zero f)];
    rewrite !Forall_app; (split_and!; try done); by apply Hrep.
Qed.

Lemma prints_number base f upper signed type v :
  type_of type f upper signed → printable signed v →
  prints (print_number en (s32 v) base (default (-1) (f_width f)) (default (-1) (f_prec f)) type)
    (number_text f (radix_of base) upper signed v).
Proof.
  intros Ht Hv j s o He HL Hj.
  destruct (print_number_puts en base f upper signed type v o Ht Hv) as (t&->&[->|[Hp Hlen]]).
  - apply prints_puts; [|done..]. apply number_text_bytes, radix_of_range.
  - pose proof (em_count _ _ _ He). rewrite puts_past by lia.
    eexists; split; [done|]. by apply emitted_past.
Qed.

(** *** Characters and strings *)

(** The same for the printers that take arguments. *)
Definition prints_arg {A} (f : output → option (output * A)) (t : list Z) (a : A) : Prop :=
  ∀ j s o, emitted j s o → zlen s + zlen t <= L → j < J →
  ∃ o', f o = Some (o', a) ∧ emitted (j + 1) (s ++ t) o'.

Lemma prints_arg_bind {A} f t (a : A) :
  prints f t → prints_arg (λ o, o ← f o; Some (o, a)) t a.
Proof.
  intros Hf j s o He HL Hj. destruct (Hf j s o He HL Hj) as (o'&->&?). by exists o'.
Qed.

Lemma align_bytes f t : Forall in_u8 t → Forall in_u8 (align f t).
Proof.
  intros Ht. unfold align, pad_left, pad_right. destruct (f_left f); apply Forall_app; split;
    done || by apply Forall_replicate.
Qed.

Lemma prints_char f flags a args : flag flags LEFT = f_left f →
  prints_arg (print_char en flags (default (-1) (f_width f)) (a :: args)) (align f [u8 a]) args.
Proof.
  intros Hl j s o. rewrite (print_char_puts _ f) by done. revert j s o.
  apply prints_arg_bind, prints_puts, align_bytes. constructor; [apply u8_range|done].
Qed.

(** Memory outside the buffer is as it was. *)
Definition apart (p k : Z) : Prop := p + k <= buf ∨ buf + Z.min n L <= p.

Lemma emitted_cstr j s o p t : emitted j s o → zlen s <= L → cstr m0 p t →
  apart p (zlen t + 1) → cstr o.1 p t.
Proof.
  intros He HL Ht Ha. apply (cstr_frame m0); [|done]. intros x Hx.
  rewrite (em_mem _ _ _ He), bool_decide_false; [done|]. unfold apart in Ha. lia.
Qed.

(** The string argument [p] stands for the text [t] all the time. *)
Definition readable (p : Z) (t : list Z) : Prop := Forall in_u8 t ∧
  ∀ j s o, emitted j s o → zlen s <= L → text_length o.1 p = Some (zlen t) ∧
  ∀ i c, t !! i = Some c → text_byte o.1 p (Z.of_nat i) = Some c.

Lemma readable_null : readable 0 null_text.
Proof.
  split; [repeat constructor; done|]. intros j s o _ _. split; [done|]. intros i c Hi.
  unfold text_byte, arr_get. rewrite !bool_decide_true by lia. by rewrite Nat2Z.id.
Qed.

Lemma readable_text p t : p ≠ 0 → Forall in_u8 t → cstr m0 p t → apart p (zlen t + 1) →
  readable p t.
Proof.
  intros Hp Hu Ht Ha. split; [done|]. intros j s o He HL.
  assert (cstr o.1 p t) as Ho by (by eapply emitted_cstr).
  unfold text_length, text_byte. rewrite bool_decide_false by done.
  split; [by apply strlen_spec|]. intros i c Hi. by eapply cstr_lookup.
Qed.

Lemma put_text_emitted p t ds i j s o : readable p t →
  (∀ k c, ds !! k = Some c → t !! (i + k)%nat = Some c) → emitted j s o →
  zlen s + zlen ds <= L → j <= J →
  ∃ o', put_text (length ds) en p (Z.of_nat i) o = Some o' ∧ emitted j (s ++ ds) o'.
Proof.
  intros [Hu Hr]. revert i s o. induction ds as [|c ds IH]; intros i s o Hds He HL Hj; simpl.
  { rewrite app_nil_r. eauto. }
  rewrite zlen_cons in HL. pose proof (zlen_nonneg ds).
  assert (t !! i = Some c) as Hc by (rewrite <-(Nat.add_0_r i); by apply Hds).
  destruct (Hr j s o He) as [_ Hb]; [lia|]. rewrite (Hb i c Hc). obind.
  destruct (put_emitted j s c o) as (o1&->&He1); [done|lia|done|by eapply Forall_lookup|]. obind.
  replace (Z.of_nat i + 1) with (Z.of_nat (S i)) by lia.
  destruct (IH (S i) (s ++ [c]) o1) as (o2&->&He2); [|done|..|done|].
  { intros k d Hd. replace (S i + k)%nat with (i + S k)%nat by lia. by apply Hds. }
  { rewrite zlen_app, zlen_cons. change (zlen []) with 0. lia. }
  exists o2. split; [done|]. by rewrite <-(assoc_L (++)) in He2.
Qed.

Lemma pad_text_emitted len w j s o : emitted j s o → j <= J →
  zlen s + Z.max 0 (w - len) <= L →
  ∃ o', pad_text en len w o = Some (o', Z.min w len - 1) ∧
    emitted j (s ++ replicate (Z.to_nat (w - len)) 32) o'.
Proof.
  intros He Hj HL. unfold pad_text. rewrite put_times_puts.
  destruct (puts_emitted j s (replicate (Z.to_nat (w - len)) 32) o) as (o'&->&He');
    [done|rewrite zlen_replicate; lia|done|by apply Forall_replicate|]. by exists o'.
Qed.

Lemma prints_string f flags p t args : flag flags LEFT = f_left f → readable p t →
  prints_arg (print_string en flags (default (-1) (f_width f)) (default (-1) (f_prec f))
    (p :: args)) (string_text f t) args.
Proof.
  intros Hl Hr j s o He HL Hj. unfold print_string. cbn [va_arg mbind option_bind].
  pose proof (zlen_nonneg (string_text f t)). pose proof (zlen_nonneg (shorten (f_prec f) t)).
  destruct (proj2 Hr j s o He) as [-> _]; [lia|]. obind. rewrite shorten_length, Hl.
  unfold string_text in *. fold (shorten (f_prec f) t) in *.
  unfold align, pad_left, pad_right in *. rewrite <-default_width in * by done.
  set (u := shorten (f_prec f) t) in *. set (w := default (-1) (f_width f)) in *.
  assert (∀ s o, emitted j s o → zlen s + zlen u <= L → ∃ o',
    put_text (Z.to_nat (zlen u)) en p 0 o = Some o' ∧ emitted j (s ++ u) o') as Hput.
  { intros s' o1 He1 HL1. unfold zlen at 1. rewrite Nat2Z.id.
    apply (put_text_emitted p t u 0); [done| |done..|lia]. apply shorten_lookup. }
  destruct (f_left f); rewrite zlen_app, zlen_replicate in HL; obind.
  - destruct (Hput s o) as (o1&->&He1); [done|lia|]. obind.
    destruct (pad_text_emitted (zlen u) w j (s ++ u) o1) as (o2&->&He2);
      [done|lia|rewrite zlen_app; lia|]. obind.
    exists o2. split; [done|]. rewrite (assoc_L (++)). eauto using emitted_mono with lia.
  - destruct (pad_text_emitted (zlen u) w j s o) as (o1&->&He1); [done|lia..|]. obind.
    destruct (Hput _ _ He1) as (o2&->&He2); [rewrite zlen_app, zlen_replicate; lia|]. obind.
    destruct (pad_text_emitted (zlen u) (Z.min w (zlen u) - 1) j _ o2 He2) as (o3&->&He3);
      [lia|rewrite !zlen_app, zlen_replicate; lia|]. obind.
    exists o3. split; [done|]. replace (Z.to_nat (Z.min _ _ - 1 - _)) with O in He3 by lia.
    rewrite app_nil_r, <-(assoc_L (++)) in He3. eauto using emitted_mono with lia.
Qed.

End buffer.
