(* ===== verification/KPrintFormat.v ===== *)
(** * Formats

    The parsers of [rt_vsnprintf] read what [show] wrote; put together with the
    printers of [KPrintProof], every directive of a format adds its text. *)

From S2P Require Import Prelude KString KPrint KPrintSpec KPrintProof.

(** ** Reading a format *)

Lemma zlen_digit_chars ds : zlen (digit_chars ds) = zlen ds.
Proof. unfold zlen, digit_chars. by rewrite length_fmap. Qed.

(** No meaning between the '%' and the conversion. *)
Definition plain (c : Z) : Prop :=
  c ≠ 45 ∧ c ≠ 43 ∧ c ≠ 32 ∧ c ≠ 35 ∧ ¬ 48 <= c < 58 ∧ c ≠ 42 ∧ c ≠ 46 ∧ c ≠ 104 ∧ c ≠ 108.

Definition head_is (P : Z → Prop) (s : list Z) : Prop :=
  match s with c :: _ => 0 <= c < 256 ∧ P c | [] => False end.

Lemma isdigit_spec c : 0 <= c < 256 → isdigit c = bool_decide (48 <= c < 58).
Proof. intros Hc. unfold isdigit. apply bool_decide_ext. mlia. Qed.

Definition flag_bit (f : fflag) : Z :=
  match f with
  | FLeft => LEFT | FPlus => PLUS | FSpace => SPACE | FSpecial => SPECIAL | FZero => ZEROPAD
  end.
Definition flag_bits (flags : Z) (fs : list fflag) : Z :=
  foldl (λ t f, Z.lor t (flag_bit f)) flags fs.

Lemma read_flags_spec fuel m fmt flags fs rest :
  cstr m (fmt + 1) ((flag_char <$> fs) ++ rest) → (length fs < fuel)%nat →
  head_is (λ c, c ≠ 45 ∧ c ≠ 43 ∧ c ≠ 32 ∧ c ≠ 35 ∧ c ≠ 48) rest →
  read_flags fuel m fmt flags = Some (fmt + 1 + zlen fs, flag_bits flags fs) ∧
  cstr m (fmt + 1 + zlen fs) rest.
Proof.
  revert fmt flags fuel. induction fs as [|f fs IH]; intros fmt flags [|fuel] Hs Hf Hh; try lia;
    cbn [read_flags]; unfold load.
  - change (zlen []) with 0. rewrite Z.add_0_r. destruct rest as [|c rest]; [done|].
    split; [|done]. destruct Hs as (->&_), Hh as [_ Hh]. obind.
    rewrite !bool_decide_false by tauto. done.
  - destruct Hs as (->&_&Hs). obind.
    destruct (IH (fmt + 1) (Z.lor flags (flag_bit f)) fuel) as [Hr Hc]; [done|simpl in Hf; lia|done|].
    rewrite zlen_cons. replace (fmt + 1 + (zlen fs + 1)) with (fmt + 1 + 1 + zlen fs) by lia.
    split; [|done]. by destruct f.
Qed.

Lemma value_mono ds i : 0 <= i → Forall decimal_digit ds → i <= foldl (λ v d, v * 10 + d) i ds.
Proof.
  revert i. induction ds as [|d ds IH]; intros i Hi Hds; simpl; [lia|].
  apply Forall_cons in Hds as [Hd Hds]. unfold decimal_digit in Hd.
  specialize (IH (i * 10 + d) ltac:(lia) Hds). lia.
Qed.

Lemma skip_atoi_spec fuel m s i ds rest : cstr m s (digit_chars ds ++ rest) →
  (length ds < fuel)%nat → Forall decimal_digit ds → 0 <= i →
  foldl (λ v d, v * 10 + d) i ds < 2 ^ 31 → (rest ≠ [] → head_is (λ c, ¬ 48 <= c < 58) rest) →
  skip_atoi fuel m s i = Some (foldl (λ v d, v * 10 + d) i ds, s + zlen ds) ∧
  cstr m (s + zlen ds) rest.
Proof.
  revert s i fuel. induction ds as [|d ds IH]; intros s i [|fuel] Hs Hf Hds Hi Hv Hh; try lia;
    cbn [skip_atoi]; unfold load; simpl in Hv.
  - change (zlen []) with 0. rewrite Z.add_0_r. destruct rest as [|c rest].
    { simpl in Hs |- *. rewrite Hs. done. }
    split; [|done]. destruct Hs as (->&_), Hh as [??]; [done|]. obind.
    rewrite isdigit_spec, bool_decide_false by done. done.
  - apply Forall_cons in Hds as [Hd Hds]. unfold decimal_digit in Hd. destruct Hs as (->&_&Hs). obind.
    rewrite isdigit_spec, bool_decide_true by lia.
    pose proof (value_mono ds (i * 10 + d) ltac:(lia) Hds).
    replace (i * 10 + (48 + d) - 48) with (i * 10 + d) by lia. rewrite s32_small by lia.
    rewrite zlen_cons. replace (s + (zlen ds + 1)) with (s + 1 + zlen ds) by lia.
    apply IH; try done; [simpl in Hf; lia|lia].
Qed.

(** Enough fuel for any part of a string in memory. *)
Lemma cstr_part_fuel m a s t : cstr m a (s ++ t) → (length s < str_fuel m)%nat.
Proof. intros Hs%cstr_fuel. rewrite length_app in Hs. lia. Qed.

Lemma read_width_spec m fmt flags w args rest wo l args' :
  cstr m fmt (show_width w ++ rest) → wf (Conv [] w PNone QNone CChar) →
  head_is (λ c, ¬ 48 <= c < 58 ∧ c ≠ 42) rest → width_of w args = Some (wo, l, args') →
  read_width m fmt flags (arg_word <$> args) =
    Some (fmt + zlen (show_width w), if l : bool then Z.lor flags LEFT else flags,
          default (-1) wo, arg_word <$> args') ∧
  cstr m (fmt + zlen (show_width w)) rest ∧ 0 <= default 0 wo.
Proof.
  intros Hs Hwf Hh Hw. unfold read_width, load. destruct w as [|ds|]; cbn [show_width width_of wf app] in *.
  - simplify_eq. change (zlen []) with 0. rewrite Z.add_0_r.
    destruct rest as [|c rest]; [done|]. split_and!; [|done..].
    destruct Hs as (->&_), Hh as (?&?&?). obind.
    rewrite isdigit_spec, !bool_decide_false by done. done.
  - simplify_eq. destruct Hwf as [[[Hds Hv] Hhd] _].
    pose proof (cstr_part_fuel _ _ _ _ Hs) as Hfuel. unfold digit_chars in Hfuel.
    rewrite length_fmap in Hfuel.
    destruct (skip_atoi_spec (str_fuel m) m fmt 0 ds rest) as [Hr Hc]; try done.
    { intros _. destruct rest; [done|]. by destruct Hh as (?&?&?). }
    rewrite zlen_digit_chars.
    destruct ds as [|d ds]; simpl in Hhd; [lia|]. apply Forall_cons in Hds as [Hd Hds'].
    destruct Hs as (->&_). obind. unfold decimal_digit in Hd.
    rewrite isdigit_spec, bool_decide_true by lia. rewrite Hr. obind.
    split_and!; [done..|]. simpl. apply value_mono; [lia|by constructor].
  - destruct args as [|a args]; [done|]. case_bool_decide; [done|]. simplify_eq.
    destruct Hs as (->&_&Hs). obind. cbn [va_arg fmap list_fmap mbind option_bind].
    change (isdigit 42) with false. change (bool_decide (42 = 42)) with true. cbv iota.
    change (zlen [42]) with 1. assert (- 2 ^ 31 <= s32 (arg_word a) < 2 ^ 31) by mlia.
    split_and!; [|done|simpl; lia].
    case_bool_decide; simpl; do 2 f_equal; [rewrite s32_small by lia|]; f_equal; lia.
Qed.

Lemma read_precision_spec m fmt p args rest po args' :
  cstr m fmt (show_prec p ++ rest) → wf (Conv [] WNone p QNone CChar) →
  head_is (λ c, ¬ 48 <= c < 58 ∧ c ≠ 42 ∧ c ≠ 46) rest → prec_of p args = Some (po, args') →
  read_precision m fmt (arg_word <$> args) =
    Some (fmt + zlen (show_prec p), default (-1) po, arg_word <$> args') ∧
  cstr m (fmt + zlen (show_prec p)) rest.
Proof.
  intros Hs Hwf Hh Hp. unfold read_precision, load. destruct p as [|ds|];
    cbn [show_prec prec_of wf app] in *.
  - simplify_eq. change (zlen []) with 0. rewrite Z.add_0_r.
    destruct rest as [|c rest]; [done|]. split_and!; [|done..].
    destruct Hs as (->&_), Hh as (?&?&?&?). obind. by rewrite bool_decide_false.
  - simplify_eq. destruct Hwf as (_&[Hds Hv]&_). destruct Hs as (->&_&Hs). obind.
    pose proof (cstr_part_fuel _ _ _ _ Hs) as Hfuel. unfold digit_chars in Hfuel.
    rewrite length_fmap in Hfuel.
    destruct (skip_atoi_spec (str_fuel m) m (fmt + 1) 0 ds rest) as [Hr Hc]; try done.
    { intros _. destruct rest; [done|]. by destruct Hh as (?&?&?). }
    rewrite zlen_cons, zlen_digit_chars.
    replace (fmt + (zlen ds + 1)) with (fmt + 1 + zlen ds) by lia. split; [|done].
    change (bool_decide (46 = 46)) with true. cbv iota.
    destruct ds as [|d ds].
    + destruct rest as [|c rest]; [done|]. destruct Hs as (->&_), Hh as (?&?&?&?). obind.
      rewrite isdigit_spec, !bool_decide_false by done. obind.
      change (zlen []) with 0. by rewrite Z.add_0_r.
    + pose proof (value_mono (d :: ds) 0 ltac:(lia) Hds).
      apply Forall_cons in Hds as [Hd Hds']. unfold decimal_digit in Hd.
      destruct Hs as (->&_). obind. rewrite isdigit_spec, bool_decide_true by lia.
      rewrite Hr. obind. rewrite bool_decide_false by lia. done.
  - destruct args as [|a args]; [done|]. simplify_eq. destruct Hs as (->&_&->&_&Hs). obind.
    change (zlen [46; 42]) with 2. replace (fmt + 2) with (fmt + 1 + 1) by lia.
    split; [|done]. change (bool_decide (46 = 46)) with true. cbv iota. obind.
    change (isdigit 42) with false. change (bool_decide (42 = 42)) with true. cbv iota.
    cbn [va_arg fmap list_fmap mbind option_bind]. do 2 f_equal.
    case_bool_decide; simpl; f_equal; lia.
Qed.

Definition qual_char (q : fqual) : Z :=
  match q with QNone => 0 | QShort => 104 | QLong => 108 end.

Lemma read_qualifier_spec m fmt q rest :
  cstr m fmt (show_qual q ++ rest) → head_is (λ c, c ≠ 104 ∧ c ≠ 108) rest →
  read_qualifier m fmt = Some (fmt + zlen (show_qual q), qual_char q) ∧
  cstr m (fmt + zlen (show_qual q)) rest.
Proof.
  intros Hs Hh. unfold read_qualifier, load. destruct q; cbn [show_qual app] in *.
  - change (zlen []) with 0. rewrite Z.add_0_r. destruct rest as [|c rest]; [done|].
    split; [|done]. destruct Hs as (->&_), Hh as (?&?&?). obind.
    rewrite bool_decide_false by tauto. done.
  - destruct Hs as (->&_&Hs). done.
  - destruct Hs as (->&_&Hs). done.
Qed.

(** What follows a part never continues it. *)
Lemma conv_plain k : wf (Conv [] WNone PNone QNone k) → head_is plain [conv_char k].
Proof.
  intros (_&_&Hk). destruct k; simpl; try (unfold plain; lia).
  destruct Hk as [Hc Hk]. split; [lia|]. unfold reserved in Hk.
  rewrite !not_elem_of_cons in Hk. unfold plain. lia.
Qed.

Lemma head_is_impl (P Q : Z → Prop) s t : head_is P s → (∀ c, P c → Q c) → head_is Q (s ++ t).
Proof. destruct s; simpl; [done|]. intros [??] HPQ. auto. Qed.

Section heads.
Context (w : fwidth) (p : fprec) (q : fqual) (k : fconv) (rest : list Z).
Hypothesis (Hwf : wf (Conv [] w PNone QNone CChar)).
Hypothesis (Hk : wf (Conv [] WNone PNone QNone k)).

Lemma conv_head (P : Z → Prop) : (∀ c, plain c → P c) → head_is P (conv_char k :: rest).
Proof.
  intros HP. apply (head_is_impl plain _ [conv_char k]); [|done].
  by apply conv_plain.
Qed.

Lemma qual_head :
  head_is (λ c, c = 104 ∨ c = 108 ∨ plain c) (show_qual q ++ conv_char k :: rest).
Proof. destruct q; [apply conv_head; tauto|simpl; lia..]. Qed.

Lemma prec_head :
  head_is (λ c, c = 46 ∨ c = 104 ∨ c = 108 ∨ plain c)
    (show_prec p ++ show_qual q ++ conv_char k :: rest).
Proof.
  destruct p; [cbn [show_prec app]|simpl; lia..].
  rewrite <-(app_nil_r (show_qual q ++ _)). eapply head_is_impl; [apply qual_head|tauto].
Qed.

Lemma width_head :
  head_is (λ c, c ≠ 45 ∧ c ≠ 43 ∧ c ≠ 32 ∧ c ≠ 35 ∧ c ≠ 48)
    (show_width w ++ show_prec p ++ show_qual q ++ conv_char k :: rest).
Proof.
  destruct w as [|ds|]; cbn [show_width app].
  - rewrite <-(app_nil_r (show_prec p ++ _)). eapply head_is_impl; [apply prec_head|].
    unfold plain. lia.
  - destruct Hwf as [[[Hds _] Hhd] _]. destruct ds as [|d ds]; simpl in *; [lia|].
    apply Forall_cons in Hds as [Hd _]. unfold decimal_digit in Hd. lia.
  - simpl. lia.
Qed.
End heads.

(** ** Flags of a field *)

Definition field_of (fs : list fflag) (l : bool) (wo po : option Z) : field :=
  Field (bool_decide (FLeft ∈ fs) || l) (bool_decide (FZero ∈ fs)) (bool_decide (FPlus ∈ fs))
    (bool_decide (FSpace ∈ fs)) wo po.

Lemma flag_lor_l t a b : flag (Z.lor t a) b = flag t b || flag a b.
Proof.
  unfold flag. rewrite Z.land_lor_distr_l. apply eq_true_iff_eq.
  rewrite orb_true_iff, !bool_decide_eq_true, Z.lor_eq_0_iff. lia.
Qed.

Lemma flag_bits_flag t fs b :
  flag (flag_bits t fs) b = flag t b || existsb (λ f, flag (flag_bit f) b) fs.
Proof.
  revert t. induction fs as [|f fs IH]; intros t; simpl; [by rewrite orb_false_r|].
  fold (flag_bits (Z.lor t (flag_bit f)) fs). by rewrite IH, flag_lor_l, orb_assoc.
Qed.

(** A bit set by one of the flags only. *)
Lemma flag_bits_mem f fs b : (∀ g, flag (flag_bit g) b = bool_decide (g = f)) →
  flag 0 b = false → flag (flag_bits 0 fs) b = bool_decide (f ∈ fs).
Proof.
  intros Hb H0. rewrite flag_bits_flag, H0. simpl. apply eq_true_iff_eq.
  rewrite existsb_exists, bool_decide_eq_true, list_elem_of_In. split.
  - intros (g&Hg&Hf). rewrite Hb, bool_decide_eq_true in Hf. by subst.
  - intros Hf. exists f. split; [done|]. rewrite Hb. by apply bool_decide_eq_true.
Qed.

Lemma flag_bits_none fs b : (∀ g, flag (flag_bit g) b = false) →
  flag 0 b = false → flag (flag_bits 0 fs) b = false.
Proof.
  intros Hb H0. rewrite flag_bits_flag, H0. simpl. induction fs; simpl; [done|].
  by rewrite Hb.
Qed.

Lemma type_of_flags fs (l : bool) wo po :
  type_of (if l then Z.lor (flag_bits 0 fs) LEFT else flag_bits 0 fs) (field_of fs l wo po)
    false false.
Proof.
  assert (∀ b, flag (if l then Z.lor (flag_bits 0 fs) LEFT else flag_bits 0 fs) b =
    flag (flag_bits 0 fs) b || (l && flag LEFT b)) as Hl.
  { intros b. destruct l; simpl; [apply flag_lor_l|by rewrite orb_false_r]. }
  split; rewrite Hl; simpl.
  - rewrite (flag_bits_mem FLeft); [by rewrite andb_true_r|by intros []|done].
  - rewrite (flag_bits_mem FZero); [by rewrite andb_false_r, orb_false_r|by intros []|done].
  - rewrite (flag_bits_mem FPlus); [by rewrite andb_false_r, orb_false_r|by intros []|done].
  - rewrite (flag_bits_mem FSpace); [by rewrite andb_false_r, orb_false_r|by intros []|done].
  - rewrite flag_bits_none; [by rewrite andb_false_r|by intros []|done].
  - rewrite flag_bits_none; [by rewrite andb_false_r|by intros []|done].
Qed.

Lemma type_of_large t f s : type_of t f false s → type_of (Z.lor t LARGE) f true s.
Proof. intros [H1 H2 H3 H4 H5 H6]. split; rewrite flag_lor_l, ?H1, ?H2, ?H3, ?H4, ?H5, ?H6; by rewrite ?orb_false_r. Qed.

Lemma type_of_sign t f u : type_of t f u false → type_of (Z.lor t SIGN) f u true.
Proof. intros [H1 H2 H3 H4 H5 H6]. split; rewrite flag_lor_l, ?H1, ?H2, ?H3, ?H4, ?H5, ?H6; by rewrite ?orb_false_r. Qed.

Lemma type_of_zero t f u s w : type_of t f u s →
  type_of (Z.lor t ZEROPAD) (Field (f_left f) true (f_plus f) (f_space f) w (f_prec f)) u s.
Proof. intros [H1 H2 H3 H4 H5 H6]. split; rewrite flag_lor_l, ?H1, ?H2, ?H3, ?H4, ?H5, ?H6; by rewrite ?orb_false_r, ?orb_true_r. Qed.

(** ** Conversions *)

Lemma integer_value_num (sg : bool) q a :
  s32 (if bool_decide (qual_char q = 104)
       then if sg then u32 (s16 (u16 a)) else u16 a
       else if sg then u32 (s32 (u32 a)) else u32 a) = s32 (integer_value sg q a).
Proof. destruct q, sg; simpl; mlia. Qed.

Lemma integer_value_printable sg q a : printable sg (integer_value sg q a).
Proof. destruct q, sg; simpl; mlia. Qed.

Lemma cstr_app m a s t : cstr m a (s ++ t) → cstr m (a + zlen s) t.
Proof.
  revert a. induction s as [|c s IH]; intros a Hs; simpl in *.
  - change (zlen []) with 0. by rewrite Z.add_0_r.
  - rewrite zlen_cons. replace (a + (zlen s + 1)) with (a + 1 + zlen s) by lia. apply IH, Hs.
Qed.

Definition format (ds : list directive) : list Z := concat (show <$> ds).

Lemma zlen_show d : 1 <= zlen (show d).
Proof. destruct d; unfold zlen; simpl; lia. Qed.

Section convert.
Context (m0 : mem) (buf n L J : Z).
Hypothesis (Hbuf : 0 <= buf) (Hn : 0 < n).
Hypothesis (Hspace : buf + L + J < 2 ^ 32).
Hypothesis (Hmap : mapped m0 buf (Z.min n L)).
Local Abbreviation en := (buf + n - 1).
Local Abbreviation emitted := (emitted m0 buf n).
Local Abbreviation prints_arg := (prints_arg m0 buf n L J).

(** A string argument lies apart from the buffer. *)
Definition arg_ok (a : farg) : Prop :=
  match a with
  | AText p t => p ≠ 0 ∧ Forall in_u8 t ∧ cstr m0 p t ∧ apart buf n L p (zlen t + 1)
  | _ => True
  end.

Lemma prints_integer base f upper sg flags q a args : type_of flags f upper sg →
  prints_arg (print_integer en base flags (qual_char q) (default (-1) (f_width f))
    (default (-1) (f_prec f)) (a :: args))
    (number_text f (radix_of base) upper sg (integer_value sg q a)) args.
Proof.
  intros Ht. unfold print_integer. cbn [va_arg mbind option_bind].
  rewrite (t_sign _ _ _ _ Ht), integer_value_num.
  apply prints_arg_bind, prints_number; try done. apply integer_value_printable.
Qed.

Lemma prints_pointer f flags a args : type_of flags f false false → 0 <= width f →
  prints_arg (print_pointer en flags (default (-1) (f_width f)) (default (-1) (f_prec f))
    (a :: args)) (pointer_text f a) args.
Proof.
  intros Ht Hw. unfold print_pointer, pointer_text, width in *.
  assert (s32 a = s32 (u32 a)) as Ha by mlia.
  assert (printable false (u32 a)) as Hp by apply u32_range.
  destruct (f_width f) as [w|] eqn:Hf; simpl in Hw |- *.
  - rewrite bool_decide_false by lia. cbn [va_arg mbind option_bind]. rewrite Ha.
    replace w with (default (-1) (f_width f)) by (by rewrite Hf).
    apply prints_arg_bind, prints_number with (base:=16); done.
  - rewrite Ha.
    apply prints_arg_bind, prints_number with (base:=16)
      (f:=Field (f_left f) true (f_plus f) (f_space f) (Some 8) (f_prec f)); try done.
    by apply type_of_zero.
Qed.

(** The switch writes the text of the conversion. *)
Definition converts (g : output → option (output * Z * list Z)) (fmt : Z) (t : list Z)
    (args : list Z) : Prop :=
  ∀ j s o, emitted j s o → zlen s + zlen t <= L → j < J →
  ∃ o', g o = Some (o', fmt, args) ∧ emitted (j + 1) (s ++ t) o'.

Lemma converts_prints f fmt t args : prints_arg f t args →
  converts (λ o, '(o, args) ← f o; Some (o, fmt, args)) fmt t args.
Proof.
  intros Hf j s o He HL Hj. destruct (Hf j s o He HL Hj) as (o'&->&?). by exists o'.
Qed.

Lemma converts_puts fmt t args : Forall in_u8 t →
  converts (λ o, o ← puts en t o; Some (o, fmt, args)) fmt t args.
Proof.
  intros Ht j s o He HL Hj.
  destruct (prints_puts m0 buf n L J Hbuf Hn Hspace Hmap t Ht j s o He HL Hj) as (o'&->&?).
  by exists o'.
Qed.

Lemma convert_other c flags qualifier w p fmt args : 0 < c < 256 → c ∉ reserved →
  converts (convert en c flags qualifier w p fmt args) fmt [37; c] args.
Proof.
  intros Hc Hr j s o. unfold reserved in Hr. rewrite !not_elem_of_cons in Hr.
  unfold convert. rewrite (bool_decide_true (c ≠ 0)) by lia.
  rewrite !bool_decide_false; try lia.
  - assert (Forall in_u8 [37; c]) as Hu by (repeat constructor; mlia).
    intros He HL Hj. destruct (converts_puts fmt _ args Hu j s o He HL Hj) as (o'&Ho&?).
    exists o'. split; [|done]. cbn [puts] in Ho. destruct (put en 37 o) as [o1|]; [|done].
    cbn [mbind option_bind] in *. by destruct (put en c o1).
  - rewrite !elem_of_cons, elem_of_nil. lia.
Qed.

Lemma convert_spec f q k flags fmt args t args' :
  type_of flags f false false → 0 <= width f → wf (Conv [] WNone PNone q k) →
  Forall arg_ok args → conv_text f q k args = Some (t, args') →
  converts (convert en (conv_char k) flags (qual_char q) (default (-1) (f_width f))
    (default (-1) (f_prec f)) fmt (arg_word <$> args)) fmt t (arg_word <$> args') ∧
  Forall arg_ok args'.
Proof.
  intros Ht Hw Hwf Hok Htext. pose proof (t_left _ _ _ _ Ht) as Hl.
  assert (∀ base flags upper sg a args, type_of flags f upper sg →
    converts (λ o, '(o, args) ← print_integer en base flags (qual_char q)
      (default (-1) (f_width f)) (default (-1) (f_prec f)) (a :: args) o; Some (o, fmt, args))
      fmt (number_text f (radix_of base) upper sg (integer_value sg q a)) args) as Hint.
  { intros. by apply (converts_prints (print_integer _ _ _ _ _ _ _)), prints_integer. }
  destruct k; try (destruct args as [|a args]; cbn [conv_text] in Htext; [done|];
    apply Forall_cons in Hok as [Ha Hok']; cbn [fmap list_fmap]).
  - simplify_eq. split; [|done]. by apply (converts_prints (print_char _ _ _ _)), prints_char.
  - split.
    + apply (converts_prints (print_string _ _ _ _ _)).
      destruct a as [|p u|]; simplify_eq; apply prints_string; try done.
      * destruct Ha as (?&?&?&?). by apply readable_text.
      * apply readable_null.
    + destruct a; by simplify_eq.
  - simplify_eq. split; [|done].
    by apply (converts_prints (print_pointer _ _ _ _ _)), prints_pointer.
  - simpl in Htext. simplify_eq. split; [|done].
    assert (Forall in_u8 [37]) as Hu by (repeat constructor; done).
    intros j s o He HL Hj. destruct (converts_puts fmt _ (arg_word <$> args') Hu j s o He HL Hj)
      as (o'&Ho&?). exists o'. split; [|done]. cbn [puts] in Ho.
    change ((o ← put en 37 o; Some (o, fmt, arg_word <$> args')) =
            Some (o', fmt, arg_word <$> args')).
    by destruct (put en 37 o).
  - simplify_eq. split; [|done]. by apply (Hint 8).
  - simplify_eq. split; [|done]. by apply (Hint 16 _ true), type_of_large.
  - simplify_eq. split; [|done]. by apply (Hint 16).
  - simplify_eq. split; [|done]. by apply (Hint 10 _ _ true), type_of_sign.
  - simplify_eq. split; [|done]. by apply (Hint 10 _ _ true), type_of_sign.
  - simplify_eq. split; [|done]. by apply (Hint 10).
  - simpl in Htext. simplify_eq. split; [|done]. destruct Hwf as (_&_&?&?).
    by apply convert_other.
Qed.

Lemma width_of_args w args wo l args' : width_of w args = Some (wo, l, args') →
  Forall arg_ok args → Forall arg_ok args'.
Proof.
  destruct w, args; simpl; intros; simplify_eq; try done. case_bool_decide; simplify_eq.
  by eapply Forall_inv_tail.
Qed.

Lemma prec_of_args p args po args' : prec_of p args = Some (po, args') →
  Forall arg_ok args → Forall arg_ok args'.
Proof. destruct p, args; simpl; intros; simplify_eq; try done. by eapply Forall_inv_tail. Qed.

Lemma conversion_spec fs w p q k args t args' rest fmt j s o :
  let d := Conv fs w p q k in
  wf d → render1 d args = Some (t, args') → Forall arg_ok args →
  emitted j s o → zlen s + zlen t <= L → j < J → cstr o.1 fmt (show d ++ rest) →
  ∃ o', conversion en fmt (arg_word <$> args) o =
        Some (o', fmt + zlen (show d) - 1, arg_word <$> args') ∧
    emitted (j + 1) (s ++ t) o' ∧ Forall arg_ok args'.
Proof.
  intros d (Hw&Hp&Hk) Ht Hok He HL Hj Hs. subst d.
  assert (wf (Conv [] w PNone QNone CChar)) as Hww by done.
  assert (wf (Conv [] WNone p QNone CChar)) as Hwp by done.
  assert (wf (Conv [] WNone PNone q k)) as Hwk by done.
  cbn [render1] in Ht.
  destruct (width_of w args) as [[[wo l] args1]|] eqn:Hw1; [cbn [mbind option_bind] in Ht|done].
  destruct (prec_of p args1) as [[po args2]|] eqn:Hp1; [cbn [mbind option_bind] in Ht|done].
  fold (field_of fs l wo po) in Ht.
  cbn [show app] in Hs. rewrite <-!(assoc_L (++)) in Hs. cbn [app] in Hs.
  destruct Hs as (_&_&Hs). unfold conversion.
  destruct (read_flags_spec (str_fuel o.1) o.1 fmt 0 fs _ Hs) as [-> Hs1].
  { apply cstr_part_fuel in Hs. by rewrite length_fmap in Hs. } { by apply width_head. }
  obind. destruct (read_width_spec o.1 _ (flag_bits 0 fs) w args _ wo l args1 Hs1)
    as (->&Hs2&Hwo); [done| |done|].
  { rewrite <-(app_nil_r (show_prec p ++ _)).
    eapply head_is_impl; [by apply prec_head|]. unfold plain. lia. }
  obind. destruct (read_precision_spec o.1 _ p args1 _ po args2 Hs2) as (->&Hs3);
    [done| |done|].
  { rewrite <-(app_nil_r (show_qual q ++ _)).
    eapply head_is_impl; [by apply qual_head|]. unfold plain. lia. }
  obind. destruct (read_qualifier_spec o.1 _ q _ Hs3) as (->&Hs4).
  { apply conv_head; [done|]. unfold plain. lia. }
  obind. destruct Hs4 as (Hc&_&_). unfold load. rewrite Hc. obind.
  destruct (convert_spec (field_of fs l wo po) q k
    (if l then Z.lor (flag_bits 0 fs) LEFT else flag_bits 0 fs)
    (fmt + zlen (show (Conv fs w p q k)) - 1) args2 t args') as [Hconv Hok'];
    [apply type_of_flags|done|done|eauto using prec_of_args, width_of_args|done|].
  destruct (Hconv j s o He HL Hj) as (o'&Ho&?). exists o'. split_and!; [|done..].
  rewrite <-Ho. f_equal. cbn [show]. rewrite zlen_cons, !zlen_app.
  assert (zlen (flag_char <$> fs) = zlen fs) as -> by (unfold zlen; by rewrite length_fmap).
  change (zlen [conv_char k]) with 1. lia.
Qed.

(** One round of the loop reads one directive. *)
Lemma format_step fuel d args t args' rest fmt j s o :
  wf d → render1 d args = Some (t, args') → Forall arg_ok args →
  emitted j s o → zlen s + zlen t <= L → j < J → cstr o.1 fmt (show d ++ rest) →
  ∃ o', format_loop (S fuel) en fmt (arg_word <$> args) o =
        format_loop fuel en (fmt + zlen (show d)) (arg_word <$> args') o' ∧
    emitted (j + 1) (s ++ t) o' ∧ Forall arg_ok args'.
Proof.
  intros Hd Ht Hok He HL Hj Hs. cbn [format_loop]. unfold load. destruct d as [c|fs w p q k].
  - simpl in Ht. simplify_eq. destruct Hd as [Hc Hc'], Hs as (->&_&_). obind.
    rewrite bool_decide_false, bool_decide_true by lia.
    destruct (put_emitted m0 buf n L J Hbuf Hn Hspace Hmap j s c o) as (o'&->&He');
      [done|..|mlia|].
    { change (zlen [c]) with 1 in HL. lia. } { lia. }
    exists o'. split_and!; [done| |done]. eapply emitted_mono; [done|exact He'|lia].
  - destruct (conversion_spec fs w p q k args t args' rest fmt j s o) as (o'&Ho&?&?);
      [done..|]. exists o'. split_and!; [|done..].
    destruct Hs as (->&_&_). obind. rewrite !bool_decide_false by (intros ?; done).
    rewrite Ho. obind. f_equal. lia.
Qed.

Lemma format_loop_spec fuel ds args t fmt j s o :
  Forall wf ds → render ds args = Some t → Forall arg_ok args → emitted j s o →
  zlen s + zlen t <= L → j + zlen ds <= J → cstr m0 fmt (format ds) →
  apart buf n L fmt (zlen (format ds) + 1) → (length ds < fuel)%nat →
  ∃ o', format_loop fuel en fmt (arg_word <$> args) o = Some o' ∧
    emitted (j + zlen ds) (s ++ t) o'.
Proof.
  revert args t fmt j s o fuel. induction ds as [|d ds IH];
    intros args t fmt j s o [|fuel] Hwf Ht Hok He HL Hj Hs Ha Hf; try (simpl in Hf; lia);
    pose proof (zlen_nonneg t);
    pose proof (emitted_cstr m0 buf n L j s o fmt _ He ltac:(lia) Hs Ha) as Ho.
  - cbn [format_loop]; unfold load. simpl in Ho, Ht. simplify_eq. rewrite Ho. obind.
    rewrite bool_decide_true by done.
    exists o. split; [done|]. change (zlen []) with 0. by rewrite Z.add_0_r, app_nil_r.
  - apply Forall_cons in Hwf as [Hd Hwf]. cbn [render] in Ht.
    destruct (render1 d args) as [[t1 args1]|] eqn:Ht1; [cbn [mbind option_bind] in Ht|done].
    destruct (render ds args1) as [t2|] eqn:Ht2; [cbn [mbind option_bind] in Ht|done].
    simplify_eq. rewrite zlen_app in HL. rewrite zlen_cons in *. pose proof (zlen_nonneg ds).
    pose proof (zlen_nonneg t2). pose proof (zlen_show d).
    change (format (d :: ds)) with (show d ++ format ds) in *. rewrite zlen_app in Ha.
    destruct (format_step fuel d args t1 args1 (format ds) fmt j s o) as (o1&->&He1&Hok1);
      [done..|lia|lia|done|].
    destruct (IH args1 t2 (fmt + zlen (show d)) (j + 1) (s ++ t1) o1 fuel) as (o'&->&He');
      try done; [rewrite zlen_app; lia|lia|by apply cstr_app|unfold apart in *; lia|simpl in Hf; lia|].
    exists o'. split; [done|]. replace (j + (zlen ds + 1)) with (j + 1 + zlen ds) by lia.
    by rewrite (assoc_L (++)).
Qed.

End convert.

(** ** The printing functions *)

(** [m'] is [m] with the text [s] at [buf]. *)
Definition written (m m' : mem) (buf : Z) (s : list Z) : Prop :=
  ∀ x, m' !! x = if bool_decide (buf <= x < buf + zlen s) then arr_get (x - buf) s else m !! x.

(** The format and the string arguments lie apart from the [k] bytes at [buf]. *)
Record printf_input (m : mem) (buf k fmt : Z) (ds : list directive) (args : list farg)
    : Prop := {
  pi_wf : Forall wf ds;
  pi_fmt : cstr m fmt (format ds);
  pi_apart : fmt + zlen (format ds) + 1 <= buf ∨ buf + k <= fmt;
  pi_args : Forall (λ a, match a with
    | AText p t => p ≠ 0 ∧ Forall in_u8 t ∧ cstr m p t ∧ (p + (zlen t + 1) <= buf ∨ buf + k <= p)
    | _ => True end) args;
  pi_mapped : mapped m buf k;
}.

Lemma format_length ds : (length ds <= length (format ds))%nat.
Proof.
  induction ds as [|d ds IH]; [done|]. change (format (d :: ds)) with (show d ++ format ds).
  rewrite length_app. pose proof (zlen_show d). unfold zlen in *. simpl. lia.
Qed.

(** A null behind the first [k] bytes of a text in memory. *)
Lemma written_null m m1 buf t k : 0 <= k <= zlen t →
  (∀ x, x ≠ buf + k → m1 !! x =
    if bool_decide (buf <= x < buf + k) then arr_get (x - buf) t else m !! x) →
  written m (<[buf + k := 0]> m1) buf (take (Z.to_nat k) t ++ [0]).
Proof.
  intros Hk Hm x. assert (zlen (take (Z.to_nat k) t) = k) as Hlen.
  { unfold zlen in *. rewrite length_take. lia. }
  rewrite zlen_app, Hlen. change (zlen [0]) with 1. destruct (decide (x = buf + k)) as [->|Hx].
  - rewrite lookup_insert_eq, bool_decide_true by lia.
    replace (buf + k - buf) with (zlen (take (Z.to_nat k) t)) by lia. by rewrite arr_get_snoc.
  - rewrite lookup_insert_ne, Hm by done. repeat case_bool_decide; try lia; [|done].
    rewrite arr_get_app_l by lia. unfold arr_get. case_bool_decide; [|done].
    rewrite lookup_take_lt by lia. done.
Qed.

(** The loop and the terminating null, for a buffer of [n] bytes. *)
Lemma format_terminated m buf n fmt ds args t :
  0 <= buf → 0 < n → buf + n <= 2 ^ 32 → buf + zlen t + 1 + zlen ds < 2 ^ 32 →
  printf_input m buf (Z.min n (zlen t + 1)) fmt ds args → render ds args = Some t →
  ∃ m1 str m', format_loop (str_fuel m) (buf + n - 1) fmt (arg_word <$> args) (m, buf) =
      Some (m1, str) ∧
    store m1 (if bool_decide (str <= buf + n - 1) then str else buf + n - 1) 0 = Some m' ∧
    written m m' buf (take (Z.to_nat (n - 1)) t ++ [0]) ∧
    zlen t <= str - buf <= zlen t + zlen ds ∧ (zlen t < n → str - buf = zlen t).
Proof.
  intros Hbuf Hn Hend Hspace [Hwf Hfmt Hap Hargs Hmap] Ht. pose proof (zlen_nonneg t).
  assert (emitted m buf n 0 [] (m, buf)) as He0.
  { split; cbn [fst snd]; change (zlen []) with 0; try lia.
    intros x. rewrite bool_decide_false by lia. done. }
  destruct (format_loop_spec m buf n (zlen t + 1) (zlen ds) Hbuf Hn ltac:(lia) Hmap
    (str_fuel m) ds args t fmt 0 [] (m, buf)) as ([m1 str]&Hloop&[Hc Hx Hm]);
    try done; [change (zlen []) with 0; lia|unfold apart; lia| |].
  { apply cstr_fuel in Hfmt. pose proof (format_length ds). lia. }
  cbn [fst snd app] in *. exists m1, str.
  set (k := Z.min (zlen t) (n - 1)).
  assert ((if bool_decide (str <= buf + n - 1) then str else buf + n - 1) = buf + k) as ->
    by (case_bool_decide; lia).
  assert (is_Some (m1 !! (buf + k))) as [v Hv].
  { rewrite Hm. case_bool_decide.
    - unfold arr_get. rewrite bool_decide_true by lia. apply lookup_lt_is_Some.
      unfold zlen in *. lia.
    - apply Hmap. lia. }
  unfold store. rewrite Hv. eexists. split_and!; [done|done| |lia..|intros; lia].
  change (u8 0) with 0. replace (take (Z.to_nat (n - 1)) t) with (take (Z.to_nat k) t).
  - apply written_null; [lia|]. intros x Hx'. rewrite Hm. repeat case_bool_decide; done || lia.
  - destruct (decide (zlen t <= n - 1)); [|f_equal; lia].
    rewrite !take_ge; [done|unfold zlen in *; lia..].
Qed.

Lemma vsnprintf_bounded m buf size fmt ds args t :
  0 <= buf → 0 < size → buf + size <= 2 ^ 32 →
  zlen t + zlen ds < 2 ^ 31 → buf + zlen t + zlen ds < 2 ^ 32 - 1 →
  printf_input m buf (Z.min size (zlen t + 1)) fmt ds args → render ds args = Some t →
  ∃ m' r, rt_vsnprintf m buf size fmt (arg_word <$> args) = Some (m', r) ∧
    written m m' buf (take (Z.to_nat (size - 1)) t ++ [0]) ∧
    zlen t <= r <= zlen t + zlen ds ∧ (zlen t < size → r = zlen t).
Proof.
  intros Hbuf Hn Hend Hr Hspace Hin Ht. pose proof (zlen_nonneg t). pose proof (zlen_nonneg ds).
  destruct (format_terminated m buf size fmt ds args t) as (m1&str&m'&Hloop&Hst&Hw&Hc&Hx);
    [done..|lia|done|done|].
  unfold rt_vsnprintf. rewrite u32_small by mlia. rewrite (bool_decide_false (_ < buf)) by lia.
  rewrite Hloop. obind. rewrite Hst. obind. rewrite s32_small by lia. eauto 10.
Qed.

(** The end of a buffer without a size: the whole address space behind it. *)
Lemma vsnprintf_unbounded m buf size fmt ds args t :
  0 < buf → u32 (buf + size - 1) < buf → buf + zlen t + zlen ds < 2 ^ 32 - 1 →
  zlen t + zlen ds < 2 ^ 31 → printf_input m buf (zlen t + 1) fmt ds args →
  render ds args = Some t →
  ∃ m', rt_vsnprintf m buf size fmt (arg_word <$> args) = Some (m', zlen t) ∧
    written m m' buf (t ++ [0]).
Proof.
  intros Hbuf Hsize Hspace Hr Hin Ht. pose proof (zlen_nonneg t). pose proof (zlen_nonneg ds).
  destruct (format_terminated m buf (2 ^ 32 - buf) fmt ds args t)
    as (m1&str&m'&Hloop&Hst&Hw&Hc&Hx); [lia..| |done|].
  { by rewrite Z.min_r by lia. }
  replace (buf + (2 ^ 32 - buf) - 1) with (2 ^ 32 - 1) in * by lia.
  unfold rt_vsnprintf. rewrite (bool_decide_true (_ < buf)) by done. rewrite Hloop. obind.
  rewrite Hst. obind. exists m'. rewrite take_ge in Hw by (unfold zlen in *; lia).
  rewrite Hx by lia. by rewrite s32_small by lia.
Qed.


(** [rt_sprintf] writes the whole text and its null, and returns its length; and
    [rt_snprintf] into a buffer of size 0, which C defines to write nothing, does
    exactly the same: the size 0 is taken for no limit. *)
Theorem rt_sprintf_correct m buf fmt ds args t :
  1 < buf < 2 ^ 32 → buf + zlen t + zlen ds < 2 ^ 32 - 1 → zlen t + zlen ds < 2 ^ 31 →
  printf_input m buf (zlen t + 1) fmt ds args → render ds args = Some t →
  rt_snprintf m buf 0 fmt (arg_word <$> args) = rt_sprintf m buf fmt (arg_word <$> args) ∧
  ∃ m', rt_sprintf m buf fmt (arg_word <$> args) = Some (m', zlen t) ∧
    written m m' buf (t ++ [0]).
Proof.
  intros. assert (u32 (buf + (2 ^ 32 - 1) - 1) < buf) by mlia.
  assert (u32 (buf + 0 - 1) < buf) by mlia. split; [|by eapply vsnprintf_unbounded; eauto with lia].
  unfold rt_snprintf, rt_sprintf, rt_vsprintf, rt_vsnprintf. by rewrite !bool_decide_true.
Qed.

Lemma bytes_written m m' buf s len : written m m' buf s → 0 <= len <= zlen s →
  bytes m' buf len = take (Z.to_nat len) s.
Proof.
  intros Hw Hlen. apply list_eq. intros i. unfold bytes. rewrite list_lookup_fmap.
  unfold zlen in Hlen. destruct (decide (i < Z.to_nat len)%nat) as [Hi|Hi].
  - rewrite lookup_seq_lt, lookup_take_lt by done. simpl. rewrite Hw.
    rewrite bool_decide_true by (unfold zlen; lia).
    unfold arr_get. rewrite bool_decide_true by lia.
    replace (Z.to_nat (buf + Z.of_nat i - buf)) with i by lia.
    destruct (lookup_lt_is_Some_2 s i) as [c ->]; [lia|done].
  - rewrite lookup_seq_ge, lookup_take_ge by lia. done.
Qed.

(** What [rt_kprintf] sends to the console: the text when it has less than 255
    bytes; of a longer one the first 254 bytes, and behind them the terminating
    null of the buffer. *)
Lemma kprintf_filled m log_buf fmt ds args t :
  0 <= log_buf → log_buf + zlen t + zlen ds < 2 ^ 32 - 1 → log_buf + 255 <= 2 ^ 32 →
  zlen t + zlen ds < 2 ^ 31 →
  printf_input m log_buf (Z.min 255 (zlen t + 1)) fmt ds args → render ds args = Some t →
  ∃ m' len, kprintf_fill m log_buf fmt (arg_word <$> args) = Some (m', len) ∧
    written m m' log_buf (take 254 t ++ [0]) ∧
    bytes m' log_buf len = (if bool_decide (zlen t < 255) then t else take 254 t ++ [0]) ∧
    len <= RT_CONSOLEBUF_SIZE - 1.
Proof.
  intros Hbuf Hspace Hend Hr Hin Ht. pose proof (zlen_nonneg t). pose proof (zlen_nonneg ds).
  destruct (vsnprintf_bounded m log_buf (RT_CONSOLEBUF_SIZE - 1) fmt ds args t)
    as (m'&r&Hv&Hw&Hc&Hx); try done.
  unfold kprintf_fill. rewrite Hv. obind. change (RT_CONSOLEBUF_SIZE - 1) with 255 in *.
  rewrite u32_small by mlia. do 2 eexists. split_and!; [done|exact Hw| |case_bool_decide; lia].
  assert (zlen (take (Z.to_nat (255 - 1)) t ++ [0]) = Z.min 254 (zlen t) + 1) as Hlen.
  { unfold zlen. rewrite length_app, length_take. change (length [0]) with 1%nat. lia. }
  rewrite (bytes_written _ _ _ _ _ Hw) by (rewrite Hlen; case_bool_decide; lia).
  change (Z.to_nat (255 - 1)) with 254%nat. unfold zlen in *.
  destruct (bool_decide_reflect (Z.of_nat (length t) < 255)).
  - rewrite Hx by lia. rewrite bool_decide_false by lia.
    rewrite Nat2Z.id, (take_ge t 254), take_app_length by lia. done.
  - apply take_ge. change (Z.to_nat (255 - 1)) with 254%nat in Hlen.
    repeat case_bool_decide; lia.
Qed.

(** ** Numbers read back *)

Lemma written_cstr m m' buf t : written m m' buf (t ++ [0]) → Forall (λ c, c ≠ 0) t →
  cstr m' buf t.
Proof.
  intros Hw Ht. assert (∀ i c, (t ++ [0]) !! i = Some c → m' !! (buf + Z.of_nat i) = Some c) as Hm.
  { intros i c Hi. rewrite Hw. pose proof (lookup_lt_Some _ _ _ Hi).
    rewrite bool_decide_true by (unfold zlen; lia). unfold arr_get.
    rewrite bool_decide_true by lia. by replace (Z.to_nat (buf + Z.of_nat i - buf)) with i by lia. }
  clear Hw. revert buf Hm. induction t as [|c t IH]; intros buf Hm; simpl.
  - rewrite <-(Z.add_0_r buf). by apply (Hm O).
  - apply Forall_cons in Ht as [Hc Ht]. split_and!; [|done|].
    + rewrite <-(Z.add_0_r buf). by apply (Hm O).
    + apply (IH Ht). intros i d Hi. replace (buf + 1 + Z.of_nat i) with (buf + Z.of_nat (S i)) by lia.
      by apply Hm.
Qed.

Definition unsigned_format : list directive := [Conv [] WNone PNone QNone CUnsigned].

Lemma pad_left_0 c s : pad_left 0 c s = s.
Proof.
  unfold pad_left. pose proof (zlen_nonneg s). by replace (Z.to_nat (0 - zlen s)) with O by lia.
Qed.

Lemma render_unsigned v : 0 <= v < 2 ^ 32 →
  render unsigned_format [ANum v] = Some (digit_chars (digits 10 v)).
Proof.
  intros Hv. cbn -[number_text digit_chars digits]. unfold number_text, align, sign_text. simpl.
  rewrite u32_small by done. rewrite bool_decide_false by lia. unfold width. simpl.
  rewrite !pad_left_0, app_nil_r, Z.abs_eq by lia. f_equal.
  destruct (digits_value 10 v) as [Hd _]; [lia..|]. unfold digit_chars.
  apply list_fmap_ext. intros i d Hi. rewrite Forall_lookup in Hd. specialize (Hd i d Hi).
  unfold digit_char. rewrite bool_decide_true by lia. done.
Qed.

(** A number printed with [%u] is read back by [skip_atoi], which stops at the
    terminating null. *)
Theorem printed_number_reads_back m buf fmt v :
  1 < buf < 2 ^ 32 - 12 → 0 <= v < 2 ^ 31 →
  printf_input m buf (zlen (digits 10 v) + 1) fmt unsigned_format [ANum v] →
  ∃ m' n, rt_sprintf m buf fmt [v] = Some (m', n) ∧
    skip_atoi (str_fuel m') m' buf 0 = Some (v, buf + n).
Proof.
  intros Hbuf Hv Hin. destruct (digits_value 10 v) as [Hd Hval]; [lia..|].
  destruct (digits_length 10 v 9) as [_ Hlen]; [lia|change (10 ^ Z.of_nat 10) with 10000000000; lia|].
  assert (zlen (digits 10 v) <= 10) as Hz by (unfold zlen; lia).
  destruct (vsnprintf_unbounded m buf (2 ^ 32 - 1) fmt unsigned_format [ANum v]
    (digit_chars (digits 10 v))) as (m'&Hs&Hw); rewrite ?zlen_digit_chars;
    change (zlen unsigned_format) with 1; try lia; [mlia|done|apply render_unsigned; lia|].
  exists m', (zlen (digits 10 v)). rewrite zlen_digit_chars in Hs. split; [done|].
  assert (cstr m' buf (digit_chars (digits 10 v) ++ [])) as Hc.
  { rewrite app_nil_r. apply (written_cstr m); [done|]. apply Forall_fmap.
    eapply Forall_impl; [exact Hd|]. intros d ?. unfold compose. cbv beta in *. lia. }
  pose proof (cstr_part_fuel _ _ _ _ Hc) as Hfuel. unfold digit_chars in Hfuel at 1.
  rewrite length_fmap in Hfuel. unfold value in Hval.
  destruct (skip_atoi_spec (str_fuel m') m' buf 0 (digits 10 v) []) as [-> _]; try done;
    [lia|by rewrite Hval].
Qed.

(** ** Example *)

(** The format "%-4d%+06x%s" at 0x100, the string "ok" at 0x120, a buffer of 300
    bytes at 0x200. *)
Definition demo_format : list directive :=
  [Conv [FLeft] (WNum [4]) PNone QNone CDecimal;
   Conv [FPlus; FZero] (WNum [6]) PNone QLong CDecimal; Lit 46;
   Conv [] WNone (PNum [1]) QNone CString].
Definition demo_args : list farg := [ANum 4294967254; ANum 17; AText 0x120 [111; 107]].
Definition demo_mem : mem :=
  mem_of 0x100 (format demo_format ++ [0]) ∪ mem_of 0x120 [111; 107; 0] ∪
  mem_of 0x200 (replicate 300 0xaa).
(** "-42 +00017.o" *)
Definition demo_text : list Z := [45; 52; 50; 32; 43; 48; 48; 48; 49; 55; 46; 111].

Lemma demo_input k : 0 <= k <= 300 → printf_input demo_mem 0x200 k 0x100 demo_format demo_args.
Proof.
  intros Hk. split.
  - apply (bool_decide_unpack (Forall wf demo_format)). vm_compute. reflexivity.
  - repeat split; vm_compute; congruence.
  - left. vm_compute. congruence.
  - constructor; [exact I|]. constructor; [exact I|]. constructor; [|constructor].
    split_and!; [lia|repeat constructor; lia|repeat split; vm_compute; congruence|].
    left. vm_compute. congruence.
  - apply (mapped_sub _ 0x200 300); [|lia..].
    apply (mappedb_mapped _ _ 300). vm_compute. reflexivity.
Qed.

Lemma demo_render : render demo_format demo_args = Some demo_text.
Proof. vm_compute. reflexivity. Qed.


Lemma rt_sprintf_correct_witness :
  rt_snprintf demo_mem 0x200 0 0x100 (arg_word <$> demo_args) =
  rt_sprintf demo_mem 0x200 0x100 (arg_word <$> demo_args) ∧
  ∃ m', rt_sprintf demo_mem 0x200 0x100 (arg_word <$> demo_args) = Some (m', 12) ∧
    written demo_mem m' 0x200 (demo_text ++ [0]).
Proof.
  apply (rt_sprintf_correct demo_mem 0x200 0x100 demo_format demo_args demo_text);
    [lia|vm_compute; reflexivity|vm_compute; reflexivity| |apply demo_render].
  apply demo_input. vm_compute. split; congruence.
Defined.

Definition number_mem : mem := mem_of 0x100 [37; 117; 0] ∪ mem_of 0x200 (replicate 12 0xaa).

Lemma printed_number_reads_back_witness : ∃ m' n,
  rt_sprintf number_mem 0x200 0x100 [1234567] = Some (m', n) ∧
  skip_atoi (str_fuel m') m' 0x200 0 = Some (1234567, 0x200 + n).
Proof.
  apply (printed_number_reads_back number_mem 0x200 0x100 1234567); [lia..|]. split.
  - apply (bool_decide_unpack (Forall wf unsigned_format)). vm_compute. reflexivity.
  - repeat split; vm_compute; congruence.
  - left. vm_compute. congruence.
  - constructor; [exact I|constructor].
  - apply (mappedb_mapped _ _ 8). vm_compute. reflexivity.
Defined.
