(* ===== verification/KFloat.v ===== *)
(** * Floating-point output (src/kservice.c)

    [flt], to which the conversions E, G, e, f and g of [rt_vsnprintf] hand over,
    and the functions it calls, over the byte memory of [KString] and the
    double-precision numbers of the Standard Library's [SpecFloat].

    The local arrays are regions of the memory, at the addresses of a [frame]; a
    write beyond the end of one goes on behind it.  A conversion of a number to an
    [int] that it does not fit, which C leaves undefined, and a division by zero
    are [None]; so is a loop that does not end. *)

From Stdlib Require Import SpecFloat.
From S2P Require Import Prelude KString KPrint.

(** ** Numbers *)

Definition double : Type := spec_float.

Definition dmul : double → double → double := SFmul 53 1024.
Definition dadd : double → double → double := SFadd 53 1024.
Definition dsub : double → double → double := SFsub 53 1024.

(** [(double)z] *)
Definition of_int (z : Z) : double := binary_normalize 53 1024 z 0 false.

(** [(int)d] *)
Definition to_int (d : double) : option Z :=
  match d with
  | S754_zero _ => Some 0
  | S754_finite s m e =>
      let a := if bool_decide (0 <= e) then Z.pos m * 2 ^ e else Z.pos m / 2 ^ (- e) in
      let z := if s then - a else a in
      if bool_decide (- 2 ^ 31 <= z < 2 ^ 31) then Some z else None
  | _ => None
  end.

(** The constants 0.1, 0.5, 1.0, 5.0, 10.0 and 1e-307. *)
Definition d_tenth : double := S754_finite false 7205759403792794 (-56).
Definition d_half : double := S754_finite false 4503599627370496 (-53).
Definition d_one : double := S754_finite false 4503599627370496 (-52).
Definition d_five : double := S754_finite false 5629499534213120 (-50).
Definition d_ten : double := S754_finite false 5629499534213120 (-49).
Definition DOUBLE_ZERO : double := S754_finite false 5060056332682765 (-1072).

Definition IS_DOUBLE_ZERO (d : double) : bool :=
  SFleb d DOUBLE_ZERO && SFleb (SFopp DOUBLE_ZERO) d.

Definition is_negative (d : double) : bool := SFltb d (S754_zero false).

(** ** Text *)

(** [*p++ = c] *)
Definition emit (c : Z) (o : output) : option output :=
  m ← store o.1 o.2 c; Some (m, o.2 + 1).

Fixpoint emit_list (cs : list Z) (o : output) : option output :=
  match cs with
  | [] => Some o
  | c :: cs => o ← emit c o; emit_list cs o
  end.

(** [memcpy] of the C library: a negative count is a huge one. *)
Fixpoint memcpy_loop (n : nat) (m : mem) (dst src : Z) : option mem :=
  match n with
  | O => Some m
  | S n => c ← load m src; m ← store m dst c; memcpy_loop n m (dst + 1) (src + 1)
  end.
Definition memcpy (m : mem) (dst src n : Z) : option mem :=
  if bool_decide (0 <= n) then memcpy_loop (Z.to_nat n) m dst src else None.

Definition is_digit (c : Z) : bool := bool_decide (48 <= c <= 57).
Definition is_space (ch : Z) : bool := bool_decide (u32 (ch - 9) < 5) || bool_decide (ch = 32).

Fixpoint skip_spaces (fuel : nat) (m : mem) (p : Z) : option Z :=
  match fuel with
  | O => None
  | S fuel => c ← load m p; if is_space c then skip_spaces fuel m (p + 1) else Some p
  end.

Fixpoint atoi_digits (fuel : nat) (m : mem) (p n : Z) : option Z :=
  match fuel with
  | O => None
  | S fuel =>
      c ← load m p;
      if is_digit c then atoi_digits fuel m (p + 1) (s32 (10 * n + (c - 48))) else Some n
  end.

Definition atoi (m : mem) (str : Z) : option Z :=
  p ← skip_spaces (str_fuel m) m str;
  c ← load m p;
  let sign := if bool_decide (c = 45) then -1 else 1 in
  let p := if bool_decide (c = 43 ∨ c = 45) then p + 1 else p in
  n ← atoi_digits (str_fuel m) m p 0;
  Some (s32 (sign * n)).

(** [while (n / i) i *= 10;] *)
Fixpoint itoa_scale (fuel : nat) (n i : Z) : option Z :=
  match fuel with
  | O => None
  | S fuel =>
      if bool_decide (i = 0) then None
      else if bool_decide (Z.quot n i = 0) then Some i
      else itoa_scale fuel n (s32 (i * 10))
  end.

(** [while (i /= 10) { *pch++ = n / i + '0'; n %= i; }] *)
Fixpoint itoa_digits (fuel : nat) (n i : Z) (o : output) : option output :=
  match fuel with
  | O => None
  | S fuel =>
      let i := Z.quot i 10 in
      if bool_decide (i = 0) then Some o else
      o ← emit (Z.quot n i + 48) o; itoa_digits fuel (Z.rem n i) i o
  end.

(** An [int] has at most 11 rounds in either loop; 33 multiplications by ten make
    any [int] zero. *)
Definition itoa (n : Z) (m : mem) (chBuffer : Z) : option mem :=
  if bool_decide (chBuffer = 0) then Some m else
  i ← itoa_scale 40 n 1;
  '(n, o) ← (if bool_decide (n < 0) then o ← emit 45 (m, chBuffer); Some (s32 (- n), o)
             else Some (n, (m, chBuffer)));
  let i := if bool_decide (n = 0) then 10 else i in
  o ← itoa_digits 40 n i o;
  o ← emit 0 o;
  Some o.1.

(** ** Digits of a number *)

Fixpoint scale_up (fuel : nat) (v : double) (exp : Z) : option (double * Z) :=
  match fuel with
  | O => None
  | S fuel => if SFltb v d_one then scale_up fuel (dmul v d_ten) (exp - 1) else Some (v, exp)
  end.
Fixpoint scale_down (fuel : nat) (v : double) (exp : Z) : option (double * Z) :=
  match fuel with
  | O => None
  | S fuel => if SFleb d_ten v then scale_down fuel (dmul v d_tenth) (exp + 1) else Some (v, exp)
  end.

(** The two loops that bring a number between 1 and 10.  A finite number has less
    than 400 rounds. *)
Definition get_exponent (v : double) : option (double * Z) :=
  '(v, exp) ← scale_up 400 v 0; scale_down 400 v exp.

Fixpoint times (n : nat) (f v : double) : double :=
  match n with O => v | S n => times n f (dmul v f) end.

(** The digits of the mantissa, from [i] down to 0. *)
Fixpoint ftoaE_digits (n : nat) (i dppos : Z) (value : double) (o : output) : option output :=
  match n with
  | O => Some o
  | S n =>
      z ← to_int value;
      let digit := Z.rem z 10 in
      o ← emit (digit + 48) o;
      o ← (if bool_decide (i = dppos) then emit 46 o else Some o);
      ftoaE_digits n (i - 1) dppos (dmul (dsub value (of_int digit)) d_ten) o
  end.

Definition ftoaE (m : mem) (pchBuffer dppos : Z) (value : double) : option mem :=
  if bool_decide (pchBuffer = 0) then Some m else
  '(value, o) ← (if is_negative value then o ← emit 45 (m, pchBuffer); Some (SFopp value, o)
                 else o ← emit 43 (m, pchBuffer); Some (value, o));
  '(value, exp) ← (if IS_DOUBLE_ZERO value then Some (value, 0) else
                     '(_, exp) ← get_exponent value;
                     let roundingPos := if bool_decide (dppos < 0) then 0 else dppos in
                     let roundingValue := times (Z.to_nat (roundingPos - exp)) d_tenth d_half in
                     get_exponent (dadd value roundingValue));
  let i := if bool_decide (dppos < 0) then 1 else dppos in
  o ← ftoaE_digits (Z.to_nat (i + 1)) i dppos value o;
  o ← emit 69 o;
  itoa exp o.1 o.2.

Definition MAX_DIGITS : Z := 15.

Fixpoint ftoa_digits (n : nat) (dValue dRound : double) (m : mem) (pch : Z) : option mem :=
  match n with
  | O => Some m
  | S n =>
      let dValue := dmul (dadd dValue dRound) d_ten in
      z ← to_int dValue;
      m ← itoa z m pch;
      len ← rt_strlen m pch;
      ftoa_digits n (dsub dValue (of_int z)) dRound m (pch + len)
  end.

Definition ftoa (dValue : double) (m : mem) (chBuffer : Z) : option mem :=
  if bool_decide (chBuffer = 0) then Some m else
  if IS_DOUBLE_ZERO dValue then
    o ← emit_list [48; 0] (m, chBuffer); Some o.1
  else
    '(dValue, o) ← (if is_negative dValue then o ← emit 45 (m, chBuffer); Some (SFopp dValue, o)
                    else o ← emit 43 (m, chBuffer); Some (dValue, o));
    z ← to_int dValue;
    m ← itoa z o.1 o.2;
    len ← rt_strlen m o.2;
    let ucLen := u8 len in
    o ← emit 46 (m, o.2 + ucLen);
    ftoa_digits (Z.to_nat (u8 (MAX_DIGITS - ucLen))) (dsub dValue (of_int z))
      (times (Z.to_nat MAX_DIGITS) d_tenth d_five) o.1 o.2.

(** ** Rounding a digit string *)

(** [do { sum = *p + carry; carry = sum > '9'; *p-- = sum - carry * 10; }
     while (carry && p >= numbuf);] with the last carry and [p]. *)
Fixpoint round_loop (fuel : nat) (m : mem) (numbuf p : Z) : option (mem * bool * Z) :=
  match fuel with
  | O => None
  | S fuel =>
      c ← load m p;
      let sum := c + 1 in
      let carry := bool_decide (sum > 57) in
      m ← store m p (if carry then sum - 10 else sum);
      if carry && bool_decide (p - 1 >= numbuf) then round_loop fuel m numbuf (p - 1)
      else Some (m, carry, p - 1)
  end.

(** The memory and the new [*decpt]. *)
Definition __ecvround (m : mem) (numbuf last_digit after_last decpt : Z) : option (mem * Z) :=
  c ← load m after_last;
  if bool_decide (c > 52) then
    '(m, carry, p) ← round_loop (S (Z.to_nat (last_digit - numbuf + 1))) m numbuf last_digit;
    if carry && bool_decide (p = numbuf) then m ← store m p 49; Some (m, decpt + 1)
    else Some (m, decpt)
  else Some (m, decpt).

(** ** Decimal conversion *)

(** The local arrays: [chBuffer] of [ecvtbuf] and of [fcvtbuf], 20 bytes each, and
    [cvtbuf] of [cfltcvt] and [tmp] of [flt], 80 bytes each. *)
Record frame : Type := Frame {
  f_ecvtbuf : Z;
  f_fcvtbuf : Z;
  f_cfltcvt : Z;
  f_flt : Z;
}.

(** [strncmp(s, text, n) == 0] for the [n] bytes of a constant. *)
Fixpoint starts_with (m : mem) (s : Z) (text : list Z) : option bool :=
  match text with
  | [] => Some true
  | c :: text => b ← load m s; if bool_decide (b = c) then starts_with m (s + 1) text else Some false
  end.

Definition INFINITY_text : list Z := [73; 110; 102; 105; 110; 105; 116; 121; 0].
Definition put_infinity (m : mem) (buf ndigits : Z) : option mem :=
  o ← emit_list (take (if bool_decide (ndigits >= 8) then 9 else 3) INFINITY_text) (m, buf);
  if bool_decide (ndigits < 8) then store o.1 (buf + 3) 0 else Some o.1.

(** [while ( *s && *s != stop && d - buf < ndigits) *d++ = *s++;] *)
Fixpoint copy_until (fuel : nat) (stop buf ndigits : Z) (m : mem) (d s : Z) : option (mem * Z * Z) :=
  match fuel with
  | O => None
  | S fuel =>
      c ← load m s;
      if bool_decide (c ≠ 0 ∧ c ≠ stop ∧ d - buf < ndigits) then
        m ← store m d c; copy_until fuel stop buf ndigits m (d + 1) (s + 1)
      else Some (m, d, s)
  end.

(** [while ( *s && *s++ != 'E');] *)
Fixpoint past_exponent (fuel : nat) (m : mem) (s : Z) : option Z :=
  match fuel with
  | O => None
  | S fuel =>
      c ← load m s;
      if bool_decide (c = 0) then Some s
      else if bool_decide (c = 69) then Some (s + 1) else past_exponent fuel m (s + 1)
  end.

Section conversion.
Context (fr : frame).

(** The memory, [*decpt] and [*sign]. *)
Definition ecvtbuf (m : mem) (value : double) (ndigits buf : Z) : option (mem * Z * bool) :=
  let ndigits := if bool_decide (ndigits > 15) then 15 else ndigits in
  let s := f_ecvtbuf fr in
  o ← emit_list (replicate 20 0) (m, s);
  m ← ftoaE o.1 s (ndigits + 2) value;
  c ← load m s;
  let sign := bool_decide (c = 61) in
  let s := s + 1 in
  inf ← starts_with m s [73; 110; 102];
  nan ← starts_with m s [78; 97; 78; 0];
  if (inf : bool) then m ← put_infinity m buf ndigits; Some (m, 0, sign)
  else if (nan : bool) then m ← memcpy m buf s 4; Some (m, 0, sign)
  else
    '(m, d, s) ← copy_until (str_fuel m) 46 buf ndigits m buf s;
    let decpt := d - buf in
    c ← load m s;
    let s := if bool_decide (c ≠ 0) then s + 1 else s in
    '(m, d, s) ← copy_until (str_fuel m) 69 buf ndigits m d s;
    let last_digit := if bool_decide (d > buf) then d - 1 else d in
    let digit_after_last := s in
    s ← past_exponent (str_fuel m) m s;
    e ← atoi m s;
    let decpt := decpt + e in
    o ← emit_list (replicate (Z.to_nat (ndigits - (d - buf))) 48) (m, d);
    m ← store o.1 o.2 0;
    '(m, decpt) ← __ecvround m buf last_digit digit_after_last decpt;
    Some (m, decpt, sign).

(** The first place of [c] or the end of the string. *)
Fixpoint find_char (fuel : nat) (m : mem) (c s : Z) : option Z :=
  match fuel with
  | O => None
  | S fuel =>
      b ← load m s;
      if bool_decide (b = c ∨ b = 0) then Some s else find_char fuel m c (s + 1)
  end.

(** [*decpt] is the place of the point or, without one, the length. *)
Definition fcvtbuf (m : mem) (value : double) (ndigits buf : Z) : option (mem * Z * bool) :=
  m ← ftoa value m (f_fcvtbuf fr);
  c ← load m (f_fcvtbuf fr);
  let sign := bool_decide (c = 45) in
  let s := f_fcvtbuf fr + 1 in
  dot ← find_char (str_fuel m) m 46 s;
  let decpt := dot - s in
  inf ← starts_with m s [73; 110; 102];
  c ← load m s;
  if (inf : bool) then m ← put_infinity m buf ndigits; Some (m, decpt, sign)
  else if bool_decide (ndigits < 0) then ecvtbuf m value (decpt + ndigits) buf
  else if bool_decide (c = 48) && negb (IS_DOUBLE_ZERO value) then ecvtbuf m value ndigits buf
  else
    m ← memcpy m buf s decpt;
    c ← load m (s + decpt);
    m ← (if bool_decide (c = 46) then
           m ← memcpy m (buf + decpt) (s + decpt + 1) ndigits;
           store m (buf + decpt + ndigits) 0
         else store m (buf + decpt) 0);
    '(m, decpt) ← __ecvround m buf (buf + decpt + ndigits - 1) (s + decpt + ndigits + 1) decpt;
    Some (m, decpt, sign).

(** ** Formats *)

(** The digits with the point in front of the one at [decpt]. *)
Fixpoint put_pointed (fuel : nat) (digits pos decpt : Z) (o : output) : option output :=
  match fuel with
  | O => None
  | S fuel =>
      c ← load o.1 digits;
      if bool_decide (c = 0) then Some o else
      o ← (if bool_decide (pos = decpt) then emit 46 o else Some o);
      o ← emit c o;
      put_pointed fuel (digits + 1) (pos + 1) decpt o
  end.

(** The format e. *)
Definition put_scientific (m : mem) (value : double) (buffer precision : Z) (capexp : bool)
    : option output :=
  let digits := f_cfltcvt fr in
  '(m, decpt, sign) ← ecvtbuf m value (precision + 1) digits;
  o ← (if (sign : bool) then emit 45 (m, buffer) else Some (m, buffer));
  c ← load o.1 digits;
  o ← emit c o;
  o ← (if bool_decide (precision > 0) then emit 46 o else Some o);
  m ← memcpy o.1 o.2 (digits + 1) precision;
  o ← emit (if capexp then 69 else 101) (m, o.2 + precision);
  let exp := if bool_decide (decpt = 0) then (if IS_DOUBLE_ZERO value then 0 else -1)
             else decpt - 1 in
  o ← emit (if bool_decide (exp < 0) then 45 else 43) o;
  let exp := Z.abs exp in
  m ← store o.1 (o.2 + 2) (Z.rem exp 10 + 48);
  let exp := Z.quot exp 10 in
  m ← store m (o.2 + 1) (Z.rem exp 10 + 48);
  let exp := Z.quot exp 10 in
  m ← store m o.2 (Z.rem exp 10 + 48);
  Some (m, o.2 + 3).

(** The format f. *)
Definition put_fixed (m : mem) (value : double) (buffer precision : Z) : option output :=
  let digits := f_cfltcvt fr in
  '(m, decpt, sign) ← fcvtbuf m value precision digits;
  o ← (if (sign : bool) then emit 45 (m, buffer) else Some (m, buffer));
  c ← load o.1 digits;
  if bool_decide (c ≠ 0) then
    if bool_decide (decpt <= 0) then
      o ← emit_list ([48; 46] ++ replicate (Z.to_nat (- decpt)) 48) o;
      put_pointed (str_fuel o.1) digits 0 (-1) o
    else put_pointed (str_fuel o.1) digits 0 decpt o
  else
    o ← emit 48 o;
    if bool_decide (precision > 0) then emit_list (46 :: replicate (Z.to_nat precision) 48) o
    else Some o.

Definition cfltcvt (m : mem) (value : double) (buffer fmt precision : Z) : option mem :=
  let capexp := bool_decide (fmt = 71 ∨ fmt = 69) in
  let fmt := if capexp then fmt + 32 else fmt in
  '(m, fmt, precision) ←
    (if bool_decide (fmt = 103) then
       '(m, decpt, _) ← ecvtbuf m value precision (f_cfltcvt fr);
       let magnitude := decpt - 1 in
       if bool_decide (magnitude < -4 ∨ magnitude > precision - 1) then Some (m, 101, precision - 1)
       else Some (m, 102, precision - decpt)
     else Some (m, fmt, precision));
  o ← (if bool_decide (fmt = 101) then put_scientific m value buffer precision capexp
       else if bool_decide (fmt = 102) then put_fixed m value buffer precision
       else Some (m, buffer));
  store o.1 o.2 0.

(** The first point, exponent mark or the end. *)
Fixpoint find_point (fuel : nat) (m : mem) (s : Z) : option Z :=
  match fuel with
  | O => None
  | S fuel =>
      c ← load m s;
      if bool_decide (c = 0 ∨ c = 46 ∨ c = 101 ∨ c = 69) then Some s else find_point fuel m (s + 1)
  end.

(** [while (n > 0) { buffer[n + 1] = buffer[n]; n--; }] *)
Fixpoint shift_right (n : nat) (m : mem) (buffer : Z) : option mem :=
  match n with
  | O => Some m
  | S n' =>
      c ← load m (buffer + Z.of_nat n); m ← store m (buffer + Z.of_nat n + 1) c;
      shift_right n' m buffer
  end.

Definition forcdecpt (m : mem) (buffer : Z) : option mem :=
  p ← find_point (str_fuel m) m buffer;
  c ← load m p;
  if bool_decide (c = 46) then Some m
  else if bool_decide (c ≠ 0) then
    n ← rt_strlen m p;
    m ← shift_right (Z.to_nat n) m p;
    store m p 46
  else
    m ← store m p 46;
    store m (p + 1) 0.

(** [while ('0' == *buffer) buffer--;] *)
Fixpoint back_zeros (fuel : nat) (m : mem) (s : Z) : option Z :=
  match fuel with
  | O => None
  | S fuel => c ← load m s; if bool_decide (c = 48) then back_zeros fuel m (s - 1) else Some s
  end.

(** [while ( *++buffer = *stop++);] *)
Fixpoint copy_string (fuel : nat) (m : mem) (dst src : Z) : option mem :=
  match fuel with
  | O => None
  | S fuel =>
      c ← load m src; m ← store m dst c;
      if bool_decide (c = 0) then Some m else copy_string fuel m (dst + 1) (src + 1)
  end.

Fixpoint find_exponent (fuel : nat) (m : mem) (s : Z) : option Z :=
  match fuel with
  | O => None
  | S fuel =>
      c ← load m s;
      if bool_decide (c = 0 ∨ c = 101 ∨ c = 69) then Some s else find_exponent fuel m (s + 1)
  end.

Definition cropzeros (m : mem) (buffer : Z) : option mem :=
  p ← find_char (str_fuel m) m 46 buffer;
  c ← load m p;
  if bool_decide (c ≠ 0) then
    stop ← find_exponent (str_fuel m) m (p + 1);
    q ← back_zeros (str_fuel m) m (stop - 1);
    c ← load m q;
    let q := if bool_decide (c = 46) then q - 1 else q in
    copy_string (str_fuel m) m (q + 1) stop
  else Some m.

(** The sign of [flt], the number and the size left. *)
Definition flt_sign (flags : Z) (num : double) (size : Z) : Z * double * Z :=
  if flag flags SIGN then
    if is_negative num then (45, SFopp num, size - 1)
    else if flag flags PLUS then (43, num, size - 1)
    else if flag flags SPACE then (32, num, size - 1)
    else (0, num, size)
  else (0, num, size).

(** [while (size-- > 0) *str++ = c;] *)
Definition emit_while (c size : Z) (o : output) : option (output * Z) :=
  o ← emit_list (replicate (Z.to_nat size) c) o; Some (o, Z.min size 0 - 1).

(** [for (i = 0; i < n; i++) *str++ = tmp[i];] *)
Fixpoint emit_text (n : nat) (tmp : Z) (o : output) : option output :=
  match n with
  | O => Some o
  | S n => c ← load o.1 tmp; o ← emit c o; emit_text n (tmp + 1) o
  end.

(** The second half of [flt]: the text of [tmp] with its sign and padding. *)
Definition put_flt (flags c sign size n : Z) (o : output) : option output :=
  let size := size - n in
  '(o, size) ← (if flag flags (Z.lor ZEROPAD LEFT) then Some (o, size) else emit_while 32 size o);
  o ← (if bool_decide (sign ≠ 0) then emit sign o else Some o);
  '(o, size) ← (if flag flags LEFT then Some (o, size) else emit_while c size o);
  o ← emit_text (Z.to_nat n) (f_flt fr) o;
  '(o, size) ← emit_while 32 size o;
  Some o.

Definition flt (str : Z) (num : double) (size precision fmt flags : Z) (m : mem) : option output :=
  let flags := if flag flags LEFT then Z.land flags (Z.lnot ZEROPAD) else flags in
  let c := if flag flags ZEROPAD then 48 else 32 in
  let '(sign, num, size) := flt_sign flags num size in
  let precision := if bool_decide (precision < 0) then 6
                   else if bool_decide (precision = 0 ∧ fmt = 103) then 1 else precision in
  m ← cfltcvt m num (f_flt fr) fmt precision;
  m ← (if flag flags SPECIAL && bool_decide (precision = 0) then forcdecpt m (f_flt fr) else Some m);
  m ← (if bool_decide (fmt = 103) && negb (flag flags SPECIAL) then cropzeros m (f_flt fr) else Some m);
  n ← rt_strlen m (f_flt fr);
  put_flt flags c sign size n (m, str).

End conversion.
