(* ===== verification/KFloatProof.v ===== *)
(** * Floating-point output: digits

    [__ecvround] rounds a string of digits up, except for one of nines only, whose
    carry is lost; [atoi] reads back what [itoa] writes; and what these make of
    some numbers. *)

From Stdlib Require Import SpecFloat.
From S2P Require Import Prelude KString KPrint KPrintSpec KPrintProof KPrintFormat KFloat.

(** ** Rounding *)

(** A string of digits is given from its last one: the byte at [p - i]. *)
Definition digits_down (m : mem) (p : Z) (r : list Z) : Prop :=
  ∀ i c, r !! i = Some c → m !! (p - Z.of_nat i) = Some c.

Fixpoint number (r : list Z) : Z :=
  match r with [] => 0 | c :: r => c - 48 + 10 * number r end.

(** One more, and whether there is a carry at the end. *)
Fixpoint next_number (r : list Z) : bool * list Z :=
  match r with
  | [] => (true, [])
  | c :: r => if bool_decide (c + 1 > 57) then let '(carry, r) := next_number r in (carry, c - 9 :: r)
              else (false, c + 1 :: r)
  end.

Definition is_decimal (c : Z) : Prop := 48 <= c <= 57.

Lemma next_number_value r : Forall is_decimal r →
  number (next_number r).2 + (if (next_number r).1 then 10 ^ zlen r else 0) = number r + 1 ∧
  length (next_number r).2 = length r ∧ Forall is_decimal (next_number r).2.
Proof.
  unfold is_decimal. induction 1 as [|c r Hc Hr (IH1&IH2&IH3)]; cbn [next_number number]; [done|].
  rewrite zlen_cons, Z.pow_add_r by (pose proof (zlen_nonneg r); lia). case_bool_decide.
  - destruct (next_number r) as [[] r']; cbn in *; split_and!; [lia|lia| |lia|lia|];
      (constructor; [lia|done]).
  - cbn. split_and!; [lia|done|]. constructor; [lia|done].
Qed.

(** The carry goes beyond nines only. *)
Lemma next_number_nines r : Forall is_decimal r →
  (next_number r).1 = true ↔ r = replicate (length r) 57.
Proof.
  unfold is_decimal. induction 1 as [|c r Hc Hr IH]; cbn [next_number length replicate]; [done|].
  case_bool_decide.
  - assert (c = 57) as -> by lia. destruct (next_number r) as [b r']; cbn in *. rewrite IH.
    split; [by intros <-|]. intros [= E]. done.
  - cbn. split; [done|]. intros [= -> _]. lia.
Qed.

Lemma number_bounds r : Forall is_decimal r → 0 <= number r < 10 ^ zlen r.
Proof.
  unfold is_decimal. induction 1; cbn [number]; [done|].
  rewrite zlen_cons, Z.pow_add_r by (pose proof (zlen_nonneg l); lia). lia.
Qed.

Lemma next_number_range r : Forall is_decimal r →
  number (next_number r).2 = (number r + 1) mod 10 ^ zlen r.
Proof.
  intros Hd. destruct (next_number_value r Hd) as (Hv&Hl&Hd'). pose proof (number_bounds _ Hd') as Hb.
  replace (zlen (next_number r).2) with (zlen r) in Hb by (unfold zlen; lia). rewrite <- Hv.
  destruct (next_number r).1; [|by rewrite Z.add_0_r, Z.mod_small].
  rewrite <- (Z.mul_1_l (10 ^ zlen r)) at 1. rewrite Z.mod_add, Z.mod_small by lia. done.
Qed.

Lemma next_number_zeros r n : r = replicate n 57 → (next_number r).2 = replicate n 48.
Proof.
  intros ->. induction n as [|n IH]; [done|]. cbn. destruct (next_number _). cbn in *. by rewrite IH.
Qed.

Lemma round_loop_spec r : ∀ fuel m numbuf p, r ≠ [] → p = numbuf + zlen r - 1 →
  (length r <= fuel)%nat → Forall is_decimal r → digits_down m p r →
  ∃ m' p', round_loop fuel m numbuf p = Some (m', (next_number r).1, p') ∧
    ((next_number r).1 = true → p' = numbuf - 1) ∧
    ∀ x, m' !! x = if bool_decide (numbuf <= x <= p) then (next_number r).2 !! Z.to_nat (p - x)
                   else m !! x.
Proof.
  induction r as [|c r IH]; intros [|fuel] m numbuf p Hne Hp Hf Hd Hm; [done..|cbn in Hf; lia|].
  apply Forall_cons in Hd as [Hc Hd]. unfold is_decimal in Hc. pose proof (Hm O c eq_refl) as H0.
  rewrite Z.sub_0_r in H0. cbn [round_loop]. unfold load, store. rewrite H0. obind.
  rewrite zlen_cons in Hp. pose proof (zlen_nonneg r). cbn [next_number].
  case_bool_decide as Hcarry; cbn [andb]; rewrite u8_small by (unfold in_u8; lia).
  - case_bool_decide as Hmore.
    + destruct (IH fuel (<[p := c + 1 - 10]> m) numbuf (p - 1)) as (m'&p'&E&Hp'&Hx).
      * intros ->. change (zlen (@nil Z)) with 0 in *. lia.
      * lia.
      * cbn in Hf. lia.
      * done.
      * intros i d Hi. rewrite lookup_insert_ne by lia. specialize (Hm (S i) d Hi).
        rewrite <- Hm. f_equal. lia.
      * rewrite E. destruct (next_number r) as [b r'] eqn:En; cbn [fst snd] in *. exists m', p'.
        split_and!; [done..|]. intros x. rewrite Hx. destruct (decide (x = p)) as [->|].
        -- rewrite (bool_decide_false (numbuf <= p <= p - 1)) by lia.
           rewrite bool_decide_true, Z.sub_diag by lia. rewrite lookup_insert_eq. apply (f_equal Some). lia.
        -- rewrite lookup_insert_ne by done. case_bool_decide; case_bool_decide; try lia; [|done].
           replace (Z.to_nat (p - x)) with (S (Z.to_nat (p - 1 - x))) by lia. done.
    + assert (r = []) as -> by (destruct r; [done|rewrite zlen_cons in *; pose proof (zlen_nonneg r); lia]).
      change (zlen (@nil Z)) with 0 in *. cbn [next_number]. do 2 eexists. split_and!; [done|lia|]. intros x. destruct (decide (x = p)) as [->|].
      * rewrite bool_decide_true, Z.sub_diag, lookup_insert_eq by lia. apply (f_equal Some). lia.
      * rewrite lookup_insert_ne, bool_decide_false by lia. done.
  - do 2 eexists. split_and!; [done|done|]. intros x. destruct (decide (x = p)) as [->|].
    + rewrite bool_decide_true, Z.sub_diag, lookup_insert_eq by lia. done.
    + rewrite lookup_insert_ne by done. case_bool_decide; [|done].
      replace (Z.to_nat (p - x)) with (S (Z.to_nat (p - 1 - x))) by lia.
      destruct (lookup_lt_is_Some_2 r (Z.to_nat (p - 1 - x))) as [d Ed].
      { unfold zlen in *. lia. }
      transitivity (Some d); [|by symmetry].
      rewrite <- (Hm (S (Z.to_nat (p - 1 - x))) d Ed). f_equal. lia.
Qed.

(** The digits between two places, from the last one. *)
Definition digits_at (m : mem) (numbuf last_digit : Z) (r : list Z) : Prop :=
  last_digit = numbuf + zlen r - 1 ∧ r ≠ [] ∧ Forall is_decimal r ∧ digits_down m last_digit r.

(** [__ecvround] leaves the digits between [numbuf] and [last_digit] as they are
    when the digit after the last one is at most 4.  Otherwise it replaces them with
    those of the next number, in as many places; when that needs one more place, which
    is so exactly for a string of nines, the digits become zeros and the leading 1 is
    lost.  The point is never moved, and no other byte changes. *)
Theorem ecvround_correct m numbuf last_digit after_last decpt r c :
  digits_at m numbuf last_digit r → m !! after_last = Some c →
  ∃ m' r', __ecvround m numbuf last_digit after_last decpt = Some (m', decpt) ∧
    digits_at m' numbuf last_digit r' ∧ length r' = length r ∧
    (∀ x, ¬ numbuf <= x <= last_digit → m' !! x = m !! x) ∧
    (c <= 52 → r' = r) ∧
    (c > 52 → number r' = (number r + 1) mod 10 ^ zlen r) ∧
    (c > 52 → r = replicate (length r) 57 → r' = replicate (length r) 48).
Proof.
  intros (Hl&Hne&Hd&Hm) Hc. unfold __ecvround, load. rewrite Hc. obind. case_bool_decide as H5.
  2: { exists m, r. split_and!; try done; lia. }
  destruct (round_loop_spec r (S (Z.to_nat (last_digit - numbuf + 1))) m numbuf last_digit)
    as (m'&p'&E&Hp'&Hx); [done..|unfold zlen in *; lia|done|done|].
  rewrite E. obind. pose proof (next_number_range r Hd) as Hmod.
  pose proof (next_number_value r Hd) as (_&Hlen&Hd').
  exists m', (next_number r).2. split_and!; try done; try lia.
  - destruct (next_number r).1; [|done]. rewrite (Hp' eq_refl), bool_decide_false by lia. done.
  - split_and!; [unfold zlen in *; lia| |done|].
    + intros Hn. rewrite Hn in Hlen. destruct r; done.
    + intros i d Hi. apply lookup_lt_Some in Hi as Hi'.
      rewrite Hx, bool_decide_true by (unfold zlen in *; lia). rewrite <- Hi. f_equal. lia.
  - intros x Hno. rewrite Hx, bool_decide_false by done. done.
  - intros _ ->%next_number_zeros. done.
Qed.

(** The nines of 99, followed by a 5, become 00. *)
Lemma ecvround_correct_witness :
  let m : mem := list_to_map [(100, 57); (101, 57); (102, 53)] in
  ∃ m' r', __ecvround m 100 101 102 2 = Some (m', 2) ∧ digits_at m' 100 101 r' ∧ r' = [48; 48].
Proof.
  intros m. destruct (ecvround_correct m 100 101 102 2 [57; 57] 53) as (m'&r'&E&Hd&_&_&_&_&H0).
  - split_and!; [reflexivity|discriminate|repeat constructor; discriminate|].
    intros [|[|i]] c; cbn; intros [= <-]; vm_compute; reflexivity.
  - vm_compute; reflexivity.
  - exists m', r'. split_and!; [exact E|exact Hd|]. apply H0; [reflexivity|reflexivity].
Defined.

(** ** Numbers written and read *)

Lemma emit_list_app s t o : emit_list (s ++ t) o = (o ← emit_list s o; emit_list t o).
Proof. revert o. induction s; intros o; cbn; [done|]. destruct (emit _ o); [|done]. cbn. done. Qed.

(** Where there is room the bytes are written one after the other. *)
Lemma emit_list_spec t : ∀ m p, mapped m p (zlen t) → Forall in_u8 t →
  ∃ m', emit_list t (m, p) = Some (m', p + zlen t) ∧
    (∀ i c, t !! i = Some c → m' !! (p + Z.of_nat i) = Some c) ∧
    ∀ x, ¬ p <= x < p + zlen t → m' !! x = m !! x.
Proof.
  induction t as [|c t IH]; intros m p Hm Ht; cbn [emit_list].
  { exists m. rewrite Z.add_0_r. done. }
  apply Forall_cons in Ht as [Hc Ht]. rewrite zlen_cons in *. pose proof (zlen_nonneg t). unfold emit.
  cbn [fst snd].
  destruct (store_spec m p c) as (m1&E1&Hw1); [apply (mapped_sub _ _ _ _ _ Hm); lia|].
  rewrite E1. obind. rewrite u8_small in Hw1 by done.
  destruct (IH m1 (p + 1)) as (m2&E2&Ht2&Hx2); [|done|].
  { eapply writes_mapped, (mapped_sub _ _ _ _ _ Hm); [done|lia..]. }
  exists m2. split_and!; [rewrite E2; do 2 f_equal; lia| |].
  - intros [|i] d Hi; cbn in Hi; simplify_eq.
    + rewrite Hx2, Hw1, bool_decide_true by lia. done.
    + rewrite <- (Ht2 i d Hi). f_equal. lia.
  - intros x Hx. rewrite Hx2, Hw1, bool_decide_false by lia. done.
Qed.

Lemma cstr_of_bytes m t : Forall (λ c, c ≠ 0) t → ∀ p,
  (∀ i c, (t ++ [0]) !! i = Some c → m !! (p + Z.of_nat i) = Some c) → cstr m p t.
Proof.
  induction 1 as [|c t Hc Ht IH]; intros p Hm; cbn [cstr].
  - rewrite <- (Z.add_0_r p). by apply (Hm O).
  - split_and!; [rewrite <- (Z.add_0_r p); by apply (Hm O)|done|].
    apply IH. intros i d Hi. rewrite <- (Hm (S i) d Hi). f_equal. lia.
Qed.

(** The digits of [n] in [k] places, the way [itoa] takes them off. *)
Fixpoint places (k : nat) (n : Z) : list Z :=
  match k with
  | O => []
  | S k => n / 10 ^ Z.of_nat k :: places k (n mod 10 ^ Z.of_nat k)
  end.

Lemma pow10_pos k : 0 < 10 ^ Z.of_nat k.
Proof. apply Z.pow_pos_nonneg; lia. Qed.

Lemma pow10_S k : 10 ^ Z.of_nat (S k) = 10 * 10 ^ Z.of_nat k.
Proof. by rewrite Nat2Z.inj_succ, Z.pow_succ_r by lia. Qed.

Lemma mod_10_mul n b : 0 < b →
  (n mod (10 * b)) mod 10 = n mod 10 ∧ (n mod (10 * b)) / 10 = (n / 10) mod b.
Proof.
  intros Hb. rewrite Z.rem_mul_r by lia. rewrite (Z.mul_comm 10).
  rewrite Z.mod_add, Z.div_add, Z.mod_mod, (Z.div_small (n mod 10)) by (try apply Z.mod_pos_bound; lia).
  done.
Qed.

Lemma places_snoc k n : 0 <= n < 10 ^ Z.of_nat (S k) → places (S k) n = places k (n / 10) ++ [n mod 10].
Proof.
  revert n. induction k as [|k IH]; intros n Hn.
  { change (10 ^ Z.of_nat 1) with 10 in Hn. cbn. rewrite Z.div_1_r, Z.mod_small by done. done. }
  change (places (S (S k)) n) with
    (n / 10 ^ Z.of_nat (S k) :: places (S k) (n mod 10 ^ Z.of_nat (S k))).
  rewrite IH by (apply Z.mod_pos_bound, pow10_pos). cbn [places app]. rewrite pow10_S.
  destruct (mod_10_mul n _ (pow10_pos k)) as [-> ->]. rewrite Z.div_div by (pose proof (pow10_pos k); lia).
  done.
Qed.

(** As many places as it has digits. *)
Lemma places_digits k n : 0 <= n < 10 ^ Z.of_nat (S k) → k = O ∨ 10 ^ Z.of_nat k <= n →
  places (S k) n = digits 10 n.
Proof.
  revert n. induction k as [|k IH]; intros n Hn Hk; rewrite places_snoc by done.
  - change (10 ^ Z.of_nat 1) with 10 in Hn. rewrite digits_small, Z.mod_small by lia. done.
  - destruct Hk as [|Hk]; [done|]. rewrite !pow10_S in *. pose proof (pow10_pos k).
    rewrite digits_step by lia. f_equal. apply IH.
    + split; [apply Z.div_pos; lia|apply Z.div_lt_upper_bound; lia].
    + right. apply Z.div_le_lower_bound; lia.
Qed.

(** The number of digits. *)
Lemma magnitude k n : 0 <= n < 10 ^ Z.of_nat (S k) →
  ∃ j, (j <= k)%nat ∧ 0 <= n < 10 ^ Z.of_nat (S j) ∧ (j = O ∨ 10 ^ Z.of_nat j <= n).
Proof.
  induction k as [|k IH]; intros Hn; [exists O; auto|].
  destruct (decide (n < 10 ^ Z.of_nat (S k))) as [Hlt|].
  - destruct (IH ltac:(lia)) as (j&?&?&?). exists j. split_and!; [lia|lia..|done].
  - exists (S k). split_and!; [lia..|]. right. lia.
Qed.

Lemma pow10_quot k : Z.quot (10 ^ Z.of_nat (S k)) 10 = 10 ^ Z.of_nat k.
Proof. rewrite pow10_S, Z.mul_comm. by apply Z.quot_mul. Qed.

Lemma itoa_digits_places k : ∀ fuel n o, (k < fuel)%nat → 0 <= n →
  itoa_digits fuel n (10 ^ Z.of_nat k) o = emit_list (digit_chars (places k n)) o.
Proof.
  induction k as [|k IH]; intros [|fuel] n o Hf Hn; [lia|done|lia|].
  cbn [itoa_digits]. rewrite pow10_quot. pose proof (pow10_pos k). rewrite bool_decide_false by lia.
  cbn [places digit_chars fmap list_fmap emit_list]. rewrite Z.quot_div_nonneg, Z.rem_mod_nonneg by lia.
  rewrite Z.add_comm. destruct (emit _ o) as [o'|]; [|done]. obind. apply IH; [lia|].
  apply Z.mod_pos_bound. lia.
Qed.

(** The loop finds the power of ten above the number, up to 10^9. *)
Lemma itoa_scale_spec n j : Z.abs n < 10 ^ Z.of_nat j → (j <= 9)%nat →
  ∀ d fuel i, (i + d = j)%nat → (∀ l, (i <= l < j)%nat → 10 ^ Z.of_nat l <= Z.abs n) → (d < fuel)%nat →
  itoa_scale fuel n (10 ^ Z.of_nat i) = Some (10 ^ Z.of_nat j).
Proof.
  intros Hj H9. induction d as [|d IH]; intros [|fuel] i Hi Hl Hf; try lia; cbn [itoa_scale];
    pose proof (pow10_pos i); rewrite bool_decide_false by lia.
  - replace i with j by lia. rewrite bool_decide_true; [done|]. apply Z.quot_small_iff; lia.
  - rewrite bool_decide_false.
    + rewrite <- (IH fuel (S i)) by (try (intros; apply Hl); lia). f_equal. rewrite pow10_S.
      rewrite Z.mul_comm, s32_small; [done|]. rewrite <- pow10_S.
      assert (10 ^ Z.of_nat (S i) <= 10 ^ 9) by (apply Z.pow_le_mono_r; lia). lia.
    + intros E%Z.quot_small_iff; [|lia]. specialize (Hl i ltac:(lia)). lia.
Qed.

(** The decimal text of a number. *)
Definition int_text (n : Z) : list Z :=
  (if bool_decide (n < 0) then [45] else []) ++ digit_chars (digits 10 (Z.abs n)).

Lemma itoa_text n m p : p ≠ 0 → Z.abs n < 10 ^ 9 →
  itoa n m p = (o ← emit_list (int_text n ++ [0]) (m, p); Some o.1).
Proof.
  intros Hp Hn. unfold itoa, int_text. rewrite bool_decide_false by done.
  destruct (decide (n = 0)) as [->|Hn0].
  { change (itoa_scale 40 0 1) with (Some 1). obind. rewrite (bool_decide_false (0 < 0)) by lia. obind.
    rewrite (bool_decide_true (0 = 0)) by done.
    change (itoa_digits 40 0 10 (m, p)) with (itoa_digits 40 0 (10 ^ Z.of_nat 1) (m, p)).
    rewrite itoa_digits_places, emit_list_app by lia.
    change (digit_chars (digits 10 (Z.abs 0))) with (digit_chars (places 1 0)). cbn [app].
    destruct (emit_list _ (m, p)) as [o|]; [|done]. obind. cbn [emit_list]. by destruct (emit 0 o). }
  destruct (magnitude 8 (Z.abs n)) as (j&Hj&Hb&Hlow); [split; [lia|exact Hn]|].
  change 1 with (10 ^ Z.of_nat 0).
  assert (∀ l, (0 <= l < S j)%nat → 10 ^ Z.of_nat l <= Z.abs n) as Hbelow.
  { intros l Hl. destruct Hlow as [->|Hlow]; [replace l with O by lia; cbn; lia|].
    assert (10 ^ Z.of_nat l <= 10 ^ Z.of_nat j) by (apply Z.pow_le_mono_r; lia). lia. }
  rewrite (itoa_scale_spec n (S j) ltac:(lia) ltac:(lia) (S j) 40 0) by (done || lia).
  obind. rewrite <- (places_digits j) by done. case_bool_decide as Hneg.
  - rewrite <- app_assoc. cbn [app emit_list]. destruct (emit 45 (m, p)) as [o|]; [|done]. obind.
    rewrite s32_small, bool_decide_false by lia. rewrite itoa_digits_places, emit_list_app by lia.
    replace (Z.abs n) with (- n) by lia. destruct (emit_list _ o) as [o'|]; [|done]. obind.
    cbn [emit_list]. destruct (emit 0 o'); done.
  - obind. rewrite bool_decide_false by done. cbn [app]. rewrite itoa_digits_places, emit_list_app by lia.
    replace (Z.abs n) with n by lia. destruct (emit_list _ _) as [o'|]; [|done]. obind.
    cbn [emit_list]. destruct (emit 0 o'); done.
Qed.

Lemma value_acc ds : ∀ n, 0 <= n → Forall (λ d, 0 <= d < 10) ds →
  n <= foldl (λ v d, v * 10 + d) n ds.
Proof.
  induction ds as [|d ds IH]; intros n Hn Hd; cbn [foldl]; [lia|].
  apply Forall_cons in Hd as [Hd1 Hd]. specialize (IH (n * 10 + d) ltac:(lia) Hd). lia.
Qed.

Lemma atoi_digits_spec m ds : Forall (λ d, 0 <= d < 10) ds → ∀ fuel p n, 0 <= n →
  cstr m p (digit_chars ds) → (length ds < fuel)%nat →
  foldl (λ v d, v * 10 + d) n ds < 2 ^ 31 →
  atoi_digits fuel m p n = Some (foldl (λ v d, v * 10 + d) n ds).
Proof.
  induction 1 as [|d ds Hd Hds IH]; intros [|fuel] p n Hn Hs Hf Hb; cbn in Hf; try lia;
    cbn [atoi_digits]; unfold load; cbn in Hs.
  - rewrite Hs. done.
  - destruct Hs as (->&_&Hs). obind. unfold is_digit. rewrite bool_decide_true by lia. cbn [foldl] in *.
    pose proof (value_acc ds (n * 10 + d) ltac:(lia) Hds).
    replace (10 * n + (48 + d - 48)) with (n * 10 + d) by lia. rewrite s32_small by lia.
    apply IH; [lia|done|lia|done].
Qed.

Lemma skip_nothing m p c : m !! p = Some c → 45 <= c <= 57 → skip_spaces (str_fuel m) m p = Some p.
Proof.
  intros Hm Hc. unfold str_fuel. cbn [skip_spaces]. unfold load. rewrite Hm. obind. unfold is_space.
  rewrite u32_small, !bool_decide_false by (unfold in_u32; lia). done.
Qed.

Lemma digit_chars_range ds : Forall (λ d, 0 <= d < 10) ds → Forall (λ c, 48 <= c <= 57) (digit_chars ds).
Proof. intros Hd. apply Forall_fmap. eapply Forall_impl; [done|]. intros d ?. cbn in *. lia. Qed.

Lemma int_text_chars n : Forall in_u8 (int_text n) ∧ Forall (λ c, c ≠ 0) (int_text n).
Proof.
  destruct (digits_value 10 (Z.abs n)) as [Hd%digit_chars_range _]; [lia..|]. unfold int_text.
  split; apply Forall_app; (split; [case_bool_decide; repeat constructor; done|]);
    eapply Forall_impl; try done; unfold in_u8; intros; cbn in *; lia.
Qed.

Lemma int_text_length n : Z.abs n < 10 ^ 9 → zlen (int_text n) <= 10.
Proof.
  intros Hn. destruct (digits_length 10 (Z.abs n) 8) as [_ Hl]; [lia|split; [lia|exact Hn]|].
  unfold int_text, digit_chars, zlen. rewrite length_app, length_fmap. case_bool_decide; cbn [length]; lia.
Qed.

Lemma atoi_text m p n : cstr m p (int_text n) → Z.abs n < 2 ^ 31 → atoi m p = Some n.
Proof.
  intros Hs Hn. destruct (digits_value 10 (Z.abs n)) as [Hd Hv]; [lia..|]. unfold value in Hv.
  pose proof (cstr_fuel _ _ _ Hs) as Hf. unfold int_text, digit_chars in Hf.
  rewrite length_app, length_fmap in Hf.
  assert (length (digits 10 (Z.abs n)) < str_fuel m)%nat as Hfuel by lia. clear Hf. unfold atoi, int_text in *.
  pose proof (digit_chars_range _ Hd) as Hc. case_bool_decide as Hneg; cbn [app cstr] in Hs.
  - destruct Hs as (H0&_&Hs). rewrite (skip_nothing _ _ _ H0) by lia.
    obind. unfold load. rewrite H0. obind. rewrite !bool_decide_true by lia.
    rewrite (atoi_digits_spec m (digits 10 (Z.abs n)) Hd); [|lia|done|done|rewrite Hv; lia].
    obind. rewrite Hv, s32_small by lia. f_equal. lia.
  - destruct (digits 10 (Z.abs n)) as [|d ds] eqn:Ed; [cbn in Hv; exfalso|].
    + pose proof (digits_length 10 0 0) as Hl. replace (Z.abs n) with 0 in Ed by lia.
      rewrite Ed in Hl. cbn in Hl. lia.
    + pose proof Hs as [H0 _]. apply Forall_cons in Hd as Hd'. destruct Hd' as [Hd0 _].
      rewrite (skip_nothing _ _ _ H0) by lia. obind. unfold load. rewrite H0. obind. rewrite !bool_decide_false by lia.
      rewrite (atoi_digits_spec m (d :: ds) Hd); [|lia|done|done|rewrite Hv; lia].
      obind. rewrite Hv, s32_small by lia. f_equal. lia.
Qed.

(** [atoi] reads back what [itoa] writes.  For every number of at most nine digits and
    a buffer of twelve bytes, [itoa] writes the sign of a negative number, its decimal
    digits without leading zeros and the terminating null, and [atoi] of the buffer is
    the number again.  No byte outside the buffer changes. *)
Theorem itoa_atoi n m p : p ≠ 0 → Z.abs n < 10 ^ 9 → mapped m p 12 →
  ∃ m', itoa n m p = Some m' ∧ cstr m' p (int_text n) ∧ atoi m' p = Some n ∧
    ∀ x, ¬ p <= x < p + 12 → m' !! x = m !! x.
Proof.
  intros Hp Hn Hm. rewrite itoa_text by done.
  pose proof (int_text_length n Hn). destruct (int_text_chars n) as [Hu8 Hnz].
  destruct (emit_list_spec (int_text n ++ [0]) m p) as (m'&->&Hb&Hx); rewrite ?zlen_app in *;
    change (zlen [0]) with 1 in *.
  - apply (mapped_sub _ _ _ _ _ Hm); lia.
  - apply Forall_app. split; [done|]. by repeat constructor.
  - obind. pose proof (cstr_of_bytes m' _ Hnz p Hb) as Hs. exists m'.
    split_and!; [done|done|apply atoi_text; [done|lia]|]. intros x Hout. apply Hx. lia.
Qed.

(** -305 at 100. *)
Lemma itoa_atoi_witness :
  let m : mem := list_to_map ((λ i, (100 + Z.of_nat i, 0)) <$> seq 0 12) in
  ∃ m', itoa (-305) m 100 = Some m' ∧ cstr m' 100 [45; 51; 48; 53] ∧ atoi m' 100 = Some (-305).
Proof.
  intros m. destruct (itoa_atoi (-305) m 100) as (m'&E&Hs&Ha&_).
  - discriminate.
  - reflexivity.
  - intros i Hi. assert (i ∈ seqZ 0 12) as Hin by (apply elem_of_seqZ; lia).
    revert Hin. apply (Forall_forall (λ i, is_Some (m !! (100 + i)))).
    repeat (apply Forall_cons; split; [vm_compute; eexists; reflexivity|]). apply Forall_nil, I.
  - exists m'. split_and!; [exact E|exact Hs|exact Ha].
Defined.

(** ** Sign, padding and text *)

Lemma emit_list_keeps s : ∀ o o', emit_list s o = Some o' →
  o'.2 = o.2 + zlen s ∧ ∀ x, ¬ o.2 <= x < o.2 + zlen s → o'.1 !! x = o.1 !! x.
Proof.
  induction s as [|c s IH]; intros [m p] o'; cbn [emit_list].
  { intros [= <-]. change (zlen (@nil Z)) with 0. cbn. split; [lia|done]. }
  unfold emit, store. cbn [fst snd]. destruct (m !! p) eqn:E; [obind|done].
  intros [H1 H2]%IH. cbn [fst snd] in *. rewrite zlen_cons. pose proof (zlen_nonneg s).
  split; [lia|]. intros x Hx. rewrite H2 by lia. apply lookup_insert_ne. lia.
Qed.

Lemma emit_text_spec tmp t : ∀ o, (∀ i c, t !! i = Some c → o.1 !! (tmp + Z.of_nat i) = Some c) →
  tmp + zlen t <= o.2 ∨ o.2 + zlen t <= tmp →
  emit_text (length t) tmp o = emit_list t o.
Proof.
  revert tmp. induction t as [|c t IH]; intros tmp o Ht Hd; [done|].
  cbn [length emit_text emit_list]. unfold load.
  assert (o.1 !! tmp = Some c) as -> by (rewrite <- (Z.add_0_r tmp); by apply (Ht O)). obind.
  destruct (emit c o) as [o'|] eqn:E; [obind|done]. rewrite zlen_cons in Hd. pose proof (zlen_nonneg t).
  destruct (emit_list_keeps [c] o o') as [H1 H2]; [cbn; by rewrite E|]. change (zlen [c]) with 1 in *.
  apply IH; [|lia]. intros i d Hi. pose proof (Ht (S i) d Hi). apply lookup_lt_Some in Hi.
  rewrite H2 by (unfold zlen in *; lia). replace (tmp + 1 + Z.of_nat i) with (tmp + Z.of_nat (S i)) by lia.
  done.
Qed.

Lemma emit_while_neg c size o : size <= 0 → emit_while c size o = Some (o, size - 1).
Proof.
  intros. unfold emit_while. replace (Z.to_nat size) with O by lia. cbn. rewrite Z.min_l by lia. done.
Qed.

Lemma emit_while_all c size o {B} (k : output * Z → option B) :
  (os ← emit_while c size o; k os) =
  (o ← emit_list (replicate (Z.to_nat size) c) o; k (o, Z.min size 0 - 1)).
Proof. unfold emit_while. by destruct (emit_list _ o). Qed.

(** Text copied behind a prefix that does not run into it. *)
Lemma emit_text_after tmp t pre m str o : emit_list pre (m, str) = Some o →
  (∀ i c, t !! i = Some c → m !! (tmp + Z.of_nat i) = Some c) →
  tmp + zlen t <= str ∨ str + zlen pre + zlen t <= tmp →
  emit_text (Z.to_nat (zlen t)) tmp o = emit_list t o.
Proof.
  intros [H1 H2]%emit_list_keeps Ht Hd. cbn [fst snd] in *. pose proof (zlen_nonneg pre).
  replace (Z.to_nat (zlen t)) with (length t) by (unfold zlen; lia). apply emit_text_spec; [|lia].
  intros i c Hi. rewrite <- (Ht i c Hi). apply lookup_lt_Some in Hi. apply H2. unfold zlen in *. lia.
Qed.

Lemma emit_sign sign o : (if bool_decide (sign ≠ 0) then emit sign o else Some o) =
  emit_list (sign_list sign) o.
Proof.
  unfold sign_list. case_bool_decide as H1; case_bool_decide as H2; try done. cbn.
  destruct (emit sign o); done.
Qed.

(** The text of [tmp], its sign and the padding are the layout of a number, wherever
    there is room for it that does not overlap [tmp]. *)
Lemma put_flt_layout fr flags sign w t m str :
  (flag flags LEFT = true → flag flags ZEROPAD = false) →
  (∀ i c, t !! i = Some c → m !! (f_flt fr + Z.of_nat i) = Some c) →
  let text := layout (flag flags LEFT) (flag flags ZEROPAD) w (sign_list sign) t in
  f_flt fr + zlen t <= str ∨ str + zlen text <= f_flt fr →
  put_flt fr flags (if flag flags ZEROPAD then 48 else 32) sign (w - zlen (sign_list sign)) (zlen t)
    (m, str) = emit_list text (m, str).
Proof.
  intros Hlz Ht text Hd. unfold put_flt. rewrite flag_lor. subst text. unfold layout in *.
  set (k := w - zlen (sign_list sign) - zlen t) in *. pose proof (zlen_nonneg t).
  destruct (flag flags LEFT) eqn:HL.
  - rewrite (Hlz eq_refl). cbn [orb]. obind. rewrite emit_sign, !emit_list_app.
    destruct (emit_list (sign_list sign) (m, str)) as [o|] eqn:Es; [obind|done].
    rewrite (emit_text_after _ t _ _ _ _ Es Ht) by (rewrite !zlen_app, zlen_replicate in Hd; lia).
    rewrite emit_list_app. destruct (emit_list t o) as [o'|]; [obind|done].
    unfold emit_while. by destruct (emit_list _ o').
  - destruct (flag flags ZEROPAD) eqn:HZ; cbn [orb]; obind.
    + rewrite emit_sign, emit_list_app.
      destruct (emit_list (sign_list sign) (m, str)) as [o|] eqn:Es; [obind|done].
      rewrite emit_while_all, emit_list_app.
      destruct (emit_list (replicate _ 48) o) as [o1|] eqn:E1; [obind|done].
      rewrite (emit_text_after _ t (sign_list sign ++ replicate (Z.to_nat k) 48) m str _)
        by (rewrite ?emit_list_app, ?Es; obind; rewrite !zlen_app in *; done || lia).
      destruct (emit_list t o1) as [o2|]; [obind|done]. rewrite emit_while_neg by lia. done.
    + rewrite emit_while_all, emit_list_app.
      destruct (emit_list (replicate _ 32) (m, str)) as [o|] eqn:Es; [obind|done].
      rewrite emit_sign, emit_list_app.
      destruct (emit_list (sign_list sign) o) as [o1|] eqn:E1; [obind|done].
      rewrite emit_while_neg by lia. obind.
      rewrite (emit_text_after _ t (replicate (Z.to_nat k) 32 ++ sign_list sign) m str _)
        by (rewrite ?emit_list_app, ?Es; obind; rewrite !zlen_app in *; done || lia).
      destruct (emit_list t o1) as [o2|]; [obind|done]. rewrite emit_while_neg by lia. done.
Qed.

(** ** Conversions of some numbers *)

(** The arrays behind each other at 1000, the output at 2000. *)
Definition demo_frame : frame := Frame 1000 1020 1040 1120.
Definition demo_mem : mem :=
  list_to_map ((λ i, (1000 + Z.of_nat i, 0)) <$> seq 0 200) ∪
  list_to_map ((λ i, (2000 + Z.of_nat i, 0)) <$> seq 0 40).

Definition flt_text (num : double) (size precision fmt flags : Z) : option (list Z) :=
  '(m, p) ← flt demo_frame 2000 num size precision fmt flags demo_mem;
  Some (bytes m 2000 (p - 2000)).

(** 3.1415926 and 9.99 *)
Definition d_pi : double := S754_finite false 7074237630354010 (-51).
Definition d_999 : double := S754_finite false 5623870034678907 (-49).

(** %10.3f of pi is "     3.142". *)
Example flt_pi : flt_text d_pi 10 3 102 SIGN = Some (replicate 5 32 ++ [51; 46; 49; 52; 50]).
Proof. vm_compute. reflexivity. Qed.

(** %.0f of 9.99 is "0": the carry of the nine is lost. *)
Example flt_carry_lost : flt_text d_999 0 0 102 SIGN = Some [48].
Proof. vm_compute. reflexivity. Qed.

(** %#.0e of pi is "3.++000": the point replaces the exponent mark and the text behind
    it is moved by one place. *)
Example flt_mark_lost : flt_text d_pi 0 0 101 (Z.lor SIGN SPECIAL) = Some [51; 46; 43; 43; 48; 48; 48].
Proof. vm_compute. reflexivity. Qed.
