(* ===== verification/HeapMem.v ===== *)
(** * The heap (src/mem.c)

    The first-fit allocator of mem.c (RT_USING_SMALL_MEM) over the
    byte-addressed memory of [KString]: the block headers live in the same
    memory as the data of the blocks, as in the code, and [rt_realloc] and
    [rt_calloc] call the [rt_memcpy] and [rt_memset] modelled there.

    [heap_sem] is the count of the semaphore that protects the heap: an
    operation takes it before it touches the heap and gives it back at the end
    (the semaphore itself is the subject of [Ipc]); an operation started while
    it is 0 does not run.  The hooks are not set, as after reset. *)

From S2P Require Import Prelude KString.

(** ** State *)

Record heap_mem : Type := HeapMem { magic : Z; used : Z; next : Z; prev : Z }.

Record heap : Type := Heap {
  hmem : mem;
  heap_ptr : Z;
  heap_end : Z;
  lfree : Z;
  mem_size_aligned : Z;
  used_mem : Z;
  max_mem : Z;
  heap_sem : Z;
  interrupt_nest : Z;
}.

Definition set_hmem m h := Heap m (heap_ptr h) (heap_end h) (lfree h) (mem_size_aligned h)
  (used_mem h) (max_mem h) (heap_sem h) (interrupt_nest h).
Definition set_heap_ptr v h := Heap (hmem h) v (heap_end h) (lfree h) (mem_size_aligned h)
  (used_mem h) (max_mem h) (heap_sem h) (interrupt_nest h).
Definition set_heap_end v h := Heap (hmem h) (heap_ptr h) v (lfree h) (mem_size_aligned h)
  (used_mem h) (max_mem h) (heap_sem h) (interrupt_nest h).
Definition set_lfree v h := Heap (hmem h) (heap_ptr h) (heap_end h) v (mem_size_aligned h)
  (used_mem h) (max_mem h) (heap_sem h) (interrupt_nest h).
Definition set_mem_size_aligned v h := Heap (hmem h) (heap_ptr h) (heap_end h) (lfree h) v
  (used_mem h) (max_mem h) (heap_sem h) (interrupt_nest h).
Definition set_used_mem v h := Heap (hmem h) (heap_ptr h) (heap_end h) (lfree h)
  (mem_size_aligned h) v (max_mem h) (heap_sem h) (interrupt_nest h).
Definition set_max_mem v h := Heap (hmem h) (heap_ptr h) (heap_end h) (lfree h)
  (mem_size_aligned h) (used_mem h) v (heap_sem h) (interrupt_nest h).
Definition set_heap_sem v h := Heap (hmem h) (heap_ptr h) (heap_end h) (lfree h)
  (mem_size_aligned h) (used_mem h) (max_mem h) v (interrupt_nest h).

(** ** The monad

    [None]: an access outside the memory, a failed assertion, or waiting for
    the semaphore. *)

Definition HM (A : Type) : Type := heap → option (A * heap).

#[global] Instance H_ret : MRet HM := λ A a h, Some (a, h).
#[global] Instance H_bind : MBind HM := λ A B f c h,
  match c h with Some (a, h') => f a h' | None => None end.

Definition hget {A} (f : heap → A) : HM A := λ h, Some (f h, h).
Definition hset (f : heap → heap) : HM unit := λ h, Some (tt, f h).
Definition hassert (b : bool) : HM unit := λ h, if b then Some (tt, h) else None.
Definition hread {A} (f : mem → option A) : HM A := λ h,
  match f (hmem h) with Some a => Some (a, h) | None => None end.
Definition hwrite (f : mem → option mem) : HM unit := λ h,
  match f (hmem h) with Some m => Some (tt, set_hmem m h) | None => None end.
Definition hfail {A} : HM A := λ _, None.

Definition not_in_interrupt : HM unit :=
  nest ← hget interrupt_nest; hassert (bool_decide (nest = 0)).

Definition take_heap_sem : HM unit :=
  v ← hget heap_sem; hassert (bool_decide (v > 0));; hset (set_heap_sem (v - 1)).
Definition release_heap_sem : HM unit :=
  v ← hget heap_sem; hset (set_heap_sem (u16 (v + 1))).

(** ** Fields of a header *)

Definition get_magic (a : Z) : HM Z := hread (λ m, load16 m a).
Definition get_used (a : Z) : HM Z := hread (λ m, load16 m (a + 2)).
Definition get_next (a : Z) : HM Z := hread (λ m, load32 m (a + 4)).
Definition get_prev (a : Z) : HM Z := hread (λ m, load32 m (a + 8)).
Definition put_magic (a v : Z) : HM unit := hwrite (λ m, store16 m a v).
Definition put_used (a v : Z) : HM unit := hwrite (λ m, store16 m (a + 2) v).
Definition put_next (a v : Z) : HM unit := hwrite (λ m, store32 m (a + 4) v).
Definition put_prev (a v : Z) : HM unit := hwrite (λ m, store32 m (a + 8) v).

(** [&heap_ptr[ptr]] and [(rt_uint8_t * )mem - heap_ptr]. *)
Definition block_at (ptr : Z) : HM Z := p ← hget heap_ptr; mret (u32 (p + ptr)).
Definition offset_of (a : Z) : HM Z := p ← hget heap_ptr; mret (u32 (a - p)).

(** ** Sizes *)


Definition HEAP_MAGIC : Z := 0x1ea0.
Definition MIN_SIZE : Z := 12.
Definition MIN_SIZE_ALIGNED : Z := RT_ALIGN MIN_SIZE RT_ALIGN_SIZE.
Definition SIZEOF_STRUCT_MEM : Z := RT_ALIGN 12 RT_ALIGN_SIZE.

(** A loop over the blocks visits each at most once. *)
Definition block_fuel (h : heap) : nat := Z.to_nat (mem_size_aligned h + 2 * SIZEOF_STRUCT_MEM).

(** ** Operations *)

(** Joins the free block [mem] with a free block behind it. *)
Definition plug_forward (mem : Z) : HM unit :=
  e ← hget heap_end;
  n ← get_next mem; nmem ← block_at n;
  nu ← get_used nmem;
  if bool_decide (mem ≠ nmem ∧ nu = 0 ∧ nmem ≠ e) then
    lf ← hget lfree;
    (if bool_decide (lf = nmem) then hset (set_lfree mem) else mret tt);;
    nn ← get_next nmem;
    put_next mem nn;;
    b ← block_at nn; o ← offset_of mem;
    put_prev b o
  else mret tt.

(** Joins it with a free block in front of it. *)
Definition plug_backward (mem : Z) : HM unit :=
  p ← get_prev mem; pmem ← block_at p;
  pu ← get_used pmem;
  if bool_decide (pmem ≠ mem ∧ pu = 0) then
    lf ← hget lfree;
    (if bool_decide (lf = mem) then hset (set_lfree pmem) else mret tt);;
    n ← get_next mem;
    put_next pmem n;;
    b ← block_at n; o ← offset_of pmem;
    put_prev b o
  else mret tt.

Definition plug_holes (mem : Z) : HM unit :=
  base ← hget heap_ptr; e ← hget heap_end;
  hassert (bool_decide (mem >= base));;
  hassert (bool_decide (mem < e));;
  u ← get_used mem; hassert (bool_decide (u = 0));;
  plug_forward mem;;
  plug_backward mem.

Definition rt_system_heap_init (begin_addr end_addr : Z) : HM unit :=
  let begin_align := RT_ALIGN begin_addr RT_ALIGN_SIZE in
  let end_align := RT_ALIGN_DOWN end_addr RT_ALIGN_SIZE in
  not_in_interrupt;;
  if bool_decide (end_align > 2 * SIZEOF_STRUCT_MEM ∧
                  end_align - 2 * SIZEOF_STRUCT_MEM >= begin_align) then
    hset (set_mem_size_aligned (u32 (end_align - begin_align - 2 * SIZEOF_STRUCT_MEM)));;
    hset (set_heap_ptr begin_align);;
    size ← hget mem_size_aligned;
    put_magic begin_align HEAP_MAGIC;;
    put_next begin_align (u32 (size + SIZEOF_STRUCT_MEM));;
    put_prev begin_align 0;;
    put_used begin_align 0;;
    n ← get_next begin_align; e ← block_at n;
    hset (set_heap_end e);;
    put_magic e HEAP_MAGIC;;
    put_used e 1;;
    put_next e (u32 (size + SIZEOF_STRUCT_MEM));;
    put_prev e (u32 (size + SIZEOF_STRUCT_MEM));;
    hset (set_heap_sem 1);;
    hset (set_lfree begin_align)
  else mret tt.

(** [RT_MEM_STATS]. *)
Definition count_used (n : Z) : HM unit :=
  u ← hget used_mem;
  hset (set_used_mem (u32 (u + n)));;
  u ← hget used_mem; x ← hget max_mem;
  if bool_decide (x < u) then hset (set_max_mem u) else mret tt.

(** [mem2], a free block behind the [size] bytes of the block at [ptr]. *)
Definition split_block (mem ptr size : Z) : HM Z :=
  let ptr2 := u32 (ptr + SIZEOF_STRUCT_MEM + size) in
  mem2 ← block_at ptr2;
  put_magic mem2 HEAP_MAGIC;;
  put_used mem2 0;;
  n ← get_next mem;
  put_next mem2 n;;
  put_prev mem2 ptr;;
  put_next mem ptr2;;
  mret mem2.

(** The block after [mem2] gets its new predecessor, unless it is the end. *)
Definition relink_next (mem2 ptr2 : Z) : HM unit :=
  n ← get_next mem2; total ← hget mem_size_aligned;
  if bool_decide (n ≠ u32 (total + SIZEOF_STRUCT_MEM))
  then b ← block_at n; put_prev b ptr2 else mret tt.

Fixpoint skip_used (fuel : nat) : HM unit :=
  match fuel with
  | O => hfail
  | S fuel =>
      lf ← hget lfree; e ← hget heap_end; u ← get_used lf;
      if bool_decide (u ≠ 0 ∧ lf ≠ e) then
        n ← get_next lf; b ← block_at n; hset (set_lfree b);; skip_used fuel
      else mret tt
  end.

(** The free block at offset [ptr] becomes a used one of [size] bytes, with the
    rest split off when it is large enough. *)
Definition cut_block (mem ptr size n : Z) : HM unit :=
  if bool_decide (u32 (n - u32 (ptr + SIZEOF_STRUCT_MEM)) >=
                  u32 (size + SIZEOF_STRUCT_MEM + MIN_SIZE_ALIGNED)) then
    mem2 ← split_block mem ptr size;
    put_used mem 1;;
    relink_next mem2 (u32 (ptr + SIZEOF_STRUCT_MEM + size));;
    count_used (u32 (size + SIZEOF_STRUCT_MEM))
  else
    put_used mem 1;;
    n ← get_next mem; o ← offset_of mem;
    count_used (u32 (n - o)).

(** The block at offset [ptr], which is free and large enough, is taken. *)
Definition malloc_block (ptr size : Z) : HM Z :=
  mem ← block_at ptr;
  n ← get_next mem;
  cut_block mem ptr size n;;
  put_magic mem HEAP_MAGIC;;
  lf ← hget lfree;
  (if bool_decide (mem = lf) then
     fuel ← hget block_fuel; skip_used fuel;;
     lf ← hget lfree; e ← hget heap_end; u ← get_used lf;
     hassert (bool_decide (lf = e ∨ u = 0))
   else mret tt);;
  release_heap_sem;;
  e ← hget heap_end;
  hassert (bool_decide (u32 (u32 (mem + SIZEOF_STRUCT_MEM) + size) <= e));;
  hassert (bool_decide (u32 (mem + SIZEOF_STRUCT_MEM) mod RT_ALIGN_SIZE = 0));;
  hassert (bool_decide (Z.land mem (RT_ALIGN_SIZE - 1) = 0));;
  mret (u32 (mem + SIZEOF_STRUCT_MEM)).

Fixpoint malloc_loop (fuel : nat) (ptr size : Z) : HM Z :=
  match fuel with
  | O => hfail
  | S fuel =>
      total ← hget mem_size_aligned;
      if bool_decide (ptr < u32 (total - size)) then
        mem ← block_at ptr;
        u ← get_used mem; n ← get_next mem;
        if bool_decide (u = 0 ∧ u32 (n - u32 (ptr + SIZEOF_STRUCT_MEM)) >= size)
        then malloc_block ptr size
        else malloc_loop fuel n size
      else release_heap_sem;; mret 0
  end.

Definition rt_malloc (size : Z) : HM Z :=
  not_in_interrupt;;
  if bool_decide (size = 0) then mret 0 else
  let size := RT_ALIGN size RT_ALIGN_SIZE in
  total ← hget mem_size_aligned;
  if bool_decide (size > total) then mret 0 else
  let size := if bool_decide (size < MIN_SIZE_ALIGNED) then MIN_SIZE_ALIGNED else size in
  take_heap_sem;;
  lf ← hget lfree; ptr ← offset_of lf;
  fuel ← hget block_fuel;
  malloc_loop fuel ptr size.

Definition rt_free (rmem : Z) : HM unit :=
  not_in_interrupt;;
  if bool_decide (rmem = 0) then mret tt else
  base ← hget heap_ptr; e ← hget heap_end;
  hassert (bool_decide (Z.land rmem (RT_ALIGN_SIZE - 1) = 0));;
  hassert (bool_decide (rmem >= base ∧ rmem < e));;
  if bool_decide (rmem < base ∨ rmem >= e) then mret tt else
  let mem := u32 (rmem - SIZEOF_STRUCT_MEM) in
  take_heap_sem;;
  u ← get_used mem; hassert (bool_decide (u ≠ 0));;
  g ← get_magic mem; hassert (bool_decide (g = HEAP_MAGIC));;
  put_used mem 0;;
  put_magic mem HEAP_MAGIC;;
  lf ← hget lfree;
  (if bool_decide (mem < lf) then hset (set_lfree mem) else mret tt);;
  n ← get_next mem; o ← offset_of mem; us ← hget used_mem;
  hset (set_used_mem (u32 (us - u32 (n - o))));;
  plug_holes mem;;
  release_heap_sem.

(** The block at [ptr] is cut to [newsize] bytes and the rest is freed; [lfree]
    is only changed by [plug_holes]. *)
Definition shrink_block (mem ptr size newsize : Z) : HM unit :=
  us ← hget used_mem;
  hset (set_used_mem (u32 (us - u32 (size - newsize))));;
  mem2 ← split_block mem ptr newsize;
  relink_next mem2 (u32 (ptr + SIZEOF_STRUCT_MEM + newsize));;
  plug_holes mem2.

(** "expand memory": a new block, a copy, and the old block is freed. *)
Definition move_to (rmem newsize size : Z) : HM Z :=
  nmem ← rt_malloc newsize;
  (if bool_decide (nmem ≠ 0) then
     hwrite (λ m, rt_memcpy m nmem rmem (if bool_decide (size < newsize) then size else newsize));;
     rt_free rmem
   else mret tt);;
  mret nmem.

Definition rt_realloc (rmem newsize : Z) : HM Z :=
  not_in_interrupt;;
  let newsize := RT_ALIGN newsize RT_ALIGN_SIZE in
  total ← hget mem_size_aligned;
  if bool_decide (newsize > total) then mret 0 else
  if bool_decide (rmem = 0) then rt_malloc newsize else
  take_heap_sem;;
  base ← hget heap_ptr; e ← hget heap_end;
  if bool_decide (rmem < base ∨ rmem >= e) then release_heap_sem;; mret rmem else
  let mem := u32 (rmem - SIZEOF_STRUCT_MEM) in
  ptr ← offset_of mem;
  n ← get_next mem;
  let size := u32 (n - ptr - SIZEOF_STRUCT_MEM) in
  if bool_decide (size = newsize) then release_heap_sem;; mret rmem else
  if bool_decide (u32 (newsize + SIZEOF_STRUCT_MEM + MIN_SIZE) < size) then
    shrink_block mem ptr size newsize;;
    release_heap_sem;;
    mret rmem
  else
    release_heap_sem;;
    move_to rmem newsize size.

Definition rt_calloc (count size : Z) : HM Z :=
  not_in_interrupt;;
  p ← rt_malloc (u32 (count * size));
  (if bool_decide (p ≠ 0) then hwrite (λ m, rt_memset m p 0 (u32 (count * size))) else mret tt);;
  mret p.

Definition rt_memory_info : HM (Z * Z * Z) :=
  total ← hget mem_size_aligned; us ← hget used_mem; x ← hget max_mem;
  mret (total, us, x).
