(* ===== verification/HeapWp.v ===== *)
(** * Running the heap code

    Rules for the monad of [HeapMem], and the block headers as they lie in
    memory. *)

From S2P Require Import Prelude KString HeapMem.

(** ** Weakest preconditions (total) *)

Definition hwp {A} (c : HM A) (h : heap) (Q : A → heap → Prop) : Prop :=
  ∃ a h', c h = Some (a, h') ∧ Q a h'.

Section wp.
Context {A B : Type}.
Implicit Types (c : HM A) (h : heap).

Lemma hwp_mono c h (Q Q' : A → heap → Prop) :
  hwp c h Q → (∀ a h', Q a h' → Q' a h') → hwp c h Q'.
Proof. intros (a&h'&E&HQ) HQQ. exists a, h'. auto. Qed.
Lemma hwp_ret (a : A) h Q : Q a h → hwp (mret a) h Q.
Proof. intros HQ. by exists a, h. Qed.
Lemma hwp_bind c (f : A → HM B) h Q :
  hwp c h (λ a h', hwp (f a) h' Q) → hwp (c ≫= f) h Q.
Proof.
  intros (a&h1&E&b&h2&E2&HQ). exists b, h2. split; [|done].
  unfold mbind, H_bind. by rewrite E.
Qed.
Lemma hwp_bind_assoc {C} c (f : A → HM B) (g : B → HM C) h Q :
  hwp (a ← c; f a) h (λ b h', hwp (g b) h' Q) → hwp (a ← c; b ← f a; g b) h Q.
Proof.
  intros (b&h1&E&d&h2&E2&HQ). exists d, h2. split; [|done]. unfold mbind, H_bind in *.
  destruct (c h) as [[a h0]|]; [|done]. by rewrite E.
Qed.
Lemma hwp_get (f : heap → A) h Q : Q (f h) h → hwp (hget f) h Q.
Proof. intros HQ. by exists (f h), h. Qed.
Lemma hwp_set f h Q : Q tt (f h) → hwp (hset f) h Q.
Proof. intros HQ. by exists tt, (f h). Qed.
Lemma hwp_assert b h Q : b = true → Q tt h → hwp (hassert b) h Q.
Proof. intros -> HQ. by exists tt, h. Qed.
Lemma hwp_read (f : mem → option A) a h Q :
  f (hmem h) = Some a → Q a h → hwp (hread f) h Q.
Proof. intros E HQ. exists a, h. unfold hread. by rewrite E. Qed.
Lemma hwp_write f m h Q : f (hmem h) = Some m → Q tt (set_hmem m h) → hwp (hwrite f) h Q.
Proof. intros E HQ. exists tt, (set_hmem m h). unfold hwrite. by rewrite E. Qed.

End wp.

Ltac hbind := apply hwp_bind.
Ltac hstep :=
  lazymatch goal with
  | |- hwp (mret _) _ _ => apply hwp_ret
  | |- hwp (hset _) _ _ => apply hwp_set
  | |- hwp (mret _ ≫= _) _ _ => hbind; apply hwp_ret
  | |- hwp (hget _ ≫= _) _ _ => hbind; apply hwp_get
  | |- hwp (hset _ ≫= _) _ _ => hbind; apply hwp_set
  end; cbn beta.

(** ** Headers in memory *)

Definition hdr (m : mem) (a : Z) : option heap_mem :=
  g ← load16 m a; u ← load16 m (a + 2); n ← load32 m (a + 4); p ← load32 m (a + 8);
  Some (HeapMem g u n p).

(** [m'] differs from [m] at most in the [n] bytes at [a]. *)
Record touches (m m' : mem) (a n : Z) : Prop := {
  t_bytes : byte_mem m';
  t_dom : ∀ x, is_Some (m !! x) → is_Some (m' !! x);
  t_out : ∀ x, ¬ a <= x < a + n → m' !! x = m !! x;
}.

Definition agree (m m' : mem) (a n : Z) : Prop := ∀ x, a <= x < a + n → m' !! x = m !! x.

Lemma agree_sub m m' a n b k : agree m m' a n → a <= b → b + k <= a + n → agree m m' b k.
Proof. intros Ha ?? x ?. apply Ha. lia. Qed.
Lemma touches_agree m m' a n b k : touches m m' a n → b + k <= a ∨ a + n <= b → agree m m' b k.
Proof. intros [_ _ Ht] ? x ?. apply Ht. lia. Qed.
Lemma touches_weaken m m' a n b k : touches m m' b k → a <= b → b + k <= a + n →
  touches m m' a n.
Proof. intros [?? Ht] ??. split; [done..|]. intros x ?. apply Ht. lia. Qed.
Lemma touches_trans m m1 m2 a n : touches m m1 a n → touches m1 m2 a n → touches m m2 a n.
Proof. intros [?? H1] [?? H2]. split; [done|auto|]. intros x ?. by rewrite H2, H1. Qed.
Lemma touches_mapped m m' a n b k : touches m m' a n → mapped m b k → mapped m' b k.
Proof. intros [_ Hd _] Hm i Hi. apply Hd, Hm, Hi. Qed.

Lemma load32_agree m m' a : agree m m' a 4 → load32 m' a = load32 m a.
Proof. intros Ha. unfold load32, load. by rewrite !Ha by lia. Qed.
Lemma load16_agree m m' a : agree m m' a 2 → load16 m' a = load16 m a.
Proof. intros Ha. unfold load16, load. by rewrite !Ha by lia. Qed.
Lemma hdr_agree m m' a : agree m m' a 12 → hdr m' a = hdr m a.
Proof.
  intros Ha. unfold hdr.
  rewrite !(load16_agree m m'), !(load32_agree m m') by (eapply agree_sub; [done|lia..]). done.
Qed.

Lemma hdr_fields m a g u n p : hdr m a = Some (HeapMem g u n p) ↔
  load16 m a = Some g ∧ load16 m (a + 2) = Some u ∧ load32 m (a + 4) = Some n ∧
  load32 m (a + 8) = Some p.
Proof.
  unfold hdr. destruct (load16 m a), (load16 m (a + 2)), (load32 m (a + 4)), (load32 m (a + 8));
    cbn; naive_solver.
Qed.

Lemma store32_load m a v : byte_mem m → mapped m a 4 → in_u32 v →
  ∃ m', store32 m a v = Some m' ∧ load32 m' a = Some v ∧ touches m m' a 4.
Proof.
  intros Hb Hm Hv. destruct (store32_spec m a v Hm) as (m'&E&Hw). exists m'. split; [done|]. split.
  - unfold load32, load. rewrite !Hw, !bool_decide_true by lia. cbn. f_equal.
    replace (8 * (a - a)) with 0 by lia. replace (8 * (a + 1 - a)) with 8 by lia.
    replace (8 * (a + 2 - a)) with 16 by lia. replace (8 * (a + 3 - a)) with 24 by lia.
    rewrite !Z.shiftr_div_pow2 by lia. change (2 ^ 24) with (2 ^ 8 * 2 ^ 8 * 2 ^ 8).
    change (2 ^ 16) with (2 ^ 8 * 2 ^ 8). rewrite <-!Z.div_div by lia.
    change (2 ^ 0) with 1. rewrite Z.div_1_r. mlia.
  - split.
    + intros x w. rewrite Hw. case_bool_decide; [|apply Hb]. intros [= <-]. apply u8_range.
    + intros x Hx. rewrite Hw. case_bool_decide; [by eexists|done].
    + intros x Hx. by rewrite Hw, bool_decide_false.
Qed.

Lemma store16_load m a v : byte_mem m → mapped m a 2 → in_u16 v →
  ∃ m', store16 m a v = Some m' ∧ load16 m' a = Some v ∧ touches m m' a 2.
Proof.
  intros Hb Hm Hv. unfold store16.
  destruct (store_spec m a v) as (m1&->&H1); [eapply mapped_sub; [done|lia..]|]. cbn.
  destruct (store_spec m1 (a + 1) (Z.shiftr v 8)) as (m2&->&H2).
  { eapply writes_mapped; [done|]. eapply mapped_sub; [done|lia..]. }
  exists m2. split; [done|]. split.
  - unfold load16, load. rewrite !H2, !H1. repeat case_bool_decide; try lia.
    cbn. f_equal. rewrite Z.shiftr_div_pow2 by lia. mlia.
  - split.
    + intros x w. rewrite H2, H1. repeat case_bool_decide; intros; simplify_eq;
        eauto using u8_range.
    + intros x Hx. rewrite H2, H1. repeat case_bool_decide; [by eexists..|done].
    + intros x Hx. by rewrite H2, H1, !bool_decide_false by lia.
Qed.

Lemma load16_mapped m a v : load16 m a = Some v → mapped m a 2.
Proof.
  unfold load16, load. intros E i Hi. assert (i = 0 ∨ i = 1) as [-> | ->] by lia.
  - rewrite Z.add_0_r. by destruct (m !! a).
  - destruct (m !! a); [|done]. by destruct (m !! (a + 1)).
Qed.
Lemma load32_mapped m a v : load32 m a = Some v → mapped m a 4.
Proof.
  unfold load32, load. intros E i Hi.
  assert (i = 0 ∨ i = 1 ∨ i = 2 ∨ i = 3) as [-> | [-> | [-> | ->]]] by lia;
    rewrite ?Z.add_0_r;
    destruct (m !! a); try done; destruct (m !! (a + 1)); try done;
    destruct (m !! (a + 2)); try done; destruct (m !! (a + 3)); done.
Qed.

(** Reading and writing the fields of a header that is there. *)
Section fields.
Context (h : heap) (a : Z) (hd : heap_mem).
Hypothesis Hhd : hdr (hmem h) a = Some hd.

Lemma hwp_get_magic Q : Q (magic hd) h → hwp (get_magic a) h Q.
Proof. destruct hd; apply hdr_fields in Hhd as (?&?&?&?). intros; by eapply hwp_read. Qed.
Lemma hwp_get_used Q : Q (used hd) h → hwp (get_used a) h Q.
Proof. destruct hd; apply hdr_fields in Hhd as (?&?&?&?). intros; by eapply hwp_read. Qed.
Lemma hwp_get_next Q : Q (next hd) h → hwp (get_next a) h Q.
Proof. destruct hd; apply hdr_fields in Hhd as (?&?&?&?). intros; by eapply hwp_read. Qed.
Lemma hwp_get_prev Q : Q (prev hd) h → hwp (get_prev a) h Q.
Proof. destruct hd; apply hdr_fields in Hhd as (?&?&?&?). intros; by eapply hwp_read. Qed.

Hypothesis Hb : byte_mem (hmem h).

Lemma hwp_put_magic v Q : in_u16 v →
  (∀ m', touches (hmem h) m' a 12 → hdr m' a = Some (HeapMem v (used hd) (next hd) (prev hd)) →
    Q tt (set_hmem m' h)) → hwp (put_magic a v) h Q.
Proof.
  destruct hd as [g u n p]. apply hdr_fields in Hhd as (E1&E2&E3&E4). intros Hv HQ.
  destruct (store16_load (hmem h) a v) as (m'&Es&El&Ht); [done|by eapply load16_mapped|done|].
  eapply hwp_write; [done|]. apply HQ; [eapply touches_weaken; [done|lia..]|]. apply hdr_fields.
  rewrite (load16_agree (hmem h) m' (a + 2)), !(load32_agree (hmem h) m')
    by (eapply touches_agree; [done|lia]). done.
Qed.
Lemma hwp_put_used v Q : in_u16 v →
  (∀ m', touches (hmem h) m' a 12 → hdr m' a = Some (HeapMem (magic hd) v (next hd) (prev hd)) →
    Q tt (set_hmem m' h)) → hwp (put_used a v) h Q.
Proof.
  destruct hd as [g u n p]. apply hdr_fields in Hhd as (E1&E2&E3&E4). intros Hv HQ.
  destruct (store16_load (hmem h) (a + 2) v) as (m'&Es&El&Ht); [done|by eapply load16_mapped|done|].
  eapply hwp_write; [done|]. apply HQ; [eapply touches_weaken; [done|lia..]|]. apply hdr_fields.
  rewrite (load16_agree (hmem h) m' a), !(load32_agree (hmem h) m')
    by (eapply touches_agree; [done|lia]). done.
Qed.
Lemma hwp_put_next v Q : in_u32 v →
  (∀ m', touches (hmem h) m' a 12 → hdr m' a = Some (HeapMem (magic hd) (used hd) v (prev hd)) →
    Q tt (set_hmem m' h)) → hwp (put_next a v) h Q.
Proof.
  destruct hd as [g u n p]. apply hdr_fields in Hhd as (E1&E2&E3&E4). intros Hv HQ.
  destruct (store32_load (hmem h) (a + 4) v) as (m'&Es&El&Ht); [done|by eapply load32_mapped|done|].
  eapply hwp_write; [done|]. apply HQ; [eapply touches_weaken; [done|lia..]|]. apply hdr_fields.
  rewrite !(load16_agree (hmem h) m'), (load32_agree (hmem h) m' (a + 8))
    by (eapply touches_agree; [done|lia]). done.
Qed.
Lemma hwp_put_prev v Q : in_u32 v →
  (∀ m', touches (hmem h) m' a 12 → hdr m' a = Some (HeapMem (magic hd) (used hd) (next hd) v) →
    Q tt (set_hmem m' h)) → hwp (put_prev a v) h Q.
Proof.
  destruct hd as [g u n p]. apply hdr_fields in Hhd as (E1&E2&E3&E4). intros Hv HQ.
  destruct (store32_load (hmem h) (a + 8) v) as (m'&Es&El&Ht); [done|by eapply load32_mapped|done|].
  eapply hwp_write; [done|]. apply HQ; [eapply touches_weaken; [done|lia..]|]. apply hdr_fields.
  rewrite !(load16_agree (hmem h) m'), (load32_agree (hmem h) m' (a + 4))
    by (eapply touches_agree; [done|lia]). done.
Qed.
End fields.

(** Any twelve bytes of memory are a header, whose fields are arbitrary. *)
Lemma load16_total m a : mapped m a 2 → is_Some (load16 m a).
Proof.
  intros Hm. unfold load16, load. destruct (Hm 0) as [? E]; [lia|]. rewrite Z.add_0_r in E.
  destruct (Hm 1) as [? E1]; [lia|]. rewrite E, E1. by eexists.
Qed.
Lemma load32_total m a : mapped m a 4 → is_Some (load32 m a).
Proof.
  intros Hm. unfold load32, load. destruct (Hm 0) as [? E]; [lia|]. rewrite Z.add_0_r in E.
  destruct (Hm 1) as [? E1]; [lia|]. destruct (Hm 2) as [? E2]; [lia|].
  destruct (Hm 3) as [? E3]; [lia|]. rewrite E, E1, E2, E3. by eexists.
Qed.
Lemma hdr_total m a : mapped m a 12 → is_Some (hdr m a).
Proof.
  intros Hm. unfold hdr.
  destruct (load16_total m a) as [? ->]; [eapply mapped_sub; [done|lia..]|].
  destruct (load16_total m (a + 2)) as [? ->]; [eapply mapped_sub; [done|lia..]|].
  destruct (load32_total m (a + 4)) as [? ->]; [eapply mapped_sub; [done|lia..]|].
  destruct (load32_total m (a + 8)) as [? ->]; [eapply mapped_sub; [done|lia..]|].
  by eexists.
Qed.
