(* ===== verification/HeapInv.v ===== *)
(** * The blocks of the heap

    The heap is tiled by blocks, each with a header in memory that links it to
    its neighbours; what the steps of the allocator do to the blocks. *)

From S2P Require Import Prelude KString HeapMem HeapWp.

(** ** Blocks *)

(** The size of a block, header included, and whether it is used. *)
Abbreviation block := (Z * bool)%type.
Implicit Types (bs l pre post : list block) (m : mem).

Fixpoint total bs : Z := match bs with [] => 0 | (n, _) :: bs => n + total bs end.

(** The offset of the last block of [bs], which starts at [o] behind [p]. *)
Fixpoint prev_of (p o : Z) bs : Z :=
  match bs with [] => p | (n, _) :: bs => prev_of o (o + n) bs end.

Definition block_ok (b : block) : Prop := 12 <= b.1 ∧ b.1 mod 4 = 0.

Definition flag_of (u : bool) : Z := if u then 1 else 0.

(** The headers of the blocks from offset [o]. *)
Fixpoint hdrs (m : mem) (base p o : Z) bs : Prop :=
  match bs with
  | [] => True
  | (n, u) :: bs => hdr m (base + o) = Some (HeapMem HEAP_MAGIC (flag_of u) (o + n) p) ∧
                    hdrs m base o (o + n) bs
  end.

(** The end of the heap: a header that is used and points to itself. *)
Definition end_hdr m base o : Prop := ∃ q, hdr m (base + o) = Some (HeapMem HEAP_MAGIC 1 o q).

Definition chain m base p o bs : Prop := hdrs m base p o bs ∧ end_hdr m base (o + total bs).

(** A free block of [bs] at address [a]. *)
Fixpoint free_in (o : Z) bs (a : Z) : Prop :=
  match bs with
  | [] => False
  | (n, u) :: bs => (u = false ∧ a = o) ∨ free_in (o + n) bs a
  end.

(** A byte of the data of a used block. *)
Fixpoint live (o : Z) bs (x : Z) : Prop :=
  match bs with
  | [] => False
  | (n, u) :: bs => (u = true ∧ o + 12 <= x < o + n) ∨ live (o + n) bs x
  end.

(** No two free blocks are neighbours; [u]: the block in front is used. *)
Fixpoint separated (u : bool) bs : Prop :=
  match bs with
  | [] => True
  | (_, v) :: bs => (u = true ∨ v = true) ∧ separated v bs
  end.
Fixpoint last_used (u : bool) bs : bool :=
  match bs with [] => u | (_, v) :: bs => last_used v bs end.

Fixpoint used_total bs : Z :=
  match bs with [] => 0 | (n, u) :: bs => (if u then n else 0) + used_total bs end.

(** The size of the last block, [d] if there is none. *)
Fixpoint last_size (d : Z) bs : Z :=
  match bs with [] => d | (n, _) :: bs => last_size n bs end.

Lemma last_size_app d l1 l2 : last_size d (l1 ++ l2) = last_size (last_size d l1) l2.
Proof. revert d. induction l1 as [|[] l1 IH]; intros; simpl; auto. Qed.
Lemma last_size_grow d d' bs : d <= d' → last_size d bs <= last_size d' bs.
Proof. destruct bs as [|[] ?]; simpl; [done|]. lia. Qed.
Lemma total_app l1 l2 : total (l1 ++ l2) = total l1 + total l2.
Proof. induction l1 as [|[] l1 IH]; simpl; lia. Qed.
Lemma used_total_app l1 l2 : used_total (l1 ++ l2) = used_total l1 + used_total l2.
Proof. induction l1 as [|[] l1 IH]; simpl; lia. Qed.
Lemma prev_of_app p o l1 l2 : prev_of p o (l1 ++ l2) = prev_of (prev_of p o l1) (o + total l1) l2.
Proof.
  revert p o. induction l1 as [|[n u] l1 IH]; intros; simpl; [by rewrite Z.add_0_r|].
  rewrite IH. f_equal. lia.
Qed.
Lemma hdrs_app m base p o l1 l2 : hdrs m base p o (l1 ++ l2) ↔
  hdrs m base p o l1 ∧ hdrs m base (prev_of p o l1) (o + total l1) l2.
Proof.
  revert p o. induction l1 as [|[n u] l1 IH]; intros p o; simpl; [rewrite Z.add_0_r; tauto|].
  rewrite IH, Z.add_assoc. tauto.
Qed.
Lemma blocks_app m base p o l1 l2 : chain m base p o (l1 ++ l2) ↔
  hdrs m base p o l1 ∧ chain m base (prev_of p o l1) (o + total l1) l2.
Proof. unfold chain. rewrite hdrs_app, total_app, Z.add_assoc. tauto. Qed.
Lemma blocks_cons m base p o n u bs : chain m base p o ((n, u) :: bs) ↔
  hdr m (base + o) = Some (HeapMem HEAP_MAGIC (flag_of u) (o + n) p) ∧
  chain m base o (o + n) bs.
Proof. unfold chain. simpl. rewrite Z.add_assoc. tauto. Qed.
Lemma free_in_app o l1 l2 a : free_in o (l1 ++ l2) a ↔
  free_in o l1 a ∨ free_in (o + total l1) l2 a.
Proof.
  revert o. induction l1 as [|[n u] l1 IH]; intros o; simpl; [rewrite Z.add_0_r; tauto|].
  rewrite IH, Z.add_assoc. tauto.
Qed.
Lemma live_app o l1 l2 x : live o (l1 ++ l2) x ↔ live o l1 x ∨ live (o + total l1) l2 x.
Proof.
  revert o. induction l1 as [|[n u] l1 IH]; intros o; simpl; [rewrite Z.add_0_r; tauto|].
  rewrite IH, Z.add_assoc. tauto.
Qed.
Lemma separated_app u l1 l2 : separated u (l1 ++ l2) ↔
  separated u l1 ∧ separated (last_used u l1) l2.
Proof. revert u. induction l1 as [|[n v] l1 IH]; intros u; simpl; [tauto|]. rewrite IH. tauto. Qed.
Lemma last_used_snoc u l n v : last_used u (l ++ [(n, v)]) = v.
Proof. revert u. induction l as [|[] l IH]; intros; simpl; auto. Qed.

Lemma total_nonneg bs : Forall block_ok bs → 0 <= total bs.
Proof. induction 1 as [|[n u] bs [] _ IH]; simpl in *; lia. Qed.
Lemma total_mod bs : Forall block_ok bs → total bs mod 4 = 0.
Proof.
  induction 1 as [|[n u] bs [] _ IH]; simpl in *; [done|]. rewrite Z.add_mod by lia.
  by replace (n mod 4) with 0; replace (total bs mod 4) with 0.
Qed.
Lemma used_total_range bs : Forall block_ok bs → 0 <= used_total bs <= total bs.
Proof. induction 1 as [|[n []] bs [] _ IH]; simpl in *; lia. Qed.
Lemma live_range o bs x : Forall block_ok bs → live o bs x → o + 12 <= x < o + total bs.
Proof.
  intros Hok. revert o. induction Hok as [|[n u] bs [Hn Hmod] Hok IH]; intros o; simpl; [done|].
  simpl in *. pose proof (total_nonneg _ Hok). intros [[_ ?]|H']; [lia|]. apply IH in H'. lia.
Qed.
Lemma free_in_range o bs a : Forall block_ok bs → free_in o bs a → o <= a < o + total bs.
Proof.
  intros Hok. revert o. induction Hok as [|[n u] bs [Hn Hmod] Hok IH]; intros o; simpl; [done|].
  simpl in *. pose proof (total_nonneg _ Hok). intros [[_ ?]|H']; [lia|]. apply IH in H'. lia.
Qed.
Lemma prev_of_range o p bs : Forall block_ok bs → p <= o → p <= prev_of p o bs <= o + total bs.
Proof.
  intros Hok. revert p o. induction Hok as [|[n u] bs [Hn _] Hok IH]; intros p o ?; simpl in *; [lia|].
  specialize (IH o (o + n)). lia.
Qed.

Lemma hdrs_agree m m' base p o bs : Forall block_ok bs → agree m m' (base + o) (total bs) →
  hdrs m base p o bs → hdrs m' base p o bs.
Proof.
  intros Hok. revert p o. induction Hok as [|[n u] bs [Hn _] Hok IH]; intros p o Ha; simpl in *;
    [done|]. pose proof (total_nonneg _ Hok). intros [Hh Ht]. split.
  - rewrite (hdr_agree m); [done|]. eapply agree_sub; [done|lia..].
  - apply IH; [|done]. eapply agree_sub; [done|lia..].
Qed.
Lemma chain_agree m m' base p o bs : Forall block_ok bs →
  agree m m' (base + o) (total bs + 12) → chain m base p o bs → chain m' base p o bs.
Proof.
  intros Hok Ha [Hh [q Hq]]. pose proof (total_nonneg _ Hok). split.
  - eapply hdrs_agree; [done| |done]. eapply agree_sub; [done|lia..].
  - exists q. rewrite (hdr_agree m); [done|]. eapply agree_sub; [done|lia..].
Qed.

(** The first header of a chain: that of its first block or of the end. *)
Definition head_used bs : bool := match bs with [] => true | (_, u) :: _ => u end.
Definition head_next (o : Z) bs : Z := match bs with [] => o | (n, _) :: _ => o + n end.

Lemma chain_head m base p o bs : chain m base p o bs → ∃ q, (bs ≠ [] → q = p) ∧
  hdr m (base + o) = Some (HeapMem HEAP_MAGIC (flag_of (head_used bs)) (head_next o bs) q).
Proof.
  destruct bs as [|[n u] bs].
  - intros [_ [q Hq]]. simpl in Hq. rewrite Z.add_0_r in Hq. by exists q.
  - intros [Hh _]%blocks_cons. by exists p.
Qed.

(** A new predecessor is written in the first header. *)
Lemma chain_set_prev m m' base p p' o bs g u n : Forall block_ok bs →
  chain m base p o bs → touches m m' (base + o) 12 →
  (∀ q, hdr m (base + o) = Some (HeapMem g u n q) → hdr m' (base + o) = Some (HeapMem g u n p')) →
  g = HEAP_MAGIC → u = flag_of (head_used bs) → n = head_next o bs →
  chain m' base p' o bs.
Proof.
  intros Hok Hc Ht Hh -> -> ->. destruct (chain_head _ _ _ _ _ Hc) as (q&_&Hq).
  specialize (Hh q Hq). destruct bs as [|[k v] bs].
  - split; [done|]. exists p'. by rewrite Z.add_0_r.
  - apply blocks_cons in Hc as [_ Hc]. apply blocks_cons. split; [done|].
    inversion_clear Hok as [|?? [Hk _] Hok']. simpl in *.
    eapply chain_agree; [done| |done]. eapply touches_agree; [done|lia].
Qed.

(** The predecessor of an end header does not matter. *)
Lemma chain_nil m base p p' o : chain m base p o [] → chain m base p' o [].
Proof. done. Qed.

(** ** The tiling *)

Record tiled (h : heap) bs : Prop := {
  ti_bytes : byte_mem (hmem h);
  ti_base : 0 <= heap_ptr h;
  ti_align : heap_ptr h mod 4 = 0;
  ti_size : 12 <= mem_size_aligned h;
  ti_top : heap_ptr h + mem_size_aligned h + 24 < 2 ^ 32;
  ti_mapped : mapped (hmem h) (heap_ptr h) (mem_size_aligned h + 24);
  ti_end : heap_end h = heap_ptr h + mem_size_aligned h + 12;
  ti_total : total bs = mem_size_aligned h + 12;
  ti_blocks : Forall block_ok bs;
  ti_chain : chain (hmem h) (heap_ptr h) 0 0 bs;
}.

Lemma tiled_ext h h' bs : tiled h bs → hmem h' = hmem h → heap_ptr h' = heap_ptr h →
  heap_end h' = heap_end h → mem_size_aligned h' = mem_size_aligned h → tiled h' bs.
Proof. intros [] E1 E2 E3 E4. split; rewrite ?E1, ?E2, ?E3, ?E4; done. Qed.

(** What is written in place of the blocks [mid]. *)
Lemma tiled_splice h m' pre mid mid' post : tiled h (pre ++ mid ++ post) →
  Forall block_ok mid' → total mid' = total mid →
  byte_mem m' → (∀ x, is_Some (hmem h !! x) → is_Some (m' !! x)) →
  agree (hmem h) m' (heap_ptr h) (total pre) →
  hdrs m' (heap_ptr h) (prev_of 0 0 pre) (total pre) mid' →
  chain m' (heap_ptr h) (prev_of (prev_of 0 0 pre) (total pre) mid')
    (total pre + total mid) post →
  tiled (set_hmem m' h) (pre ++ mid' ++ post).
Proof.
  intros Ht Hmid Htot Hb Hd Ha Hh Hc. destruct Ht as [? ? ? ? ? Hm ? Htt Hok Hch].
  apply Forall_app in Hok as [Hpre [_ Hpost]%Forall_app].
  split; simpl; try done.
  - intros i Hi. apply Hd, Hm, Hi.
  - rewrite !total_app in *. lia.
  - by rewrite !Forall_app.
  - apply blocks_app in Hch as [Hp _]. apply blocks_app. split.
    + eapply hdrs_agree; [done| |done]. by rewrite Z.add_0_r.
    + apply blocks_app. simpl. split; [done|]. by rewrite Htot.
Qed.

Section tiled.
Context (h : heap) (bs : list block) (Ht : tiled h bs).

Lemma hwp_block_at o Q : 0 <= o <= mem_size_aligned h + 12 →
  Q (heap_ptr h + o) h → hwp (block_at o) h Q.
Proof.
  intros Ho HQ. unfold block_at. hstep. hstep. destruct Ht.
  rewrite u32_small by (unfold in_u32; lia). done.
Qed.
Lemma hwp_offset_of o Q : 0 <= o <= mem_size_aligned h + 12 →
  Q o h → hwp (offset_of (heap_ptr h + o)) h Q.
Proof.
  intros Ho HQ. unfold offset_of. hstep. hstep. destruct Ht.
  replace (heap_ptr h + o - heap_ptr h) with o by lia.
  rewrite u32_small by (unfold in_u32; lia). done.
Qed.
End tiled.

Lemma tiled_pos h pre post : tiled h (pre ++ post) →
  0 <= total pre ∧ 0 <= total post ∧ total pre + total post = mem_size_aligned h + 12 ∧
  Forall block_ok pre ∧ Forall block_ok post ∧
  chain (hmem h) (heap_ptr h) (prev_of 0 0 pre) (total pre) post.
Proof.
  intros [? ? ? ? ? ? ? Htt [Hp Hq]%Forall_app Hc]. rewrite total_app in Htt.
  apply blocks_app in Hc as [_ Hc]. auto 10 using total_nonneg.
Qed.

(** ** Joining free blocks *)

(** The data of the used blocks is as it was. *)
Definition keeps (h h' : heap) bs : Prop :=
  ∀ x, live (heap_ptr h) bs x → hmem h' !! x = hmem h !! x.

(** Only the memory and [lfree] may differ. *)
Definition same_vars (h h' : heap) : Prop :=
  heap_ptr h' = heap_ptr h ∧ heap_end h' = heap_end h ∧
  mem_size_aligned h' = mem_size_aligned h ∧ used_mem h' = used_mem h ∧
  max_mem h' = max_mem h ∧ heap_sem h' = heap_sem h ∧ interrupt_nest h' = interrupt_nest h.

(** The free block at the address [a] is now part of the one at [b]. *)
Definition moved (a b lf : Z) : Z := if bool_decide (lf = a) then b else lf.

Lemma moved_ne a b lf : lf ≠ a → moved a b lf = lf.
Proof. intros. unfold moved. by rewrite bool_decide_false. Qed.

Lemma hwp_put_prev_at h a hd v Q : byte_mem (hmem h) → hdr (hmem h) a = Some hd → in_u32 v →
  (∀ m', touches (hmem h) m' a 12 →
    hdr m' a = Some (HeapMem (magic hd) (used hd) (next hd) v) → Q tt (set_hmem m' h)) →
  hwp (put_prev a v) h Q.
Proof. intros. by eapply hwp_put_prev. Qed.

(** [b ← block_at n; o ← offset_of a; put_prev b o], where [n] is the start of the
    blocks [post]. *)
Lemma hwp_relink h m1 base p q o post Q :
  byte_mem m1 → Forall block_ok post → hmem h = m1 → heap_ptr h = base →
  0 <= base → 0 <= p <= o → 0 <= o → base + o + 12 <= 2 ^ 32 →
  chain m1 base q o post →
  (∀ m2, touches m1 m2 (base + o) 12 → chain m2 base p o post → Q tt (set_hmem m2 h)) →
  hwp (b ← block_at o; o' ← offset_of (base + p); put_prev b o') h Q.
Proof.
  intros Hb Hok <- <- ??? ? Hc HQ. destruct (chain_head _ _ _ _ _ Hc) as (q'&_&Hh).
  unfold block_at, offset_of. hbind. hstep. hstep. hbind. hstep. hstep.
  rewrite !u32_small by (unfold in_u32; lia).
  replace (heap_ptr h + p - heap_ptr h) with p by lia.
  eapply hwp_put_prev_at; [done|done|unfold in_u32; lia|]. intros m2 Ht Hh2. simpl in Hh2.
  apply HQ; [done|]. eapply chain_set_prev; [done|done|done| |done..]. intros. done.
Qed.

(** The block that results of a free block of [n] bytes and a free block behind
    it, and what is left behind. *)
Definition join_right (n : Z) post : Z * list block :=
  match post with (k, false) :: post => (n + k, post) | _ => (n, post) end.

Lemma hwp_plug_forward h pre n post : tiled h (pre ++ (n, false) :: post) →
  hwp (plug_forward (heap_ptr h + total pre)) h (λ _ h',
    let '(n1, post1) := join_right n post in
    tiled h' (pre ++ (n1, false) :: post1) ∧ keeps h h' (pre ++ (n, false) :: post) ∧
    same_vars h h' ∧
    lfree h' = if head_used post then lfree h
               else moved (heap_ptr h + total pre + n) (heap_ptr h + total pre) (lfree h)).
Proof.
  intros Ht. pose proof (tiled_pos _ _ _ Ht) as (Hpre&Hpost&Htot&Hokp&Hokq&Hc).
  pose proof (ti_bytes _ _ Ht) as Hb. pose proof Ht as [_ Hbase _ Hsz Htop _ Hend _ _ _].
  apply Forall_cons in Hokq as [[Hn Hn4] Hokq]. simpl in Hn, Hn4.
  simpl in Hpost, Htot. pose proof (total_nonneg _ Hokq).
  apply blocks_cons in Hc as [Hh Hc]. destruct (chain_head _ _ _ _ _ Hc) as (q&_&Hh2).
  unfold plug_forward. hstep. hbind. eapply hwp_get_next; [done|]. simpl. hbind.
  eapply hwp_block_at; [done|lia|]. hbind. rewrite (Z.add_assoc (heap_ptr h)) in Hh2 |- *.
  eapply hwp_get_used; [done|]. simpl.
  destruct post as [|[k [|]] post]; simpl in *.
  1,2: rewrite bool_decide_false by (intros (?&?&?); lia); hstep; split_and!; try done;
       by intros x.
  apply Forall_cons in Hokq as [[Hk Hk4] Hokq]. simpl in Hk, Hk4.
  pose proof (total_nonneg _ Hokq). rewrite bool_decide_true by lia. hstep.
  hbind. apply hwp_mono with (Q := λ _ h', h' = set_lfree
    (moved (heap_ptr h + total pre + n) (heap_ptr h + total pre) (lfree h)) h).
  { unfold moved. case_bool_decide; hstep; [done|by destruct h]. }
  intros _ h1 ->. hbind. eapply hwp_get_next; [done|]. simpl. hbind.
  eapply hwp_put_next; [exact Hh|done|unfold in_u32; lia|]. simpl. intros m1 Ht1 Hh1.
  apply blocks_cons in Hc as [_ Hc].
  eapply hwp_relink with (base := heap_ptr h) (m1 := m1) (post := post);
    [by eapply t_bytes|done|done|done|lia|lia|lia|lia| |].
  { eapply chain_agree; [done| |exact Hc]. eapply touches_agree; [done|lia]. }
  intros m2 Ht2 Hc2. split_and!; try done.
  - apply (tiled_ext (set_hmem m2 h)); [|done..].
    apply (tiled_splice h m2 pre [(n, false); (k, false)] [(n + k, false)] post); simpl.
    + done.
    + apply Forall_singleton. split; simpl; [lia|]. mlia.
    + lia.
    + by eapply t_bytes.
    + intros x Hx. eapply t_dom, t_dom; done.
    + intros x Hx. rewrite (t_out _ _ _ _ Ht2), (t_out _ _ _ _ Ht1) by lia. done.
    + split; [|done]. rewrite (hdr_agree m1); [|eapply touches_agree; [done|lia]].
      rewrite Hh1. do 2 f_equal. lia.
    + by replace (total pre + (n + (k + 0))) with (total pre + n + k) by lia.
  - intros x Hx. simpl. rewrite live_app in Hx. simpl in Hx.
    assert (¬ heap_ptr h + total pre <= x < heap_ptr h + total pre + 12 ∧
      ¬ heap_ptr h + (total pre + n + k) <= x < heap_ptr h + (total pre + n + k) + 12) as [].
    { destruct Hx as [Hx|[[] |[[] |Hx]]]; try done;
        apply live_range in Hx; try done; lia. }
    by rewrite (t_out _ _ _ _ Ht2), (t_out _ _ _ _ Ht1).
Qed.

(** The free block of [n] bytes between [pre] and [post], joined with a free
    block in front of it. *)
Fixpoint join pre (n : Z) post : list block :=
  match pre with
  | [] => (n, false) :: post
  | [(k, false)] => (k + n, false) :: post
  | b :: pre => b :: join pre n post
  end.

Lemma join_snoc pre k u n post : join (pre ++ [(k, u)]) n post =
  if u then pre ++ (k, true) :: (n, false) :: post else pre ++ (k + n, false) :: post.
Proof.
  induction pre as [|[j v] pre IH]; simpl; [by destruct u|]. rewrite IH.
  by destruct v, pre, u.
Qed.

Lemma hwp_plug_backward h pre n post : tiled h (pre ++ (n, false) :: post) →
  hwp (plug_backward (heap_ptr h + total pre)) h (λ _ h',
    tiled h' (join pre n post) ∧ keeps h h' (pre ++ (n, false) :: post) ∧ same_vars h h' ∧
    lfree h' = if last_used true pre then lfree h
               else moved (heap_ptr h + total pre) (heap_ptr h + prev_of 0 0 pre) (lfree h)).
Proof.
  intros Ht. pose proof (tiled_pos _ _ _ Ht) as (Hpre&Hpost&Htot&Hokp&Hokq&Hc).
  pose proof (ti_bytes _ _ Ht) as Hb. pose proof Ht as [_ Hbase _ Hsz Htop _ Hend _ _ Hch].
  apply Forall_cons in Hokq as [[Hn Hn4] Hokq]. simpl in Hn, Hn4.
  simpl in Hpost, Htot. pose proof (total_nonneg _ Hokq).
  apply blocks_cons in Hc as [Hh Hc].
  unfold plug_backward. hbind. eapply hwp_get_prev; [done|]. simpl. hbind.
  destruct pre as [|[k u] pre _] using rev_ind.
  { simpl in *. eapply hwp_block_at; [done|lia|]. hbind. eapply hwp_get_used; [done|].
    rewrite bool_decide_false by (intros []; lia). hstep. split_and!; try done; by intros x. }
  rewrite prev_of_app, total_app, <-app_assoc in *. cbn [app] in *. simpl in Hh, Htot, Hpre, Hc |- *.
  rewrite Z.add_0_r, last_used_snoc in *.
  apply Forall_app in Hokp as [Hokp [[Hk Hk4] _]%Forall_cons]. simpl in Hk, Hk4.
  pose proof (total_nonneg _ Hokp).
  apply blocks_app in Hch as [_ [Hhk _]%blocks_cons].
  change (0 + total pre) with (total pre) in *. simpl in Hhk.
  eapply hwp_block_at; [done|lia|]. hbind. eapply hwp_get_used; [done|]. rewrite join_snoc.
  destruct u; simpl.
  { rewrite bool_decide_false by (intros []; lia). hstep. split_and!; try done; by intros x. }
  rewrite bool_decide_true by lia. hstep.
  hbind. apply hwp_mono with (Q := λ _ h', h' = set_lfree
    (moved (heap_ptr h + (total pre + k)) (heap_ptr h + total pre) (lfree h)) h).
  { unfold moved. case_bool_decide; hstep; [done|by destruct h]. }
  intros _ h1 ->. hbind. eapply hwp_get_next; [exact Hh|]. simpl. hbind.
  eapply hwp_put_next; [exact Hhk|done|unfold in_u32; lia|]. simpl. intros m1 Ht1 Hh1.
  eapply hwp_relink with (base := heap_ptr h) (m1 := m1) (post := post);
    [by eapply t_bytes|done|done|done|lia|lia|lia|lia| |].
  { eapply chain_agree; [done| |exact Hc]. eapply touches_agree; [done|lia]. }
  intros m2 Ht2 Hc2. split_and!; try done.
  - apply (tiled_ext (set_hmem m2 h)); [|done..].
    apply (tiled_splice h m2 pre [(k, false); (n, false)] [(k + n, false)] post); simpl.
    + done.
    + apply Forall_singleton. split; simpl; [lia|]. mlia.
    + lia.
    + by eapply t_bytes.
    + intros x Hx. eapply t_dom, t_dom; done.
    + intros x Hx. rewrite (t_out _ _ _ _ Ht2), (t_out _ _ _ _ Ht1) by lia. done.
    + split; [|done]. rewrite (hdr_agree m1); [|eapply touches_agree; [done|lia]].
      rewrite Hh1. do 2 f_equal. lia.
    + by replace (total pre + (k + (n + 0))) with (total pre + k + n) by lia.
  - intros x Hx. simpl. rewrite live_app in Hx. simpl in Hx.
    assert (¬ heap_ptr h + total pre <= x < heap_ptr h + total pre + 12 ∧
      ¬ heap_ptr h + (total pre + k + n) <= x < heap_ptr h + (total pre + k + n) + 12) as [].
    { destruct Hx as [Hx|[[] |[[] |Hx]]]; try done;
        apply live_range in Hx; try done; lia. }
    by rewrite (t_out _ _ _ _ Ht2), (t_out _ _ _ _ Ht1).
Qed.

(** [lf] is a free block or the end of the heap, and the lowest such. *)
Definition free_or_end (base : Z) bs (lf : Z) : Prop :=
  free_in base bs lf ∨ lf = base + total bs.
Definition lowest (base : Z) bs (lf : Z) : Prop := ∀ a, free_in base bs a → lf <= a.

(** [bs'] and [lf'] are what joining blocks makes of [bs] and [lf]. *)
Definition lfree_follows (base : Z) bs (lf : Z) bs' (lf' : Z) : Prop :=
  (free_or_end base bs lf → free_or_end base bs' lf') ∧
  (lowest base bs lf → lowest base bs' lf').

Lemma lfree_join base pre n k post lf : 0 <= n → 0 <= k →
  lfree_follows base (pre ++ (n, false) :: (k, false) :: post) lf
    (pre ++ (n + k, false) :: post) (moved (base + total pre + n) (base + total pre) lf).
Proof.
  intros Hn Hk. unfold lfree_follows, free_or_end, lowest, moved.
  setoid_rewrite free_in_app. rewrite !total_app. simpl. rewrite !Z.add_assoc. split.
  - case_bool_decide; [by left; right; left|]. intros [[?|[[]|[[]|?]]]|?]; auto 6; done || lia.
  - intros Hlow a [Ha|[[_ ->]|Ha]].
    + specialize (Hlow a). case_bool_decide; [|by apply Hlow; left].
      transitivity lf; [lia|]. by apply Hlow; left.
    + case_bool_decide; [lia|]. apply Hlow. auto.
    + specialize (Hlow a). case_bool_decide; [|apply Hlow; auto].
      transitivity lf; [lia|]. apply Hlow. auto.
Qed.

Lemma lfree_follows_refl base bs lf : lfree_follows base bs lf bs lf.
Proof. by split. Qed.
Lemma lfree_follows_trans base bs1 bs2 bs3 a1 a2 a3 :
  lfree_follows base bs1 a1 bs2 a2 → lfree_follows base bs2 a2 bs3 a3 →
  lfree_follows base bs1 a1 bs3 a3.
Proof. intros [] []. split; auto. Qed.

(** The blocks after a block of [n] bytes between [pre] and [post] is freed. *)
Definition plug pre (n : Z) post : list block :=
  let '(n1, post1) := join_right n post in join pre n1 post1.

Lemma live_join base pre n post x :
  live base (join pre n post) x ↔ live base (pre ++ (n, false) :: post) x.
Proof.
  destruct pre as [|[k u] pre _] using rev_ind; [done|]. rewrite join_snoc, <-app_assoc.
  cbn [app]. destruct u; [done|]. rewrite !live_app. simpl.
  replace (base + total pre + k + n) with (base + total pre + (k + n)) by lia.
  intuition discriminate.
Qed.
Lemma live_plug base pre n post x :
  live base (plug pre n post) x ↔ live base (pre ++ (n, false) :: post) x.
Proof.
  unfold plug. destruct post as [|[k []] post]; simpl; rewrite live_join; try done.
  rewrite !live_app. simpl.
  replace (base + total pre + n + k) with (base + total pre + (n + k)) by lia.
  intuition discriminate.
Qed.

Lemma hwp_plug_holes h pre n post : tiled h (pre ++ (n, false) :: post) →
  hwp (plug_holes (heap_ptr h + total pre)) h (λ _ h',
    tiled h' (plug pre n post) ∧ keeps h h' (pre ++ (n, false) :: post) ∧ same_vars h h' ∧
    lfree_follows (heap_ptr h) (pre ++ (n, false) :: post) (lfree h)
      (plug pre n post) (lfree h')).
Proof.
  intros Ht. pose proof (tiled_pos _ _ _ Ht) as (Hpre&Hpost&Htot&Hokp&Hokq&Hc).
  pose proof (ti_end _ _ Ht). apply Forall_cons in Hokq as [[Hn _] Hokq]. simpl in *.
  pose proof (total_nonneg _ Hokq). apply blocks_cons in Hc as [Hh _].
  unfold plug_holes. do 2 hstep. do 2 (hbind; apply hwp_assert; [apply bool_decide_true; lia|]).
  hbind. eapply hwp_get_used; [done|]. hbind. apply hwp_assert; [done|].
  hbind. eapply hwp_mono; [by apply hwp_plug_forward|]. unfold plug.
  intros _ h1. destruct (join_right n post) as [n1 post1] eqn:EJ. intros (Ht1&Hk1&Hs1&Hl1).
  assert (lfree_follows (heap_ptr h) (pre ++ (n, false) :: post) (lfree h)
    (pre ++ (n1, false) :: post1) (lfree h1)) as HF1.
  { destruct post as [|[k []] post]; simpl in *; simplify_eq; rewrite Hl1;
      [apply lfree_follows_refl..|]. apply Forall_cons in Hokq as [[Hk _] _]. simpl in Hk.
    apply lfree_join; lia. }
  replace (heap_ptr h) with (heap_ptr h1) at 1 by (by destruct Hs1 as [-> _]).
  eapply hwp_mono; [by apply hwp_plug_backward|].
  intros _ h2 (Ht2&Hk2&Hs2&Hl2). unfold same_vars in *. split_and!; try done; try (intuition congruence).
  - intros x Hx. rewrite Hk2, Hk1; [done..|]. destruct Hs1 as [-> _].
    rewrite <-live_plug in Hx. unfold plug in Hx. rewrite EJ in Hx. by rewrite <-live_join.
  - eapply lfree_follows_trans; [exact HF1|]. destruct Hs1 as [Eb _]. rewrite Eb in Hl2.
    destruct pre as [|[k u] pre _] using rev_ind; [rewrite Hl2; apply lfree_follows_refl|].
    rewrite last_used_snoc in Hl2. rewrite join_snoc, <-app_assoc. simpl.
    destruct u; [rewrite Hl2; apply lfree_follows_refl|].
    rewrite prev_of_app, total_app in Hl2. simpl in Hl2. rewrite Z.add_0_r, Z.add_assoc in Hl2.
    rewrite Hl2. apply Forall_app in Hokp as [_ [[? _] _]%Forall_cons]. simpl in *.
    apply lfree_join; [lia|]. pose proof (tiled_pos _ _ _ Ht1) as (_&_&_&_&[[] _]%Forall_cons&_).
    simpl in *. lia.
Qed.

Lemma separated_weaken u bs : separated u bs → separated true bs.
Proof. destruct bs as [|[] ?]; simpl; tauto. Qed.

Lemma separated_plug pre n post : separated true (pre ++ (n, true) :: post) →
  separated true (plug pre n post).
Proof.
  unfold plug. intros [Hp [_ Hq]]%separated_app.
  destruct (join_right n post) as [n1 post1] eqn:EJ.
  assert (separated false post1) as Hq1.
  { destruct post as [|[k []] post]; simpl in *; simplify_eq; naive_solver. }
  clear EJ Hq post n. revert Hp. destruct pre as [|[k u] pre _] using rev_ind; [by simpl; auto|].
  rewrite join_snoc, separated_app. simpl. intros [Hp [Hu _]].
  destruct u; rewrite separated_app; simpl; auto.
Qed.

Lemma used_total_plug pre n post :
  used_total (plug pre n post) = used_total pre + used_total post.
Proof.
  unfold plug. assert (∀ n post, used_total (join pre n post) = used_total pre + used_total post) as Hj.
  { clear n post. intros n post. destruct pre as [|[k u] pre _] using rev_ind; [done|].
    rewrite join_snoc. destruct u; rewrite !used_total_app; simpl; lia. }
  destruct post as [|[k []] post]; simpl; rewrite Hj; simpl; lia.
Qed.

Lemma last_size_plug d pre n u post : Forall block_ok (pre ++ (n, u) :: post) →
  last_size d (pre ++ (n, u) :: post) <= last_size d (plug pre n post).
Proof.
  intros [Hp [[Hn _] _]%Forall_cons]%Forall_app. simpl in Hn.
  assert (∀ n1 post1, last_size n1 post1 <= last_size d (join pre n1 post1)) as Hj.
  { intros n1 post1. destruct pre as [|[k v] pre _] using rev_ind; [done|]. rewrite join_snoc.
    apply Forall_app in Hp as [_ [[? _] _]%Forall_cons]. simpl in *.
    destruct v; rewrite last_size_app; simpl; [done|]. apply last_size_grow. lia. }
  rewrite last_size_app. unfold plug. simpl.
  destruct post as [|[k []] post]; simpl; rewrite <-Hj; try done.
  apply last_size_grow. lia.
Qed.

(** ** Taking a block *)

(** The offset of the first free block from [o] on. *)
Fixpoint first_free (o : Z) bs : Z :=
  match bs with
  | [] => o
  | (n, u) :: bs => if u then first_free (o + n) bs else o
  end.

Lemma first_free_ok o bs : free_or_end o bs (first_free o bs).
Proof.
  unfold free_or_end. revert o. induction bs as [|[n []] bs IH]; intros o; simpl; [right; lia| |auto].
  destruct (IH (o + n)) as [?|?]; [auto|right; lia].
Qed.
Lemma first_free_lowest o bs : Forall block_ok bs → lowest o bs (first_free o bs).
Proof.
  intros Hok. revert o. induction Hok as [|[n u] bs [Hn _] Hok IH]; intros o a; simpl; [done|].
  destruct u; simpl in *; intros [[]|Ha]; try done; [by apply IH|lia|].
  apply free_in_range in Ha; [lia|done].
Qed.

Lemma hwp_skip_used h pre post fuel Q : tiled h (pre ++ post) →
  lfree h = heap_ptr h + total pre → total post < Z.of_nat fuel →
  Q tt (set_lfree (first_free (heap_ptr h + total pre) post) h) → hwp (skip_used fuel) h Q.
Proof.
  revert h pre post. induction fuel as [|fuel IH]; intros h pre post Ht Hl Hf HQ;
    pose proof (tiled_pos _ _ _ Ht) as (Hpre&Hpost&Htot&Hokp&Hokq&Hc); [lia|].
  pose proof (ti_end _ _ Ht). destruct (chain_head _ _ _ _ _ Hc) as (q&_&Hh).
  cbn [skip_used]. do 2 hstep. hbind. rewrite Hl. eapply hwp_get_used; [done|].
  destruct post as [|[n u] post]; simpl in *.
  { rewrite bool_decide_false by (intros []; lia). hstep.
    replace (set_lfree _ h) with h in HQ by (destruct h; simpl in *; by rewrite Hl). done. }
  apply Forall_cons in Hokq as [[Hn _] Hokq]. simpl in Hn. pose proof (total_nonneg _ Hokq).
  destruct u; cbn [flag_of first_free] in *.
  - rewrite bool_decide_true by lia. hbind. eapply hwp_get_next; [done|]. simpl. hbind.
    eapply hwp_block_at; [done|lia|]. hstep.
    apply (IH _ (pre ++ [(n, true)]) post).
    + rewrite <-app_assoc. by eapply tiled_ext.
    + simpl. rewrite total_app. simpl. lia.
    + lia.
    + simpl. rewrite total_app. simpl. by rewrite Z.add_0_r, Z.add_assoc.
  - rewrite bool_decide_false by (intros []; lia). hstep.
    replace (set_lfree _ h) with h in HQ by (destruct h; simpl in *; by rewrite Hl). done.
Qed.

(** Writing a header over any bytes: the four fields in the order of the code. *)
Lemma hwp_new_header h a g u n p Q : byte_mem (hmem h) → mapped (hmem h) a 12 →
  in_u16 g → in_u16 u → in_u32 n → in_u32 p →
  (∀ m', touches (hmem h) m' a 12 → hdr m' a = Some (HeapMem g u n p) → Q tt (set_hmem m' h)) →
  hwp (put_magic a g;; put_used a u;; put_next a n;; put_prev a p) h Q.
Proof.
  intros Hb Hm Hg Hu Hn Hp HQ. destruct (hdr_total _ _ Hm) as [[g0 u0 n0 p0] Hh].
  hbind. eapply hwp_put_magic; [done..|]. simpl. intros m1 T1 H1.
  hbind. eapply hwp_put_used; [done|by eapply t_bytes|done|]. simpl. intros m2 T2 H2.
  hbind. eapply hwp_put_next; [done|by eapply t_bytes|done|]. simpl. intros m3 T3 H3.
  eapply hwp_put_prev; [done|by eapply t_bytes|done|]. simpl. intros m4 T4 H4.
  apply HQ; [|done]. eauto using touches_trans.
Qed.

Lemma hwp_split_block h o size nx g u p : byte_mem (hmem h) → 0 <= heap_ptr h → 0 <= o → 0 <= size →
  heap_ptr h + o + 24 + size <= 2 ^ 32 → in_u32 nx →
  mapped (hmem h) (heap_ptr h + (o + 12 + size)) 12 →
  hdr (hmem h) (heap_ptr h + o) = Some (HeapMem g u nx p) →
  hwp (split_block (heap_ptr h + o) o size) h (λ r h', r = heap_ptr h + (o + 12 + size) ∧
    ∃ m1, h' = set_hmem m1 h ∧ byte_mem m1 ∧ (∀ x, is_Some (hmem h !! x) → is_Some (m1 !! x)) ∧
      hdr m1 (heap_ptr h + o) = Some (HeapMem g u (o + 12 + size) p) ∧
      hdr m1 r = Some (HeapMem HEAP_MAGIC 0 nx o) ∧
      ∀ x, ¬ heap_ptr h + o <= x < heap_ptr h + o + 12 → ¬ r <= x < r + 12 →
        m1 !! x = hmem h !! x).
Proof.
  intros Hb Hbase Ho Hsz Htop Hnx Hm Hh. set (a2 := heap_ptr h + (o + 12 + size)) in *.
  destruct (hdr_total _ _ Hm) as [[g0 u0 n0 p0] Hh0].
  unfold split_block, block_at. change SIZEOF_STRUCT_MEM with 12. hbind. hstep. hstep.
  rewrite !u32_small by (unfold in_u32; try rewrite u32_small; unfold in_u32; lia). fold a2.
  hbind. eapply hwp_put_magic; [done..|]. simpl. intros m1 T1 H1.
  hbind. eapply hwp_put_used; [done|by eapply t_bytes|done|]. simpl. intros m2 T2 H2.
  assert (hdr m2 (heap_ptr h + o) = hdr (hmem h) (heap_ptr h + o)) as E2.
  { apply hdr_agree. eapply touches_agree; [by eapply touches_trans|]. unfold a2. lia. }
  hbind. eapply hwp_get_next; [by rewrite <-Hh, <-E2|]. simpl.
  hbind. eapply hwp_put_next; [done|by eapply t_bytes|done|]. simpl. intros m3 T3 H3.
  hbind. eapply hwp_put_prev; [done|by eapply t_bytes|unfold in_u32; lia|]. simpl. intros m4 T4 H4.
  assert (touches (hmem h) m4 a2 12) as T by eauto using touches_trans.
  assert (hdr m4 (heap_ptr h + o) = hdr (hmem h) (heap_ptr h + o)) as E4.
  { apply hdr_agree. eapply touches_agree; [done|]. unfold a2. lia. }
  hbind. eapply hwp_put_next; [by rewrite <-Hh, <-E4|by eapply t_bytes|unfold in_u32; lia|].
  simpl. intros m5 T5 H5. hstep. split; [done|]. exists m5. split_and!; try done.
  - by eapply t_bytes.
  - intros x Hx. eapply t_dom; [exact T5|]. by eapply t_dom.
  - rewrite (hdr_agree m4); [done|]. eapply touches_agree; [done|]. unfold a2. lia.
  - intros x ??. rewrite (t_out _ _ _ _ T5), (t_out _ _ _ _ T); done.
Qed.

Lemma touches_refl m a n : byte_mem m → touches m m a n.
Proof. by split. Qed.

Lemma hwp_relink_next h bs ptr2 o2 post q g u p Q : tiled h bs → ∀ m1,
  byte_mem m1 → Forall block_ok post → 0 <= ptr2 <= o2 →
  o2 + total post = mem_size_aligned h + 12 →
  hdr m1 (heap_ptr h + ptr2) = Some (HeapMem g u o2 p) →
  chain m1 (heap_ptr h) q o2 post →
  (∀ m2, touches m1 m2 (heap_ptr h + o2) 12 → chain m2 (heap_ptr h) ptr2 o2 post →
     Q tt (set_hmem m2 h)) →
  hwp (relink_next (heap_ptr h + ptr2) ptr2) (set_hmem m1 h) Q.
Proof.
  intros Ht m1 Hb Hok Hp Hend Hh Hc HQ. pose proof (total_nonneg _ Hok). destruct Ht.
  unfold relink_next. change SIZEOF_STRUCT_MEM with 12. hbind. eapply hwp_get_next; [done|]. simpl.
  hstep. simpl. rewrite (u32_small (_ + 12)) by (unfold in_u32; lia).
  destruct post as [|[k v] post]; simpl in *.
  { rewrite bool_decide_false by lia. hstep. apply HQ; [by apply touches_refl|]. by eapply chain_nil. }
  apply Forall_cons in Hok as Hok'. destruct Hok' as [[Hk _] Hok']. simpl in Hk.
  pose proof (total_nonneg _ Hok'). rewrite bool_decide_true by lia.
  destruct (chain_head _ _ _ _ _ Hc) as (q'&_&Hh2).
  unfold block_at. hbind. hstep. hstep. simpl. rewrite u32_small by (unfold in_u32; lia).
  eapply hwp_put_prev_at; [done|done|unfold in_u32; lia|]. simpl. intros m2 T2 H2.
  apply (HQ m2 T2). by eapply chain_set_prev.
Qed.

(** What becomes of a free block of [n] bytes of which [size] are taken. *)
Definition take_block (n size : Z) : list block :=
  if bool_decide (size + 24 <= n - 12) then [(12 + size, true); (n - 12 - size, false)]
  else [(n, true)].

Lemma total_take n size : total (take_block n size) = n.
Proof. unfold take_block. case_bool_decide; simpl; lia. Qed.
Lemma take_block_ok n size : block_ok (n, false) → 0 <= size → size mod 4 = 0 → 12 + size <= n →
  Forall block_ok (take_block n size).
Proof.
  intros [Hn Hn4] ???. simpl in *. unfold take_block.
  case_bool_decide; repeat constructor; simpl; try lia; mlia.
Qed.

(** The variables of the heap but for the statistics, the semaphore and [lfree]. *)
Definition same_place (h h' : heap) : Prop :=
  heap_ptr h' = heap_ptr h ∧ heap_end h' = heap_end h ∧
  mem_size_aligned h' = mem_size_aligned h ∧ interrupt_nest h' = interrupt_nest h.

Definition counted (n : Z) (h : heap) : heap :=
  let u := u32 (used_mem h + n) in set_max_mem (Z.max (max_mem h) u) (set_used_mem u h).

Lemma hwp_count_used n h Q : Q tt (counted n h) → hwp (count_used n) h Q.
Proof.
  intros HQ. unfold count_used. do 4 hstep. simpl. unfold counted in HQ.
  case_bool_decide; hstep; [by rewrite Z.max_r in HQ by lia|].
  rewrite Z.max_l in HQ by lia. by destruct h.
Qed.

(** A block is split in two. *)
Lemma tiled_split h m pre n u v post size : tiled h (pre ++ (n, u) :: post) →
  0 <= size → size mod 4 = 0 → size + 24 <= n →
  byte_mem m → (∀ x, is_Some (hmem h !! x) → is_Some (m !! x)) →
  agree (hmem h) m (heap_ptr h) (total pre) →
  hdr m (heap_ptr h + total pre) =
    Some (HeapMem HEAP_MAGIC (flag_of v) (total pre + 12 + size) (prev_of 0 0 pre)) →
  hdr m (heap_ptr h + (total pre + 12 + size)) =
    Some (HeapMem HEAP_MAGIC 0 (total pre + n) (total pre)) →
  chain m (heap_ptr h) (total pre + 12 + size) (total pre + n) post →
  tiled (set_hmem m h) (pre ++ (12 + size, v) :: (n - 12 - size, false) :: post).
Proof.
  intros Ht Hs Hs4 Hn Hb Hd Ha H1 H2 Hc.
  pose proof (tiled_pos _ _ _ Ht) as (_&_&_&_&[[_ Hn4] _]%Forall_cons&_). simpl in Hn4.
  apply (tiled_splice h m pre [(n, u)] [(12 + size, v); (n - 12 - size, false)] post); try done;
    simpl; try lia.
  - repeat constructor; simpl; try lia; mlia.
  - rewrite H1. replace (total pre + (12 + size)) with (total pre + 12 + size) by lia.
    split_and!; [done| |done]. rewrite H2. do 2 f_equal. lia.
  - rewrite Z.add_0_r. by replace (total pre + (12 + size)) with (total pre + 12 + size) by lia.
Qed.

Lemma hwp_cut_block h pre n post size : tiled h (pre ++ (n, false) :: post) →
  0 <= size → size mod 4 = 0 → 12 + size <= n →
  hwp (cut_block (heap_ptr h + total pre) (total pre) size (total pre + n)) h (λ _ h',
    ∃ m', h' = counted (used_total (take_block n size)) (set_hmem m' h) ∧
      tiled h' (pre ++ take_block n size ++ post) ∧
      keeps h h' (pre ++ (n, false) :: post)).
Proof.
  intros Ht Hs Hs4 Hfit. pose proof (tiled_pos _ _ _ Ht) as (Hpre&Hpost&Htot&Hokp&Hokq&Hc).
  pose proof (ti_bytes _ _ Ht) as Hb. pose proof Ht as [_ Hbase _ Hsz Htop Hmap Hend _ _ _].
  apply Forall_cons in Hokq as [Hnok Hokq]. pose proof Hnok as [Hn Hn4]. simpl in Hn, Hn4.
  simpl in Hpost, Htot. pose proof (total_nonneg _ Hokq).
  apply blocks_cons in Hc as [Hh Hc]. simpl in Hh.
  unfold cut_block. change SIZEOF_STRUCT_MEM with 12. change MIN_SIZE_ALIGNED with 12.
  rewrite (u32_small (total pre + 12)), (u32_small (total pre + n - _)),
    (u32_small (size + 12 + 12)), (u32_small (total pre + 12 + size)), (u32_small (size + 12))
    by (unfold in_u32; lia). unfold take_block.
  destruct (decide (size + 24 <= n - 12)) as [Hsp|Hsp].
  - rewrite !bool_decide_true by lia. hbind. eapply hwp_mono.
    { eapply hwp_split_block; [done|lia|lia|lia|lia| | |exact Hh]; [unfold in_u32; lia|].
      eapply mapped_sub; [exact Hmap|lia|lia]. }
    intros r h1 (->&m1&->&Hb1&Hd1&Hh1&Hh2&Ho1). hbind.
    eapply hwp_put_used; [exact Hh1|done|done|]. simpl. intros m2 T2 Hh3. hbind.
    set (a2 := heap_ptr h + (total pre + 12 + size)) in *.
    eapply (hwp_relink_next h) with (m1 := m2) (o2 := total pre + n) (post := post);
      [done|by eapply t_bytes|done|lia|lia| | |].
    { rewrite (hdr_agree m1); [exact Hh2|]. eapply touches_agree; [done|]. unfold a2. lia. }
    { eapply chain_agree; [done| |exact Hc]. intros x Hx.
      rewrite (t_out _ _ _ _ T2), Ho1 by (unfold a2; lia). done. }
    intros m3 T3 Hc3. apply hwp_count_used. exists m3.
    assert (∀ x, ¬ heap_ptr h + total pre <= x < heap_ptr h + total pre + 12 → ¬ a2 <= x < a2 + 12 →
      ¬ heap_ptr h + (total pre + n) <= x < heap_ptr h + (total pre + n) + 12 →
      m3 !! x = hmem h !! x) as Hout.
    { intros x ???. rewrite (t_out _ _ _ _ T3), (t_out _ _ _ _ T2), Ho1; done. }
    split_and!.
    + f_equal. simpl. lia.
    + apply (tiled_ext (set_hmem m3 h)); [|done..].
      eapply (tiled_split h m3); [done|lia|done|lia|by eapply t_bytes| | | | |done].
      * intros x Hx. eapply t_dom, t_dom; [done|done|]. auto.
      * intros x Hx. apply Hout; unfold a2; lia.
      * rewrite (hdr_agree m2); [done|]. eapply touches_agree; [done|lia].
      * rewrite (hdr_agree m2); [|eapply touches_agree; [done|lia]].
        rewrite (hdr_agree m1); [done|]. eapply touches_agree; [done|lia].
    + intros x Hx. simpl. apply live_app in Hx as [Hx|[[]|Hx]]; try done;
        apply live_range in Hx; try done; apply Hout; unfold a2; lia.
  - rewrite !bool_decide_false by lia. hbind.
    eapply hwp_put_used; [exact Hh|done|done|]. simpl. intros m1 T1 Hh1. hbind.
    eapply hwp_get_next; [done|]. simpl. hbind.
    unfold offset_of. hstep. hstep. simpl.
    replace (heap_ptr h + total pre - heap_ptr h) with (total pre) by lia.
    rewrite (u32_small (total pre)) by (unfold in_u32; lia).
    rewrite (u32_small (_ - _)) by (unfold in_u32; lia).
    apply hwp_count_used. exists m1. split_and!.
    + f_equal. simpl. lia.
    + apply (tiled_ext (set_hmem m1 h)); [|done..].
      apply (tiled_splice h m1 pre [(n, false)] [(n, true)] post); simpl; [done| |lia|by eapply t_bytes| | | |].
      * by repeat constructor.
      * intros x Hx. by eapply t_dom.
      * intros x Hx. apply (t_out _ _ _ _ T1). lia.
      * done.
      * eapply chain_agree; [done| |].
        -- eapply touches_agree; [exact T1|lia].
        -- by replace (total pre + (n + 0)) with (total pre + n) by lia.
    + intros x Hx. simpl. apply live_app in Hx as [Hx|[[]|Hx]]; try done;
        apply live_range in Hx; try done; apply (t_out _ _ _ _ T1); lia.
Qed.

Lemma hwp_lfree_after h pre rest (Q : unit → heap → Prop) :
  tiled h (pre ++ rest) → head_used rest = true →
  Q tt (set_lfree (first_free (heap_ptr h + total pre) rest) h) →
  lfree h = heap_ptr h + total pre →
  hwp (fuel ← hget block_fuel; skip_used fuel;;
       lf ← hget lfree; e ← hget heap_end; u ← get_used lf;
       hassert (bool_decide (lf = e ∨ u = 0))) h Q.
Proof.
  intros Ht Hu HQ Hl. pose proof (tiled_pos _ _ _ Ht) as (Hpre&Hpost&Htot&Hokp&Hokq&Hc).
  pose proof Ht as [_ Hbase _ Hsz Htop _ Hend _ _ _].
  hstep. hbind. eapply hwp_skip_used; [done..| |].
  { unfold block_fuel. change SIZEOF_STRUCT_MEM with 12. lia. }
  do 2 hstep. simpl. hbind. set (h1 := set_lfree _ h).
  assert (tiled h1 (pre ++ rest)) as Ht1 by (by eapply tiled_ext).
  assert (∃ hd, hdr (hmem h) (first_free (heap_ptr h + total pre) rest) = Some hd ∧
    (used hd = 0 ∨ first_free (heap_ptr h + total pre) rest = heap_end h)) as (hd&Hh&Hhd).
  { clear Ht1 h1 Hu HQ Hl. revert Hc. generalize (prev_of 0 0 pre). revert Hpre Htot.
    rewrite Hend. clear Ht Hokp Hpost. generalize (total pre). clear Hend Hsz Htop.
    induction Hokq as [|[n u] rest [Hn _] Hok IH]; intros o Ho Htot p Hc; simpl in *.
    - destruct Hc as [_ [q Hq]]. simpl in Hq. rewrite Z.add_0_r in Hq. eexists. split; [done|].
      right. lia.
    - apply blocks_cons in Hc as [Hh Hc]. destruct u; [|eexists; split; [done|by left]].
      specialize (IH (o + n)). rewrite Z.add_assoc in IH. eapply IH; [lia|lia|done]. }
  eapply hwp_get_used; [done|]. simpl. apply hwp_assert; [|done].
  apply bool_decide_true. tauto.
Qed.

Lemma land3 a : a mod 4 = 0 → Z.land a (RT_ALIGN_SIZE - 1) = 0.
Proof. intros. change (RT_ALIGN_SIZE - 1) with (Z.ones 2). by rewrite Z.land_ones. Qed.

(** The header of a block is written again, with a new use flag or none. *)
Lemma tiled_rehdr h m' pre k u v rest : tiled h (pre ++ (k, u) :: rest) →
  touches (hmem h) m' (heap_ptr h + total pre) 12 →
  hdr m' (heap_ptr h + total pre) =
    Some (HeapMem HEAP_MAGIC (flag_of v) (total pre + k) (prev_of 0 0 pre)) →
  tiled (set_hmem m' h) (pre ++ (k, v) :: rest).
Proof.
  intros Ht T Hh. pose proof (tiled_pos _ _ _ Ht) as (_&_&_&_&[[Hk Hk4] Hok]%Forall_cons&Hc).
  simpl in Hk, Hk4. apply blocks_cons in Hc as [_ Hc].
  apply (tiled_splice h m' pre [(k, u)] [(k, v)] rest); simpl; try done.
  - by apply Forall_singleton.
  - by eapply t_bytes.
  - by eapply t_dom.
  - intros x Hx. apply (t_out _ _ _ _ T). lia.
  - rewrite Z.add_0_r. eapply chain_agree; [done| |exact Hc]. eapply touches_agree; [done|lia].
Qed.

(** Data is outside the header of any block. *)
Lemma live_not_hdr o pre k u rest x : Forall block_ok (pre ++ (k, u) :: rest) →
  live o (pre ++ (k, u) :: rest) x → ¬ o + total pre <= x < o + total pre + 12.
Proof.
  intros [Hp [[Hk _] Hr]%Forall_cons]%Forall_app Hx. simpl in Hk.
  apply live_app in Hx as [Hx|[[_ Hx]|Hx]]; [|lia|]; apply live_range in Hx; try done; lia.
Qed.

(** The lowest free block after the block behind [pre] is taken. *)
Definition lfree_after (base : Z) pre rest (lf : Z) : Z :=
  if bool_decide (base + total pre = lf) then first_free (base + total pre) rest else lf.

Lemma lfree_after_ok base pre n size post lf :
  Forall block_ok (pre ++ (n, false) :: post) → 0 <= size → size mod 4 = 0 → 12 + size <= n →
  let bs := pre ++ (n, false) :: post in
  let bs' := pre ++ take_block n size ++ post in
  let lf' := lfree_after base pre (take_block n size ++ post) lf in
  (free_or_end base bs lf → free_or_end base bs' lf') ∧
  (lowest base bs lf → lowest base bs' lf').
Proof.
  intros [Hp [Hn Hq]%Forall_cons]%Forall_app ??? bs bs' lf'.
  assert (Forall block_ok (take_block n size ++ post)) as Hr
    by (apply Forall_app; auto using take_block_ok).
  unfold lf', lfree_after, bs, bs'. case_bool_decide as El.
  - split.
    + intros _. unfold free_or_end. rewrite free_in_app, total_app.
      destruct (first_free_ok (base + total pre) (take_block n size ++ post)) as [?|?];
        [auto|right; lia].
    + intros Hl a [Ha|Ha]%free_in_app; [|by apply first_free_lowest].
      pose proof (free_in_range _ _ _ Hp Ha). specialize (Hl a). rewrite free_in_app in Hl.
      specialize (Hl (or_introl Ha)). lia.
  - unfold free_or_end. split.
    + rewrite !free_in_app, !total_app, total_take. simpl.
      intros [[?|[[_ ?]|?]]|?]; [by auto|by subst| |right; lia].
      by left; right; right.
    + intros Hl a. rewrite !free_in_app, total_take. intros [Ha|[Ha|Ha]].
      * apply Hl. rewrite free_in_app. auto.
      * transitivity (base + total pre).
        -- apply Hl. rewrite free_in_app. simpl. auto.
        -- apply free_in_range in Ha; [lia|]. by apply take_block_ok.
      * apply Hl. rewrite free_in_app. simpl. auto.
Qed.

Lemma last_size_take d pre n size post :
  24 <= last_size d (pre ++ (n, false) :: post) →
  24 <= last_size d (pre ++ take_block n size ++ post).
Proof.
  rewrite !last_size_app. simpl. unfold take_block. case_bool_decide; simpl; [|done].
  destruct post as [|[] ?]; simpl; [lia|done].
Qed.

Lemma take_block_cons n size post : ∃ k t, take_block n size ++ post = (k, true) :: t.
Proof. unfold take_block. case_bool_decide; simpl; eauto. Qed.

Lemma hwp_malloc_block h pre n post size : tiled h (pre ++ (n, false) :: post) →
  0 <= size → size mod 4 = 0 → 12 + size <= n →
  let bs' := pre ++ take_block n size ++ post in
  hwp (malloc_block (total pre) size) h (λ r h', r = heap_ptr h + total pre + 12 ∧
    ∃ m', h' = set_heap_sem (u16 (heap_sem h + 1))
        (set_lfree (lfree_after (heap_ptr h) pre (take_block n size ++ post) (lfree h))
          (counted (used_total (take_block n size)) (set_hmem m' h))) ∧
      tiled h' bs' ∧ keeps h h' (pre ++ (n, false) :: post)).
Proof.
  intros Ht Hs Hs4 Hfit bs'. pose proof (tiled_pos _ _ _ Ht) as (Hpre&Hpost&Htot&Hokp&Hokq&Hc).
  pose proof Ht as [_ Hbase Hal Hsz Htop _ Hend _ Hokall _]. pose proof (total_mod _ Hokp) as Hmod.
  apply Forall_cons in Hokq as [[Hn _] Hokq]. simpl in Hn, Hpost, Htot.
  pose proof (total_nonneg _ Hokq). apply blocks_cons in Hc as [Hh Hc].
  unfold malloc_block. change SIZEOF_STRUCT_MEM with 12.
  hbind. eapply hwp_block_at; [done|lia|].
  hbind. eapply hwp_get_next; [done|]. simpl. hbind. eapply hwp_mono; [by apply hwp_cut_block|].
  intros _ h1 (m1&->&Ht1&Hk1). set (h1 := counted _ _) in *.
  destruct (take_block_cons n size post) as (k&t&Et). unfold bs'. rewrite Et in Ht1 |- *.
  pose proof (tiled_pos _ _ _ Ht1) as (_&_&_&_&_&[Hh1 _]%blocks_cons). simpl in Hh1.
  hbind. eapply hwp_put_magic; [exact Hh1|by eapply (ti_bytes _ _ Ht1)|done|].
  cbn [used next prev]. intros m2 T2 Hh2. pose proof (tiled_rehdr _ _ _ _ _ true _ Ht1 T2 Hh2) as Ht2.
  assert (keeps h (set_hmem m2 h1) (pre ++ (n, false) :: post)) as Hk2.
  { intros x Hx. rewrite <-(Hk1 x Hx). apply (t_out _ _ _ _ T2). by eapply live_not_hdr. }
  hstep. hbind. apply hwp_mono with (Q := λ _ h', h' = set_lfree
    (lfree_after (heap_ptr h) pre ((k, true) :: t) (lfree h)) (set_hmem m2 h1)).
  { unfold lfree_after. simpl. case_bool_decide as El; [|by hstep].
    by eapply hwp_lfree_after; [exact Ht2|..]. }
  intros _ h2 ->. unfold release_heap_sem. hbind. hstep. hstep. hstep. simpl.
  rewrite !(u32_small (heap_ptr h + total pre + 12)) by (unfold in_u32; lia).
  rewrite u32_small by (unfold in_u32; lia).
  hbind. apply hwp_assert; [apply bool_decide_true; lia|].
  hbind. apply hwp_assert; [apply bool_decide_true; unfold RT_ALIGN_SIZE; mlia|].
  hbind. apply hwp_assert; [apply bool_decide_true, land3; mlia|].
  hstep. split; [done|]. exists m2. split; [done|]. split; [by eapply tiled_ext|done].
Qed.
