(* ===== verification/HeapSpec.v ===== *)
(** * Correctness of the heap

    The invariant of the allocator, what [rt_malloc], [rt_free] and
    [rt_realloc] do to the blocks, and the store of independent objects the
    allocator implements for its clients. *)

From S2P Require Import Prelude KString HeapMem HeapWp HeapInv.

Implicit Types (bs pre mid post : list block) (h : heap).

(** ** The invariant *)

Record heap_inv h bs : Prop := {
  hi_tiled : tiled h bs;
  hi_separated : separated true bs;
  hi_last : 24 <= last_size 0 bs;
  hi_lfree : free_or_end (heap_ptr h) bs (lfree h);
  hi_used : used_mem h = used_total bs;
  hi_max : used_mem h <= max_mem h <= mem_size_aligned h + 12;
  hi_sem : heap_sem h = 1;
  hi_nest : interrupt_nest h = 0;
}.

(** The test of the loop in [rt_malloc] for the block at offset [o] of a heap of
    [total] bytes: it is free, has room for [size] bytes, and starts below
    [total - size], which leaves out a last block that the request would fill
    exactly. *)
Definition passes (total size o : Z) (b : block) : Prop :=
  b.2 = false ∧ 12 + size <= b.1 ∧ o < total - size.
Fixpoint none_passes (total size o : Z) bs : Prop :=
  match bs with [] => True | b :: bs => ¬ passes total size o b ∧ none_passes total size (o + b.1) bs end.

Lemma none_passes_high total size o bs : Forall block_ok bs → total - size <= o → none_passes total size o bs.
Proof.
  intros Hok. revert o. induction Hok as [|[n u] bs [Hn _] Hok IH]; intros o Ho; simpl in *; [done|].
  split; [unfold passes; simpl; lia|]. apply IH. lia.
Qed.

(** ** Allocation *)

Lemma hwp_malloc_loop h pre post size fuel Q : tiled h (pre ++ post) →
  0 <= size <= mem_size_aligned h → total post < Z.of_nat fuel →
  (∀ mid n post', post = mid ++ (n, false) :: post' →
     none_passes (mem_size_aligned h) size (total pre) mid →
     passes (mem_size_aligned h) size (total pre + total mid) (n, false) →
     hwp (malloc_block (total pre + total mid) size) h Q) →
  (none_passes (mem_size_aligned h) size (total pre) post →
     Q 0 (set_heap_sem (u16 (heap_sem h + 1)) h)) →
  hwp (malloc_loop fuel (total pre) size) h Q.
Proof.
  intros Ht Hsize. revert pre post Ht.
  induction fuel as [|fuel IH]; intros pre post Ht Hf Hfit Hnone;
    pose proof (tiled_pos _ _ _ Ht) as (Hpre&Hpost&Htot&Hokp&Hokq&Hc); [lia|].
  pose proof Ht as [_ Hbase _ Hsz Htop _ Hend _ _ _].
  cbn [malloc_loop]. change SIZEOF_STRUCT_MEM with 12. hstep.
  rewrite (u32_small (_ - size)) by (unfold in_u32; lia). case_bool_decide as Hlt.
  2:{ unfold release_heap_sem. hbind. hstep. hstep. hstep. apply Hnone, none_passes_high; [done|lia]. }
  destruct post as [|[n u] post]; [simpl in *; lia|]. simpl in Hpost, Htot, Hf.
  apply Forall_cons in Hokq as [[Hn _] Hokq]. simpl in Hn. pose proof (total_nonneg _ Hokq).
  apply blocks_cons in Hc as [Hh _]. hbind. eapply hwp_block_at; [done|lia|].
  hbind. eapply hwp_get_used; [done|]. hbind. eapply hwp_get_next; [done|]. cbn [used next].
  rewrite (u32_small (total pre + 12)) by (unfold in_u32; lia).
  rewrite u32_small by (unfold in_u32; lia). case_bool_decide as Hb.
  - destruct u; [by destruct Hb|]. specialize (Hfit [] n post eq_refl I).
    rewrite Z.add_0_r in Hfit. apply Hfit. unfold passes. simpl. lia.
  - replace (total pre + n) with (total (pre ++ [(n, u)])) by (rewrite total_app; simpl; lia).
    assert (¬ passes (mem_size_aligned h) size (total pre) (n, u)) as Hno.
    { intros (Eu&?&_). simpl in *. subst u. apply Hb. split; [done|lia]. }
    apply (IH _ post).
    + by rewrite <-app_assoc.
    + lia.
    + intros mid k post' -> Hmid Hk. rewrite total_app in *. simpl in *.
      specialize (Hfit ((n, u) :: mid) k post' eq_refl). simpl in Hfit.
      replace (total pre + (n + 0) + total mid) with (total pre + (n + total mid)) in * by lia.
      apply Hfit; [|done]. split; [done|]. by replace (total pre + n) with (total pre + (n + 0)) by lia.
    + intros Hall. apply Hnone. simpl. split; [done|]. rewrite total_app in Hall.
      simpl in Hall. by rewrite Z.add_0_r in Hall.
Qed.

(** The bytes a request for [size] takes. *)
Definition request (size : Z) : Z := Z.max 12 (4 * ((size + 3) / 4)).

Lemma request_ok size : 0 <= size → 12 <= request size ∧ size <= request size ∧ request size mod 4 = 0.
Proof. unfold request. intros. destruct (Z.max_spec 12 (4 * ((size + 3) / 4))) as [[? ->]|[? ->]]; mlia. Qed.

(** What a successful allocation of the first fitting block at or behind
    [lfree] leaves. *)
Definition allocated h bs pre n post size (p : Z) h' : Prop :=
  bs = pre ++ (n, false) :: post ∧ 12 + request size <= n ∧
  p = heap_ptr h + total pre + 12 ∧
  heap_inv h' (pre ++ take_block n (request size) ++ post) ∧
  keeps h h' bs ∧ same_place h h' ∧
  (lowest (heap_ptr h) bs (lfree h) →
   lowest (heap_ptr h) (pre ++ take_block n (request size) ++ post) (lfree h')).

Lemma free_or_end_split h bs : tiled h bs → free_or_end (heap_ptr h) bs (lfree h) →
  ∃ pre post, bs = pre ++ post ∧ lfree h = heap_ptr h + total pre.
Proof.
  intros _ [Hf|He]; [|by exists bs, []; rewrite app_nil_r].
  revert Hf. generalize (heap_ptr h). induction bs as [|[n u] bs IH]; intros b; simpl; [done|].
  intros [[-> ->]|Hf].
  - exists [], ((n, false) :: bs). simpl. by rewrite Z.add_0_r.
  - destruct (IH _ Hf) as (pre&post&->&E). exists ((n, u) :: pre), post. simpl. split; [done|lia].
Qed.

Lemma separated_take pre n size post : separated true (pre ++ (n, false) :: post) →
  separated true (pre ++ take_block n size ++ post).
Proof.
  intros [Hp Hr]%separated_app. apply separated_app. split; [done|]. simpl in Hr.
  unfold take_block. case_bool_decide; simpl; [naive_solver|].
  split; [by right|]. by eapply separated_weaken, Hr.
Qed.

Lemma none_passes_app total size o l1 l2 : none_passes total size o (l1 ++ l2) ↔
  none_passes total size o l1 ∧ none_passes total size (o + HeapInv.total l1) l2.
Proof.
  revert o. induction l1 as [|[n u] l1 IH]; intros o; simpl; [rewrite Z.add_0_r; tauto|].
  rewrite IH, Z.add_assoc. tauto.
Qed.

(** No block in front of the lowest free one is free. *)
Lemma lowest_used base pre post n : Forall block_ok pre →
  lowest base (pre ++ post) (base + total pre) → (n, false) ∉ pre.
Proof.
  intros Hok Hlow. assert (∀ a, ¬ free_in base pre a) as Hno.
  { intros a Ha. specialize (Hlow a). rewrite free_in_app in Hlow.
    pose proof (free_in_range _ _ _ Hok Ha). specialize (Hlow (or_introl Ha)). lia. }
  clear Hlow Hok. revert base Hno. induction pre as [|[m u] pre IH]; intros base Hno;
    [apply not_elem_of_nil|]. intros [E|Hin]%elem_of_cons.
  - injection E as <- <-. by apply (Hno base); left.
  - eapply (IH (base + m)), Hin. intros a Ha. apply (Hno a). by right.
Qed.

(** The free blocks the loop passes over: they are too small, or the last block
    of the heap, which the request would fill exactly. *)
Lemma none_passes_free cap size o bs pre n post : none_passes cap size o bs → o + total bs = cap + 12 →
  Forall block_ok bs → bs = pre ++ (n, false) :: post →
  n < 12 + size ∨ n = 12 + size ∧ post = [].
Proof.
  intros Hno Ho Hok ->. apply none_passes_app in Hno as [_ [Hn _]]. unfold passes in Hn. simpl in Hn.
  rewrite total_app in Ho. simpl in Ho. apply Forall_app in Hok as [_ [_ Hok]%Forall_cons].
  destruct (decide (n < 12 + size)); [by left|right].
  destruct post as [|[m u] post].
  - simpl in Ho. split; [|done]. destruct (decide (o + total pre < cap - size)); [|lia].
    exfalso. apply Hn. split_and!; [done|lia|done].
  - apply Forall_cons in Hok as [[Hm _] Hok]. pose proof (total_nonneg _ Hok). simpl in Ho, Hm.
    exfalso. apply Hn. split_and!; [done|lia|lia].
Qed.

Lemma none_passes_large cap size o bs : Forall block_ok bs → total bs < 12 + size → none_passes cap size o bs.
Proof.
  intros Hok. revert o. induction Hok as [|[n u] bs [Hn _] Hok IH]; intros o Ht; simpl in *; [done|].
  pose proof (total_nonneg _ Hok). split; [intros (_&?&_); simpl in *; lia|]. apply IH. lia.
Qed.

Lemma hwp_take_sem h Q : heap_sem h = 1 → Q tt (set_heap_sem 0 h) → hwp take_heap_sem h Q.
Proof.
  intros Hs HQ. unfold take_heap_sem. hstep. rewrite Hs. hbind.
  apply hwp_assert; [done|]. by hstep.
Qed.

Lemma hwp_not_in_interrupt h Q : interrupt_nest h = 0 → Q tt h → hwp not_in_interrupt h Q.
Proof. intros Hn HQ. unfold not_in_interrupt. hstep. rewrite Hn. by apply hwp_assert. Qed.

(** The search starts at [lfree], behind the blocks [low]. *)
Definition from_lfree h low : Prop := lfree h = heap_ptr h + total low.

(** The outcome of [rt_malloc size]: no memory, with nothing changed, when no
    block from [lfree] on passes the test of the loop, or the first that does. *)
Definition malloc_post h bs size (p : Z) h' : Prop :=
  (p = 0 ∧ h' = h ∧ (0 < size → ∃ low rest, bs = low ++ rest ∧ from_lfree h low ∧
     none_passes (mem_size_aligned h) (request size) (total low) rest)) ∨
  (0 < size ∧ ∃ pre n post, allocated h bs pre n post size p h' ∧
     ∃ low mid, pre = low ++ mid ∧ from_lfree h low ∧
       none_passes (mem_size_aligned h) (request size) (total low) mid ∧
       passes (mem_size_aligned h) (request size) (total pre) (n, false)).

Lemma allocated_intro h bs pre n post size m' :
  heap_inv h bs → 0 <= size → bs = pre ++ (n, false) :: post → 12 + request size <= n →
  let h' := set_heap_sem 1
    (set_lfree (lfree_after (heap_ptr h) pre (take_block n (request size) ++ post) (lfree h))
       (counted (used_total (take_block n (request size))) (set_hmem m' (set_heap_sem 0 h)))) in
  tiled h' (pre ++ take_block n (request size) ++ post) → keeps h h' bs →
  allocated h bs pre n post size (heap_ptr h + total pre + 12) h'.
Proof.
  intros [Ht Hsep Hlast Hlf Hu Hmax Hs Hn] Hsz -> Hfit h' Ht' Hk.
  destruct (request_ok size Hsz) as (?&?&?).
  destruct (lfree_after_ok (heap_ptr h) pre n (request size) post (lfree h)) as [Hf Hl];
    [by eapply ti_blocks|lia|done|done|].
  pose proof (used_total_range _ (ti_blocks _ _ Ht')) as Hur. pose proof (ti_total _ _ Ht') as Htot.
  pose proof Ht as [_ ? _ ? ? _ _ _ _ _].
  assert (u32 (used_mem h + used_total (take_block n (request size))) =
    used_total (pre ++ take_block n (request size) ++ post)) as Eu.
  { rewrite Hu, !used_total_app in *. simpl in *. rewrite u32_small by (unfold in_u32; lia). lia. }
  split_and!; try done. split; try done.
  - by apply separated_take.
  - by apply last_size_take.
  - by apply Hf.
  - simpl. rewrite Eu. simpl in Htot. lia.
Qed.

Lemma hwp_malloc h bs size : heap_inv h bs → 0 <= size <= 2 ^ 32 - 4 →
  hwp (rt_malloc size) h (malloc_post h bs size).
Proof.
  intros HI Hsize. pose proof HI as [Ht Hsep Hlast Hlf Hu Hmax Hs Hn].
  pose proof (ti_size _ _ Ht). pose proof (ti_total _ _ Ht). pose proof (ti_blocks _ _ Ht) as Hok.
  pose proof (request_ok size ltac:(lia)) as (Hr12&Hrs&Hr4).
  unfold rt_malloc. hbind. apply hwp_not_in_interrupt; [done|].
  case_bool_decide as E0; [hstep; by left; split_and!; [| |lia]|].
  hstep. rewrite RT_ALIGN_4 by done. change MIN_SIZE_ALIGNED with 12.
  case_bool_decide as Elarge.
  { hstep. left. split_and!; [done..|]. intros _.
    destruct (free_or_end_split _ _ Ht Hlf) as (low&rest&->&El). exists low, rest. split_and!; [done..|].
    pose proof (tiled_pos _ _ _ Ht) as (?&?&?&?&?&_). apply none_passes_large; [done|]. unfold request. lia. }
  replace (if bool_decide _ then _ else _) with (request size)
    by (unfold request; case_bool_decide; lia).
  hbind. apply hwp_take_sem; [done|]. hstep. simpl. hbind.
  destruct (free_or_end_split _ _ Ht Hlf) as (pre&post&->&El). rewrite El.
  pose proof (tiled_pos _ _ _ Ht) as (?&?&?&Hokp&?&_).
  assert (tiled (set_heap_sem 0 h) (pre ++ post)) as Ht0 by (by eapply tiled_ext).
  eapply (hwp_offset_of (set_heap_sem 0 h)); [done|simpl; lia|]. hstep.
  eapply hwp_malloc_loop; [done| | | |].
  - simpl. unfold request in *. lia.
  - unfold block_fuel. change SIZEOF_STRUCT_MEM with 12. simpl. lia.
  - simpl. intros mid n post' -> Hmid Hfits. pose proof Hfits as (_&Hfit&_). simpl in Hfit.
    rewrite <-total_app. rewrite (assoc_L (++)) in Ht0, HI, Ht.
    eapply hwp_mono; [apply hwp_malloc_block; [exact Ht0|lia|done|done]|].
    cbn [heap_sem heap_ptr lfree set_heap_sem]. intros p h' (->&m'&->&Ht'&Hk). right. split; [lia|].
    rewrite (assoc_L (++)). exists (pre ++ mid), n, post'. split.
    + apply allocated_intro; try done. lia.
    + exists pre, mid. rewrite total_app. by split_and!.
  - simpl. intros Hno. left. split; [done|]. split; [by destruct h; simpl in *; subst|].
    intros _. by exists pre, post.
Qed.

(** ** Release *)

Definition freed h pre n post h' : Prop :=
  heap_inv h' (plug pre n post) ∧ keeps h h' (pre ++ (n, false) :: post) ∧ same_place h h' ∧
  (lowest (heap_ptr h) (pre ++ (n, true) :: post) (lfree h) →
   lowest (heap_ptr h) (plug pre n post) (lfree h')).

(** [if (mem < lfree) lfree = mem]. *)
Lemma lfree_lowered base pre n post lf :
  Forall block_ok (pre ++ (n, true) :: post) →
  let lf' := if bool_decide (base + total pre < lf) then base + total pre else lf in
  (free_or_end base (pre ++ (n, true) :: post) lf →
   free_or_end base (pre ++ (n, false) :: post) lf') ∧
  (lowest base (pre ++ (n, true) :: post) lf → lowest base (pre ++ (n, false) :: post) lf').
Proof.
  intros [Hp [_ Hq]%Forall_cons]%Forall_app. unfold free_or_end, lowest.
  setoid_rewrite free_in_app. rewrite !total_app. simpl. split.
  - case_bool_decide; [auto|]. intros [[?|[[]|?]]|?]; auto; done.
  - intros Hlow a Ha. assert (free_in base pre a ∨ free_in (base + total pre + n) post a → lf <= a)
      as Hlow' by (intros [?|?]; apply Hlow; auto).
    case_bool_decide; destruct Ha as [Ha|[[_ ->]|Ha]]; try lia; auto.
    + transitivity lf; [lia|auto].
    + transitivity lf; [lia|auto].
Qed.

Lemma hwp_set_lfree_low h a Q :
  Q tt (set_lfree (if bool_decide (a < lfree h) then a else lfree h) h) →
  hwp (lf ← hget lfree; if bool_decide (a < lf) then hset (set_lfree a) else mret tt) h Q.
Proof. intros HQ. hstep. case_bool_decide; hstep; [done|by destruct h]. Qed.

Lemma same_vars_place h h' : same_vars h h' → same_place h h'.
Proof. unfold same_vars, same_place. tauto. Qed.

(** The data of a block starts in front of the end of the heap. *)
Lemma last_inside pre n u post d : 24 <= last_size d (pre ++ (n, u) :: post) →
  Forall block_ok ((n, u) :: post) → 12 < n ∨ 0 < total post.
Proof.
  intros Hlast [[Hn _] Hokq]%Forall_cons. rewrite last_size_app in Hlast. simpl in *.
  destruct post as [|[k v] post]; [simpl in *; lia|].
  apply Forall_cons in Hokq as [[? _] Hokq]. pose proof (total_nonneg _ Hokq). simpl in *. lia.
Qed.

Lemma hwp_free h pre n post : heap_inv h (pre ++ (n, true) :: post) →
  hwp (rt_free (heap_ptr h + total pre + 12)) h (λ _ h', freed h pre n post h').
Proof.
  intros [Ht Hsep Hlast Hlf Hu Hmax Hs Hn].
  pose proof (tiled_pos _ _ _ Ht) as (Hpre&Hpost&Htot&Hokp&Hokq&Hc).
  pose proof Ht as [Hb Hbase Hal Hsz Htop _ Hend _ Hok _]. pose proof (total_mod _ Hokp) as Hmod.
  pose proof (used_total_range _ Hok) as Hur. rewrite used_total_app in Hu, Hur. simpl in Hu, Hur.
  pose proof (last_inside _ _ _ _ _ Hlast Hokq) as Hin.
  apply Forall_cons in Hokq as [[Hn12 _] Hokq]. simpl in Hn12, Hpost, Htot.
  pose proof (total_nonneg _ Hokq). apply blocks_cons in Hc as [Hh _].
  pose proof (used_total_range _ Hokp). pose proof (used_total_range _ Hokq).
  destruct (lfree_lowered (heap_ptr h) pre n post (lfree h) Hok) as [Hl1 Hl2].
  unfold rt_free. change SIZEOF_STRUCT_MEM with 12.
  hbind. apply hwp_not_in_interrupt; [done|]. rewrite bool_decide_false by lia. do 2 hstep.
  hbind. apply hwp_assert; [apply bool_decide_true, land3; mlia|].
  hbind. apply hwp_assert; [apply bool_decide_true; lia|]. rewrite bool_decide_false by lia.
  replace (heap_ptr h + total pre + 12 - 12) with (heap_ptr h + total pre) by lia.
  rewrite (u32_small (heap_ptr h + total pre)) by (unfold in_u32; lia).
  hbind. apply hwp_take_sem; [done|]. hbind. eapply hwp_get_used; [exact Hh|]. simpl.
  hbind. apply hwp_assert; [done|]. hbind. eapply hwp_get_magic; [exact Hh|]. simpl.
  hbind. apply hwp_assert; [done|].
  hbind. eapply hwp_put_used; [exact Hh|done|done|]. simpl. intros m1 T1 Hh1.
  hbind. eapply hwp_put_magic; [exact Hh1|by eapply t_bytes|done|]. simpl. intros m2 T2 Hh2.
  pose proof (touches_trans _ _ _ _ _ T1 T2) as T.
  pose proof (tiled_rehdr _ _ _ _ _ false _ Ht T Hh2) as Ht2.
  eapply hwp_bind_assoc, hwp_set_lfree_low. simpl.
  hbind. eapply hwp_get_next; [exact Hh2|]. simpl. hbind. unfold offset_of. hstep. hstep. simpl.
  replace (heap_ptr h + total pre - heap_ptr h) with (total pre) by lia.
  rewrite (u32_small (total pre)) by (unfold in_u32; lia). do 2 hstep. simpl.
  rewrite (u32_small (total pre + n - _)) by (unfold in_u32; lia).
  rewrite u32_small by (unfold in_u32; lia).
  hbind. lazymatch goal with |- hwp _ ?h2 _ =>
    eapply hwp_mono; [apply (hwp_plug_holes h2 pre n post); by eapply tiled_ext|] end. simpl.
  intros _ h3 (Ht3&Hk3&(E1&E2&E3&E4&E5&E6&E7)&[Hf3 Hlow3]). simpl in *.
  unfold release_heap_sem. hstep. hstep. split_and!; try done.
  - split; simpl; try congruence.
    + by eapply tiled_ext.
    + by apply separated_plug.
    + rewrite <-last_size_plug; done.
    + rewrite E1. auto.
    + rewrite E4, used_total_plug. lia.
    + lia.
    + by rewrite E6.
  - intros x Hx. simpl. rewrite Hk3; [|done]. simpl. apply (t_out _ _ _ _ T).
    eapply live_not_hdr; [|exact Hx]. by eapply ti_blocks.
  - intros Hlow. simpl. auto.
Qed.

(** ** Objects

    What a client sees of the heap: the objects it has allocated, each with the
    bytes it holds. *)

Fixpoint objects (m : mem) (o : Z) bs : gmap Z (list Z) :=
  match bs with
  | [] => ∅
  | (n, u) :: bs =>
      if u then <[o + 12 := bytes m (o + 12) (n - 12)]> (objects m (o + n) bs)
      else objects m (o + n) bs
  end.

Lemma zlen_bytes m a n : 0 <= n → zlen (bytes m a n) = n.
Proof. intros. unfold zlen, bytes. rewrite length_fmap, length_seq. lia. Qed.

Lemma bytes_lookup m a n i : 0 <= i < n →
  bytes m a n !! Z.to_nat i = Some (default 0 (m !! (a + i))).
Proof.
  intros Hi. unfold bytes. rewrite list_lookup_fmap, lookup_seq_lt by lia. simpl.
  do 4 f_equal. lia.
Qed.

Lemma bytes_agree m m' a n : agree m m' a n → bytes m' a n = bytes m a n.
Proof.
  intros Ha. apply list_fmap_ext. intros i j [-> ?]%lookup_seq. by rewrite Ha by lia.
Qed.

Lemma objects_app m o l1 l2 : objects m o (l1 ++ l2) =
  objects m o l1 ∪ objects m (o + total l1) l2.
Proof.
  revert o. induction l1 as [|[n u] l1 IH]; intros o; simpl.
  { by rewrite Z.add_0_r, (left_id_L ∅ (∪)). }
  rewrite IH, Z.add_assoc. destruct u; [|done]. by rewrite insert_union_l.
Qed.

Lemma objects_agree m m' o bs : (∀ x, live o bs x → m' !! x = m !! x) →
  objects m' o bs = objects m o bs.
Proof.
  revert o. induction bs as [|[n u] bs IH]; intros o Ha; simpl in *; [done|].
  rewrite (IH (o + n)) by auto. destruct u; [|done]. f_equal. apply bytes_agree.
  intros x Hx. apply Ha. left. split; [done|lia].
Qed.

Lemma objects_elem m o bs p d : objects m o bs !! p = Some d →
  ∃ pre n post, bs = pre ++ (n, true) :: post ∧ p = o + total pre + 12 ∧ d = bytes m p (n - 12).
Proof.
  revert o. induction bs as [|[n u] bs IH]; intros o; simpl; [by rewrite lookup_empty|].
  intros Hp. assert ((u = true ∧ p = o + 12 ∧ d = bytes m p (n - 12)) ∨
    objects m (o + n) bs !! p = Some d) as [(->&->&->)|Hp'].
  { destruct u; [|by right]. apply lookup_insert_Some in Hp as [[<- <-]|[_ ?]]; auto. }
  - exists [], n, bs. simpl. rewrite Z.add_0_r. done.
  - destruct (IH _ Hp') as (pre&k&post&->&->&->). exists ((n, u) :: pre), k, post.
    simpl. by rewrite Z.add_assoc.
Qed.

Lemma objects_range m o bs p : Forall block_ok bs → is_Some (objects m o bs !! p) →
  o + 12 <= p <= o + total bs.
Proof.
  intros Hok [d Hd]. destruct (objects_elem _ _ _ _ _ Hd) as (pre&n&post&->&->&_).
  apply Forall_app in Hok as [Hp [[Hn _] Hq]%Forall_cons]. simpl in Hn.
  rewrite total_app. simpl. pose proof (total_nonneg _ Hp). pose proof (total_nonneg _ Hq). lia.
Qed.

(** A free block is no object, and a used one is. *)
Lemma objects_free m o pre n post : Forall block_ok (pre ++ (n, false) :: post) →
  objects m o (pre ++ (n, false) :: post) !! (o + total pre + 12) = None.
Proof.
  intros [Hp [[Hn _] Hq]%Forall_cons]%Forall_app. simpl in Hn. rewrite objects_app. simpl.
  apply lookup_union_None. split; apply eq_None_not_Some; intros HS;
    apply objects_range in HS; try done; lia.
Qed.
Lemma objects_used m o pre n post : Forall block_ok pre →
  objects m o (pre ++ (n, true) :: post) =
  <[o + total pre + 12 := bytes m (o + total pre + 12) (n - 12)]>
    (objects m o (pre ++ (n, false) :: post)).
Proof.
  intros Hp. rewrite !objects_app. simpl. rewrite insert_union_r; [done|].
  apply eq_None_not_Some. intros HS. apply objects_range in HS; [lia|done].
Qed.

Lemma objects_delete m o pre n post : Forall block_ok (pre ++ (n, true) :: post) →
  delete (o + total pre + 12) (objects m o (pre ++ (n, true) :: post)) =
  objects m o (pre ++ (n, false) :: post).
Proof.
  intros Hok. pose proof Hok as [Hp Hq]%Forall_app. rewrite objects_used by done.
  rewrite delete_insert_id; [done|]. apply objects_free. apply Forall_cons in Hq as [? ?].
  apply Forall_app. split; [done|]. by apply Forall_cons.
Qed.

Lemma objects_plug m o pre n post :
  objects m o (plug pre n post) = objects m o (pre ++ (n, false) :: post).
Proof.
  assert (∀ n post, objects m o (join pre n post) = objects m o (pre ++ (n, false) :: post)) as Hj.
  { clear n post. intros n post. destruct pre as [|[k u] pre _] using rev_ind; [done|].
    rewrite join_snoc, <-app_assoc. cbn [app]. destruct u; [done|]. rewrite !objects_app. simpl.
    by replace (o + total pre + k + n) with (o + total pre + (k + n)) by lia. }
  unfold plug. destruct post as [|[k []] post]; simpl; rewrite Hj; try done.
  rewrite !objects_app. simpl.
  by replace (o + total pre + n + k) with (o + total pre + (n + k)) by lia.
Qed.

(** The size of the data of the block that is taken. *)
Definition taken_size (n size : Z) : Z := used_total (take_block n size) - 12.

Lemma taken_size_ok n size : 12 + size <= n → size <= taken_size n size.
Proof. unfold taken_size, take_block. intros. case_bool_decide; simpl; lia. Qed.

Lemma objects_take m o pre n size post : Forall block_ok pre →
  objects m o (pre ++ take_block n size ++ post) =
  <[o + total pre + 12 := bytes m (o + total pre + 12) (taken_size n size)]>
    (objects m o (pre ++ (n, false) :: post)).
Proof.
  intros Hp. unfold taken_size, take_block. case_bool_decide; cbn [app].
  - rewrite objects_used by done. simpl.
    replace (12 + size + (0 + 0) - 12) with (12 + size - 12) by lia. f_equal.
    rewrite !objects_app. simpl.
    by replace (o + total pre + (12 + size) + (n - 12 - size)) with (o + total pre + n) by lia.
  - rewrite objects_used by done. simpl. by rewrite Z.add_0_r.
Qed.

(** The client's view of the heap. *)
Definition view h (σ : gmap Z (list Z)) : Prop :=
  ∃ bs, heap_inv h bs ∧ σ = objects (hmem h) (heap_ptr h) bs.

(** The result of an allocation in the store [σ]: an object of at least [size]
    bytes that is new. *)
Definition new_object h (σ : gmap Z (list Z)) size (p : Z) h' : Prop :=
  p ≠ 0 ∧ σ !! p = None ∧ ∃ d, size <= zlen d ∧ view h' (<[p := d]> σ).

Lemma view_allocated h bs pre n post size p h' : 0 <= size → tiled h bs →
  allocated h bs pre n post size p h' →
  new_object h (objects (hmem h) (heap_ptr h) bs) size p h'.
Proof.
  intros Hs Ht (->&Hfit&->&HI&Hk&(Eb&_)&_).
  pose proof (request_ok size Hs) as (?&?&?). pose proof (taken_size_ok n _ Hfit).
  pose proof (ti_blocks _ _ Ht) as Hok. pose proof (ti_base _ _ Ht).
  pose proof Hok as [Hp _]%Forall_app. pose proof (total_nonneg _ Hp).
  split_and!; [lia|by apply objects_free|].
  exists (bytes (hmem h') (heap_ptr h + total pre + 12) (taken_size n (request size))). split.
  - rewrite zlen_bytes by lia. lia.
  - eexists. split; [exact HI|]. rewrite Eb, objects_take by done. f_equal. symmetry.
    apply objects_agree, Hk.
Qed.

Lemma view_freed h pre n post h' : tiled h (pre ++ (n, true) :: post) → freed h pre n post h' →
  view h' (delete (heap_ptr h + total pre + 12)
    (objects (hmem h) (heap_ptr h) (pre ++ (n, true) :: post))).
Proof.
  intros Ht (HI&Hk&(Eb&_)&_). eexists. split; [exact HI|].
  rewrite Eb, objects_plug, objects_delete by (by eapply ti_blocks).
  symmetry. by apply objects_agree.
Qed.

(** ** Writing data *)

Lemma hdrs_live m m' base p o bs : Forall block_ok bs →
  (∀ x, ¬ live (base + o) bs x → m' !! x = m !! x) → hdrs m base p o bs → hdrs m' base p o bs.
Proof.
  intros Hok Ha Hh.
  assert (∀ x, base + o <= x < base + o + total bs → ¬ live (base + o) bs x → m' !! x = m !! x)
    as Ha' by auto. clear Ha. revert p o Ha' Hh.
  induction Hok as [|[n u] bs [Hn _] Hok IH]; intros p o Ha; simpl in *; [done|].
  intros [Hh Ht]. pose proof (total_nonneg _ Hok). split.
  - rewrite (hdr_agree m); [done|]. intros x Hx. apply Ha; [lia|].
    intros [[_ ?]|HL]; [lia|]. apply live_range in HL; [lia|done].
  - apply IH; [|done]. intros x Hx HL. apply Ha; [lia|]. rewrite Z.add_assoc in HL.
    intros [[_ ?]|?]; [lia|done].
Qed.

(** The data of the used blocks may change at will. *)
Lemma heap_inv_write h bs m' : heap_inv h bs → byte_mem m' →
  (∀ x, is_Some (hmem h !! x) → is_Some (m' !! x)) →
  (∀ x, ¬ live (heap_ptr h) bs x → m' !! x = hmem h !! x) → heap_inv (set_hmem m' h) bs.
Proof.
  intros [Ht ???????] Hb Hd Hl. split; try done. destruct Ht as [? ? ? ? ? Hm ? ? Hok [Hh [q Hq]]].
  split; try done.
  - intros i Hi. apply Hd, Hm, Hi.
  - split.
    + eapply hdrs_live; [done| |done]. intros x Hx. apply Hl. by rewrite Z.add_0_r in Hx.
    + exists q. simpl. rewrite (hdr_agree (hmem h)); [done|]. intros x Hx. apply Hl. intros HL.
      apply live_range in HL; [lia|done].
Qed.

Lemma bytes_take m a k n : 0 <= k <= n → take (Z.to_nat k) (bytes m a n) = bytes m a k.
Proof.
  intros Hk. unfold bytes. rewrite <-fmap_take. f_equal.
  rewrite <-(Nat.min_l (Z.to_nat k) (Z.to_nat n)) at 2 by lia. apply take_seq.
Qed.

Lemma live_mapped h bs a n : tiled h bs →
  (∀ x, a <= x < a + n → live (heap_ptr h) bs x) → mapped (hmem h) a n.
Proof.
  intros Ht Hl i Hi. specialize (Hl (a + i) ltac:(lia)). destruct Ht as [? ? ? ? ? Hm ? Htt Hok ?].
  apply live_range in Hl; [|done]. replace (a + i) with (heap_ptr h + (a + i - heap_ptr h)) by lia.
  apply Hm. lia.
Qed.

(** [rt_memcpy] from object to object. *)
Lemma hwp_copy h bs q p cnt : heap_inv h bs → 0 <= cnt → q <= p ∨ p + cnt <= q →
  (∀ x, q <= x < q + cnt → live (heap_ptr h) bs x) →
  (∀ x, p <= x < p + cnt → live (heap_ptr h) bs x) →
  hwp (hwrite (λ m, rt_memcpy m q p cnt)) h (λ _ h',
    ∃ m', h' = set_hmem m' h ∧ heap_inv h' bs ∧ copies (hmem h) m' q p cnt).
Proof.
  intros HI Hc Hdis Hq Hp. pose proof (hi_tiled _ _ HI) as Ht.
  pose proof (live_mapped _ _ _ _ Ht Hq). pose proof (live_mapped _ _ _ _ Ht Hp) as Hmp.
  destruct (memcpy_copies (hmem h) q p cnt) as (m'&E&Hco); [by eapply ti_bytes|done..|].
  eapply hwp_write; [done|]. exists m'. split_and!; [done| |done]. apply heap_inv_write; [done|..].
  - eapply copies_bytes; [done|]. by eapply ti_bytes.
  - intros x Hx. rewrite Hco. case_bool_decide; [|done]. apply Hmp. lia.
  - intros x Hx. rewrite Hco, bool_decide_false; [done|]. auto.
Qed.

(** ** Reallocation *)

Lemma two_blocks pre n post preA nA postA :
  pre ++ (n, true) :: post = preA ++ (nA, false) :: postA →
  (∃ x, preA = pre ++ (n, true) :: x ∧ post = x ++ (nA, false) :: postA) ∨
  (∃ y, pre = preA ++ (nA, false) :: y ∧ postA = y ++ (n, true) :: post).
Proof.
  revert preA. induction pre as [|b pre IH]; intros [|b' preA]; simpl; intros E; simplify_eq/=.
  - left. by exists preA.
  - right. by exists pre.
  - lazymatch goal with E : pre ++ _ = _ |- _ =>
      destruct (IH _ E) as [(x&->&->)|(y&->&->)]; [left; by exists x|right; by exists y] end.
Qed.

(** The used block of [n] bytes behind [pre] is where it was after another block
    has been taken. *)
Lemma still_there pre n post preA nA postA size :
  pre ++ (n, true) :: post = preA ++ (nA, false) :: postA →
  Forall block_ok (pre ++ (n, true) :: post) →
  (total pre + n <= total preA ∨ total preA + nA <= total pre) ∧
  ∃ pre1 post1, preA ++ take_block nA size ++ postA = pre1 ++ (n, true) :: post1 ∧
    total pre1 = total pre.
Proof.
  intros E [Hp [_ Hq]%Forall_cons]%Forall_app.
  destruct (two_blocks _ _ _ _ _ _ E) as [(x&->&->)|(y&->&->)].
  - split; [rewrite total_app; simpl; apply Forall_app in Hq as [Hx _];
      pose proof (total_nonneg _ Hx); lia|].
    exists pre, (x ++ take_block nA size ++ postA). by rewrite <-(assoc_L (++)).
  - split; [rewrite total_app; simpl; apply Forall_app in Hp as [_ [_ Hy]%Forall_cons];
      pose proof (total_nonneg _ Hy); lia|].
    exists (preA ++ take_block nA size ++ y), post. rewrite <-!(assoc_L (++)). split; [done|].
    rewrite !total_app, total_take. simpl. lia.
Qed.

(** The outcome of [rt_realloc p newsize] for an object [d]. *)
Definition realloc_post h (σ : gmap Z (list Z)) p d newsize q h' : Prop :=
  (q = 0 ∧ view h' σ) ∨
  (q ≠ 0 ∧ (q = p ∨ σ !! q = None) ∧ ∃ d', newsize <= zlen d' ∧
   view h' (<[q := d']> (delete p σ)) ∧
   let k := Z.to_nat (Z.min newsize (zlen d)) in take k d' = take k d).

Lemma live_block o pre n post x : o + total pre + 12 <= x < o + total pre + n →
  live o (pre ++ (n, true) :: post) x.
Proof. intros. apply live_app. right. left. done. Qed.

Lemma live_taken o pre n size post x :
  o + total pre + 12 <= x < o + total pre + 12 + taken_size n size →
  live o (pre ++ take_block n size ++ post) x.
Proof.
  unfold taken_size, take_block. intros. apply live_app. right.
  case_bool_decide; simpl in *; left; split; [done|lia|done|lia].
Qed.

(** The objects after [cnt] bytes of the object at [p] have been copied to a new
    block, with [m1] the memory after the allocation and [m2] after the copy. *)
Lemma objects_copied m m1 m2 o pre n size post q p cnt :
  let bs := pre ++ (n, false) :: post in
  Forall block_ok bs → q = o + total pre + 12 → 12 + size <= n → cnt <= size →
  (∀ x, live o bs x → m1 !! x = m !! x) → copies m1 m2 q p cnt →
  objects m2 o (pre ++ take_block n size ++ post) =
  <[q := bytes m2 q (taken_size n size)]> (objects m o bs).
Proof.
  intros bs Hok -> Hfit Hcnt Hk Hco. pose proof Hok as [Hp [_ Hq]%Forall_cons]%Forall_app.
  rewrite objects_take by done. f_equal. apply objects_agree. intros x Hx.
  rewrite <-(Hk x Hx), Hco. rewrite bool_decide_false; [done|]. intros ?.
  apply live_app in Hx as [Hx|[[]|Hx]]; try done; apply live_range in Hx; try done; lia.
Qed.

Lemma hwp_move h pre n post ns : heap_inv h (pre ++ (n, true) :: post) →
  0 <= ns <= 2 ^ 32 - 4 →
  hwp (move_to (heap_ptr h + total pre + 12) ns (n - 12)) h
    (realloc_post h (objects (hmem h) (heap_ptr h) (pre ++ (n, true) :: post))
       (heap_ptr h + total pre + 12) (bytes (hmem h) (heap_ptr h + total pre + 12) (n - 12)) ns).
Proof.
  intros HI Hns. pose proof (hi_tiled _ _ HI) as Ht. unfold move_to. hbind.
  eapply hwp_mono; [by apply hwp_malloc|].
  intros q h1 [(->&->&_)|(Hns0&preA&nA&postA&(E&Hfit&->&HI1&Hk1&(Eb1&_)&_)&_)].
  { rewrite bool_decide_false by lia. hstep. hstep. left. split; [done|]. by eexists. }
  pose proof (ti_blocks _ _ Ht) as Hok. pose proof (ti_base _ _ Ht) as Hbase.
  destruct (still_there _ _ _ _ _ _ (request ns) E Hok) as (Hdis&pre1&post1&E1&Etot).
  pose proof Hok as [Hp [[Hn _] _]%Forall_cons]%Forall_app. simpl in Hn.
  pose proof Hok as HokA. rewrite E in HokA. pose proof HokA as [HpA _]%Forall_app.
  pose proof (total_nonneg _ Hp). pose proof (total_nonneg _ HpA).
  destruct (request_ok ns) as (Hr12&Hrns&_); [lia|]. pose proof (taken_size_ok _ _ Hfit) as Hts.
  replace (if bool_decide (n - 12 < ns) then n - 12 else ns) with (Z.min ns (n - 12))
    by (case_bool_decide; lia).
  set (cnt := Z.min ns (n - 12)) in *. rewrite bool_decide_true by lia. rewrite E in Hk1.
  apply hwp_bind, hwp_bind. eapply hwp_mono.
  { eapply hwp_copy; [exact HI1|lia|lia|..]; rewrite Eb1; intros x Hx.
    - apply live_taken. lia.
    - rewrite E1. apply live_block. lia. }
  intros _ h2 (m2&->&HI2&Hco). rewrite E1 in HI2. rewrite <-Etot at 1. rewrite <-Eb1 at 1.
  eapply hwp_mono; [apply (hwp_free _ _ _ _ HI2)|]. intros [] h3 Hfr. cbn beta in Hfr. hstep. right.
  apply view_freed in Hfr; [|by eapply hi_tiled]. simpl in Hfr. rewrite Eb1, Etot, <-E1 in Hfr.
  rewrite (objects_copied (hmem h) (hmem h1) m2 _ preA nA (request ns) postA _ _ cnt)
    in Hfr by first [done|lia].
  rewrite delete_insert_ne, <-E in Hfr by lia.
  split_and!; [lia|right; rewrite E; by apply objects_free|]. eexists. split_and!; [|exact Hfr|].
  { rewrite zlen_bytes by lia. lia. }
  rewrite zlen_bytes by lia. fold cnt. cbn zeta. rewrite !bytes_take by lia.
  apply list_fmap_ext. intros i j [-> Hj]%lookup_seq. rewrite Hco, bool_decide_true by lia.
  rewrite <-Hk1; [do 2 f_equal; lia|]. rewrite <-E. apply live_block. lia.
Qed.

Lemma hwp_shrink h pre n post ns : heap_inv h (pre ++ (n, true) :: post) →
  0 <= ns → ns mod 4 = 0 → ns + 24 < n - 12 →
  hwp (shrink_block (heap_ptr h + total pre) (total pre) (n - 12) ns) (set_heap_sem 0 h) (λ _ h',
    heap_inv (set_heap_sem 1 h') (plug (pre ++ [(12 + ns, true)]) (n - 12 - ns) post) ∧
    keeps h h' (pre ++ (12 + ns, true) :: (n - 12 - ns, false) :: post) ∧
    heap_ptr h' = heap_ptr h ∧ heap_sem h' = 0).
Proof.
  intros [Ht Hsep Hlast Hlf Hu Hmax Hs Hn] Hns Hns4 Hfit.
  pose proof (tiled_pos _ _ _ Ht) as (Hpre&_&Htot&Hokp&Hokq&Hc).
  pose proof Ht as [Hb Hbase _ Hsz Htop Hmap _ Htt Hok _]. pose proof (used_total_range _ Hok) as Hur.
  rewrite total_app, used_total_app in *. simpl in Hu, Hur, Htt.
  apply Forall_cons in Hokq as [_ Hokq]. pose proof (total_nonneg _ Hokq). simpl in Htot.
  pose proof (used_total_range _ Hokp). pose proof (used_total_range _ Hokq).
  apply blocks_cons in Hc as [Hh Hc]. simpl in Hh.
  unfold shrink_block. change SIZEOF_STRUCT_MEM with 12. do 2 hstep. simpl.
  rewrite (u32_small (n - 12 - ns)), (u32_small (total pre + 12 + ns)) by (unfold in_u32; lia).
  rewrite u32_small by (unfold in_u32; lia). set (h0 := set_used_mem _ _).
  hbind. eapply hwp_mono.
  { eapply (hwp_split_block h0); [done|done|lia|done|simpl; lia| | |exact Hh]; [unfold in_u32; lia|].
    eapply mapped_sub; [exact Hmap|simpl; lia|simpl; lia]. }
  intros r h1 (->&m1&->&Hb1&Hd1&Hh1&Hh2&Ho1). hbind.
  assert (tiled h0 (pre ++ (n, true) :: post)) as Ht0 by (by eapply tiled_ext).
  eapply (hwp_relink_next h0) with (m1 := m1) (o2 := total pre + n) (post := post);
    [done|done|done|lia|simpl; lia|exact Hh2| |].
  { eapply chain_agree; [done| |exact Hc]. intros x Hx. apply Ho1; simpl in *; lia. }
  intros m2 T2 Hc2. simpl in T2, Ho1, Hh1, Hh2.
  assert (tiled (set_hmem m2 h0) (pre ++ (12 + ns, true) :: (n - 12 - ns, false) :: post)) as Ht2.
  { eapply tiled_split; [exact Ht0|lia|done|lia|by eapply t_bytes| | | | |done].
    - intros x Hx. eapply t_dom; [done|]. auto.
    - intros x Hx. simpl in Hx. rewrite (t_out _ _ _ _ T2), Ho1 by lia. done.
    - rewrite (hdr_agree m1); [done|]. eapply touches_agree; [exact T2|simpl; lia].
    - rewrite (hdr_agree m1); [done|]. eapply touches_agree; [exact T2|simpl; lia]. }
  replace (pre ++ _ :: (n - 12 - ns, false) :: post)
    with ((pre ++ [(12 + ns, true)]) ++ (n - 12 - ns, false) :: post) in * by (by rewrite <-app_assoc).
  replace (heap_ptr h0 + (total pre + 12 + ns))
    with (heap_ptr (set_hmem m2 h0) + total (pre ++ [(12 + ns, true)]))
    by (rewrite total_app; simpl; lia).
  eapply hwp_mono; [by apply hwp_plug_holes|]. simpl.
  intros _ h3 (Ht3&Hk3&(E1&E2&E3&E4&E5&E6&E7)&[Hf3 _]). simpl in *. split_and!; try done.
  - split; simpl; try congruence.
    + by eapply tiled_ext.
    + apply separated_plug. rewrite !separated_app, last_used_snoc in *. simpl in *. tauto.
    + rewrite <-last_size_plug by (by eapply ti_blocks). rewrite !last_size_app in *. simpl in *.
      destruct post as [|[] ?]; simpl in *; [lia|done].
    + rewrite E1. apply Hf3. unfold free_or_end in *. rewrite !free_in_app, !total_app in *. simpl in *.
      destruct Hlf as [[?|[[]|Hin]]|?]; [by auto|done| |right; lia]. left; right; right.
      by replace (heap_ptr h + (total pre + (12 + ns + 0)) + (n - 12 - ns))
        with (heap_ptr h + total pre + n) by lia.
    + rewrite E4, used_total_plug, used_total_app. simpl. lia.
    + lia.
  - intros x Hx. rewrite Hk3 by done. simpl. rewrite <-app_assoc in Hx. simpl in Hx.
    assert (¬ heap_ptr h + total pre <= x < heap_ptr h + total pre + 12 ∧
      ¬ heap_ptr h + (total pre + 12 + ns) <= x < heap_ptr h + (total pre + 12 + ns) + 12 ∧
      ¬ heap_ptr h + (total pre + n) <= x < heap_ptr h + (total pre + n) + 12) as (?&?&?).
    { apply live_app in Hx as [Hx|[[_ Hx]|[[]|Hx]]]; try done; [|lia|];
        apply live_range in Hx; try done; lia. }
    by rewrite (t_out _ _ _ _ T2), Ho1.
Qed.

Lemma realloc_post_mono h σ p d n n' q h' : 0 <= n <= n' →
  realloc_post h σ p d n' q h' → realloc_post h σ p d n q h'.
Proof.
  intros Hn [?|(Hq&Hor&d'&Hl&Hv&Ht)]; [by left|]. right. split_and!; [done..|]. exists d'.
  split_and!; [lia|done|]. cbn zeta in *. pose proof (zlen_nonneg d).
  apply (f_equal (take (Z.to_nat (Z.min n (zlen d))))) in Ht.
  rewrite !firstn_firstn, Nat.min_l in Ht by lia. done.
Qed.

Lemma realloc_same h bs p d newsize q h' : heap_inv h' bs →
  p ≠ 0 → let σ := objects (hmem h') (heap_ptr h') bs in
  σ !! p = Some d → newsize <= zlen d → q = p → realloc_post h σ p d newsize q h'.
Proof.
  intros HI Hp σ Hd Hl ->. right. split_and!; [done|by left|]. exists d. split_and!; [done| |done].
  rewrite insert_delete_id by done. by eexists.
Qed.

Lemma shrunk_post h pre n post ns h1 : heap_inv h (pre ++ (n, true) :: post) →
  0 <= ns → ns + 24 < n - 12 →
  heap_inv h1 (plug (pre ++ [(12 + ns, true)]) (n - 12 - ns) post) →
  keeps h h1 (pre ++ (12 + ns, true) :: (n - 12 - ns, false) :: post) →
  heap_ptr h1 = heap_ptr h →
  let p := heap_ptr h + total pre + 12 in
  realloc_post h (objects (hmem h) (heap_ptr h) (pre ++ (n, true) :: post)) p
    (bytes (hmem h) p (n - 12)) ns p h1.
Proof.
  intros HI Hns Hfit HI1 Hk Eb p. pose proof (hi_tiled _ _ HI) as Ht.
  pose proof (ti_blocks _ _ Ht) as Hok. pose proof Hok as [Hp _]%Forall_app.
  pose proof (ti_base _ _ Ht). pose proof (total_nonneg _ Hp).
  right. split_and!; [lia|by left|]. exists (bytes (hmem h) p ns). rewrite !zlen_bytes by lia.
  split_and!; [lia| |cbn zeta; rewrite !bytes_take by lia; done].
  eexists. split; [exact HI1|]. rewrite Eb, objects_plug, <-app_assoc. cbn [app].
  rewrite (objects_agree (hmem h) (hmem h1)) by exact Hk. unfold p.
  rewrite objects_delete, objects_used by done.
  replace (12 + ns - 12) with ns by lia. f_equal. rewrite !objects_app. simpl.
  by replace (heap_ptr h + total pre + (12 + ns) + (n - 12 - ns)) with (heap_ptr h + total pre + n) by lia.
Qed.

Lemma hwp_realloc h pre n post newsize : heap_inv h (pre ++ (n, true) :: post) →
  0 <= newsize <= 2 ^ 32 - 4 →
  let p := heap_ptr h + total pre + 12 in
  hwp (rt_realloc p newsize) h (realloc_post h
    (objects (hmem h) (heap_ptr h) (pre ++ (n, true) :: post)) p (bytes (hmem h) p (n - 12)) newsize).
Proof.
  intros HI Hns p. pose proof HI as [Ht Hsep Hlast Hlf Hu Hmax Hs Hn].
  pose proof (tiled_pos _ _ _ Ht) as (Hpre&_&Htot&Hokp&Hokq&Hc).
  pose proof Ht as [_ Hbase _ Hsz Htop _ Hend _ Hok _].
  pose proof (Forall_cons_1 _ _ _ Hokq) as [[Hn12 Hn4] Hokq']. simpl in Hn12, Hn4, Htot.
  pose proof (total_nonneg _ Hokq'). apply blocks_cons in Hc as [Hh _].
  assert (objects (hmem h) (heap_ptr h) (pre ++ (n, true) :: post) !! p =
    Some (bytes (hmem h) p (n - 12))) as Hobj.
  { rewrite objects_used by done. by rewrite lookup_insert_eq. }
  set (ns := 4 * ((newsize + 3) / 4)).
  assert (newsize <= ns <= 2 ^ 32 - 4 ∧ ns mod 4 = 0) as [Hnn Hns4] by (unfold ns; mlia).
  unfold rt_realloc. change SIZEOF_STRUCT_MEM with 12. change MIN_SIZE with 12.
  hbind. apply hwp_not_in_interrupt; [done|]. rewrite RT_ALIGN_4 by done. fold ns. hstep.
  case_bool_decide as Hlarge; [hstep; left; split; [done|by eexists]|].
  rewrite bool_decide_false by lia. hbind. apply hwp_take_sem; [done|]. do 2 hstep. simpl.
  rewrite bool_decide_false by (unfold p; pose proof (last_inside _ _ _ _ _ Hlast Hokq); lia).
  replace (p - 12) with (heap_ptr h + total pre) by lia.
  rewrite (u32_small (heap_ptr h + total pre)) by (unfold in_u32; lia).
  hbind. unfold offset_of. hstep. hstep. simpl.
  replace (heap_ptr h + total pre - heap_ptr h) with (total pre) by lia.
  rewrite (u32_small (total pre)) by (unfold in_u32; lia).
  hbind. eapply hwp_get_next; [exact Hh|]. simpl.
  replace (total pre + n - total pre - 12) with (n - 12) by lia.
  rewrite (u32_small (n - 12)), (u32_small (ns + 12 + 12)) by (unfold in_u32; lia).
  assert (∀ Q, Q tt h → hwp release_heap_sem (set_heap_sem 0 h) Q) as Hrel.
  { intros Q HQ. unfold release_heap_sem. hstep. hstep. by destruct h; simpl in *; subst. }
  case_bool_decide as Hsame; [hbind; apply Hrel; hstep|case_bool_decide as Hsmall].
  - eapply realloc_same; [done|lia|done| |done]. rewrite zlen_bytes; lia.
  - hbind. eapply hwp_mono; [apply hwp_shrink; [exact HI|lia|done|lia]|].
    intros _ h1 (HI1&Hk&Eb&Es). hbind. unfold release_heap_sem. hstep. hstep. rewrite Es. hstep.
    eapply realloc_post_mono; [|apply (shrunk_post h pre n post ns (set_heap_sem 1 h1));
      [exact HI|lia|lia|exact HI1|exact Hk|exact Eb]]. lia.
  - hbind. apply Hrel. eapply hwp_mono; [apply hwp_move; [done|lia]|]. intros q h' Hpost.
    eapply realloc_post_mono; [|exact Hpost]. lia.
Qed.

(** ** Writing an object *)

(** The [n] bytes at [a], which are data of the object at [p], are written. *)
Lemma view_write h pre n post m' a k : heap_inv h (pre ++ (n, true) :: post) →
  let p := heap_ptr h + total pre + 12 in
  p <= a → a + k <= p + (n - 12) → byte_mem m' → touches (hmem h) m' a k →
  view (set_hmem m' h) (<[p := bytes m' p (n - 12)]>
    (objects (hmem h) (heap_ptr h) (pre ++ (n, true) :: post))).
Proof.
  intros HI p Ha Hk Hb T. pose proof (hi_tiled _ _ HI) as Ht.
  pose proof (ti_blocks _ _ Ht) as Hok. pose proof Hok as [Hp [_ Hq]%Forall_cons]%Forall_app.
  exists (pre ++ (n, true) :: post). split.
  - apply heap_inv_write; [done|done|by eapply t_dom|]. intros x Hx. apply (t_out _ _ _ _ T).
    intros ?. apply Hx, live_block. lia.
  - simpl. rewrite !objects_used by done. fold p. rewrite insert_insert_eq. f_equal. symmetry.
    apply objects_agree. intros x Hx. apply (t_out _ _ _ _ T).
    apply live_app in Hx as [Hx|[[]|Hx]]; try done; apply live_range in Hx; try done; lia.
Qed.

Lemma view_elem h σ p d : view h σ → σ !! p = Some d →
  ∃ pre n post, heap_inv h (pre ++ (n, true) :: post) ∧
    σ = objects (hmem h) (heap_ptr h) (pre ++ (n, true) :: post) ∧
    p = heap_ptr h + total pre + 12 ∧ d = bytes (hmem h) p (n - 12) ∧ 12 <= n ∧ 0 <= total pre.
Proof.
  intros (bs&HI&->) Hp. destruct (objects_elem _ _ _ _ _ Hp) as (pre&n&post&->&->&->).
  pose proof (ti_blocks _ _ (hi_tiled _ _ HI)) as [Hpre [[Hn _] _]%Forall_cons]%Forall_app.
  exists pre, n, post. split_and!; try done. by apply total_nonneg.
Qed.

(** [k] bytes from [a] on in the object at [p] are written. *)
Lemma view_update h σ p d a k m' : view h σ → σ !! p = Some d → p <= a → a + k <= p + zlen d →
  touches (hmem h) m' a k →
  view (set_hmem m' h) (<[p := bytes m' p (zlen d)]> σ).
Proof.
  intros Hv Hp Ha Hk T. destruct (view_elem _ _ _ _ Hv Hp) as (pre&n&post&HI&->&->&->&Hn&_).
  rewrite zlen_bytes in * by lia. eapply view_write; try done. by eapply t_bytes.
Qed.

Lemma writes_touches m m' a n g : byte_mem m → writes m m' a n g →
  (∀ x, in_u8 (g x)) → touches m m' a n.
Proof.
  intros Hb Hw Hg. split.
  - intros x v. rewrite Hw. case_bool_decide; [|apply Hb]. by intros [= <-].
  - intros x Hx. rewrite Hw. case_bool_decide; [by eexists|done].
  - intros x Hx. by rewrite Hw, bool_decide_false.
Qed.

Lemma view_mapped h σ p d : view h σ → σ !! p = Some d → mapped (hmem h) p (zlen d).
Proof.
  intros Hv Hp. destruct (view_elem _ _ _ _ Hv Hp) as (pre&n&post&HI&_&->&->&Hn&_).
  rewrite zlen_bytes by lia. eapply live_mapped; [by eapply hi_tiled|]. intros x Hx.
  apply live_block. lia.
Qed.

Lemma view_bytes h σ : view h σ → byte_mem (hmem h).
Proof. intros (bs&HI&_). eapply ti_bytes, hi_tiled, HI. Qed.

Lemma hwp_malloc_view h σ size : view h σ → 0 <= size <= 2 ^ 32 - 4 →
  hwp (rt_malloc size) h (λ p h', (p = 0 ∧ h' = h) ∨ new_object h σ size p h').
Proof.
  intros (bs&HI&->) Hs. eapply hwp_mono; [by apply hwp_malloc|].
  intros p h' [(->&->&_)|(?&pre&n&post&Ha&_)]; [by left|]. right.
  eapply view_allocated; [lia|by eapply hi_tiled|done].
Qed.

Lemma hwp_calloc h σ count size : view h σ → 0 <= count * size <= 2 ^ 32 - 4 →
  hwp (rt_calloc count size) h (λ p h', (p = 0 ∧ h' = h) ∨ (p ≠ 0 ∧ σ !! p = None ∧
    ∃ d, count * size <= zlen d ∧ view h' (<[p := d]> σ) ∧
      take (Z.to_nat (count * size)) d = replicate (Z.to_nat (count * size)) 0)).
Proof.
  intros Hv Hs. pose proof Hv as (bs&HI&_). unfold rt_calloc. hbind.
  apply hwp_not_in_interrupt; [by eapply hi_nest|]. rewrite u32_small by (unfold in_u32; lia).
  hbind. eapply hwp_mono; [by apply hwp_malloc_view|]. intros p h1 [[-> ->]|(Hp&Hnew&d&Hl&Hv1)].
  { rewrite bool_decide_false by lia. hstep. hstep. by left. }
  rewrite bool_decide_true by done. hbind.
  assert (<[p:=d]> σ !! p = Some d) as Hd by apply lookup_insert_eq.
  destruct (memset_writes (hmem h1) p 0 (count * size)) as (m'&E&Hw);
    [lia|eapply mapped_sub; [by eapply view_mapped|lia|lia]|].
  eapply hwp_write; [done|]. hstep. right. split_and!; [done..|].
  exists (bytes m' p (zlen d)). rewrite zlen_bytes by lia. split_and!; [done| |].
  - erewrite <-(insert_insert_eq _ p).
    apply (view_update h1 _ p d p (count * size)); [done|done|lia|lia|].
    eapply writes_touches; [by eapply view_bytes|exact Hw|done].
  - rewrite bytes_take by lia. apply list_eq_same_length with (n := Z.to_nat (count * size)).
    + by rewrite length_replicate.
    + unfold bytes. by rewrite length_fmap, length_seq.
    + intros i x y Hi Hx Hy. apply lookup_replicate in Hy as [-> _].
      replace i with (Z.to_nat (Z.of_nat i)) in Hx by lia. rewrite bytes_lookup in Hx by lia.
      rewrite Hw, bool_decide_true in Hx by lia. by simplify_eq.
Qed.
