(* ===== verification/HeapObjects.v ===== *)
(** * The heap as a store of objects

    The initialisation of the heap, the refinement of a store of independent
    objects by the allocator, and the properties a client relies on. *)

From S2P Require Import Prelude KString HeapMem HeapWp HeapInv HeapSpec.

Implicit Types (bs pre post : list block) (h : heap) (σ : gmap Z (list Z)).

(** ** Initialisation *)

(** A heap before its initialisation, with at least [size] bytes of memory
    from [begin]. *)
Record fresh h (begin size : Z) : Prop := {
  fr_bytes : byte_mem (hmem h);
  fr_mapped : mapped (hmem h) begin size;
  fr_used : used_mem h = 0;
  fr_max : max_mem h = 0;
  fr_nest : interrupt_nest h = 0;
}.

Lemma hwp_init h b e : let b' := 4 * ((b + 3) / 4) in let e' := 4 * (e / 4) in
  0 <= b <= 2 ^ 32 - 4 → 0 <= e < 2 ^ 32 → 36 <= e' - b' → fresh h b' (e' - b') →
  hwp (rt_system_heap_init b e) h (λ _ h', heap_inv h' [(e' - b' - 12, false)] ∧
    heap_ptr h' = b' ∧ mem_size_aligned h' = e' - b' - 24 ∧ lfree h' = b').
Proof.
  intros b' e' Hb He Hsz [Hbm Hm Hu Hx Hn]. unfold rt_system_heap_init.
  rewrite RT_ALIGN_4, RT_ALIGN_DOWN_4 by done. fold b' e'. change SIZEOF_STRUCT_MEM with 12.
  assert (0 <= b' ∧ b' mod 4 = 0 ∧ e' mod 4 = 0 ∧ e' < 2 ^ 32) as (Hb0&Hb4&He4&He32)
    by (unfold b', e'; mlia).
  hbind. apply hwp_not_in_interrupt; [done|]. rewrite bool_decide_true by lia.
  change (2 * 12) with 24. rewrite (u32_small (e' - b' - 24)) by (unfold in_u32; lia). do 3 hstep.
  simpl mem_size_aligned. set (s := e' - b' - 24).
  rewrite (u32_small (s + 12)) by (unfold s, in_u32; lia).
  destruct (hdr_total (hmem h) b') as [[g0 u0 n0 p0] Hh]; [eapply mapped_sub; [done|lia..]|].
  hbind. eapply hwp_put_magic; [exact Hh|done|done|]. simpl. intros m1 T1 H1.
  hbind. eapply hwp_put_next; [exact H1|by eapply t_bytes|unfold s, in_u32; lia|]. simpl. intros m2 T2 H2.
  hbind. eapply hwp_put_prev; [exact H2|by eapply t_bytes|done|]. simpl. intros m3 T3 H3.
  hbind. eapply hwp_put_used; [exact H3|by eapply t_bytes|done|]. simpl. intros m4 T4 H4.
  assert (touches (hmem h) m4 b' 12) as T by eauto using touches_trans.
  hbind. eapply hwp_get_next; [exact H4|]. simpl. hbind. unfold block_at. hstep. hstep. simpl.
  rewrite u32_small by (unfold s, in_u32; lia). hstep. simpl. set (a := b' + (s + 12)).
  destruct (hdr_total m4 a) as [[g5 u5 n5 p5] H5].
  { eapply touches_mapped; [exact T|]. eapply mapped_sub; [done|unfold a, s; lia..]. }
  hbind. eapply hwp_put_magic; [exact H5|by eapply t_bytes|done|]. simpl. intros m6 T6 H6.
  hbind. eapply hwp_put_used; [exact H6|by eapply t_bytes|done|]. simpl. intros m7 T7 H7.
  hbind. eapply hwp_put_next; [exact H7|by eapply t_bytes|unfold s, in_u32; lia|]. simpl. intros m8 T8 H8.
  hbind. eapply hwp_put_prev; [exact H8|by eapply t_bytes|unfold s, in_u32; lia|]. simpl. intros m9 T9 H9.
  assert (touches m4 m9 a 12) as T' by eauto using touches_trans.
  do 2 hstep. simpl. split_and!; try done. split; simpl; try done; try lia.
  - split; simpl; try done; try (unfold s; lia).
    + by eapply t_bytes.
    + eapply touches_mapped; [exact T'|]. eapply touches_mapped; [exact T|].
      replace (s + 24) with (e' - b') by (unfold s; lia). done.
    + apply Forall_singleton. split; simpl; mlia.
    + split; simpl.
      * split; [|done]. rewrite Z.add_0_r, (hdr_agree m4); [rewrite H4; do 2 f_equal; unfold s; lia|].
        eapply touches_agree; [exact T'|unfold a, s; lia].
      * exists (s + 12). replace (e' - b' - 12 + 0) with (s + 12) by (unfold s; lia). done.
  - left. simpl. auto.
Qed.

(** ** Clients *)

(** A client calls the allocator and writes bytes of its objects. *)
Inductive client_op : Type :=
| Malloc (size : Z)
| Calloc (count size : Z)
| Realloc (p size : Z)
| Free (p : Z)
| Write (p i v : Z).

(** The result of a call; a call without one gives 0. *)
Definition run_op (op : client_op) : HM Z :=
  match op with
  | Malloc size => rt_malloc size
  | Calloc count size => rt_calloc count size
  | Realloc p size => rt_realloc p size
  | Free p => rt_free p;; mret 0
  | Write p i v => hwrite (λ m, store m (p + i) v);; mret 0
  end.

(** What the client may do: sizes that do not wrap when they are rounded, and
    only its own objects. *)
Definition legal σ (op : client_op) : Prop :=
  match op with
  | Malloc size => 0 <= size <= 2 ^ 32 - 4
  | Calloc count size => 0 <= count * size <= 2 ^ 32 - 4
  | Realloc p size => 0 <= size <= 2 ^ 32 - 4 ∧ (p = 0 ∨ is_Some (σ !! p))
  | Free p => p = 0 ∨ is_Some (σ !! p)
  | Write p i _ => ∃ d, σ !! p = Some d ∧ 0 <= i < zlen d
  end.

(** The store of objects: a new object is at a new address and large enough,
    the others stay as they are. *)
Inductive store_step σ : client_op → Z → gmap Z (list Z) → Prop :=
| st_no_memory op : (∀ p i v, op ≠ Write p i v) → (∀ p, op ≠ Free p) → store_step σ op 0 σ
| st_malloc size p d : p ≠ 0 → σ !! p = None → size <= zlen d →
    store_step σ (Malloc size) p (<[p := d]> σ)
| st_calloc count size p d : p ≠ 0 → σ !! p = None → count * size <= zlen d →
    take (Z.to_nat (count * size)) d = replicate (Z.to_nat (count * size)) 0 →
    store_step σ (Calloc count size) p (<[p := d]> σ)
| st_realloc_null size p d : p ≠ 0 → σ !! p = None → size <= zlen d →
    store_step σ (Realloc 0 size) p (<[p := d]> σ)
| st_realloc p size q d d' : σ !! p = Some d → q ≠ 0 → q = p ∨ σ !! q = None → size <= zlen d' →
    (let k := Z.to_nat (Z.min size (zlen d)) in take k d' = take k d) →
    store_step σ (Realloc p size) q (<[q := d']> (delete p σ))
| st_free p : is_Some (σ !! p) → store_step σ (Free p) 0 (delete p σ)
| st_free_null : store_step σ (Free 0) 0 σ
| st_write p i v d : σ !! p = Some d →
    store_step σ (Write p i v) 0 (<[p := <[Z.to_nat i := u8 v]> d]> σ).

Lemma view_ptr_nonzero h σ p : view h σ → is_Some (σ !! p) → p ≠ 0.
Proof.
  intros Hv [d Hd]. pose proof Hv as (bs&HI&_).
  destruct (view_elem _ _ _ _ Hv Hd) as (pre&n&post&HI'&_&->&_&_&?).
  pose proof (ti_base _ _ (hi_tiled _ _ HI)). lia.
Qed.

Lemma hwp_realloc_null h σ size : view h σ → 0 <= size <= 2 ^ 32 - 4 →
  hwp (rt_realloc 0 size) h (λ p h', (p = 0 ∧ h' = h) ∨ new_object h σ size p h').
Proof.
  intros Hv Hs. pose proof Hv as (bs&HI&_). unfold rt_realloc. hbind.
  apply hwp_not_in_interrupt; [by eapply hi_nest|]. hstep. rewrite RT_ALIGN_4 by done.
  case_bool_decide; [hstep; by left|]. rewrite bool_decide_true by done.
  eapply hwp_mono; [apply hwp_malloc_view; [done|]; mlia|].
  intros p h' [?|(?&?&d&?&?)]; [by left|]. right. split_and!; try done. exists d.
  split; [mlia|done].
Qed.

Lemma bytes_insert m m' a n i v : 0 <= i < n → writes m m' (a + i) 1 (λ _, v) →
  bytes m' a n = <[Z.to_nat i := v]> (bytes m a n).
Proof.
  intros Hi Hw. apply list_eq_same_length with (n := Z.to_nat n).
  - unfold bytes. by rewrite length_insert, length_fmap, length_seq.
  - unfold bytes. by rewrite length_fmap, length_seq.
  - intros j x y Hj Hx Hy. replace j with (Z.to_nat (Z.of_nat j)) in Hx, Hy by lia.
    rewrite bytes_lookup in Hx by lia. rewrite Hw in Hx. case_bool_decide.
    + assert (Z.of_nat j = i) as E by lia. rewrite E in Hy.
      rewrite list_lookup_insert_eq in Hy by (unfold bytes; rewrite length_fmap, length_seq; lia).
      by simplify_eq/=.
    + rewrite list_lookup_insert_ne, bytes_lookup in Hy by lia. by simplify_eq.
Qed.

Lemma hwp_write_object h σ p i v d : view h σ → σ !! p = Some d → 0 <= i < zlen d →
  hwp (hwrite (λ m, store m (p + i) v)) h (λ _ h',
    view h' (<[p := <[Z.to_nat i := u8 v]> d]> σ)).
Proof.
  intros Hv Hp Hi. pose proof (view_mapped _ _ _ _ Hv Hp) as Hm.
  destruct (store_spec (hmem h) (p + i) v) as (m'&E&Hw); [eapply mapped_sub; [done|lia..]|].
  eapply hwp_write; [done|].
  assert (touches (hmem h) m' (p + i) 1) as T.
  { eapply writes_touches; [by eapply view_bytes|done|]. intros. apply u8_range. }
  pose proof (view_update h σ p d (p + i) 1 m' Hv Hp ltac:(lia) ltac:(lia) T) as Hv'.
  rewrite (bytes_insert (hmem h) m' p (zlen d) i (u8 v)) in Hv' by done.
  destruct (view_elem _ _ _ _ Hv Hp) as (?&n&?&_&_&_&Ed&?&_). rewrite Ed in Hv' |- *.
  by rewrite zlen_bytes in Hv' by lia.
Qed.

(** ** Distinct objects *)

Lemma objects_separate m o bs p q d e : Forall block_ok bs → p ≠ q →
  objects m o bs !! p = Some d → objects m o bs !! q = Some e →
  p + zlen d <= q ∨ q + zlen e <= p.
Proof.
  intros Hok Hpq. revert o. induction Hok as [|[n u] bs [Hn _] Hok IH]; intros o; simpl in *;
    [by rewrite lookup_empty|].
  assert (∀ x f, objects m (o + n) bs !! x = Some f → o + n + 12 <= x) as Hr.
  { intros x f Hx. apply (objects_range m (o + n) bs x); [done|by eexists]. }
  destruct u; [|by apply IH].
  intros [[<- <-]|[_ Hp]]%lookup_insert_Some [[<- <-]|[_ Hq]]%lookup_insert_Some; [done|..].
  - rewrite zlen_bytes by lia. apply Hr in Hq. lia.
  - rewrite zlen_bytes by lia. apply Hr in Hp. lia.
  - by apply (IH (o + n)).
Qed.

(** The bytes of all objects with their headers. *)
Definition footprint σ : Z := map_fold (λ _ d s, zlen d + 12 + s) 0 σ.

Lemma used_objects m o bs : Forall block_ok bs → footprint (objects m o bs) = used_total bs.
Proof.
  intros Hok. unfold footprint. revert o.
  induction Hok as [|[n u] bs [Hn _] Hok IH]; intros o; simpl in *; [apply map_fold_empty|].
  destruct u; [|by rewrite IH]. rewrite map_fold_insert_L; [rewrite IH, zlen_bytes by lia; lia|intros; lia|].
  apply eq_None_not_Some. intros HS. apply objects_range in HS; [lia|done].
Qed.

Lemma join_used pre n post : last_used true pre = true →
  join pre n post = pre ++ (n, false) :: post.
Proof.
  destruct pre as [|[k u] pre _] using rev_ind; [done|]. rewrite last_used_snoc. intros ->.
  rewrite join_snoc. by rewrite <-app_assoc.
Qed.

(** Freeing the block that was taken restores the blocks. *)
Lemma plug_take pre n size post : separated true (pre ++ (n, false) :: post) →
  ∃ k t, take_block n size ++ post = (k, true) :: t ∧ plug pre k t = pre ++ (n, false) :: post.
Proof.
  intros [_ [Hu Hq]]%separated_app. destruct Hu as [Hu|]; [|done].
  unfold take_block. case_bool_decide; simpl; eexists _, _; (split; [done|]); unfold plug; simpl.
  - rewrite join_used by done. by replace (12 + size + (n - 12 - size)) with n by lia.
  - destruct post as [|[k []] post]; simpl in *; [by rewrite join_used..|]. by destruct Hq as [[]].
Qed.

(** ** A heap for the examples *)

Definition demo_memory : mem := list_to_map ((λ i, (0x1000 + Z.of_nat i, 0xaa)) <$> seq 0 128).
Definition demo_start : heap := Heap demo_memory 0 0 0 0 0 0 0 0.
Definition demo_heap : heap :=
  match rt_system_heap_init 0x1000 0x1080 demo_start with Some (_, h) => h | None => demo_start end.

Lemma demo_fresh : fresh demo_start 0x1000 0x80.
Proof.
  split; [| |reflexivity..].
  - apply byte_memb_byte_mem. vm_compute. reflexivity.
  - apply (mappedb_mapped _ _ 128). vm_compute. reflexivity.
Qed.

Lemma demo_inv : heap_inv demo_heap [(116, false)] ∧ lfree demo_heap = heap_ptr demo_heap.
Proof.
  destruct (hwp_init demo_start 0x1000 0x1080) as ([]&h&E&HI&Eb&_&El);
    [lia|lia|vm_compute; congruence|exact demo_fresh|].
  unfold demo_heap. rewrite E. split; [exact HI|]. by rewrite El, Eb.
Qed.

Lemma demo_view : view demo_heap ∅.
Proof. exists [(116, false)]. split; [apply demo_inv|reflexivity]. Qed.

(** ** Properties *)

(** C3: The allocator implements a store of independent objects: each call a
    client may make returns (no access outside the memory, no failed
    assertion), gives a result the store allows, and leaves a heap that
    represents the store's new state.  A new object is at an address that is
    not in use, has at least the bytes asked for (zero for [rt_calloc], the old
    contents for [rt_realloc]), and no call changes a byte of another object. *)
Theorem heap_refines_objects h σ op : view h σ → legal σ op →
  ∃ r h' σ', run_op op h = Some (r, h') ∧ store_step σ op r σ' ∧ view h' σ'.
Proof.
  intros Hv Hl. enough (hwp (run_op op) h (λ r h', ∃ σ', store_step σ op r σ' ∧ view h' σ'))
    as (r&h'&E&σ'&?&?) by (by exists r, h', σ').
  destruct op as [size|count size|p size|p|p i v]; simpl in *.
  - eapply hwp_mono; [by apply hwp_malloc_view|].
    intros r h' [[-> ->]|(?&?&d&?&?)]; eexists; (split; [by constructor|done]).
  - eapply hwp_mono; [by apply hwp_calloc|].
    intros r h' [[-> ->]|(?&?&d&?&?&?)]; eexists; (split; [by constructor|done]).
  - destruct Hl as [Hs [->|[d Hd]]].
    + eapply hwp_mono; [by apply hwp_realloc_null|].
      intros r h' [[-> ->]|(?&?&d&?&?)]; eexists; (split; [by constructor|done]).
    + destruct (view_elem _ _ _ _ Hv Hd) as (pre&n&post&HI&->&->&->&_).
      eapply hwp_mono; [by apply hwp_realloc|].
      intros r h' [[-> ?]|(?&?&d'&?&?&?)]; eexists; (split; [|done]); [by constructor|].
      by eapply st_realloc.
  - destruct Hl as [->|[d Hd]].
    + pose proof Hv as (bs&HI&_). unfold rt_free. hbind. hbind.
      apply hwp_not_in_interrupt; [by eapply hi_nest|]. rewrite bool_decide_true by done.
      hstep. hstep. eexists. split; [apply st_free_null|done].
    + hbind. pose proof Hv as Hv'. destruct (view_elem _ _ _ _ Hv Hd) as (pre&n&post&HI&->&->&->&_).
      eapply hwp_mono; [by apply hwp_free|]. intros [] h' Hf. cbn beta in Hf. hstep.
      eexists. split; [by apply st_free; eexists|]. eapply view_freed; [by eapply hi_tiled|done].
  - destruct Hl as (d&Hd&Hi). hbind. eapply hwp_mono; [by apply hwp_write_object|].
    intros [] h' Hw. hstep. eexists. split; [by eapply st_write|done].
Qed.

Lemma heap_refines_objects_witness : ∃ r h' σ',
  run_op (Malloc 20) demo_heap = Some (r, h') ∧ store_step ∅ (Malloc 20) r σ' ∧ view h' σ'.
Proof. apply (heap_refines_objects demo_heap ∅ (Malloc 20)); [exact demo_view|simpl; lia]. Defined.

(** The free blocks of [rest] that [rt_malloc size] passes over: those too small
    for the request, and a last block of the heap that it would fill exactly. *)
Definition passed_over (size : Z) (rest : list block) : Prop :=
  ∀ pre n post, rest = pre ++ (n, false) :: post →
    n < 12 + request size ∨ n = 12 + request size ∧ post = [].

(** C4: [rt_malloc] searches the blocks from [lfree] on, the blocks [rest], for the
    first free one with room for the request (rounded up to 4 bytes, at least
    12), other than a last block that the request would fill exactly; it splits
    the rest of the block off, keeps all data, and refuses, with the heap
    unchanged, exactly when there is no such block.  When [lfree] is the lowest
    free block no free block is left out, and [lfree] stays the lowest. *)
Theorem rt_malloc_first_fit h bs size : heap_inv h bs → 0 < size <= 2 ^ 32 - 4 →
  ∃ low rest p h', bs = low ++ rest ∧ lfree h = heap_ptr h + total low ∧
    (lowest (heap_ptr h) bs (lfree h) → ∀ n, (n, false) ∉ low) ∧
    rt_malloc size h = Some (p, h') ∧
    ((p = 0 ∧ h' = h ∧ passed_over size rest) ∨
     ∃ mid n post, rest = mid ++ (n, false) :: post ∧ 12 + request size <= n ∧
       ¬ (n = 12 + request size ∧ post = []) ∧
       (∀ m, (m, false) ∈ mid → m < 12 + request size) ∧
       p = heap_ptr h + total (low ++ mid) + 12 ∧
       heap_inv h' ((low ++ mid) ++ take_block n (request size) ++ post) ∧ keeps h h' bs ∧
       (lowest (heap_ptr h) bs (lfree h) →
        lowest (heap_ptr h) ((low ++ mid) ++ take_block n (request size) ++ post) (lfree h'))).
Proof.
  intros HI Hs. destruct (hwp_malloc h bs size HI) as (p&h'&E&Hpost); [lia|].
  pose proof (hi_tiled _ _ HI) as Ht. pose proof (ti_total _ _ Ht) as Htot.
  pose proof (ti_blocks _ _ Ht) as Hok.
  destruct Hpost as [(->&->&Hno)|(_&pre&n&post&(->&?&->&?&?&?&?)&low&mid&->&Hlow&Hno&Hfit)].
  - destruct Hno as (low&rest&->&Hlow&Hno); [lia|]. rewrite total_app in Htot.
    pose proof Hok as [Hl Hr]%Forall_app. exists low, rest, 0, h. split_and!; [done..| |done|].
    + rewrite Hlow. intros Hlw m. by eapply lowest_used.
    + left. split_and!; [done..|]. intros pre n post. by eapply none_passes_free.
  - destruct Hfit as (_&_&Hend). rewrite <-(assoc_L (++)) in Hok, Htot.
    pose proof Hok as [Hl Hr]%Forall_app. rewrite !total_app in *. simpl in Htot.
    exists low, (mid ++ (n, false) :: post), (heap_ptr h + (total low + total mid) + 12), h'. rewrite <-(assoc_L (++)). split_and!; [done..| |done|].
    + rewrite Hlow. intros Hlw m. by eapply lowest_used.
    + right. exists mid, n, post. rewrite <-(assoc_L (++)) in *. split_and!; try done.
      * intros [-> ->]. simpl in Htot. lia.
      * intros m (m1&m2&->)%list_elem_of_split.
        apply none_passes_app in Hno as [_ [Hm _]]. unfold passes in Hm. simpl in Hm.
        rewrite total_app in *. simpl in *. apply Forall_app in Hr as [Hr1 [[Hn _] Hr]%Forall_cons].
        apply Forall_app in Hr1 as [_ [_ Hr2]%Forall_cons]. pose proof (total_nonneg _ Hr2).
        pose proof (total_nonneg _ Hr). simpl in Hn. destruct (decide (m < 12 + request size)); [done|].
        exfalso. apply Hm. split_and!; [done|lia|lia].
      * by rewrite total_app.
      * rewrite <-!(assoc_L (++)) in *. done.
Qed.

Lemma rt_malloc_first_fit_witness : ∃ p h', rt_malloc 20 demo_heap = Some (p, h') ∧
  ((p = 0 ∧ h' = demo_heap ∧ passed_over 20 [(116, false)]) ∨
   p = heap_ptr demo_heap + 12 ∧ keeps demo_heap h' [(116, false)]).
Proof.
  destruct demo_inv as [HI El].
  destruct (rt_malloc_first_fit demo_heap [(116, false)] 20) as (low&rest&p&h'&Eb&Elf&_&E&Hp);
    [exact HI|lia|].
  assert (low = []) as ->.
  { destruct low as [|b low]; [reflexivity|]. exfalso. injection Eb as <- Eb.
    destruct low; [|discriminate Eb]. rewrite El in Elf. revert Elf. generalize (heap_ptr demo_heap).
    intros a Ea. cbn in Ea. lia. }
  exists p, h'. split; [exact E|]. cbn [app] in Eb. subst rest.
  destruct Hp as [Hp|(mid&n&post&Er&_&_&_&Hpp&_&Hk&_)]; [left; exact Hp|right].
  destruct mid as [|b mid]; [|injection Er as _ Er; destruct mid; discriminate Er].
  cbn [app total] in Hpp. rewrite Z.add_0_r in Hpp. split; [exact Hpp|exact Hk].
Defined.

(** C5: [rt_free] undoes [rt_malloc]: freeing a block just allocated succeeds and
    restores the blocks of the heap exactly (the split is joined again), with
    the same count of used bytes and all data of the client kept. *)
Theorem rt_free_undoes_malloc h bs size p h1 :
  heap_inv h bs → 0 <= size <= 2 ^ 32 - 4 → rt_malloc size h = Some (p, h1) → p ≠ 0 →
  ∃ h2, rt_free p h1 = Some (tt, h2) ∧ heap_inv h2 bs ∧ used_mem h2 = used_mem h ∧ keeps h h2 bs.
Proof.
  intros HI Hs Em Hp. destruct (hwp_malloc h bs size HI Hs) as (p'&h'&E&Hpost).
  rewrite E in Em. simplify_eq.
  destruct Hpost as [(->&_)|(_&pre&n&post&(->&Hfit&->&HI1&Hk1&(Eb&_)&_)&_)]; [done|].
  destruct (plug_take pre n (request size) post) as (k&t&Et&Ep); [by eapply hi_separated|].
  rewrite Et in HI1. rewrite <-Eb. destruct (hwp_free _ _ _ _ HI1) as ([]&h2&Ef&HI2&Hk2&_).
  rewrite Ep in HI2. exists h2. split_and!; [done|done| |].
  - by rewrite (hi_used _ _ HI2), (hi_used _ _ HI).
  - intros x Hx. rewrite <-(Hk1 x Hx). apply Hk2. rewrite <-live_plug, Ep. by rewrite Eb.
Qed.

Lemma rt_free_undoes_malloc_witness : ∃ p h1 h2, rt_malloc 20 demo_heap = Some (p, h1) ∧
  rt_free p h1 = Some (tt, h2) ∧ heap_inv h2 [(116, false)] ∧ used_mem h2 = used_mem demo_heap ∧
  keeps demo_heap h2 [(116, false)].
Proof.
  assert (match rt_malloc 20 demo_heap with Some (p, _) => Z.eqb p 4108 | None => false end = true)
    as Hm by (vm_compute; reflexivity).
  destruct (rt_malloc 20 demo_heap) as [[p h1]|] eqn:E; [|discriminate Hm].
  apply Z.eqb_eq in Hm.
  destruct (rt_free_undoes_malloc demo_heap [(116, false)] 20 p h1) as (h2&E2&H2);
    [apply demo_inv|lia|exact E|lia|].
  exists p, h1, h2. split; [reflexivity|]. split; [exact E2|exact H2].
Defined.

(** C6: The objects of a client are aligned to 4 bytes, lie between the first
    header and the end of the heap inside the 32-bit address space, do not
    overlap, and [used_mem], which [rt_memory_info] reports, is the sum of
    their sizes and headers, never more than [max_mem] and the size of the
    heap. *)
Theorem heap_objects_separate h σ : view h σ →
  (∀ p d, σ !! p = Some d →
     p mod 4 = 0 ∧ heap_ptr h + 12 <= p ∧ p + zlen d <= heap_end h ∧ heap_end h < 2 ^ 32) ∧
  (∀ p q d e, p ≠ q → σ !! p = Some d → σ !! q = Some e →
     p + zlen d <= q ∨ q + zlen e <= p) ∧
  rt_memory_info h = Some ((mem_size_aligned h, footprint σ, max_mem h), h) ∧
  footprint σ <= max_mem h <= mem_size_aligned h + 12.
Proof.
  intros Hv. pose proof Hv as (bs&HI&Eσ). pose proof (hi_tiled _ _ HI) as Ht.
  pose proof Ht as [_ Hb Hal Hsz Htop _ Hend Htot Hok _].
  assert (footprint σ = used_mem h) as Ef
    by (rewrite Eσ, used_objects by done; symmetry; apply (hi_used _ _ HI)).
  split_and!.
  - intros p d Hp. destruct (view_elem _ _ _ _ Hv Hp) as (pre&n&post&HI'&_&->&->&Hn&Hpre).
    pose proof (hi_tiled _ _ HI') as Ht'.
    pose proof (tiled_pos _ _ _ Ht') as (_&_&Htot'&Hokp&[_ Hq]%Forall_cons&_).
    pose proof (total_nonneg _ Hq). pose proof (total_mod _ Hokp). simpl in Htot'.
    rewrite zlen_bytes by lia. split_and!; try lia. mlia.
  - intros p q d e Hpq. rewrite Eσ. by apply objects_separate.
  - unfold rt_memory_info. by rewrite Ef.
  - rewrite Ef. apply (hi_max _ _ HI).
  - apply (hi_max _ _ HI).
Qed.

Lemma heap_objects_separate_witness :
  rt_memory_info demo_heap = Some ((mem_size_aligned demo_heap, footprint ∅, max_mem demo_heap),
    demo_heap) ∧ footprint ∅ <= max_mem demo_heap.
Proof.
  destruct (heap_objects_separate demo_heap ∅ demo_view) as (_&_&E&Hle&_). split; [exact E|exact Hle].
Defined.

(** [rt_system_heap_init] makes the memory between the addresses, rounded
    inwards to 4 bytes, one free block between two headers: a heap without
    objects whose lowest free block is its start. *)
Theorem rt_system_heap_init_correct h b e :
  let b' := 4 * ((b + 3) / 4) in let e' := 4 * (e / 4) in
  0 <= b <= 2 ^ 32 - 4 → 0 <= e < 2 ^ 32 → 36 <= e' - b' → fresh h b' (e' - b') →
  ∃ h', rt_system_heap_init b e h = Some (tt, h') ∧ view h' ∅ ∧
    heap_inv h' [(e' - b' - 12, false)] ∧
    lowest (heap_ptr h') [(e' - b' - 12, false)] (lfree h') ∧
    heap_ptr h' = b' ∧ heap_end h' = e' - 12.
Proof.
  intros b' e' Hb He Hsz Hf.
  destruct (hwp_init h b e Hb He Hsz Hf) as ([]&h'&E&HI&Eb&Es&El).
  exists h'. split; [done|]. split; [by eexists|]. split; [done|]. split.
  - rewrite Eb, El. intros a [[_ ->]|[]]. done.
  - split; [done|]. rewrite (ti_end _ _ (hi_tiled _ _ HI)), Eb, Es. fold b' e'. lia.
Qed.

Lemma rt_system_heap_init_correct_witness : ∃ h',
  rt_system_heap_init 0x1000 0x1080 demo_start = Some (tt, h') ∧ view h' ∅ ∧
  heap_inv h' [(116, false)] ∧ lowest (heap_ptr h') [(116, false)] (lfree h') ∧
  heap_ptr h' = 0x1000 ∧ heap_end h' = 0x1074.
Proof.
  apply (rt_system_heap_init_correct demo_start 0x1000 0x1080);
    [lia|lia|vm_compute; discriminate|exact demo_fresh].
Defined.

(** A request of more than 2^32 - 4 bytes is not refused: rounding wraps to 0,
    and the call does what a request for one byte does. *)
Theorem rt_malloc_wraps h size : 2 ^ 32 - 4 < size < 2 ^ 32 → 12 <= mem_size_aligned h →
  rt_malloc size h = rt_malloc 1 h.
Proof.
  intros Hs Ht. unfold rt_malloc, mbind, H_bind, hget.
  destruct (not_in_interrupt h) as [[[] h1]|] eqn:E; [|done].
  assert (h1 = h) as ->.
  { unfold not_in_interrupt, mbind, H_bind, hget, hassert in E. by case_bool_decide; simplify_eq. }
  rewrite (bool_decide_false (size = 0)) by lia. rewrite (bool_decide_false (1 = 0)) by lia.
  assert (RT_ALIGN size RT_ALIGN_SIZE = 0) as ->.
  { unfold RT_ALIGN, RT_ALIGN_SIZE. rewrite <-Z.ldiff_land. change (4 - 1) with (Z.ones 2).
    rewrite Z.ldiff_ones_r, Z.shiftl_mul_pow2, Z.shiftr_div_pow2 by lia.
    change (2 ^ 2) with 4. mlia. }
  change (RT_ALIGN 1 RT_ALIGN_SIZE) with 4.
  rewrite (bool_decide_false (0 > _)), (bool_decide_false (4 > _)) by lia. done.
Qed.

Lemma rt_malloc_wraps_witness : rt_malloc 0xffffffff demo_heap = rt_malloc 1 demo_heap.
Proof.
  apply rt_malloc_wraps; [lia|].
  assert (Z.leb 12 (mem_size_aligned demo_heap) = true) as Hs by (vm_compute; reflexivity).
  apply Z.leb_le, Hs.
Defined.

(** Three allocations that fill the heap, the first cut to 12 bytes, and a new
    request: the addresses, and the size and the used bytes of the heap. *)
Definition shrink_and_ask (size : Z) : HM (list Z) :=
  a ← rt_malloc 40; b ← rt_malloc 12; c ← rt_malloc 24;
  a' ← rt_realloc a 12;
  d ← rt_malloc size;
  '(total, us, _) ← rt_memory_info;
  mret [a; b; c; a'; d; total; us].

(** Shrinking with [rt_realloc] does not lower [lfree]: in a heap of 104 bytes
    that three blocks fill, cutting the first from 40 to 12 bytes frees 28 of
    the 116 bytes, but a request for 12 bytes is still refused. *)
Theorem rt_realloc_strands_memory :
  fst <$> shrink_and_ask 12 demo_heap = Some [0x100c; 0x1040; 0x1058; 0x100c; 0; 104; 88].
Proof. vm_compute. reflexivity. Qed.
