(* ===== verification/HeapAlign.v ===== *)
(** * Clients of the heap in kservice.c

    [rt_malloc_align], which keeps the address of the block in the word in front
    of the aligned address it hands out, [rt_free_align], which finds it there,
    and [rt_strdup]. *)

From S2P Require Import Prelude KString HeapMem HeapWp HeapInv HeapSpec HeapObjects.



Definition rt_strdup (s : Z) : HM Z :=
  n ← hread (λ m, rt_strlen m s);
  let len := u32 (n + 1) in
  tmp ← rt_malloc len;
  if bool_decide (tmp = 0) then mret 0 else
  hwrite (λ m, rt_memcpy m tmp s len);;
  mret tmp.

(** ** Alignment *)





(** Blocks start at a multiple of 4. *)
Lemma view_aligned h σ q d : view h σ → σ !! q = Some d →
  q mod 4 = 0 ∧ 12 <= q ∧ q + zlen d < 2 ^ 32.
Proof.
  intros Hv Hq. destruct (view_elem _ _ _ _ Hv Hq) as (pre&n&post&HI&_&->&->&Hn&Hp).
  pose proof (hi_tiled _ _ HI) as Ht. pose proof (ti_blocks _ _ Ht) as Hok.
  pose proof Hok as [Hpre [_ Hpost]%Forall_cons]%Forall_app. pose proof (total_mod _ Hpre) as Hmod.
  pose proof (ti_align _ _ Ht) as Hal. pose proof (ti_base _ _ Ht). pose proof (ti_top _ _ Ht).
  pose proof (ti_total _ _ Ht) as Htot. rewrite total_app in Htot. simpl in Htot.
  pose proof (total_nonneg _ Hpost). rewrite zlen_bytes by lia.
  split_and!; [|lia..]. rewrite <-Z.add_assoc, Z.add_mod by lia.
  rewrite (Z.add_mod (total pre)) by lia. rewrite Hal, Hmod. done.
Qed.



(** ** The word in front of the aligned address *)









(** ** Duplicated strings *)

(** An object with the same contents in two heaps. *)
Lemma view_agree h h2 σ σ2 q d : view h σ → view h2 σ2 → σ !! q = Some d → σ2 !! q = Some d →
  agree (hmem h) (hmem h2) q (zlen d).
Proof.
  intros Hv Hv2 Hq Hq2 x Hx.
  destruct (view_mapped _ _ _ _ Hv Hq (x - q)) as [v Hm]; [lia|].
  destruct (view_mapped _ _ _ _ Hv2 Hq2 (x - q)) as [v2 Hm2]; [lia|].
  destruct (view_elem _ _ _ _ Hv Hq) as (?&n&?&_&_&_&Ed&?&_).
  destruct (view_elem _ _ _ _ Hv2 Hq2) as (?&n2&?&_&_&_&Ed2&?&_).
  assert (d !! Z.to_nat (x - q) = d !! Z.to_nat (x - q)) as E by done.
  rewrite Ed in Hx. rewrite zlen_bytes in Hx by lia.
  assert (n2 = n) as -> by (rewrite Ed in Ed2; apply (f_equal zlen) in Ed2;
    rewrite !zlen_bytes in Ed2 by lia; lia).
  rewrite Ed in E at 1. rewrite Ed2 in E. rewrite !bytes_lookup, Hm, Hm2 in E by lia.
  replace (q + (x - q)) with x in * by lia. simplify_eq/=. congruence.
Qed.

Lemma cstr_copied m m' q p t : cstr m p t → copies m m' q p (zlen t + 1) → cstr m' q t.
Proof.
  intros Ht Hc. assert (∀ i, 0 <= i <= zlen t → m' !! (q + i) = m !! (p + i)) as Hi.
  { intros i ?. rewrite Hc, bool_decide_true by lia. f_equal. lia. }
  clear Hc. revert p q Ht Hi. induction t as [|c t IH]; intros p q Ht Hi; simpl in *.
  - specialize (Hi 0). rewrite !Z.add_0_r in Hi. rewrite Hi; [done|]. unfold zlen. simpl. lia.
  - destruct Ht as (H0&Hc&Ht). pose proof (zlen_nonneg t). rewrite zlen_cons in Hi. split_and!.
    + specialize (Hi 0). rewrite !Z.add_0_r in Hi. by rewrite Hi by lia.
    + done.
    + apply (IH (p + 1)); [done|]. intros i ?. rewrite <-!Z.add_assoc. apply Hi. lia.
Qed.

Lemma view_separate h σ p q d e : view h σ → p ≠ q → σ !! p = Some d → σ !! q = Some e →
  p + zlen d <= q ∨ q + zlen e <= p.
Proof.
  intros (bs&HI&->) Hpq Hp Hq. eapply objects_separate; [|done..].
  eapply ti_blocks, hi_tiled, HI.
Qed.

(** [rt_strdup] of a string in an object: a new object that holds the same
    string, or no memory and nothing changed. *)
Theorem rt_strdup_correct h σ o d s t : view h σ → σ !! o = Some d →
  cstr (hmem h) s t → o <= s → s + zlen t + 1 <= o + zlen d →
  ∃ p h', rt_strdup s h = Some (p, h') ∧
    ((p = 0 ∧ h' = h) ∨
     (σ !! p = None ∧ cstr (hmem h') p t ∧ ∃ e, zlen t + 1 <= zlen e ∧ view h' (<[p := e]> σ))).
Proof.
  intros Hv Ho Hs Hos Hlen. pose proof (zlen_nonneg t).
  destruct (view_aligned _ _ _ _ Hv Ho) as (_&?&Htop).
  enough (hwp (rt_strdup s) h (λ p h', (p = 0 ∧ h' = h) ∨
     (σ !! p = None ∧ cstr (hmem h') p t ∧ ∃ e, zlen t + 1 <= zlen e ∧ view h' (<[p := e]> σ))))
    as (p&h'&?&?) by (by exists p, h').
  unfold rt_strdup. hbind. eapply hwp_read; [by apply strlen_spec|].
  rewrite u32_small by (unfold in_u32; lia). hbind.
  eapply hwp_mono; [apply hwp_malloc_view; [done|]|].
  { lia. }
  intros q h1 [[-> ->]|(Hq0&Hnew&e&Hl&Hv1)].
  { rewrite bool_decide_true by done. hstep. by left. }
  rewrite bool_decide_false by done.
  assert (o ≠ q) as Hoq by congruence.
  assert (<[q:=e]> σ !! q = Some e) as Hqe by apply lookup_insert_eq.
  assert (<[q:=e]> σ !! o = Some d) as Ho1 by (by rewrite lookup_insert_ne).
  pose proof (view_separate _ _ _ _ _ _ Hv1 Hoq Ho1 Hqe) as Hsep.
  assert (cstr (hmem h1) s t) as Hs1.
  { apply (cstr_frame (hmem h)); [|done]. intros x Hx.
    apply (view_agree h h1 σ _ o d Hv Hv1 Ho Ho1). lia. }
  destruct (memcpy_copies (hmem h1) q s (zlen t + 1)) as (m'&E&Hco);
    [by eapply view_bytes|lia|lia|..].
  { eapply mapped_sub; [exact (view_mapped _ _ _ _ Hv1 Hqe)|lia..]. }
  { eapply mapped_sub; [exact (view_mapped _ _ _ _ Hv1 Ho1)|lia..]. }
  hbind. eapply hwp_write; [done|]. hstep. right.
  split_and!; [done|by eapply cstr_copied|]. exists (bytes m' q (zlen e)).
  split; [rewrite zlen_bytes by lia; lia|].
  assert (∀ f, <[q:=f]> σ = <[q:=f]> (<[q:=e]> σ)) as -> by (intros; by rewrite insert_insert_eq).
  apply (view_update h1 _ q e q (zlen t + 1)); [done..|lia|lia|]. split.
  - eapply copies_bytes; [done|]. by eapply view_bytes.
  - intros x Hx. rewrite Hco. case_bool_decide; [|done].
    destruct (view_mapped _ _ _ _ Hv1 Ho1 (s + (x - q) - o)) as [v Hm]; [lia|].
    exists v. rewrite <-Hm. f_equal. lia.
  - intros x Hx. by rewrite Hco, bool_decide_false.
Qed.
