(* ===== verification/ListStore.v ===== *)
(** * The list interface of the kernel

    The kernel's code uses its queues through a few functions on list nodes.
    [ListOps] is that interface.  It has two instances: the pointer store of
    DList.v, which is the C code, and a store of finite sequences, in which
    the kernel's theorems are proved.  [list_sim] is the contract between them:
    whatever the sequences do, the pointers do too. *)

From S2P Require Import Prelude DList.

Class ListOps (S HD EL : Type) : Type := {
  l_init : node HD EL → S → option S;
  l_insert_after : node HD EL → node HD EL → S → option S;
  l_insert_before : node HD EL → node HD EL → S → option S;
  l_remove : node HD EL → S → option S;
  l_isempty : node HD EL → S → option bool;
  l_next : node HD EL → S → option (node HD EL);
  l_prev : node HD EL → S → option (node HD EL);
}.

(** ** Pointers *)

#[global] Instance ptr_ops `{Countable HD, Countable EL} : ListOps (lheap (node HD EL)) HD EL := {|
  l_init n h := Some (rt_list_init n h);
  l_insert_after := rt_list_insert_after;
  l_insert_before := rt_list_insert_before;
  l_remove := rt_list_remove;
  l_isempty := rt_list_isempty;
  l_next n h := nxt h !! n;
  l_prev n h := prv h !! n;
|}.

(** ** Sequences *)

Section seq_store.
Context {HD EL : Type} `{Countable HD, Countable EL}.
Implicit Types (x y : HD) (e : EL) (l : list EL).

(** The initialised lists with their elements, and the initialised nodes. *)
Record seqs : Type := Seqs { s_lists : gmap HD (list EL); s_elems : gset EL }.

Implicit Types s : seqs.

Definition lof s x : list EL := default [] (s_lists s !! x).

(** The list an element is in. *)
Definition s_find e s : option HD :=
  fst <$> head (map_to_list (filter (λ p, e ∈ p.2) (s_lists s))).

(** Splits a list at the first occurrence of an element. *)
Fixpoint split_at e l : option (list EL * list EL) :=
  match l with
  | [] => None
  | a :: l => if decide (a = e) then Some ([], l)
              else '(l1, l2) ← split_at e l; Some (a :: l1, l2)
  end.

Definition s_put x e l s : seqs := Seqs (<[x := l]> (s_lists s)) ({[e]} ∪ s_elems s).

Definition s_init (n : node HD EL) s : option seqs :=
  match n with
  | Hd x => if decide (lof s x = []) then Some (Seqs (<[x := []]> (s_lists s)) (s_elems s)) else None
  | El e => match s_find e s with
            | None => Some (Seqs (s_lists s) ({[e]} ∪ s_elems s))
            | Some _ => None
            end
  end.

Definition s_insert_before (at_ n : node HD EL) s : option seqs :=
  match n with
  | Hd _ => None
  | El e =>
      match s_find e s with
      | Some _ => None
      | None =>
          match at_ with
          | Hd x => l ← s_lists s !! x; Some (s_put x e (l ++ [e]) s)
          | El a => x ← s_find a s; '(l1, l2) ← split_at a (lof s x);
                    Some (s_put x e (l1 ++ e :: a :: l2) s)
          end
      end
  end.

Definition s_insert_after (at_ n : node HD EL) s : option seqs :=
  match n with
  | Hd _ => None
  | El e =>
      match s_find e s with
      | Some _ => None
      | None =>
          match at_ with
          | Hd x => l ← s_lists s !! x; Some (s_put x e (e :: l) s)
          | El a => x ← s_find a s; '(l1, l2) ← split_at a (lof s x);
                    Some (s_put x e (l1 ++ a :: e :: l2) s)
          end
      end
  end.

Definition s_remove (n : node HD EL) s : option seqs :=
  match n with
  | Hd _ => None
  | El e =>
      if decide (e ∈ s_elems s) then
        match s_find e s with
        | None => Some s
        | Some x => '(l1, l2) ← split_at e (lof s x);
                    Some (Seqs (<[x := l1 ++ l2]> (s_lists s)) (s_elems s))
        end
      else None
  end.

Definition s_isempty (n : node HD EL) s : option bool :=
  match n with
  | Hd x => l ← s_lists s !! x; Some (bool_decide (l = []))
  | El _ => None
  end.

Definition s_next (n : node HD EL) s : option (node HD EL) :=
  match n with
  | Hd x => l ← s_lists s !! x; Some (default (Hd x) (El <$> head l))
  | El e =>
      match s_find e s with
      | Some x => '(_, l2) ← split_at e (lof s x); Some (default (Hd x) (El <$> head l2))
      | None => if decide (e ∈ s_elems s) then Some (El e) else None
      end
  end.

Definition s_prev (n : node HD EL) s : option (node HD EL) :=
  match n with
  | Hd x => l ← s_lists s !! x; Some (default (Hd x) (El <$> last l))
  | El e =>
      match s_find e s with
      | Some x => '(l1, _) ← split_at e (lof s x); Some (default (Hd x) (El <$> last l1))
      | None => if decide (e ∈ s_elems s) then Some (El e) else None
      end
  end.

#[global] Instance seq_ops : ListOps seqs HD EL := {|
  l_init := s_init;
  l_insert_after := s_insert_after;
  l_insert_before := s_insert_before;
  l_remove := s_remove;
  l_isempty := s_isempty;
  l_next := s_next;
  l_prev := s_prev;
|}.

(** Well-formed: no element twice, list elements are initialised nodes. *)
Record swf s : Prop := {
  swf_elems x e : e ∈ lof s x → e ∈ s_elems s;
  swf_nodup x : NoDup (lof s x);
  swf_disjoint x y e : e ∈ lof s x → e ∈ lof s y → x = y;
}.

Lemma lof_lookup s x l : s_lists s !! x = Some l → lof s x = l.
Proof. unfold lof. by intros ->. Qed.

Lemma lof_elem_lookup s x e : e ∈ lof s x → s_lists s !! x = Some (lof s x).
Proof. unfold lof. destruct (s_lists s !! x) eqn:E; simpl; [done|set_solver]. Qed.

Lemma s_find_Some e s x : swf s → s_find e s = Some x ↔ e ∈ lof s x.
Proof.
  intros Hwf. unfold s_find. split.
  - intros ([y l]&Hp&->)%fmap_Some. simpl.
    apply head_Some_elem_of, elem_of_map_to_list, map_lookup_filter_Some in Hp as [Hl He].
    by rewrite (lof_lookup _ _ _ Hl).
  - intros He. pose proof (lof_elem_lookup _ _ _ He) as Hl.
    destruct (map_to_list (filter _ (s_lists s))) as [|[y l] ps] eqn:E; simpl.
    + exfalso. apply map_to_list_empty_iff in E. eapply (map_filter_empty_not_lookup _ _ x _ E); [done|].
      done.
    + f_equal. assert ((y, l) ∈ map_to_list (filter (λ p, e ∈ p.2) (s_lists s))) as Hy
        by (rewrite E; left).
      apply elem_of_map_to_list, map_lookup_filter_Some in Hy as [Hy Hey]. simpl in Hey.
      rewrite <-(lof_lookup _ _ _ Hy) in Hey. symmetry. by eapply swf_disjoint.
Qed.

Lemma s_find_None e s : swf s → s_find e s = None ↔ detached (lof s) e.
Proof.
  intros Hwf. split.
  - intros Hn x He. apply (s_find_Some _ _ _ Hwf) in He. congruence.
  - intros Hd. destruct (s_find e s) as [x|] eqn:E; [|done].
    apply s_find_Some in E; [|done]. by destruct (Hd x).
Qed.

Lemma split_at_spec e l l1 l2 : split_at e l = Some (l1, l2) → l = l1 ++ e :: l2 ∧ e ∉ l1.
Proof.
  revert l1. induction l as [|a l IH]; intros l1 E; simpl in E; [done|].
  destruct (decide (a = e)) as [->|Hne].
  - injection E as <- <-. split; [done|set_solver].
  - destruct (split_at e l) as [[l1' l2']|]; [|done]. injection E as <- <-.
    destruct (IH l1' eq_refl) as [-> ?]. split; [done|set_solver].
Qed.

Lemma split_at_app e l1 l2 : e ∉ l1 → split_at e (l1 ++ e :: l2) = Some (l1, l2).
Proof.
  induction l1 as [|a l1 IH]; intros He; simpl.
  - by rewrite decide_True.
  - rewrite decide_False by set_solver. by rewrite IH by set_solver.
Qed.

End seq_store.

Arguments seqs HD EL {_ _ _ _}.

(** ** The contract *)

(** [R] is a simulation: an operation that succeeds on [a] succeeds on every
    [p] related to it, with the same answer and related stores. *)
Class ListSim {Sa Sp HD EL : Type} `{ListOps Sa HD EL, ListOps Sp HD EL}
    (R : Sa → Sp → Prop) : Prop := {
  sim_init n a a' p : R a p → l_init n a = Some a' →
    ∃ p', l_init n p = Some p' ∧ R a' p';
  sim_insert_after m n a a' p : R a p → l_insert_after m n a = Some a' →
    ∃ p', l_insert_after m n p = Some p' ∧ R a' p';
  sim_insert_before m n a a' p : R a p → l_insert_before m n a = Some a' →
    ∃ p', l_insert_before m n p = Some p' ∧ R a' p';
  sim_remove n a a' p : R a p → l_remove n a = Some a' →
    ∃ p', l_remove n p = Some p' ∧ R a' p';
  sim_isempty n a p b : R a p → l_isempty n a = Some b → l_isempty n p = Some b;
  sim_next n a p m : R a p → l_next n a = Some m → l_next n p = Some m;
  sim_prev n a p m : R a p → l_prev n a = Some m → l_prev n p = Some m;
}.

Section sim.
Context {HD EL : Type} `{Countable HD, Countable EL}.
Implicit Types (s : seqs HD EL) (h : lheap (node HD EL)) (x y : HD) (e : EL).

Definition list_sim s h : Prop :=
  Rep h (λ x, is_Some (s_lists s !! x)) (λ e, e ∈ s_elems s) (lof s).

Lemma list_sim_swf s h : list_sim s h → swf s.
Proof. intros R. split; [apply R|by eapply Rep_NoDup|apply R]. Qed.

(** Transport of [Rep] to the store an operation of the sequences returns. *)
Lemma list_sim_put s h x e l :
  is_Some (s_lists s !! x) →
  Rep h (λ x, is_Some (s_lists s !! x)) (λ e', e' = e ∨ e' ∈ s_elems s) (<[x := l]> (lof s)) →
  list_sim (s_put x e l s) h.
Proof.
  intros Hx R. unfold list_sim. simpl.
  apply (Rep_ext _ _ _ (<[x := l]> (lof s))).
  { intros y. unfold lof, s_put; simpl. destruct (decide (x = y)) as [->|].
    - by rewrite lookup_insert_eq, fn_lookup_insert.
    - by rewrite lookup_insert_ne, fn_lookup_insert_ne by done. }
  eapply Rep_iff, R.
  - intros y. rewrite lookup_insert_is_Some'. naive_solver.
  - intros e'. set_solver.
Qed.

Lemma sim_find s h e : list_sim s h → s_find e s = None → detached (lof s) e.
Proof. intros Hs. by apply s_find_None, (list_sim_swf _ _ Hs). Qed.

Lemma sim_split s h a x l1 l2 : list_sim s h → s_find a s = Some x →
  split_at a (lof s x) = Some (l1, l2) →
  is_Some (s_lists s !! x) ∧ lof s x = l1 ++ a :: l2 ∧ (a ∉ l1) ∧ (a ∉ l2).
Proof.
  intros Hs Hf Hsp. pose proof (list_sim_swf _ _ Hs) as Hwf.
  apply s_find_Some in Hf; [|done]. apply split_at_spec in Hsp as [E Hl1].
  split_and!; [by rewrite (lof_elem_lookup _ _ _ Hf)|done|done|].
  pose proof (swf_nodup _ Hwf x) as Hnd. rewrite E in Hnd.
  apply NoDup_app in Hnd as (_&_&[? _]%NoDup_cons). done.
Qed.

Lemma sim_split_any s h a x : list_sim s h → s_find a s = Some x →
  ∃ l1 l2, split_at a (lof s x) = Some (l1, l2) ∧ is_Some (s_lists s !! x) ∧
    lof s x = l1 ++ a :: l2 ∧ (a ∉ l1) ∧ (a ∉ l2).
Proof.
  intros Hs Hf. pose proof (list_sim_swf _ _ Hs) as Hwf.
  pose proof (proj1 (s_find_Some _ _ _ Hwf) Hf) as Ha.
  destruct (Rep_split _ _ _ _ Hs x a Ha) as (l1&l2&E&Hl1&_).
  assert (split_at a (lof s x) = Some (l1, l2)) as Hsp by (rewrite E; by apply split_at_app).
  exists l1, l2. split; [done|]. by eapply sim_split.
Qed.

Lemma sim_insert_before_ok m n s s' h : list_sim s h → s_insert_before m n s = Some s' →
  ∃ h', rt_list_insert_before m n h = Some h' ∧ list_sim s' h'.
Proof.
  intros Hs Hop. destruct n as [|e]; simpl in Hop; [done|].
  destruct (s_find e s) eqn:He; [done|]. pose proof (sim_find _ _ _ Hs He) as Hdet.
  destruct m as [x|a]; simpl in Hop.
  - destruct (s_lists s !! x) as [l|] eqn:Hl; [|done]. injection Hop as <-.
    rewrite <-(lof_lookup _ _ _ Hl) in *.
    destruct (Rep_append _ _ _ _ Hs x e) as (h'&Hh'&R'); [by rewrite Hl|done|].
    exists h'. split; [done|]. apply list_sim_put; [by rewrite Hl|done].
  - destruct (s_find a s) as [x|] eqn:Ha; simpl in Hop; [|done].
    destruct (sim_split_any _ _ _ _ Hs Ha) as (l1&l2&Hsp&Hx&E&_). rewrite Hsp in Hop.
    injection Hop as <-.
    destruct (Rep_insert_before _ _ _ _ Hs x l1 e (a :: l2)) as (h'&Hh'&R'); [done..|].
    exists h'. split; [done|]. by apply list_sim_put.
Qed.

Lemma sim_insert_after_ok m n s s' h : list_sim s h → s_insert_after m n s = Some s' →
  ∃ h', rt_list_insert_after m n h = Some h' ∧ list_sim s' h'.
Proof.
  intros Hs Hop. destruct n as [|e]; simpl in Hop; [done|].
  destruct (s_find e s) eqn:He; [done|]. pose proof (sim_find _ _ _ Hs He) as Hdet.
  destruct m as [x|a]; simpl in Hop.
  - destruct (s_lists s !! x) as [l|] eqn:Hl; [|done]. injection Hop as <-.
    rewrite <-(lof_lookup _ _ _ Hl) in *.
    destruct (Rep_prepend _ _ _ _ Hs x e) as (h'&Hh'&R'); [by rewrite Hl|done|].
    exists h'. split; [done|]. apply list_sim_put; [by rewrite Hl|done].
  - destruct (s_find a s) as [x|] eqn:Ha; simpl in Hop; [|done].
    destruct (sim_split_any _ _ _ _ Hs Ha) as (l1&l2&Hsp&Hx&E&_). rewrite Hsp in Hop.
    injection Hop as <-.
    destruct (Rep_insert_after _ _ _ _ Hs x (l1 ++ [a]) e l2) as (h'&Hh'&R'); [done|done| |].
    { by rewrite E, <-(assoc_L (++)). }
    rewrite last_snoc in Hh'. rewrite <-(assoc_L (++)) in R'.
    exists h'. split; [done|]. by apply list_sim_put.
Qed.

Lemma sim_remove_ok n s s' h : list_sim s h → s_remove n s = Some s' →
  ∃ h', rt_list_remove n h = Some h' ∧ list_sim s' h'.
Proof.
  intros Hs Hop. destruct n as [|e]; simpl in Hop; [done|].
  destruct (decide (e ∈ s_elems s)) as [He|]; [|done].
  destruct (Rep_remove _ _ _ _ Hs e He) as (h'&Hh'&R'). exists h'. split; [done|].
  destruct (s_find e s) as [x|] eqn:Hf.
  - destruct (sim_split_any _ _ _ _ Hs Hf) as (l1&l2&Hsp&Hx&E&H1&H2).
    simpl in Hop. rewrite Hsp in Hop. injection Hop as <-.
    unfold list_sim; simpl. eapply Rep_ext, Rep_iff, R'.
    + intros y. unfold lof at 1; simpl. destruct (decide (x = y)) as [->|Hxy].
      * rewrite lookup_insert_eq. simpl. by rewrite (list_del_split e _ _ l1 l2).
      * rewrite lookup_insert_ne by done. fold (lof s y). rewrite list_del_id; [done|].
        intros Hy. apply Hxy. apply (rep_disjoint _ _ _ _ Hs x y e); [|done].
        rewrite E. set_solver.
    + intros y. rewrite lookup_insert_is_Some'. naive_solver.
    + done.
  - injection Hop as <-. pose proof (sim_find _ _ _ Hs Hf) as Hdet.
    unfold list_sim. eapply Rep_ext, R'. intros y. by rewrite list_del_id.
Qed.

Lemma sim_init_ok n s s' h : list_sim s h → s_init n s = Some s' →
  list_sim s' (rt_list_init n h).
Proof.
  intros Hs Hop. destruct n as [x|e]; simpl in Hop.
  - destruct (decide (lof s x = [])) as [El|]; [|done]. injection Hop as <-.
    unfold list_sim; simpl. eapply Rep_ext, Rep_iff, (Rep_new_head _ _ _ _ Hs x El).
    + intros y. unfold lof at 1; simpl. destruct (decide (x = y)) as [->|].
      * by rewrite lookup_insert_eq, El.
      * by rewrite lookup_insert_ne.
    + intros y. rewrite lookup_insert_is_Some'. naive_solver.
    + done.
  - destruct (s_find e s) eqn:Hf; [done|]. injection Hop as <-.
    pose proof (sim_find _ _ _ Hs Hf) as Hdet.
    unfold list_sim; simpl. eapply Rep_iff, (Rep_new_elem _ _ _ _ Hs e Hdet); [done|].
    intros e'. set_solver.
Qed.

(** The neighbours of an element in its ring. *)
Lemma ring_around h l xs a ys : ring h l (xs ++ a :: ys) →
  nxt h !! a = Some (default l (head ys)) ∧ prv h !! a = Some (default l (last xs)).
Proof.
  intros [Hc _]. split.
  - apply chain_app in Hc as [_ Hc]. by apply (chain_mid h a [] ys) in Hc as [? _].
  - apply chain_app in Hc as [Hc _]. rewrite <-(app_nil_r xs) in Hc.
    by apply (chain_mid h l xs []) in Hc as [_ ?].
Qed.

Lemma sim_ring s h a x l1 l2 : list_sim s h → is_Some (s_lists s !! x) →
  lof s x = l1 ++ a :: l2 →
  nxt h !! El a = Some (default (Hd x) (El <$> head l2)) ∧
  prv h !! El a = Some (default (Hd x) (El <$> last l1)).
Proof.
  intros Hs Hx E. pose proof (rep_ring _ _ _ _ Hs x Hx) as Hr.
  rewrite E, fmap_app in Hr. apply ring_around in Hr as [-> ->].
  rewrite fmap_last. by destruct l2.
Qed.

Lemma sim_alone s h e : list_sim s h → e ∈ s_elems s → detached (lof s) e →
  nxt h !! El e = Some (El e) ∧ prv h !! El e = Some (El e).
Proof. intros Hs He Hd. by destruct (rep_self _ _ _ _ Hs e He Hd) as [[? ?] _]. Qed.

#[global] Instance list_sim_correct : ListSim list_sim.
Proof.
  split; simpl.
  - intros n s s' h Hs Hop. eexists; split; [done|]. by eapply sim_init_ok.
  - apply sim_insert_after_ok.
  - apply sim_insert_before_ok.
  - apply sim_remove_ok.
  - intros [x|e] s h b Hs Hop; simpl in Hop; [|done].
    destruct (s_lists s !! x) as [l|] eqn:Hl; [|done]. injection Hop as <-.
    rewrite (Rep_isempty _ _ _ _ Hs x) by (by rewrite Hl). by rewrite (lof_lookup _ _ _ Hl).
  - intros [x|e] s h m Hs Hop; simpl in Hop.
    + destruct (s_lists s !! x) as [l|] eqn:Hl; [|done]. injection Hop as <-.
      rewrite (Rep_next _ _ _ _ Hs x) by (by rewrite Hl). by rewrite (lof_lookup _ _ _ Hl).
    + destruct (s_find e s) as [x|] eqn:Hf; simpl in Hop.
      * destruct (sim_split_any _ _ _ _ Hs Hf) as (l1&l2&Hsp&Hx&E&_).
        rewrite Hsp in Hop. injection Hop as <-. by apply (sim_ring s h e x l1 l2).
      * destruct (decide (e ∈ s_elems s)); [|done]. injection Hop as <-.
        apply (sim_alone s h e); [done..|]. by eapply sim_find.
  - intros [x|e] s h m Hs Hop; simpl in Hop.
    + destruct (s_lists s !! x) as [l|] eqn:Hl; [|done]. injection Hop as <-.
      rewrite (ring_prev _ _ _ (rep_ring _ _ _ _ Hs x (mk_is_Some _ _ Hl))).
      by rewrite fmap_last, (lof_lookup _ _ _ Hl).
    + destruct (s_find e s) as [x|] eqn:Hf; simpl in Hop.
      * destruct (sim_split_any _ _ _ _ Hs Hf) as (l1&l2&Hsp&Hx&E&_).
        rewrite Hsp in Hop. injection Hop as <-. by apply (sim_ring s h e x l1 l2).
      * destruct (decide (e ∈ s_elems s)); [|done]. injection Hop as <-.
        apply (sim_alone s h e); [done..|]. by eapply sim_find.
Qed.

Lemma list_sim_empty : list_sim (Seqs ∅ ∅) lh_empty.
Proof.
  unfold list_sim; simpl. eapply Rep_iff, Rep_empty.
  - intros x. rewrite lookup_empty. split; [done|]. by intros [? ?].
  - set_solver.
Qed.

End sim.
