(* ===== verification/KState.v ===== *)
(** * The state of the kernel (include/rtdef.h and the variables of src/*.c)

    The kernel's structures as records, indexed by their addresses; the
    variables of scheduler.c, clock.c and irq.c; and the monad the kernel code
    is written in: a state monad that can halt. *)

From S2P Require Import Prelude DList ListStore KString.

(** ** References

    An address is a [Z], the null pointer 0.  A thread's timer is embedded in
    the thread; a kernel object is referred to by its class and address. *)

Inductive timer_ref : Type := ThreadTimer (thread : Z) | UserTimer (timer : Z).

Inductive obj_ref : Type :=
| OThread (a : Z) | OSem (a : Z) | OMutex (a : Z) | OEvent (a : Z)
| OMailBox (a : Z) | OMessageQueue (a : Z) | OMemPool (a : Z) | ODevice (a : Z)
| OTimer (r : timer_ref).

(** The thread queues: the ready lists of scheduler.c, the defunct list, the
    suspend list of an IPC object or a memory pool, the senders' list of a
    mailbox, and the lists of a completion and of a data queue. *)
Inductive thread_queue : Type :=
| QReady (priority : Z) | QDefunct | QSuspend (o : obj_ref) | QSender (mailbox : Z)
| QCompletion (completion : Z) | QPush (queue : Z) | QPop (queue : Z).

#[global] Instance timer_ref_eq_dec : EqDecision timer_ref.
Proof. solve_decision. Defined.
#[global] Instance obj_ref_eq_dec : EqDecision obj_ref.
Proof. solve_decision. Defined.
#[global] Instance thread_queue_eq_dec : EqDecision thread_queue.
Proof. solve_decision. Defined.

#[global] Instance timer_ref_countable : Countable timer_ref.
Proof.
  refine (inj_countable' (λ r, match r with ThreadTimer a => inl a | UserTimer a => inr a end)
    (λ s, match s with inl a => ThreadTimer a | inr a => UserTimer a end) _). by intros [].
Defined.

#[global] Instance obj_ref_countable : Countable obj_ref.
Proof.
  refine (inj_countable' (λ o, match o with
      | OThread a => inl (0, a) | OSem a => inl (1, a) | OMutex a => inl (2, a)
      | OEvent a => inl (3, a) | OMailBox a => inl (4, a) | OMessageQueue a => inl (5, a)
      | OMemPool a => inl (6, a) | ODevice a => inl (7, a) | OTimer r => inr r end)
    (λ s, match s with
      | inl (0, a) => OThread a | inl (1, a) => OSem a | inl (2, a) => OMutex a
      | inl (3, a) => OEvent a | inl (4, a) => OMailBox a | inl (5, a) => OMessageQueue a
      | inl (6, a) => OMemPool a | inl (_, a) => ODevice a | inr r => OTimer r end) _). by intros [].
Defined.

#[global] Instance thread_queue_countable : Countable thread_queue.
Proof.
  refine (inj_countable' (λ q, match q with
      | QReady p => inl (Some p) | QDefunct => inl None
      | QSuspend o => inr (inl o) | QSender a => inr (inr (0, a))
      | QCompletion a => inr (inr (1, a)) | QPush a => inr (inr (2, a)) | QPop a => inr (inr (3, a)) end)
    (λ s, match s with
      | inl (Some p) => QReady p | inl None => QDefunct
      | inr (inl o) => QSuspend o | inr (inr (0, a)) => QSender a
      | inr (inr (1, a)) => QCompletion a | inr (inr (2, a)) => QPush a
      | inr (inr (_, a)) => QPop a end) _). by intros [].
Defined.

(** ** Constants (include/rtdef.h, rtconfig.h of the board) *)

Definition RT_EOK : Z := 0.
Definition RT_ERROR : Z := 1.
Definition RT_ETIMEOUT : Z := 2.
Definition RT_EFULL : Z := 3.
Definition RT_EEMPTY : Z := 4.
Definition RT_ENOMEM : Z := 5.

Definition RT_NULL : Z := 0.
Definition RT_NAME_MAX : nat := 8.
Definition RT_THREAD_PRIORITY_MAX : Z := 32.
Definition RT_TICK_MAX : Z := 0xffffffff.

Definition RT_THREAD_INIT : Z := 0.
Definition RT_THREAD_READY : Z := 1.
Definition RT_THREAD_SUSPEND : Z := 2.
Definition RT_THREAD_CLOSE : Z := 4.

Definition RT_TIMER_FLAG_ACTIVATED : Z := 1.
Definition RT_TIMER_FLAG_ONE_SHOT : Z := 0.
Definition RT_TIMER_FLAG_PERIODIC : Z := 2.

Definition RT_IPC_FLAG_FIFO : Z := 0.
Definition RT_IPC_FLAG_PRIO : Z := 1.

(** [enum rt_object_class_type] in the board's configuration. *)
Definition RT_Object_Class_Thread : Z := 0.
Definition RT_Object_Class_Semaphore : Z := 1.
Definition RT_Object_Class_Mutex : Z := 2.
Definition RT_Object_Class_Event : Z := 3.
Definition RT_Object_Class_MailBox : Z := 4.
Definition RT_Object_Class_MessageQueue : Z := 5.
Definition RT_Object_Class_MemPool : Z := 6.
Definition RT_Object_Class_Device : Z := 7.
Definition RT_Object_Class_Timer : Z := 8.
Definition RT_Object_Class_Unknown : Z := 9.
Definition RT_Object_Class_Static : Z := 0x80.

(** ** The structures

    The object header is kept in [objects], apart from its flag, which each
    class uses in its own way and which is a field of the class here.  The list
    nodes are in the list stores. *)

(** A timeout function with its parameter: the built-in one of a thread, or
    one of the application. *)
Inductive timeout_fn : Type := thread_timeout (thread : Z) | user_timeout (func param : Z).

Record rt_object : Type := Object {
  o_name : list Z;
  o_type : Z;
}.

Record rt_thread : Type := Thread {
  th_sp : Z;
  th_entry : Z;
  th_parameter : Z;
  th_stack_addr : Z;
  th_stack_size : Z;
  th_error : Z;
  th_stat : Z;
  th_current_priority : Z;
  th_init_priority : Z;
  th_number_mask : Z;
  th_event_set : Z;
  th_event_info : Z;
  th_init_tick : Z;
  th_remaining_tick : Z;
  th_cleanup : bool;
  th_user_data : Z;
}.

Record rt_timer : Type := Timer {
  tm_flag : Z;
  tm_timeout_func : timeout_fn;
  tm_init_tick : Z;
  tm_timeout_tick : Z;
}.

Record rt_semaphore : Type := Semaphore {
  sem_flag : Z;
  sem_value : Z;
}.

Record rt_mutex : Type := Mutex {
  mtx_flag : Z;
  mtx_value : Z;
  mtx_original_priority : Z;
  mtx_hold : Z;
  mtx_owner : Z;
}.

Record rt_event : Type := Event {
  ev_flag : Z;
  ev_set : Z;
}.

Record rt_mailbox : Type := MailBox {
  mb_flag : Z;
  mb_msg_pool : list Z;
  mb_size : Z;
  mb_entry : Z;
  mb_in_offset : Z;
  mb_out_offset : Z;
}.

(** A message is a node at its address, with its [next] pointer in [mq_next] and
    its bytes in [mq_data]. *)
Record rt_messagequeue : Type := MessageQueue {
  mq_flag : Z;
  mq_msg_pool : Z;
  mq_msg_size : Z;
  mq_max_msgs : Z;
  mq_entry : Z;
  mq_head : Z;
  mq_tail : Z;
  mq_free : Z;
  mq_next : gmap Z Z;
  mq_data : gmap Z (list Z);
}.

(** The words in the blocks of the pools are in [pool_words] of the kernel. *)
Record rt_mempool : Type := MemPool {
  mp_start_address : Z;
  mp_size : Z;
  mp_block_size : Z;
  mp_block_list : Z;
  mp_block_total_count : Z;
  mp_block_free_count : Z;
  mp_suspend_thread_count : Z;
}.

(** An item of a data queue is a pointer and a size. *)
Record rt_data_queue : Type := DataQueue {
  dq_size : Z;
  dq_lwm : Z;
  dq_waiting_lwm : bool;
  dq_get_index : Z;
  dq_put_index : Z;
  dq_queue : list (Z * Z);
  dq_evt_notify : Z;
}.

(** ** The kernel

    The code is written over any implementation of its lists. *)

Class Lists : Type := {
  TS : Type;  TMS : Type;  OS : Type;
  #[global] thread_list_ops :: ListOps TS thread_queue Z;
  #[global] timer_list_ops :: ListOps TMS unit timer_ref;
  #[global] object_list_ops :: ListOps OS Z obj_ref;
}.

(** The lists of the C code, and the sequences the theorems speak of. *)
Definition ptr_lists : Lists := {|
  TS := lheap (node thread_queue Z); TMS := lheap (node unit timer_ref);
  OS := lheap (node Z obj_ref) |}.

Definition seq_lists : Lists := {|
  TS := seqs thread_queue Z; TMS := seqs unit timer_ref; OS := seqs Z obj_ref |}.

Definition set_th_sp (v : Z) (th : rt_thread) : rt_thread :=
  Thread v (th_entry th) (th_parameter th) (th_stack_addr th) (th_stack_size th) (th_error th)
    (th_stat th) (th_current_priority th) (th_init_priority th) (th_number_mask th)
    (th_event_set th) (th_event_info th) (th_init_tick th) (th_remaining_tick th)
    (th_cleanup th) (th_user_data th).
Definition set_th_entry (v : Z) (th : rt_thread) : rt_thread :=
  Thread (th_sp th) v (th_parameter th) (th_stack_addr th) (th_stack_size th) (th_error th)
    (th_stat th) (th_current_priority th) (th_init_priority th) (th_number_mask th)
    (th_event_set th) (th_event_info th) (th_init_tick th) (th_remaining_tick th)
    (th_cleanup th) (th_user_data th).
Definition set_th_parameter (v : Z) (th : rt_thread) : rt_thread :=
  Thread (th_sp th) (th_entry th) v (th_stack_addr th) (th_stack_size th) (th_error th)
    (th_stat th) (th_current_priority th) (th_init_priority th) (th_number_mask th)
    (th_event_set th) (th_event_info th) (th_init_tick th) (th_remaining_tick th)
    (th_cleanup th) (th_user_data th).
Definition set_th_stack_addr (v : Z) (th : rt_thread) : rt_thread :=
  Thread (th_sp th) (th_entry th) (th_parameter th) v (th_stack_size th) (th_error th)
    (th_stat th) (th_current_priority th) (th_init_priority th) (th_number_mask th)
    (th_event_set th) (th_event_info th) (th_init_tick th) (th_remaining_tick th)
    (th_cleanup th) (th_user_data th).
Definition set_th_stack_size (v : Z) (th : rt_thread) : rt_thread :=
  Thread (th_sp th) (th_entry th) (th_parameter th) (th_stack_addr th) v (th_error th)
    (th_stat th) (th_current_priority th) (th_init_priority th) (th_number_mask th)
    (th_event_set th) (th_event_info th) (th_init_tick th) (th_remaining_tick th)
    (th_cleanup th) (th_user_data th).
Definition set_th_error (v : Z) (th : rt_thread) : rt_thread :=
  Thread (th_sp th) (th_entry th) (th_parameter th) (th_stack_addr th) (th_stack_size th) v
    (th_stat th) (th_current_priority th) (th_init_priority th) (th_number_mask th)
    (th_event_set th) (th_event_info th) (th_init_tick th) (th_remaining_tick th)
    (th_cleanup th) (th_user_data th).
Definition set_th_stat (v : Z) (th : rt_thread) : rt_thread :=
  Thread (th_sp th) (th_entry th) (th_parameter th) (th_stack_addr th) (th_stack_size th)
    (th_error th) v (th_current_priority th) (th_init_priority th) (th_number_mask th)
    (th_event_set th) (th_event_info th) (th_init_tick th) (th_remaining_tick th)
    (th_cleanup th) (th_user_data th).
Definition set_th_current_priority (v : Z) (th : rt_thread) : rt_thread :=
  Thread (th_sp th) (th_entry th) (th_parameter th) (th_stack_addr th) (th_stack_size th)
    (th_error th) (th_stat th) v (th_init_priority th) (th_number_mask th) (th_event_set th)
    (th_event_info th) (th_init_tick th) (th_remaining_tick th) (th_cleanup th)
    (th_user_data th).
Definition set_th_init_priority (v : Z) (th : rt_thread) : rt_thread :=
  Thread (th_sp th) (th_entry th) (th_parameter th) (th_stack_addr th) (th_stack_size th)
    (th_error th) (th_stat th) (th_current_priority th) v (th_number_mask th)
    (th_event_set th) (th_event_info th) (th_init_tick th) (th_remaining_tick th)
    (th_cleanup th) (th_user_data th).
Definition set_th_number_mask (v : Z) (th : rt_thread) : rt_thread :=
  Thread (th_sp th) (th_entry th) (th_parameter th) (th_stack_addr th) (th_stack_size th)
    (th_error th) (th_stat th) (th_current_priority th) (th_init_priority th) v
    (th_event_set th) (th_event_info th) (th_init_tick th) (th_remaining_tick th)
    (th_cleanup th) (th_user_data th).
Definition set_th_event_set (v : Z) (th : rt_thread) : rt_thread :=
  Thread (th_sp th) (th_entry th) (th_parameter th) (th_stack_addr th) (th_stack_size th)
    (th_error th) (th_stat th) (th_current_priority th) (th_init_priority th)
    (th_number_mask th) v (th_event_info th) (th_init_tick th) (th_remaining_tick th)
    (th_cleanup th) (th_user_data th).
Definition set_th_event_info (v : Z) (th : rt_thread) : rt_thread :=
  Thread (th_sp th) (th_entry th) (th_parameter th) (th_stack_addr th) (th_stack_size th)
    (th_error th) (th_stat th) (th_current_priority th) (th_init_priority th)
    (th_number_mask th) (th_event_set th) v (th_init_tick th) (th_remaining_tick th)
    (th_cleanup th) (th_user_data th).
Definition set_th_init_tick (v : Z) (th : rt_thread) : rt_thread :=
  Thread (th_sp th) (th_entry th) (th_parameter th) (th_stack_addr th) (th_stack_size th)
    (th_error th) (th_stat th) (th_current_priority th) (th_init_priority th)
    (th_number_mask th) (th_event_set th) (th_event_info th) v (th_remaining_tick th)
    (th_cleanup th) (th_user_data th).
Definition set_th_remaining_tick (v : Z) (th : rt_thread) : rt_thread :=
  Thread (th_sp th) (th_entry th) (th_parameter th) (th_stack_addr th) (th_stack_size th)
    (th_error th) (th_stat th) (th_current_priority th) (th_init_priority th)
    (th_number_mask th) (th_event_set th) (th_event_info th) (th_init_tick th) v
    (th_cleanup th) (th_user_data th).
Definition set_th_cleanup (v : bool) (th : rt_thread) : rt_thread :=
  Thread (th_sp th) (th_entry th) (th_parameter th) (th_stack_addr th) (th_stack_size th)
    (th_error th) (th_stat th) (th_current_priority th) (th_init_priority th)
    (th_number_mask th) (th_event_set th) (th_event_info th) (th_init_tick th)
    (th_remaining_tick th) v (th_user_data th).
Definition set_th_user_data (v : Z) (th : rt_thread) : rt_thread :=
  Thread (th_sp th) (th_entry th) (th_parameter th) (th_stack_addr th) (th_stack_size th)
    (th_error th) (th_stat th) (th_current_priority th) (th_init_priority th)
    (th_number_mask th) (th_event_set th) (th_event_info th) (th_init_tick th)
    (th_remaining_tick th) (th_cleanup th) v.

Definition set_tm_flag (v : Z) (tm : rt_timer) : rt_timer :=
  Timer v (tm_timeout_func tm) (tm_init_tick tm) (tm_timeout_tick tm).
Definition set_tm_timeout_func (v : timeout_fn) (tm : rt_timer) : rt_timer :=
  Timer (tm_flag tm) v (tm_init_tick tm) (tm_timeout_tick tm).
Definition set_tm_init_tick (v : Z) (tm : rt_timer) : rt_timer :=
  Timer (tm_flag tm) (tm_timeout_func tm) v (tm_timeout_tick tm).
Definition set_tm_timeout_tick (v : Z) (tm : rt_timer) : rt_timer :=
  Timer (tm_flag tm) (tm_timeout_func tm) (tm_init_tick tm) v.

Definition set_sem_flag (v : Z) (s : rt_semaphore) : rt_semaphore :=
  Semaphore v (sem_value s).
Definition set_sem_value (v : Z) (s : rt_semaphore) : rt_semaphore :=
  Semaphore (sem_flag s) v.

Definition set_mtx_flag (v : Z) (m : rt_mutex) : rt_mutex :=
  Mutex v (mtx_value m) (mtx_original_priority m) (mtx_hold m) (mtx_owner m).
Definition set_mtx_value (v : Z) (m : rt_mutex) : rt_mutex :=
  Mutex (mtx_flag m) v (mtx_original_priority m) (mtx_hold m) (mtx_owner m).
Definition set_mtx_original_priority (v : Z) (m : rt_mutex) : rt_mutex :=
  Mutex (mtx_flag m) (mtx_value m) v (mtx_hold m) (mtx_owner m).
Definition set_mtx_hold (v : Z) (m : rt_mutex) : rt_mutex :=
  Mutex (mtx_flag m) (mtx_value m) (mtx_original_priority m) v (mtx_owner m).
Definition set_mtx_owner (v : Z) (m : rt_mutex) : rt_mutex :=
  Mutex (mtx_flag m) (mtx_value m) (mtx_original_priority m) (mtx_hold m) v.

Definition set_ev_flag (v : Z) (e : rt_event) : rt_event :=
  Event v (ev_set e).
Definition set_ev_set (v : Z) (e : rt_event) : rt_event :=
  Event (ev_flag e) v.

Definition set_mb_flag (v : Z) (b : rt_mailbox) : rt_mailbox :=
  MailBox v (mb_msg_pool b) (mb_size b) (mb_entry b) (mb_in_offset b) (mb_out_offset b).
Definition set_mb_msg_pool (v : list Z) (b : rt_mailbox) : rt_mailbox :=
  MailBox (mb_flag b) v (mb_size b) (mb_entry b) (mb_in_offset b) (mb_out_offset b).
Definition set_mb_size (v : Z) (b : rt_mailbox) : rt_mailbox :=
  MailBox (mb_flag b) (mb_msg_pool b) v (mb_entry b) (mb_in_offset b) (mb_out_offset b).
Definition set_mb_entry (v : Z) (b : rt_mailbox) : rt_mailbox :=
  MailBox (mb_flag b) (mb_msg_pool b) (mb_size b) v (mb_in_offset b) (mb_out_offset b).
Definition set_mb_in_offset (v : Z) (b : rt_mailbox) : rt_mailbox :=
  MailBox (mb_flag b) (mb_msg_pool b) (mb_size b) (mb_entry b) v (mb_out_offset b).
Definition set_mb_out_offset (v : Z) (b : rt_mailbox) : rt_mailbox :=
  MailBox (mb_flag b) (mb_msg_pool b) (mb_size b) (mb_entry b) (mb_in_offset b) v.

Definition set_mq_flag (v : Z) (q : rt_messagequeue) : rt_messagequeue :=
  MessageQueue v (mq_msg_pool q) (mq_msg_size q) (mq_max_msgs q) (mq_entry q) (mq_head q) (mq_tail q)
    (mq_free q) (mq_next q) (mq_data q).
Definition set_mq_msg_pool (v : Z) (q : rt_messagequeue) : rt_messagequeue :=
  MessageQueue (mq_flag q) v (mq_msg_size q) (mq_max_msgs q) (mq_entry q) (mq_head q) (mq_tail q)
    (mq_free q) (mq_next q) (mq_data q).
Definition set_mq_msg_size (v : Z) (q : rt_messagequeue) : rt_messagequeue :=
  MessageQueue (mq_flag q) (mq_msg_pool q) v (mq_max_msgs q) (mq_entry q) (mq_head q) (mq_tail q)
    (mq_free q) (mq_next q) (mq_data q).
Definition set_mq_max_msgs (v : Z) (q : rt_messagequeue) : rt_messagequeue :=
  MessageQueue (mq_flag q) (mq_msg_pool q) (mq_msg_size q) v (mq_entry q) (mq_head q) (mq_tail q)
    (mq_free q) (mq_next q) (mq_data q).
Definition set_mq_entry (v : Z) (q : rt_messagequeue) : rt_messagequeue :=
  MessageQueue (mq_flag q) (mq_msg_pool q) (mq_msg_size q) (mq_max_msgs q) v (mq_head q) (mq_tail q)
    (mq_free q) (mq_next q) (mq_data q).
Definition set_mq_head (v : Z) (q : rt_messagequeue) : rt_messagequeue :=
  MessageQueue (mq_flag q) (mq_msg_pool q) (mq_msg_size q) (mq_max_msgs q) (mq_entry q) v (mq_tail q)
    (mq_free q) (mq_next q) (mq_data q).
Definition set_mq_tail (v : Z) (q : rt_messagequeue) : rt_messagequeue :=
  MessageQueue (mq_flag q) (mq_msg_pool q) (mq_msg_size q) (mq_max_msgs q) (mq_entry q) (mq_head q) v
    (mq_free q) (mq_next q) (mq_data q).
Definition set_mq_free (v : Z) (q : rt_messagequeue) : rt_messagequeue :=
  MessageQueue (mq_flag q) (mq_msg_pool q) (mq_msg_size q) (mq_max_msgs q) (mq_entry q) (mq_head q)
    (mq_tail q) v (mq_next q) (mq_data q).
Definition set_mq_next (v : gmap Z Z) (q : rt_messagequeue) : rt_messagequeue :=
  MessageQueue (mq_flag q) (mq_msg_pool q) (mq_msg_size q) (mq_max_msgs q) (mq_entry q) (mq_head q)
    (mq_tail q) (mq_free q) v (mq_data q).
Definition set_mq_data (v : gmap Z (list Z)) (q : rt_messagequeue) : rt_messagequeue :=
  MessageQueue (mq_flag q) (mq_msg_pool q) (mq_msg_size q) (mq_max_msgs q) (mq_entry q) (mq_head q)
    (mq_tail q) (mq_free q) (mq_next q) v.

Definition set_mp_start_address (v : Z) (p : rt_mempool) : rt_mempool :=
  MemPool v (mp_size p) (mp_block_size p) (mp_block_list p) (mp_block_total_count p)
    (mp_block_free_count p) (mp_suspend_thread_count p).
Definition set_mp_size (v : Z) (p : rt_mempool) : rt_mempool :=
  MemPool (mp_start_address p) v (mp_block_size p) (mp_block_list p) (mp_block_total_count p)
    (mp_block_free_count p) (mp_suspend_thread_count p).
Definition set_mp_block_size (v : Z) (p : rt_mempool) : rt_mempool :=
  MemPool (mp_start_address p) (mp_size p) v (mp_block_list p) (mp_block_total_count p)
    (mp_block_free_count p) (mp_suspend_thread_count p).
Definition set_mp_block_list (v : Z) (p : rt_mempool) : rt_mempool :=
  MemPool (mp_start_address p) (mp_size p) (mp_block_size p) v (mp_block_total_count p)
    (mp_block_free_count p) (mp_suspend_thread_count p).
Definition set_mp_block_total_count (v : Z) (p : rt_mempool) : rt_mempool :=
  MemPool (mp_start_address p) (mp_size p) (mp_block_size p) (mp_block_list p) v
    (mp_block_free_count p) (mp_suspend_thread_count p).
Definition set_mp_block_free_count (v : Z) (p : rt_mempool) : rt_mempool :=
  MemPool (mp_start_address p) (mp_size p) (mp_block_size p) (mp_block_list p)
    (mp_block_total_count p) v (mp_suspend_thread_count p).
Definition set_mp_suspend_thread_count (v : Z) (p : rt_mempool) : rt_mempool :=
  MemPool (mp_start_address p) (mp_size p) (mp_block_size p) (mp_block_list p)
    (mp_block_total_count p) (mp_block_free_count p) v.

Definition set_dq_size (v : Z) (d : rt_data_queue) : rt_data_queue :=
  DataQueue v (dq_lwm d) (dq_waiting_lwm d) (dq_get_index d) (dq_put_index d) (dq_queue d)
    (dq_evt_notify d).
Definition set_dq_lwm (v : Z) (d : rt_data_queue) : rt_data_queue :=
  DataQueue (dq_size d) v (dq_waiting_lwm d) (dq_get_index d) (dq_put_index d) (dq_queue d)
    (dq_evt_notify d).
Definition set_dq_waiting_lwm (v : bool) (d : rt_data_queue) : rt_data_queue :=
  DataQueue (dq_size d) (dq_lwm d) v (dq_get_index d) (dq_put_index d) (dq_queue d) (dq_evt_notify d).
Definition set_dq_get_index (v : Z) (d : rt_data_queue) : rt_data_queue :=
  DataQueue (dq_size d) (dq_lwm d) (dq_waiting_lwm d) v (dq_put_index d) (dq_queue d)
    (dq_evt_notify d).
Definition set_dq_put_index (v : Z) (d : rt_data_queue) : rt_data_queue :=
  DataQueue (dq_size d) (dq_lwm d) (dq_waiting_lwm d) (dq_get_index d) v (dq_queue d)
    (dq_evt_notify d).
Definition set_dq_queue (v : list (Z * Z)) (d : rt_data_queue) : rt_data_queue :=
  DataQueue (dq_size d) (dq_lwm d) (dq_waiting_lwm d) (dq_get_index d) (dq_put_index d) v
    (dq_evt_notify d).
Definition set_dq_evt_notify (v : Z) (d : rt_data_queue) : rt_data_queue :=
  DataQueue (dq_size d) (dq_lwm d) (dq_waiting_lwm d) (dq_get_index d) (dq_put_index d) (dq_queue d)
    v.

Section kernel.
Context {LS : Lists}.

Record kernel : Type := Kernel {
  threads : gmap Z rt_thread;
  timers : gmap timer_ref rt_timer;
  objects : gmap obj_ref rt_object;
  sems : gmap Z rt_semaphore;
  mutexes : gmap Z rt_mutex;
  events : gmap Z rt_event;
  mailboxes : gmap Z rt_mailbox;
  mqueues : gmap Z rt_messagequeue;
  mempools : gmap Z rt_mempool;
  pool_words : gmap Z Z;
  completions : gmap Z Z;
  dataqueues : gmap Z rt_data_queue;
  thread_lists : TS;
  timer_list : TMS;
  object_lists : OS;
  rt_thread_ready_priority_group : Z;
  rt_current_thread : Z;
  rt_current_priority : Z;
  rt_scheduler_lock_nest : Z;
  rt_interrupt_nest : Z;
  rt_tick : Z;
  primask : Z;
  _errno : Z;
}.

Definition set_threads (v : gmap Z rt_thread) (k : kernel) : kernel :=
  Kernel v (timers k) (objects k) (sems k) (mutexes k) (events k) (mailboxes k) (mqueues k)
    (mempools k) (pool_words k) (completions k) (dataqueues k) (thread_lists k)
    (timer_list k) (object_lists k) (rt_thread_ready_priority_group k) (rt_current_thread k)
    (rt_current_priority k) (rt_scheduler_lock_nest k) (rt_interrupt_nest k) (rt_tick k)
    (primask k) (_errno k).
Definition set_timers (v : gmap timer_ref rt_timer) (k : kernel) : kernel :=
  Kernel (threads k) v (objects k) (sems k) (mutexes k) (events k) (mailboxes k) (mqueues k)
    (mempools k) (pool_words k) (completions k) (dataqueues k) (thread_lists k)
    (timer_list k) (object_lists k) (rt_thread_ready_priority_group k) (rt_current_thread k)
    (rt_current_priority k) (rt_scheduler_lock_nest k) (rt_interrupt_nest k) (rt_tick k)
    (primask k) (_errno k).
Definition set_objects (v : gmap obj_ref rt_object) (k : kernel) : kernel :=
  Kernel (threads k) (timers k) v (sems k) (mutexes k) (events k) (mailboxes k) (mqueues k)
    (mempools k) (pool_words k) (completions k) (dataqueues k) (thread_lists k)
    (timer_list k) (object_lists k) (rt_thread_ready_priority_group k) (rt_current_thread k)
    (rt_current_priority k) (rt_scheduler_lock_nest k) (rt_interrupt_nest k) (rt_tick k)
    (primask k) (_errno k).
Definition set_sems (v : gmap Z rt_semaphore) (k : kernel) : kernel :=
  Kernel (threads k) (timers k) (objects k) v (mutexes k) (events k) (mailboxes k) (mqueues k)
    (mempools k) (pool_words k) (completions k) (dataqueues k) (thread_lists k)
    (timer_list k) (object_lists k) (rt_thread_ready_priority_group k) (rt_current_thread k)
    (rt_current_priority k) (rt_scheduler_lock_nest k) (rt_interrupt_nest k) (rt_tick k)
    (primask k) (_errno k).
Definition set_mutexes (v : gmap Z rt_mutex) (k : kernel) : kernel :=
  Kernel (threads k) (timers k) (objects k) (sems k) v (events k) (mailboxes k) (mqueues k)
    (mempools k) (pool_words k) (completions k) (dataqueues k) (thread_lists k)
    (timer_list k) (object_lists k) (rt_thread_ready_priority_group k) (rt_current_thread k)
    (rt_current_priority k) (rt_scheduler_lock_nest k) (rt_interrupt_nest k) (rt_tick k)
    (primask k) (_errno k).
Definition set_events (v : gmap Z rt_event) (k : kernel) : kernel :=
  Kernel (threads k) (timers k) (objects k) (sems k) (mutexes k) v (mailboxes k) (mqueues k)
    (mempools k) (pool_words k) (completions k) (dataqueues k) (thread_lists k)
    (timer_list k) (object_lists k) (rt_thread_ready_priority_group k) (rt_current_thread k)
    (rt_current_priority k) (rt_scheduler_lock_nest k) (rt_interrupt_nest k) (rt_tick k)
    (primask k) (_errno k).
Definition set_mailboxes (v : gmap Z rt_mailbox) (k : kernel) : kernel :=
  Kernel (threads k) (timers k) (objects k) (sems k) (mutexes k) (events k) v (mqueues k)
    (mempools k) (pool_words k) (completions k) (dataqueues k) (thread_lists k)
    (timer_list k) (object_lists k) (rt_thread_ready_priority_group k) (rt_current_thread k)
    (rt_current_priority k) (rt_scheduler_lock_nest k) (rt_interrupt_nest k) (rt_tick k)
    (primask k) (_errno k).
Definition set_mqueues (v : gmap Z rt_messagequeue) (k : kernel) : kernel :=
  Kernel (threads k) (timers k) (objects k) (sems k) (mutexes k) (events k) (mailboxes k) v
    (mempools k) (pool_words k) (completions k) (dataqueues k) (thread_lists k)
    (timer_list k) (object_lists k) (rt_thread_ready_priority_group k) (rt_current_thread k)
    (rt_current_priority k) (rt_scheduler_lock_nest k) (rt_interrupt_nest k) (rt_tick k)
    (primask k) (_errno k).
Definition set_mempools (v : gmap Z rt_mempool) (k : kernel) : kernel :=
  Kernel (threads k) (timers k) (objects k) (sems k) (mutexes k) (events k) (mailboxes k)
    (mqueues k) v (pool_words k) (completions k) (dataqueues k) (thread_lists k)
    (timer_list k) (object_lists k) (rt_thread_ready_priority_group k) (rt_current_thread k)
    (rt_current_priority k) (rt_scheduler_lock_nest k) (rt_interrupt_nest k) (rt_tick k)
    (primask k) (_errno k).
Definition set_pool_words (v : gmap Z Z) (k : kernel) : kernel :=
  Kernel (threads k) (timers k) (objects k) (sems k) (mutexes k) (events k) (mailboxes k)
    (mqueues k) (mempools k) v (completions k) (dataqueues k) (thread_lists k) (timer_list k)
    (object_lists k) (rt_thread_ready_priority_group k) (rt_current_thread k)
    (rt_current_priority k) (rt_scheduler_lock_nest k) (rt_interrupt_nest k) (rt_tick k)
    (primask k) (_errno k).
Definition set_completions (v : gmap Z Z) (k : kernel) : kernel :=
  Kernel (threads k) (timers k) (objects k) (sems k) (mutexes k) (events k) (mailboxes k)
    (mqueues k) (mempools k) (pool_words k) v (dataqueues k) (thread_lists k) (timer_list k)
    (object_lists k) (rt_thread_ready_priority_group k) (rt_current_thread k)
    (rt_current_priority k) (rt_scheduler_lock_nest k) (rt_interrupt_nest k) (rt_tick k)
    (primask k) (_errno k).
Definition set_dataqueues (v : gmap Z rt_data_queue) (k : kernel) : kernel :=
  Kernel (threads k) (timers k) (objects k) (sems k) (mutexes k) (events k) (mailboxes k)
    (mqueues k) (mempools k) (pool_words k) (completions k) v (thread_lists k) (timer_list k)
    (object_lists k) (rt_thread_ready_priority_group k) (rt_current_thread k)
    (rt_current_priority k) (rt_scheduler_lock_nest k) (rt_interrupt_nest k) (rt_tick k)
    (primask k) (_errno k).
Definition set_thread_lists (v : TS) (k : kernel) : kernel :=
  Kernel (threads k) (timers k) (objects k) (sems k) (mutexes k) (events k) (mailboxes k)
    (mqueues k) (mempools k) (pool_words k) (completions k) (dataqueues k) v (timer_list k)
    (object_lists k) (rt_thread_ready_priority_group k) (rt_current_thread k)
    (rt_current_priority k) (rt_scheduler_lock_nest k) (rt_interrupt_nest k) (rt_tick k)
    (primask k) (_errno k).
Definition set_timer_list (v : TMS) (k : kernel) : kernel :=
  Kernel (threads k) (timers k) (objects k) (sems k) (mutexes k) (events k) (mailboxes k)
    (mqueues k) (mempools k) (pool_words k) (completions k) (dataqueues k) (thread_lists k) v
    (object_lists k) (rt_thread_ready_priority_group k) (rt_current_thread k)
    (rt_current_priority k) (rt_scheduler_lock_nest k) (rt_interrupt_nest k) (rt_tick k)
    (primask k) (_errno k).
Definition set_object_lists (v : OS) (k : kernel) : kernel :=
  Kernel (threads k) (timers k) (objects k) (sems k) (mutexes k) (events k) (mailboxes k)
    (mqueues k) (mempools k) (pool_words k) (completions k) (dataqueues k) (thread_lists k)
    (timer_list k) v (rt_thread_ready_priority_group k) (rt_current_thread k)
    (rt_current_priority k) (rt_scheduler_lock_nest k) (rt_interrupt_nest k) (rt_tick k)
    (primask k) (_errno k).
Definition set_rt_thread_ready_priority_group (v : Z) (k : kernel) : kernel :=
  Kernel (threads k) (timers k) (objects k) (sems k) (mutexes k) (events k) (mailboxes k)
    (mqueues k) (mempools k) (pool_words k) (completions k) (dataqueues k) (thread_lists k)
    (timer_list k) (object_lists k) v (rt_current_thread k) (rt_current_priority k)
    (rt_scheduler_lock_nest k) (rt_interrupt_nest k) (rt_tick k) (primask k) (_errno k).
Definition set_rt_current_thread (v : Z) (k : kernel) : kernel :=
  Kernel (threads k) (timers k) (objects k) (sems k) (mutexes k) (events k) (mailboxes k)
    (mqueues k) (mempools k) (pool_words k) (completions k) (dataqueues k) (thread_lists k)
    (timer_list k) (object_lists k) (rt_thread_ready_priority_group k) v
    (rt_current_priority k) (rt_scheduler_lock_nest k) (rt_interrupt_nest k) (rt_tick k)
    (primask k) (_errno k).
Definition set_rt_current_priority (v : Z) (k : kernel) : kernel :=
  Kernel (threads k) (timers k) (objects k) (sems k) (mutexes k) (events k) (mailboxes k)
    (mqueues k) (mempools k) (pool_words k) (completions k) (dataqueues k) (thread_lists k)
    (timer_list k) (object_lists k) (rt_thread_ready_priority_group k) (rt_current_thread k)
    v (rt_scheduler_lock_nest k) (rt_interrupt_nest k) (rt_tick k) (primask k) (_errno k).
Definition set_rt_scheduler_lock_nest (v : Z) (k : kernel) : kernel :=
  Kernel (threads k) (timers k) (objects k) (sems k) (mutexes k) (events k) (mailboxes k)
    (mqueues k) (mempools k) (pool_words k) (completions k) (dataqueues k) (thread_lists k)
    (timer_list k) (object_lists k) (rt_thread_ready_priority_group k) (rt_current_thread k)
    (rt_current_priority k) v (rt_interrupt_nest k) (rt_tick k) (primask k) (_errno k).
Definition set_rt_interrupt_nest (v : Z) (k : kernel) : kernel :=
  Kernel (threads k) (timers k) (objects k) (sems k) (mutexes k) (events k) (mailboxes k)
    (mqueues k) (mempools k) (pool_words k) (completions k) (dataqueues k) (thread_lists k)
    (timer_list k) (object_lists k) (rt_thread_ready_priority_group k) (rt_current_thread k)
    (rt_current_priority k) (rt_scheduler_lock_nest k) v (rt_tick k) (primask k) (_errno k).
Definition set_rt_tick (v : Z) (k : kernel) : kernel :=
  Kernel (threads k) (timers k) (objects k) (sems k) (mutexes k) (events k) (mailboxes k)
    (mqueues k) (mempools k) (pool_words k) (completions k) (dataqueues k) (thread_lists k)
    (timer_list k) (object_lists k) (rt_thread_ready_priority_group k) (rt_current_thread k)
    (rt_current_priority k) (rt_scheduler_lock_nest k) (rt_interrupt_nest k) v (primask k)
    (_errno k).
Definition set_primask (v : Z) (k : kernel) : kernel :=
  Kernel (threads k) (timers k) (objects k) (sems k) (mutexes k) (events k) (mailboxes k)
    (mqueues k) (mempools k) (pool_words k) (completions k) (dataqueues k) (thread_lists k)
    (timer_list k) (object_lists k) (rt_thread_ready_priority_group k) (rt_current_thread k)
    (rt_current_priority k) (rt_scheduler_lock_nest k) (rt_interrupt_nest k) (rt_tick k) v
    (_errno k).
Definition set__errno (v : Z) (k : kernel) : kernel :=
  Kernel (threads k) (timers k) (objects k) (sems k) (mutexes k) (events k) (mailboxes k)
    (mqueues k) (mempools k) (pool_words k) (completions k) (dataqueues k) (thread_lists k)
    (timer_list k) (object_lists k) (rt_thread_ready_priority_group k) (rt_current_thread k)
    (rt_current_priority k) (rt_scheduler_lock_nest k) (rt_interrupt_nest k) (rt_tick k)
    (primask k) v.

End kernel.

Arguments kernel LS : clear implicits.

(** ** The monad *)

(** Why the system stops: a failed [RT_ASSERT] (its handler loops), a pointer
    to nothing the kernel knows, a thread's stack overflow, or a loop of the
    model that ran out of fuel. *)
Inductive halt : Type := Hassert | Hpointer | Hstack | Hfuel.

Inductive res (S A : Type) : Type := Ok (a : A) (s : S) | Halt (h : halt).
Arguments Ok {S A} a s.
Arguments Halt {S A} h.

Section monad.
Context {LS : Lists}.

Definition K (A : Type) : Type := kernel LS → res (kernel LS) A.

#[global] Instance K_ret : MRet K := λ A a k, Ok a k.
#[global] Instance K_bind : MBind K := λ A B f m k,
  match m k with Ok a k' => f a k' | Halt h => Halt h end.

Definition kget : K (kernel LS) := λ k, Ok k k.
Definition kset (f : kernel LS → kernel LS) : K unit := λ k, Ok tt (f k).
Definition khalt {A} (h : halt) : K A := λ _, Halt h.
Definition kopt {A} (o : kernel LS → option A) : K A := λ k,
  match o k with Some a => Ok a k | None => Halt Hpointer end.

Definition RT_ASSERT (b : bool) : K unit := if b then mret tt else khalt Hassert.

Definition gets {A} (f : kernel LS → A) : K A := λ k, Ok (f k) k.

(** Reading and writing a structure through its address. *)
Definition get_thread (t : Z) : K rt_thread := kopt (λ k, threads k !! t).
Definition mod_thread (t : Z) (f : rt_thread → rt_thread) : K unit :=
  th ← get_thread t; kset (λ k, set_threads (<[t := f th]> (threads k)) k).
Definition get_timer (r : timer_ref) : K rt_timer := kopt (λ k, timers k !! r).
Definition mod_timer (r : timer_ref) (f : rt_timer → rt_timer) : K unit :=
  tm ← get_timer r; kset (λ k, set_timers (<[r := f tm]> (timers k)) k).
Definition get_object (o : obj_ref) : K rt_object := kopt (λ k, objects k !! o).

(** A list function on the threads', the timers' and the objects' nodes. *)
Definition on_threads (f : TS → option TS) : K unit :=
  s ← kopt (λ k, f (thread_lists k)); kset (set_thread_lists s).
Definition on_timers (f : TMS → option TMS) : K unit :=
  s ← kopt (λ k, f (timer_list k)); kset (set_timer_list s).
Definition on_objects (f : OS → option OS) : K unit :=
  s ← kopt (λ k, f (object_lists k)); kset (set_object_lists s).

(** [rt_list_entry] of a node of a thread queue: the head of a queue is no
    thread. *)
Definition thread_of (n : node thread_queue Z) : K Z :=
  match n with El t => mret t | Hd _ => khalt Hpointer end.
Definition timer_of (n : node unit timer_ref) : K timer_ref :=
  match n with El r => mret r | Hd _ => khalt Hpointer end.

(** ** Interrupts (libcpu, src/irq.c)

    [primask] is the interrupt mask of the CPU. *)

Definition rt_hw_interrupt_disable : K Z :=
  level ← gets primask; kset (set_primask 1);; mret level.
Definition rt_hw_interrupt_enable (level : Z) : K unit := kset (set_primask level).

Definition rt_interrupt_enter : K unit :=
  level ← rt_hw_interrupt_disable;
  kset (λ k, set_rt_interrupt_nest (u8 (rt_interrupt_nest k + 1)) k);;
  rt_hw_interrupt_enable level.

Definition rt_interrupt_leave : K unit :=
  level ← rt_hw_interrupt_disable;
  kset (λ k, set_rt_interrupt_nest (u8 (rt_interrupt_nest k - 1)) k);;
  rt_hw_interrupt_enable level.

Definition rt_interrupt_get_nest : K Z := gets rt_interrupt_nest.

(** include/rtdebug.h *)
Definition RT_DEBUG_NOT_IN_INTERRUPT : K unit :=
  level ← rt_hw_interrupt_disable;
  nest ← rt_interrupt_get_nest;
  RT_ASSERT (bool_decide (nest = 0));;
  rt_hw_interrupt_enable level.

Definition RT_DEBUG_IN_THREAD_CONTEXT : K unit :=
  level ← rt_hw_interrupt_disable;
  self ← gets rt_current_thread;
  RT_ASSERT (bool_decide (self ≠ RT_NULL));;
  RT_DEBUG_NOT_IN_INTERRUPT;;
  rt_hw_interrupt_enable level.

End monad.

Arguments K LS A : clear implicits.
