(* ===== verification/Scheduler.v ===== *)
(** * The scheduler (src/scheduler.c)

    The ready lists with their priority bitmap, [rt_schedule], and the
    scheduler lock. *)

From S2P Require Import Prelude DList ListStore KString KState.

Section scheduler.
Context {LS : Lists}.

Definition rt_thread_self : K LS Z := gets rt_current_thread.

(** The test is made with the interrupts already disabled by [rt_schedule], so
    that [level] is the mask and the loop on it does not end. *)
Definition _rt_scheduler_stack_check (thread : Z) : K LS unit :=
  RT_ASSERT (bool_decide (thread ≠ RT_NULL));;
  th ← get_thread thread;
  if bool_decide (th_sp th <= th_stack_addr th ∨
                  th_sp th > u32 (th_stack_addr th + th_stack_size th)) then
    level ← rt_hw_interrupt_disable;
    if bool_decide (level ≠ 0) then khalt Hstack else mret tt
  else mret tt.

(** [for (offset = 0; offset < n; offset++) rt_list_init(...)], the last first. *)
Fixpoint init_ready_lists (n : nat) : K LS unit :=
  match n with
  | O => mret tt
  | S n => init_ready_lists n;; on_threads (l_init (Hd (QReady (Z.of_nat n))))
  end.

Definition rt_system_scheduler_init : K LS unit :=
  kset (set_rt_scheduler_lock_nest 0);;
  init_ready_lists (Z.to_nat RT_THREAD_PRIORITY_MAX);;
  kset (set_rt_current_priority (RT_THREAD_PRIORITY_MAX - 1));;
  kset (set_rt_current_thread RT_NULL);;
  kset (set_rt_thread_ready_priority_group 0);;
  on_threads (l_init (Hd QDefunct)).

(** The highest priority with a ready thread, and the first thread of its
    list. *)
Definition highest_ready : K LS (Z * Z) :=
  group ← gets rt_thread_ready_priority_group;
  let highest_ready_priority := u32 (__rt_ffs (s32 group) - 1) in
  n ← kopt (λ k, l_next (Hd (QReady highest_ready_priority)) (thread_lists k));
  to_thread ← thread_of n;
  mret (highest_ready_priority, to_thread).

Definition rt_system_scheduler_start : K LS unit :=
  '(_, to_thread) ← highest_ready;
  kset (set_rt_current_thread to_thread).

(** The context switch itself (assembly) makes the CPU run
    [rt_current_thread], at once or on return from the interrupt.  The hook of the
    application is not modelled: it is null unless the application sets it. *)
Definition rt_schedule : K LS unit :=
  level ← rt_hw_interrupt_disable;
  nest ← gets rt_scheduler_lock_nest;
  (if bool_decide (nest = 0) then
     '(highest_ready_priority, to_thread) ← highest_ready;
     current ← gets rt_current_thread;
     if bool_decide (to_thread ≠ current) then
       kset (set_rt_current_priority (u8 highest_ready_priority));;
       kset (set_rt_current_thread to_thread);;
       _rt_scheduler_stack_check to_thread
     else mret tt
   else mret tt);;
  rt_hw_interrupt_enable level.

Definition rt_schedule_insert_thread (thread : Z) : K LS unit :=
  RT_ASSERT (bool_decide (thread ≠ RT_NULL));;
  temp ← rt_hw_interrupt_disable;
  mod_thread thread (set_th_stat RT_THREAD_READY);;
  th ← get_thread thread;
  on_threads (l_insert_before (Hd (QReady (th_current_priority th))) (El thread));;
  kset (λ k, set_rt_thread_ready_priority_group
               (Z.lor (rt_thread_ready_priority_group k) (th_number_mask th)) k);;
  rt_hw_interrupt_enable temp.

Definition rt_schedule_remove_thread (thread : Z) : K LS unit :=
  RT_ASSERT (bool_decide (thread ≠ RT_NULL));;
  temp ← rt_hw_interrupt_disable;
  on_threads (l_remove (El thread));;
  th ← get_thread thread;
  empty ← kopt (λ k, l_isempty (Hd (QReady (th_current_priority th))) (thread_lists k));
  (if (empty : bool) then
     kset (λ k, set_rt_thread_ready_priority_group
                  (Z.land (rt_thread_ready_priority_group k) (Z.lnot (th_number_mask th))) k)
   else mret tt);;
  rt_hw_interrupt_enable temp.

(** [rt_scheduler_lock_nest] is a 16-bit signed counter. *)
Definition rt_enter_critical : K LS unit :=
  level ← rt_hw_interrupt_disable;
  kset (λ k, set_rt_scheduler_lock_nest (s16 (rt_scheduler_lock_nest k + 1)) k);;
  rt_hw_interrupt_enable level.

Definition rt_exit_critical : K LS unit :=
  level ← rt_hw_interrupt_disable;
  kset (λ k, set_rt_scheduler_lock_nest (s16 (rt_scheduler_lock_nest k - 1)) k);;
  nest ← gets rt_scheduler_lock_nest;
  if bool_decide (nest <= 0) then
    kset (set_rt_scheduler_lock_nest 0);;
    rt_hw_interrupt_enable level;;
    rt_schedule
  else rt_hw_interrupt_enable level.

Definition rt_critical_level : K LS Z :=
  nest ← gets rt_scheduler_lock_nest; mret (u16 nest).

End scheduler.
