(* ===== verification/ObjectSys.v ===== *)
(** * Kernel objects (src/object.c)

    Every kernel object has a header with its name and class and is linked in
    the list of its class. *)

From S2P Require Import Prelude DList ListStore KString KState Scheduler.

Section objects.
Context {LS : Lists}.

(** The list heads of [rt_object_container] are statically initialised. *)
Fixpoint init_containers (n : nat) : K LS unit :=
  match n with
  | O => mret tt
  | S n => init_containers n;; on_objects (l_init (Hd (Z.of_nat n)))
  end.
Definition rt_object_container_init : K LS unit :=
  init_containers (Z.to_nat RT_Object_Class_Unknown).

(** The [RT_NAME_MAX] bytes [rt_strncpy] stores, see [rt_strncpy_correct]. *)
Definition name_bytes (name : list Z) : list Z :=
  (λ i, str_at name (Z.of_nat i)) <$> seq 0 RT_NAME_MAX.

Definition is_null (o : obj_ref) : bool :=
  match o with
  | OThread a | OSem a | OMutex a | OEvent a | OMailBox a | OMessageQueue a | OMemPool a
  | ODevice a | OTimer (UserTimer a) => bool_decide (a = RT_NULL)
  | OTimer (ThreadTimer _) => false
  end.

Definition put_object (o : obj_ref) (name : list Z) (type : Z) : K LS unit :=
  kset (λ k, set_objects (<[o := Object (name_bytes name) type]> (objects k)) k).

Definition rt_object_init (o : obj_ref) (type : Z) (name : list Z) : K LS unit :=
  put_object o name (Z.lor type RT_Object_Class_Static);;
  temp ← rt_hw_interrupt_disable;
  on_objects (l_insert_after (Hd type) (El o));;
  rt_hw_interrupt_enable temp.

Definition rt_object_detach (o : obj_ref) : K LS unit :=
  RT_ASSERT (negb (is_null o));;
  temp ← rt_hw_interrupt_disable;
  on_objects (l_remove (El o));;
  rt_hw_interrupt_enable temp.

(** [ptr] is what the heap returned for the object, null when it is full. *)
Definition rt_object_allocate (mk : Z → obj_ref) (type : Z) (name : list Z) (ptr : Z) : K LS Z :=
  RT_DEBUG_NOT_IN_INTERRUPT;;
  if bool_decide (ptr = RT_NULL) then mret RT_NULL else
  put_object (mk ptr) name type;;
  temp ← rt_hw_interrupt_disable;
  on_objects (l_insert_after (Hd type) (El (mk ptr)));;
  rt_hw_interrupt_enable temp;;
  mret ptr.

(** Freeing the memory of an object: its structure is gone (the structure of a
    device is not part of the kernel's state, see [Device]). *)
Definition kernel_free (o : obj_ref) (k : kernel LS) : kernel LS :=
  let k := set_objects (delete o (objects k)) k in
  match o with
  | OThread a => set_threads (delete a (threads k)) k
  | OSem a => set_sems (delete a (sems k)) k
  | OMutex a => set_mutexes (delete a (mutexes k)) k
  | OEvent a => set_events (delete a (events k)) k
  | OMailBox a => set_mailboxes (delete a (mailboxes k)) k
  | OTimer r => set_timers (delete r (timers k)) k
  | OMessageQueue a => set_mqueues (delete a (mqueues k)) k
  | OMemPool a => set_mempools (delete a (mempools k)) k
  | ODevice a => k
  end.

Definition rt_object_delete (o : obj_ref) : K LS unit :=
  RT_ASSERT (negb (is_null o));;
  ob ← get_object o;
  RT_ASSERT (bool_decide (Z.land (o_type ob) RT_Object_Class_Static = 0));;
  temp ← rt_hw_interrupt_disable;
  on_objects (l_remove (El o));;
  rt_hw_interrupt_enable temp;;
  kset (kernel_free o).

Definition rt_object_is_systemobject (o : obj_ref) : K LS bool :=
  RT_ASSERT (negb (is_null o));;
  ob ← get_object o;
  mret (bool_decide (Z.land (o_type ob) RT_Object_Class_Static ≠ 0)).

(** [rt_strncmp(object->name, name, RT_NAME_MAX) == 0], see
    [string_functions_correct]. *)
Definition name_matches (ob : rt_object) (name : list Z) : bool :=
  bool_decide (o_name ob = name_bytes name).

Fixpoint find_loop (fuel : nat) (name : list Z) (type : Z) (nd : node Z obj_ref)
    : K LS (option obj_ref) :=
  match fuel with
  | O => khalt Hfuel
  | S fuel =>
      match nd with
      | Hd _ => mret None
      | El o =>
          ob ← get_object o;
          if name_matches ob name then mret (Some o)
          else nd ← kopt (λ k, l_next (El o) (object_lists k)); find_loop fuel name type nd
      end
  end.

(** The loop visits each object of the class at most once. *)
Definition rt_object_find (name : list Z) (type : Z) : K LS (option obj_ref) :=
  if bool_decide (type > RT_Object_Class_Unknown) then mret None else
  RT_DEBUG_NOT_IN_INTERRUPT;;
  rt_enter_critical;;
  nd ← kopt (λ k, l_next (Hd type) (object_lists k));
  fuel ← gets (λ k, S (size (objects k)));
  r ← find_loop fuel name type nd;
  rt_exit_critical;;
  mret r.

(** [rt_thread_find] and [rt_device_find] search a class the same way, also before
    there is a running thread. *)
Definition in_thread (c : K LS unit) : K LS unit :=
  self ← rt_thread_self;
  if bool_decide (self ≠ RT_NULL) then c else mret tt.

Definition find_object (name : list Z) (type : Z) : K LS (option obj_ref) :=
  in_thread rt_enter_critical;;
  nd ← kopt (λ k, l_next (Hd type) (object_lists k));
  fuel ← gets (λ k, S (size (objects k)));
  r ← find_loop fuel name type nd;
  in_thread rt_exit_critical;;
  mret r.

End objects.
