(* ===== verification/Timer.v ===== *)
(** * Timers (src/timer.c)

    The hard timers, in a list sorted by timeout tick, with
    [RT_TIMER_SKIP_LIST_LEVEL] = 1 and without soft timers as the board
    configures them: the skip list has the one row [timer_list], and the
    counter [random_nr], which chooses the height of a node, has no effect. *)

From S2P Require Import Prelude DList ListStore KString KState Scheduler ObjectSys.

Section timer.
Context {LS : Lists}.

Definition RT_TIMER_CTRL_SET_TIME : Z := 0.
Definition RT_TIMER_CTRL_GET_TIME : Z := 1.
Definition RT_TIMER_CTRL_SET_ONESHOT : Z := 2.
Definition RT_TIMER_CTRL_SET_PERIODIC : Z := 3.

Definition clear_flag (bits : Z) (tm : rt_timer) : rt_timer :=
  set_tm_flag (Z.land (tm_flag tm) (Z.lnot bits)) tm.
Definition raise_flag (bits : Z) (tm : rt_timer) : rt_timer :=
  set_tm_flag (Z.lor (tm_flag tm) bits) tm.

Definition _rt_timer_init (r : timer_ref) (timeout : timeout_fn) (time flag : Z) : K LS unit :=
  kset (λ k, set_timers (<[r := Timer (Z.land flag (Z.lnot RT_TIMER_FLAG_ACTIVATED))
                                      timeout time 0]> (timers k)) k);;
  on_timers (l_init (El r)).

Definition rt_timer_list_next_timeout : K LS Z :=
  empty ← kopt (λ k, l_isempty (Hd tt) (timer_list k));
  if (empty : bool) then mret RT_TICK_MAX else
  n ← kopt (λ k, l_next (Hd tt) (timer_list k));
  r ← timer_of n; tm ← get_timer r;
  mret (tm_timeout_tick tm).

Definition _rt_timer_remove (r : timer_ref) : K LS unit := on_timers (l_remove (El r)).

Definition rt_timer_init (r : timer_ref) (name : list Z) (timeout : timeout_fn) (time flag : Z)
    : K LS unit :=
  RT_ASSERT (negb (is_null (OTimer r)));;
  rt_object_init (OTimer r) RT_Object_Class_Timer name;;
  _rt_timer_init r timeout time flag.

Definition rt_timer_detach (r : timer_ref) : K LS Z :=
  RT_ASSERT (negb (is_null (OTimer r)));;
  level ← rt_hw_interrupt_disable;
  _rt_timer_remove r;;
  rt_hw_interrupt_enable level;;
  rt_object_detach (OTimer r);;
  mret (- RT_EOK).

Definition rt_timer_create (name : list Z) (timeout : timeout_fn) (time flag ptr : Z) : K LS Z :=
  timer ← rt_object_allocate (λ a, OTimer (UserTimer a)) RT_Object_Class_Timer name ptr;
  if bool_decide (timer = RT_NULL) then mret RT_NULL else
  _rt_timer_init (UserTimer timer) timeout time flag;;
  mret timer.

Definition rt_timer_delete (r : timer_ref) : K LS Z :=
  RT_ASSERT (negb (is_null (OTimer r)));;
  level ← rt_hw_interrupt_disable;
  _rt_timer_remove r;;
  rt_hw_interrupt_enable level;;
  rt_object_delete (OTimer r);;
  mret (- RT_EOK).

(** The position after which the timer goes: [row_head] moves on while it is
    not the last node and the next timer expires no later. *)
Fixpoint timer_scan (fuel : nat) (row_head : node unit timer_ref) (r : timer_ref)
    : K LS (node unit timer_ref) :=
  match fuel with
  | O => khalt Hfuel
  | S fuel =>
      last ← kopt (λ k, l_prev (Hd tt) (timer_list k));
      if bool_decide (row_head = last) then mret row_head else
      p ← kopt (λ k, l_next row_head (timer_list k));
      t ← timer_of p; t ← get_timer t; tm ← get_timer r;
      let d := u32 (tm_timeout_tick t - tm_timeout_tick tm) in
      if bool_decide (d = 0) then timer_scan fuel p r
      else if bool_decide (d < RT_TICK_MAX / 2) then mret row_head
      else timer_scan fuel p r
  end.

(** The scan passes each timer at most once. *)
Definition rt_timer_start (r : timer_ref) : K LS Z :=
  RT_ASSERT (negb (is_null (OTimer r)));;
  level ← rt_hw_interrupt_disable;
  _rt_timer_remove r;;
  mod_timer r (clear_flag RT_TIMER_FLAG_ACTIVATED);;
  rt_hw_interrupt_enable level;;
  tm ← get_timer r;
  RT_ASSERT (bool_decide (tm_init_tick tm < RT_TICK_MAX / 2));;
  tick ← gets rt_tick;
  mod_timer r (set_tm_timeout_tick (u32 (tick + tm_init_tick tm)));;
  level ← rt_hw_interrupt_disable;
  fuel ← gets (λ k, S (size (timers k)));
  row_head ← timer_scan fuel (Hd tt) r;
  on_timers (l_insert_after row_head (El r));;
  mod_timer r (raise_flag RT_TIMER_FLAG_ACTIVATED);;
  rt_hw_interrupt_enable level;;
  mret (- RT_EOK).

Definition rt_timer_stop (r : timer_ref) : K LS Z :=
  RT_ASSERT (negb (is_null (OTimer r)));;
  tm ← get_timer r;
  if bool_decide (Z.land (tm_flag tm) RT_TIMER_FLAG_ACTIVATED = 0) then mret (- RT_ERROR) else
  level ← rt_hw_interrupt_disable;
  _rt_timer_remove r;;
  rt_hw_interrupt_enable level;;
  mod_timer r (clear_flag RT_TIMER_FLAG_ACTIVATED);;
  mret RT_EOK.

(** [arg] is the value behind the argument pointer; the command that reads
    the time returns what it stores there. *)
Definition rt_timer_control (r : timer_ref) (cmd arg : Z) : K LS (Z * Z) :=
  RT_ASSERT (negb (is_null (OTimer r)));;
  if bool_decide (cmd = RT_TIMER_CTRL_GET_TIME) then
    tm ← get_timer r; mret (RT_EOK, tm_init_tick tm)
  else if bool_decide (cmd = RT_TIMER_CTRL_SET_TIME) then
    mod_timer r (set_tm_init_tick arg);; mret (RT_EOK, arg)
  else if bool_decide (cmd = RT_TIMER_CTRL_SET_ONESHOT) then
    mod_timer r (clear_flag RT_TIMER_FLAG_PERIODIC);; mret (RT_EOK, arg)
  else if bool_decide (cmd = RT_TIMER_CTRL_SET_PERIODIC) then
    mod_timer r (raise_flag RT_TIMER_FLAG_PERIODIC);; mret (RT_EOK, arg)
  else mret (RT_EOK, arg).

Definition rt_timer_next_timeout_tick : K LS Z := rt_timer_list_next_timeout.

Definition rt_system_timer_init : K LS unit := on_timers (l_init (Hd tt)).

(** ** [rt_timer_check]

    [call] runs a timeout function. *)
Section check.
Context (call : timeout_fn → K LS unit).

Fixpoint timer_check_loop (fuel : nat) (current_tick : Z) : K LS unit :=
  match fuel with
  | O => khalt Hfuel
  | S fuel =>
      empty ← kopt (λ k, l_isempty (Hd tt) (timer_list k));
      if (empty : bool) then mret tt else
      n ← kopt (λ k, l_next (Hd tt) (timer_list k));
      r ← timer_of n; t ← get_timer r;
      if bool_decide (u32 (current_tick - tm_timeout_tick t) < RT_TICK_MAX / 2) then
        _rt_timer_remove r;;
        call (tm_timeout_func t);;
        current_tick ← gets rt_tick;
        t ← get_timer r;
        (if bool_decide (Z.land (tm_flag t) RT_TIMER_FLAG_PERIODIC ≠ 0 ∧
                         Z.land (tm_flag t) RT_TIMER_FLAG_ACTIVATED ≠ 0) then
           mod_timer r (clear_flag RT_TIMER_FLAG_ACTIVATED);;
           rt_timer_start r;; mret tt
         else mod_timer r (clear_flag RT_TIMER_FLAG_ACTIVATED));;
        timer_check_loop fuel current_tick
      else mret tt
  end.

(** The fuel lets every timer fire once: a timer that is started again by its
    own expiry has a timeout in the future, unless its period is 0, in which
    case the code's loop does not end either. *)
Definition rt_timer_check : K LS unit :=
  current_tick ← gets rt_tick;
  level ← rt_hw_interrupt_disable;
  fuel ← gets (λ k, S (size (timers k)));
  timer_check_loop fuel current_tick;;
  rt_hw_interrupt_enable level.

End check.

End timer.
