(* ===== verification/ThreadSys.v ===== *)
(** * Threads (src/thread.c, libcpu/arm/cortex-m3/cpuport.c) *)

From S2P Require Import Prelude DList ListStore KString KState Scheduler ObjectSys Timer.

(** The address and the words of the initial stack frame. *)
Definition rt_hw_stack_init (tentry parameter stack_addr texit : Z) : Z * list Z :=
  let stk := u32 (stack_addr + 4) in
  let stk := Z.land stk (Z.lnot (8 - 1)) in
  let stk := u32 (stk - 64) in
  (stk, replicate 8 0xdeadbeef ++ [parameter; 0; 0; 0; 0; texit; tentry; 0x01000000]).

Section thread.
Context {LS : Lists}.

Definition RT_THREAD_CTRL_STARTUP : Z := 0.
Definition RT_THREAD_CTRL_CLOSE : Z := 1.
Definition RT_THREAD_CTRL_CHANGE_PRIORITY : Z := 2.

(** The address of [rt_thread_exit], which a thread's entry returns to. *)
Context (rt_thread_exit_addr : Z).

Definition rt_thread_exit : K LS unit :=
  thread ← gets rt_current_thread;
  level ← rt_hw_interrupt_disable;
  rt_schedule_remove_thread thread;;
  mod_thread thread (set_th_stat RT_THREAD_CLOSE);;
  rt_timer_detach (ThreadTimer thread);;
  sys ← rt_object_is_systemobject (OThread thread);
  th ← get_thread thread;
  (if (sys : bool) && negb (th_cleanup th)
   then rt_object_detach (OThread thread)
   else on_threads (l_insert_after (Hd QDefunct) (El thread)));;
  rt_hw_interrupt_enable level;;
  rt_schedule.

(** [old] is what the memory of the structure held: [number_mask] and the
    event fields are not initialised.  The stack's contents, the fill pattern
    and the initial frame, are memory outside the model. *)
Definition _rt_thread_init (thread : Z) (old : rt_thread) (name : list Z)
    (entry parameter stack_start stack_size priority tick : Z) : K LS Z :=
  on_threads (l_init (El thread));;
  let size := u16 stack_size in
  let '(sp, _) := rt_hw_stack_init entry parameter (u32 (stack_start + size - 4))
                    rt_thread_exit_addr in
  RT_ASSERT (bool_decide (priority < RT_THREAD_PRIORITY_MAX));;
  kset (λ k, set_threads (<[thread :=
    Thread sp entry parameter stack_start size RT_EOK RT_THREAD_INIT priority priority
      (th_number_mask old) (th_event_set old) (th_event_info old) tick tick false 0]>
    (threads k)) k);;
  rt_timer_init (ThreadTimer thread) name (thread_timeout thread) 0 RT_TIMER_FLAG_ONE_SHOT;;
  mret RT_EOK.

Definition rt_thread_init (thread : Z) (old : rt_thread) (name : list Z)
    (entry parameter stack_start stack_size priority tick : Z) : K LS Z :=
  RT_ASSERT (bool_decide (thread ≠ RT_NULL));;
  RT_ASSERT (bool_decide (stack_start ≠ RT_NULL));;
  rt_object_init (OThread thread) RT_Object_Class_Thread name;;
  _rt_thread_init thread old name entry parameter stack_start stack_size priority tick.

(** [ptr] and [stack] are what the heap returned for the structure and the
    stack. *)
Definition rt_thread_create (old : rt_thread) (name : list Z)
    (entry parameter stack_size priority tick ptr stack : Z) : K LS Z :=
  thread ← rt_object_allocate OThread RT_Object_Class_Thread name ptr;
  if bool_decide (thread = RT_NULL) then mret RT_NULL else
  if bool_decide (stack = RT_NULL) then rt_object_delete (OThread thread);; mret RT_NULL else
  _rt_thread_init thread old name entry parameter stack stack_size priority tick;;
  mret thread.

(** ** Suspending and resuming *)

Definition rt_thread_suspend (thread : Z) : K LS Z :=
  RT_ASSERT (bool_decide (thread ≠ RT_NULL));;
  th ← get_thread thread;
  if bool_decide (th_stat th ≠ RT_THREAD_READY) then mret (- RT_ERROR) else
  temp ← rt_hw_interrupt_disable;
  mod_thread thread (set_th_stat RT_THREAD_SUSPEND);;
  rt_schedule_remove_thread thread;;
  rt_timer_stop (ThreadTimer thread);;
  rt_hw_interrupt_enable temp;;
  mret RT_EOK.

Definition rt_thread_resume (thread : Z) : K LS Z :=
  RT_ASSERT (bool_decide (thread ≠ RT_NULL));;
  th ← get_thread thread;
  if bool_decide (th_stat th ≠ RT_THREAD_SUSPEND) then mret (- RT_ERROR) else
  temp ← rt_hw_interrupt_disable;
  on_threads (l_remove (El thread));;
  rt_timer_stop (ThreadTimer thread);;
  rt_hw_interrupt_enable temp;;
  rt_schedule_insert_thread thread;;
  mret RT_EOK.

Definition rt_thread_timeout (thread : Z) : K LS unit :=
  RT_ASSERT (bool_decide (thread ≠ RT_NULL));;
  th ← get_thread thread;
  RT_ASSERT (bool_decide (th_stat th = RT_THREAD_SUSPEND));;
  mod_thread thread (set_th_error (- RT_ETIMEOUT));;
  on_threads (l_remove (El thread));;
  rt_schedule_insert_thread thread;;
  rt_schedule.

Definition rt_thread_startup (thread : Z) : K LS Z :=
  RT_ASSERT (bool_decide (thread ≠ RT_NULL));;
  th ← get_thread thread;
  RT_ASSERT (bool_decide (th_stat th = RT_THREAD_INIT));;
  mod_thread thread (λ th, set_th_current_priority (th_init_priority th) th);;
  mod_thread thread (λ th, set_th_number_mask (u32 (Z.shiftl 1 (th_current_priority th))) th);;
  mod_thread thread (set_th_stat RT_THREAD_SUSPEND);;
  rt_thread_resume thread;;
  self ← rt_thread_self;
  (if bool_decide (self ≠ RT_NULL) then rt_schedule else mret tt);;
  mret RT_EOK.

(** ** Ending *)

Definition rt_thread_detach (thread : Z) : K LS Z :=
  RT_ASSERT (bool_decide (thread ≠ RT_NULL));;
  rt_schedule_remove_thread thread;;
  rt_timer_detach (ThreadTimer thread);;
  mod_thread thread (set_th_stat RT_THREAD_CLOSE);;
  rt_object_detach (OThread thread);;
  th ← get_thread thread;
  (if th_cleanup th then
     lock ← rt_hw_interrupt_disable;
     on_threads (l_insert_after (Hd QDefunct) (El thread));;
     rt_hw_interrupt_enable lock
   else mret tt);;
  mret RT_EOK.

Definition rt_thread_delete (thread : Z) : K LS Z :=
  RT_ASSERT (bool_decide (thread ≠ RT_NULL));;
  rt_schedule_remove_thread thread;;
  rt_timer_detach (ThreadTimer thread);;
  mod_thread thread (set_th_stat RT_THREAD_CLOSE);;
  lock ← rt_hw_interrupt_disable;
  on_threads (l_insert_after (Hd QDefunct) (El thread));;
  rt_hw_interrupt_enable lock;;
  mret RT_EOK.

(** ** Yielding and sleeping *)

Definition rt_thread_yield : K LS Z :=
  level ← rt_hw_interrupt_disable;
  thread ← gets rt_current_thread;
  th ← get_thread thread;
  others ← (if bool_decide (th_stat th = RT_THREAD_READY) then
              next ← kopt (λ k, l_next (El thread) (thread_lists k));
              prev ← kopt (λ k, l_prev (El thread) (thread_lists k));
              mret (bool_decide (next ≠ prev))
            else mret false);
  if (others : bool) then
    on_threads (l_remove (El thread));;
    on_threads (l_insert_before (Hd (QReady (th_current_priority th))) (El thread));;
    rt_hw_interrupt_enable level;;
    rt_schedule;;
    mret RT_EOK
  else
    rt_hw_interrupt_enable level;;
    mret RT_EOK.

(** A call that gives up the processor: it returns when [rt_schedule] did not
    switch, and otherwise continues when its thread is next switched to. *)
Inductive outcome : Type := Returns (r : Z) | Waits.

Definition after_schedule (thread : Z) (rest : K LS Z) : K LS outcome :=
  current ← gets rt_current_thread;
  if bool_decide (current = thread) then r ← rest; mret (Returns r) else mret Waits.

Definition rt_thread_sleep_resumed (thread : Z) : K LS Z :=
  th ← get_thread thread;
  (if bool_decide (th_error th = - RT_ETIMEOUT)
   then mod_thread thread (set_th_error RT_EOK) else mret tt);;
  mret RT_EOK.

Definition rt_thread_sleep (tick : Z) : K LS outcome :=
  temp ← rt_hw_interrupt_disable;
  thread ← gets rt_current_thread;
  RT_ASSERT (bool_decide (thread ≠ RT_NULL));;
  rt_thread_suspend thread;;
  rt_timer_control (ThreadTimer thread) RT_TIMER_CTRL_SET_TIME tick;;
  rt_timer_start (ThreadTimer thread);;
  rt_hw_interrupt_enable temp;;
  rt_schedule;;
  after_schedule thread (rt_thread_sleep_resumed thread).

Definition rt_thread_delay (tick : Z) : K LS outcome := rt_thread_sleep tick.

(** ** Control *)

Definition change_priority (arg : Z) (th : rt_thread) : rt_thread :=
  let th := set_th_current_priority (u8 arg) th in
  set_th_number_mask (u32 (Z.shiftl 1 (th_current_priority th))) th.

Definition rt_thread_control (thread cmd arg : Z) : K LS Z :=
  RT_ASSERT (bool_decide (thread ≠ RT_NULL));;
  if bool_decide (cmd = RT_THREAD_CTRL_CHANGE_PRIORITY) then
    temp ← rt_hw_interrupt_disable;
    th ← get_thread thread;
    (if bool_decide (th_stat th = RT_THREAD_READY) then
       rt_schedule_remove_thread thread;;
       mod_thread thread (change_priority arg);;
       rt_schedule_insert_thread thread
     else mod_thread thread (change_priority arg));;
    rt_hw_interrupt_enable temp;;
    mret RT_EOK
  else if bool_decide (cmd = RT_THREAD_CTRL_STARTUP) then rt_thread_startup thread
  else if bool_decide (cmd = RT_THREAD_CTRL_CLOSE) then rt_thread_delete thread
  else mret RT_EOK.

Definition rt_thread_find (name : list Z) : K LS Z :=
  r ← find_object name RT_Object_Class_Thread;
  mret (match r with Some (OThread thread) => thread | _ => RT_NULL end).

End thread.
