(* ===== verification/Ipc.v ===== *)
(** * Semaphores, mutexes and events (src/ipc.c, first part)

    The lists of waiting threads common to all IPC objects, then the
    semaphore, the mutex with priority inheritance and the event. *)

From S2P Require Import Prelude DList ListStore KString KState Scheduler ObjectSys Timer ThreadSys.

Section ipc.
Context {LS : Lists}.

Definition RT_IPC_CMD_RESET : Z := 1.

(** ** Waiting lists *)

Definition rt_ipc_object_init (o : obj_ref) : K LS Z :=
  on_threads (l_init (Hd (QSuspend o)));; mret RT_EOK.

(** The search of [RT_IPC_FLAG_PRIO] for the first waiting thread with a lower
    priority; [n] is the node reached. *)
Fixpoint suspend_scan (fuel : nat) (q : thread_queue) (thread : Z) (n : node thread_queue Z)
    : K LS unit :=
  match fuel with
  | O => khalt Hfuel
  | S fuel =>
      match n with
      | Hd _ => on_threads (l_insert_before (Hd q) (El thread))
      | El sthread =>
          th ← get_thread thread; sth ← get_thread sthread;
          if bool_decide (th_current_priority th < th_current_priority sth)
          then on_threads (l_insert_before (El sthread) (El thread))
          else n ← kopt (λ k, l_next (El sthread) (thread_lists k));
               suspend_scan fuel q thread n
      end
  end.

(** The search passes each waiting thread at most once. *)
Definition rt_ipc_list_suspend (q : thread_queue) (thread flag : Z) : K LS Z :=
  rt_thread_suspend thread;;
  (if bool_decide (flag = RT_IPC_FLAG_FIFO) then
     on_threads (l_insert_before (Hd q) (El thread))
   else if bool_decide (flag = RT_IPC_FLAG_PRIO) then
     n ← kopt (λ k, l_next (Hd q) (thread_lists k));
     fuel ← gets (λ k, S (size (threads k)));
     suspend_scan fuel q thread n
   else mret tt);;
  mret RT_EOK.

(** [list->next] as a thread. *)
Definition first_waiter (q : thread_queue) : K LS Z :=
  n ← kopt (λ k, l_next (Hd q) (thread_lists k)); thread_of n.

Definition rt_ipc_list_resume (q : thread_queue) : K LS Z :=
  thread ← first_waiter q;
  rt_thread_resume thread;;
  mret RT_EOK.

Fixpoint resume_all_loop (fuel : nat) (q : thread_queue) : K LS unit :=
  match fuel with
  | O => khalt Hfuel
  | S fuel =>
      empty ← kopt (λ k, l_isempty (Hd q) (thread_lists k));
      if (empty : bool) then mret tt else
      temp ← rt_hw_interrupt_disable;
      thread ← first_waiter q;
      mod_thread thread (set_th_error (- RT_ERROR));;
      rt_thread_resume thread;;
      rt_hw_interrupt_enable temp;;
      resume_all_loop fuel q
  end.

(** Each round takes one thread off the list. *)
Definition rt_ipc_list_resume_all (q : thread_queue) : K LS Z :=
  fuel ← gets (λ k, S (size (threads k)));
  resume_all_loop fuel q;;
  mret RT_EOK.

(** The sequence every waiting call ends with: a finite waiting time is put in
    the thread's timer. *)
Definition start_thread_timer (thread time : Z) : K LS unit :=
  if bool_decide (time > 0) then
    rt_timer_control (ThreadTimer thread) RT_TIMER_CTRL_SET_TIME time;;
    rt_timer_start (ThreadTimer thread);; mret tt
  else mret tt.

(** ** Semaphore *)

Definition get_sem (a : Z) : K LS rt_semaphore := kopt (λ k, sems k !! a).
Definition put_sem (a : Z) (s : rt_semaphore) : K LS unit :=
  kset (λ k, set_sems (<[a := s]> (sems k)) k).

Definition rt_sem_init (sem : Z) (name : list Z) (value flag : Z) : K LS Z :=
  RT_ASSERT (bool_decide (sem ≠ RT_NULL));;
  rt_object_init (OSem sem) RT_Object_Class_Semaphore name;;
  rt_ipc_object_init (OSem sem);;
  put_sem sem (Semaphore flag (u16 value));;
  mret RT_EOK.

Definition rt_sem_detach (sem : Z) : K LS Z :=
  RT_ASSERT (bool_decide (sem ≠ RT_NULL));;
  rt_ipc_list_resume_all (QSuspend (OSem sem));;
  rt_object_detach (OSem sem);;
  mret RT_EOK.

Definition rt_sem_create (name : list Z) (value flag ptr : Z) : K LS Z :=
  RT_DEBUG_NOT_IN_INTERRUPT;;
  sem ← rt_object_allocate OSem RT_Object_Class_Semaphore name ptr;
  if bool_decide (sem = RT_NULL) then mret sem else
  rt_ipc_object_init (OSem sem);;
  put_sem sem (Semaphore flag (u16 value));;
  mret sem.

Definition rt_sem_delete (sem : Z) : K LS Z :=
  RT_DEBUG_NOT_IN_INTERRUPT;;
  RT_ASSERT (bool_decide (sem ≠ RT_NULL));;
  rt_ipc_list_resume_all (QSuspend (OSem sem));;
  rt_object_delete (OSem sem);;
  mret RT_EOK.

Definition rt_sem_take_resumed (thread : Z) : K LS Z :=
  th ← get_thread thread;
  if bool_decide (th_error th ≠ RT_EOK) then mret (th_error th) else mret RT_EOK.

Definition rt_sem_take (sem time : Z) : K LS outcome :=
  RT_ASSERT (bool_decide (sem ≠ RT_NULL));;
  temp ← rt_hw_interrupt_disable;
  s ← get_sem sem;
  if bool_decide (sem_value s > 0) then
    put_sem sem (set_sem_value (sem_value s - 1) s);;
    rt_hw_interrupt_enable temp;;
    mret (Returns RT_EOK)
  else if bool_decide (time = 0) then
    rt_hw_interrupt_enable temp;;
    mret (Returns (- RT_ETIMEOUT))
  else
    RT_DEBUG_IN_THREAD_CONTEXT;;
    thread ← rt_thread_self;
    mod_thread thread (set_th_error RT_EOK);;
    rt_ipc_list_suspend (QSuspend (OSem sem)) thread (sem_flag s);;
    start_thread_timer thread time;;
    rt_hw_interrupt_enable temp;;
    rt_schedule;;
    after_schedule thread (rt_sem_take_resumed thread).

Definition rt_sem_trytake (sem : Z) : K LS outcome := rt_sem_take sem 0.

Definition rt_sem_release (sem : Z) : K LS Z :=
  temp ← rt_hw_interrupt_disable;
  s ← get_sem sem;
  empty ← kopt (λ k, l_isempty (Hd (QSuspend (OSem sem))) (thread_lists k));
  (if (empty : bool) then put_sem sem (set_sem_value (u16 (sem_value s + 1)) s)
   else rt_ipc_list_resume (QSuspend (OSem sem));; mret tt);;
  rt_hw_interrupt_enable temp;;
  (if (empty : bool) then mret tt else rt_schedule);;
  mret RT_EOK.

Definition rt_sem_control (sem cmd arg : Z) : K LS Z :=
  RT_ASSERT (bool_decide (sem ≠ RT_NULL));;
  if bool_decide (cmd = RT_IPC_CMD_RESET) then
    level ← rt_hw_interrupt_disable;
    rt_ipc_list_resume_all (QSuspend (OSem sem));;
    s ← get_sem sem;
    put_sem sem (set_sem_value (u16 arg) s);;
    rt_hw_interrupt_enable level;;
    rt_schedule;;
    mret RT_EOK
  else mret (- RT_ERROR).

(** ** Mutex *)

Definition get_mutex (a : Z) : K LS rt_mutex := kopt (λ k, mutexes k !! a).
Definition put_mutex (a : Z) (m : rt_mutex) : K LS unit :=
  kset (λ k, set_mutexes (<[a := m]> (mutexes k)) k).

Definition rt_mutex_init (mutex : Z) (name : list Z) (flag : Z) : K LS Z :=
  RT_ASSERT (bool_decide (mutex ≠ RT_NULL));;
  rt_object_init (OMutex mutex) RT_Object_Class_Mutex name;;
  rt_ipc_object_init (OMutex mutex);;
  put_mutex mutex (Mutex flag 1 0xFF 0 RT_NULL);;
  mret RT_EOK.

Definition rt_mutex_detach (mutex : Z) : K LS Z :=
  RT_ASSERT (bool_decide (mutex ≠ RT_NULL));;
  rt_ipc_list_resume_all (QSuspend (OMutex mutex));;
  rt_object_detach (OMutex mutex);;
  mret RT_EOK.

Definition rt_mutex_create (name : list Z) (flag ptr : Z) : K LS Z :=
  RT_DEBUG_NOT_IN_INTERRUPT;;
  mutex ← rt_object_allocate OMutex RT_Object_Class_Mutex name ptr;
  if bool_decide (mutex = RT_NULL) then mret mutex else
  rt_ipc_object_init (OMutex mutex);;
  put_mutex mutex (Mutex flag 1 0xFF 0 RT_NULL);;
  mret mutex.

Definition rt_mutex_delete (mutex : Z) : K LS Z :=
  RT_DEBUG_NOT_IN_INTERRUPT;;
  RT_ASSERT (bool_decide (mutex ≠ RT_NULL));;
  rt_ipc_list_resume_all (QSuspend (OMutex mutex));;
  rt_object_delete (OMutex mutex);;
  mret RT_EOK.

(** Taking a free mutex. *)
Definition mutex_acquire (thread prio : Z) (m : rt_mutex) : rt_mutex :=
  Mutex (mtx_flag m) (mtx_value m - 1) prio (u8 (mtx_hold m + 1)) thread.

Definition rt_mutex_take_resumed (thread : Z) : K LS Z :=
  th ← get_thread thread;
  if bool_decide (th_error th ≠ RT_EOK) then mret (th_error th) else
  temp ← rt_hw_interrupt_disable;
  rt_hw_interrupt_enable temp;;
  mret RT_EOK.

Definition rt_mutex_take (mutex time : Z) : K LS outcome :=
  RT_DEBUG_IN_THREAD_CONTEXT;;
  RT_ASSERT (bool_decide (mutex ≠ RT_NULL));;
  temp ← rt_hw_interrupt_disable;
  thread ← rt_thread_self;
  mod_thread thread (set_th_error RT_EOK);;
  m ← get_mutex mutex;
  th ← get_thread thread;
  if bool_decide (mtx_owner m = thread) then
    put_mutex mutex (set_mtx_hold (u8 (mtx_hold m + 1)) m);;
    rt_hw_interrupt_enable temp;;
    mret (Returns RT_EOK)
  else if bool_decide (mtx_value m > 0) then
    put_mutex mutex (mutex_acquire thread (th_current_priority th) m);;
    rt_hw_interrupt_enable temp;;
    mret (Returns RT_EOK)
  else if bool_decide (time = 0) then
    mod_thread thread (set_th_error (- RT_ETIMEOUT));;
    rt_hw_interrupt_enable temp;;
    mret (Returns (- RT_ETIMEOUT))
  else
    owner ← get_thread (mtx_owner m);
    (if bool_decide (th_current_priority th < th_current_priority owner) then
       rt_thread_control (mtx_owner m) RT_THREAD_CTRL_CHANGE_PRIORITY (th_current_priority th);;
       mret tt
     else mret tt);;
    rt_ipc_list_suspend (QSuspend (OMutex mutex)) thread (mtx_flag m);;
    start_thread_timer thread time;;
    rt_hw_interrupt_enable temp;;
    rt_schedule;;
    after_schedule thread (rt_mutex_take_resumed thread).

Definition rt_mutex_release (mutex : Z) : K LS Z :=
  RT_DEBUG_IN_THREAD_CONTEXT;;
  thread ← rt_thread_self;
  temp ← rt_hw_interrupt_disable;
  m ← get_mutex mutex;
  if bool_decide (thread ≠ mtx_owner m) then
    mod_thread thread (set_th_error (- RT_ERROR));;
    rt_hw_interrupt_enable temp;;
    mret (- RT_ERROR)
  else
    let m := set_mtx_hold (u8 (mtx_hold m - 1)) m in
    put_mutex mutex m;;
    need_schedule ←
      (if bool_decide (mtx_hold m = 0) then
         owner ← get_thread (mtx_owner m);
         (if bool_decide (mtx_original_priority m ≠ th_current_priority owner) then
            rt_thread_control (mtx_owner m) RT_THREAD_CTRL_CHANGE_PRIORITY
              (mtx_original_priority m);;
            mret tt
          else mret tt);;
         empty ← kopt (λ k, l_isempty (Hd (QSuspend (OMutex mutex))) (thread_lists k));
         if (empty : bool) then
           put_mutex mutex (Mutex (mtx_flag m) (u16 (mtx_value m + 1)) 0xff (mtx_hold m) RT_NULL);;
           mret false
         else
           thread ← first_waiter (QSuspend (OMutex mutex));
           th ← get_thread thread;
           put_mutex mutex (Mutex (mtx_flag m) (mtx_value m) (th_current_priority th)
                                  (u8 (mtx_hold m + 1)) thread);;
           rt_ipc_list_resume (QSuspend (OMutex mutex));;
           mret true
       else mret false);
    rt_hw_interrupt_enable temp;;
    (if (need_schedule : bool) then rt_schedule else mret tt);;
    mret RT_EOK.

Definition rt_mutex_control (mutex cmd arg : Z) : K LS Z := mret (- RT_ERROR).

(** ** Event *)

Definition RT_EVENT_FLAG_AND : Z := 1.
Definition RT_EVENT_FLAG_OR : Z := 2.
Definition RT_EVENT_FLAG_CLEAR : Z := 4.

Definition get_event (a : Z) : K LS rt_event := kopt (λ k, events k !! a).
Definition put_event (a : Z) (e : rt_event) : K LS unit :=
  kset (λ k, set_events (<[a := e]> (events k)) k).

Definition has (bits flag : Z) : bool := bool_decide (Z.land bits flag ≠ 0).

Definition rt_event_init (event : Z) (name : list Z) (flag : Z) : K LS Z :=
  RT_ASSERT (bool_decide (event ≠ RT_NULL));;
  rt_object_init (OEvent event) RT_Object_Class_Event name;;
  rt_ipc_object_init (OEvent event);;
  put_event event (Event flag 0);;
  mret RT_EOK.

Definition rt_event_detach (event : Z) : K LS Z :=
  RT_ASSERT (bool_decide (event ≠ RT_NULL));;
  rt_ipc_list_resume_all (QSuspend (OEvent event));;
  rt_object_detach (OEvent event);;
  mret RT_EOK.

Definition rt_event_create (name : list Z) (flag ptr : Z) : K LS Z :=
  RT_DEBUG_NOT_IN_INTERRUPT;;
  event ← rt_object_allocate OEvent RT_Object_Class_Event name ptr;
  if bool_decide (event = RT_NULL) then mret event else
  rt_ipc_object_init (OEvent event);;
  put_event event (Event flag 0);;
  mret event.

Definition rt_event_delete (event : Z) : K LS Z :=
  RT_ASSERT (bool_decide (event ≠ RT_NULL));;
  RT_DEBUG_NOT_IN_INTERRUPT;;
  rt_ipc_list_resume_all (QSuspend (OEvent event));;
  rt_object_delete (OEvent event);;
  mret RT_EOK.

(** The loop of [rt_event_send] over the waiting threads; the result is
    [need_schedule]. *)
Fixpoint event_send_loop (fuel : nat) (event : Z) (n : node thread_queue Z) (need : bool)
    : K LS bool :=
  match fuel with
  | O => khalt Hfuel
  | S fuel =>
      match n with
      | Hd _ => mret need
      | El thread =>
          th ← get_thread thread; e ← get_event event;
          status ←
            (if has (th_event_info th) RT_EVENT_FLAG_AND then
               mret (bool_decide (Z.land (th_event_set th) (ev_set e) = th_event_set th))
             else if has (th_event_info th) RT_EVENT_FLAG_OR then
               if bool_decide (Z.land (th_event_set th) (ev_set e) ≠ 0) then
                 mod_thread thread (set_th_event_set (Z.land (th_event_set th) (ev_set e)));;
                 mret true
               else mret false
             else mret false);
          n ← kopt (λ k, l_next (El thread) (thread_lists k));
          if (status : bool) then
            th ← get_thread thread;
            (if has (th_event_info th) RT_EVENT_FLAG_CLEAR then
               put_event event (set_ev_set (Z.land (ev_set e) (Z.lnot (th_event_set th))) e)
             else mret tt);;
            rt_thread_resume thread;;
            event_send_loop fuel event n true
          else event_send_loop fuel event n need
      end
  end.

Definition rt_event_send (event set : Z) : K LS Z :=
  RT_ASSERT (bool_decide (event ≠ RT_NULL));;
  if bool_decide (set = 0) then mret (- RT_ERROR) else
  level ← rt_hw_interrupt_disable;
  e ← get_event event;
  put_event event (set_ev_set (Z.lor (ev_set e) set) e);;
  empty ← kopt (λ k, l_isempty (Hd (QSuspend (OEvent event))) (thread_lists k));
  need_schedule ←
    (if (empty : bool) then mret false else
       n ← kopt (λ k, l_next (Hd (QSuspend (OEvent event))) (thread_lists k));
       fuel ← gets (λ k, S (size (threads k)));
       event_send_loop fuel event n false);
  rt_hw_interrupt_enable level;;
  (if (need_schedule : bool) then rt_schedule else mret tt);;
  mret RT_EOK.

(** A receive returns the error code and the event set stored through
    [recved]. *)
Inductive recv_outcome : Type := Received (r : Z) (recved : option Z) | RecvWaits.

Definition rt_event_recv_resumed (thread : Z) : K LS (Z * option Z) :=
  th ← get_thread thread;
  if bool_decide (th_error th ≠ RT_EOK) then mret (th_error th, None) else
  level ← rt_hw_interrupt_disable;
  rt_hw_interrupt_enable level;;
  mret (th_error th, Some (th_event_set th)).

Definition rt_event_recv (event set option timeout : Z) : K LS recv_outcome :=
  RT_DEBUG_IN_THREAD_CONTEXT;;
  RT_ASSERT (bool_decide (event ≠ RT_NULL));;
  if bool_decide (set = 0) then mret (Received (- RT_ERROR) None) else
  thread ← rt_thread_self;
  mod_thread thread (set_th_error RT_EOK);;
  level ← rt_hw_interrupt_disable;
  e ← get_event event;
  status ←
    (if has option RT_EVENT_FLAG_AND then mret (bool_decide (Z.land (ev_set e) set = set))
     else if has option RT_EVENT_FLAG_OR then mret (has (ev_set e) set)
     else khalt Hassert);
  if (status : bool) then
    (if has option RT_EVENT_FLAG_CLEAR
     then put_event event (set_ev_set (Z.land (ev_set e) (Z.lnot set)) e) else mret tt);;
    rt_hw_interrupt_enable level;;
    th ← get_thread thread;
    mret (Received (th_error th) (Some (Z.land (ev_set e) set)))
  else if bool_decide (timeout = 0) then
    mod_thread thread (set_th_error (- RT_ETIMEOUT));;
    rt_hw_interrupt_enable level;;
    th ← get_thread thread;
    mret (Received (th_error th) None)
  else
    mod_thread thread (λ th, set_th_event_info option (set_th_event_set set th));;
    rt_ipc_list_suspend (QSuspend (OEvent event)) thread (ev_flag e);;
    start_thread_timer thread timeout;;
    rt_hw_interrupt_enable level;;
    rt_schedule;;
    current ← gets rt_current_thread;
    if bool_decide (current = thread)
    then '(r, s) ← rt_event_recv_resumed thread; mret (Received r s)
    else mret RecvWaits.

Definition rt_event_control (event cmd arg : Z) : K LS Z :=
  RT_ASSERT (bool_decide (event ≠ RT_NULL));;
  if bool_decide (cmd = RT_IPC_CMD_RESET) then
    level ← rt_hw_interrupt_disable;
    rt_ipc_list_resume_all (QSuspend (OEvent event));;
    e ← get_event event;
    put_event event (set_ev_set 0 e);;
    rt_hw_interrupt_enable level;;
    rt_schedule;;
    mret RT_EOK
  else mret (- RT_ERROR).

End ipc.
