(* ===== verification/MailBox.v ===== *)
(** * Mailboxes and message queues (src/ipc.c, second part)

    A mailbox is a circular buffer of words, a message queue a pool of
    messages linked in a queue and a free list. *)

From S2P Require Import Prelude DList ListStore KString KState Scheduler ObjectSys Timer ThreadSys Ipc.

Section mailbox.
Context {LS : Lists}.

Definition kopt_ {A} (o : option A) : K LS A := kopt (λ _, o).

(** ** Mailbox *)

Definition get_mb (a : Z) : K LS rt_mailbox := kopt (λ k, mailboxes k !! a).
Definition put_mb (a : Z) (b : rt_mailbox) : K LS unit :=
  kset (λ k, set_mailboxes (<[a := b]> (mailboxes k)) k).

(** [msgpool] is the array of words the caller provides. *)
Definition rt_mb_init (mb : Z) (name : list Z) (msgpool : list Z) (size flag : Z) : K LS Z :=
  RT_ASSERT (bool_decide (mb ≠ RT_NULL));;
  rt_object_init (OMailBox mb) RT_Object_Class_MailBox name;;
  rt_ipc_object_init (OMailBox mb);;
  put_mb mb (MailBox flag msgpool (u16 size) 0 0 0);;
  on_threads (l_init (Hd (QSender mb)));;
  mret RT_EOK.

Definition rt_mb_detach (mb : Z) : K LS Z :=
  RT_ASSERT (bool_decide (mb ≠ RT_NULL));;
  rt_ipc_list_resume_all (QSuspend (OMailBox mb));;
  rt_ipc_list_resume_all (QSender mb);;
  rt_object_detach (OMailBox mb);;
  mret RT_EOK.

(** [pool] is what the heap returned for the array of [u16 size] words. *)
Definition rt_mb_create (name : list Z) (size flag ptr : Z) (pool : option (list Z)) : K LS Z :=
  RT_DEBUG_NOT_IN_INTERRUPT;;
  mb ← rt_object_allocate OMailBox RT_Object_Class_MailBox name ptr;
  if bool_decide (mb = RT_NULL) then mret mb else
  rt_ipc_object_init (OMailBox mb);;
  match pool with
  | None => rt_object_delete (OMailBox mb);; mret RT_NULL
  | Some msg_pool =>
      put_mb mb (MailBox flag msg_pool (u16 size) 0 0 0);;
      on_threads (l_init (Hd (QSender mb)));;
      mret mb
  end.

Definition rt_mb_delete (mb : Z) : K LS Z :=
  RT_DEBUG_NOT_IN_INTERRUPT;;
  RT_ASSERT (bool_decide (mb ≠ RT_NULL));;
  rt_ipc_list_resume_all (QSuspend (OMailBox mb));;
  rt_ipc_list_resume_all (QSender mb);;
  rt_object_delete (OMailBox mb);;
  mret RT_EOK.

(** A sender or receiver that waits keeps its remaining time and the tick at
    which it started to wait. *)
Inductive mb_outcome : Type := MbReturns (r : Z) (value : option Z) | MbWaits (timeout tick_delta : Z).

(** What is left of the waiting time when a wait ends. *)
Definition recalculate (timeout tick_delta : Z) : K LS Z :=
  if bool_decide (timeout > 0) then
    tick ← gets rt_tick;
    let timeout := s32 (timeout - u32 (tick - tick_delta)) in
    mret (if bool_decide (timeout < 0) then 0 else timeout)
  else mret timeout.

(** One wait of the current thread in the queue [q]: suspend, start the timer
    and schedule.  The result is the start tick. *)
Definition mb_wait (q : thread_queue) (thread flag timeout temp : Z) : K LS Z :=
  rt_ipc_list_suspend q thread flag;;
  tick_delta ← (if bool_decide (timeout > 0) then gets rt_tick else mret 0);
  start_thread_timer thread timeout;;
  rt_hw_interrupt_enable temp;;
  rt_schedule;;
  mret tick_delta.

(** After the loop: the mail is stored and a receiver woken. *)
Definition mb_send_mail (mb value temp : Z) : K LS mb_outcome :=
  b ← get_mb mb;
  pool ← kopt_ (arr_set (mb_in_offset b) value (mb_msg_pool b));
  let in_offset := u16 (mb_in_offset b + 1) in
  let in_offset := if bool_decide (in_offset >= mb_size b) then 0 else in_offset in
  put_mb mb (MailBox (mb_flag b) pool (mb_size b) (u16 (mb_entry b + 1)) in_offset (mb_out_offset b));;
  empty ← kopt (λ k, l_isempty (Hd (QSuspend (OMailBox mb))) (thread_lists k));
  if (empty : bool) then
    rt_hw_interrupt_enable temp;;
    mret (MbReturns RT_EOK None)
  else
    rt_ipc_list_resume (QSuspend (OMailBox mb));;
    rt_hw_interrupt_enable temp;;
    rt_schedule;;
    mret (MbReturns RT_EOK None).

(** The loop repeats without a switch only while the scheduler is locked. *)
Fixpoint mb_send_loop (fuel : nat) (mb value thread timeout temp : Z) : K LS mb_outcome :=
  match fuel with
  | O => khalt Hfuel
  | S fuel =>
      b ← get_mb mb;
      if bool_decide (mb_entry b = mb_size b) then
        mod_thread thread (set_th_error RT_EOK);;
        if bool_decide (timeout = 0) then
          rt_hw_interrupt_enable temp;; mret (MbReturns (- RT_EFULL) None)
        else
          RT_DEBUG_IN_THREAD_CONTEXT;;
          tick_delta ← mb_wait (QSender mb) thread (mb_flag b) timeout temp;
          current ← gets rt_current_thread;
          if bool_decide (current = thread) then
            th ← get_thread thread;
            if bool_decide (th_error th ≠ RT_EOK) then mret (MbReturns (th_error th) None) else
            temp ← rt_hw_interrupt_disable;
            timeout ← recalculate timeout tick_delta;
            mb_send_loop fuel mb value thread timeout temp
          else mret (MbWaits timeout tick_delta)
      else mb_send_mail mb value temp
  end.

Definition rt_mb_send_wait (mb value timeout : Z) : K LS mb_outcome :=
  RT_ASSERT (bool_decide (mb ≠ RT_NULL));;
  thread ← rt_thread_self;
  temp ← rt_hw_interrupt_disable;
  b ← get_mb mb;
  if bool_decide (mb_entry b = mb_size b ∧ timeout = 0) then
    rt_hw_interrupt_enable temp;; mret (MbReturns (- RT_EFULL) None)
  else mb_send_loop 2 mb value thread timeout temp.

(** A waiting sender continues here when it runs again. *)
Definition rt_mb_send_resumed (mb value thread timeout tick_delta : Z) : K LS mb_outcome :=
  th ← get_thread thread;
  if bool_decide (th_error th ≠ RT_EOK) then mret (MbReturns (th_error th) None) else
  temp ← rt_hw_interrupt_disable;
  timeout ← recalculate timeout tick_delta;
  mb_send_loop 2 mb value thread timeout temp.

Definition rt_mb_send (mb value : Z) : K LS mb_outcome := rt_mb_send_wait mb value 0.

Definition mb_recv_mail (mb temp : Z) : K LS mb_outcome :=
  b ← get_mb mb;
  value ← kopt_ (arr_get (mb_out_offset b) (mb_msg_pool b));
  let out_offset := u16 (mb_out_offset b + 1) in
  let out_offset := if bool_decide (out_offset >= mb_size b) then 0 else out_offset in
  put_mb mb (MailBox (mb_flag b) (mb_msg_pool b) (mb_size b) (u16 (mb_entry b - 1))
               (mb_in_offset b) out_offset);;
  empty ← kopt (λ k, l_isempty (Hd (QSender mb)) (thread_lists k));
  if (empty : bool) then
    rt_hw_interrupt_enable temp;;
    mret (MbReturns RT_EOK (Some value))
  else
    rt_ipc_list_resume (QSender mb);;
    rt_hw_interrupt_enable temp;;
    rt_schedule;;
    mret (MbReturns RT_EOK (Some value)).

Fixpoint mb_recv_loop (fuel : nat) (mb thread timeout temp : Z) : K LS mb_outcome :=
  match fuel with
  | O => khalt Hfuel
  | S fuel =>
      b ← get_mb mb;
      if bool_decide (mb_entry b = 0) then
        mod_thread thread (set_th_error RT_EOK);;
        if bool_decide (timeout = 0) then
          rt_hw_interrupt_enable temp;;
          mod_thread thread (set_th_error (- RT_ETIMEOUT));;
          mret (MbReturns (- RT_ETIMEOUT) None)
        else
          RT_DEBUG_IN_THREAD_CONTEXT;;
          tick_delta ← mb_wait (QSuspend (OMailBox mb)) thread (mb_flag b) timeout temp;
          current ← gets rt_current_thread;
          if bool_decide (current = thread) then
            th ← get_thread thread;
            if bool_decide (th_error th ≠ RT_EOK) then mret (MbReturns (th_error th) None) else
            temp ← rt_hw_interrupt_disable;
            timeout ← recalculate timeout tick_delta;
            mb_recv_loop fuel mb thread timeout temp
          else mret (MbWaits timeout tick_delta)
      else mb_recv_mail mb temp
  end.

Definition rt_mb_recv (mb timeout : Z) : K LS mb_outcome :=
  RT_ASSERT (bool_decide (mb ≠ RT_NULL));;
  thread ← rt_thread_self;
  temp ← rt_hw_interrupt_disable;
  b ← get_mb mb;
  if bool_decide (mb_entry b = 0 ∧ timeout = 0) then
    rt_hw_interrupt_enable temp;; mret (MbReturns (- RT_ETIMEOUT) None)
  else mb_recv_loop 2 mb thread timeout temp.

Definition rt_mb_recv_resumed (mb thread timeout tick_delta : Z) : K LS mb_outcome :=
  th ← get_thread thread;
  if bool_decide (th_error th ≠ RT_EOK) then mret (MbReturns (th_error th) None) else
  temp ← rt_hw_interrupt_disable;
  timeout ← recalculate timeout tick_delta;
  mb_recv_loop 2 mb thread timeout temp.

Definition rt_mb_control (mb cmd arg : Z) : K LS Z :=
  RT_ASSERT (bool_decide (mb ≠ RT_NULL));;
  if bool_decide (cmd = RT_IPC_CMD_RESET) then
    level ← rt_hw_interrupt_disable;
    rt_ipc_list_resume_all (QSuspend (OMailBox mb));;
    rt_ipc_list_resume_all (QSender mb);;
    b ← get_mb mb;
    put_mb mb (MailBox (mb_flag b) (mb_msg_pool b) (mb_size b) 0 0 0);;
    rt_hw_interrupt_enable level;;
    rt_schedule;;
    mret RT_EOK
  else mret (- RT_ERROR).

(** ** Message queue *)

Definition get_mq (a : Z) : K LS rt_messagequeue := kopt (λ k, mqueues k !! a).
Definition put_mq (a : Z) (q : rt_messagequeue) : K LS unit :=
  kset (λ k, set_mqueues (<[a := q]> (mqueues k)) k).

(** [sizeof(struct rt_mq_message)] *)
Definition MQ_HEADER : Z := 4.

(** The address of the [i]th message of the pool. *)
Definition mq_msg (pool msg_size i : Z) : Z := pool + i * (msg_size + MQ_HEADER).

(** The loop that links the messages of the pool in the free list. *)
Fixpoint mq_link (n : nat) (pool msg_size : Z) (next : gmap Z Z) (free : Z) : gmap Z Z * Z :=
  match n with
  | O => (next, free)
  | S n' =>
      let '(next, free) := mq_link n' pool msg_size next free in
      let head := mq_msg pool msg_size (Z.of_nat n') in
      (<[head := free]> next, head)
  end.

Definition mq_blank (n : nat) (pool msg_size : Z) : gmap Z (list Z) :=
  list_to_map ((λ i, (mq_msg pool msg_size (Z.of_nat i), replicate (Z.to_nat msg_size) 0)) <$> seq 0 n).

Definition mq_fresh (flag pool msg_size max_msgs : Z) : rt_messagequeue :=
  let '(next, free) := mq_link (Z.to_nat max_msgs) pool msg_size ∅ RT_NULL in
  MessageQueue flag pool msg_size max_msgs 0 RT_NULL RT_NULL free next
    (mq_blank (Z.to_nat max_msgs) pool msg_size).

Definition rt_mq_init (mq : Z) (name : list Z) (msgpool msg_size pool_size flag : Z) : K LS Z :=
  RT_ASSERT (bool_decide (mq ≠ RT_NULL));;
  rt_object_init (OMessageQueue mq) RT_Object_Class_MessageQueue name;;
  rt_ipc_object_init (OMessageQueue mq);;
  let msg_size := u16 (RT_ALIGN msg_size RT_ALIGN_SIZE) in
  let max_msgs := u16 (pool_size / (msg_size + MQ_HEADER)) in
  put_mq mq (mq_fresh flag msgpool msg_size max_msgs);;
  mret RT_EOK.

Definition rt_mq_detach (mq : Z) : K LS Z :=
  RT_ASSERT (bool_decide (mq ≠ RT_NULL));;
  rt_ipc_list_resume_all (QSuspend (OMessageQueue mq));;
  rt_object_detach (OMessageQueue mq);;
  mret RT_EOK.

Definition rt_mq_delete (mq : Z) : K LS Z :=
  RT_DEBUG_NOT_IN_INTERRUPT;;
  RT_ASSERT (bool_decide (mq ≠ RT_NULL));;
  rt_ipc_list_resume_all (QSuspend (OMessageQueue mq));;
  rt_object_delete (OMessageQueue mq);;
  mret RT_EOK.

(** [pool] is what the heap returned for the messages. *)
Definition rt_mq_create (name : list Z) (msg_size max_msgs flag ptr pool : Z) : K LS Z :=
  RT_DEBUG_NOT_IN_INTERRUPT;;
  mq ← rt_object_allocate OMessageQueue RT_Object_Class_MessageQueue name ptr;
  if bool_decide (mq = RT_NULL) then mret mq else
  rt_ipc_object_init (OMessageQueue mq);;
  if bool_decide (pool = RT_NULL) then rt_mq_delete mq;; mret RT_NULL else
  put_mq mq (mq_fresh flag pool (u16 (RT_ALIGN msg_size RT_ALIGN_SIZE)) (u16 max_msgs));;
  mret mq.

(** [msg = mq->msg_queue_free; mq->msg_queue_free = msg->next] *)
Definition mq_take_free (q : rt_messagequeue) : option rt_messagequeue :=
  next ← mq_next q !! mq_free q; Some (set_mq_free next q).

(** [rt_memcpy(msg + 1, buffer, size)] *)
Definition mq_store (msg : Z) (buffer : list Z) (size : Z) (q : rt_messagequeue)
    : option rt_messagequeue :=
  old ← mq_data q !! msg; d ← memcpy old 0 buffer 0 size;
  Some (set_mq_data (<[msg := d]> (mq_data q)) q).

(** Linking a message at the tail and at the head. *)
Definition mq_append (msg : Z) (q : rt_messagequeue) : rt_messagequeue :=
  let q := if bool_decide (mq_tail q ≠ RT_NULL)
           then set_mq_next (<[mq_tail q := msg]> (mq_next q)) q else q in
  let q := set_mq_tail msg q in
  let q := if bool_decide (mq_head q = RT_NULL) then set_mq_head msg q else q in
  set_mq_entry (u16 (mq_entry q + 1)) q.

Definition mq_prepend (msg : Z) (q : rt_messagequeue) : rt_messagequeue :=
  let q := set_mq_next (<[msg := mq_head q]> (mq_next q)) q in
  let q := set_mq_head msg q in
  let q := if bool_decide (mq_tail q = RT_NULL) then set_mq_tail msg q else q in
  set_mq_entry (u16 (mq_entry q + 1)) q.

(** [msg = head; head = msg->next; if (tail == msg) tail = NULL] *)
Definition mq_unlink (q : rt_messagequeue) : option rt_messagequeue :=
  next ← mq_next q !! mq_head q;
  let msg := mq_head q in
  let q := set_mq_head next q in
  Some (if bool_decide (mq_tail q = msg) then set_mq_tail RT_NULL q else q).

Definition mq_release (msg : Z) (q : rt_messagequeue) : rt_messagequeue :=
  set_mq_free msg (set_mq_next (<[msg := mq_free q]> (mq_next q)) q).

Definition mod_mq (a : Z) (f : rt_messagequeue → option rt_messagequeue) : K LS unit :=
  q ← get_mq a; q ← kopt_ (f q); put_mq a q.

(** The end of [rt_mq_send] and [rt_mq_urgent]. *)
Definition mq_wake (mq temp : Z) : K LS Z :=
  empty ← kopt (λ k, l_isempty (Hd (QSuspend (OMessageQueue mq))) (thread_lists k));
  if (empty : bool) then rt_hw_interrupt_enable temp;; mret RT_EOK
  else
    rt_ipc_list_resume (QSuspend (OMessageQueue mq));;
    rt_hw_interrupt_enable temp;;
    rt_schedule;;
    mret RT_EOK.

(** [buffer] is the array of the caller. *)
Definition rt_mq_send (mq : Z) (buffer : list Z) (size : Z) : K LS Z :=
  RT_ASSERT (bool_decide (mq ≠ RT_NULL));;
  RT_ASSERT (bool_decide (size ≠ 0));;
  q ← get_mq mq;
  if bool_decide (size > mq_msg_size q) then mret (- RT_ERROR) else
  temp ← rt_hw_interrupt_disable;
  q ← get_mq mq;
  let msg := mq_free q in
  if bool_decide (msg = RT_NULL) then rt_hw_interrupt_enable temp;; mret (- RT_EFULL) else
  mod_mq mq mq_take_free;;
  rt_hw_interrupt_enable temp;;
  mod_mq mq (λ q, Some (set_mq_next (<[msg := RT_NULL]> (mq_next q)) q));;
  mod_mq mq (mq_store msg buffer size);;
  temp ← rt_hw_interrupt_disable;
  mod_mq mq (λ q, Some (mq_append msg q));;
  mq_wake mq temp.

Definition rt_mq_urgent (mq : Z) (buffer : list Z) (size : Z) : K LS Z :=
  RT_ASSERT (bool_decide (mq ≠ RT_NULL));;
  RT_ASSERT (bool_decide (size ≠ 0));;
  q ← get_mq mq;
  if bool_decide (size > mq_msg_size q) then mret (- RT_ERROR) else
  temp ← rt_hw_interrupt_disable;
  q ← get_mq mq;
  let msg := mq_free q in
  if bool_decide (msg = RT_NULL) then rt_hw_interrupt_enable temp;; mret (- RT_EFULL) else
  mod_mq mq mq_take_free;;
  rt_hw_interrupt_enable temp;;
  mod_mq mq (mq_store msg buffer size);;
  temp ← rt_hw_interrupt_disable;
  mod_mq mq (λ q, Some (mq_prepend msg q));;
  mq_wake mq temp.

Inductive mq_outcome : Type := MqReturns (r : Z) (msg : option (list Z)) | MqWaits (timeout tick_delta : Z).

(** After the loop: the message is unlinked, copied and freed. *)
Definition mq_recv_msg (mq size temp : Z) : K LS mq_outcome :=
  q ← get_mq mq;
  let msg := mq_head q in
  mod_mq mq mq_unlink;;
  mod_mq mq (λ q, Some (set_mq_entry (u16 (mq_entry q - 1)) q));;
  rt_hw_interrupt_enable temp;;
  q ← get_mq mq;
  data ← kopt_ (mq_data q !! msg);
  d ← kopt_ (arr_read 0 (if bool_decide (size > mq_msg_size q) then mq_msg_size q else size) data);
  temp ← rt_hw_interrupt_disable;
  mod_mq mq (λ q, Some (mq_release msg q));;
  rt_hw_interrupt_enable temp;;
  mret (MqReturns RT_EOK (Some d)).

Fixpoint mq_recv_loop (fuel : nat) (mq size thread timeout temp : Z) : K LS mq_outcome :=
  match fuel with
  | O => khalt Hfuel
  | S fuel =>
      q ← get_mq mq;
      if bool_decide (mq_entry q = 0) then
        RT_DEBUG_IN_THREAD_CONTEXT;;
        mod_thread thread (set_th_error RT_EOK);;
        if bool_decide (timeout = 0) then
          rt_hw_interrupt_enable temp;;
          mod_thread thread (set_th_error (- RT_ETIMEOUT));;
          mret (MqReturns (- RT_ETIMEOUT) None)
        else
          tick_delta ← mb_wait (QSuspend (OMessageQueue mq)) thread (mq_flag q) timeout temp;
          current ← gets rt_current_thread;
          if bool_decide (current = thread) then
            th ← get_thread thread;
            if bool_decide (th_error th ≠ RT_EOK) then mret (MqReturns (th_error th) None) else
            temp ← rt_hw_interrupt_disable;
            timeout ← recalculate timeout tick_delta;
            mq_recv_loop fuel mq size thread timeout temp
          else mret (MqWaits timeout tick_delta)
      else mq_recv_msg mq size temp
  end.

Definition rt_mq_recv (mq size timeout : Z) : K LS mq_outcome :=
  RT_ASSERT (bool_decide (mq ≠ RT_NULL));;
  RT_ASSERT (bool_decide (size ≠ 0));;
  thread ← rt_thread_self;
  temp ← rt_hw_interrupt_disable;
  q ← get_mq mq;
  if bool_decide (mq_entry q = 0 ∧ timeout = 0) then
    rt_hw_interrupt_enable temp;; mret (MqReturns (- RT_ETIMEOUT) None)
  else mq_recv_loop 2 mq size thread timeout temp.

Definition rt_mq_recv_resumed (mq size thread timeout tick_delta : Z) : K LS mq_outcome :=
  th ← get_thread thread;
  if bool_decide (th_error th ≠ RT_EOK) then mret (MqReturns (th_error th) None) else
  temp ← rt_hw_interrupt_disable;
  timeout ← recalculate timeout tick_delta;
  mq_recv_loop 2 mq size thread timeout temp.

(** [while (mq->msg_queue_head != RT_NULL)] of the reset; a queue holds at most
    as many messages as the pool. *)
Fixpoint mq_flush (fuel : nat) (q : rt_messagequeue) : option rt_messagequeue :=
  match fuel with
  | O => None
  | S fuel =>
      if bool_decide (mq_head q = RT_NULL) then Some q else
      let msg := mq_head q in
      q ← mq_unlink q; mq_flush fuel (mq_release msg q)
  end.

Definition rt_mq_control (mq cmd arg : Z) : K LS Z :=
  RT_ASSERT (bool_decide (mq ≠ RT_NULL));;
  if bool_decide (cmd = RT_IPC_CMD_RESET) then
    level ← rt_hw_interrupt_disable;
    rt_ipc_list_resume_all (QSuspend (OMessageQueue mq));;
    mod_mq mq (λ q, mq_flush (S (size (mq_next q))) q);;
    mod_mq mq (λ q, Some (set_mq_entry 0 q));;
    rt_hw_interrupt_enable level;;
    rt_schedule;;
    mret RT_EOK
  else mret (- RT_ERROR).

End mailbox.
