(* ===== verification/MemPool.v ===== *)
(** * Memory pools (src/mempool.c) and the error number (src/kservice.c)

    A pool is cut into blocks of one size, each behind a word that links it
    into the list of free blocks or, while it is allocated, points to its pool.
    These words are [pool_words] of the kernel. *)

From S2P Require Import Prelude DList ListStore KString KState Scheduler ObjectSys Timer ThreadSys Ipc MailBox.

Section errno.
Context {LS : Lists}.

(** Where the error number lives: in the running thread, or in [_errno]. *)
Definition errno_thread : K LS Z :=
  nest ← gets rt_interrupt_nest;
  if bool_decide (nest ≠ 0) then mret RT_NULL else rt_thread_self.

Definition rt_get_errno : K LS Z :=
  tid ← errno_thread;
  if bool_decide (tid = RT_NULL) then gets _errno else th ← get_thread tid; mret (th_error th).

Definition rt_set_errno (error : Z) : K LS unit :=
  tid ← errno_thread;
  if bool_decide (tid = RT_NULL) then kset (set__errno error) else mod_thread tid (set_th_error error).

End errno.

Section mempool.
Context {LS : Lists}.

Definition get_mp (a : Z) : K LS rt_mempool := kopt (λ k, mempools k !! a).
Definition put_mp (a : Z) (p : rt_mempool) : K LS unit :=
  kset (λ k, set_mempools (<[a := p]> (mempools k)) k).

(** [sizeof(rt_uint8_t * )] *)
Definition SIZEOF_PTR : Z := 4.

(** A store into the memory of a new pool; one that is not inside goes wrong. *)
Definition put_word (start size a v : Z) : K LS unit :=
  if bool_decide (start <= a ∧ a + SIZEOF_PTR <= start + size)
  then kset (λ k, set_pool_words (<[a := v]> (pool_words k)) k) else khalt Hpointer.

(** The address of a block, [stride] being the size of a block with its word. *)
Definition mp_block (start stride offset : Z) : Z := u32 (start + u32 (offset * stride)).

Fixpoint mp_link_blocks (n : nat) (start size stride offset : Z) : K LS unit :=
  match n with
  | O => mret tt
  | S n =>
      put_word start size (mp_block start stride offset) (mp_block start stride (offset + 1));;
      mp_link_blocks n start size stride (offset + 1)
  end.

(** The list of free blocks of a new pool with [count] blocks. *)
Definition mp_init_blocks (start size stride count : Z) : K LS unit :=
  mp_link_blocks (Z.to_nat count) start size stride 0;;
  put_word start size (mp_block start stride (count - 1)) RT_NULL.

Definition rt_mp_init (mp : Z) (name : list Z) (start size block_size : Z) : K LS Z :=
  RT_ASSERT (bool_decide (mp ≠ RT_NULL));;
  rt_object_init (OMemPool mp) RT_Object_Class_MemPool name;;
  let mp_size := RT_ALIGN_DOWN size RT_ALIGN_SIZE in
  let block_size := RT_ALIGN block_size RT_ALIGN_SIZE in
  let stride := u32 (block_size + SIZEOF_PTR) in
  let count := mp_size / stride in
  on_threads (l_init (Hd (QSuspend (OMemPool mp))));;
  mp_init_blocks start size stride count;;
  put_mp mp (MemPool start mp_size block_size start count count 0);;
  mret RT_EOK.

(** Each round takes one thread off the list. *)
Fixpoint mp_resume_all (fuel : nat) (mp : Z) : K LS unit :=
  match fuel with
  | O => khalt Hfuel
  | S fuel =>
      empty ← kopt (λ k, l_isempty (Hd (QSuspend (OMemPool mp))) (thread_lists k));
      if (empty : bool) then mret tt else
      temp ← rt_hw_interrupt_disable;
      thread ← first_waiter (QSuspend (OMemPool mp));
      mod_thread thread (set_th_error (- RT_ERROR));;
      rt_thread_resume thread;;
      p ← get_mp mp;
      put_mp mp (set_mp_suspend_thread_count (u32 (mp_suspend_thread_count p - 1)) p);;
      rt_hw_interrupt_enable temp;;
      mp_resume_all fuel mp
  end.

Definition rt_mp_detach (mp : Z) : K LS Z :=
  RT_ASSERT (bool_decide (mp ≠ RT_NULL));;
  fuel ← gets (λ k, S (size (threads k)));
  mp_resume_all fuel mp;;
  rt_object_detach (OMemPool mp);;
  mret RT_EOK.

(** [ptr] and [start] are what the heap returned for the object and for the
    blocks, null when it is full. *)
Definition rt_mp_create (name : list Z) (block_count block_size ptr start : Z) : K LS Z :=
  RT_DEBUG_NOT_IN_INTERRUPT;;
  mp ← rt_object_allocate OMemPool RT_Object_Class_MemPool name ptr;
  if bool_decide (mp = RT_NULL) then mret RT_NULL else
  let block_size := RT_ALIGN block_size RT_ALIGN_SIZE in
  let stride := u32 (block_size + SIZEOF_PTR) in
  let mp_size := u32 (stride * block_count) in
  if bool_decide (start = RT_NULL) then rt_object_delete (OMemPool mp);; mret RT_NULL else
  on_threads (l_init (Hd (QSuspend (OMemPool mp))));;
  mp_init_blocks start mp_size stride block_count;;
  put_mp mp (MemPool start mp_size block_size start block_count block_count 0);;
  mret mp.

(** The memory of the blocks goes back to the heap. *)
Definition rt_mp_delete (mp : Z) : K LS Z :=
  RT_DEBUG_NOT_IN_INTERRUPT;;
  RT_ASSERT (bool_decide (mp ≠ RT_NULL));;
  fuel ← gets (λ k, S (size (threads k)));
  mp_resume_all fuel mp;;
  rt_object_delete (OMemPool mp);;
  mret RT_EOK.

(** ** Allocation *)

Inductive mp_outcome : Type := MpReturns (block : Z) | MpWaits (time before_sleep : Z).

(** After the loop: the first free block is taken. *)
Definition mp_take (mp level : Z) : K LS mp_outcome :=
  p ← get_mp mp;
  let p := set_mp_block_free_count (u32 (mp_block_free_count p - 1)) p in
  let block_ptr := mp_block_list p in
  RT_ASSERT (bool_decide (block_ptr ≠ RT_NULL));;
  next ← kopt (λ k, pool_words k !! block_ptr);
  put_mp mp (set_mp_block_list next p);;
  kset (λ k, set_pool_words (<[block_ptr := mp]> (pool_words k)) k);;
  rt_hw_interrupt_enable level;;
  mret (MpReturns (block_ptr + SIZEOF_PTR)).

(** The thread waits in front of the others that wait. *)
Definition mp_wait (mp thread time level : Z) : K LS Z :=
  rt_thread_suspend thread;;
  on_threads (l_insert_after (Hd (QSuspend (OMemPool mp))) (El thread));;
  p ← get_mp mp;
  put_mp mp (set_mp_suspend_thread_count (u32 (mp_suspend_thread_count p + 1)) p);;
  before_sleep ← (if bool_decide (time > 0) then gets rt_tick else mret 0);
  start_thread_timer thread time;;
  rt_hw_interrupt_enable level;;
  rt_schedule;;
  mret before_sleep.

Fixpoint mp_alloc_loop (fuel : nat) (mp thread time level : Z) : K LS mp_outcome :=
  match fuel with
  | O => khalt Hfuel
  | S fuel =>
      p ← get_mp mp;
      if bool_decide (mp_block_free_count p = 0) then
        if bool_decide (time = 0) then
          rt_hw_interrupt_enable level;;
          rt_set_errno (- RT_ETIMEOUT);;
          mret (MpReturns RT_NULL)
        else
          RT_DEBUG_NOT_IN_INTERRUPT;;
          mod_thread thread (set_th_error RT_EOK);;
          before_sleep ← mp_wait mp thread time level;
          current ← gets rt_current_thread;
          if bool_decide (current = thread) then
            th ← get_thread thread;
            if bool_decide (th_error th ≠ RT_EOK) then mret (MpReturns RT_NULL) else
            time ← recalculate time before_sleep;
            level ← rt_hw_interrupt_disable;
            mp_alloc_loop fuel mp thread time level
          else mret (MpWaits time before_sleep)
      else mp_take mp level
  end.

Definition rt_mp_alloc (mp time : Z) : K LS mp_outcome :=
  thread ← rt_thread_self;
  level ← rt_hw_interrupt_disable;
  mp_alloc_loop 2 mp thread time level.

(** The rest of the call when the waiting thread runs again. *)
Definition rt_mp_alloc_resumed (mp thread time before_sleep : Z) : K LS mp_outcome :=
  th ← get_thread thread;
  if bool_decide (th_error th ≠ RT_EOK) then mret (MpReturns RT_NULL) else
  time ← recalculate time before_sleep;
  level ← rt_hw_interrupt_disable;
  mp_alloc_loop 2 mp thread time level.

Definition rt_mp_free (block : Z) : K LS unit :=
  let block_ptr := block - SIZEOF_PTR in
  mp ← kopt (λ k, pool_words k !! block_ptr);
  level ← rt_hw_interrupt_disable;
  p ← get_mp mp;
  kset (λ k, set_pool_words (<[block_ptr := mp_block_list p]> (pool_words k)) k);;
  put_mp mp (set_mp_block_list block_ptr
               (set_mp_block_free_count (u32 (mp_block_free_count p + 1)) p));;
  if bool_decide (mp_suspend_thread_count p > 0) then
    thread ← first_waiter (QSuspend (OMemPool mp));
    mod_thread thread (set_th_error RT_EOK);;
    rt_thread_resume thread;;
    p ← get_mp mp;
    put_mp mp (set_mp_suspend_thread_count (u32 (mp_suspend_thread_count p - 1)) p);;
    rt_hw_interrupt_enable level;;
    rt_schedule
  else rt_hw_interrupt_enable level.

End mempool.
