(* ===== verification/DriverIpc.v ===== *)
(** * Completions and data queues (components/drivers/src)

    The means of the device drivers to hand results and data to threads. *)

From S2P Require Import Prelude DList ListStore KString KState Scheduler ObjectSys Timer ThreadSys Ipc.

Section completion.
Context {LS : Lists}.

Definition RT_COMPLETED : Z := 1.
Definition RT_UNCOMPLETED : Z := 0.

Definition get_completion (a : Z) : K LS Z := kopt (λ k, completions k !! a).
Definition put_completion (a flag : Z) : K LS unit :=
  kset (λ k, set_completions (<[a := flag]> (completions k)) k).

Definition rt_completion_init (completion : Z) : K LS unit :=
  RT_ASSERT (bool_decide (completion ≠ RT_NULL));;
  level ← rt_hw_interrupt_disable;
  put_completion completion RT_UNCOMPLETED;;
  on_threads (l_init (Hd (QCompletion completion)));;
  rt_hw_interrupt_enable level.

(** The rest of the call when the waiting thread runs again. *)
Definition rt_completion_wait_resumed (completion thread : Z) : K LS Z :=
  th ← get_thread thread;
  let result := th_error th in
  level ← rt_hw_interrupt_disable;
  put_completion completion RT_UNCOMPLETED;;
  rt_hw_interrupt_enable level;;
  mret result.

Definition rt_completion_wait (completion timeout : Z) : K LS outcome :=
  RT_ASSERT (bool_decide (completion ≠ RT_NULL));;
  thread ← rt_thread_self;
  level ← rt_hw_interrupt_disable;
  flag ← get_completion completion;
  if bool_decide (flag ≠ RT_COMPLETED) then
    empty ← kopt (λ k, l_isempty (Hd (QCompletion completion)) (thread_lists k));
    RT_ASSERT empty;;
    if bool_decide (timeout = 0) then
      rt_hw_interrupt_enable level;; mret (Returns (- RT_ETIMEOUT))
    else
      mod_thread thread (set_th_error RT_EOK);;
      rt_thread_suspend thread;;
      on_threads (l_insert_before (Hd (QCompletion completion)) (El thread));;
      RT_DEBUG_NOT_IN_INTERRUPT;;
      start_thread_timer thread timeout;;
      rt_hw_interrupt_enable level;;
      rt_schedule;;
      current ← gets rt_current_thread;
      if bool_decide (current = thread)
      then r ← rt_completion_wait_resumed completion thread; mret (Returns r)
      else mret Waits
  else
    put_completion completion RT_UNCOMPLETED;;
    rt_hw_interrupt_enable level;;
    mret (Returns RT_EOK).

Definition rt_completion_done (completion : Z) : K LS unit :=
  RT_ASSERT (bool_decide (completion ≠ RT_NULL));;
  flag ← get_completion completion;
  if bool_decide (flag = RT_COMPLETED) then mret tt else
  level ← rt_hw_interrupt_disable;
  put_completion completion RT_COMPLETED;;
  empty ← kopt (λ k, l_isempty (Hd (QCompletion completion)) (thread_lists k));
  if (empty : bool) then rt_hw_interrupt_enable level
  else
    thread ← first_waiter (QCompletion completion);
    rt_thread_resume thread;;
    rt_hw_interrupt_enable level;;
    rt_schedule.

End completion.

Section dataqueue.
Context {LS : Lists}.

Definition RT_DATAQUEUE_EVENT_UNKNOWN : Z := 0.
Definition RT_DATAQUEUE_EVENT_POP : Z := 1.
Definition RT_DATAQUEUE_EVENT_PUSH : Z := 2.
Definition RT_DATAQUEUE_EVENT_LWM : Z := 3.

(** [evt_notify] is application code: [notify f queue event] runs it. *)
Context (notify : Z → Z → Z → K LS unit).

Definition get_dq (a : Z) : K LS rt_data_queue := kopt (λ k, dataqueues k !! a).
Definition put_dq (a : Z) (d : rt_data_queue) : K LS unit :=
  kset (λ k, set_dataqueues (<[a := d]> (dataqueues k)) k).
Definition mod_dq (a : Z) (f : rt_data_queue → rt_data_queue) : K LS unit :=
  d ← get_dq a; put_dq a (f d).

(** [if (queue->evt_notify != RT_NULL) queue->evt_notify(queue, event)] *)
Definition dq_notify (queue event : Z) : K LS unit :=
  d ← get_dq queue;
  if bool_decide (dq_evt_notify d ≠ RT_NULL) then notify (dq_evt_notify d) queue event else mret tt.

(** [mem] is what the heap returned for the array of [size] items. *)
Definition rt_data_queue_init (queue size lwm evt_notify : Z) (mem : option (list (Z * Z))) : K LS Z :=
  RT_ASSERT (bool_decide (queue ≠ RT_NULL));;
  on_threads (l_init (Hd (QPush queue)));;
  on_threads (l_init (Hd (QPop queue)));;
  put_dq queue (DataQueue size lwm false 0 0 (default [] mem) evt_notify);;
  match mem with None => mret (- RT_ENOMEM) | Some _ => mret RT_EOK end.

Inductive dq_outcome : Type := DqReturns (r : Z) (item : option (Z * Z)) | DqWaits.

(** A thread waits in one of the two lists. *)
Definition dq_wait (q : thread_queue) (thread timeout level : Z) : K LS unit :=
  RT_DEBUG_NOT_IN_INTERRUPT;;
  mod_thread thread (set_th_error RT_EOK);;
  rt_thread_suspend thread;;
  on_threads (l_insert_before (Hd q) (El thread));;
  start_thread_timer thread timeout;;
  rt_hw_interrupt_enable level;;
  rt_schedule;;
  mret tt.

(** From [__exit] on. *)
Definition dq_exit (queue result event level : Z) (item : option (Z * Z)) : K LS dq_outcome :=
  rt_hw_interrupt_enable level;;
  (if bool_decide (result = RT_EOK) then dq_notify queue event else mret tt);;
  mret (DqReturns result item).

(** [mask = queue->size - 1] *)
Definition dq_slot (d : rt_data_queue) (index : Z) : Z := Z.land index (u16 (dq_size d - 1)).

(** After the loop of a push. *)
Definition dq_put (queue data_ptr data_size level : Z) : K LS dq_outcome :=
  d ← get_dq queue;
  items ← kopt (λ _, arr_set (dq_slot d (dq_put_index d)) (data_ptr, data_size) (dq_queue d));
  put_dq queue (set_dq_put_index (u16 (dq_put_index d + 1)) (set_dq_queue items d));;
  empty ← kopt (λ k, l_isempty (Hd (QPop queue)) (thread_lists k));
  if (empty : bool) then dq_exit queue RT_EOK RT_DATAQUEUE_EVENT_PUSH level None
  else
    thread ← first_waiter (QPop queue);
    rt_thread_resume thread;;
    rt_hw_interrupt_enable level;;
    rt_schedule;;
    mret (DqReturns RT_EOK None).

(** The indices are compared as [int]s, without wrapping. *)
Fixpoint dq_push_loop (fuel : nat) (queue data_ptr data_size thread timeout level : Z) : K LS dq_outcome :=
  match fuel with
  | O => khalt Hfuel
  | S fuel =>
      d ← get_dq queue;
      if bool_decide (dq_put_index d - dq_get_index d = dq_size d) then
        put_dq queue (set_dq_waiting_lwm true d);;
        if bool_decide (timeout = 0) then dq_exit queue (- RT_ETIMEOUT) RT_DATAQUEUE_EVENT_PUSH level None
        else
          dq_wait (QPush queue) thread timeout level;;
          current ← gets rt_current_thread;
          if bool_decide (current = thread) then
            th ← get_thread thread;
            level ← rt_hw_interrupt_disable;
            if bool_decide (th_error th ≠ RT_EOK)
            then dq_exit queue (th_error th) RT_DATAQUEUE_EVENT_PUSH level None
            else dq_push_loop fuel queue data_ptr data_size thread timeout level
          else mret DqWaits
      else dq_put queue data_ptr data_size level
  end.

Definition rt_data_queue_push (queue data_ptr data_size timeout : Z) : K LS dq_outcome :=
  RT_ASSERT (bool_decide (queue ≠ RT_NULL));;
  thread ← rt_thread_self;
  level ← rt_hw_interrupt_disable;
  dq_push_loop 2 queue data_ptr data_size thread timeout level.

Definition rt_data_queue_push_resumed (queue data_ptr data_size thread timeout : Z) : K LS dq_outcome :=
  th ← get_thread thread;
  level ← rt_hw_interrupt_disable;
  if bool_decide (th_error th ≠ RT_EOK)
  then dq_exit queue (th_error th) RT_DATAQUEUE_EVENT_PUSH level None
  else dq_push_loop 2 queue data_ptr data_size thread timeout level.

(** After the loop of a pop.  When the low water mark is reached and nobody
    waits to push, the call returns with the interrupts disabled. *)
Definition dq_take (queue level : Z) : K LS dq_outcome :=
  d ← get_dq queue;
  item ← kopt (λ _, arr_get (dq_slot d (dq_get_index d)) (dq_queue d));
  let d := set_dq_get_index (u16 (dq_get_index d + 1)) d in
  put_dq queue d;;
  if dq_waiting_lwm d && bool_decide (dq_put_index d - dq_get_index d <= dq_lwm d) then
    put_dq queue (set_dq_waiting_lwm false d);;
    empty ← kopt (λ k, l_isempty (Hd (QPush queue)) (thread_lists k));
    (if (empty : bool) then mret tt
     else
       thread ← first_waiter (QPush queue);
       rt_thread_resume thread;;
       rt_hw_interrupt_enable level;;
       rt_schedule);;
    dq_notify queue RT_DATAQUEUE_EVENT_LWM;;
    mret (DqReturns RT_EOK (Some item))
  else dq_exit queue RT_EOK RT_DATAQUEUE_EVENT_POP level (Some item).

Fixpoint dq_pop_loop (fuel : nat) (queue thread timeout level : Z) : K LS dq_outcome :=
  match fuel with
  | O => khalt Hfuel
  | S fuel =>
      d ← get_dq queue;
      if bool_decide (dq_get_index d = dq_put_index d) then
        if bool_decide (timeout = 0) then dq_exit queue (- RT_ETIMEOUT) RT_DATAQUEUE_EVENT_POP level None
        else
          dq_wait (QPop queue) thread timeout level;;
          current ← gets rt_current_thread;
          if bool_decide (current = thread) then
            th ← get_thread thread;
            level ← rt_hw_interrupt_disable;
            if bool_decide (th_error th ≠ RT_EOK)
            then dq_exit queue (th_error th) RT_DATAQUEUE_EVENT_POP level None
            else dq_pop_loop fuel queue thread timeout level
          else mret DqWaits
      else dq_take queue level
  end.

Definition rt_data_queue_pop (queue timeout : Z) : K LS dq_outcome :=
  RT_ASSERT (bool_decide (queue ≠ RT_NULL));;
  thread ← rt_thread_self;
  level ← rt_hw_interrupt_disable;
  dq_pop_loop 2 queue thread timeout level.

Definition rt_data_queue_pop_resumed (queue thread timeout : Z) : K LS dq_outcome :=
  th ← get_thread thread;
  level ← rt_hw_interrupt_disable;
  if bool_decide (th_error th ≠ RT_EOK)
  then dq_exit queue (th_error th) RT_DATAQUEUE_EVENT_POP level None
  else dq_pop_loop 2 queue thread timeout level.

Definition rt_data_queue_peak (queue : Z) : K LS dq_outcome :=
  RT_ASSERT (bool_decide (queue ≠ RT_NULL));;
  level ← rt_hw_interrupt_disable;
  d ← get_dq queue;
  if bool_decide (dq_get_index d = dq_put_index d) then
    rt_hw_interrupt_enable level;; mret (DqReturns (- RT_EEMPTY) None)
  else
    item ← kopt (λ _, arr_get (dq_slot d (dq_get_index d)) (dq_queue d));
    rt_hw_interrupt_enable level;;
    mret (DqReturns RT_EOK (Some item)).

(** The two loops are those of [rt_ipc_list_resume_all]. *)
Definition rt_data_queue_reset (queue : Z) : K LS unit :=
  rt_enter_critical;;
  rt_ipc_list_resume_all (QPop queue);;
  rt_ipc_list_resume_all (QPush queue);;
  rt_exit_critical;;
  rt_schedule.

End dataqueue.
