(* ===== verification/Device.v ===== *)
(** * Devices and the console (src/device.c, src/kservice.c)

    The device layer on top of the kernel: the device structures, their
    registration as kernel objects, the calls that hand over to the functions of
    a driver, and the console that [rt_kprintf] writes to.

    The functions of the drivers are not code of this model: a device holds their
    addresses and [drivers] runs them.  They may change anything.  The addresses
    the linker gives to the log buffer and to the text of a message are a
    [layout]. *)

From S2P Require Import Prelude DList ListStore KString KPrint KState Scheduler ObjectSys Timer ThreadSys Ipc MemPool.

Definition RT_ENOSYS : Z := 6.
Definition RT_EBUSY : Z := 7.

Definition RT_DEVICE_FLAG_STANDALONE : Z := 0x008.
Definition RT_DEVICE_FLAG_ACTIVATED : Z := 0x010.
Definition RT_DEVICE_FLAG_STREAM : Z := 0x040.
Definition RT_DEVICE_OFLAG_CLOSE : Z := 0x000.
Definition RT_DEVICE_OFLAG_RDWR : Z := 0x003.
Definition RT_DEVICE_OFLAG_OPEN : Z := 0x008.

(** [struct rt_device]; the object header is in the kernel, and the class, the
    number and the private data of a device are used by no function here. *)
Record rt_device : Type := Device {
  dv_flag : Z;
  dv_open_flag : Z;
  dv_ref_count : Z;
  dv_rx_indicate : Z;
  dv_tx_complete : Z;
  dv_init : Z;
  dv_open : Z;
  dv_close : Z;
  dv_read : Z;
  dv_write : Z;
  dv_control : Z;
}.

Definition set_dv_flag v d := Device v (dv_open_flag d) (dv_ref_count d) (dv_rx_indicate d)
  (dv_tx_complete d) (dv_init d) (dv_open d) (dv_close d) (dv_read d) (dv_write d) (dv_control d).
Definition set_dv_open_flag v d := Device (dv_flag d) v (dv_ref_count d) (dv_rx_indicate d)
  (dv_tx_complete d) (dv_init d) (dv_open d) (dv_close d) (dv_read d) (dv_write d) (dv_control d).
Definition set_dv_ref_count v d := Device (dv_flag d) (dv_open_flag d) v (dv_rx_indicate d)
  (dv_tx_complete d) (dv_init d) (dv_open d) (dv_close d) (dv_read d) (dv_write d) (dv_control d).
Definition set_dv_rx_indicate v d := Device (dv_flag d) (dv_open_flag d) (dv_ref_count d) v
  (dv_tx_complete d) (dv_init d) (dv_open d) (dv_close d) (dv_read d) (dv_write d) (dv_control d).
Definition set_dv_tx_complete v d := Device (dv_flag d) (dv_open_flag d) (dv_ref_count d)
  (dv_rx_indicate d) v (dv_init d) (dv_open d) (dv_close d) (dv_read d) (dv_write d) (dv_control d).

(** [flag & bit] as a condition. *)
Definition has (flags bit : Z) : bool := bool_decide (Z.land flags bit ≠ 0).

(** ** State and monad *)

Record system (LS : Lists) : Type := Sys {
  kern_of : kernel LS;
  devices : gmap Z rt_device;
  memory : mem;
  _console_device : Z;
}.
Arguments Sys {LS}.
Arguments kern_of {LS}.
Arguments devices {LS}.
Arguments memory {LS}.
Arguments _console_device {LS}.

Section device.
Context {LS : Lists}.

Definition D (A : Type) : Type := system LS → res (system LS) A.

#[global] Instance D_ret : MRet D := λ A a s, Ok a s.
#[global] Instance D_bind : MBind D := λ A B f m s,
  match m s with Ok a s' => f a s' | Halt h => Halt h end.

Definition set_kern k (s : system LS) := Sys k (devices s) (memory s) (_console_device s).
Definition set_devices v (s : system LS) := Sys (kern_of s) v (memory s) (_console_device s).
Definition set_memory m (s : system LS) := Sys (kern_of s) (devices s) m (_console_device s).
Definition set_console v (s : system LS) := Sys (kern_of s) (devices s) (memory s) v.

(** A call of the kernel. *)
Definition kernel_call {A} (c : K LS A) : D A := λ s,
  match c (kern_of s) with Ok a k => Ok a (set_kern k s) | Halt h => Halt h end.
Definition dgets {A} (f : system LS → A) : D A := λ s, Ok (f s) s.
Definition dset (f : system LS → system LS) : D unit := λ s, Ok tt (f s).
Definition dhalt {A} (h : halt) : D A := λ _, Halt h.
Definition dopt {A} (o : option A) : D A := λ s,
  match o with Some a => Ok a s | None => Halt Hpointer end.

Definition DEV_ASSERT (b : bool) : D unit := if b then mret tt else dhalt Hassert.

Definition get_device (dev : Z) : D rt_device :=
  ds ← dgets devices; dopt (ds !! dev).
Definition put_device (dev : Z) (d : rt_device) : D unit :=
  dset (λ s, set_devices (<[dev := d]> (devices s)) s).
Definition mod_device (dev : Z) (f : rt_device → rt_device) : D unit :=
  d ← get_device dev; put_device dev (f d).

(** ** Registration *)

(** The address of the device, or null. *)
Definition rt_device_find (name : list Z) : D Z :=
  r ← kernel_call (find_object name RT_Object_Class_Device);
  mret (match r with Some (ODevice dev) => dev | _ => RT_NULL end).

Definition rt_device_register (dev : Z) (name : list Z) (flags : Z) : D Z :=
  if bool_decide (dev = RT_NULL) then mret (- RT_ERROR) else
  found ← rt_device_find name;
  if bool_decide (found ≠ RT_NULL) then mret (- RT_ERROR) else
  kernel_call (rt_object_init (ODevice dev) RT_Object_Class_Device name);;
  mod_device dev (λ d, set_dv_open_flag 0 (set_dv_ref_count 0 (set_dv_flag flags d)));;
  mret RT_EOK.

Definition rt_device_unregister (dev : Z) : D Z :=
  DEV_ASSERT (bool_decide (dev ≠ RT_NULL));;
  kernel_call (rt_object_detach (ODevice dev));;
  mret RT_EOK.

Definition rt_device_init_all : D Z := mret RT_EOK.

(** ** The functions of the drivers *)

Record drivers : Type := Drivers {
  run_init : Z → Z → D Z;                      (* function, device *)
  run_open : Z → Z → Z → D Z;                  (* oflag *)
  run_close : Z → Z → D Z;
  run_read : Z → Z → Z → Z → Z → D Z;          (* pos, buffer, size *)
  run_write : Z → Z → Z → Z → Z → D Z;
  run_control : Z → Z → Z → Z → D Z;           (* cmd, arg *)
  rt_hw_console_output : Z → D unit;           (* str; board support, empty by default *)
}.

(** Where the linker puts the log buffer and the message of a failed
    initialisation, and where the name in the header of a device is. *)
Record layout : Type := Layout {
  rt_log_buf : Z;
  init_failed : Z;
  name_of : Z → Z;
}.

Context (dr : drivers) (lay : layout).

Definition set_errno (e : Z) : D unit := kernel_call (rt_set_errno e).

Definition rt_device_read (dev pos buffer size : Z) : D Z :=
  DEV_ASSERT (bool_decide (dev ≠ RT_NULL));;
  d ← get_device dev;
  if bool_decide (dv_ref_count d = 0) then set_errno (- RT_ERROR);; mret 0 else
  if bool_decide (dv_read d ≠ RT_NULL) then run_read dr (dv_read d) dev pos buffer size else
  set_errno (- RT_ENOSYS);;
  mret 0.

Definition rt_device_write (dev pos buffer size : Z) : D Z :=
  DEV_ASSERT (bool_decide (dev ≠ RT_NULL));;
  d ← get_device dev;
  if bool_decide (dv_ref_count d = 0) then set_errno (- RT_ERROR);; mret 0 else
  if bool_decide (dv_write d ≠ RT_NULL) then run_write dr (dv_write d) dev pos buffer size else
  set_errno (- RT_ENOSYS);;
  mret 0.

Definition rt_device_control (dev cmd arg : Z) : D Z :=
  DEV_ASSERT (bool_decide (dev ≠ RT_NULL));;
  d ← get_device dev;
  if bool_decide (dv_control d ≠ RT_NULL) then run_control dr (dv_control d) dev cmd arg
  else mret RT_EOK.

Definition rt_device_set_rx_indicate (dev rx_ind : Z) : D Z :=
  DEV_ASSERT (bool_decide (dev ≠ RT_NULL));;
  mod_device dev (set_dv_rx_indicate rx_ind);;
  mret RT_EOK.

Definition rt_device_set_tx_complete (dev tx_done : Z) : D Z :=
  DEV_ASSERT (bool_decide (dev ≠ RT_NULL));;
  mod_device dev (set_dv_tx_complete tx_done);;
  mret RT_EOK.

(** ** The console *)

Definition rt_kprintf (fmt : Z) (args : list Z) : D unit :=
  m ← dgets memory;
  '(m, length) ← dopt (kprintf_fill m (rt_log_buf lay) fmt args);
  dset (set_memory m);;
  console ← dgets _console_device;
  if bool_decide (console = RT_NULL) then rt_hw_console_output dr (rt_log_buf lay)
  else
    d ← get_device console;
    let old_flag := dv_open_flag d in
    put_device console (set_dv_open_flag (Z.lor old_flag RT_DEVICE_FLAG_STREAM) d);;
    rt_device_write console 0 (rt_log_buf lay) length;;
    mod_device console (set_dv_open_flag old_flag).

(** ** Opening and closing *)

Definition rt_device_init (dev : Z) : D Z :=
  DEV_ASSERT (bool_decide (dev ≠ RT_NULL));;
  d ← get_device dev;
  if bool_decide (dv_init d ≠ RT_NULL) then
    if has (dv_flag d) RT_DEVICE_FLAG_ACTIVATED then mret RT_EOK else
    result ← run_init dr (dv_init d) dev;
    (if bool_decide (result ≠ RT_EOK) then rt_kprintf (init_failed lay) [name_of lay dev; result]
     else mod_device dev (λ d, set_dv_flag (Z.lor (dv_flag d) RT_DEVICE_FLAG_ACTIVATED) d));;
    mret result
  else mret RT_EOK.

(** [result == RT_EOK || result == -RT_ENOSYS] *)
Definition accepted (result : Z) : bool :=
  bool_decide (result = RT_EOK ∨ result = - RT_ENOSYS).

(** The first part of [rt_device_open]: whether the device is initialised now, and
    the result of the driver's [init]. *)
Definition open_init (dev : Z) : D (bool * Z) :=
  d ← get_device dev;
  if has (dv_flag d) RT_DEVICE_FLAG_ACTIVATED then mret (true, RT_EOK) else
  result ← (if bool_decide (dv_init d ≠ RT_NULL) then run_init dr (dv_init d) dev
            else mret RT_EOK);
  if bool_decide (result ≠ RT_EOK) then
    rt_kprintf (init_failed lay) [name_of lay dev; result];;
    mret (false, result)
  else
    mod_device dev (λ d, set_dv_flag (Z.lor (dv_flag d) RT_DEVICE_FLAG_ACTIVATED) d);;
    mret (true, result).

Definition rt_device_open (dev oflag : Z) : D Z :=
  DEV_ASSERT (bool_decide (dev ≠ RT_NULL));;
  '(ready, result) ← open_init dev;
  if negb ready then mret result else
  d ← get_device dev;
  if has (dv_flag d) RT_DEVICE_FLAG_STANDALONE && has (dv_open_flag d) RT_DEVICE_OFLAG_OPEN
  then mret (- RT_EBUSY) else
  result ← (if bool_decide (dv_open d ≠ RT_NULL) then run_open dr (dv_open d) dev oflag
            else mret result);
  (if accepted result then
     mod_device dev (λ d, set_dv_ref_count (u8 (dv_ref_count d + 1))
                            (set_dv_open_flag (u16 (Z.lor oflag RT_DEVICE_OFLAG_OPEN)) d));;
     d ← get_device dev;
     DEV_ASSERT (bool_decide (dv_ref_count d ≠ 0))
   else mret tt);;
  mret result.

Definition rt_device_close (dev : Z) : D Z :=
  DEV_ASSERT (bool_decide (dev ≠ RT_NULL));;
  d ← get_device dev;
  if bool_decide (dv_ref_count d = 0) then mret (- RT_ERROR) else
  mod_device dev (λ d, set_dv_ref_count (u8 (dv_ref_count d - 1)) d);;
  d ← get_device dev;
  if bool_decide (dv_ref_count d ≠ 0) then mret RT_EOK else
  result ← (if bool_decide (dv_close d ≠ RT_NULL) then run_close dr (dv_close d) dev
            else mret RT_EOK);
  (if accepted result then mod_device dev (set_dv_open_flag RT_DEVICE_OFLAG_CLOSE)
   else mret tt);;
  mret result.

Definition rt_console_get_device : D Z := dgets _console_device.

(** The device that was the console before. *)
Definition rt_console_set_device (name : list Z) : D Z :=
  old ← dgets _console_device;
  new ← rt_device_find name;
  (if bool_decide (new ≠ RT_NULL) then
     console ← dgets _console_device;
     (if bool_decide (console ≠ RT_NULL) then rt_device_close console;; mret tt else mret tt);;
     rt_device_open new (Z.lor RT_DEVICE_OFLAG_RDWR RT_DEVICE_FLAG_STREAM);;
     dset (set_console new)
   else mret tt);;
  mret old.

End device.

Arguments D LS A : clear implicits.
Arguments drivers LS : clear implicits.
