(* ===== verification/Pipe.v ===== *)
(** * Pipes (components/drivers/src/pipe.c)

    A pipe is a device with a ring buffer and two lists of waiting threads: its
    readers are the list [QPop] and its writers the list [QPush] of its address.
    The state is the system of [Device] and the pipes' own fields; the two portal
    fields of the structure are used by no function here.  The caller's buffer is
    a list of bytes; a call returns it as it leaves it.

    As elsewhere a call that gives up the processor ends with [PipeWaits] when
    another thread runs afterwards, and its continuation is the loop again. *)

From S2P Require Import Prelude DList ListStore KString RingBuffer KState Scheduler ObjectSys Timer ThreadSys Ipc Device.

Definition RT_PIPE_FLAG_NONBLOCK_RDWR : Z := 0x00.
Definition RT_PIPE_FLAG_BLOCK_RD : Z := 0x01.
Definition RT_PIPE_FLAG_BLOCK_WR : Z := 0x02.
Definition RT_PIPE_FLAG_FORCE_WR : Z := 0x04.

Definition PIPE_CTRL_GET_SPACE : Z := 0x14.
Definition RT_DEVICE_FLAG_RDWR : Z := 0x003.

Record rt_pipe_device : Type := PipeDevice {
  pp_ringbuffer : rt_ringbuffer;
  pp_flag : Z;
}.

Inductive pipe_outcome : Type :=
| PipeReturns (nbytes : Z) (buffer : list Z)
| PipeWaits.

(** ** State and monad *)

Record world (LS : Lists) : Type := World {
  sys_of : system LS;
  pipes : gmap Z rt_pipe_device;
}.
Arguments World {LS}.
Arguments sys_of {LS}.
Arguments pipes {LS}.

Section pipe.
Context {LS : Lists}.

Definition P (A : Type) : Type := world LS → res (world LS) A.

#[global] Instance P_ret : MRet P := λ A a w, Ok a w.
#[global] Instance P_bind : MBind P := λ A B f m w,
  match m w with Ok a w' => f a w' | Halt h => Halt h end.

(** A call of the device layer, and one of the kernel. *)
Definition sys_call {A} (c : D LS A) : P A := λ w,
  match c (sys_of w) with Ok a s => Ok a (World s (pipes w)) | Halt h => Halt h end.
Definition krun {A} (c : K LS A) : P A := sys_call (kernel_call c).

Definition phalt {A} (h : halt) : P A := λ _, Halt h.
Definition popt {A} (h : halt) (o : option A) : P A :=
  match o with Some a => mret a | None => phalt h end.
Definition PIPE_ASSERT (b : bool) : P unit := if b then mret tt else phalt Hassert.

Definition get_pipe (pipe : Z) : P rt_pipe_device := λ w,
  match pipes w !! pipe with Some p => Ok p w | None => Halt Hpointer end.
Definition put_pipe (pipe : Z) (p : rt_pipe_device) : P unit := λ w,
  Ok tt (World (sys_of w) (<[pipe := p]> (pipes w))).

(** [rx_indicate] is application code: [indicate f dev size] runs it.  The
    addresses of the functions of this file are arguments as well. *)
Context (indicate : Z → Z → Z → P unit).
Context (pipe_read_fn pipe_write_fn pipe_control_fn : Z).

(** ** Reading *)

Definition list_empty (q : thread_queue) : P bool :=
  krun (kopt (λ k, l_isempty (Hd q) (thread_lists k))).

(** Resumes the first thread of a list. *)
Definition resume_first (q : thread_queue) : P unit :=
  krun (thread ← first_waiter q; rt_thread_resume thread;; rt_schedule).

Definition _rt_pipe_resume_writer (pipe : Z) : P unit :=
  empty ← list_empty (QPush pipe);
  if (empty : bool) then mret tt else
  p ← get_pipe pipe;
  PIPE_ASSERT (has (pp_flag p) RT_PIPE_FLAG_BLOCK_WR);;
  resume_first (QPush pipe).

(** The ring buffer takes a 16-bit length.  A failure of the ring buffer is an
    access outside of an array. *)
Definition pipe_get (pipe : Z) (buffer : list Z) (size : Z) : P (Z * list Z) :=
  p ← get_pipe pipe;
  '(n, buffer, rb) ← popt Hpointer (rt_ringbuffer_get (pp_ringbuffer p) buffer (u16 size));
  put_pipe pipe (PipeDevice rb (pp_flag p));;
  mret (n, buffer).

(** Waiting at the end of a list; the result is the thread that runs then. *)
Definition pipe_wait (q : thread_queue) (thread level : Z) : P Z :=
  krun (rt_thread_suspend thread;;
        on_threads (l_insert_before (Hd q) (El thread));;
        rt_hw_interrupt_enable level;;
        rt_schedule;;
        gets rt_current_thread).

Fixpoint pipe_read_loop (fuel : nat) (dev thread : Z) (buffer : list Z) (size : Z)
    : P pipe_outcome :=
  match fuel with
  | O => phalt Hfuel
  | S fuel =>
      level ← krun rt_hw_interrupt_disable;
      '(read_nbytes, buffer) ← pipe_get dev buffer size;
      if bool_decide (read_nbytes = 0) then
        current ← pipe_wait (QPop dev) thread level;
        if bool_decide (current = thread) then pipe_read_loop fuel dev thread buffer size
        else mret PipeWaits
      else
        _rt_pipe_resume_writer dev;;
        krun (rt_hw_interrupt_enable level);;
        mret (PipeReturns read_nbytes buffer)
  end.

Definition rt_pipe_read (dev : Z) (buffer : list Z) (size : Z) : P pipe_outcome :=
  PIPE_ASSERT (bool_decide (dev ≠ RT_NULL));;
  p ← get_pipe dev;
  if negb (has (pp_flag p) RT_PIPE_FLAG_BLOCK_RD) then
    level ← krun rt_hw_interrupt_disable;
    '(read_nbytes, buffer) ← pipe_get dev buffer size;
    (if bool_decide (read_nbytes ≠ 0) then _rt_pipe_resume_writer dev else mret tt);;
    krun (rt_hw_interrupt_enable level);;
    mret (PipeReturns read_nbytes buffer)
  else
    thread ← krun rt_thread_self;
    krun RT_DEBUG_NOT_IN_INTERRUPT;;
    pipe_read_loop 2 dev thread buffer size.

(** ** Writing *)

Definition _rt_pipe_resume_reader (pipe : Z) : P unit :=
  d ← sys_call (get_device pipe);
  p ← get_pipe pipe;
  (if bool_decide (dv_rx_indicate d ≠ RT_NULL)
   then indicate (dv_rx_indicate d) pipe (rt_ringbuffer_data_len (pp_ringbuffer p))
   else mret tt);;
  empty ← list_empty (QPop pipe);
  if (empty : bool) then mret tt else
  p ← get_pipe pipe;
  PIPE_ASSERT (has (pp_flag p) RT_PIPE_FLAG_BLOCK_RD);;
  resume_first (QPop pipe).

Definition pipe_put (pipe : Z) (buffer : list Z) (size : Z) : P Z :=
  p ← get_pipe pipe;
  '(n, rb) ← popt Hpointer (rt_ringbuffer_put (pp_ringbuffer p) buffer (u16 size));
  put_pipe pipe (PipeDevice rb (pp_flag p));;
  mret n.

Definition pipe_put_force (pipe : Z) (buffer : list Z) (size : Z) : P Z :=
  p ← get_pipe pipe;
  '(n, rb) ← popt Hpointer (rt_ringbuffer_put_force (pp_ringbuffer p) buffer (u16 size));
  put_pipe pipe (PipeDevice rb (pp_flag p));;
  mret n.

Fixpoint pipe_write_loop (fuel : nat) (dev thread : Z) (buffer : list Z) (size : Z)
    : P pipe_outcome :=
  match fuel with
  | O => phalt Hfuel
  | S fuel =>
      level ← krun rt_hw_interrupt_disable;
      write_nbytes ← pipe_put dev buffer size;
      if bool_decide (write_nbytes = 0) then
        current ← pipe_wait (QPush dev) thread level;
        if bool_decide (current = thread) then pipe_write_loop fuel dev thread buffer size
        else mret PipeWaits
      else
        _rt_pipe_resume_reader dev;;
        krun (rt_hw_interrupt_enable level);;
        mret (PipeReturns write_nbytes buffer)
  end.

Definition rt_pipe_write (dev : Z) (buffer : list Z) (size : Z) : P pipe_outcome :=
  PIPE_ASSERT (bool_decide (dev ≠ RT_NULL));;
  p ← get_pipe dev;
  if has (pp_flag p) RT_PIPE_FLAG_FORCE_WR || negb (has (pp_flag p) RT_PIPE_FLAG_BLOCK_WR) then
    level ← krun rt_hw_interrupt_disable;
    write_nbytes ← (if has (pp_flag p) RT_PIPE_FLAG_FORCE_WR then pipe_put_force dev buffer size
                    else pipe_put dev buffer size);
    _rt_pipe_resume_reader dev;;
    krun (rt_hw_interrupt_enable level);;
    mret (PipeReturns write_nbytes buffer)
  else
    thread ← krun rt_thread_self;
    krun RT_DEBUG_NOT_IN_INTERRUPT;;
    pipe_write_loop 2 dev thread buffer size.

(** ** Control and management *)

(** The result and what is stored through [args], which is given as whether it is
    not null. *)
Definition rt_pipe_control (dev cmd : Z) (args : bool) : P (Z * option Z) :=
  if bool_decide (cmd = PIPE_CTRL_GET_SPACE) && args then
    p ← get_pipe dev;
    mret (RT_EOK, Some (u32 (rt_ringbuffer_space_len (pp_ringbuffer p))))
  else mret (RT_EOK, None).

(** [buf] is the array the caller passes, if it is not null. *)
Definition rt_pipe_init (pipe : Z) (name : list Z) (flag : Z) (buf : option (list Z)) (size : Z)
    : P Z :=
  PIPE_ASSERT (bool_decide (pipe ≠ RT_NULL));;
  buf ← popt Hassert buf;
  krun (on_threads (l_init (Hd (QPop pipe))));;
  krun (on_threads (l_init (Hd (QPush pipe))));;
  rb ← popt Hassert (rt_ringbuffer_init buf (s16 size));
  put_pipe pipe (PipeDevice rb flag);;
  sys_call (mod_device pipe (λ d, Device (dv_flag d) (dv_open_flag d) (dv_ref_count d)
    (dv_rx_indicate d) (dv_tx_complete d) RT_NULL RT_NULL RT_NULL
    pipe_read_fn pipe_write_fn pipe_control_fn));;
  sys_call (rt_device_register pipe name RT_DEVICE_FLAG_RDWR).

Definition rt_pipe_detach (pipe : Z) : P Z := sys_call (rt_device_unregister pipe).

(** [pipe] and [rb_mem] are what the heap returned for the structure, cleared, and
    for the buffer. *)
Definition rt_pipe_create (name : list Z) (flag size pipe : Z) (rb_mem : option (list Z)) : P Z :=
  let size := RT_ALIGN size RT_ALIGN_SIZE in
  if bool_decide (pipe = RT_NULL) then mret (- RT_ENOMEM) else
  match rb_mem with
  | None => mret (- RT_ENOMEM)
  | Some _ =>
      sys_call (put_device pipe (Device 0 0 0 0 0 0 0 0 0 0 0));;
      rt_pipe_init pipe name flag rb_mem size
  end.

Definition rt_pipe_destroy (pipe : Z) : P unit :=
  if bool_decide (pipe = RT_NULL) then mret tt else
  rt_pipe_detach pipe;;
  mret tt.

End pipe.

Arguments P LS A : clear implicits.
