(* ===== verification/WorkQueue.v ===== *)
(** * Work queues (components/drivers/src/workqueue.c)

    A work queue has a list of works and a thread that takes them off the list and
    runs their functions.  The state is the kernel, the lists of works, through the
    list interface of the kernel, and the fields of works and queues.

    The endless loop of the thread is given by its parts: [workqueue_wait], which
    gives up the processor when there is no work, and [workqueue_take], which runs
    the first work and is also where the thread goes on when it was resumed. *)

From S2P Require Import Prelude DList ListStore KString KState Scheduler ObjectSys Timer ThreadSys.

Record rt_work : Type := Work {
  work_func : Z;
  work_data : Z;
}.

Record office (LS : Lists) (WS : Type) : Type := Office {
  office_kern : kernel LS;
  work_lists : WS;
  works : gmap Z rt_work;
  work_threads : gmap Z Z;     (* the field [work_thread] of a queue *)
}.
Arguments Office {LS WS}.
Arguments office_kern {LS WS}.
Arguments work_lists {LS WS}.
Arguments works {LS WS}.
Arguments work_threads {LS WS}.

Section workqueue.
Context {LS : Lists} {WS : Type} `{!ListOps WS Z Z}.

Definition W (A : Type) : Type := office LS WS → res (office LS WS) A.

#[global] Instance W_ret : MRet W := λ A a w, Ok a w.
#[global] Instance W_bind : MBind W := λ A B f m w,
  match m w with Ok a w' => f a w' | Halt h => Halt h end.

Definition wkern {A} (c : K LS A) : W A := λ w,
  match c (office_kern w) with
  | Ok a k => Ok a (Office k (work_lists w) (works w) (work_threads w))
  | Halt h => Halt h
  end.
Definition wopt {A} (f : office LS WS → option A) : W A := λ w,
  match f w with Some a => Ok a w | None => Halt Hpointer end.
Definition on_works (f : WS → option WS) : W unit := λ w,
  match f (work_lists w) with
  | Some l => Ok tt (Office (office_kern w) l (works w) (work_threads w))
  | None => Halt Hpointer
  end.
Definition put_work (work : Z) (wk : rt_work) : W unit := λ w,
  Ok tt (Office (office_kern w) (work_lists w) (<[work := wk]> (works w)) (work_threads w)).
Definition put_work_thread (queue t : Z) : W unit := λ w,
  Ok tt (Office (office_kern w) (work_lists w) (works w) (<[queue := t]> (work_threads w))).
Definition W_ASSERT (b : bool) : W unit := if b then mret tt else λ _, Halt Hassert.

(** The functions of works are application code: [run f work data] runs one. *)
Context (run : Z → Z → Z → W unit).

(** [rt_list_entry]: the head of a list is not a work. *)
Definition work_of (n : node Z Z) : W Z :=
  match n with El work => mret work | Hd _ => λ _, Halt Hpointer end.

(** ** The thread *)

(** Whether there is work to be taken now. *)
Definition workqueue_wait (queue : Z) : W bool :=
  W_ASSERT (bool_decide (queue ≠ RT_NULL));;
  empty ← wopt (λ w, l_isempty (Hd queue) (work_lists w));
  if (empty : bool) then
    self ← wkern rt_thread_self;
    wkern (rt_thread_suspend self);;
    wkern rt_schedule;;
    current ← wkern (gets rt_current_thread);
    mret (bool_decide (current = self))
  else mret true.

Definition workqueue_take (queue : Z) : W unit :=
  wkern rt_enter_critical;;
  n ← wopt (λ w, l_next (Hd queue) (work_lists w));
  work ← work_of n;
  on_works (l_remove (El work));;
  wkern rt_exit_critical;;
  wk ← wopt (λ w, works w !! work);
  run (work_func wk) work (work_data wk).

(** ** The calls *)

Definition rt_work_init (work func data : Z) : W unit :=
  on_works (l_init (El work));;
  put_work work (Work func data).

(** [queue], [thread] and [stack] are what the heap returned, [old] is what the
    memory of the thread held, and [texit] the address a thread returns to. *)
Definition rt_workqueue_create (texit : Z) (old : rt_thread) (name : list Z)
    (entry stack_size priority queue thread stack : Z) : W Z :=
  if bool_decide (queue = RT_NULL) then mret RT_NULL else
  on_works (l_init (Hd queue));;
  t ← wkern (rt_thread_create texit old name entry queue stack_size priority 10 thread stack);
  put_work_thread queue t;;
  if bool_decide (t = RT_NULL) then mret RT_NULL else
  wkern (rt_thread_startup t);;
  mret queue.

Definition rt_workqueue_destroy (queue : Z) : W Z :=
  W_ASSERT (bool_decide (queue ≠ RT_NULL));;
  t ← wopt (λ w, work_threads w !! queue);
  wkern (rt_thread_delete t);;
  mret RT_EOK.

Definition rt_workqueue_dowork (queue work : Z) : W Z :=
  W_ASSERT (bool_decide (queue ≠ RT_NULL));;
  W_ASSERT (bool_decide (work ≠ RT_NULL));;
  wkern rt_enter_critical;;
  on_works (l_remove (El work));;
  prev ← wopt (λ w, l_prev (Hd queue) (work_lists w));
  on_works (l_insert_after prev (El work));;
  t ← wopt (λ w, work_threads w !! queue);
  th ← wkern (get_thread t);
  (if bool_decide (th_stat th ≠ RT_THREAD_READY) then
     wkern rt_exit_critical;;
     wkern (rt_thread_resume t);;
     wkern rt_schedule
   else wkern rt_exit_critical);;
  mret RT_EOK.

Definition rt_workqueue_cancel_work (queue work : Z) : W Z :=
  W_ASSERT (bool_decide (queue ≠ RT_NULL));;
  W_ASSERT (bool_decide (work ≠ RT_NULL));;
  wkern rt_enter_critical;;
  on_works (l_remove (El work));;
  wkern rt_exit_critical;;
  mret RT_EOK.

End workqueue.

Arguments W LS WS A : clear implicits.
