(* ===== verification/Clock.v ===== *)
(** * The clock (src/clock.c) and the tick interrupt

    The tick counter of the board's vendor library, which the interrupt handler
    increments too, is not modelled. *)

From S2P Require Import Prelude DList ListStore KString KState Scheduler ObjectSys Timer ThreadSys.

Section clock.
Context {LS : Lists}.

Definition RT_TICK_PER_SECOND : Z := 1000.

Definition rt_tick_get : K LS Z := gets rt_tick.

Definition rt_tick_set (tick : Z) : K LS unit :=
  level ← rt_hw_interrupt_disable;
  kset (set_rt_tick tick);;
  rt_hw_interrupt_enable level.

(** The application's timeout functions are a parameter. *)
Context (user : Z → Z → K LS unit).

Definition call_timeout (f : timeout_fn) : K LS unit :=
  match f with
  | thread_timeout thread => rt_thread_timeout thread
  | user_timeout func param => user func param
  end.

Definition rt_tick_increase : K LS unit :=
  kset (λ k, set_rt_tick (u32 (rt_tick k + 1)) k);;
  thread ← rt_thread_self;
  mod_thread thread (λ th, set_th_remaining_tick (u32 (th_remaining_tick th - 1)) th);;
  th ← get_thread thread;
  (if bool_decide (th_remaining_tick th = 0) then
     mod_thread thread (λ th, set_th_remaining_tick (th_init_tick th) th);;
     rt_thread_yield;; mret tt
   else mret tt);;
  rt_timer_check call_timeout.

(** The handler of the system tick. *)
Definition SysTick_Handler : K LS unit :=
  rt_interrupt_enter;; rt_tick_increase;; rt_interrupt_leave.

End clock.

Definition rt_tick_from_millisecond (ms : Z) : Z :=
  u32 (u32 (RT_TICK_PER_SECOND * ms) + 999) / 1000.
