(* ===== verification/Idle.v ===== *)
(** * The idle thread and the start of the system (src/idle.c, src/components.c)

    The stack of a deleted thread, which goes back to the heap, is not modelled. *)

From S2P Require Import Prelude DList ListStore KString KState Scheduler ObjectSys Timer ThreadSys.

Section idle.
Context {LS : Lists}.

(** A thread's cleanup function is application code. *)
Context (cleanup : Z → K LS unit).

Definition _has_defunct_thread : K LS bool :=
  next ← kopt (λ k, l_next (Hd QDefunct) (thread_lists k));
  mret (bool_decide (next ≠ Hd QDefunct)).

(** One round of the loop; the result says whether the loop goes on. *)
Definition idle_round : K LS bool :=
  RT_DEBUG_NOT_IN_INTERRUPT;;
  lock ← rt_hw_interrupt_disable;
  some ← _has_defunct_thread;
  if (some : bool) then
    n ← kopt (λ k, l_next (Hd QDefunct) (thread_lists k));
    thread ← thread_of n;
    on_threads (l_remove (El thread));;
    th ← get_thread thread;
    (if th_cleanup th then cleanup thread else mret tt);;
    sys ← rt_object_is_systemobject (OThread thread);
    if (sys : bool) then rt_hw_interrupt_enable lock;; mret false
    else
      rt_hw_interrupt_enable lock;;
      rt_object_delete (OThread thread);;
      mret true
  else rt_hw_interrupt_enable lock;; mret false.

Fixpoint idle_loop (fuel : nat) : K LS unit :=
  match fuel with
  | O => khalt Hfuel
  | S fuel =>
      some ← _has_defunct_thread;
      if (some : bool) then
        more ← idle_round;
        if (more : bool) then idle_loop fuel else mret tt
      else mret tt
  end.

(** Every round removes a thread from the defunct list. *)
Definition rt_thread_idle_excute : K LS unit :=
  fuel ← gets (λ k, S (size (threads k)));
  idle_loop fuel.

(** [idle], its stack and its entry are static; so is the memory [old]. *)
Definition rt_thread_idle_init (exit_addr idle entry stack stack_size : Z) : K LS unit :=
  let old := Thread 0 0 0 0 0 0 0 0 0 0 0 0 0 0 false 0 in
  rt_thread_init exit_addr idle old [116; 105; 100; 108; 101] entry RT_NULL stack stack_size
    (RT_THREAD_PRIORITY_MAX - 1) 32;;
  rt_thread_startup idle;;
  mret tt.

(** The kernel's part of [rtthread_startup]; [application_init] creates the
    application's threads. *)
Definition rtthread_startup (application_init : K LS unit)
    (exit_addr idle entry stack stack_size : Z) : K LS unit :=
  rt_hw_interrupt_disable;;
  rt_object_container_init;;
  rt_system_timer_init;;
  rt_system_scheduler_init;;
  application_init;;
  rt_thread_idle_init exit_addr idle entry stack stack_size;;
  rt_system_scheduler_start.

End idle.
