(* ===== verification/KernelSim.v ===== *)
(** * The code over pointers refines the code over sequences

    The kernel code is one text over an abstract list interface.  Here: run
    over the pointer lists of the C code, every function does what it does over
    sequences, whenever that does not halt.  The theorems about the sequences
    are therefore theorems about the C lists. *)

From S2P Require Import Prelude DList ListStore KString KState Scheduler ObjectSys Timer ThreadSys Ipc MailBox MemPool DriverIpc Clock Idle.

(** ** Related kernels *)

Record ksim (ka : kernel seq_lists) (kp : kernel ptr_lists) : Prop := {
  sim_threads : threads kp = threads ka;
  sim_timers : timers kp = timers ka;
  sim_objects : objects kp = objects ka;
  sim_sems : sems kp = sems ka;
  sim_mutexes : mutexes kp = mutexes ka;
  sim_events : events kp = events ka;
  sim_mailboxes : mailboxes kp = mailboxes ka;
  sim_mqueues : mqueues kp = mqueues ka;
  sim_mempools : mempools kp = mempools ka;
  sim_pool_words : pool_words kp = pool_words ka;
  sim_completions : completions kp = completions ka;
  sim_dataqueues : dataqueues kp = dataqueues ka;
  sim_thread_lists : list_sim (thread_lists ka) (thread_lists kp);
  sim_timer_list : list_sim (timer_list ka) (timer_list kp);
  sim_object_lists : list_sim (object_lists ka) (object_lists kp);
  sim_group : rt_thread_ready_priority_group kp = rt_thread_ready_priority_group ka;
  sim_current : rt_current_thread kp = rt_current_thread ka;
  sim_priority : rt_current_priority kp = rt_current_priority ka;
  sim_lock : rt_scheduler_lock_nest kp = rt_scheduler_lock_nest ka;
  sim_nest : rt_interrupt_nest kp = rt_interrupt_nest ka;
  sim_tick : rt_tick kp = rt_tick ka;
  sim_primask : primask kp = primask ka;
  sim_errno : _errno kp = _errno ka;
}.

(** [mp] follows [ma]: the same result in related kernels. *)
Definition msim {A} (ma : K seq_lists A) (mp : K ptr_lists A) : Prop :=
  ∀ ka kp, ksim ka kp →
  match ma ka with
  | Ok a ka' => ∃ kp', mp kp = Ok a kp' ∧ ksim ka' kp'
  | Halt _ => True
  end.

Lemma msim_ret {A} (a : A) : msim (mret a) (mret a).
Proof. intros ka kp Hs. by exists kp. Qed.

Lemma msim_bind {A B} (ma : K seq_lists A) mp (fa : A → K seq_lists B) fp :
  msim ma mp → (∀ a, msim (fa a) (fp a)) → msim (ma ≫= fa) (mp ≫= fp).
Proof.
  intros Hm Hf ka kp Hs. specialize (Hm ka kp Hs).
  unfold mbind, K_bind. destruct (ma ka) as [a ka'|]; [|done].
  destruct Hm as (kp'&->&Hs'). by apply Hf.
Qed.

Lemma msim_halt {A} h mp : msim (A:=A) (khalt h) mp.
Proof. intros ka kp _. done. Qed.

Lemma msim_gets {A} (fa : kernel seq_lists → A) fp :
  (∀ ka kp, ksim ka kp → fp kp = fa ka) → msim (gets fa) (gets fp).
Proof. intros H ka kp Hs. exists kp. unfold gets. by rewrite (H ka kp Hs). Qed.

Lemma msim_kset fa fp :
  (∀ ka kp, ksim ka kp → ksim (fa ka) (fp kp)) → msim (kset fa) (kset fp).
Proof. intros H ka kp Hs. eexists; split; [done|]. auto. Qed.

Lemma msim_kopt {A} (fa : kernel seq_lists → option A) fp :
  (∀ ka kp a, ksim ka kp → fa ka = Some a → fp kp = Some a) → msim (kopt fa) (kopt fp).
Proof.
  intros H ka kp Hs. unfold kopt. destruct (fa ka) as [a|] eqn:E; [|done].
  rewrite (H ka kp a Hs E). by exists kp.
Qed.

(** Setting a field to the same value keeps kernels related. *)
Ltac ksim_fields :=
  let Hs := fresh in intros ?? Hs; destruct Hs; split; simpl; congruence.

Lemma msim_on_threads fa fp :
  (∀ a a' p, list_sim a p → fa a = Some a' → ∃ p', fp p = Some p' ∧ list_sim a' p') →
  msim (on_threads (LS:=seq_lists) fa) (on_threads (LS:=ptr_lists) fp).
Proof.
  intros H ka kp Hs. unfold on_threads, mbind, K_bind, kopt.
  destruct (fa (thread_lists ka)) as [a'|] eqn:E; [|done].
  destruct (H _ _ _ (sim_thread_lists _ _ Hs) E) as (p'&->&Hp').
  eexists; split; [done|]. destruct Hs; split; simpl; done.
Qed.

Lemma msim_on_timers fa fp :
  (∀ a a' p, list_sim a p → fa a = Some a' → ∃ p', fp p = Some p' ∧ list_sim a' p') →
  msim (on_timers (LS:=seq_lists) fa) (on_timers (LS:=ptr_lists) fp).
Proof.
  intros H ka kp Hs. unfold on_timers, mbind, K_bind, kopt.
  destruct (fa (timer_list ka)) as [a'|] eqn:E; [|done].
  destruct (H _ _ _ (sim_timer_list _ _ Hs) E) as (p'&->&Hp').
  eexists; split; [done|]. destruct Hs; split; simpl; done.
Qed.

Lemma msim_on_objects fa fp :
  (∀ a a' p, list_sim a p → fa a = Some a' → ∃ p', fp p = Some p' ∧ list_sim a' p') →
  msim (on_objects (LS:=seq_lists) fa) (on_objects (LS:=ptr_lists) fp).
Proof.
  intros H ka kp Hs. unfold on_objects, mbind, K_bind, kopt.
  destruct (fa (object_lists ka)) as [a'|] eqn:E; [|done].
  destruct (H _ _ _ (sim_object_lists _ _ Hs) E) as (p'&->&Hp').
  eexists; split; [done|]. destruct Hs; split; simpl; done.
Qed.

Create HintDb msim.

(** The operations of the list stores, by the contract of the interface. *)
Ltac msim_list :=
  first [ apply msim_on_threads | apply msim_on_timers | apply msim_on_objects ];
  first [ apply sim_init | apply sim_insert_after | apply sim_insert_before | apply sim_remove ].

(** Reading a field or a list through related kernels. *)
Ltac msim_read :=
  apply msim_kopt;
  let Hs := fresh in intros ??? Hs; destruct Hs;
  first [ by eapply sim_isempty | by eapply sim_next | by eapply sim_prev | congruence ].

Ltac msim_step :=
  match goal with
  | |- msim (mbind _ _) (mbind _ _) => apply msim_bind; [|intros ?]
  | |- msim (mret _) (mret _) => apply msim_ret
  | |- msim (khalt _) _ => apply msim_halt
  | |- msim (gets _) (gets _) =>
      apply msim_gets; let Hs := fresh in intros ?? Hs; destruct Hs; congruence
  | |- msim (kset _) (kset _) => apply msim_kset; ksim_fields
  | |- msim (on_threads _) _ => msim_list
  | |- msim (on_timers _) _ => msim_list
  | |- msim (on_objects _) _ => msim_list
  | |- msim (kopt _) _ => msim_read
  | |- msim (match ?b with _ => _ end) _ => destruct b
  | |- msim _ _ => solve [eauto with msim nocore]
  end.

Ltac msim := intros; repeat (cbv zeta; msim_step).

(** ** The monad's own operations *)

Lemma assert_sim b : msim (RT_ASSERT b) (RT_ASSERT b).
Proof. unfold RT_ASSERT. msim. Qed.
Lemma get_thread_sim t : msim (get_thread t) (get_thread t).
Proof. unfold get_thread. msim. Qed.
Lemma get_timer_sim r : msim (get_timer r) (get_timer r).
Proof. unfold get_timer. msim. Qed.
Lemma get_object_sim o : msim (get_object o) (get_object o).
Proof. unfold get_object. msim. Qed.
#[export] Hint Resolve assert_sim get_thread_sim get_timer_sim get_object_sim : msim.

Lemma mod_thread_sim t f : msim (mod_thread t f) (mod_thread t f).
Proof. unfold mod_thread. msim. Qed.
Lemma mod_timer_sim r f : msim (mod_timer r f) (mod_timer r f).
Proof. unfold mod_timer. msim. Qed.
Lemma thread_of_sim n : msim (thread_of n) (thread_of n).
Proof. unfold thread_of. msim. Qed.
Lemma timer_of_sim n : msim (timer_of n) (timer_of n).
Proof. unfold timer_of. msim. Qed.
Lemma disable_sim : msim rt_hw_interrupt_disable rt_hw_interrupt_disable.
Proof. unfold rt_hw_interrupt_disable. msim. Qed.
Lemma enable_sim l : msim (rt_hw_interrupt_enable l) (rt_hw_interrupt_enable l).
Proof. unfold rt_hw_interrupt_enable. msim. Qed.
#[export] Hint Resolve mod_thread_sim mod_timer_sim thread_of_sim timer_of_sim
  disable_sim enable_sim : msim.

Lemma interrupt_enter_sim : msim rt_interrupt_enter rt_interrupt_enter.
Proof. unfold rt_interrupt_enter. msim. Qed.
Lemma interrupt_leave_sim : msim rt_interrupt_leave rt_interrupt_leave.
Proof. unfold rt_interrupt_leave. msim. Qed.
Lemma get_nest_sim : msim rt_interrupt_get_nest rt_interrupt_get_nest.
Proof. unfold rt_interrupt_get_nest. msim. Qed.
#[export] Hint Resolve interrupt_enter_sim interrupt_leave_sim get_nest_sim : msim.
Lemma not_in_interrupt_sim : msim RT_DEBUG_NOT_IN_INTERRUPT RT_DEBUG_NOT_IN_INTERRUPT.
Proof. unfold RT_DEBUG_NOT_IN_INTERRUPT. msim. Qed.
#[export] Hint Resolve not_in_interrupt_sim : msim.
Lemma in_thread_context_sim : msim RT_DEBUG_IN_THREAD_CONTEXT RT_DEBUG_IN_THREAD_CONTEXT.
Proof. unfold RT_DEBUG_IN_THREAD_CONTEXT. msim. Qed.
#[export] Hint Resolve in_thread_context_sim : msim.

(** ** Scheduler *)

Lemma self_sim : msim rt_thread_self rt_thread_self.
Proof. unfold rt_thread_self. msim. Qed.
Lemma stack_check_sim t : msim (_rt_scheduler_stack_check t) (_rt_scheduler_stack_check t).
Proof. unfold _rt_scheduler_stack_check. msim. Qed.
Lemma init_ready_lists_sim n : msim (init_ready_lists n) (init_ready_lists n).
Proof. induction n; cbn [init_ready_lists]; msim. Qed.
Lemma highest_ready_sim : msim highest_ready highest_ready.
Proof. unfold highest_ready. msim. Qed.
#[export] Hint Resolve self_sim stack_check_sim init_ready_lists_sim highest_ready_sim : msim.

Lemma scheduler_init_sim : msim rt_system_scheduler_init rt_system_scheduler_init.
Proof. unfold rt_system_scheduler_init. msim. Qed.
Lemma scheduler_start_sim : msim rt_system_scheduler_start rt_system_scheduler_start.
Proof. unfold rt_system_scheduler_start. msim. Qed.
Lemma schedule_sim : msim rt_schedule rt_schedule.
Proof. unfold rt_schedule. msim. Qed.
Lemma insert_thread_sim t : msim (rt_schedule_insert_thread t) (rt_schedule_insert_thread t).
Proof. unfold rt_schedule_insert_thread. msim. Qed.
Lemma remove_thread_sim t : msim (rt_schedule_remove_thread t) (rt_schedule_remove_thread t).
Proof. unfold rt_schedule_remove_thread. msim. Qed.
#[export] Hint Resolve scheduler_init_sim scheduler_start_sim schedule_sim insert_thread_sim
  remove_thread_sim : msim.
Lemma enter_critical_sim : msim rt_enter_critical rt_enter_critical.
Proof. unfold rt_enter_critical. msim. Qed.
Lemma exit_critical_sim : msim rt_exit_critical rt_exit_critical.
Proof. unfold rt_exit_critical. msim. Qed.
Lemma critical_level_sim : msim rt_critical_level rt_critical_level.
Proof. unfold rt_critical_level. msim. Qed.
#[export] Hint Resolve enter_critical_sim exit_critical_sim critical_level_sim : msim.

(** ** Objects *)

Lemma init_containers_sim n : msim (init_containers n) (init_containers n).
Proof. induction n; cbn [init_containers]; msim. Qed.
#[export] Hint Resolve init_containers_sim : msim.
Lemma container_init_sim : msim rt_object_container_init rt_object_container_init.
Proof. unfold rt_object_container_init. msim. Qed.
Lemma put_object_sim o n t : msim (put_object o n t) (put_object o n t).
Proof. unfold put_object. msim. Qed.
#[export] Hint Resolve container_init_sim put_object_sim : msim.
Lemma object_init_sim o ty n : msim (rt_object_init o ty n) (rt_object_init o ty n).
Proof. unfold rt_object_init. msim. Qed.
Lemma object_detach_sim o : msim (rt_object_detach o) (rt_object_detach o).
Proof. unfold rt_object_detach. msim. Qed.
Lemma object_allocate_sim mk ty n p :
  msim (rt_object_allocate mk ty n p) (rt_object_allocate mk ty n p).
Proof. unfold rt_object_allocate. msim. Qed.
Lemma kernel_free_sim o : msim (kset (kernel_free o)) (kset (kernel_free o)).
Proof. apply msim_kset. destruct o; unfold kernel_free; ksim_fields. Qed.
#[export] Hint Resolve object_init_sim object_detach_sim object_allocate_sim : msim.
Lemma object_delete_sim o : msim (rt_object_delete o) (rt_object_delete o).
Proof. unfold rt_object_delete. do 6 (apply msim_bind; [msim|intros ?]). apply kernel_free_sim. Qed.
Lemma is_systemobject_sim o : msim (rt_object_is_systemobject o) (rt_object_is_systemobject o).
Proof. unfold rt_object_is_systemobject. msim. Qed.
Lemma find_loop_sim fuel n ty nd : msim (find_loop fuel n ty nd) (find_loop fuel n ty nd).
Proof. revert nd. induction fuel; intros; cbn [find_loop]; msim. Qed.
#[export] Hint Resolve object_delete_sim is_systemobject_sim find_loop_sim : msim.
Lemma object_find_sim n ty : msim (rt_object_find n ty) (rt_object_find n ty).
Proof. unfold rt_object_find. msim. Qed.
#[export] Hint Resolve object_find_sim : msim.
Lemma in_thread_sim c c' : msim c c' → msim (in_thread c) (in_thread c').
Proof. intros. unfold in_thread. msim. Qed.
#[export] Hint Resolve in_thread_sim : msim.
Lemma search_object_sim n ty : msim (find_object n ty) (find_object n ty).
Proof. unfold find_object. msim. Qed.
#[export] Hint Resolve search_object_sim : msim.

(** ** Timers *)

Lemma timer_init0_sim r f t fl : msim (_rt_timer_init r f t fl) (_rt_timer_init r f t fl).
Proof. unfold _rt_timer_init. msim. Qed.
Lemma next_timeout_sim : msim rt_timer_list_next_timeout rt_timer_list_next_timeout.
Proof. unfold rt_timer_list_next_timeout. msim. Qed.
Lemma timer_remove_sim r : msim (_rt_timer_remove r) (_rt_timer_remove r).
Proof. unfold _rt_timer_remove. msim. Qed.
Lemma timer_scan_sim fuel n r : msim (timer_scan fuel n r) (timer_scan fuel n r).
Proof. revert n. induction fuel; intros; cbn [timer_scan]; msim. Qed.
#[export] Hint Resolve timer_init0_sim next_timeout_sim timer_remove_sim timer_scan_sim : msim.
Lemma timer_init_sim r n f t fl : msim (rt_timer_init r n f t fl) (rt_timer_init r n f t fl).
Proof. unfold rt_timer_init. msim. Qed.
Lemma timer_detach_sim r : msim (rt_timer_detach r) (rt_timer_detach r).
Proof. unfold rt_timer_detach. msim. Qed.
Lemma timer_create_sim n f t fl p : msim (rt_timer_create n f t fl p) (rt_timer_create n f t fl p).
Proof. unfold rt_timer_create. msim. Qed.
Lemma timer_delete_sim r : msim (rt_timer_delete r) (rt_timer_delete r).
Proof. unfold rt_timer_delete. msim. Qed.
Lemma timer_start_sim r : msim (rt_timer_start r) (rt_timer_start r).
Proof. unfold rt_timer_start. msim. Qed.
Lemma timer_stop_sim r : msim (rt_timer_stop r) (rt_timer_stop r).
Proof. unfold rt_timer_stop. msim. Qed.
Lemma timer_control_sim r c a : msim (rt_timer_control r c a) (rt_timer_control r c a).
Proof. unfold rt_timer_control. msim. Qed.
Lemma system_timer_init_sim : msim rt_system_timer_init rt_system_timer_init.
Proof. unfold rt_system_timer_init. msim. Qed.
#[export] Hint Resolve timer_init_sim timer_detach_sim timer_create_sim timer_delete_sim
  timer_start_sim timer_stop_sim timer_control_sim system_timer_init_sim : msim.

Section check.
Context (ca : timeout_fn → K seq_lists unit) (cp : timeout_fn → K ptr_lists unit).
Context (Hcall : ∀ f, msim (ca f) (cp f)).

Lemma timer_check_loop_sim fuel t : msim (timer_check_loop ca fuel t) (timer_check_loop cp fuel t).
Proof using Hcall. revert t. induction fuel; intros; cbn [timer_check_loop]; msim. Qed.
Lemma timer_check_sim : msim (rt_timer_check ca) (rt_timer_check cp).
Proof using Hcall. pose proof timer_check_loop_sim. unfold rt_timer_check. msim. Qed.
End check.

(** ** Threads *)

Lemma thread_exit_sim : msim rt_thread_exit rt_thread_exit.
Proof. unfold rt_thread_exit. msim. Qed.
Lemma thread_init0_sim x t o n e p s z r k :
  msim (_rt_thread_init x t o n e p s z r k) (_rt_thread_init x t o n e p s z r k).
Proof. unfold _rt_thread_init. msim. Qed.
#[export] Hint Resolve thread_exit_sim thread_init0_sim : msim.
Lemma thread_init_sim x t o n e p s z r k :
  msim (rt_thread_init x t o n e p s z r k) (rt_thread_init x t o n e p s z r k).
Proof. unfold rt_thread_init. msim. Qed.
Lemma thread_create_sim x o n e p z r k a s :
  msim (rt_thread_create x o n e p z r k a s) (rt_thread_create x o n e p z r k a s).
Proof. unfold rt_thread_create. msim. Qed.
Lemma thread_suspend_sim t : msim (rt_thread_suspend t) (rt_thread_suspend t).
Proof. unfold rt_thread_suspend. msim. Qed.
Lemma thread_resume_sim t : msim (rt_thread_resume t) (rt_thread_resume t).
Proof. unfold rt_thread_resume. msim. Qed.
Lemma thread_timeout_sim t : msim (rt_thread_timeout t) (rt_thread_timeout t).
Proof. unfold rt_thread_timeout. msim. Qed.
#[export] Hint Resolve thread_init_sim thread_create_sim thread_suspend_sim thread_resume_sim
  thread_timeout_sim : msim.
Lemma thread_startup_sim t : msim (rt_thread_startup t) (rt_thread_startup t).
Proof. unfold rt_thread_startup. msim. Qed.
Lemma thread_detach_sim t : msim (rt_thread_detach t) (rt_thread_detach t).
Proof. unfold rt_thread_detach. msim. Qed.
Lemma thread_delete_sim t : msim (rt_thread_delete t) (rt_thread_delete t).
Proof. unfold rt_thread_delete. msim. Qed.
Lemma thread_yield_sim : msim rt_thread_yield rt_thread_yield.
Proof. unfold rt_thread_yield. msim. Qed.
#[export] Hint Resolve thread_startup_sim thread_detach_sim thread_delete_sim thread_yield_sim : msim.
Lemma after_schedule_sim t ra rp : msim ra rp → msim (after_schedule t ra) (after_schedule t rp).
Proof. intros Hr. unfold after_schedule. msim. Qed.
Lemma sleep_resumed_sim t : msim (rt_thread_sleep_resumed t) (rt_thread_sleep_resumed t).
Proof. unfold rt_thread_sleep_resumed. msim. Qed.
#[export] Hint Resolve after_schedule_sim sleep_resumed_sim : msim.
Lemma thread_sleep_sim t : msim (rt_thread_sleep t) (rt_thread_sleep t).
Proof. unfold rt_thread_sleep. msim. Qed.
Lemma thread_control_sim t c a : msim (rt_thread_control t c a) (rt_thread_control t c a).
Proof. unfold rt_thread_control. msim. Qed.
Lemma thread_find_sim n : msim (rt_thread_find n) (rt_thread_find n).
Proof. unfold rt_thread_find. msim. Qed.
#[export] Hint Resolve thread_sleep_sim thread_control_sim thread_find_sim : msim.

(** ** IPC objects *)

Lemma ipc_init_sim o : msim (rt_ipc_object_init o) (rt_ipc_object_init o).
Proof. unfold rt_ipc_object_init. msim. Qed.
Lemma first_waiter_sim q : msim (first_waiter q) (first_waiter q).
Proof. unfold first_waiter. msim. Qed.
#[export] Hint Resolve ipc_init_sim first_waiter_sim : msim.
Lemma suspend_scan_sim fuel q t n : msim (suspend_scan fuel q t n) (suspend_scan fuel q t n).
Proof. revert n. induction fuel; intros; cbn [suspend_scan]; msim. Qed.
Lemma resume_all_loop_sim fuel q : msim (resume_all_loop fuel q) (resume_all_loop fuel q).
Proof. induction fuel; intros; cbn [resume_all_loop]; msim. Qed.
#[export] Hint Resolve suspend_scan_sim resume_all_loop_sim : msim.
Lemma ipc_suspend_sim q t f : msim (rt_ipc_list_suspend q t f) (rt_ipc_list_suspend q t f).
Proof. unfold rt_ipc_list_suspend. msim. Qed.
Lemma ipc_resume_sim q : msim (rt_ipc_list_resume q) (rt_ipc_list_resume q).
Proof. unfold rt_ipc_list_resume. msim. Qed.
Lemma ipc_resume_all_sim q : msim (rt_ipc_list_resume_all q) (rt_ipc_list_resume_all q).
Proof. unfold rt_ipc_list_resume_all. msim. Qed.
Lemma start_thread_timer_sim t n : msim (start_thread_timer t n) (start_thread_timer t n).
Proof. unfold start_thread_timer. msim. Qed.
#[export] Hint Resolve ipc_suspend_sim ipc_resume_sim ipc_resume_all_sim start_thread_timer_sim
  : msim.
Lemma get_sem_sim a : msim (get_sem a) (get_sem a).
Proof. unfold get_sem. msim. Qed.
Lemma put_sem_sim a v : msim (put_sem a v) (put_sem a v).
Proof. unfold put_sem. msim. Qed.
#[export] Hint Resolve get_sem_sim put_sem_sim : msim.
Lemma sem_init_sim a n v f : msim (rt_sem_init a n v f) (rt_sem_init a n v f).
Proof. unfold rt_sem_init. msim. Qed.
Lemma sem_detach_sim a : msim (rt_sem_detach a) (rt_sem_detach a).
Proof. unfold rt_sem_detach. msim. Qed.
Lemma sem_create_sim n v f p : msim (rt_sem_create n v f p) (rt_sem_create n v f p).
Proof. unfold rt_sem_create. msim. Qed.
Lemma sem_delete_sim a : msim (rt_sem_delete a) (rt_sem_delete a).
Proof. unfold rt_sem_delete. msim. Qed.
Lemma sem_take_resumed_sim t : msim (rt_sem_take_resumed t) (rt_sem_take_resumed t).
Proof. unfold rt_sem_take_resumed. msim. Qed.
#[export] Hint Resolve sem_init_sim sem_detach_sim sem_create_sim sem_delete_sim
  sem_take_resumed_sim : msim.
Lemma sem_take_sim a t : msim (rt_sem_take a t) (rt_sem_take a t).
Proof. unfold rt_sem_take. msim. Qed.
Lemma sem_release_sim a : msim (rt_sem_release a) (rt_sem_release a).
Proof. unfold rt_sem_release. msim. Qed.
Lemma sem_control_sim a c v : msim (rt_sem_control a c v) (rt_sem_control a c v).
Proof. unfold rt_sem_control. msim. Qed.
#[export] Hint Resolve sem_take_sim sem_release_sim sem_control_sim : msim.
Lemma get_mutex_sim a : msim (get_mutex a) (get_mutex a).
Proof. unfold get_mutex. msim. Qed.
Lemma put_mutex_sim a v : msim (put_mutex a v) (put_mutex a v).
Proof. unfold put_mutex. msim. Qed.
#[export] Hint Resolve get_mutex_sim put_mutex_sim : msim.
Lemma mutex_init_sim a n f : msim (rt_mutex_init a n f) (rt_mutex_init a n f).
Proof. unfold rt_mutex_init. msim. Qed.
Lemma mutex_detach_sim a : msim (rt_mutex_detach a) (rt_mutex_detach a).
Proof. unfold rt_mutex_detach. msim. Qed.
Lemma mutex_create_sim n f p : msim (rt_mutex_create n f p) (rt_mutex_create n f p).
Proof. unfold rt_mutex_create. msim. Qed.
Lemma mutex_delete_sim a : msim (rt_mutex_delete a) (rt_mutex_delete a).
Proof. unfold rt_mutex_delete. msim. Qed.
Lemma mutex_take_resumed_sim t : msim (rt_mutex_take_resumed t) (rt_mutex_take_resumed t).
Proof. unfold rt_mutex_take_resumed. msim. Qed.
#[export] Hint Resolve mutex_init_sim mutex_detach_sim mutex_create_sim mutex_delete_sim
  mutex_take_resumed_sim : msim.
Lemma mutex_take_sim a t : msim (rt_mutex_take a t) (rt_mutex_take a t).
Proof. unfold rt_mutex_take. msim. Qed.
Lemma mutex_release_sim a : msim (rt_mutex_release a) (rt_mutex_release a).
Proof. unfold rt_mutex_release. msim. Qed.
#[export] Hint Resolve mutex_take_sim mutex_release_sim : msim.
Lemma get_event_sim a : msim (get_event a) (get_event a).
Proof. unfold get_event. msim. Qed.
Lemma put_event_sim a v : msim (put_event a v) (put_event a v).
Proof. unfold put_event. msim. Qed.
#[export] Hint Resolve get_event_sim put_event_sim : msim.
Lemma event_init_sim a n f : msim (rt_event_init a n f) (rt_event_init a n f).
Proof. unfold rt_event_init. msim. Qed.
Lemma event_detach_sim a : msim (rt_event_detach a) (rt_event_detach a).
Proof. unfold rt_event_detach. msim. Qed.
Lemma event_create_sim n f p : msim (rt_event_create n f p) (rt_event_create n f p).
Proof. unfold rt_event_create. msim. Qed.
Lemma event_delete_sim a : msim (rt_event_delete a) (rt_event_delete a).
Proof. unfold rt_event_delete. msim. Qed.
Lemma event_recv_resumed_sim t : msim (rt_event_recv_resumed t) (rt_event_recv_resumed t).
Proof. unfold rt_event_recv_resumed. msim. Qed.
#[export] Hint Resolve event_init_sim event_detach_sim event_create_sim event_delete_sim
  event_recv_resumed_sim : msim.
Lemma event_send_loop_sim fuel a n b : msim (event_send_loop fuel a n b) (event_send_loop fuel a n b).
Proof. revert n b. induction fuel; intros; cbn [event_send_loop]; msim. Qed.
#[export] Hint Resolve event_send_loop_sim : msim.
Lemma event_send_sim a s : msim (rt_event_send a s) (rt_event_send a s).
Proof. unfold rt_event_send. msim. Qed.
Lemma event_recv_sim a s o t : msim (rt_event_recv a s o t) (rt_event_recv a s o t).
Proof. unfold rt_event_recv. msim. Qed.
Lemma event_control_sim a c v : msim (rt_event_control a c v) (rt_event_control a c v).
Proof. unfold rt_event_control. msim. Qed.
#[export] Hint Resolve event_send_sim event_recv_sim event_control_sim : msim.

(** ** Mailboxes and message queues *)

Lemma kopt_const_sim {A} (o : option A) : msim (kopt_ o) (kopt_ o).
Proof. unfold kopt_. msim. Qed.
#[export] Hint Resolve kopt_const_sim : msim.
Lemma get_mb_sim a : msim (get_mb a) (get_mb a).
Proof. unfold get_mb. msim. Qed.
Lemma put_mb_sim a v : msim (put_mb a v) (put_mb a v).
Proof. unfold put_mb. msim. Qed.
#[export] Hint Resolve get_mb_sim put_mb_sim : msim.
Lemma recalculate_sim t d : msim (recalculate t d) (recalculate t d).
Proof. unfold recalculate. msim. Qed.
Lemma mb_wait_sim q t f n p : msim (mb_wait q t f n p) (mb_wait q t f n p).
Proof. unfold mb_wait. msim. Qed.
Lemma mb_send_mail_sim a v p : msim (mb_send_mail a v p) (mb_send_mail a v p).
Proof. unfold mb_send_mail. msim. Qed.
Lemma mb_recv_mail_sim a p : msim (mb_recv_mail a p) (mb_recv_mail a p).
Proof. unfold mb_recv_mail. msim. Qed.
#[export] Hint Resolve recalculate_sim mb_wait_sim mb_send_mail_sim mb_recv_mail_sim : msim.
Lemma mb_send_loop_sim fuel a v t n p : msim (mb_send_loop fuel a v t n p) (mb_send_loop fuel a v t n p).
Proof. revert n p. induction fuel; intros; cbn [mb_send_loop]; msim. Qed.
Lemma mb_recv_loop_sim fuel a t n p : msim (mb_recv_loop fuel a t n p) (mb_recv_loop fuel a t n p).
Proof. revert n p. induction fuel; intros; cbn [mb_recv_loop]; msim. Qed.
#[export] Hint Resolve mb_send_loop_sim mb_recv_loop_sim : msim.
Lemma mb_init_sim a n l s f : msim (rt_mb_init a n l s f) (rt_mb_init a n l s f).
Proof. unfold rt_mb_init. msim. Qed.
Lemma mb_detach_sim a : msim (rt_mb_detach a) (rt_mb_detach a).
Proof. unfold rt_mb_detach. msim. Qed.
Lemma mb_create_sim n s f p l : msim (rt_mb_create n s f p l) (rt_mb_create n s f p l).
Proof. unfold rt_mb_create. msim. Qed.
Lemma mb_delete_sim a : msim (rt_mb_delete a) (rt_mb_delete a).
Proof. unfold rt_mb_delete. msim. Qed.
Lemma mb_send_wait_sim a v t : msim (rt_mb_send_wait a v t) (rt_mb_send_wait a v t).
Proof. unfold rt_mb_send_wait. msim. Qed.
Lemma mb_send_resumed_sim a v t n d : msim (rt_mb_send_resumed a v t n d) (rt_mb_send_resumed a v t n d).
Proof. unfold rt_mb_send_resumed. msim. Qed.
Lemma mb_recv_sim a t : msim (rt_mb_recv a t) (rt_mb_recv a t).
Proof. unfold rt_mb_recv. msim. Qed.
Lemma mb_recv_resumed_sim a t n d : msim (rt_mb_recv_resumed a t n d) (rt_mb_recv_resumed a t n d).
Proof. unfold rt_mb_recv_resumed. msim. Qed.
Lemma mb_control_sim a c v : msim (rt_mb_control a c v) (rt_mb_control a c v).
Proof. unfold rt_mb_control. msim. Qed.
#[export] Hint Resolve mb_init_sim mb_detach_sim mb_create_sim mb_delete_sim mb_send_wait_sim
  mb_send_resumed_sim mb_recv_sim mb_recv_resumed_sim mb_control_sim : msim.
Lemma get_mq_sim a : msim (get_mq a) (get_mq a).
Proof. unfold get_mq. msim. Qed.
Lemma put_mq_sim a v : msim (put_mq a v) (put_mq a v).
Proof. unfold put_mq. msim. Qed.
#[export] Hint Resolve get_mq_sim put_mq_sim : msim.
Lemma mod_mq_sim a f : msim (mod_mq a f) (mod_mq a f).
Proof. unfold mod_mq. msim. Qed.
Lemma mq_wake_sim a p : msim (mq_wake a p) (mq_wake a p).
Proof. unfold mq_wake. msim. Qed.
#[export] Hint Resolve mod_mq_sim mq_wake_sim : msim.
Lemma mq_recv_msg_sim a s p : msim (mq_recv_msg a s p) (mq_recv_msg a s p).
Proof. unfold mq_recv_msg. msim. Qed.
#[export] Hint Resolve mq_recv_msg_sim : msim.
Lemma mq_recv_loop_sim fuel a s t n p : msim (mq_recv_loop fuel a s t n p) (mq_recv_loop fuel a s t n p).
Proof. revert n p. induction fuel; intros; cbn [mq_recv_loop]; msim. Qed.
#[export] Hint Resolve mq_recv_loop_sim : msim.
Lemma mq_delete_sim a : msim (rt_mq_delete a) (rt_mq_delete a).
Proof. unfold rt_mq_delete. msim. Qed.
#[export] Hint Resolve mq_delete_sim : msim.
Lemma mq_init_sim a n l s z f : msim (rt_mq_init a n l s z f) (rt_mq_init a n l s z f).
Proof. unfold rt_mq_init. msim. Qed.
Lemma mq_detach_sim a : msim (rt_mq_detach a) (rt_mq_detach a).
Proof. unfold rt_mq_detach. msim. Qed.
Lemma mq_create_sim n s m f p l : msim (rt_mq_create n s m f p l) (rt_mq_create n s m f p l).
Proof. unfold rt_mq_create. msim. Qed.
Lemma mq_send_sim a b s : msim (rt_mq_send a b s) (rt_mq_send a b s).
Proof. unfold rt_mq_send. msim. Qed.
Lemma mq_urgent_sim a b s : msim (rt_mq_urgent a b s) (rt_mq_urgent a b s).
Proof. unfold rt_mq_urgent. msim. Qed.
Lemma mq_recv_sim a s t : msim (rt_mq_recv a s t) (rt_mq_recv a s t).
Proof. unfold rt_mq_recv. msim. Qed.
Lemma mq_recv_resumed_sim a s t n d : msim (rt_mq_recv_resumed a s t n d) (rt_mq_recv_resumed a s t n d).
Proof. unfold rt_mq_recv_resumed. msim. Qed.
Lemma mq_control_sim a c v : msim (rt_mq_control a c v) (rt_mq_control a c v).
Proof. unfold rt_mq_control. msim. Qed.
#[export] Hint Resolve mq_init_sim mq_detach_sim mq_create_sim mq_send_sim mq_urgent_sim
  mq_recv_sim mq_recv_resumed_sim mq_control_sim : msim.

(** ** Memory pools *)

Lemma errno_thread_sim : msim (errno_thread) (errno_thread).
Proof. unfold errno_thread. msim. Qed.
#[export] Hint Resolve errno_thread_sim : msim.
Lemma get_errno_sim : msim (rt_get_errno) (rt_get_errno).
Proof. unfold rt_get_errno. msim. Qed.
Lemma set_errno_sim e : msim (rt_set_errno e) (rt_set_errno e).
Proof. unfold rt_set_errno. msim. Qed.
#[export] Hint Resolve get_errno_sim set_errno_sim : msim.
Lemma get_mp_sim a : msim (get_mp a) (get_mp a).
Proof. unfold get_mp. msim. Qed.
Lemma put_mp_sim a p : msim (put_mp a p) (put_mp a p).
Proof. unfold put_mp. msim. Qed.
Lemma put_word_sim s z a v : msim (put_word s z a v) (put_word s z a v).
Proof. unfold put_word. msim. Qed.
#[export] Hint Resolve get_mp_sim put_mp_sim put_word_sim : msim.
Lemma mp_link_sim n s z d i : msim (mp_link_blocks n s z d i) (mp_link_blocks n s z d i).
Proof. revert i. induction n; intros; cbn [mp_link_blocks]; msim. Qed.
#[export] Hint Resolve mp_link_sim : msim.
Lemma mp_init_blocks_sim s z d c : msim (mp_init_blocks s z d c) (mp_init_blocks s z d c).
Proof. unfold mp_init_blocks. msim. Qed.
#[export] Hint Resolve mp_init_blocks_sim : msim.
Lemma mp_resume_all_sim n a : msim (mp_resume_all n a) (mp_resume_all n a).
Proof. induction n; cbn [mp_resume_all]; msim. Qed.
#[export] Hint Resolve mp_resume_all_sim : msim.
Lemma mp_init_sim a n s z b : msim (rt_mp_init a n s z b) (rt_mp_init a n s z b).
Proof. unfold rt_mp_init. msim. Qed.
Lemma mp_detach_sim a : msim (rt_mp_detach a) (rt_mp_detach a).
Proof. unfold rt_mp_detach. msim. Qed.
Lemma mp_create_sim n c b p s : msim (rt_mp_create n c b p s) (rt_mp_create n c b p s).
Proof. unfold rt_mp_create. msim. Qed.
Lemma mp_delete_sim a : msim (rt_mp_delete a) (rt_mp_delete a).
Proof. unfold rt_mp_delete. msim. Qed.
Lemma mp_take_sim a p : msim (mp_take a p) (mp_take a p).
Proof. unfold mp_take. msim. Qed.
Lemma mp_wait_sim a t n p : msim (mp_wait a t n p) (mp_wait a t n p).
Proof. unfold mp_wait. msim. Qed.
#[export] Hint Resolve mp_init_sim mp_detach_sim mp_create_sim mp_delete_sim mp_take_sim mp_wait_sim : msim.
Lemma mp_alloc_loop_sim fuel a t n p : msim (mp_alloc_loop fuel a t n p) (mp_alloc_loop fuel a t n p).
Proof. revert n p. induction fuel; intros; cbn [mp_alloc_loop]; msim. Qed.
#[export] Hint Resolve mp_alloc_loop_sim : msim.
Lemma mp_alloc_sim a n : msim (rt_mp_alloc a n) (rt_mp_alloc a n).
Proof. unfold rt_mp_alloc. msim. Qed.
Lemma mp_alloc_resumed_sim a t n b : msim (rt_mp_alloc_resumed a t n b) (rt_mp_alloc_resumed a t n b).
Proof. unfold rt_mp_alloc_resumed. msim. Qed.
Lemma mp_free_sim a : msim (rt_mp_free a) (rt_mp_free a).
Proof. unfold rt_mp_free. msim. Qed.
#[export] Hint Resolve mp_alloc_sim mp_alloc_resumed_sim mp_free_sim : msim.

(** ** Completions and data queues *)

Lemma get_completion_sim a : msim (get_completion a) (get_completion a).
Proof. unfold get_completion. msim. Qed.
Lemma put_completion_sim a f : msim (put_completion a f) (put_completion a f).
Proof. unfold put_completion. msim. Qed.
#[export] Hint Resolve get_completion_sim put_completion_sim : msim.
Lemma completion_init_sim a : msim (rt_completion_init a) (rt_completion_init a).
Proof. unfold rt_completion_init. msim. Qed.
Lemma completion_resumed_sim a t : msim (rt_completion_wait_resumed a t) (rt_completion_wait_resumed a t).
Proof. unfold rt_completion_wait_resumed. msim. Qed.
#[export] Hint Resolve completion_init_sim completion_resumed_sim : msim.
Lemma completion_wait_sim a n : msim (rt_completion_wait a n) (rt_completion_wait a n).
Proof. unfold rt_completion_wait. msim. Qed.
Lemma completion_done_sim a : msim (rt_completion_done a) (rt_completion_done a).
Proof. unfold rt_completion_done. msim. Qed.
#[export] Hint Resolve completion_wait_sim completion_done_sim : msim.
Lemma get_dq_sim a : msim (get_dq a) (get_dq a).
Proof. unfold get_dq. msim. Qed.
Lemma put_dq_sim a d : msim (put_dq a d) (put_dq a d).
Proof. unfold put_dq. msim. Qed.
#[export] Hint Resolve get_dq_sim put_dq_sim : msim.
Lemma dq_init_sim a z l f m : msim (rt_data_queue_init a z l f m) (rt_data_queue_init a z l f m).
Proof. unfold rt_data_queue_init. msim. Qed.
Lemma dq_peak_sim a : msim (rt_data_queue_peak a) (rt_data_queue_peak a).
Proof. unfold rt_data_queue_peak. msim. Qed.
Lemma dq_reset_sim a : msim (rt_data_queue_reset a) (rt_data_queue_reset a).
Proof. unfold rt_data_queue_reset. msim. Qed.
Lemma dq_wait_sim q t n p : msim (dq_wait q t n p) (dq_wait q t n p).
Proof. unfold dq_wait. msim. Qed.
#[export] Hint Resolve dq_init_sim dq_peak_sim dq_reset_sim dq_wait_sim : msim.

Section notify.
Context (na : Z → Z → Z → K seq_lists unit) (np : Z → Z → Z → K ptr_lists unit).
Context (Hnotify : ∀ f q e, msim (na f q e) (np f q e)).

Lemma dq_notify_sim a e : msim (dq_notify na a e) (dq_notify np a e).
Proof using Hnotify. unfold dq_notify. msim. Qed.
Lemma dq_exit_sim a r e p i : msim (dq_exit na a r e p i) (dq_exit np a r e p i).
Proof using Hnotify. pose proof dq_notify_sim. unfold dq_exit. msim. Qed.
Lemma dq_put_sim a d z p : msim (dq_put na a d z p) (dq_put np a d z p).
Proof using Hnotify. pose proof dq_exit_sim. unfold dq_put. msim. Qed.
Lemma dq_take_sim a p : msim (dq_take na a p) (dq_take np a p).
Proof using Hnotify. pose proof dq_notify_sim. pose proof dq_exit_sim. unfold dq_take. msim. Qed.
Lemma dq_push_loop_sim fuel a d z t n p : msim (dq_push_loop na fuel a d z t n p) (dq_push_loop np fuel a d z t n p).
Proof using Hnotify.
  pose proof dq_exit_sim. pose proof dq_put_sim. revert p. induction fuel; intros; cbn [dq_push_loop]; msim.
Qed.
Lemma dq_pop_loop_sim fuel a t n p : msim (dq_pop_loop na fuel a t n p) (dq_pop_loop np fuel a t n p).
Proof using Hnotify.
  pose proof dq_exit_sim. pose proof dq_take_sim. revert p. induction fuel; intros; cbn [dq_pop_loop]; msim.
Qed.
Lemma dq_push_sim a d z n : msim (rt_data_queue_push na a d z n) (rt_data_queue_push np a d z n).
Proof using Hnotify. pose proof dq_push_loop_sim. unfold rt_data_queue_push. msim. Qed.
Lemma dq_push_resumed_sim a d z t n : msim (rt_data_queue_push_resumed na a d z t n) (rt_data_queue_push_resumed np a d z t n).
Proof using Hnotify. pose proof dq_exit_sim. pose proof dq_push_loop_sim. unfold rt_data_queue_push_resumed. msim. Qed.
Lemma dq_pop_sim a n : msim (rt_data_queue_pop na a n) (rt_data_queue_pop np a n).
Proof using Hnotify. pose proof dq_pop_loop_sim. unfold rt_data_queue_pop. msim. Qed.
Lemma dq_pop_resumed_sim a t n : msim (rt_data_queue_pop_resumed na a t n) (rt_data_queue_pop_resumed np a t n).
Proof using Hnotify. pose proof dq_exit_sim. pose proof dq_pop_loop_sim. unfold rt_data_queue_pop_resumed. msim. Qed.
End notify.

(** ** Clock and idle thread

    The application's functions are assumed to use the kernel through its
    interface, that is, to be themselves related. *)

Section application.
Context (ua : Z → Z → K seq_lists unit) (up : Z → Z → K ptr_lists unit).
Context (Huser : ∀ f p, msim (ua f p) (up f p)).

Lemma call_timeout_sim f : msim (call_timeout ua f) (call_timeout up f).
Proof using Huser. unfold call_timeout. msim. Qed.
Lemma tick_increase_sim : msim (rt_tick_increase ua) (rt_tick_increase up).
Proof using Huser.
  pose proof (timer_check_sim _ _ call_timeout_sim). unfold rt_tick_increase. msim.
Qed.
Lemma SysTick_sim : msim (SysTick_Handler ua) (SysTick_Handler up).
Proof using Huser. pose proof tick_increase_sim. unfold SysTick_Handler. msim. Qed.
End application.

Lemma has_defunct_sim : msim _has_defunct_thread _has_defunct_thread.
Proof. unfold _has_defunct_thread. msim. Qed.
#[export] Hint Resolve has_defunct_sim : msim.

Section cleanup.
Context (ca : Z → K seq_lists unit) (cp : Z → K ptr_lists unit).
Context (Hclean : ∀ t, msim (ca t) (cp t)).

Lemma idle_round_sim : msim (idle_round ca) (idle_round cp).
Proof using Hclean. unfold idle_round. msim. Qed.
Lemma idle_loop_sim fuel : msim (idle_loop ca fuel) (idle_loop cp fuel).
Proof using Hclean.
  pose proof idle_round_sim. induction fuel; cbn [idle_loop]; msim.
Qed.
Lemma idle_excute_sim : msim (rt_thread_idle_excute ca) (rt_thread_idle_excute cp).
Proof using Hclean. pose proof idle_loop_sim. unfold rt_thread_idle_excute. msim. Qed.
End cleanup.

Lemma idle_init_sim x t e s z : msim (rt_thread_idle_init x t e s z) (rt_thread_idle_init x t e s z).
Proof. unfold rt_thread_idle_init. msim. Qed.
#[export] Hint Resolve idle_init_sim : msim.

Lemma startup_sim aa ap x t e s z : msim aa ap →
  msim (rtthread_startup aa x t e s z) (rtthread_startup ap x t e s z).
Proof. intros. unfold rtthread_startup. msim. Qed.
