(* ===== verification/System.v ===== *)
(** * The system: histories of kernel calls

    The calls of the kernel's interface as data, so that a history is a list of
    calls and tick interrupts, and the refinement theorem: whatever history runs
    over sequences runs over the pointer lists of the C code with the same
    results. *)

From S2P Require Import Prelude DList ListStore KString KState Scheduler ObjectSys Timer ThreadSys Ipc MailBox MemPool DriverIpc Clock Idle KernelSim.

(** A call of the interface; [CxxxResumed] is the continuation of a call that
    waited, made when its thread runs again. *)
Inductive kcall : Type :=
| CSchedule
| CEnterCritical
| CExitCritical
| CCriticalLevel
| CInterruptEnter
| CInterruptLeave
| CObjectFind (name : list Z) (type : Z)
| CTickSet (tick : Z)
| CTimerInit (a : Z) (name : list Z) (f p time flag : Z)
| CTimerDetach (a : Z)
| CTimerCreate (name : list Z) (f p time flag ptr : Z)
| CTimerDelete (a : Z)
| CTimerStart (a : Z)
| CTimerStop (a : Z)
| CTimerControl (a cmd arg : Z)
| CTimerNext
| CThreadInit (t : Z) (old : rt_thread) (name : list Z) (entry parameter stack size priority tick : Z)
| CThreadCreate (old : rt_thread) (name : list Z) (entry parameter size priority tick ptr stack : Z)
| CThreadStartup (t : Z)
| CThreadExit
| CThreadDetach (t : Z)
| CThreadDelete (t : Z)
| CThreadYield
| CThreadSleep (tick : Z)
| CThreadSleepResumed (t : Z)
| CThreadControl (t cmd arg : Z)
| CThreadSuspend (t : Z)
| CThreadResume (t : Z)
| CThreadFind (name : list Z)
| CSemInit (a : Z) (name : list Z) (value flag : Z)
| CSemDetach (a : Z)
| CSemCreate (name : list Z) (value flag ptr : Z)
| CSemDelete (a : Z)
| CSemControl (a cmd arg : Z)
| CMutexInit (a : Z) (name : list Z) (flag : Z)
| CMutexDetach (a : Z)
| CMutexCreate (name : list Z) (flag ptr : Z)
| CMutexDelete (a : Z)
| CMutexControl (a cmd arg : Z)
| CEventInit (a : Z) (name : list Z) (flag : Z)
| CEventDetach (a : Z)
| CEventCreate (name : list Z) (flag ptr : Z)
| CEventDelete (a : Z)
| CEventControl (a cmd arg : Z)
| CSemTake (a time : Z)
| CSemTrytake (a : Z)
| CSemTakeResumed (t : Z)
| CSemRelease (a : Z)
| CMutexTake (a time : Z)
| CMutexTakeResumed (t : Z)
| CMutexRelease (a : Z)
| CEventSend (a set : Z)
| CEventRecv (a set option timeout : Z)
| CEventRecvResumed (t : Z)
| CMbInit (a : Z) (name pool : list Z) (size flag : Z)
| CMbDetach (a : Z)
| CMbCreate (name : list Z) (size flag ptr : Z) (pool : option (list Z))
| CMbDelete (a : Z)
| CMbSend (a value : Z)
| CMbSendWait (a value timeout : Z)
| CMbSendResumed (a value t timeout delta : Z)
| CMbRecv (a timeout : Z)
| CMbRecvResumed (a t timeout delta : Z)
| CMbControl (a cmd arg : Z)
| CMqInit (a : Z) (name : list Z) (pool msg_size pool_size flag : Z)
| CMqDetach (a : Z)
| CMqCreate (name : list Z) (msg_size max_msgs flag ptr pool : Z)
| CMqDelete (a : Z)
| CMqSend (a : Z) (buffer : list Z) (size : Z)
| CMqUrgent (a : Z) (buffer : list Z) (size : Z)
| CMqRecv (a size timeout : Z)
| CMqRecvResumed (a size t timeout delta : Z)
| CMqControl (a cmd arg : Z)
| CGetErrno
| CSetErrno (error : Z)
| CMpInit (a : Z) (name : list Z) (start size block_size : Z)
| CMpDetach (a : Z)
| CMpCreate (name : list Z) (count block_size ptr start : Z)
| CMpDelete (a : Z)
| CMpAlloc (a time : Z)
| CMpAllocResumed (a t time before : Z)
| CMpFree (block : Z)
| CCompletionInit (a : Z)
| CCompletionWait (a timeout : Z)
| CCompletionWaitResumed (a t : Z)
| CCompletionDone (a : Z).

(** A call of a data queue, which may call a function of the application. *)
Inductive dcall : Type :=
| DInit (a size lwm notify : Z) (mem : option (list (Z * Z)))
| DPush (a data size timeout : Z)
| DPushResumed (a data size t timeout : Z)
| DPop (a timeout : Z)
| DPopResumed (a t timeout : Z)
| DPeak (a : Z)
| DReset (a : Z).

Inductive value : Type :=
| VUnit | VInt (z : Z) | VPair (p : Z * Z) | VOutcome (o : outcome) | VObject (o : option obj_ref)
| VRecv (r : recv_outcome) | VEvent (r : Z * option Z) | VMail (r : mb_outcome)
| VMessage (r : mq_outcome) | VBlock (r : mp_outcome) | VData (r : dq_outcome).

(** The application: a timeout function, a cleanup function or the notify
    function of a data queue is a program of calls. *)
Record application : Type := Application {
  timeout_prog : Z → Z → list kcall;
  cleanup_prog : Z → list kcall;
  notify_prog : Z → Z → Z → list kcall;
}.

Section system.
Context {LS : Lists} (exit_addr : Z).

Definition run_call (c : kcall) : K LS value :=
  match c with
  | CSchedule => rt_schedule;; mret VUnit
  | CEnterCritical => rt_enter_critical;; mret VUnit
  | CExitCritical => rt_exit_critical;; mret VUnit
  | CCriticalLevel => r ← rt_critical_level; mret (VInt r)
  | CInterruptEnter => rt_interrupt_enter;; mret VUnit
  | CInterruptLeave => rt_interrupt_leave;; mret VUnit
  | CObjectFind name type => r ← rt_object_find name type; mret (VObject r)
  | CTickSet tick => rt_tick_set tick;; mret VUnit
  | CTimerInit a name f p time flag => rt_timer_init (UserTimer a) name (user_timeout f p) time flag;; mret VUnit
  | CTimerDetach a => r ← rt_timer_detach (UserTimer a); mret (VInt r)
  | CTimerCreate name f p time flag ptr => r ← rt_timer_create name (user_timeout f p) time flag ptr; mret (VInt r)
  | CTimerDelete a => r ← rt_timer_delete (UserTimer a); mret (VInt r)
  | CTimerStart a => r ← rt_timer_start (UserTimer a); mret (VInt r)
  | CTimerStop a => r ← rt_timer_stop (UserTimer a); mret (VInt r)
  | CTimerControl a cmd arg => r ← rt_timer_control (UserTimer a) cmd arg; mret (VPair r)
  | CTimerNext => r ← rt_timer_next_timeout_tick; mret (VInt r)
  | CThreadInit t old name entry parameter stack size priority tick => r ← rt_thread_init exit_addr t old name entry parameter stack size priority tick; mret (VInt r)
  | CThreadCreate old name entry parameter size priority tick ptr stack => r ← rt_thread_create exit_addr old name entry parameter size priority tick ptr stack; mret (VInt r)
  | CThreadStartup t => r ← rt_thread_startup t; mret (VInt r)
  | CThreadExit => rt_thread_exit;; mret VUnit
  | CThreadDetach t => r ← rt_thread_detach t; mret (VInt r)
  | CThreadDelete t => r ← rt_thread_delete t; mret (VInt r)
  | CThreadYield => r ← rt_thread_yield; mret (VInt r)
  | CThreadSleep tick => r ← rt_thread_sleep tick; mret (VOutcome r)
  | CThreadSleepResumed t => r ← rt_thread_sleep_resumed t; mret (VInt r)
  | CThreadControl t cmd arg => r ← rt_thread_control t cmd arg; mret (VInt r)
  | CThreadSuspend t => r ← rt_thread_suspend t; mret (VInt r)
  | CThreadResume t => r ← rt_thread_resume t; mret (VInt r)
  | CThreadFind name => r ← rt_thread_find name; mret (VInt r)
  | CSemInit a name value flag => r ← rt_sem_init a name value flag; mret (VInt r)
  | CSemDetach a => r ← rt_sem_detach a; mret (VInt r)
  | CSemCreate name value flag ptr => r ← rt_sem_create name value flag ptr; mret (VInt r)
  | CSemDelete a => r ← rt_sem_delete a; mret (VInt r)
  | CSemControl a cmd arg => r ← rt_sem_control a cmd arg; mret (VInt r)
  | CMutexInit a name flag => r ← rt_mutex_init a name flag; mret (VInt r)
  | CMutexDetach a => r ← rt_mutex_detach a; mret (VInt r)
  | CMutexCreate name flag ptr => r ← rt_mutex_create name flag ptr; mret (VInt r)
  | CMutexDelete a => r ← rt_mutex_delete a; mret (VInt r)
  | CMutexControl a cmd arg => r ← rt_mutex_control a cmd arg; mret (VInt r)
  | CEventInit a name flag => r ← rt_event_init a name flag; mret (VInt r)
  | CEventDetach a => r ← rt_event_detach a; mret (VInt r)
  | CEventCreate name flag ptr => r ← rt_event_create name flag ptr; mret (VInt r)
  | CEventDelete a => r ← rt_event_delete a; mret (VInt r)
  | CEventControl a cmd arg => r ← rt_event_control a cmd arg; mret (VInt r)
  | CSemTake a time => r ← rt_sem_take a time; mret (VOutcome r)
  | CSemTrytake a => r ← rt_sem_trytake a; mret (VOutcome r)
  | CSemTakeResumed t => r ← rt_sem_take_resumed t; mret (VInt r)
  | CSemRelease a => r ← rt_sem_release a; mret (VInt r)
  | CMutexTake a time => r ← rt_mutex_take a time; mret (VOutcome r)
  | CMutexTakeResumed t => r ← rt_mutex_take_resumed t; mret (VInt r)
  | CMutexRelease a => r ← rt_mutex_release a; mret (VInt r)
  | CEventSend a set => r ← rt_event_send a set; mret (VInt r)
  | CEventRecv a set option timeout => r ← rt_event_recv a set option timeout; mret (VRecv r)
  | CEventRecvResumed t => r ← rt_event_recv_resumed t; mret (VEvent r)
  | CMbInit a name pool size flag => r ← rt_mb_init a name pool size flag; mret (VInt r)
  | CMbDetach a => r ← rt_mb_detach a; mret (VInt r)
  | CMbCreate name size flag ptr pool => r ← rt_mb_create name size flag ptr pool; mret (VInt r)
  | CMbDelete a => r ← rt_mb_delete a; mret (VInt r)
  | CMbSend a value => r ← rt_mb_send a value; mret (VMail r)
  | CMbSendWait a value timeout => r ← rt_mb_send_wait a value timeout; mret (VMail r)
  | CMbSendResumed a value t timeout delta => r ← rt_mb_send_resumed a value t timeout delta; mret (VMail r)
  | CMbRecv a timeout => r ← rt_mb_recv a timeout; mret (VMail r)
  | CMbRecvResumed a t timeout delta => r ← rt_mb_recv_resumed a t timeout delta; mret (VMail r)
  | CMbControl a cmd arg => r ← rt_mb_control a cmd arg; mret (VInt r)
  | CMqInit a name pool msg_size pool_size flag => r ← rt_mq_init a name pool msg_size pool_size flag; mret (VInt r)
  | CMqDetach a => r ← rt_mq_detach a; mret (VInt r)
  | CMqCreate name msg_size max_msgs flag ptr pool => r ← rt_mq_create name msg_size max_msgs flag ptr pool; mret (VInt r)
  | CMqDelete a => r ← rt_mq_delete a; mret (VInt r)
  | CMqSend a buffer size => r ← rt_mq_send a buffer size; mret (VInt r)
  | CMqUrgent a buffer size => r ← rt_mq_urgent a buffer size; mret (VInt r)
  | CMqRecv a size timeout => r ← rt_mq_recv a size timeout; mret (VMessage r)
  | CMqRecvResumed a size t timeout delta => r ← rt_mq_recv_resumed a size t timeout delta; mret (VMessage r)
  | CMqControl a cmd arg => r ← rt_mq_control a cmd arg; mret (VInt r)
  | CGetErrno => r ← rt_get_errno; mret (VInt r)
  | CSetErrno error => rt_set_errno error;; mret VUnit
  | CMpInit a name start size block_size => r ← rt_mp_init a name start size block_size; mret (VInt r)
  | CMpDetach a => r ← rt_mp_detach a; mret (VInt r)
  | CMpCreate name count block_size ptr start => r ← rt_mp_create name count block_size ptr start; mret (VInt r)
  | CMpDelete a => r ← rt_mp_delete a; mret (VInt r)
  | CMpAlloc a time => r ← rt_mp_alloc a time; mret (VBlock r)
  | CMpAllocResumed a t time before => r ← rt_mp_alloc_resumed a t time before; mret (VBlock r)
  | CMpFree block => rt_mp_free block;; mret VUnit
  | CCompletionInit a => rt_completion_init a;; mret VUnit
  | CCompletionWait a timeout => r ← rt_completion_wait a timeout; mret (VOutcome r)
  | CCompletionWaitResumed a t => r ← rt_completion_wait_resumed a t; mret (VInt r)
  | CCompletionDone a => rt_completion_done a;; mret VUnit
  end.

Fixpoint run_calls (cs : list kcall) : K LS (list value) :=
  match cs with
  | [] => mret []
  | c :: cs => v ← run_call c; vs ← run_calls cs; mret (v :: vs)
  end.

Context (app : application).

Definition run_dcall (notify : Z → Z → Z → K LS unit) (c : dcall) : K LS value :=
  match c with
  | DInit a size lwm f mem => r ← rt_data_queue_init a size lwm f mem; mret (VInt r)
  | DPush a data size timeout => r ← rt_data_queue_push notify a data size timeout; mret (VData r)
  | DPushResumed a data size t timeout => r ← rt_data_queue_push_resumed notify a data size t timeout; mret (VData r)
  | DPop a timeout => r ← rt_data_queue_pop notify a timeout; mret (VData r)
  | DPopResumed a t timeout => r ← rt_data_queue_pop_resumed notify a t timeout; mret (VData r)
  | DPeak a => r ← rt_data_queue_peak a; mret (VData r)
  | DReset a => rt_data_queue_reset a;; mret VUnit
  end.

(** What happens to the system: a call of the running thread or of an interrupt
    handler, the tick interrupt, a round of the idle thread, or the start. *)
Inductive sys_event : Type :=
| Call (c : kcall)
| Driver (c : dcall)
| Tick
| IdleRound
| Startup (application_init : list kcall) (idle entry stack stack_size : Z).

Definition run_event (e : sys_event) : K LS (list value) :=
  match e with
  | Call c => v ← run_call c; mret [v]
  | Driver c => v ← run_dcall (λ f q e, run_calls (notify_prog app f q e);; mret tt) c; mret [v]
  | Tick => SysTick_Handler (λ f p, run_calls (timeout_prog app f p);; mret tt);; mret []
  | IdleRound => rt_thread_idle_excute (λ t, run_calls (cleanup_prog app t);; mret tt);; mret []
  | Startup init idle entry stack size =>
      rtthread_startup (run_calls init;; mret tt) exit_addr idle entry stack size;; mret []
  end.

Fixpoint run_system (es : list sys_event) : K LS (list value) :=
  match es with
  | [] => mret []
  | e :: es => v ← run_event e; vs ← run_system es; mret (v ++ vs)
  end.

End system.

(** ** Refinement *)

Lemma run_call_sim x c : msim (run_call x c) (run_call x c).
Proof. destruct c; cbn [run_call]; unfold rt_sem_trytake, rt_mb_send, rt_mutex_control, rt_timer_next_timeout_tick, rt_tick_set; msim. Qed.

Lemma run_calls_sim x cs : msim (run_calls x cs) (run_calls x cs).
Proof.
  pose proof run_call_sim. induction cs; cbn [run_calls]; msim.
Qed.

Lemma run_dcall_sim na np c : (∀ f q e, msim (na f q e) (np f q e)) →
  msim (run_dcall na c) (run_dcall np c).
Proof.
  intros H. pose proof (dq_push_sim na np H). pose proof (dq_push_resumed_sim na np H).
  pose proof (dq_pop_sim na np H). pose proof (dq_pop_resumed_sim na np H).
  destruct c; cbn [run_dcall]; msim.
Qed.

Lemma run_event_sim x app e : msim (run_event x app e) (run_event x app e).
Proof.
  pose proof run_call_sim. pose proof run_calls_sim.
  destruct e as [|d| | |]; cbn [run_event]; (apply msim_bind; [|msim]).
  - msim.
  - apply run_dcall_sim. msim.
  - apply SysTick_sim. msim.
  - apply idle_excute_sim. msim.
  - apply startup_sim. msim.
Qed.

(** The kernel after reset: every variable is zero and nothing initialised. *)
Definition reset_kernel (LS : Lists) (ts : TS) (tms : TMS) (os : OS) : kernel LS :=
  Kernel ∅ ∅ ∅ ∅ ∅ ∅ ∅ ∅ ∅ ∅ ∅ ∅ ts tms os 0 0 0 0 0 0 0 0.
Definition reset_seq : kernel seq_lists := reset_kernel seq_lists (Seqs ∅ ∅) (Seqs ∅ ∅) (Seqs ∅ ∅).
Definition reset_ptr : kernel ptr_lists := reset_kernel ptr_lists lh_empty lh_empty lh_empty.

Lemma reset_sim : ksim reset_seq reset_ptr.
Proof. split; try done; apply list_sim_empty. Qed.

Lemma run_system_sim x app es : msim (run_system x app es) (run_system x app es).
Proof. pose proof run_event_sim. induction es; cbn [run_system]; msim. Qed.

(** Whatever the application, and whatever the history of calls and
    interrupts from reset on: if it runs over sequences without a halt, the code
    over the circular [rt_list_t] pointers runs it with the same results, and the
    pointers of the final state form exactly the sequences of the other. *)
Theorem kernel_refines_sequences exit_addr app es vs k :
  run_system (LS:=seq_lists) exit_addr app es reset_seq = Ok vs k →
  ∃ kp, run_system (LS:=ptr_lists) exit_addr app es reset_ptr = Ok vs kp ∧
        ksim k kp.
Proof.
  intros E. pose proof (run_system_sim exit_addr app es _ _ reset_sim) as Hs.
  by rewrite E in Hs.
Qed.

(** ** A small application

    Two threads of priority 5 and one of priority 10, a semaphore, a mutex, an
    event, a mailbox, a message queue and a periodic timer; its states are the
    instances on which the theorems are tried. *)

Definition blank_thread : rt_thread := Thread 0 0 0 0 0 0 0 0 0 0 0 0 0 0 false 0.
Definition exit_address : Z := 0x08001000.
Definition thread_a : Z := 0x20001000.
Definition thread_b : Z := 0x20001100.
Definition thread_c : Z := 0x20001200.
Definition thread_idle : Z := 0x20000100.
Definition the_sem : Z := 0x20005000.
Definition the_mutex : Z := 0x20005100.
Definition the_event : Z := 0x20005200.
Definition the_mailbox : Z := 0x20005300.
Definition the_queue : Z := 0x20005400.
Definition the_timer : Z := 0x20005500.

Definition demo_thread (t name stack priority : Z) : list kcall :=
  [CThreadInit t blank_thread [name; 0] 0x08002000 0 stack 512 priority 10; CThreadStartup t].

Definition demo_init : list kcall :=
  demo_thread thread_a 97 0x20002000 5 ++ demo_thread thread_b 98 0x20003000 5 ++
  demo_thread thread_c 99 0x20004000 10 ++
  [CSemInit the_sem [115; 0] 0 0; CMutexInit the_mutex [109; 0] 1; CEventInit the_event [101; 0] 0;
   CMbInit the_mailbox [98; 0] [0; 0] 2 0; CMqInit the_queue [113; 0] 0x20006000 4 24 0;
   CTimerInit the_timer [116; 0] 1 0 7 2; CTimerStart the_timer].

Definition demo_start : sys_event := Startup demo_init thread_idle 0x08003000 0x20000200 256.

(** Its functions do nothing. *)
Definition demo_app : application := Application (λ _ _, []) (λ _, []) (λ _ _ _, []).

(** The state after a history of the application. *)
Definition demo (es : list sys_event) : kernel seq_lists :=
  match run_system exit_address demo_app (demo_start :: es) reset_seq with
  | Ok _ k => k
  | Halt _ => reset_seq
  end.

(** Some history: sleeping, waiting with a time limit, waking, priority
    inheritance, mail, messages, and ten ticks. *)
Definition demo_events : list sys_event :=
  [Call (CThreadSleep 3); Call (CMutexTake the_mutex 0); Call (CMutexTake the_mutex 10);
   Call (CSemTake the_sem 2); Tick; Tick; Tick; Call (CThreadSleepResumed thread_a);
   Call (CMbSend the_mailbox 7); Call (CMbRecv the_mailbox 0); Call (CMqSend the_queue [1; 2; 3; 4] 4);
   Call (CMqRecv the_queue 4 0); Call (CEventSend the_event 5); Call (CEventRecv the_event 4 2 0);
   Call (CSemRelease the_sem); Call (CSemTrytake the_sem); Call (CMutexTake the_mutex 10);
   Tick; Tick; Tick; Tick; Tick; Tick; Tick].

Definition demo_values : list value :=
  [VOutcome Waits; VOutcome (Returns 0); VOutcome (Returns 0); VOutcome Waits; VInt 0;
   VMail (MbReturns 0 None); VMail (MbReturns 0 (Some 7)); VInt 0;
   VMessage (MqReturns 0 (Some [1; 2; 3; 4])); VInt 0; VRecv (Received 0 (Some 4)); VInt 0;
   VOutcome (Returns 0); VOutcome (Returns 0)].

Definition results {S A} (r : res S A) : option A :=
  match r with Ok a _ => Some a | Halt _ => None end.

Lemma results_Some {S A} (r : res S A) a : results r = Some a → ∃ s, r = Ok a s.
Proof. destruct r as [a' s|]; simpl; [|done]. intros [= ->]. by exists s. Qed.

Lemma kernel_refines_sequences_witness :
  ∃ kp, run_system (LS:=ptr_lists) exit_address demo_app (demo_start :: demo_events)
          reset_ptr = Ok demo_values kp.
Proof.
  destruct (results_Some (run_system (LS:=seq_lists) exit_address demo_app
    (demo_start :: demo_events) reset_seq) demo_values) as (k&E); [vm_compute; reflexivity|].
  destruct (kernel_refines_sequences exit_address demo_app (demo_start :: demo_events)
    demo_values k E) as (kp&Hp&_).
  exists kp. exact Hp.
Defined.
