(* ===== verification/KernelWp.v ===== *)
(** * Reasoning about the kernel's code

    [wp m k Q]: run from [k], [m] does not halt and ends in a result and a
    kernel that satisfy [Q].  This is total correctness: a program that fails
    an assertion, follows a bad pointer or runs out of fuel has no [wp]. *)

From S2P Require Import Prelude DList ListStore KString KState.

Abbreviation kern := (kernel seq_lists).
Abbreviation M := (K seq_lists).

Definition wp {A} (m : M A) (k : kern) (Q : A → kern → Prop) : Prop :=
  match m k with Ok a k' => Q a k' | Halt _ => False end.

Section rules.
Context {A B : Type}.
Implicit Types (k : kern).

Lemma wp_bind (m : M A) (f : A → M B) k Q :
  wp m k (λ a k', wp (f a) k' Q) → wp (m ≫= f) k Q.
Proof. unfold wp, mbind, K_bind. by destruct (m k). Qed.

Lemma wp_ret (a : A) k (Q : A → kern → Prop) : Q a k → wp (mret a) k Q.
Proof. done. Qed.

Lemma wp_mono (m : M A) k (Q Q' : A → kern → Prop) :
  wp m k Q → (∀ a k', Q a k' → Q' a k') → wp m k Q'.
Proof. unfold wp. destruct (m k); [auto|done]. Qed.

Lemma wp_eq (m : M A) k a k' (Q : A → kern → Prop) : m k = Ok a k' → Q a k' → wp m k Q.
Proof. unfold wp. by intros ->. Qed.

(** A [wp] names the result of the run. *)
Lemma wp_run (m : M A) k Q : wp m k Q → ∃ a k', m k = Ok a k' ∧ Q a k'.
Proof. unfold wp. destruct (m k) as [a k'|]; [|done]. by exists a, k'. Qed.

Lemma wp_returns (m : M A) k (a : A) (P : kern → Prop) :
  wp m k (λ r k', r = a ∧ P k') → ∃ k', m k = Ok a k' ∧ P k'.
Proof. intros (r&k'&E&->&HP)%wp_run. eauto. Qed.

Lemma wp_gets (f : kern → A) k (Q : A → kern → Prop) : Q (f k) k → wp (gets f) k Q.
Proof. done. Qed.

Lemma wp_kopt (f : kern → option A) k a (Q : A → kern → Prop) :
  f k = Some a → Q a k → wp (kopt f) k Q.
Proof. unfold wp, kopt. by intros ->. Qed.

End rules.

Section rules.
Implicit Types (k : kern) (Q : unit → kern → Prop).

Lemma wp_kset f k Q : Q tt (f k) → wp (kset f) k Q.
Proof. done. Qed.

Lemma wp_assert b k Q : b = true → Q tt k → wp (RT_ASSERT b) k Q.
Proof. by intros ->. Qed.

Lemma wp_get_thread t th k (Q : rt_thread → kern → Prop) :
  threads k !! t = Some th → Q th k → wp (get_thread t) k Q.
Proof. apply (wp_kopt (λ k, threads k !! t)). Qed.

Lemma wp_mod_thread t f th k Q : threads k !! t = Some th →
  Q tt (set_threads (<[t := f th]> (threads k)) k) → wp (mod_thread t f) k Q.
Proof. intros Ht HQ. unfold mod_thread. apply wp_bind. by eapply wp_get_thread. Qed.

Lemma wp_get_timer r tm k (Q : rt_timer → kern → Prop) :
  timers k !! r = Some tm → Q tm k → wp (get_timer r) k Q.
Proof. apply (wp_kopt (λ k, timers k !! r)). Qed.

Lemma wp_mod_timer r f tm k Q : timers k !! r = Some tm →
  Q tt (set_timers (<[r := f tm]> (timers k)) k) → wp (mod_timer r f) k Q.
Proof. intros Ht HQ. unfold mod_timer. apply wp_bind. by eapply wp_get_timer. Qed.

Lemma wp_get_object o ob k (Q : rt_object → kern → Prop) :
  objects k !! o = Some ob → Q ob k → wp (get_object o) k Q.
Proof. apply (wp_kopt (λ k, objects k !! o)). Qed.

Lemma wp_on_threads (f : seqs thread_queue Z → option (seqs thread_queue Z)) s k Q :
  f (thread_lists k) = Some s → Q tt (set_thread_lists (LS:=seq_lists) s k) →
  wp (on_threads (LS:=seq_lists) f) k Q.
Proof. intros Hf HQ. apply wp_bind. by eapply wp_kopt. Qed.

Lemma wp_on_timers (f : seqs unit timer_ref → option (seqs unit timer_ref)) s k Q :
  f (timer_list k) = Some s → Q tt (set_timer_list (LS:=seq_lists) s k) →
  wp (on_timers (LS:=seq_lists) f) k Q.
Proof. intros Hf HQ. apply wp_bind. by eapply wp_kopt. Qed.

Lemma wp_on_objects (f : seqs Z obj_ref → option (seqs Z obj_ref)) s k Q :
  f (object_lists k) = Some s → Q tt (set_object_lists (LS:=seq_lists) s k) →
  wp (on_objects (LS:=seq_lists) f) k Q.
Proof. intros Hf HQ. apply wp_bind. by eapply wp_kopt. Qed.

Lemma wp_disable k (Q : Z → kern → Prop) :
  Q (primask k) (set_primask 1 k) → wp rt_hw_interrupt_disable k Q.
Proof. done. Qed.

Lemma wp_enable l k Q : Q tt (set_primask l k) → wp (rt_hw_interrupt_enable l) k Q.
Proof. done. Qed.

(** Saving and restoring the interrupt mask leaves the kernel as it was. *)
Lemma set_primask_same k : set_primask (primask k) k = k.
Proof. by destruct k. Qed.

Lemma wp_not_in_interrupt k Q :
  rt_interrupt_nest k = 0 → Q tt k → wp RT_DEBUG_NOT_IN_INTERRUPT k Q.
Proof.
  intros Hn HQ. unfold wp, RT_DEBUG_NOT_IN_INTERRUPT, mbind, K_bind. simpl. rewrite Hn. simpl.
  replace (set_primask (primask k) (set_primask 1 k)) with k by (by destruct k). done.
Qed.

Lemma wp_in_thread_context k Q :
  rt_interrupt_nest k = 0 → rt_current_thread k ≠ RT_NULL → Q tt k →
  wp RT_DEBUG_IN_THREAD_CONTEXT k Q.
Proof.
  intros Hn Hc HQ. unfold RT_DEBUG_IN_THREAD_CONTEXT.
  apply wp_bind, wp_disable, wp_bind, wp_gets, wp_bind, wp_assert.
  { by apply bool_decide_true. }
  apply wp_bind, wp_not_in_interrupt; [done|]. apply wp_enable.
  replace (set_primask (primask k) (set_primask 1 k)) with k by (by destruct k). done.
Qed.

End rules.

(** One step of a program: the rule for its first operation.  Reads leave the
    value to find to [eauto], a subprogram is left to its own lemma. *)
Ltac wp_step :=
  match goal with
  | |- wp (mbind _ _) _ _ => apply wp_bind
  | |- wp (mret _) _ _ => apply wp_ret
  | |- wp (gets _) _ _ => apply wp_gets
  | |- wp (thread_of (El _)) _ _ => apply wp_ret
  | |- wp (timer_of (El _)) _ _ => apply wp_ret
  | |- wp (kset _) _ _ => apply wp_kset
  | |- wp (RT_ASSERT _) _ _ => apply wp_assert; [apply bool_decide_true; done|]
  | |- wp (RT_ASSERT (negb (_ (_ (ThreadTimer _))))) _ _ => apply wp_assert; [done|]
  | |- wp (get_thread _) _ _ => eapply wp_get_thread; [eassumption|]
  | |- wp (mod_thread _ _) _ _ => eapply wp_mod_thread; [eassumption|]
  | |- wp (get_timer _) _ _ => eapply wp_get_timer; [eassumption|]
  | |- wp (mod_timer _ _) _ _ => eapply wp_mod_timer; [eassumption|]
  | |- wp rt_hw_interrupt_disable _ _ => apply wp_disable
  | |- wp (rt_hw_interrupt_enable _) _ _ => apply wp_enable
  end.

Ltac wps := repeat (cbv zeta beta; wp_step).
