(* ===== verification/SeqLemmas.v ===== *)
(** * The sequence store: what its operations return

    Each operation of [seqs] under its precondition, as the new assignment of
    elements to lists. *)

From S2P Require Import Prelude DList ListStore.

Section seqs.
Context {HD EL : Type} `{Countable HD, Countable EL}.
Implicit Types (s : seqs HD EL) (x y : HD) (e : EL) (L : HD → list EL).

(** [s'] is a well-formed store with the lists [L] and everything initialised
    that [s] had initialised. *)
Record becomes s s' L : Prop := {
  bc_swf : swf s';
  bc_lof y : lof s' y = L y;
  bc_elems e : e ∈ s_elems s → e ∈ s_elems s';
  bc_heads y : is_Some (s_lists s !! y) → is_Some (s_lists s' !! y);
}.

Lemma becomes_put s x l1 e l2 : swf s → is_Some (s_lists s !! x) →
  detached (lof s) e → lof s x = l1 ++ l2 →
  becomes s (s_put x e (l1 ++ e :: l2) s) (<[x := l1 ++ e :: l2]> (lof s)).
Proof.
  intros Hwf Hx Hdet E.
  assert (∀ y, lof (s_put x e (l1 ++ e :: l2) s) y = <[x := l1 ++ e :: l2]> (lof s) y) as Hlof.
  { intros y. unfold lof at 1, s_put; simpl. destruct (decide (x = y)) as [->|].
    - by rewrite lookup_insert_eq, fn_lookup_insert.
    - by rewrite lookup_insert_ne, fn_lookup_insert_ne by done. }
  assert (∀ y e', e' ∈ <[x := l1 ++ e :: l2]> (lof s) y ↔ e' ∈ lof s y ∨ (e' = e ∧ y = x)) as Hin.
  { intros y e'. destruct (decide (x = y)) as [<-|].
    - rewrite fn_lookup_insert, E. set_solver.
    - rewrite fn_lookup_insert_ne by done. set_solver. }
  split; [|done| |].
  - split.
    + intros y e'. rewrite Hlof, Hin. simpl. intros [?%(swf_elems _ Hwf)|[-> ->]]; set_solver.
    + intros y. rewrite Hlof. destruct (decide (x = y)) as [<-|].
      * rewrite fn_lookup_insert. pose proof (swf_nodup _ Hwf x) as Hnd. rewrite E in Hnd.
        rewrite <-Permutation_middle. apply NoDup_cons. split; [|done]. rewrite <-E. apply Hdet.
      * rewrite fn_lookup_insert_ne by done. apply Hwf.
    + intros y z e'. rewrite !Hlof, !Hin. intros [?|[-> ->]] [?|[? ->]]; subst.
      * by eapply swf_disjoint.
      * by destruct (Hdet y).
      * by destruct (Hdet z).
      * done.
  - intros e' ?. simpl. set_solver.
  - intros y Hy. simpl. apply lookup_insert_is_Some'. auto.
Qed.

Lemma s_append_spec s x e : swf s → is_Some (s_lists s !! x) → detached (lof s) e →
  ∃ s', s_insert_before (Hd x) (El e) s = Some s' ∧ becomes s s' (<[x := lof s x ++ [e]]> (lof s)).
Proof.
  intros Hwf [l Hl] Hdet. simpl. rewrite (proj2 (s_find_None _ _ Hwf) Hdet), Hl. simpl.
  eexists; split; [done|]. rewrite <-(lof_lookup _ _ _ Hl).
  apply becomes_put; [done|by rewrite Hl|done|]. by rewrite app_nil_r.
Qed.

Lemma s_prepend_spec s x e : swf s → is_Some (s_lists s !! x) → detached (lof s) e →
  ∃ s', s_insert_after (Hd x) (El e) s = Some s' ∧ becomes s s' (<[x := e :: lof s x]> (lof s)).
Proof.
  intros Hwf [l Hl] Hdet. simpl. rewrite (proj2 (s_find_None _ _ Hwf) Hdet), Hl. simpl.
  eexists; split; [done|]. rewrite <-(lof_lookup _ _ _ Hl).
  by apply (becomes_put s x [] e (lof s x)).
Qed.

(** The node at which a list splits into [l1] and [l2]. *)
Lemma s_find_in s x e : swf s → e ∈ lof s x → s_find e s = Some x.
Proof. intros Hwf. by apply s_find_Some. Qed.

Lemma split_at_lof s x a l1 l2 : swf s → lof s x = l1 ++ a :: l2 →
  s_find a s = Some x ∧ split_at a (lof s x) = Some (l1, l2).
Proof.
  intros Hwf E. split; [apply s_find_in; [done|rewrite E; set_solver]|].
  rewrite E. apply split_at_app. pose proof (swf_nodup _ Hwf x) as Hnd. rewrite E in Hnd.
  apply NoDup_app in Hnd as (_&Hd&_). intros ?. apply (Hd a); set_solver.
Qed.

Lemma s_insert_before_spec s x e l1 a l2 : swf s → lof s x = l1 ++ a :: l2 →
  detached (lof s) e →
  ∃ s', s_insert_before (El a) (El e) s = Some s' ∧
        becomes s s' (<[x := l1 ++ e :: a :: l2]> (lof s)).
Proof.
  intros Hwf E Hdet. simpl. rewrite (proj2 (s_find_None _ _ Hwf) Hdet).
  destruct (split_at_lof _ _ _ _ _ Hwf E) as [-> Hsp]. simpl. rewrite Hsp. simpl.
  eexists; split; [done|]. apply (becomes_put s x l1 e (a :: l2)); [done| |done..].
  rewrite (lof_elem_lookup s x a); [done|]. rewrite E. set_solver.
Qed.

Lemma s_insert_after_spec s x e l1 a l2 : swf s → lof s x = l1 ++ a :: l2 →
  detached (lof s) e →
  ∃ s', s_insert_after (El a) (El e) s = Some s' ∧
        becomes s s' (<[x := l1 ++ a :: e :: l2]> (lof s)).
Proof.
  intros Hwf E Hdet. simpl. rewrite (proj2 (s_find_None _ _ Hwf) Hdet).
  destruct (split_at_lof _ _ _ _ _ Hwf E) as [-> Hsp]. simpl. rewrite Hsp. simpl.
  eexists; split; [done|].
  replace (l1 ++ a :: e :: l2) with ((l1 ++ [a]) ++ e :: l2) by (by rewrite <-(assoc_L (++))).
  apply becomes_put; [done| |done|by rewrite <-(assoc_L (++))].
  rewrite (lof_elem_lookup s x a); [done|]. rewrite E. set_solver.
Qed.

Lemma s_remove_spec s e : swf s → e ∈ s_elems s →
  ∃ s', s_remove (El e) s = Some s' ∧ becomes s s' (list_del e (lof s)).
Proof.
  intros Hwf He. simpl. rewrite decide_True by done.
  destruct (s_find e s) as [x|] eqn:Hf.
  - pose proof (proj1 (s_find_Some _ _ _ Hwf) Hf) as Hx.
    apply list_elem_of_split in Hx as (l1&l2&E).
    destruct (split_at_lof _ _ _ _ _ Hwf E) as [_ Hsp]. rewrite Hsp. simpl.
    eexists; split; [done|]. pose proof (swf_nodup _ Hwf x) as Hnd. rewrite E in Hnd.
    apply NoDup_app in Hnd as (H1&H2&[Hel2 H3]%NoDup_cons).
    assert (e ∉ l1) as Hel1 by (intros ?; apply (H2 e); set_solver).
    assert (∀ y, lof (Seqs (<[x:=l1 ++ l2]> (s_lists s)) (s_elems s)) y = list_del e (lof s) y) as Hlof.
    { intros y. unfold lof at 1; simpl. destruct (decide (x = y)) as [->|Hxy].
      - rewrite lookup_insert_eq. simpl. by rewrite (list_del_split _ _ _ l1 l2).
      - rewrite lookup_insert_ne by done. fold (lof s y). rewrite list_del_id; [done|].
        intros Hy. apply Hxy. apply (swf_disjoint _ Hwf x y e); [|done]. rewrite E. set_solver. }
    split; [split| done|done|].
    + intros y e'. rewrite Hlof, elem_of_list_del. simpl. intros [_ ?]. by eapply swf_elems.
    + intros y. rewrite Hlof. apply NoDup_filter, Hwf.
    + intros y z e'. rewrite !Hlof, !elem_of_list_del. intros [_ ?] [_ ?]. by eapply swf_disjoint.
    + intros y Hy. simpl. apply lookup_insert_is_Some'. auto.
  - exists s. split; [done|]. apply s_find_None in Hf; [|done].
    split; [done| |done|done]. intros y. by rewrite list_del_id.
Qed.

Lemma s_init_elem_spec s e : swf s → detached (lof s) e →
  ∃ s', s_init (El e) s = Some s' ∧ becomes s s' (lof s) ∧ e ∈ s_elems s'.
Proof.
  intros Hwf Hdet. simpl. rewrite (proj2 (s_find_None _ _ Hwf) Hdet).
  eexists; split; [done|]. split; [|simpl; set_solver]. split; [split|done| |done].
  - intros y e' ?%(swf_elems _ Hwf). simpl. set_solver.
  - apply Hwf.
  - apply Hwf.
  - intros e' ?. simpl. set_solver.
Qed.

Lemma s_init_head_spec s x : swf s → lof s x = [] →
  ∃ s', s_init (Hd x) s = Some s' ∧ becomes s s' (lof s) ∧ is_Some (s_lists s' !! x).
Proof.
  intros Hwf E. simpl. rewrite decide_True by done. eexists; split; [done|].
  assert (∀ y, lof (Seqs (<[x:=[]]> (s_lists s)) (s_elems s)) y = lof s y) as Hlof.
  { intros y. unfold lof at 1; simpl. destruct (decide (x = y)) as [->|].
    - by rewrite lookup_insert_eq, E.
    - by rewrite lookup_insert_ne. }
  split; [|simpl; by rewrite lookup_insert_eq]. split; [split|done|done|].
  - intros y e'. rewrite Hlof. apply Hwf.
  - intros y. rewrite Hlof. apply Hwf.
  - intros y z e'. rewrite !Hlof. apply Hwf.
  - intros y Hy. simpl. apply lookup_insert_is_Some'. auto.
Qed.

Lemma s_isempty_spec s x : is_Some (s_lists s !! x) →
  s_isempty (Hd x) s = Some (bool_decide (lof s x = [])).
Proof. intros [l Hl]. simpl. rewrite Hl. simpl. by rewrite (lof_lookup _ _ _ Hl). Qed.

Lemma s_next_head s x : is_Some (s_lists s !! x) →
  s_next (Hd x) s = Some (default (Hd x) (El <$> head (lof s x))).
Proof. intros [l Hl]. simpl. rewrite Hl. simpl. by rewrite (lof_lookup _ _ _ Hl). Qed.

Lemma s_prev_head s x : is_Some (s_lists s !! x) →
  s_prev (Hd x) s = Some (default (Hd x) (El <$> last (lof s x))).
Proof. intros [l Hl]. simpl. rewrite Hl. simpl. by rewrite (lof_lookup _ _ _ Hl). Qed.

Lemma s_next_elem s x l1 a l2 : swf s → lof s x = l1 ++ a :: l2 →
  s_next (El a) s = Some (default (Hd x) (El <$> head l2)).
Proof.
  intros Hwf E. simpl. destruct (split_at_lof _ _ _ _ _ Hwf E) as [-> Hsp]. by rewrite Hsp.
Qed.

Lemma s_prev_elem s x l1 a l2 : swf s → lof s x = l1 ++ a :: l2 →
  s_prev (El a) s = Some (default (Hd x) (El <$> last l1)).
Proof.
  intros Hwf E. simpl. destruct (split_at_lof _ _ _ _ _ Hwf E) as [-> Hsp]. by rewrite Hsp.
Qed.

Lemma becomes_trans s1 s2 s3 L2 L3 : becomes s1 s2 L2 → becomes s2 s3 L3 → becomes s1 s3 L3.
Proof.
  intros [?? He1 Hh1] [?? He2 Hh2]. split; [done|done|auto|auto].
Qed.

Lemma becomes_ext s s' L L' : (∀ y, L y = L' y) → becomes s s' L → becomes s s' L'.
Proof. intros E [???]. split; [done| |done|done]. intros y. by rewrite <-E. Qed.

(** At most one list holds an element: removal elsewhere changes nothing. *)
Lemma list_del_other s e x y : swf s → e ∈ lof s x → y ≠ x → list_del e (lof s) y = lof s y.
Proof.
  intros Hwf He Hy. apply list_del_id. intros He'. apply Hy. by eapply swf_disjoint.
Qed.

Lemma list_del_head s e x l : swf s → lof s x = e :: l → list_del e (lof s) x = l.
Proof.
  intros Hwf E. pose proof (swf_nodup _ Hwf x) as Hnd. rewrite E in Hnd.
  apply NoDup_cons in Hnd as [Hn _]. apply (list_del_split e _ x [] l);
    [done|apply not_elem_of_nil|done].
Qed.

End seqs.

#[global] Arguments s_remove : simpl never.
#[global] Arguments s_insert_before : simpl never.
#[global] Arguments s_insert_after : simpl never.
#[global] Arguments s_init : simpl never.
#[global] Arguments s_isempty : simpl never.
#[global] Arguments s_next : simpl never.
#[global] Arguments s_prev : simpl never.
