(* ===== verification/KernelInv.v ===== *)
(** * The invariant of the kernel

    What holds between the thread structures, the thread queues, the ready
    bitmap and the timer list whenever no kernel function is running, in terms
    of the sequences the queues hold. *)

From S2P Require Import Prelude DList ListStore SeqLemmas KString KState KernelWp.

(** ** Threads and queues *)

(** The queue a thread may be in, by its state. *)
Definition queue_ok (q : thread_queue) (th : rt_thread) : Prop :=
  match q with
  | QReady p => th_stat th = RT_THREAD_READY ∧ p = th_current_priority th
  | QDefunct => th_stat th = RT_THREAD_CLOSE
  | QSuspend _ | QSender _ | QCompletion _ | QPush _ | QPop _ => th_stat th = RT_THREAD_SUSPEND
  end.

(** The saved stack pointer is inside the thread's stack. *)
Definition stack_ok (th : rt_thread) : Prop :=
  th_stack_addr th < th_sp th <= u32 (th_stack_addr th + th_stack_size th).

Record thread_wf (t : Z) (th : rt_thread) : Prop := {
  tw_null : t ≠ RT_NULL;
  tw_priority : 0 <= th_current_priority th < RT_THREAD_PRIORITY_MAX;
  tw_init_priority : 0 <= th_init_priority th < RT_THREAD_PRIORITY_MAX;
  tw_mask : th_stat th ≠ RT_THREAD_INIT → th_number_mask th = 2 ^ th_current_priority th;
  tw_stack : stack_ok th;
}.

Abbreviation queues := (thread_queue → list Z).

Record tinv (L : queues) (ths : gmap Z rt_thread) : Prop := {
  ti_queue q t : t ∈ L q → ∃ th, ths !! t = Some th ∧ queue_ok q th;
  ti_ready t th : ths !! t = Some th → th_stat th = RT_THREAD_READY →
    t ∈ L (QReady (th_current_priority th));
  ti_wf t th : ths !! t = Some th → thread_wf t th;
}.

(** The bitmap has a bit for every priority with a ready thread. *)
Definition ginv (g : Z) (L : queues) : Prop :=
  in_u32 g ∧
  ∀ p, 0 <= p < RT_THREAD_PRIORITY_MAX → Z.testbit g p = bool_decide (L (QReady p) ≠ []).

(** The store behind the queues. *)
Record sinv (S : seqs thread_queue Z) (ths : gmap Z rt_thread) : Prop := {
  si_swf : swf S;
  si_elem t : is_Some (ths !! t) → t ∈ s_elems S;
  si_ready p : 0 <= p < RT_THREAD_PRIORITY_MAX → is_Some (s_lists S !! QReady p);
  si_defunct : is_Some (s_lists S !! QDefunct);
}.

(** ** Timers *)

(** Ticks until the timeout, negative when it has passed: the difference of
    two 32-bit counters. *)
Definition remaining (now : Z) (tm : rt_timer) : Z := s32 (tm_timeout_tick tm - now).

Definition remaining_of (now : Z) (tms : gmap timer_ref rt_timer) (r : timer_ref) : Z :=
  match tms !! r with Some tm => remaining now tm | None => 0 end.

Definition active (tm : rt_timer) : Prop := Z.land (tm_flag tm) RT_TIMER_FLAG_ACTIVATED ≠ 0.

(** The longest time a timer can be set to, [RT_TICK_MAX / 2 - 1]. *)
Definition max_time : Z := 2 ^ 31 - 2.

(** The timer list [l] at tick [now], when no timeout is more than [- lo] ticks
    ago. *)
Record minv (lo now : Z) (l : list timer_ref) (tms : gmap timer_ref rt_timer)
    (ths : gmap Z rt_thread) : Prop := {
  mi_range r : r ∈ l → ∃ tm, tms !! r = Some tm ∧ lo <= remaining now tm <= max_time;
  mi_sorted : StronglySorted Z.le (remaining_of now tms <$> l);
  mi_active t : ThreadTimer t ∈ l →
    ∃ tm th, tms !! ThreadTimer t = Some tm ∧ active tm ∧
             ths !! t = Some th ∧ th_stat th = RT_THREAD_SUSPEND;
  mi_own t th : ths !! t = Some th →
    ∃ tm, tms !! ThreadTimer t = Some tm ∧ tm_timeout_func tm = thread_timeout t ∧
          Z.land (tm_flag tm) RT_TIMER_FLAG_PERIODIC = 0;
  mi_fields r tm : tms !! r = Some tm → in_u32 (tm_init_tick tm) ∧ in_u32 (tm_timeout_tick tm) ∧
    0 <= tm_flag tm;
}.

Record siminv (T : seqs unit timer_ref) (tms : gmap timer_ref rt_timer) : Prop := {
  sm_swf : swf T;
  sm_elem r : is_Some (tms !! r) → r ∈ s_elems T;
  sm_head : is_Some (s_lists T !! tt);
}.

(** ** The kernel *)

Record kinv_at (lo : Z) (k : kern) : Prop := {
  ki_threads : tinv (lof (thread_lists k)) (threads k);
  ki_group : ginv (rt_thread_ready_priority_group k) (lof (thread_lists k));
  ki_store : sinv (thread_lists k) (threads k);
  ki_timers : minv lo (rt_tick k) (lof (timer_list k) tt) (timers k) (threads k);
  ki_timer_store : siminv (timer_list k) (timers k);
  ki_tick : in_u32 (rt_tick k);
}.

(** Between two ticks no timeout has passed. *)
Definition kinv (k : kern) : Prop := kinv_at 0 k.

(** ** Changing one thread *)

Section threads.
Context (L : queues) (ths : gmap Z rt_thread) (I : tinv L ths).

(** The thread leaves its queue. *)
Lemma tinv_leave t th' :
  th_stat th' ≠ RT_THREAD_READY → thread_wf t th' →
  tinv (list_del t L) (<[t := th']> ths).
Proof using I.
  intros Hst Hwf. split.
  - intros q u [Hne Hu]%elem_of_list_del. rewrite lookup_insert_ne by done. by eapply ti_queue.
  - intros u th Hu Hr. destruct (decide (u = t)) as [->|Hne].
    + rewrite lookup_insert_eq in Hu. by simplify_eq.
    + rewrite lookup_insert_ne in Hu by done. apply elem_of_list_del.
      split; [done|]. by eapply ti_ready.
  - intros u th Hu. destruct (decide (u = t)) as [->|Hne].
    + rewrite lookup_insert_eq in Hu. by simplify_eq.
    + rewrite lookup_insert_ne in Hu by done. by eapply ti_wf.
Qed.

(** A thread that is in no queue enters one. *)
Lemma tinv_enter t th' q l1 l2 :
  detached L t → L q = l1 ++ l2 → queue_ok q th' → thread_wf t th' →
  tinv (<[q := l1 ++ t :: l2]> L) (<[t := th']> ths).
Proof using I.
  intros Hdet E Hq Hwf.
  assert (∀ y u, u ∈ <[q := l1 ++ t :: l2]> L y ↔ u ∈ L y ∨ (u = t ∧ y = q)) as Hin.
  { intros y u. destruct (decide (q = y)) as [<-|].
    - rewrite fn_lookup_insert, E. set_solver.
    - rewrite fn_lookup_insert_ne by done. set_solver. }
  split.
  - intros y u [Hu|[-> ->]]%Hin.
    + rewrite lookup_insert_ne by (intros ->; by eapply Hdet). by eapply ti_queue.
    + exists th'. by rewrite lookup_insert_eq.
  - intros u th Hu Hr. apply Hin. destruct (decide (u = t)) as [->|Hne].
    + rewrite lookup_insert_eq in Hu. simplify_eq. right. split; [done|].
      destruct q; simpl in Hq; destruct_and?; unfold RT_THREAD_READY, RT_THREAD_CLOSE,
        RT_THREAD_SUSPEND in *; try congruence.
    + rewrite lookup_insert_ne in Hu by done. left. by eapply ti_ready.
  - intros u th Hu. destruct (decide (u = t)) as [->|Hne].
    + rewrite lookup_insert_eq in Hu. by simplify_eq.
    + rewrite lookup_insert_ne in Hu by done. by eapply ti_wf.
Qed.

(** Other fields of a thread change; its priority only when it is not ready. *)
Lemma tinv_modify t th th' : ths !! t = Some th →
  th_stat th' = th_stat th →
  (th_stat th = RT_THREAD_READY → th_current_priority th' = th_current_priority th) →
  thread_wf t th' → tinv L (<[t := th']> ths).
Proof using I.
  intros Ht Hs Hp Hwf. split.
  - intros q u Hu. destruct (ti_queue _ _ I q u Hu) as (thu&Hthu&Hq).
    destruct (decide (u = t)) as [->|Hne]; [|by rewrite lookup_insert_ne; eauto].
    rewrite lookup_insert_eq. exists th'. split; [done|]. simplify_eq.
    destruct q; simpl in *; rewrite ?Hs; [|done..]. destruct Hq as [Hr ->]. by rewrite Hp.
  - intros u thu Hu Hr. destruct (decide (u = t)) as [->|Hne].
    + rewrite lookup_insert_eq in Hu. simplify_eq. rewrite Hs in Hr. rewrite Hp by done.
      by eapply ti_ready.
    + rewrite lookup_insert_ne in Hu by done. by eapply ti_ready.
  - intros u thu Hu. destruct (decide (u = t)) as [->|Hne].
    + rewrite lookup_insert_eq in Hu. by simplify_eq.
    + rewrite lookup_insert_ne in Hu by done. by eapply ti_wf.
Qed.

(** A thread that is not ready is in no ready list, and a ready one only in
    that of its priority. *)
Lemma tinv_ready_only t th p : ths !! t = Some th → t ∈ L (QReady p) →
  th_stat th = RT_THREAD_READY ∧ p = th_current_priority th.
Proof using I.
  intros Ht Hp. destruct (ti_queue _ _ I _ _ Hp) as (th'&Ht'&Hq). by simplify_eq.
Qed.

End threads.

(** ** The bitmap *)

Lemma testbit_pow2 p q : 0 <= p → 0 <= q → Z.testbit (2 ^ p) q = bool_decide (q = p).
Proof.
  intros Hp Hq. case_bool_decide as E.
  - subst. by apply Z.pow2_bits_true.
  - apply Z.pow2_bits_false. congruence.
Qed.

Lemma in_u32_bits g : in_u32 g ↔ 0 <= g ∧ ∀ i, 32 <= i → Z.testbit g i = false.
Proof.
  split.
  - intros [H0 H1]. split; [done|]. intros i Hi. apply Z.bits_above_log2; [done|].
    destruct (decide (g = 0)) as [->|]; [simpl; lia|].
    apply Z.lt_le_trans with 32; [|done]. apply Z.log2_lt_pow2; lia.
  - intros [H0 Hb]. split; [done|].
    destruct (decide (g < 2 ^ 32)); [done|].
    exfalso. assert (0 < g) as Hg by lia. pose proof (Z.bit_log2 g Hg) as Ht.
    rewrite Hb in Ht; [done|]. apply Z.log2_le_pow2; lia.
Qed.

Lemma ginv_set g L L' p : ginv g L → 0 <= p < RT_THREAD_PRIORITY_MAX →
  L' (QReady p) ≠ [] → (∀ q, q ≠ p → L' (QReady q) = L (QReady q)) →
  ginv (Z.lor g (2 ^ p)) L'.
Proof.
  unfold RT_THREAD_PRIORITY_MAX. intros [Hg Hb] Hp Hne Hother. split.
  - apply in_u32_bits in Hg as [H0 Hi]. apply in_u32_bits. split.
    + apply Z.lor_nonneg. split; [done|]. apply Z.pow_nonneg. lia.
    + intros i Hi'. rewrite Z.lor_spec, Hi, testbit_pow2, bool_decide_false by lia. done.
  - intros q Hq. rewrite Z.lor_spec, testbit_pow2 by lia. rewrite Hb by done.
    destruct (decide (q = p)) as [->|].
    + rewrite (bool_decide_true (p = p)) by done.
      rewrite (bool_decide_true (L' _ ≠ _)) by done. apply orb_true_r.
    + rewrite Hother by done. rewrite (bool_decide_false (q = p)) by done. apply orb_false_r.
Qed.

Lemma ginv_clear g L L' p : ginv g L → 0 <= p < RT_THREAD_PRIORITY_MAX →
  L' (QReady p) = [] → (∀ q, q ≠ p → L' (QReady q) = L (QReady q)) →
  ginv (Z.land g (Z.lnot (2 ^ p))) L'.
Proof.
  unfold RT_THREAD_PRIORITY_MAX. intros [Hg Hb] Hp Hne Hother. split.
  - apply in_u32_bits in Hg as [H0 Hi]. apply in_u32_bits. split.
    + apply Z.land_nonneg. by left.
    + intros i Hi'. by rewrite Z.land_spec, Hi.
  - intros q Hq. rewrite Z.land_spec, Z.lnot_spec, testbit_pow2 by lia. rewrite Hb by done.
    destruct (decide (q = p)) as [->|].
    + rewrite (bool_decide_true (p = p)) by done. rewrite Hne. simpl. apply andb_false_r.
    + rewrite Hother by done. rewrite (bool_decide_false (q = p)) by done. apply andb_true_r.
Qed.

Lemma ginv_ext g L L' : (∀ p, L' (QReady p) ≠ [] ↔ L (QReady p) ≠ []) → ginv g L → ginv g L'.
Proof.
  intros E [Hg Hb]. split; [done|]. intros p Hp. rewrite Hb by done. by apply bool_decide_ext.
Qed.
