(* ===== verification/KernelCheck.v ===== *)
(** * Deciding the invariant

    An executable test for [kinv_at], to show that the hypotheses of the
    theorems hold of concrete kernels. *)

From S2P Require Import Prelude DList ListStore SeqLemmas KString KState KernelWp KernelInv.

#[global] Instance queue_ok_dec q th : Decision (queue_ok q th).
Proof. destruct q; simpl; apply _. Defined.
#[global] Instance stack_ok_dec th : Decision (stack_ok th).
Proof. unfold stack_ok. apply _. Defined.
#[global] Instance active_dec tm : Decision (active tm).
Proof. unfold active. apply _. Defined.
#[global] Instance in_u32_dec z : Decision (in_u32 z).
Proof. unfold in_u32. apply _. Defined.

#[global] Instance timeout_fn_eq_dec : EqDecision timeout_fn.
Proof. solve_decision. Defined.

(** A lookup whose value satisfies a test. *)
Definition found {A} (P : A → Prop) `{∀ a, Decision (P a)} (o : option A) : bool :=
  match o with Some a => bool_decide (P a) | None => false end.

Lemma found_spec {A} (P : A → Prop) `{∀ a, Decision (P a)} o :
  found P o = true ↔ ∃ a, o = Some a ∧ P a.
Proof.
  destruct o as [a|]; simpl; [|naive_solver]. rewrite bool_decide_eq_true. naive_solver.
Qed.

(** ** Sorted lists *)

Fixpoint sorted_b (l : list Z) : bool :=
  match l with
  | [] => true
  | x :: l => forallb (λ y, bool_decide (x <= y)) l && sorted_b l
  end.

Lemma sorted_b_sound l : sorted_b l = true → StronglySorted Z.le l.
Proof.
  induction l as [|x l IH]; simpl; [constructor|]. intros [Hf Hs]%andb_true_iff.
  constructor; [auto|]. rewrite Forall_forall. rewrite forallb_forall in Hf.
  intros y Hy%list_elem_of_In. by apply Hf, bool_decide_eq_true in Hy.
Qed.

(** ** Stores *)

Section store.
Context {HD EL : Type} `{Countable HD, Countable EL}.

Definition swf_b (s : seqs HD EL) : bool :=
  bool_decide (map_Forall (λ x l, NoDup l ∧ Forall (λ e, e ∈ s_elems s) l ∧
    map_Forall (λ y l', x ≠ y → Forall (λ e, e ∉ l') l) (s_lists s)) (s_lists s)).

Lemma swf_b_sound (s : seqs HD EL) : swf_b s = true → swf s.
Proof.
  unfold swf_b. rewrite bool_decide_eq_true. intros Hall.
  assert (∀ x e, e ∈ lof s x → s_lists s !! x = Some (lof s x)) as Hl.
  { intros x e He. unfold lof in *. destruct (s_lists s !! x); [done|set_solver]. }
  split.
  - intros x e He. destruct (Hall x (lof s x) (Hl x e He)) as (_&Hin&_).
    rewrite Forall_forall in Hin. auto.
  - intros x. destruct (s_lists s !! x) as [l|] eqn:E.
    + rewrite (lof_lookup _ _ _ E). by destruct (Hall x l E).
    + unfold lof. rewrite E. constructor.
  - intros x y e Hx Hy. destruct (decide (x = y)) as [|Hne]; [done|].
    destruct (Hall x _ (Hl x e Hx)) as (_&_&Hd).
    specialize (Hd y _ (Hl y e Hy) Hne). rewrite Forall_forall in Hd. by destruct (Hd e Hx).
Qed.

Definition lists_b (P : HD → EL → bool) (s : seqs HD EL) : bool :=
  bool_decide (map_Forall (λ x l, forallb (P x) l) (s_lists s)).

Lemma lists_b_sound (P : HD → EL → bool) (s : seqs HD EL) x e :
  lists_b P s = true → e ∈ lof s x → P x e = true.
Proof.
  unfold lists_b, lof. rewrite bool_decide_eq_true. intros Hall.
  destruct (s_lists s !! x) as [l|] eqn:E; simpl; [|set_solver].
  specialize (Hall x l E). apply Is_true_eq_true in Hall. rewrite forallb_forall in Hall.
  intros He%list_elem_of_In. auto.
Qed.

End store.

(** ** The parts of the invariant *)

#[global] Instance thread_wf_dec t th : Decision (thread_wf t th).
Proof.
  refine (cast_if (decide (t ≠ RT_NULL ∧ 0 <= th_current_priority th < RT_THREAD_PRIORITY_MAX ∧
    0 <= th_init_priority th < RT_THREAD_PRIORITY_MAX ∧
    (th_stat th ≠ RT_THREAD_INIT → th_number_mask th = 2 ^ th_current_priority th) ∧ stack_ok th)));
  abstract (first [split; naive_solver | intros []; naive_solver]).
Defined.

Definition tinv_b (S : seqs thread_queue Z) (ths : gmap Z rt_thread) : bool :=
  lists_b (λ q t, found (queue_ok q) (ths !! t)) S &&
  bool_decide (map_Forall (λ t th, th_stat th = RT_THREAD_READY →
                             t ∈ lof S (QReady (th_current_priority th))) ths) &&
  bool_decide (map_Forall thread_wf ths).

Lemma tinv_b_sound S ths : tinv_b S ths = true → tinv (lof S) ths.
Proof.
  unfold tinv_b. rewrite !andb_true_iff, !bool_decide_eq_true. intros [[H1 H2] H3]. split.
  - intros q t Ht. apply (lists_b_sound _ _ q t H1), found_spec in Ht. done.
  - intros t th Ht Hs. by apply (H2 t th).
  - intros t th Ht. by apply (H3 t th).
Qed.

Definition priorities : list Z := seqZ 0 RT_THREAD_PRIORITY_MAX.

Lemma elem_of_priorities p : 0 <= p < RT_THREAD_PRIORITY_MAX → p ∈ priorities.
Proof. intros Hp. apply elem_of_seqZ. lia. Qed.

Definition ginv_b (g : Z) (S : seqs thread_queue Z) : bool :=
  bool_decide (in_u32 g) &&
  forallb (λ p, Bool.eqb (Z.testbit g p) (bool_decide (lof S (QReady p) ≠ []))) priorities.

Lemma ginv_b_sound g S : ginv_b g S = true → ginv g (lof S).
Proof.
  unfold ginv_b. rewrite andb_true_iff, bool_decide_eq_true, forallb_forall. intros [H1 H2].
  split; [done|]. intros p Hp%elem_of_priorities%list_elem_of_In%H2. by apply Bool.eqb_prop in Hp.
Qed.

Definition sinv_b (S : seqs thread_queue Z) (ths : gmap Z rt_thread) : bool :=
  swf_b S && bool_decide (map_Forall (λ t _, t ∈ s_elems S) ths) &&
  forallb (λ p, bool_decide (is_Some (s_lists S !! QReady p))) priorities &&
  bool_decide (is_Some (s_lists S !! QDefunct)).

Lemma sinv_b_sound S ths : sinv_b S ths = true → sinv S ths.
Proof.
  unfold sinv_b. rewrite !andb_true_iff, !bool_decide_eq_true, forallb_forall.
  intros [[[H1 H2] H3] H4]. split; [by apply swf_b_sound| | |done].
  - intros t [th Ht]. by apply (H2 t th).
  - intros p Hp%elem_of_priorities%list_elem_of_In%H3. by apply bool_decide_eq_true in Hp.
Qed.

Definition minv_b (lo now : Z) (l : list timer_ref) (tms : gmap timer_ref rt_timer)
    (ths : gmap Z rt_thread) : bool :=
  forallb (λ r, found (λ tm, lo <= remaining now tm <= max_time) (tms !! r)) l &&
  sorted_b (remaining_of now tms <$> l) &&
  forallb (λ r, match r with
                | ThreadTimer t => found active (tms !! r) &&
                                   found (λ th, th_stat th = RT_THREAD_SUSPEND) (ths !! t)
                | UserTimer _ => true
                end) l &&
  bool_decide (map_Forall (λ t _, found (λ tm, tm_timeout_func tm = thread_timeout t ∧
    Z.land (tm_flag tm) RT_TIMER_FLAG_PERIODIC = 0) (tms !! ThreadTimer t)) ths) &&
  bool_decide (map_Forall (λ _ tm, in_u32 (tm_init_tick tm) ∧ in_u32 (tm_timeout_tick tm) ∧
    0 <= tm_flag tm) tms).

Lemma minv_b_sound lo now l tms ths : minv_b lo now l tms ths = true → minv lo now l tms ths.
Proof.
  unfold minv_b. rewrite !andb_true_iff, !bool_decide_eq_true, !forallb_forall.
  intros [[[[H1 H2] H3] H4] H5]. split.
  - intros r Hr%list_elem_of_In%H1. by apply found_spec in Hr.
  - by apply sorted_b_sound.
  - intros t Ht%list_elem_of_In%H3. simpl in Ht. rewrite andb_true_iff, !found_spec in Ht.
    naive_solver.
  - intros t th Ht. apply (H4 t th), Is_true_eq_true, found_spec in Ht. naive_solver.
  - intros r tm Hr. by apply (H5 r tm).
Qed.

Definition siminv_b (T : seqs unit timer_ref) (tms : gmap timer_ref rt_timer) : bool :=
  swf_b T && bool_decide (map_Forall (λ r _, r ∈ s_elems T) tms) &&
  bool_decide (is_Some (s_lists T !! tt)).

Lemma siminv_b_sound T tms : siminv_b T tms = true → siminv T tms.
Proof.
  unfold siminv_b. rewrite !andb_true_iff, !bool_decide_eq_true. intros [[H1 H2] H3].
  split; [by apply swf_b_sound| |done]. intros r [tm Hr]. by apply (H2 r tm).
Qed.

Definition kinv_b (lo : Z) (k : kern) : bool :=
  tinv_b (thread_lists k) (threads k) &&
  ginv_b (rt_thread_ready_priority_group k) (thread_lists k) &&
  sinv_b (thread_lists k) (threads k) &&
  minv_b lo (rt_tick k) (lof (timer_list k) tt) (timers k) (threads k) &&
  siminv_b (timer_list k) (timers k) && bool_decide (in_u32 (rt_tick k)).

Lemma kinv_b_sound lo k : kinv_b lo k = true → kinv_at lo k.
Proof.
  unfold kinv_b. rewrite !andb_true_iff, bool_decide_eq_true. intros [[[[[H1 H2] H3] H4] H5] H6].
  split; [by apply tinv_b_sound|by apply ginv_b_sound|by apply sinv_b_sound
         |by apply minv_b_sound|by apply siminv_b_sound|done].
Qed.
