(* ===== verification/SchedProof.v ===== *)
(** * The scheduler is correct

    The effect of inserting and removing a thread, and the choice of
    [rt_schedule]: the first thread of the highest non-empty priority. *)

From S2P Require Import Prelude DList ListStore SeqLemmas KString KState Scheduler KernelWp KernelInv System KernelCheck.

(** ** Insertion and removal *)

Section effects.
Context (k : kern) (t : Z) (th : rt_thread).
Context (Hnull : t ≠ RT_NULL) (Ht : threads k !! t = Some th).
Context (Hswf : swf (thread_lists k)).
Context (Hq : is_Some (s_lists (thread_lists k) !! QReady (th_current_priority th))).

Abbreviation L := (lof (thread_lists k)).
Abbreviation p := (th_current_priority th).

Lemma wp_insert_thread (Q : unit → kern → Prop) : detached L t →
  (∀ S', becomes (thread_lists k) S' (<[QReady p := L (QReady p) ++ [t]]> L) →
     Q tt (set_rt_thread_ready_priority_group
             (Z.lor (rt_thread_ready_priority_group k) (th_number_mask th))
             (set_thread_lists (LS:=seq_lists) S'
                (set_threads (<[t := set_th_stat RT_THREAD_READY th]> (threads k)) k)))) →
  wp (rt_schedule_insert_thread t) k Q.
Proof using Hnull Ht Hswf Hq.
  intros Hdet HQ. unfold rt_schedule_insert_thread. wps.
  eapply wp_get_thread; [apply lookup_insert_eq|]. cbn [th_current_priority th_number_mask set_th_stat].
  destruct (s_append_spec (thread_lists k) (QReady p) t) as (S'&HS'&Hb); [done..|].
  wps. eapply wp_on_threads; [exact HS'|]. wps. specialize (HQ S' Hb).
  by destruct k.
Qed.

Lemma wp_remove_thread (Q : unit → kern → Prop) : t ∈ s_elems (thread_lists k) →
  (∀ S', becomes (thread_lists k) S' (list_del t L) →
     Q tt (set_rt_thread_ready_priority_group
             (if bool_decide (list_del t L (QReady p) = [])
              then Z.land (rt_thread_ready_priority_group k) (Z.lnot (th_number_mask th))
              else rt_thread_ready_priority_group k)
             (set_thread_lists (LS:=seq_lists) S' k))) →
  wp (rt_schedule_remove_thread t) k Q.
Proof using Hnull Ht Hswf Hq.
  intros He HQ. unfold rt_schedule_remove_thread. wps.
  destruct (s_remove_spec (thread_lists k) t) as (S'&HS'&Hb); [done..|].
  eapply wp_on_threads; [exact HS'|]. wps.
  eapply wp_kopt; [apply s_isempty_spec; by apply (bc_heads _ _ _ Hb)|]. wps.
  specialize (HQ S' Hb). rewrite (bc_lof _ _ _ Hb).
  destruct (bool_decide _); wps; by destruct k.
Qed.

End effects.

(** ** The choice of the scheduler *)

(** [p] is the highest priority with a ready thread and [t] the first thread
    of its list. *)
Definition highest (L : queues) (p t : Z) : Prop :=
  0 <= p < RT_THREAD_PRIORITY_MAX ∧ head (L (QReady p)) = Some t ∧
  ∀ p', 0 <= p' < p → L (QReady p') = [].

Definition some_ready (L : queues) : Prop :=
  ∃ p, 0 <= p < RT_THREAD_PRIORITY_MAX ∧ L (QReady p) ≠ [].

Lemma ginv_highest g L : ginv g L → some_ready L →
  ∃ t, highest L (u32 (__rt_ffs (s32 g) - 1)) t.
Proof.
  intros [Hg Hb] (p&Hp&Hne).
  assert (g ≠ 0) as Hg0.
  { intros ->. specialize (Hb p Hp). rewrite Z.bits_0, bool_decide_true in Hb by done. done. }
  destruct (ffs_lowest g Hg Hg0) as [(H0&Ht&Hl) H32].
  rewrite u32_small by (unfold in_u32; lia). set (m := __rt_ffs (s32 g) - 1) in *.
  unfold RT_THREAD_PRIORITY_MAX in *. rewrite Hb in Ht by lia. apply bool_decide_eq_true in Ht.
  destruct (L (QReady m)) as [|t l] eqn:E; [done|]. exists t.
  unfold highest, RT_THREAD_PRIORITY_MAX. split_and!; [lia|lia|by rewrite E|].
  intros p' Hp'. specialize (Hl p' Hp'). rewrite Hb in Hl by lia.
  apply bool_decide_eq_false in Hl. destruct (decide (L (QReady p') = [])); [done|]. by destruct Hl.
Qed.

Definition highest_b (L : queues) (p t : Z) : bool :=
  bool_decide (0 <= p < RT_THREAD_PRIORITY_MAX) && bool_decide (head (L (QReady p)) = Some t) &&
  forallb (λ p', bool_decide (L (QReady p') = [])) (seqZ 0 p).

Lemma highest_b_sound L p t : highest_b L p t = true → highest L p t.
Proof.
  unfold highest_b. rewrite !andb_true_iff, !bool_decide_eq_true, forallb_forall.
  intros [[H1 H2] H3]. split_and!; [lia..|done|]. intros p' Hp'.
  apply (bool_decide_eq_true (L (QReady p') = [])), H3, list_elem_of_In, elem_of_seqZ. lia.
Qed.

Lemma highest_unique L p1 t1 p2 t2 : highest L p1 t1 → highest L p2 t2 → p1 = p2 ∧ t1 = t2.
Proof.
  intros (H1&Ht1&Hl1) (H2&Ht2&Hl2).
  assert (p1 = p2) as ->.
  { destruct (Z.lt_total p1 p2) as [Hlt|[Heq|Hlt]]; [|done|].
    - rewrite Hl2 in Ht1 by lia. done.
    - rewrite Hl1 in Ht2 by lia. done. }
  split; [done|]. congruence.
Qed.

Section schedule.
Context (lo : Z) (k : kern) (I : kinv_at lo k).

Lemma highest_thread p t : highest (lof (thread_lists k)) p t →
  ∃ th, threads k !! t = Some th ∧ th_stat th = RT_THREAD_READY ∧ th_current_priority th = p ∧
        thread_wf t th.
Proof using I.
  intros (_&Ht&_). destruct (ti_queue _ _ (ki_threads _ _ I) (QReady p) t) as (th&Hth&[Hs Hp]).
  { destruct (lof _ _); [done|]. simplify_eq/=. left. }
  exists th. split_and!; [done..|]. by eapply ti_wf, Hth; apply I.
Qed.

Lemma wp_highest_ready (Q : Z * Z → kern → Prop) : some_ready (lof (thread_lists k)) →
  (∀ p t, highest (lof (thread_lists k)) p t → Q (p, t) k) →
  wp highest_ready k Q.
Proof using I.
  intros Hr HQ. destruct (ginv_highest _ _ (ki_group _ _ I) Hr) as [t Hh].
  specialize (HQ _ _ Hh). destruct Hh as (Hp&Ht&_). unfold highest_ready. wps.
  eapply wp_kopt; [by apply s_next_head, (ki_store _ _ I)|].
  rewrite Ht. simpl. wps. done.
Qed.

Lemma wp_stack_check p t (Q : unit → kern → Prop) :
  highest (lof (thread_lists k)) p t → Q tt k → wp (_rt_scheduler_stack_check t) k Q.
Proof using I.
  intros Hh HQ. destruct (highest_thread _ _ Hh) as (th&Hth&_&_&Hwf).
  unfold _rt_scheduler_stack_check. pose proof (tw_null _ _ Hwf). wps.
  pose proof (tw_stack _ _ Hwf) as Hst. unfold stack_ok in Hst.
  rewrite bool_decide_false by lia. by apply wp_ret.
Qed.

End schedule.

(** The invariant does not speak of the interrupt mask or of which thread is
    current. *)
Lemma kinv_at_irrelevant lo k k' : kinv_at lo k →
  threads k' = threads k → thread_lists k' = thread_lists k →
  rt_thread_ready_priority_group k' = rt_thread_ready_priority_group k →
  timers k' = timers k → timer_list k' = timer_list k → rt_tick k' = rt_tick k →
  kinv_at lo k'.
Proof. intros [] E1 E2 E3 E4 E5 E6. split; by rewrite ?E1, ?E2, ?E3, ?E4, ?E5, ?E6. Qed.

(** [rt_schedule] makes the first thread of the highest priority current. *)
Definition switch_to (p t : Z) (k : kern) : kern :=
  if bool_decide (t = rt_current_thread k) then k
  else set_rt_current_thread t (set_rt_current_priority p k).

Lemma wp_schedule lo k (Q : unit → kern → Prop) : kinv_at lo k →
  rt_scheduler_lock_nest k = 0 → some_ready (lof (thread_lists k)) →
  (∀ p t, highest (lof (thread_lists k)) p t → Q tt (switch_to p t k)) →
  wp rt_schedule k Q.
Proof.
  intros I Hlock Hr HQ. unfold rt_schedule. wps. rewrite bool_decide_true by done. wps.
  assert (kinv_at lo (set_primask 1 k)) as I1 by (by apply (kinv_at_irrelevant lo k)).
  apply (wp_highest_ready lo _ I1); [done|]. intros p t Hh. specialize (HQ p t Hh). wps.
  unfold switch_to in HQ. destruct (decide (t = rt_current_thread k)) as [E|E].
  - rewrite bool_decide_true in HQ by done. rewrite bool_decide_false by (intros Hne; by apply Hne).
    wps. by destruct k.
  - rewrite bool_decide_false in HQ by done. rewrite bool_decide_true by done. wps.
    eapply (wp_stack_check lo); [|exact Hh|].
    + by apply (kinv_at_irrelevant lo k).
    + wps. destruct Hh as (Hp&_). unfold RT_THREAD_PRIORITY_MAX in Hp.
      rewrite u8_small by (unfold in_u8; lia). by destruct k.
Qed.

Lemma wp_schedule_locked k (Q : unit → kern → Prop) :
  rt_scheduler_lock_nest k ≠ 0 → Q tt k → wp rt_schedule k Q.
Proof.
  intros Hlock HQ. unfold rt_schedule. wps. rewrite bool_decide_false by done. wps.
  by destruct k.
Qed.

(** What a call of [rt_schedule] does. *)
Definition scheduled (k k' : kern) : Prop :=
  if bool_decide (rt_scheduler_lock_nest k = 0)
  then ∃ p t, highest (lof (thread_lists k)) p t ∧ k' = switch_to p t k
  else k' = k.

Lemma wp_schedule_any lo k (Q : unit → kern → Prop) : kinv_at lo k →
  some_ready (lof (thread_lists k)) → (∀ k', scheduled k k' → Q tt k') → wp rt_schedule k Q.
Proof.
  intros I Hr HQ. destruct (decide (rt_scheduler_lock_nest k = 0)) as [E|E].
  - eapply wp_schedule; [done..|]. intros p t Hh. apply HQ. unfold scheduled.
    rewrite bool_decide_true by done. eauto.
  - apply wp_schedule_locked; [done|]. apply HQ. unfold scheduled. by rewrite bool_decide_false.
Qed.

(** A switch changes the current thread and nothing else. *)
Record same_but_current (k k' : kern) : Prop := {
  sc_threads : threads k' = threads k;
  sc_lists : thread_lists k' = thread_lists k;
  sc_group : rt_thread_ready_priority_group k' = rt_thread_ready_priority_group k;
  sc_timers : timers k' = timers k;
  sc_timer_list : timer_list k' = timer_list k;
  sc_tick : rt_tick k' = rt_tick k;
  sc_lock : rt_scheduler_lock_nest k' = rt_scheduler_lock_nest k;
  sc_nest : rt_interrupt_nest k' = rt_interrupt_nest k;
  sc_primask : primask k' = primask k;
  sc_sems : sems k' = sems k;
  sc_mutexes : mutexes k' = mutexes k;
  sc_events : events k' = events k;
  sc_mailboxes : mailboxes k' = mailboxes k;
  sc_mqueues : mqueues k' = mqueues k;
  sc_mempools : mempools k' = mempools k;
  sc_pool_words : pool_words k' = pool_words k;
  sc_completions : completions k' = completions k;
  sc_dataqueues : dataqueues k' = dataqueues k;
  sc_errno : _errno k' = _errno k;
  sc_objects : objects k' = objects k;
  sc_object_lists : object_lists k' = object_lists k;
}.

Lemma switch_same p t k : same_but_current k (switch_to p t k).
Proof. unfold switch_to. by destruct (bool_decide _). Qed.

Lemma scheduled_same k k' : scheduled k k' → same_but_current k k'.
Proof.
  unfold scheduled. case_bool_decide; [|by intros ->]. intros (p&t&_&->). apply switch_same.
Qed.

Lemma scheduled_inv lo k k' : kinv_at lo k → scheduled k k' → kinv_at lo k'.
Proof.
  intros I Hs%scheduled_same. destruct Hs. by apply (kinv_at_irrelevant lo k).
Qed.

(** With the scheduler unlocked the current thread is then the first of the
    highest priority. *)
Lemma scheduled_current k k' : scheduled k k' → rt_scheduler_lock_nest k = 0 →
  ∃ p, highest (lof (thread_lists k')) p (rt_current_thread k').
Proof.
  unfold scheduled. intros Hs Hl. rewrite bool_decide_true in Hs by done.
  destruct Hs as (p&t&Hh&->). exists p. unfold switch_to. case_bool_decide as E; [by rewrite <-E|done].
Qed.

(** C1: Unlocked, [rt_schedule] makes the first thread of the highest priority that
    has a ready thread current, and changes nothing else. *)
Theorem rt_schedule_selects_highest (k : kern) : kinv k →
  some_ready (lof (thread_lists k)) → rt_scheduler_lock_nest k = 0 →
  ∃ p t k', highest (lof (thread_lists k)) p t ∧ rt_schedule k = Ok tt k' ∧
            rt_current_thread k' = t ∧ same_but_current k k'.
Proof.
  intros I Hr Hl. destruct (wp_run rt_schedule k (λ _ k', scheduled k k')) as ([]&k'&E&Hs).
  { by eapply wp_schedule_any. }
  pose proof (scheduled_same _ _ Hs) as Hsame. unfold scheduled in Hs.
  rewrite bool_decide_true in Hs by done. destruct Hs as (p&t&Hh&->).
  exists p, t, (switch_to p t k). split_and!; try done. unfold switch_to. by case_bool_decide.
Qed.

Lemma rt_schedule_selects_highest_witness : ∃ p t k',
  highest (lof (thread_lists (demo []))) p t ∧ rt_schedule (demo []) = Ok tt k' ∧
  rt_current_thread k' = t ∧ same_but_current (demo []) k'.
Proof.
  apply (rt_schedule_selects_highest (demo [])).
  - apply kinv_b_sound. vm_compute. reflexivity.
  - exists 5. split; [done|]. vm_compute. discriminate.
  - vm_compute. reflexivity.
Defined.
