(* ===== verification/ObjectProof.v ===== *)
(** * Searching objects by name

    [find_object], which [rt_thread_find] and [rt_device_find] share, returns the
    first object of the class with the name, and [rt_object_init] puts an object
    where this search finds it. *)

From S2P Require Import Prelude DList ListStore SeqLemmas KString KState Scheduler ObjectSys Timer ThreadSys KernelWp KernelInv System KernelCheck SchedProof.

(** ** Names *)

(** The class list is set up and its objects have headers. *)
Record class_ok (k : kern) (type : Z) : Prop := {
  cl_swf : swf (object_lists k);
  cl_head : is_Some (s_lists (object_lists k) !! type);
  cl_objects o : o ∈ lof (object_lists k) type → is_Some (objects k !! o);
}.

Definition named (k : kern) (name : list Z) (o : obj_ref) : bool :=
  match objects k !! o with Some ob => name_matches ob name | None => false end.

(** The first object with the name. *)
Definition search (k : kern) (name : list Z) (os : list obj_ref) : option obj_ref :=
  List.find (named k name) os.

Lemma wp_find_loop fuel name type (k : kern) l1 l2 (Q : option obj_ref → kern → Prop) :
  class_ok k type → lof (object_lists k) type = l1 ++ l2 → (length l2 < fuel)%nat →
  Q (search k name l2) k →
  wp (find_loop fuel name type (default (Hd type) (El <$> head l2))) k Q.
Proof.
  intros Hc. revert fuel l1. induction l2 as [|o l2 IH]; intros [|fuel] l1 El Hf HQ;
    try (simpl in Hf; lia); cbn [find_loop head fmap option_fmap option_map default from_option id].
  { by apply wp_ret. }
  assert (o ∈ lof (object_lists k) type) as Ho by (rewrite El; set_solver).
  destruct (cl_objects _ _ Hc o Ho) as [ob Hob]. apply wp_bind. eapply wp_get_object; [done|].
  unfold search in HQ. cbn [List.find] in HQ. unfold named in HQ at 1. rewrite Hob in HQ.
  destruct (name_matches ob name); [by apply wp_ret|]. apply wp_bind.
  eapply wp_kopt; [by eapply s_next_elem; [apply Hc|]|].
  apply (IH fuel (l1 ++ [o])); [by rewrite <-(assoc_L (++))|simpl in Hf; lia|done].
Qed.

(** The scheduler lock can be taken and given back. *)
Definition can_lock (k : kern) : Prop :=
  rt_current_thread k = RT_NULL ∨
  (kinv k ∧ some_ready (lof (thread_lists k)) ∧ 0 <= rt_scheduler_lock_nest k < 2 ^ 15 - 1).

Lemma can_lock_same k k' : can_lock k → same_but_current k k' → rt_current_thread k ≠ RT_NULL →
  can_lock k'.
Proof.
  intros [Hc|(HI&Hr&Hl)] Hs Hn; [done|]. right.
  rewrite (sc_lists _ _ Hs), (sc_lock _ _ Hs). split; [|done]. destruct Hs.
  by apply (kinv_at_irrelevant 0 k).
Qed.

(** The current thread, if there is one, has a structure. *)
Definition running (k : kern) : Prop :=
  rt_current_thread k = RT_NULL ∨ is_Some (threads k !! rt_current_thread k).

Lemma scheduled_running k k' : kinv k → scheduled k k' → running k → running k'.
Proof.
  intros HI Hs Hrun. unfold scheduled in Hs. case_bool_decide; [|by subst].
  destruct Hs as (p&t&(_&Hh&_)&->). unfold switch_to. case_bool_decide; [done|]. right. cbn.
  destruct (ti_queue _ _ (ki_threads _ _ HI) (QReady p) t) as (th&E&_); [|by exists th].
  by apply head_Some_elem_of.
Qed.

Lemma wp_exit_critical (k : kern) (Q : unit → kern → Prop) :
  0 <= rt_scheduler_lock_nest k < 2 ^ 15 - 1 → kinv k → some_ready (lof (thread_lists k)) →
  (∀ k', same_but_current k k' → (running k → running k') → Q tt k') →
  wp rt_exit_critical (set_rt_scheduler_lock_nest (rt_scheduler_lock_nest k + 1) k) Q.
Proof.
  intros Hl HI Hr HQ. unfold rt_exit_critical. wps. cbn [rt_scheduler_lock_nest set_primask
    set_rt_scheduler_lock_nest]. replace (rt_scheduler_lock_nest k + 1 - 1) with
    (rt_scheduler_lock_nest k) by lia. rewrite s16_small by lia. case_bool_decide as Hz; wps.
  - assert (rt_scheduler_lock_nest k = 0) as E by lia.
    match goal with |- wp _ ?k' _ => replace k' with k by (clear -E; destruct k; cbn in E; by subst) end.
    eapply wp_schedule_any; [done..|]. intros k' Hk'.
    apply HQ; [by apply scheduled_same|by apply scheduled_running].
  - match goal with |- Q tt ?k' => replace k' with k by (by destruct k) end. by apply HQ.
Qed.

Lemma class_size k type : class_ok k type →
  (length (lof (object_lists k) type) < S (size (objects k)))%nat.
Proof.
  intros Hc. apply (proj2 (Nat.lt_succ_r _ _)), NoDup_keys_size; [apply (cl_swf _ _ Hc)|].
  apply (cl_objects _ _ Hc).
Qed.

Lemma wp_find_object name type (k : kern) (Q : option obj_ref → kern → Prop) :
  class_ok k type → can_lock k →
  (∀ k', same_but_current k k' → can_lock k' → (running k → running k') →
     Q (search k name (lof (object_lists k) type)) k') →
  wp (find_object name type) k Q.
Proof.
  intros Hc Hl HQ. unfold find_object, in_thread, rt_thread_self.
  destruct (decide (rt_current_thread k = RT_NULL)) as [Hn|Hn].
  - wps. rewrite bool_decide_false by tauto. wps.
    eapply wp_kopt; [by apply s_next_head, Hc|]. wps.
    eapply (wp_find_loop _ _ _ k []); [done|done|by apply class_size|].
    wps. rewrite bool_decide_false by tauto. wps. by apply HQ; [|left|].
  - destruct Hl as [|(HI&Hr&Hlock)]; [done|]. wps. rewrite bool_decide_true by done.
    unfold rt_enter_critical. wps.
    set (k1 := set_primask _ _).
    assert (class_ok k1 type) as Hc1 by (destruct Hc; by split).
    eapply wp_kopt; [by apply s_next_head, Hc1|]. wps.
    eapply (wp_find_loop _ _ _ k1 []); [done|done|by apply class_size|].
    change (search k1) with (search k). change (object_lists k1) with (object_lists k).
    wps. change (rt_current_thread k1) with (rt_current_thread k). rewrite bool_decide_true by done.
    assert (k1 = set_rt_scheduler_lock_nest (rt_scheduler_lock_nest k + 1) k) as ->.
    { subst k1. rewrite s16_small by (cbn; lia). by destruct k. }
    eapply wp_exit_critical; [lia|done|done|]. intros k' Hk' Hrun. wps. apply HQ; [done| |done].
    eapply can_lock_same; [|done..]. by right.
Qed.

(** ** New objects *)

(** [o] is a new object of its class; nothing else has changed. *)
Record enlisted (o : obj_ref) (type : Z) (name : list Z) (k k' : kern) : Prop := {
  en_lists : becomes (object_lists k) (object_lists k')
    (<[type := o :: lof (object_lists k) type]> (lof (object_lists k)));
  en_objects : objects k' =
    <[o := Object (name_bytes name) (Z.lor type RT_Object_Class_Static)]> (objects k);
  en_rest : k' = set_object_lists (LS:=seq_lists) (object_lists k') (set_objects (objects k') k);
}.

Lemma wp_object_init o type name (k : kern) (Q : unit → kern → Prop) :
  class_ok k type → detached (lof (object_lists k)) o →
  (∀ k', enlisted o type name k k' → Q tt k') → wp (rt_object_init o type name) k Q.
Proof.
  intros Hc Hd HQ. unfold rt_object_init, put_object. wps.
  destruct (s_prepend_spec (object_lists k) type o) as (s'&E&Hb); [apply Hc|apply Hc|done|].
  eapply wp_on_objects; [exact E|]. wps. apply HQ. split; [done|done|]. by destruct k.
Qed.

Lemma enlisted_class o type name k k' : class_ok k type → enlisted o type name k k' →
  class_ok k' type.
Proof.
  intros Hc [Hb Ho _]. split; [apply Hb|apply (bc_heads _ _ _ Hb), Hc|].
  intros x. rewrite (bc_lof _ _ _ Hb), fn_lookup_insert, Ho. intros [->|Hx]%elem_of_cons.
  - rewrite lookup_insert_eq. eauto.
  - destruct (decide (x = o)) as [->|]; [rewrite lookup_insert_eq; eauto|].
    rewrite lookup_insert_ne by done. by apply Hc.
Qed.

Lemma enlisted_can_lock o type name k k' : can_lock k → enlisted o type name k k' → can_lock k'.
Proof.
  intros Hl [_ _ ->]. destruct Hl as [|(HI&?&?)]; [by left|right].
  split; [by apply (kinv_at_irrelevant 0 k)|done].
Qed.

(** The name finds the new object, another name what it found before. *)
Lemma enlisted_search o type name name' k k' : enlisted o type name k k' →
  o ∉ lof (object_lists k) type →
  search k' name' (lof (object_lists k') type) =
  if bool_decide (name_bytes name = name_bytes name') then Some o
  else search k name' (lof (object_lists k) type).
Proof.
  intros [Hb Ho _] Hn. rewrite (bc_lof _ _ _ Hb), fn_lookup_insert. unfold search.
  cbn [List.find]. unfold named at 1. rewrite Ho, lookup_insert_eq. unfold name_matches. cbn [o_name].
  case_bool_decide; [done|]. clear Hb. induction (lof (object_lists k) type) as [|x l IH]; [done|].
  cbn [List.find]. apply not_elem_of_cons in Hn as [Hx Hn]. rewrite (IH Hn).
  unfold named. by rewrite Ho, lookup_insert_ne by done.
Qed.
