(* ===== verification/TimerProof.v ===== *)
(** * The timer list stays sorted

    [rt_timer_start] inserts a timer at its place, [rt_timer_stop] takes it
    out; the comparison of 32-bit ticks is right across their wrap-around. *)

From S2P Require Import Prelude DList ListStore SeqLemmas KString KState Scheduler ObjectSys Timer KernelWp KernelInv System KernelCheck.

(** ** Sorted and filtered lists *)

Lemma filter_ext_elem {A} (P Q : A → Prop) `{∀ x, Decision (P x), ∀ x, Decision (Q x)} (l : list A) :
  (∀ x, x ∈ l → P x ↔ Q x) → filter P l = filter Q l.
Proof.
  induction l as [|a l IH]; intros E; [done|]. rewrite !filter_cons.
  rewrite IH by (intros x Hx; apply E; by right).
  pose proof (E a (list_elem_of_here a l)) as Ea. repeat case_decide; tauto.
Qed.

Lemma sorted_filter {A} (P : A → Prop) `{∀ x, Decision (P x)} (f : A → Z) (l : list A) :
  StronglySorted Z.le (f <$> l) → StronglySorted Z.le (f <$> filter P l).
Proof.
  induction l as [|a l IH]; simpl; [done|]. intros [Hs Ha]%StronglySorted_inv.
  rewrite filter_cons. destruct (decide (P a)); [|auto].
  simpl. constructor; [auto|]. rewrite Forall_fmap in *. rewrite Forall_forall in *.
  intros x [_ Hx]%list_elem_of_filter. by apply Ha.
Qed.

Lemma sorted_app {A} (f : A → Z) (l1 l2 : list A) (x : A) :
  StronglySorted Z.le (f <$> l1 ++ l2) →
  (∀ y, y ∈ l1 → f y <= f x) → (∀ y, y ∈ l2 → f x <= f y) →
  StronglySorted Z.le (f <$> l1 ++ x :: l2).
Proof.
  induction l1 as [|a l1 IH]; simpl; intros Hs H1 H2.
  - constructor; [done|]. rewrite Forall_fmap, Forall_forall. auto.
  - apply StronglySorted_inv in Hs as [Hs Ha]. constructor; [apply IH; set_solver|].
    rewrite Forall_fmap in *. rewrite Forall_forall in *. intros y Hy.
    assert (y = x ∨ y ∈ l1 ++ l2) as [->|Hy'] by set_solver; [apply H1; left|by apply Ha].
Qed.

Lemma sorted_ext {A} (f g : A → Z) (l : list A) : (∀ x, x ∈ l → f x = g x) →
  StronglySorted Z.le (f <$> l) → StronglySorted Z.le (g <$> l).
Proof. intros E. by rewrite (list_fmap_ext f g l) by (intros ? ? ?%list_elem_of_lookup_2; auto). Qed.

(** ** The invariant when a timer or a thread changes *)

Section minv.
Context (lo now : Z) (l : list timer_ref) (tms : gmap timer_ref rt_timer) (ths : gmap Z rt_thread).
Context (I : minv lo now l tms ths).

(** A timer keeps what the invariant says of it apart from its time. *)
Definition same_timer (tm tm' : rt_timer) : Prop :=
  tm_timeout_func tm' = tm_timeout_func tm ∧
  (Z.land (tm_flag tm) RT_TIMER_FLAG_PERIODIC = 0 → Z.land (tm_flag tm') RT_TIMER_FLAG_PERIODIC = 0) ∧
  in_u32 (tm_init_tick tm') ∧ in_u32 (tm_timeout_tick tm') ∧ 0 <= tm_flag tm'.

Lemma remaining_other r tm' x : x ≠ r →
  remaining_of now (<[r := tm']> tms) x = remaining_of now tms x.
Proof. intros Hx. unfold remaining_of. by rewrite lookup_insert_ne. Qed.

Lemma own_insert r tm tm' : tms !! r = Some tm → same_timer tm tm' →
  ∀ t th, ths !! t = Some th →
    ∃ tm, <[r := tm']> tms !! ThreadTimer t = Some tm ∧ tm_timeout_func tm = thread_timeout t ∧
          Z.land (tm_flag tm) RT_TIMER_FLAG_PERIODIC = 0.
Proof using I.
  intros Hr (Hf&Hp&_) t th Ht. destruct (mi_own _ _ _ _ _ I t th Ht) as (tmt&Htm&Hft&Hpt).
  destruct (decide (r = ThreadTimer t)) as [->|].
  - rewrite lookup_insert_eq. simplify_eq. exists tm'. split_and!; [done|congruence|auto].
  - rewrite lookup_insert_ne by done. eauto.
Qed.

Lemma fields_insert r tm tm' : tms !! r = Some tm → same_timer tm tm' →
  ∀ x tmx, <[r := tm']> tms !! x = Some tmx →
    in_u32 (tm_init_tick tmx) ∧ in_u32 (tm_timeout_tick tmx) ∧ 0 <= tm_flag tmx.
Proof using I.
  intros Hr (_&_&?&?&?) x tmx Hx. destruct (decide (r = x)) as [->|].
  - rewrite lookup_insert_eq in Hx. by simplify_eq.
  - rewrite lookup_insert_ne in Hx by done. by eapply mi_fields.
Qed.

(** A timer is taken out of the list. *)
Lemma minv_del r tm tm' : tms !! r = Some tm → same_timer tm tm' →
  minv lo now (filter (λ x, x ≠ r) l) (<[r := tm']> tms) ths.
Proof using I.
  intros Hr Hst. split.
  - intros x [Hx Hl]%list_elem_of_filter. rewrite lookup_insert_ne by done. by eapply mi_range.
  - apply (sorted_ext (remaining_of now tms)).
    + intros x [Hx _]%list_elem_of_filter. by rewrite remaining_other.
    + by apply sorted_filter, I.
  - intros t [Hx Hl]%list_elem_of_filter. rewrite lookup_insert_ne by done. by eapply mi_active.
  - by eapply own_insert.
  - by eapply fields_insert.
Qed.

(** A timer that is not in the list changes. *)
Lemma minv_mod r tm tm' : tms !! r = Some tm → same_timer tm tm' → r ∉ l →
  minv lo now l (<[r := tm']> tms) ths.
Proof using I.
  intros Hr Hst Hl. pose proof (minv_del r tm tm' Hr Hst) as Hd.
  assert (filter (λ x, x ≠ r) l = l) as E; [|by rewrite E in Hd].
  clear -Hl. induction l as [|a l' IH]; [done|]. rewrite filter_cons_True by set_solver.
  f_equal. apply IH. set_solver.
Qed.

(** A timer that is not in the list is put into it. *)
Lemma minv_ins r tm tm' l1 l2 : tms !! r = Some tm → same_timer tm tm' → l = l1 ++ l2 → r ∉ l →
  lo <= remaining now tm' <= max_time →
  (∀ x, x ∈ l1 → remaining_of now tms x <= remaining now tm') →
  (∀ x, x ∈ l2 → remaining now tm' <= remaining_of now tms x) →
  (∀ t, r = ThreadTimer t → active tm' ∧ ∃ th, ths !! t = Some th ∧ th_stat th = RT_THREAD_SUSPEND) →
  minv lo now (l1 ++ r :: l2) (<[r := tm']> tms) ths.
Proof using I.
  intros Hr Hst El Hl Hrem H1 H2 Ht.
  assert (∀ x, x ∈ l1 ++ r :: l2 ↔ x = r ∨ x ∈ l) as Hin by (subst l; set_solver).
  assert (remaining_of now (<[r:=tm']> tms) r = remaining now tm') as Hself.
  { unfold remaining_of. by rewrite lookup_insert_eq. }
  split.
  - intros x [->|Hx]%Hin.
    + rewrite lookup_insert_eq. eauto.
    + rewrite lookup_insert_ne by (intros ->; done). by eapply mi_range.
  - apply sorted_app.
    + rewrite <-El. apply (sorted_ext (remaining_of now tms)); [|apply I].
      intros x Hx. rewrite remaining_other; [done|]. by intros ->.
    + intros x Hx. rewrite Hself, remaining_other; [auto|]. intros ->. apply Hl. subst l. set_solver.
    + intros x Hx. rewrite Hself, remaining_other; [auto|]. intros ->. apply Hl. subst l. set_solver.
  - intros t [E|Hx]%Hin.
    + destruct (Ht t) as (Ha&th&Hth&Hs); [done|]. rewrite <-E, lookup_insert_eq. eauto 10.
    + rewrite lookup_insert_ne by (intros ->; done). by eapply mi_active.
  - by eapply own_insert.
  - by eapply fields_insert.
Qed.

(** A thread changes: if its timer runs it stays suspended. *)
Lemma minv_thread t th th' : ths !! t = Some th →
  (ThreadTimer t ∈ l → th_stat th' = RT_THREAD_SUSPEND) →
  minv lo now l tms (<[t := th']> ths).
Proof using I.
  intros Ht Hs. split; [apply I|apply I| | |apply I].
  - intros u Hu. destruct (mi_active _ _ _ _ _ I u Hu) as (tm&thu&Htm&Ha&Hthu&Hsu).
    destruct (decide (u = t)) as [->|].
    + rewrite lookup_insert_eq. eauto 10.
    + rewrite lookup_insert_ne by done. eauto 10.
  - intros u thu Hu. destruct (decide (u = t)) as [->|].
    + by eapply mi_own.
    + rewrite lookup_insert_ne in Hu by done. by eapply mi_own.
Qed.

End minv.

(** ** Stopping *)

Lemma clear_periodic tm bits : Z.land (tm_flag tm) RT_TIMER_FLAG_PERIODIC = 0 →
  Z.land (tm_flag (clear_flag bits tm)) RT_TIMER_FLAG_PERIODIC = 0.
Proof.
  intros Hp. simpl. rewrite <-Z.land_assoc, (Z.land_comm (Z.lnot bits)), Z.land_assoc, Hp. done.
Qed.

Lemma clear_flag_same tm bits : 0 <= bits →
  in_u32 (tm_init_tick tm) ∧ in_u32 (tm_timeout_tick tm) ∧ 0 <= tm_flag tm →
  same_timer tm (clear_flag bits tm).
Proof.
  intros Hb (?&?&?). split_and!; try done.
  - apply clear_periodic.
  - apply Z.land_nonneg. by left.
Qed.

(** Everything but the timers. *)
Definition timer_part (tms : gmap timer_ref rt_timer) (T : seqs unit timer_ref) (k : kern) : kern :=
  set_timers tms (set_timer_list (LS:=seq_lists) T k).

Lemma wp_timer_stop r tm (k : kern) (Q : Z → kern → Prop) :
  negb (is_null (OTimer r)) = true → timers k !! r = Some tm → siminv (timer_list k) (timers k) →
  (¬ active tm → Q (- RT_ERROR) k) →
  (active tm → ∀ T', becomes (timer_list k) T' (list_del r (lof (timer_list k))) →
     Q RT_EOK (timer_part (<[r := clear_flag RT_TIMER_FLAG_ACTIVATED tm]> (timers k)) T' k)) →
  wp (rt_timer_stop r) k Q.
Proof.
  intros Hn Hr HS Hno Hyes. unfold rt_timer_stop. apply wp_bind, wp_assert; [done|]. wps.
  unfold active in *. case_bool_decide as E; [apply wp_ret, Hno; intros Hne; by apply Hne|].
  destruct (s_remove_spec (timer_list k) r) as (T'&HT'&Hb).
  { apply HS. }
  { apply (sm_elem _ _ HS). by rewrite Hr. }
  wps. unfold _rt_timer_remove. eapply wp_on_timers; [exact HT'|]. wps.
  specialize (Hyes E T' Hb). unfold timer_part in Hyes. by destruct k.
Qed.

Lemma siminv_becomes T T' L tms : siminv T tms → becomes T T' L → siminv T' tms.
Proof. intros [] []. split; auto. Qed.

Lemma siminv_insert T tms r tm tm' : tms !! r = Some tm → siminv T tms → siminv T (<[r := tm']> tms).
Proof.
  intros Hr [H1 H2 H3]. split; [done| |done]. intros x Hx. apply H2.
  destruct (decide (r = x)) as [->|]; [by rewrite Hr|]. by rewrite lookup_insert_ne in Hx.
Qed.

(** The timer of a thread is stopped, whether it ran or not. *)
Definition stopped (r : timer_ref) (k k' : kern) : Prop :=
  ∃ T' tms', k' = timer_part tms' T' k ∧ siminv T' tms' ∧
    lof T' tt = filter (λ x, x ≠ r) (lof (timer_list k) tt) ∧
    (∀ x, x ≠ r → tms' !! x = timers k !! x) ∧
    (∀ lo ths, minv lo (rt_tick k) (lof (timer_list k) tt) (timers k) ths →
               minv lo (rt_tick k) (lof T' tt) tms' ths).

Lemma timer_part_id (k : kern) : timer_part (timers k) (timer_list k) k = k.
Proof. by destruct k. Qed.

Lemma wp_stop_thread_timer lo t tm (k : kern) (Q : Z → kern → Prop) :
  timers k !! ThreadTimer t = Some tm → siminv (timer_list k) (timers k) →
  (ThreadTimer t ∈ lof (timer_list k) tt → active tm) →
  minv lo (rt_tick k) (lof (timer_list k) tt) (timers k) (threads k) →
  (∀ r k', stopped (ThreadTimer t) k k' → Q r k') →
  wp (rt_timer_stop (ThreadTimer t)) k Q.
Proof.
  intros Hr HS Hact Hmi HQ. eapply wp_timer_stop; [done|done|done| |].
  - intros Hna. apply HQ. exists (timer_list k), (timers k).
    assert (filter (λ x, x ≠ ThreadTimer t) (lof (timer_list k) tt) = lof (timer_list k) tt) as E.
    { apply (list_del_id (ThreadTimer t) (lof (timer_list k))). tauto. }
    split_and!; [by rewrite timer_part_id|done|done|done|auto].
  - intros Ha T' Hb. apply HQ. eexists T', _. split_and!; [done| | | |].
    + eapply siminv_insert; [done|]. by eapply siminv_becomes.
    + apply (bc_lof _ _ _ Hb).
    + intros x Hx. by rewrite lookup_insert_ne.
    + intros lo' ths Hmi'. rewrite (bc_lof _ _ _ Hb). eapply minv_del; [done|done|].
      apply clear_flag_same; [done|]. by eapply mi_fields.
Qed.

(** ** Starting *)

(** The comparison of ticks in [rt_timer_start] is that of the remaining
    times, however the counter wraps around. *)
Lemma tick_compare now a b :
  -1 <= s32 (a - now) <= max_time → 0 <= s32 (b - now) <= max_time →
  (u32 (a - b) = 0 ↔ s32 (a - now) = s32 (b - now)) ∧
  (u32 (a - b) < RT_TICK_MAX / 2 ↔ s32 (b - now) <= s32 (a - now)).
Proof.
  unfold max_time. change (RT_TICK_MAX / 2) with 2147483647. intros. split; mlia.
Qed.

Lemma start_remaining now init : in_u32 now → 0 <= init < RT_TICK_MAX / 2 →
  s32 (u32 (now + init) - now) = init.
Proof. change (RT_TICK_MAX / 2) with 2147483647. intros. mlia. Qed.

Section scan.
Context (lo : Z) (k : kern) (r : timer_ref) (tm : rt_timer).
Context (Hlo : -1 <= lo) (HS : siminv (timer_list k) (timers k)).
Context (Hmi : minv lo (rt_tick k) (lof (timer_list k) tt) (timers k) (threads k)).
Context (Hr : timers k !! r = Some tm).
Context (Hrem : 0 <= remaining (rt_tick k) tm <= max_time).

Abbreviation l := (lof (timer_list k) tt).
Abbreviation rem := (remaining_of (rt_tick k) (timers k)).
Abbreviation d := (remaining (rt_tick k) tm).

(** The position found: the timers before it expire no later, the one after
    it, and so all of them, later. *)
Lemma timer_scan_spec fuel l1 l2 (Q : node unit timer_ref → kern → Prop) :
  l = l1 ++ l2 → (length l2 < fuel)%nat → (∀ x, x ∈ l1 → rem x <= d) →
  (∀ l1' l2', l = l1' ++ l2' → (∀ x, x ∈ l1' → rem x <= d) → (∀ x, x ∈ l2' → d < rem x) →
     Q (default (Hd tt) (El <$> last l1')) k) →
  wp (timer_scan fuel (default (Hd tt) (El <$> last l1)) r) k Q.
Proof using Hlo HS Hmi Hr Hrem.
  revert l1 l2. induction fuel as [|fuel IH]; intros l1 l2 Hl Hf H1 HQ; [lia|].
  cbn [timer_scan]. apply wp_bind.
  eapply wp_kopt; [apply s_prev_head, HS|].
  pose proof (swf_nodup _ (sm_swf _ _ HS) tt) as Hnd. rewrite Hl in Hnd.
  destruct l2 as [|x l2].
  { rewrite Hl, app_nil_r, bool_decide_true by done. apply wp_ret, (HQ l1 []);
      [by rewrite Hl, app_nil_r|done|set_solver]. }
  assert (default (Hd tt) (El <$> last l1) ≠ default (Hd tt) (El <$> last l)) as Hne.
  { rewrite Hl. intros E. rewrite last_app_cons in E.
    destruct (last_is_Some (x :: l2)) as [_ Hsome]. destruct Hsome as [z Hz]; [done|].
    rewrite Hz in E. apply last_Some_elem_of in Hz.
    destruct (last l1) as [y|] eqn:Hy; simpl in E; [|done]. injection E as ->.
    apply last_Some_elem_of in Hy. apply NoDup_app in Hnd as (_&Hd&_). by apply (Hd z). }
  rewrite bool_decide_false by done. apply wp_bind.
  assert (l_next (default (Hd tt) (El <$> last l1)) (timer_list k) = Some (El x)) as Hnext.
  { destruct l1 as [|y l1 _] using rev_ind; simpl.
    - rewrite s_next_head by apply HS. by rewrite Hl.
    - rewrite last_snoc. simpl. rewrite (s_next_elem _ tt l1 y (x :: l2)).
      + done.
      + apply HS.
      + by rewrite Hl, <-(assoc_L (++)). }
  eapply wp_kopt; [exact Hnext|].
  destruct (mi_range _ _ _ _ _ Hmi x) as (tx&Htx&Hx); [rewrite Hl; set_solver|].
  wps. pose proof (tick_compare (rt_tick k) (tm_timeout_tick tx) (tm_timeout_tick tm)) as [C0 C1].
  { unfold remaining in Hx. lia. }
  { done. }
  fold (remaining (rt_tick k) tx) in C0, C1. fold d in C0, C1.
  assert (rem x = remaining (rt_tick k) tx) as Ex by (unfold remaining_of; by rewrite Htx).
  assert (remaining (rt_tick k) tx <= d → wp (timer_scan fuel (El x) r) k Q) as Hgo.
  { intros Hle. pose proof (IH (l1 ++ [x]) l2) as IH'. rewrite last_snoc in IH'.
    apply IH'; [by rewrite Hl, <-(assoc_L (++))|simpl in Hf; lia| |done].
    intros y [Hy| ->%list_elem_of_singleton]%elem_of_app; [by apply H1|lia]. }
  case_bool_decide as E0; [apply Hgo; apply C0 in E0; lia|].
  case_bool_decide as E1; [|apply Hgo; lia].
  apply wp_ret, (HQ l1 (x :: l2)); [done..|]. apply C1 in E1. rewrite C0 in E0.
  pose proof (mi_sorted _ _ _ _ _ Hmi) as Hsort. rewrite Hl, fmap_app in Hsort.
  apply StronglySorted_app_1_r in Hsort. simpl in Hsort. apply StronglySorted_inv in Hsort as [_ Hall].
  rewrite Forall_fmap, Forall_forall in Hall. intros y [->|Hy]%elem_of_cons; [lia|].
  specialize (Hall y Hy). simpl in Hall. lia.
Qed.

End scan.
#[local] Arguments timer_scan : simpl never.

(** A started timer: its timeout is its time from now. *)
Definition armed (now : Z) (tm : rt_timer) : rt_timer :=
  raise_flag RT_TIMER_FLAG_ACTIVATED
    (set_tm_timeout_tick (u32 (now + tm_init_tick tm)) (clear_flag RT_TIMER_FLAG_ACTIVATED tm)).

Lemma raise_activated_same tm :
  in_u32 (tm_init_tick tm) ∧ in_u32 (tm_timeout_tick tm) ∧ 0 <= tm_flag tm →
  same_timer tm (raise_flag RT_TIMER_FLAG_ACTIVATED tm).
Proof.
  intros (?&?&?). split_and!; simpl; try done.
  - intros Hz. by rewrite Z.land_lor_distr_l, Hz.
  - by apply Z.lor_nonneg.
Qed.

Lemma same_timer_trans tm1 tm2 tm3 : same_timer tm1 tm2 → same_timer tm2 tm3 → same_timer tm1 tm3.
Proof. intros (?&?&_) (?&?&?). split_and!; [congruence|auto|tauto..]. Qed.

Lemma armed_same now tm :
  in_u32 (tm_init_tick tm) ∧ in_u32 (tm_timeout_tick tm) ∧ 0 <= tm_flag tm →
  same_timer tm (armed now tm).
Proof.
  intros Hf. destruct (clear_flag_same tm RT_TIMER_FLAG_ACTIVATED ltac:(done) Hf)
    as (?&Hp&?&?&Hn). unfold armed. split_and!; simpl in *; try done.
  - intros Hz. specialize (Hp Hz). rewrite Z.land_lor_distr_l, Hp. done.
  - apply u32_range.
  - by apply Z.lor_nonneg.
Qed.

Lemma armed_active now tm : active (armed now tm).
Proof.
  unfold active, armed; simpl. intros E. apply (f_equal (λ z, Z.testbit z 0)) in E.
  rewrite Z.land_spec, Z.lor_spec, orb_true_r in E. done.
Qed.

(** Putting a timer after the node the scan found. *)
Lemma insert_at (T : seqs unit timer_ref) l1 l2 r : swf T → is_Some (s_lists T !! tt) →
  lof T tt = l1 ++ l2 → r ∉ lof T tt →
  ∃ T', s_insert_after (default (Hd tt) (El <$> last l1)) (El r) T = Some T' ∧
        becomes T T' (<[tt := l1 ++ r :: l2]> (lof T)).
Proof.
  intros Hwf Hh E Hr. assert (detached (lof T) r) as Hdet by (by intros []).
  destruct l1 as [|y l1 _] using rev_ind.
  - simpl in *. rewrite <-E. by apply s_prepend_spec.
  - rewrite last_snoc. simpl. rewrite <-(assoc_L (++)) in *.
    by apply s_insert_after_spec.
Qed.

Section start.
Context (lo : Z) (k : kern) (r : timer_ref) (tm : rt_timer).
Context (Hlo : -1 <= lo <= 0) (HS : siminv (timer_list k) (timers k)).
Context (Hmi : minv lo (rt_tick k) (lof (timer_list k) tt) (timers k) (threads k)).
Context (Htick : in_u32 (rt_tick k)).
Context (Hnull : negb (is_null (OTimer r)) = true).
Context (Hr : timers k !! r = Some tm).
Context (Hinit : tm_init_tick tm < RT_TICK_MAX / 2).
Context (Hth : ∀ t, r = ThreadTimer t → ∃ th, threads k !! t = Some th ∧
                                              th_stat th = RT_THREAD_SUSPEND).

(** The timer list and the timers after a start. *)
Definition started (k' : kern) : Prop :=
  ∃ T' l1 l2, k' = timer_part (<[r := armed (rt_tick k) tm]> (timers k)) T' k ∧
    filter (λ x, x ≠ r) (lof (timer_list k) tt) = l1 ++ l2 ∧ lof T' tt = l1 ++ r :: l2 ∧
    (∀ x, x ∈ l1 → remaining_of (rt_tick k) (timers k) x <= tm_init_tick tm) ∧
    (∀ x, x ∈ l2 → tm_init_tick tm < remaining_of (rt_tick k) (timers k) x) ∧
    siminv T' (<[r := armed (rt_tick k) tm]> (timers k)) ∧
    minv lo (rt_tick k) (lof T' tt) (<[r := armed (rt_tick k) tm]> (timers k)) (threads k).

(** The timer with its new timeout, still out of the list. *)
Definition pending : rt_timer :=
  set_tm_timeout_tick (u32 (rt_tick k + tm_init_tick tm)) (clear_flag RT_TIMER_FLAG_ACTIVATED tm).

#[local] Lemma init_range : 0 <= tm_init_tick tm < RT_TICK_MAX / 2.
Proof using Hmi Hr Hinit. destruct (mi_fields _ _ _ _ _ Hmi r tm Hr) as [[? ?] _]. lia. Qed.

#[local] Lemma pending_same : same_timer tm pending.
Proof using Hmi Hr.
  destruct (clear_flag_same tm RT_TIMER_FLAG_ACTIVATED ltac:(done) (mi_fields _ _ _ _ _ Hmi r tm Hr))
    as (?&?&?&?&?). unfold pending. split_and!; simpl in *; try done; apply u32_range.
Qed.

#[local] Lemma remaining_new tm' : tm_timeout_tick tm' = u32 (rt_tick k + tm_init_tick tm) →
  remaining (rt_tick k) tm' = tm_init_tick tm.
Proof using Htick Hmi Hr Hinit.
  intros E. unfold remaining. rewrite E. apply start_remaining; [done|apply init_range].
Qed.

#[local] Lemma minv_started l0 l1 l2 : minv lo (rt_tick k) l0 (<[r := pending]> (timers k)) (threads k) →
  r ∉ l0 → l0 = l1 ++ l2 →
  (∀ x, x ∈ l1 → remaining_of (rt_tick k) (<[r := pending]> (timers k)) x <=
                 remaining (rt_tick k) pending) →
  (∀ x, x ∈ l2 → remaining (rt_tick k) pending <
                 remaining_of (rt_tick k) (<[r := pending]> (timers k)) x) →
  minv lo (rt_tick k) (l1 ++ r :: l2) (<[r := armed (rt_tick k) tm]> (timers k)) (threads k).
Proof using All.
  intros I Hl El H1 H2. rewrite <-(insert_insert_eq (timers k) r _ pending).
  pose proof init_range as Hir.
  pose proof (remaining_new (armed (rt_tick k) tm) eq_refl) as Hra.
  rewrite (remaining_new pending eq_refl) in H1, H2.
  assert (∀ x, x ∈ l2 → tm_init_tick tm <= remaining_of (rt_tick k) (<[r := pending]> (timers k)) x) as H3
    by (intros x Hx; specialize (H2 x Hx); lia).
  eapply minv_ins; [exact I|apply lookup_insert_eq| |done|done| | | |]; rewrite ?Hra; try done.
  - apply (raise_activated_same pending). destruct pending_same as (_&_&?&?&?). done.
  - unfold max_time. change (RT_TICK_MAX / 2) with 2147483647 in *. lia.
  - intros t Et. split; [apply armed_active|auto].
Qed.

Lemma wp_timer_start (Q : Z → kern → Prop) :
  (∀ k', started k' → Q (- RT_EOK) k') → wp (rt_timer_start r) k Q.
Proof using All.
  intros HQ. unfold rt_timer_start. apply wp_bind, wp_assert; [done|]. wps.
  destruct (s_remove_spec (timer_list k) r) as (T1&HT1&Hb1).
  { apply HS. } { apply (sm_elem _ _ HS). by rewrite Hr. }
  unfold _rt_timer_remove. eapply wp_on_timers; [exact HT1|]. wps.
  eapply wp_get_timer; [apply lookup_insert_eq|]. wps.
  eapply wp_mod_timer; [apply lookup_insert_eq|]. wps. simpl.
  rewrite insert_insert_eq. fold pending.
  set (tms1 := <[r := pending]> (timers k)).
  assert (lof T1 tt = filter (λ x, x ≠ r) (lof (timer_list k) tt)) as HlT1 by apply (bc_lof _ _ _ Hb1).
  assert (minv lo (rt_tick k) (lof T1 tt) tms1 (threads k)) as Hmi1.
  { rewrite HlT1. eapply minv_del; [done|done|apply pending_same]. }
  assert (siminv T1 tms1) as HS1.
  { eapply siminv_insert; [done|]. by eapply siminv_becomes. }
  assert (r ∉ lof T1 tt) as Hnin by (rewrite HlT1; intros [? _]%list_elem_of_filter; done).
  pose proof init_range as Hir. pose proof (remaining_new pending eq_refl) as Hrp.
  set (k1 := set_primask 1 _).
  eapply (timer_scan_spec lo k1 r pending ltac:(lia) HS1 Hmi1 (lookup_insert_eq _ _ _)
    ltac:(simpl; rewrite Hrp; unfold max_time; change (RT_TICK_MAX / 2) with 2147483647 in *; lia)
    _ [] (lof T1 tt)); [done| |set_solver|].
  { simpl. apply Nat.lt_succ_r, NoDup_keys_size; [apply (sm_swf _ _ HS1)|].
    intros x Hx. destruct (mi_range _ _ _ _ _ Hmi1 x Hx) as (?&Hx'&_).
    by rewrite Hx'. }
  intros l1 l2 El H1 H2. simpl in El. wps.
  destruct (insert_at T1 l1 l2 r) as (T2&HT2&Hb2); [apply HS1|apply HS1|done|done|].
  eapply wp_on_timers; [exact HT2|]. wps.
  eapply wp_mod_timer; [apply lookup_insert_eq|]. wps. apply HQ.
  pose proof (remaining_new (armed (rt_tick k) tm) eq_refl) as Hra.
  assert (lof T2 tt = l1 ++ r :: l2) as HlT2 by (rewrite (bc_lof _ _ _ Hb2); apply fn_lookup_insert).
  exists T2, l1, l2. split_and!.
  - unfold timer_part. fold (armed (rt_tick k) tm). subst k1. simpl. unfold tms1. rewrite insert_insert_eq. unfold pending. by destruct k.
  - by rewrite <-HlT1.
  - done.
  - intros x Hx. specialize (H1 x Hx). simpl in H1. unfold tms1 in H1. rewrite Hrp, remaining_other in H1; [done|].
    intros ->. apply Hnin. rewrite El. set_solver.
  - intros x Hx. specialize (H2 x Hx). simpl in H2. unfold tms1 in H2. rewrite Hrp, remaining_other in H2; [done|].
    intros ->. apply Hnin. rewrite El. set_solver.
  - rewrite <-(insert_insert_eq (timers k) r _ pending).
    eapply siminv_insert; [apply lookup_insert_eq|]. by eapply siminv_becomes.
  - rewrite HlT2. by eapply minv_started.
Qed.

End start.

Lemma kinv_started lo (k : kern) r tm k' : kinv_at lo k → started lo (k : kern) r tm k' → kinv_at lo k'.
Proof. intros [] (T'&l1&l2&->&_&_&_&_&?&?). by split. Qed.

(** C9: A started timer runs for exactly its time: it stands behind the timers that
    expire no later and before those that expire later, with the ticks counted
    modulo 2^32, and the list stays sorted. *)
Theorem rt_timer_start_correct (k : kern) r tm : kinv k → negb (is_null (OTimer r)) = true →
  timers k !! r = Some tm → tm_init_tick tm < RT_TICK_MAX / 2 →
  (∀ t, r = ThreadTimer t → ∃ th, threads k !! t = Some th ∧ th_stat th = RT_THREAD_SUSPEND) →
  ∃ k' l1 l2, rt_timer_start r k = Ok (- RT_EOK) k' ∧ kinv k' ∧
    filter (λ x, x ≠ r) (lof (timer_list k) tt) = l1 ++ l2 ∧ lof (timer_list k') tt = l1 ++ r :: l2 ∧
    (∀ x, x ∈ l1 → remaining_of (rt_tick k) (timers k) x <= tm_init_tick tm) ∧
    (∀ x, x ∈ l2 → tm_init_tick tm < remaining_of (rt_tick k) (timers k) x) ∧
    remaining_of (rt_tick k') (timers k') r = tm_init_tick tm.
Proof.
  intros I Hn Hr Hi Hth.
  destruct (wp_run (rt_timer_start r) k (λ r' k', r' = - RT_EOK ∧ started 0 k r tm k')) as (r'&k'&E&->&Hs).
  { apply (wp_timer_start 0 k r tm); try done; try apply I; lia. }
  pose proof (kinv_started _ _ _ _ _ I Hs) as I'. destruct Hs as (T'&l1&l2&->&E1&E2&H1&H2&_&_).
  exists (timer_part (<[r := armed (rt_tick k) tm]> (timers k)) T' k), l1, l2. split_and!; try done.
  unfold remaining_of. simpl. rewrite lookup_insert_eq. apply start_remaining; [apply I|].
  destruct (mi_fields _ _ _ _ _ (ki_timers _ _ I) r tm Hr) as [[? _] _]. lia.
Qed.

Lemma rt_timer_start_correct_witness : ∃ k' l1 l2,
  rt_timer_start (UserTimer the_timer) (demo [Call (CThreadSleep 3)]) = Ok (- RT_EOK) k' ∧ kinv k' ∧
  filter (λ x, x ≠ UserTimer the_timer) (lof (timer_list (demo [Call (CThreadSleep 3)])) tt) = l1 ++ l2 ∧
  lof (timer_list k') tt = l1 ++ UserTimer the_timer :: l2.
Proof.
  destruct (rt_timer_start_correct (demo [Call (CThreadSleep 3)]) (UserTimer the_timer)
    (Timer 3 (user_timeout 1 0) 7 7)) as (k'&l1&l2&?&?&?&?&_).
  - apply kinv_b_sound. vm_compute. reflexivity.
  - vm_compute. reflexivity.
  - vm_compute. reflexivity.
  - vm_compute. reflexivity.
  - intros t E. discriminate E.
  - exists k', l1, l2. auto.
Defined.

(** Stopping a running timer takes it out of the list and clears its flag;
    stopping another one reports an error and changes nothing. *)
Theorem rt_timer_stop_correct (k : kern) r tm : kinv k → negb (is_null (OTimer r)) = true →
  timers k !! r = Some tm →
  (active tm → ∃ k', rt_timer_stop r k = Ok RT_EOK k' ∧ kinv k' ∧
     lof (timer_list k') tt = filter (λ x, x ≠ r) (lof (timer_list k) tt) ∧
     timers k' = <[r := clear_flag RT_TIMER_FLAG_ACTIVATED tm]> (timers k) ∧
     threads k' = threads k ∧ thread_lists k' = thread_lists k) ∧
  (¬ active tm → rt_timer_stop r k = Ok (- RT_ERROR) k).
Proof.
  intros I Hn Hr. split.
  - intros Ha. destruct (wp_run (rt_timer_stop r) k (λ r' k', r' = RT_EOK ∧
      ∃ T', becomes (timer_list k) T' (list_del r (lof (timer_list k))) ∧
      k' = timer_part (<[r := clear_flag RT_TIMER_FLAG_ACTIVATED tm]> (timers k)) T' k))
      as (?&?&E&->&T'&Hb&->).
    { eapply wp_timer_stop; [done|done|apply I|done|]. eauto. }
    eexists. split_and!; [exact E| |apply Hb|done..]. destruct I as [I1 I2 I3 I4 I5 I6]. split; try done.
    + simpl. rewrite (bc_lof _ _ _ Hb). eapply minv_del; [done|done|].
      apply clear_flag_same; [done|]. by eapply mi_fields.
    + eapply siminv_insert; [done|]. by eapply siminv_becomes.
  - intros Hna. destruct (wp_run (rt_timer_stop r) k (λ r' k', r' = - RT_ERROR ∧ k' = k))
      as (?&?&E&->&->); [|done].
    by eapply wp_timer_stop; [done|done|apply I|..].
Qed.

Lemma rt_timer_stop_correct_witness : ∃ k',
  rt_timer_stop (UserTimer the_timer) (demo []) = Ok RT_EOK k' ∧ kinv k' ∧ lof (timer_list k') tt = [].
Proof.
  destruct (rt_timer_stop_correct (demo []) (UserTimer the_timer) (Timer 3 (user_timeout 1 0) 7 7))
    as [Hs _].
  - apply kinv_b_sound. vm_compute. reflexivity.
  - vm_compute. reflexivity.
  - vm_compute. reflexivity.
  - destruct Hs as (k'&E&I&El&_); [vm_compute; discriminate|]. exists k'. split_and!; [done..|].
    rewrite El. vm_compute. reflexivity.
Defined.
