(* ===== verification/ThreadProof.v ===== *)
(** * Thread management is correct

    What suspending, resuming, starting, yielding and the change of a priority
    do to the threads and their queues, and that the invariant holds again
    when they return. *)

From S2P Require Import Prelude DList ListStore SeqLemmas KString KState Scheduler ObjectSys Timer ThreadSys KernelWp KernelInv System KernelCheck SchedProof TimerProof.

(** ** What a call leaves alone *)

(** The threads, their queues, the bitmap and the timers of a kernel replaced. *)
Definition with_core (ths : gmap Z rt_thread) (S : seqs thread_queue Z) (g : Z)
    (tms : gmap timer_ref rt_timer) (T : seqs unit timer_ref) (k : kern) : kern :=
  set_threads ths (set_thread_lists (LS:=seq_lists) S (set_rt_thread_ready_priority_group g
    (set_timers tms (set_timer_list (LS:=seq_lists) T k)))).

(** Nothing but those differs. *)
Definition same_rest (k k' : kern) : Prop :=
  k' = with_core (threads k') (thread_lists k') (rt_thread_ready_priority_group k')
         (timers k') (timer_list k') k.

#[global] Instance same_rest_refl : Reflexive same_rest.
Proof. intros []. done. Qed.
#[global] Instance same_rest_trans : Transitive same_rest.
Proof. unfold same_rest. intros [] [] [] H12 H23. injection H12; injection H23. intros; by subst. Qed.

Section same_rest.
Context (k k' : kern) (H : same_rest k k').
Lemma sr_tick : rt_tick k' = rt_tick k. Proof using H. by rewrite H. Qed.
Lemma sr_current : rt_current_thread k' = rt_current_thread k. Proof using H. by rewrite H. Qed.
Lemma sr_lock : rt_scheduler_lock_nest k' = rt_scheduler_lock_nest k.
Proof using H. by rewrite H. Qed.
Lemma sr_nest : rt_interrupt_nest k' = rt_interrupt_nest k. Proof using H. by rewrite H. Qed.
Lemma sr_primask : primask k' = primask k. Proof using H. by rewrite H. Qed.
Lemma sr_sems : sems k' = sems k. Proof using H. by rewrite H. Qed.
Lemma sr_mutexes : mutexes k' = mutexes k. Proof using H. by rewrite H. Qed.
Lemma sr_events : events k' = events k. Proof using H. by rewrite H. Qed.
Lemma sr_mailboxes : mailboxes k' = mailboxes k. Proof using H. by rewrite H. Qed.
Lemma sr_mqueues : mqueues k' = mqueues k. Proof using H. by rewrite H. Qed.
Lemma sr_mempools : mempools k' = mempools k. Proof using H. by rewrite H. Qed.
Lemma sr_pool_words : pool_words k' = pool_words k. Proof using H. by rewrite H. Qed.
Lemma sr_completions : completions k' = completions k. Proof using H. by rewrite H. Qed.
Lemma sr_dataqueues : dataqueues k' = dataqueues k. Proof using H. by rewrite H. Qed.
End same_rest.

(** Interrupts are disabled around the work. *)
Lemma same_rest_primask (k k' : kern) : same_rest (set_primask 1 k) k' →
  same_rest k (set_primask (primask k) k').
Proof. unfold same_rest. intros ->. by destruct k. Qed.

Lemma same_rest_lists S (k k' : kern) : same_rest k k' →
  same_rest k (set_thread_lists (LS:=seq_lists) S k').
Proof. intros Hr. etrans; [exact Hr|]. by destruct k'. Qed.

(** ** Moving a thread *)

(** [t] becomes [th'], the queues become [L'] and the timer list [l']. *)
Record moved (lo t : Z) (th' : rt_thread) (L' : queues) (l' : list timer_ref) (k k' : kern) : Prop := {
  mv_rest : same_rest k k';
  mv_inv : kinv_at lo k';
  mv_threads : threads k' = <[t := th']> (threads k);
  mv_lists q : lof (thread_lists k') q = L' q;
  mv_heads q : is_Some (s_lists (thread_lists k) !! q) → is_Some (s_lists (thread_lists k') !! q);
  mv_timer_list : lof (timer_list k') tt = l';
  mv_timers r : r ≠ ThreadTimer t → timers k' !! r = timers k !! r;
}.

Lemma moved_primask lo t th' L' l' (k k' : kern) : moved lo t th' L' l' (set_primask 1 k) k' →
  moved lo t th' L' l' k (set_primask (primask k) k').
Proof.
  intros [Hr Hi Ht Hl Hh Htl Htm]. split; try done.
  - by apply same_rest_primask.
  - by apply (kinv_at_irrelevant lo k').
Qed.

(** The thread was changed before. *)
Lemma moved_set_thread lo t th1 th' L' l' (k k' : kern) :
  moved lo t th' L' l' (set_threads (<[t := th1]> (threads k)) k) k' → moved lo t th' L' l' k k'.
Proof.
  intros [Hr Hi Ht Hl Hh Htl Htm]. split; try done.
  rewrite Ht. simpl. apply insert_insert_eq.
Qed.

(** The bitmap follows a removal. *)
Lemma ginv_remove g L t p : ginv g L → 0 <= p < RT_THREAD_PRIORITY_MAX →
  (∀ q, q ≠ p → t ∉ L (QReady q)) →
  ginv (if bool_decide (list_del t L (QReady p) = []) then Z.land g (Z.lnot (2 ^ p)) else g)
       (list_del t L).
Proof.
  intros Hg Hp Hother. case_bool_decide as E.
  - eapply ginv_clear; [done..|]. intros q Hq. by apply list_del_id, Hother.
  - eapply ginv_ext, Hg. intros q. destruct (decide (q = p)) as [->|Hq].
    + split; [|done]. intros _ E0. apply E. unfold list_del. by rewrite E0.
    + by rewrite list_del_id by auto.
Qed.

Lemma ginv_lists g L L' : (∀ q, L' q = L q) → ginv g L → ginv g L'.
Proof. intros E. apply ginv_ext. intros p. by rewrite E. Qed.

Lemma tinv_lists L L' ths : (∀ q, L' q = L q) → tinv L ths → tinv L' ths.
Proof.
  intros E [H1 H2 H3]. split; [| |done].
  - intros q t. rewrite E. apply H1.
  - intros t th. rewrite E. apply H2.
Qed.

Lemma sinv_insert S S' L ths t th th' : sinv S ths → ths !! t = Some th → becomes S S' L →
  sinv S' (<[t := th']> ths).
Proof.
  intros [H1 H2 H3 H4] Ht Hb. split.
  - apply Hb.
  - intros u Hu. apply (bc_elems _ _ _ Hb), H2. destruct (decide (t = u)) as [->|].
    + by rewrite Ht.
    + by rewrite lookup_insert_ne in Hu.
  - intros p Hp. by apply (bc_heads _ _ _ Hb), H3.
  - by apply (bc_heads _ _ _ Hb).
Qed.

Lemma wf_stat t th s : thread_wf t th → th_stat th ≠ RT_THREAD_INIT → thread_wf t (set_th_stat s th).
Proof. intros [] Hs. split; simpl; auto. Qed.

(** [t] goes to the end of the ready list of priority [p]. *)
Definition enqueue (t p : Z) (L : queues) : queues :=
  <[QReady p := list_del t L (QReady p) ++ [t]]> (list_del t L).

Lemma becomes_enqueue S S1 S2 t p : becomes S S1 (list_del t (lof S)) →
  becomes S1 S2 (<[QReady p := lof S1 (QReady p) ++ [t]]> (lof S1)) →
  becomes S S2 (enqueue t p (lof S)).
Proof.
  intros H1 H2. eapply becomes_ext, becomes_trans; [|done|exact H2].
  intros q. unfold enqueue. rewrite <-(bc_lof _ _ _ H1).
  destruct (decide (QReady p = q)) as [<-|]; [by rewrite !fn_lookup_insert|].
  by rewrite !fn_lookup_insert_ne, (bc_lof _ _ _ H1) by done.
Qed.

Lemma tinv_enqueue L ths t th' : tinv L ths → thread_wf t th' → th_stat th' = RT_THREAD_READY →
  tinv (enqueue t (th_current_priority th') L) (<[t := th']> ths).
Proof.
  intros I Hwf Hs. rewrite <-(insert_insert_eq ths t th' (set_th_stat RT_THREAD_CLOSE th')).
  eapply tinv_enter; [apply tinv_leave; [done|done|]|apply list_del_detached| |done|done].
  - apply wf_stat; [done|by rewrite Hs].
  - by rewrite app_nil_r.
Qed.

Lemma enqueue_other t p L q : q ≠ p → enqueue t p L (QReady q) = list_del t L (QReady q).
Proof. intros Hq. unfold enqueue. rewrite fn_lookup_insert_ne; [done|congruence]. Qed.

Lemma enqueue_self t p L : enqueue t p L (QReady p) = list_del t L (QReady p) ++ [t].
Proof. apply fn_lookup_insert. Qed.

Lemma enqueue_ne_nil t p L : enqueue t p L (QReady p) ≠ [].
Proof. rewrite enqueue_self. by destruct (list_del _ _ _). Qed.

Lemma some_ready_enqueue t p L : 0 <= p < RT_THREAD_PRIORITY_MAX → some_ready (enqueue t p L).
Proof. intros Hp. exists p. split; [done|]. apply enqueue_ne_nil. Qed.

Lemma some_ready_ext L L' : (∀ q, L' q = L q) → some_ready L → some_ready L'.
Proof. intros E (p&Hp&Hne). exists p. by rewrite E. Qed.

Lemma ginv_enqueue g L t p : ginv g (list_del t L) → 0 <= p < RT_THREAD_PRIORITY_MAX →
  ginv (Z.lor g (2 ^ p)) (enqueue t p L).
Proof.
  intros Hg Hp. eapply ginv_set; [done..| |].
  - apply enqueue_ne_nil.
  - intros q Hq. by apply enqueue_other.
Qed.

Section one.
Context (lo : Z) (k : kern) (t : Z) (th : rt_thread).
Context (I : kinv_at lo k) (Ht : threads k !! t = Some th).

Abbreviation L := (lof (thread_lists k)).
Abbreviation l := (lof (timer_list k) tt).
Abbreviation p := (th_current_priority th).

Lemma thread_ok : thread_wf t th.
Proof using I Ht. by eapply ti_wf, Ht; apply I. Qed.

Lemma ready_list : is_Some (s_lists (thread_lists k) !! QReady p).
Proof using I Ht. apply (si_ready _ _ (ki_store _ _ I)), thread_ok. Qed.

Lemma thread_elem : t ∈ s_elems (thread_lists k).
Proof using I Ht. apply (si_elem _ _ (ki_store _ _ I)). by rewrite Ht. Qed.

Lemma other_ready q : q ≠ p → t ∉ L (QReady q).
Proof using I Ht.
  intros Hq Hin. destruct (tinv_ready_only _ _ (ki_threads _ _ I) t th q Ht Hin). done.
Qed.

Lemma own_timer : ∃ tm, timers k !! ThreadTimer t = Some tm ∧
  tm_timeout_func tm = thread_timeout t ∧ (ThreadTimer t ∈ l → active tm).
Proof using I Ht.
  destruct (mi_own _ _ _ _ _ (ki_timers _ _ I) t th Ht) as (tm&Htm&Hf&_).
  exists tm. split_and!; [done..|]. intros Hin.
  destruct (mi_active _ _ _ _ _ (ki_timers _ _ I) t Hin) as (tm'&?&?&?&_). by simplify_eq.
Qed.

(** Only a suspended thread has its timer running. *)
Lemma no_timer : th_stat th ≠ RT_THREAD_SUSPEND → ThreadTimer t ∉ l.
Proof using I Ht.
  intros Hs Hin. destruct (mi_active _ _ _ _ _ (ki_timers _ _ I) t Hin) as (?&th'&_&_&?&?).
  by simplify_eq.
Qed.

(** ** Suspend *)

Lemma wp_suspend (Q : Z → kern → Prop) : th_stat th = RT_THREAD_READY →
  (∀ k', moved lo t (set_th_stat RT_THREAD_SUSPEND th) (list_del t L) l k k' → Q RT_EOK k') →
  wp (rt_thread_suspend t) k Q.
Proof using I Ht.
  intros Hs HQ. pose proof thread_ok as Hwf. pose proof (tw_null _ _ Hwf) as Hnull.
  destruct own_timer as (tm&Htm&_&Hact).
  assert (ThreadTimer t ∉ l) as Hnot by (apply no_timer; by rewrite Hs).
  unfold rt_thread_suspend. wps. rewrite bool_decide_false by (intros ?; done). wps.
  eapply wp_remove_thread; [done|apply lookup_insert_eq|apply I|exact ready_list|exact thread_elem|].
  intros S' HS'. wps. set (k1 := set_rt_thread_ready_priority_group _ _).
  assert (minv lo (rt_tick k) l (timers k) (<[t := set_th_stat RT_THREAD_SUSPEND th]> (threads k))) as Hm
    by (eapply minv_thread; [apply I|done|done]).
  eapply (wp_stop_thread_timer lo t tm k1); [done|apply I|done|exact Hm|].
  intros r k2 (T'&tms'&->&HS&Hl&Htms&Hmi). wps. apply HQ.
  apply (moved_primask _ _ _ _ _ k). split; simpl; try done.
  - split; simpl.
    + eapply tinv_lists; [apply HS'|]. apply tinv_leave; [apply I|done|]. apply wf_stat; [done|by rewrite Hs].
    + eapply ginv_lists; [apply HS'|]. rewrite (tw_mask _ _ Hwf) by by rewrite Hs.
      apply ginv_remove; [apply I|apply Hwf|apply other_ready].
    + eapply sinv_insert; [apply I|done..].
    + auto.
    + done.
    + apply I.
  - apply HS'.
  - apply HS'.
  - rewrite Hl. apply (list_del_id (ThreadTimer t) (lof (timer_list k))). done.
Qed.

(** ** Resume *)

Lemma not_ready_del : th_stat th ≠ RT_THREAD_READY → ∀ q, list_del t L (QReady q) = L (QReady q).
Proof using I Ht.
  intros Hs q. apply list_del_id. intros Hin.
  by destruct (tinv_ready_only _ _ (ki_threads _ _ I) t th q Ht Hin).
Qed.

(** The group of a kernel in which [t] left its queue. *)
Lemma ginv_not_ready : th_stat th ≠ RT_THREAD_READY →
  ginv (rt_thread_ready_priority_group k) (list_del t L).
Proof using I Ht.
  intros Hs. eapply ginv_ext, (ki_group _ _ I). intros q. by rewrite not_ready_del.
Qed.

Lemma minv_stopped T' tms' th' :
  (∀ lo ths, minv lo (rt_tick k) l (timers k) ths → minv lo (rt_tick k) (lof T' tt) tms' ths) →
  ThreadTimer t ∉ lof T' tt →
  minv lo (rt_tick k) (lof T' tt) tms' (<[t := th']> (threads k)).
Proof using I Ht. intros Hmi Hnot. eapply minv_thread; [apply Hmi, I|done|done]. Qed.

Lemma wp_resume (Q : Z → kern → Prop) : th_stat th = RT_THREAD_SUSPEND →
  (∀ k', moved lo t (set_th_stat RT_THREAD_READY th) (enqueue t p L)
           (filter (λ r, r ≠ ThreadTimer t) l) k k' → Q RT_EOK k') →
  wp (rt_thread_resume t) k Q.
Proof using I Ht.
  intros Hs HQ. pose proof thread_ok as Hwf. pose proof (tw_null _ _ Hwf) as Hnull.
  assert (th_stat th ≠ RT_THREAD_READY) as Hnr by (by rewrite Hs).
  destruct own_timer as (tm&Htm&_&Hact).
  unfold rt_thread_resume. wps. rewrite bool_decide_false by (intros ?; done). wps.
  destruct (s_remove_spec (thread_lists k) t) as (S1&HS1&Hb1); [apply I|exact thread_elem|].
  eapply wp_on_threads; [exact HS1|]. wps. set (k1 := set_thread_lists _ _).
  eapply (wp_stop_thread_timer lo t tm k1); [done|apply I|done|apply I|].
  intros r k2 (T'&tms'&->&HS&Hl&Htms&Hmi). wps.
  eapply wp_insert_thread; [done|exact Ht|apply Hb1|apply (bc_heads _ _ _ Hb1), ready_list| |].
  { intros q. simpl. rewrite (bc_lof _ _ _ Hb1). apply list_del_detached. }
  intros S2 Hb2. pose proof (becomes_enqueue _ _ _ _ _ Hb1 Hb2) as Hb. wps. apply HQ.
  assert (ThreadTimer t ∉ lof T' tt) as Hnot by (rewrite Hl; by intros [? _]%list_elem_of_filter).
  split; simpl; try done.
  - split; simpl; [| | |by apply minv_stopped|done|apply I].
    + eapply tinv_lists; [apply Hb|]. apply (tinv_enqueue _ _ t (set_th_stat RT_THREAD_READY th));
        [apply I|apply wf_stat; [done|by rewrite Hs]|done].
    + eapply ginv_lists; [apply Hb|]. rewrite (tw_mask _ _ Hwf) by (by rewrite Hs).
      apply ginv_enqueue; [by apply ginv_not_ready|apply Hwf].
    + eapply sinv_insert; [apply I|done..].
  - apply Hb.
  - apply Hb.
Qed.

(** ** Timeout *)

Definition timed_out (th : rt_thread) : rt_thread :=
  set_th_stat RT_THREAD_READY (set_th_error (- RT_ETIMEOUT) th).

Lemma wf_error e : thread_wf t th → thread_wf t (set_th_error e th).
Proof. intros []. by split. Qed.

Lemma kinv_thread th' : th_stat th' = th_stat th →
  (th_stat th = RT_THREAD_READY → th_current_priority th' = th_current_priority th) →
  thread_wf t th' → kinv_at lo (set_threads (<[t := th']> (threads k)) k).
Proof using I Ht.
  intros Hs Hp Hwf. pose proof I as [I1 I2 I3 I4 I5 I6]. split; simpl; try done.
  - by eapply tinv_modify.
  - eapply sinv_insert; [done..|]. split; [apply I3|done..].
  - eapply minv_thread; [done|done|]. intros Hin. rewrite Hs.
    destruct (mi_active _ _ _ _ _ I4 t Hin) as (?&th0&_&_&?&?). by simplify_eq.
Qed.

Lemma wp_timeout (Q : unit → kern → Prop) : th_stat th = RT_THREAD_SUSPEND →
  ThreadTimer t ∉ l →
  (∀ k1 k', moved lo t (timed_out th) (enqueue t p L) l k k1 → scheduled k1 k' → Q tt k') →
  wp (rt_thread_timeout t) k Q.
Proof using I Ht.
  intros Hs Hnot HQ. pose proof thread_ok as Hwf. pose proof (tw_null _ _ Hwf) as Hnull.
  assert (th_stat th ≠ RT_THREAD_READY) as Hnr by (by rewrite Hs).
  unfold rt_thread_timeout. wps.
  destruct (s_remove_spec (thread_lists k) t) as (S1&HS1&Hb1); [apply I|exact thread_elem|].
  eapply wp_on_threads; [exact HS1|]. wps.
  eapply wp_insert_thread;
    [done|apply lookup_insert_eq|apply Hb1|apply (bc_heads _ _ _ Hb1), ready_list| |].
  { intros q. simpl. rewrite (bc_lof _ _ _ Hb1). apply list_del_detached. }
  intros S2 Hb2. pose proof (becomes_enqueue _ _ _ _ _ Hb1 Hb2) as Hb.
  set (k1 := set_rt_thread_ready_priority_group _ _).
  assert (moved lo t (timed_out th) (enqueue t p L) l k k1) as Hm.
  { split; simpl; try done; [|by rewrite insert_insert_eq|apply Hb..].
    split; simpl; [| | | |apply I..]; rewrite ?insert_insert_eq.
    + eapply tinv_lists; [apply Hb|]. apply (tinv_enqueue _ _ t (timed_out th));
        [apply I|apply wf_stat; [by apply wf_error|simpl; by rewrite Hs]|done].
    + eapply ginv_lists; [apply Hb|]. rewrite (tw_mask _ _ Hwf) by (by rewrite Hs).
      apply ginv_enqueue; [by apply ginv_not_ready|apply Hwf].
    + eapply sinv_insert; [apply I|done..].
    + eapply minv_thread; [apply I|done|done]. }
  eapply (wp_schedule_any lo); [apply Hm| |eauto].
  apply (some_ready_ext (enqueue t p L)); [apply Hm|]. apply some_ready_enqueue, Hwf.
Qed.

(** ** Yield *)

Lemma ready_queue : th_stat th = RT_THREAD_READY → ∃ l1 l2, L (QReady p) = l1 ++ t :: l2.
Proof using I Ht.
  intros Hs. apply list_elem_of_split. by eapply ti_ready; [apply I|..].
Qed.

(** A thread that is alone in its list stays where it is. *)
Lemma enqueue_alone : L (QReady p) = [t] → ∀ q, enqueue t p L q = L q.
Proof using I Ht.
  intros E q. unfold enqueue. destruct (decide (QReady p = q)) as [<-|Hq].
  - rewrite fn_lookup_insert, E. unfold list_del. rewrite E. by rewrite filter_cons_False by tauto.
  - rewrite fn_lookup_insert_ne by done. eapply list_del_other; [apply I| |].
    + rewrite E. set_solver.
    + congruence.
Qed.

(** The bitmap when a ready thread goes to the end of its list. *)
Lemma ginv_rotate : th_stat th = RT_THREAD_READY →
  ginv (rt_thread_ready_priority_group k) (enqueue t p L).
Proof using I Ht.
  intros Hs. eapply ginv_ext, (ki_group _ _ I). intros q.
  destruct (decide (q = p)) as [->|Hq].
  - split; intros _; [|apply enqueue_ne_nil]. destruct (ready_queue Hs) as (l1&l2&->). by destruct l1.
  - rewrite enqueue_other, list_del_id; [done|by apply other_ready|done].
Qed.

(** The test of [rt_thread_yield] for another thread of the same priority. *)
Lemma wp_others A (f : bool → M A) (Q : A → kern → Prop) : th_stat th = RT_THREAD_READY →
  wp (f (bool_decide (L (QReady p) ≠ [t]))) k Q →
  wp (next ← kopt (λ k, l_next (El t) (thread_lists k));
      prev ← kopt (λ k, l_prev (El t) (thread_lists k));
      f (bool_decide (next ≠ prev))) k Q.
Proof using I Ht.
  intros Hs HQ. destruct (ready_queue Hs) as (l1&l2&E).
  pose proof (swf_nodup _ (si_swf _ _ (ki_store _ _ I)) (QReady p)) as Hnd. rewrite E in Hnd.
  apply wp_bind. eapply wp_kopt; [eapply s_next_elem; [apply I|exact E]|].
  apply wp_bind. eapply wp_kopt; [eapply s_prev_elem; [apply I|exact E]|].
  erewrite bool_decide_ext; [exact HQ|]. rewrite E.
  destruct l1 as [|y l1 _] using rev_ind; [destruct l2; simpl; naive_solver|].
  rewrite last_snoc. destruct l2 as [|x l2]; simpl.
  - split; [|done]. intros _ E'. destruct l1; [done|]. by destruct l1.
  - split; [|]. 
    + intros _ E'. destruct l1; [done|]. by destruct l1.
    + intros _ E'. simplify_eq. apply NoDup_app in Hnd as (_&Hd&_). apply (Hd y); set_solver.
Qed.

End one.

Section two.
Context (lo : Z) (k : kern) (t : Z) (th : rt_thread).
Context (I : kinv_at lo k) (Ht : threads k !! t = Some th).

Abbreviation L := (lof (thread_lists k)).
Abbreviation l := (lof (timer_list k) tt).
Abbreviation p := (th_current_priority th).

(** The thread goes behind the other ready threads of its priority; alone
    there, it keeps the processor. *)
Lemma wp_yield (Q : Z → kern → Prop) : rt_current_thread k = t → th_stat th = RT_THREAD_READY →
  (L (QReady p) = [t] → Q RT_EOK k) →
  (∀ k1 k', L (QReady p) ≠ [t] → moved lo t th (enqueue t p L) l k k1 → scheduled k1 k' → Q RT_EOK k') →
  wp rt_thread_yield k Q.
Proof using I Ht.
  intros Hc Hs H1 H2. pose proof (thread_ok _ _ _ _ I Ht) as Hwf. unfold rt_thread_yield. wps.
  eapply wp_get_thread; [simpl; by rewrite Hc|]. simpl. rewrite Hc.
  rewrite (bool_decide_true (th_stat th = _)) by done. apply wp_bind.
  assert (kinv_at lo (set_primask 1 k)) as I1 by (by apply (kinv_at_irrelevant lo k)).
  apply (wp_others lo (set_primask 1 k) t th I1 Ht _ mret); [done|]. wps. simpl.
  destruct (decide (L (QReady p) = [t])) as [E|E].
  { rewrite bool_decide_false by tauto. wps. specialize (H1 E). by destruct k. }
  rewrite bool_decide_true by done. wps.
  destruct (s_remove_spec (thread_lists k) t) as (S1&HS1&Hb1);
    [apply I|by eapply thread_elem|].
  eapply wp_on_threads; [exact HS1|]. wps.
  destruct (s_append_spec S1 (QReady p) t) as (S2&HS2&Hb2);
    [apply Hb1|apply (bc_heads _ _ _ Hb1); by eapply ready_list|..].
  { intros q. rewrite (bc_lof _ _ _ Hb1). apply list_del_detached. }
  eapply wp_on_threads; [exact HS2|]. wps.
  pose proof (becomes_enqueue _ _ _ _ _ Hb1 Hb2) as Hb. set (k1 := set_primask _ _).
  assert (moved lo t th (enqueue t p L) l k k1) as Hm.
  { split; simpl; try done; [|by rewrite insert_id|apply Hb..]. 
    pose proof I as [I1' I2 I3 I4 I5 I6]. split; simpl; try done.
    + eapply tinv_lists; [apply Hb|]. rewrite <-(insert_id (threads k) t th) by done.
      by apply tinv_enqueue.
    + eapply ginv_lists; [apply Hb|]. by eapply ginv_rotate.
    + rewrite <-(insert_id (threads k) t th) by done. by eapply sinv_insert. }
  eapply (wp_schedule_any lo); [apply Hm| |intros k' Hk'; wps; eauto].
  apply (some_ready_ext (enqueue t p L)); [apply Hm|]. apply some_ready_enqueue, Hwf.
Qed.

(** ** Changing the priority *)

Lemma change_priority_mask arg : 0 <= arg < RT_THREAD_PRIORITY_MAX →
  th_current_priority (change_priority arg th) = arg ∧
  th_number_mask (change_priority arg th) = 2 ^ arg.
Proof.
  unfold RT_THREAD_PRIORITY_MAX. intros Ha. simpl. rewrite u8_small by (unfold in_u8; lia).
  split; [done|]. rewrite Z.shiftl_1_l. apply u32_small. unfold in_u32. split; [lia|].
  apply Z.pow_lt_mono_r; lia.
Qed.

Lemma wf_change_priority arg : 0 <= arg < RT_THREAD_PRIORITY_MAX → thread_wf t th →
  thread_wf t (change_priority arg th).
Proof.
  intros Ha [H1 H2 H3 H4 H5]. destruct (change_priority_mask arg Ha) as [E1 E2].
  split; [done|by rewrite E1|done| |done]. intros _. by rewrite E1, E2.
Qed.

(** A ready thread goes to the end of the list of its new priority; any other
    thread stays in its queue. *)
Lemma wp_change_priority arg (Q : Z → kern → Prop) : 0 <= arg < RT_THREAD_PRIORITY_MAX →
  (∀ k', moved lo t (change_priority arg th)
           (if bool_decide (th_stat th = RT_THREAD_READY) then enqueue t arg L else L) l k k' →
         Q RT_EOK k') →
  wp (rt_thread_control t RT_THREAD_CTRL_CHANGE_PRIORITY arg) k Q.
Proof using I Ht.
  intros Ha HQ. pose proof (thread_ok _ _ _ _ I Ht) as Hwf. pose proof (tw_null _ _ Hwf) as Hnull.
  destruct (change_priority_mask arg Ha) as [E1 E2].
  unfold rt_thread_control. wps. rewrite bool_decide_true by done. wps.
  destruct (decide (th_stat th = RT_THREAD_READY)) as [Hs|Hs].
  2:{ rewrite bool_decide_false in * by done. wps. apply HQ, (moved_primask _ _ _ _ _ k).
      split; simpl; try done. apply (kinv_thread lo (set_primask 1 k) t th); try done.
      - by apply (kinv_at_irrelevant lo k).
      - by apply wf_change_priority. }
  rewrite bool_decide_true in * by done. wps.
  eapply wp_remove_thread; [done|exact Ht|apply I|exact (ready_list lo k t th I Ht)
    |exact (thread_elem lo k t th I Ht)|].
  intros S1 Hb1. wps.
  eapply wp_insert_thread; [done|apply lookup_insert_eq|apply Hb1| | |].
  { rewrite E1. apply (bc_heads _ _ _ Hb1). by apply (si_ready _ _ (ki_store _ _ I)). }
  { intros q. simpl. rewrite (bc_lof _ _ _ Hb1). apply list_del_detached. }
  intros S2 Hb2. wps. rewrite E1 in Hb2.
  pose proof (becomes_enqueue _ _ _ _ _ Hb1 Hb2) as Hb. apply HQ, (moved_primask _ _ _ _ _ k).
  assert (set_th_stat RT_THREAD_READY (change_priority arg th) = change_priority arg th) as E
    by (clear -Hs; destruct th; simpl in *; by subst).
  split; simpl; rewrite ?insert_insert_eq, ?E; try done; [|apply Hb..].
  split; simpl; rewrite ?insert_insert_eq, ?E; [| | | |apply I..].
  - eapply tinv_lists; [apply Hb|]. rewrite <-E1 at 1. apply tinv_enqueue; [apply I| |done].
    by apply wf_change_priority.
  - eapply ginv_lists; [apply Hb|]. simpl in E2. rewrite E2. apply ginv_enqueue; [|done].
    rewrite (tw_mask _ _ Hwf) by (by rewrite Hs).
    apply ginv_remove; [apply I|apply Hwf|exact (other_ready lo k t th I Ht)].
  - eapply sinv_insert; [apply I|done..].
  - eapply minv_thread; [apply I|done|]. intros Hin.
    destruct (no_timer lo k t th I Ht) as []; [by rewrite Hs|done].
Qed.

(** ** Startup *)

Definition started_thread (th : rt_thread) : rt_thread :=
  set_th_stat RT_THREAD_READY (set_th_number_mask (u32 (Z.shiftl 1 (th_init_priority th)))
    (set_th_current_priority (th_init_priority th) th)).

(** The state in which [rt_thread_startup] calls [rt_thread_resume]. *)
#[local] Lemma startup_inv : th_stat th = RT_THREAD_INIT →
  kinv_at lo (set_threads (<[t := set_th_stat RT_THREAD_SUSPEND (started_thread th)]> (threads k)) k).
Proof using I Ht.
  intros Hs. pose proof (thread_ok _ _ _ _ I Ht) as Hwf. pose proof I as [I1 I2 I3 I4 I5 I6].
  assert (detached L t) as Hdet.
  { intros q Hin. destruct (ti_queue _ _ I1 q t Hin) as (th0&?&Hq). simplify_eq.
    destruct q; simpl in Hq; rewrite Hs in Hq; by destruct_and?. }
  split; simpl; try done.
  - eapply tinv_lists; [|apply tinv_leave; [exact I1|done|]].
    + intros q. symmetry. by apply list_del_id.
    + destruct Hwf as [H1 H2 H3 H4 H5]. split; simpl; try done. intros _.
      destruct (change_priority_mask (th_init_priority th) H3) as [_ E]. simpl in E.
      rewrite u8_small in E; [done|]. unfold RT_THREAD_PRIORITY_MAX, in_u8 in *. lia.
  - eapply sinv_insert; [done..|]. split; [apply I3|done..].
  - eapply minv_thread; [done|done|]. intros Hin.
    destruct (no_timer lo k t th I Ht) as []; [by rewrite Hs|done].
Qed.

(** A started thread is ready at its initial priority, behind the threads that
    are ready there. *)
Lemma wp_startup (Q : Z → kern → Prop) : th_stat th = RT_THREAD_INIT →
  (∀ k1 k', moved lo t (started_thread th) (enqueue t (th_init_priority th) L) l k k1 →
     (if bool_decide (rt_current_thread k ≠ RT_NULL) then scheduled k1 k' else k' = k1) →
     Q RT_EOK k') →
  wp (rt_thread_startup t) k Q.
Proof using I Ht.
  intros Hs HQ. pose proof (thread_ok _ _ _ _ I Ht) as Hwf. pose proof (tw_null _ _ Hwf) as Hnull.
  unfold rt_thread_startup. wps.
  do 2 (eapply wp_mod_thread; [apply lookup_insert_eq|]; wps). simpl. rewrite !insert_insert_eq.
  eapply (wp_resume lo _ t _ (startup_inv Hs)); [apply lookup_insert_eq|done|].
  intros k1 Hm%moved_set_thread. unfold rt_thread_self. wps.
  assert (moved lo t (started_thread th) (enqueue t (th_init_priority th) L) l k k1) as Hm'.
  { destruct Hm as [Hr Hi Hth Hl Hh Htl Htm]. split; try done. rewrite Htl.
    apply (list_del_id (ThreadTimer t) (lof (timer_list k))).
    eapply no_timer; [done..|]. by rewrite Hs. }
  rewrite (sr_current _ _ (mv_rest _ _ _ _ _ _ _ Hm')). specialize (HQ k1).
  case_bool_decide; [|wps; by apply HQ].
  eapply (wp_schedule_any lo); [apply Hm'| |intros; wps; by apply HQ].
  apply (some_ready_ext (enqueue t (th_init_priority th) L)); [apply Hm'|].
  apply some_ready_enqueue, Hwf.
Qed.

(** ** Waiting for a time *)

(** The timer of the suspended thread [t] runs for [time] ticks. *)
Record waits_for (time : Z) (k' : kern) : Prop := {
  wt_rest : same_rest k k';
  wt_inv : kinv_at lo k';
  wt_threads : threads k' = threads k;
  wt_lists : thread_lists k' = thread_lists k;
  wt_timer_list : ∃ l1 l2, l = l1 ++ l2 ∧ lof (timer_list k') tt = l1 ++ ThreadTimer t :: l2;
  wt_remaining : remaining_of (rt_tick k) (timers k') (ThreadTimer t) = time;
  wt_timers r : r ≠ ThreadTimer t → timers k' !! r = timers k !! r;
}.

Lemma wp_arm time A (f : M A) (Q : A → kern → Prop) : -1 <= lo <= 0 →
  th_stat th = RT_THREAD_SUSPEND → ThreadTimer t ∉ l → 0 <= time < RT_TICK_MAX / 2 →
  (∀ k', waits_for time k' → wp f k' Q) →
  wp (rt_timer_control (ThreadTimer t) RT_TIMER_CTRL_SET_TIME time;;
      rt_timer_start (ThreadTimer t);; f) k Q.
Proof using I Ht.
  intros Hlo Hs Hnot Htime HQ. destruct (own_timer lo k t th I Ht) as (tm&Htm&Hf&_).
  destruct (mi_fields _ _ _ _ _ (ki_timers _ _ I) _ _ Htm) as (Hf1&Hf2&Hf3).
  apply wp_bind. unfold rt_timer_control. wps. simpl. wps.
  set (tm1 := set_tm_init_tick time tm). set (k1 := set_timers _ _).
  assert (same_timer tm tm1) as Hst.
  { split_and!; simpl; try done. unfold in_u32. change (RT_TICK_MAX / 2) with 2147483647 in *. lia. }
  eapply (wp_timer_start lo k1 (ThreadTimer t) tm1); simpl; try done; [| | |apply lookup_insert_eq| | |].
  - eapply siminv_insert; [done|apply I].
  - eapply minv_mod; [apply I|done..].
  - apply I.
  - lia.
  - intros ? [= <-]. eauto.
  - intros k' (T'&l1&l2&->&Hl&HT'&_&_&HS&Hmi). wps. apply HQ. simpl in *.
    rewrite insert_insert_eq in *.
    rewrite (list_del_id (ThreadTimer t) (lof (timer_list k)) tt Hnot : filter _ _ = _) in Hl.
    pose proof I as [I1 I2 I3 I4 I5 I6]. split; simpl; try done.
    + eauto.
    + unfold remaining_of. rewrite lookup_insert_eq. by apply start_remaining.
    + intros r Hr. by rewrite lookup_insert_ne.
Qed.

End two.

(** ** The calls *)

(** C30: A ready thread that is suspended leaves its ready list and stays out of
    every queue; a thread in another state is left alone. *)
Theorem rt_thread_suspend_correct (k : kern) t th : kinv k → threads k !! t = Some th →
  (th_stat th = RT_THREAD_READY → ∃ k', rt_thread_suspend t k = Ok RT_EOK k' ∧
     moved 0 t (set_th_stat RT_THREAD_SUSPEND th) (list_del t (lof (thread_lists k)))
       (lof (timer_list k) tt) k k') ∧
  (th_stat th ≠ RT_THREAD_READY → rt_thread_suspend t k = Ok (- RT_ERROR) k).
Proof.
  intros I Ht. split; intros Hs.
  - apply wp_returns. by eapply wp_suspend; [done..|eauto].
  - destruct (wp_run (rt_thread_suspend t) k (λ r k', r = - RT_ERROR ∧ k' = k)) as (?&?&E&->&->); [|done].
    pose proof (tw_null _ _ (thread_ok _ _ _ _ I Ht)) as Hnull.
    unfold rt_thread_suspend. wps. rewrite bool_decide_true by done. by wps.
Qed.

Lemma rt_thread_suspend_correct_witness :
  (∃ k', rt_thread_suspend thread_b (demo []) = Ok RT_EOK k' ∧ kinv k' ∧
         lof (thread_lists k') (QReady 5) = [thread_a]).
Proof.
  destruct (threads (demo []) !! thread_b) as [th|] eqn:E; [|vm_compute in E; discriminate E].
  destruct (rt_thread_suspend_correct (demo []) thread_b th) as [Hs _].
  - apply kinv_b_sound. vm_compute. reflexivity.
  - exact E.
  - vm_compute in E. injection E as <-. destruct Hs as (k'&Hk'&Hm); [vm_compute; reflexivity|].
    exists k'. split_and!; [done|apply Hm|]. rewrite (mv_lists _ _ _ _ _ _ _ Hm). vm_compute. reflexivity.
Defined.

(** C31: A suspended thread that is resumed leaves the queue it waits in, its timer
    is stopped, and it is ready behind the ready threads of its priority; a
    thread in another state is left alone. *)
Theorem rt_thread_resume_correct (k : kern) t th : kinv k → threads k !! t = Some th →
  (th_stat th = RT_THREAD_SUSPEND → ∃ k', rt_thread_resume t k = Ok RT_EOK k' ∧
     moved 0 t (set_th_stat RT_THREAD_READY th)
       (enqueue t (th_current_priority th) (lof (thread_lists k)))
       (filter (λ r, r ≠ ThreadTimer t) (lof (timer_list k) tt)) k k') ∧
  (th_stat th ≠ RT_THREAD_SUSPEND → rt_thread_resume t k = Ok (- RT_ERROR) k).
Proof.
  intros I Ht. split; intros Hs.
  - apply wp_returns. by eapply wp_resume; [done..|eauto].
  - destruct (wp_run (rt_thread_resume t) k (λ r k', r = - RT_ERROR ∧ k' = k)) as (?&?&E&->&->); [|done].
    pose proof (tw_null _ _ (thread_ok _ _ _ _ I Ht)) as Hnull.
    unfold rt_thread_resume. wps. rewrite bool_decide_true by done. by wps.
Qed.

Lemma rt_thread_resume_correct_witness :
  ∃ k', rt_thread_resume thread_a (demo [Call (CSemTake the_sem 5)]) = Ok RT_EOK k' ∧ kinv k' ∧
        lof (thread_lists k') (QReady 5) = [thread_b; thread_a] ∧
        lof (thread_lists k') (QSuspend (OSem the_sem)) = [].
Proof.
  destruct (threads (demo [Call (CSemTake the_sem 5)]) !! thread_a) as [th|] eqn:E;
    [|vm_compute in E; discriminate E].
  destruct (rt_thread_resume_correct (demo [Call (CSemTake the_sem 5)]) thread_a th) as [Hs _].
  - apply kinv_b_sound. vm_compute. reflexivity.
  - exact E.
  - vm_compute in E. injection E as <-. destruct Hs as (k'&Hk'&Hm); [vm_compute; reflexivity|].
    exists k'. split_and!; [done|apply Hm|..]; rewrite (mv_lists _ _ _ _ _ _ _ Hm); vm_compute; reflexivity.
Defined.

(** Round robin: the running thread, first in the list of the highest
    priority, goes behind the others of that priority and the next of them
    runs. *)
Theorem rt_thread_yield_round_robin (k : kern) p t th l : kinv k → rt_current_thread k = t →
  threads k !! t = Some th → highest (lof (thread_lists k)) p t → rt_scheduler_lock_nest k = 0 →
  lof (thread_lists k) (QReady p) = t :: l →
  ∃ k', rt_thread_yield k = Ok RT_EOK k' ∧ kinv k' ∧ threads k' = threads k ∧
        lof (thread_lists k') (QReady p) = l ++ [t] ∧
        (∀ q, q ≠ QReady p → lof (thread_lists k') q = lof (thread_lists k) q) ∧
        rt_current_thread k' = default t (head l).
Proof.
  intros I Hc Ht Hh Hl E.
  destruct (highest_thread _ _ I _ _ Hh) as (th'&Ht'&Hs&Hp&_).
  assert (th' = th) as -> by congruence. subst p. set (p := th_current_priority th) in *.
  assert (∀ q, q ≠ QReady p → enqueue t p (lof (thread_lists k)) q = lof (thread_lists k) q) as Hq.
  { intros q Hq. unfold enqueue. rewrite fn_lookup_insert_ne by done.
    eapply list_del_other; [apply I| |done]. rewrite E. left. }
  assert (enqueue t p (lof (thread_lists k)) (QReady p) = l ++ [t]) as Ep.
  { rewrite enqueue_self. f_equal. eapply list_del_head; [apply I|done]. }
  apply wp_returns. eapply (wp_yield 0 k t th I Ht); [done|done| |].
  - fold p. rewrite E. intros Ea. injection Ea as ->. split_and!; done.
  - intros k1 k' Hne Hm Hk'. pose proof (scheduled_same _ _ Hk') as Hsame. fold p in Hne, Hm.
    assert (∀ q, lof (thread_lists k') q = enqueue t p (lof (thread_lists k)) q) as HL
      by (intros q; rewrite (sc_lists _ _ Hsame); apply Hm).
    split; [done|]. split_and!.
    + eapply scheduled_inv, Hk'. apply Hm.
    + rewrite (sc_threads _ _ Hsame), (mv_threads _ _ _ _ _ _ _ Hm). by apply insert_id.
    + by rewrite HL.
    + intros q Hne'. by rewrite HL, Hq.
    + destruct (scheduled_current k1 k' Hk') as (p'&Hh').
      { by rewrite (sr_lock _ _ (mv_rest _ _ _ _ _ _ _ Hm)). }
      rewrite E in Hne. destruct l as [|u l]; [done|].
      eapply (highest_unique _ p' _ p u); [exact Hh'|]. destruct Hh as (Hpr&_&Hlow). split_and!; [lia..| |].
      * by rewrite HL, Ep.
      * intros p0 Hp0. rewrite HL, Hq by (intros [= ->]; lia). by apply Hlow.
Qed.

Lemma rt_thread_yield_round_robin_witness :
  ∃ k', rt_thread_yield (demo []) = Ok RT_EOK k' ∧
        lof (thread_lists k') (QReady 5) = [thread_b; thread_a] ∧ rt_current_thread k' = thread_b.
Proof.
  destruct (threads (demo []) !! thread_a) as [th|] eqn:E; [|vm_compute in E; discriminate E].
  destruct (rt_thread_yield_round_robin (demo []) 5 thread_a th [thread_b]) as (k'&Hk'&_&_&Hl&_&Hc).
  - apply kinv_b_sound. vm_compute. reflexivity.
  - vm_compute. reflexivity.
  - exact E.
  - split_and!; [done|done|vm_compute; reflexivity|]. intros p Hp.
    assert (p = 0 ∨ p = 1 ∨ p = 2 ∨ p = 3 ∨ p = 4) as [-> | [-> | [-> | [-> | ->]]]] by lia;
      vm_compute; reflexivity.
  - vm_compute. reflexivity.
  - vm_compute. reflexivity.
  - exists k'. auto.
Defined.

(** Changing a priority: a ready thread goes to the end of the ready list of the
    new priority and the bitmap follows, any other thread keeps its place in
    the queue it waits in. *)
Theorem rt_thread_change_priority_correct (k : kern) t th arg : kinv k → threads k !! t = Some th →
  0 <= arg < RT_THREAD_PRIORITY_MAX →
  ∃ k', rt_thread_control t RT_THREAD_CTRL_CHANGE_PRIORITY arg k = Ok RT_EOK k' ∧
    moved 0 t (change_priority arg th)
      (if bool_decide (th_stat th = RT_THREAD_READY) then enqueue t arg (lof (thread_lists k))
       else lof (thread_lists k)) (lof (timer_list k) tt) k k'.
Proof.
  intros I Ht Ha. apply wp_returns. eapply (wp_change_priority 0 k t th I Ht); [done|]. auto.
Qed.

Lemma rt_thread_change_priority_correct_witness :
  ∃ k', rt_thread_control thread_c RT_THREAD_CTRL_CHANGE_PRIORITY 5 (demo []) = Ok RT_EOK k' ∧ kinv k' ∧
        lof (thread_lists k') (QReady 5) = [thread_a; thread_b; thread_c] ∧
        lof (thread_lists k') (QReady 10) = [].
Proof.
  destruct (threads (demo []) !! thread_c) as [th|] eqn:E; [|vm_compute in E; discriminate E].
  destruct (rt_thread_change_priority_correct (demo []) thread_c th 5) as (k'&Hk'&Hm).
  - apply kinv_b_sound. vm_compute. reflexivity.
  - exact E.
  - clear; done.
  - vm_compute in E. injection E as <-. exists k'. split_and!; [done|apply Hm|..];
      rewrite (mv_lists _ _ _ _ _ _ _ Hm); vm_compute; reflexivity.
Defined.

(** A started thread is ready at its initial priority behind the threads that
    are ready there, with the bit of its priority set; if the system runs, the
    scheduler decides again. *)
Theorem rt_thread_startup_correct (k : kern) t th : kinv k → threads k !! t = Some th →
  th_stat th = RT_THREAD_INIT →
  ∃ k' k1, rt_thread_startup t k = Ok RT_EOK k' ∧
    moved 0 t (started_thread th) (enqueue t (th_init_priority th) (lof (thread_lists k)))
      (lof (timer_list k) tt) k k1 ∧
    (if bool_decide (rt_current_thread k ≠ RT_NULL) then scheduled k1 k' else k' = k1).
Proof.
  intros I Ht Hs.
  destruct (wp_returns (rt_thread_startup t) k RT_EOK (λ k', ∃ k1, moved 0 t (started_thread th)
    (enqueue t (th_init_priority th) (lof (thread_lists k))) (lof (timer_list k) tt) k k1 ∧
    (if bool_decide (rt_current_thread k ≠ RT_NULL) then scheduled k1 k' else k' = k1))) as (k'&E&k1&?&?).
  - eapply (wp_startup 0 k t th I Ht); [done|]. eauto.
  - by exists k', k1.
Qed.

Lemma rt_thread_startup_correct_witness :
  let k := demo [Call (CThreadInit 0x20007000 blank_thread [100; 0] 0x08002000 0 0x20008000 512 3 10)] in
  ∃ k' k1, rt_thread_startup 0x20007000 k = Ok RT_EOK k' ∧ scheduled k1 k' ∧
           lof (thread_lists k1) (QReady 3) = [0x20007000].
Proof.
  intros k. destruct (threads k !! 0x20007000) as [th|] eqn:E; [|vm_compute in E; discriminate E].
  destruct (rt_thread_startup_correct k 0x20007000 th) as (k'&k1&Hk'&Hm&Hs).
  - apply kinv_b_sound. vm_compute. reflexivity.
  - exact E.
  - vm_compute in E. injection E as <-. reflexivity.
  - vm_compute in E. injection E as <-. exists k', k1. split_and!; [exact Hk'| |].
    + exact Hs.
    + rewrite (mv_lists _ _ _ _ _ _ _ Hm). vm_compute. reflexivity.
Defined.
