(* ===== verification/ClockProof.v ===== *)
(** * Time: sleeping, the tick interrupt and the expiry of timers *)

From S2P Require Import Prelude DList ListStore SeqLemmas KString KState Scheduler ObjectSys Timer ThreadSys Clock KernelWp KernelInv System KernelCheck SchedProof TimerProof ThreadProof.

(** ** Blocking *)

(** The thread [t] becomes [th'] in the queues [L'] and waits, for [wait] ticks
    or without a limit. *)
Record blocked (lo t : Z) (th' : rt_thread) (L' : queues) (wait : option Z) (k k' : kern) : Prop := {
  bl_rest : same_rest k k';
  bl_inv : kinv_at lo k';
  bl_threads : threads k' = <[t := th']> (threads k);
  bl_lists q : lof (thread_lists k') q = L' q;
  bl_heads q : is_Some (s_lists (thread_lists k) !! q) → is_Some (s_lists (thread_lists k') !! q);
  bl_timer_list : match wait with
    | Some time => (∃ l1 l2, lof (timer_list k) tt = l1 ++ l2 ∧
                             lof (timer_list k') tt = l1 ++ ThreadTimer t :: l2) ∧
                   remaining_of (rt_tick k) (timers k') (ThreadTimer t) = time
    | None => lof (timer_list k') tt = lof (timer_list k) tt
    end;
  bl_timers r : r ≠ ThreadTimer t → timers k' !! r = timers k !! r;
}.

Lemma moved_blocked lo t th' L' (k k' : kern) :
  moved lo t th' L' (lof (timer_list k) tt) k k' → blocked lo t th' L' None k k'.
Proof. intros []. by split. Qed.

Lemma moved_waits lo t th' L' time (k k1 k' : kern) :
  moved lo t th' L' (lof (timer_list k) tt) k k1 → waits_for lo k1 t time k' →
  blocked lo t th' L' (Some time) k k'.
Proof.
  intros [Hr Hi Ht Hl Hh Htl Htm] [Wr Wi Wt Wl Wtl Wrem Wtm]. split; try done.
  - by etrans.
  - by rewrite Wt.
  - intros q. by rewrite Wl.
  - intros q Hq. rewrite Wl. auto.
  - rewrite <-Htl. split; [done|]. by rewrite <-(sr_tick _ _ Hr).
  - intros r Hne. rewrite Wtm, Htm; done.
Qed.

Lemma blocked_primask lo t th' L' wait (k k' : kern) : blocked lo t th' L' wait (set_primask 1 k) k' →
  blocked lo t th' L' wait k (set_primask (primask k) k').
Proof.
  intros [Hr Hi Ht Hl Hh Htl Htm]. split; try done.
  - by apply same_rest_primask.
  - by apply (kinv_at_irrelevant lo k').
Qed.

(** The processor goes to another thread. *)
Lemma scheduled_away lo (k k' : kern) t th : kinv_at lo k → threads k !! t = Some th →
  th_stat th ≠ RT_THREAD_READY → rt_scheduler_lock_nest k = 0 → scheduled k k' →
  rt_current_thread k' ≠ t.
Proof.
  intros I Ht Hs Hl Hk E. pose proof (scheduled_inv _ _ _ I Hk) as I'.
  destruct (scheduled_current _ _ Hk Hl) as (p&Hh). rewrite E in Hh.
  destruct (highest_thread lo k' I' p t Hh) as (th'&Ht'&Hs'&_).
  rewrite (sc_threads _ _ (scheduled_same _ _ Hk)) in Ht'. by simplify_eq.
Qed.

(** The end of every blocking call. *)
Lemma wp_give_up lo t th' (k k1 : kern) (rest : M Z) (Q : outcome → kern → Prop) :
  kinv_at lo k1 → threads k1 !! t = Some th' → th_stat th' ≠ RT_THREAD_READY →
  some_ready (lof (thread_lists k1)) → same_rest k k1 → rt_scheduler_lock_nest k = 0 →
  (∀ k', scheduled k1 k' → rt_current_thread k' ≠ t → Q Waits k') →
  wp (rt_schedule;; after_schedule t rest) k1 Q.
Proof.
  intros I Ht Hs Hr Hrest Hl HQ. apply wp_bind. eapply wp_schedule_any; [done..|].
  intros k' Hk'. assert (rt_current_thread k' ≠ t) as Hne.
  { eapply scheduled_away; [done..|by rewrite (sr_lock _ _ Hrest)|done]. }
  unfold after_schedule. wps. rewrite bool_decide_false by done. wps. auto.
Qed.

(** ** Sleeping *)

Section sleep.
Context (k : kern) (t : Z) (th : rt_thread) (I : kinv k).
Context (Hc : rt_current_thread k = t) (Ht : threads k !! t = Some th).
Context (Hs : th_stat th = RT_THREAD_READY) (Hlock : rt_scheduler_lock_nest k = 0).
Context (Hother : some_ready (list_del t (lof (thread_lists k)))).

Lemma wp_sleep tick (Q : outcome → kern → Prop) : 0 <= tick < RT_TICK_MAX / 2 →
  (∀ k1 k', blocked 0 t (set_th_stat RT_THREAD_SUSPEND th) (list_del t (lof (thread_lists k)))
              (Some tick) k k1 → scheduled k1 k' → rt_current_thread k' ≠ t → Q Waits k') →
  wp (rt_thread_sleep tick) k Q.
Proof using All.
  intros Htick HQ. pose proof (tw_null _ _ (thread_ok _ _ _ _ I Ht)) as Hnull.
  unfold rt_thread_sleep. wps. simpl. rewrite Hc.
  apply wp_assert; [by apply bool_decide_true|]. apply wp_bind.
  eapply (wp_suspend 0 (set_primask 1 k)); [|done|done|].
  { by apply (kinv_at_irrelevant 0 k). }
  intros k1 Hm. 
  assert (threads k1 !! t = Some (set_th_stat RT_THREAD_SUSPEND th)) as Ht1
    by (rewrite (mv_threads _ _ _ _ _ _ _ Hm); apply lookup_insert_eq).
  eapply (wp_arm 0 k1 t _ (mv_inv _ _ _ _ _ _ _ Hm)); [done|lia|done| |done|].
  { rewrite (mv_timer_list _ _ _ _ _ _ _ Hm). apply (no_timer 0 k t th I Ht). by rewrite Hs. }
  intros k2 Hw. pose proof (blocked_primask _ _ _ _ _ k _ (moved_waits _ _ _ _ _ _ _ _ Hm Hw)) as Hb.
  apply wp_bind, wp_enable.
  eapply (wp_give_up 0 t (set_th_stat RT_THREAD_SUSPEND th) k); [apply Hb| |done| |apply Hb|done|eauto].
  - rewrite (bl_threads _ _ _ _ _ _ _ Hb). apply lookup_insert_eq.
  - eapply some_ready_ext, Hother. apply Hb.
Qed.

End sleep.

(** ** Expiry *)

(** Everything but the threads, their queues, the timers and the current
    thread is the same. *)
Record quiet (k k' : kern) : Prop := {
  qu_tick : rt_tick k' = rt_tick k;
  qu_lock : rt_scheduler_lock_nest k' = rt_scheduler_lock_nest k;
  qu_nest : rt_interrupt_nest k' = rt_interrupt_nest k;
  qu_primask : primask k' = primask k;
  qu_sems : sems k' = sems k;
  qu_mutexes : mutexes k' = mutexes k;
  qu_events : events k' = events k;
  qu_mailboxes : mailboxes k' = mailboxes k;
  qu_mqueues : mqueues k' = mqueues k;
  qu_mempools : mempools k' = mempools k;
  qu_pool_words : pool_words k' = pool_words k;
  qu_completions : completions k' = completions k;
  qu_dataqueues : dataqueues k' = dataqueues k;
  qu_errno : _errno k' = _errno k;
  qu_objects : objects k' = objects k;
  qu_object_lists : object_lists k' = object_lists k;
}.

#[global] Instance quiet_refl : Reflexive quiet.
Proof. by split. Qed.
#[global] Instance quiet_trans : Transitive quiet.
Proof. intros k1 k2 k3 [] []. split; congruence. Qed.

Lemma same_rest_quiet k k' : same_rest k k' → quiet k k'.
Proof. intros E. split; by rewrite E. Qed.

Lemma same_but_current_quiet k k' : same_but_current k k' → quiet k k'.
Proof. intros []. by split. Qed.

Lemma kinv_unlink lo k r T1 : kinv_at lo k → is_Some (timers k !! r) →
  becomes (timer_list k) T1 (list_del r (lof (timer_list k))) →
  kinv_at lo (set_timer_list (LS:=seq_lists) T1 k).
Proof.
  intros [I1 I2 I3 I4 I5 I6] [tm Hr] Hb. split; simpl; try done.
  - rewrite (bc_lof _ _ _ Hb). rewrite <-(insert_id (timers k) r tm) by done.
    eapply minv_del; [done|done|]. split_and!; try done; by eapply mi_fields.
  - by eapply siminv_becomes.
Qed.

Lemma kinv_timer lo k r tm tm' : kinv_at lo k → timers k !! r = Some tm → same_timer tm tm' →
  r ∉ lof (timer_list k) tt → kinv_at lo (set_timers (<[r := tm']> (timers k)) k).
Proof.
  intros [I1 I2 I3 I4 I5 I6] Hr Hst Hl. split; simpl; try done.
  - by eapply minv_mod.
  - by eapply siminv_insert.
Qed.

(** A timer of the application changes but for its timeout, in the list or not. *)
Lemma minv_flag lo now l tms ths r tm tm' : minv lo now l tms ths → tms !! r = Some tm →
  same_timer tm tm' → tm_timeout_tick tm' = tm_timeout_tick tm → (∀ t, r ≠ ThreadTimer t) →
  minv lo now l (<[r := tm']> tms) ths.
Proof.
  intros I Hr Hst Htick Hnt.
  assert (∀ x, remaining_of now (<[r := tm']> tms) x = remaining_of now tms x) as Hrem.
  { intros x. unfold remaining_of. destruct (decide (r = x)) as [<-|]; [|by rewrite lookup_insert_ne].
    rewrite lookup_insert_eq, Hr. unfold remaining. by rewrite Htick. }
  split.
  - intros x Hx. destruct (mi_range _ _ _ _ _ I x Hx) as (tmx&Htmx&Hb). specialize (Hrem x).
    destruct (decide (r = x)) as [<-|]; [|rewrite lookup_insert_ne by done; eauto].
    unfold remaining_of in Hrem. rewrite lookup_insert_eq, Htmx in Hrem. rewrite lookup_insert_eq.
    exists tm'. split; [done|]. by rewrite Hrem.
  - eapply sorted_ext; [|apply I]. intros x _. by rewrite Hrem.
  - intros t Ht. rewrite lookup_insert_ne by done. by eapply mi_active.
  - by eapply own_insert.
  - by eapply fields_insert.
Qed.

(** The timers of the list whose time has come. *)
Definition due (k : kern) : list timer_ref :=
  filter (λ r, remaining_of (rt_tick k) (timers k) r <= 0) (lof (timer_list k) tt).

(** What the application's timers have to satisfy: a periodic one has a period,
    and its function is not the one of the threads' timers. *)
Record app_timers (tms : gmap timer_ref rt_timer) : Prop := {
  at_period r tm : tms !! r = Some tm → Z.land (tm_flag tm) RT_TIMER_FLAG_PERIODIC ≠ 0 →
    0 < tm_init_tick tm < RT_TICK_MAX / 2;
  at_func a tm : tms !! UserTimer a = Some tm →
    a ≠ RT_NULL ∧ ∃ f p, tm_timeout_func tm = user_timeout f p;
}.

(** The thread an expired timer wakes, if it has priority [p]. *)
Definition wakes (ths : gmap Z rt_thread) (p : Z) (r : timer_ref) : option Z :=
  match r with
  | ThreadTimer t =>
      th ← ths !! t; if bool_decide (th_current_priority th = p) then Some t else None
  | UserTimer _ => None
  end.

(** The thread that runs is the first of the highest priority. *)
Definition running (k : kern) : Prop :=
  ∃ p, highest (lof (thread_lists k)) p (rt_current_thread k).

(** ** What a timeout function of the application may do

    The functions belong to the application, so they are a parameter: a function
    may call the kernel, change or stop timers, its own too, and wake or create
    threads.  What [rt_timer_check] needs of it is a contract. *)

(** What the expiry of a thread's timer and the bookkeeping of the tick leave
    alone: the application's objects, and that its timers, its threads and their
    queues exist. *)
Record undisturbed (k k' : kern) : Prop := {
  un_sems : sems k' = sems k;
  un_mutexes : mutexes k' = mutexes k;
  un_events : events k' = events k;
  un_mailboxes : mailboxes k' = mailboxes k;
  un_mqueues : mqueues k' = mqueues k;
  un_mempools : mempools k' = mempools k;
  un_pool_words : pool_words k' = pool_words k;
  un_completions : completions k' = completions k;
  un_dataqueues : dataqueues k' = dataqueues k;
  un_objects : objects k' = objects k;
  un_object_lists : object_lists k' = object_lists k;
  un_heads q : is_Some (s_lists (thread_lists k) !! q) → is_Some (s_lists (thread_lists k') !! q);
  un_threads t : is_Some (threads k !! t) → is_Some (threads k' !! t);
  un_timers a : is_Some (timers k !! UserTimer a) → is_Some (timers k' !! UserTimer a);
}.

Lemma quiet_undisturbed k k' : quiet k k' →
  (∀ q, is_Some (s_lists (thread_lists k) !! q) → is_Some (s_lists (thread_lists k') !! q)) →
  (∀ t, is_Some (threads k !! t) → is_Some (threads k' !! t)) →
  (∀ a, is_Some (timers k !! UserTimer a) → is_Some (timers k' !! UserTimer a)) →
  undisturbed k k'.
Proof. intros []. by split. Qed.

(** The clock, the locks and the interrupt mask are the same. *)
Record same_clock (k k' : kern) : Prop := {
  sk_tick : rt_tick k' = rt_tick k;
  sk_lock : rt_scheduler_lock_nest k' = rt_scheduler_lock_nest k;
  sk_nest : rt_interrupt_nest k' = rt_interrupt_nest k;
  sk_primask : primask k' = primask k;
}.

#[global] Instance same_clock_refl : Reflexive same_clock.
Proof. by split. Qed.
#[global] Instance same_clock_trans : Transitive same_clock.
Proof. intros k1 k2 k3 [] []. split; congruence. Qed.

Lemma quiet_clock k k' : quiet k k' → same_clock k k'.
Proof. intros []. by split. Qed.

(** What a timeout function keeps: the invariants, [App] among them, and the
    clock; it makes no timer due that was not, and does not destroy its own. *)
Record kept (App : kern → Prop) (r : timer_ref) (k k' : kern) : Prop := {
  ke_clock : same_clock k k';
  ke_inv : kinv_at (-1) k';
  ke_timers : app_timers (timers k');
  ke_app : App k';
  ke_own : is_Some (timers k' !! r);
  ke_due x : x ∈ due k' → x ∈ due k;
  ke_running : rt_scheduler_lock_nest k = 0 → running k → running k';
}.

(** The contract: called for a timer that is out of the list, the function
    returns and keeps all that.  [App] is what it relies on, that a semaphore it
    releases exists for example; the kernel's own steps do not disturb it. *)
Class Callbacks (user : Z → Z → M unit) (App : kern → Prop) : Prop := {
  cb_returns a tm f p k : kinv_at (-1) k → app_timers (timers k) → App k →
    timers k !! UserTimer a = Some tm → tm_timeout_func tm = user_timeout f p →
    UserTimer a ∉ lof (timer_list k) tt →
    ∃ k', user f p k = Ok tt k' ∧ kept App (UserTimer a) k k';
  cb_app k k' : undisturbed k k' → App k → App k';
}.

(** ** One expiry *)

(** The timer [r] of a thread expires. *)
Record wakes_up (r : timer_ref) (k k' : kern) : Prop := {
  wu_quiet : quiet k k';
  wu_due : due k = r :: due k';
  wu_threads t : threads k' !! t =
    if bool_decide (r = ThreadTimer t) then timed_out <$> threads k !! t else threads k !! t;
  wu_ready p : lof (thread_lists k') (QReady p) =
    lof (thread_lists k) (QReady p) ++ option_list (wakes (threads k) p r);
  wu_waiting q : (∀ p, q ≠ QReady p) →
    lof (thread_lists k') q = filter (λ t, ThreadTimer t ≠ r) (lof (thread_lists k) q);
  wu_heads q : is_Some (s_lists (thread_lists k) !! q) → is_Some (s_lists (thread_lists k') !! q);
  wu_list : lof (timer_list k) tt = r :: lof (timer_list k') tt;
  wu_timers x : x ≠ r → timers k' !! x = timers k !! x;
}.

(** After its function has run, a timer that is periodic and still active
    starts again for its period; another one is no longer active. *)
Definition restarted (r : timer_ref) (k k' : kern) : Prop :=
  ∃ tm, timers k !! r = Some tm ∧
    let tm' := clear_flag RT_TIMER_FLAG_ACTIVATED tm in
    let k1 := set_timers (<[r := tm']> (timers k)) k in
    if bool_decide (Z.land (tm_flag tm) RT_TIMER_FLAG_PERIODIC ≠ 0 ∧
                    Z.land (tm_flag tm) RT_TIMER_FLAG_ACTIVATED ≠ 0)
    then started (-1) k1 r tm' k' else k' = k1.

(** The timer [r] expires: it leaves the list, and its thread wakes up or its
    function is called and the timer may start again. *)
Inductive expiry (user : Z → Z → M unit) (App : kern → Prop) (r : timer_ref) (k k' : kern) : Prop :=
  | expiry_thread t : r = ThreadTimer t → wakes_up r k k' → expiry user App r k k'
  | expiry_user a tm f p T ku : r = UserTimer a →
      timers k !! r = Some tm → tm_timeout_func tm = user_timeout f p →
      becomes (timer_list k) T (list_del r (lof (timer_list k))) →
      user f p (set_timer_list (LS:=seq_lists) T k) = Ok tt ku →
      kept App r (set_timer_list (LS:=seq_lists) T k) ku →
      restarted r ku k' → expiry user App r k k'.

(** What an expiry keeps; the timer is not due any more. *)
Record stays (App : kern → Prop) (r : timer_ref) (k k' : kern) : Prop := {
  st_clock : same_clock k k';
  st_inv : kinv_at (-1) k';
  st_timers : app_timers (timers k');
  st_app : App k';
  st_due x : x ∈ due k' → x ∈ due k ∧ x ≠ r;
  st_running : rt_scheduler_lock_nest k = 0 → running k → running k';
}.

Lemma app_timers_same tms r tm tm' : tms !! r = Some tm → app_timers tms → same_timer tm tm' →
  tm_init_tick tm' = tm_init_tick tm → app_timers (<[r := tm']> tms).
Proof.
  intros Hr [Hp Hu] (Hf&Hflag&_) Hi. split.
  - intros x tmx Hx Hpx. destruct (decide (r = x)) as [->|].
    + rewrite lookup_insert_eq in Hx. simplify_eq. rewrite Hi. eapply Hp; [done|]. tauto.
    + rewrite lookup_insert_ne in Hx by done. by eapply Hp.
  - intros a tmx Hx. destruct (decide (r = UserTimer a)) as [->|].
    + rewrite lookup_insert_eq in Hx. simplify_eq. rewrite Hf. by eapply Hu.
    + rewrite lookup_insert_ne in Hx by done. by eapply Hu.
Qed.

Lemma filter_all {A} (P : A → Prop) `{∀ x, Decision (P x)} (l : list A) :
  (∀ x, x ∈ l → P x) → filter P l = l.
Proof.
  induction l as [|a l IH]; intros Hall; [done|].
  rewrite filter_cons_True by (apply Hall; left). f_equal. apply IH. intros; apply Hall; by right.
Qed.

Section fire.
Context (k : kern) (r : timer_ref) (tm : rt_timer) (l' : list timer_ref).
Context (I : kinv_at (-1) k) (Hl : lof (timer_list k) tt = r :: l').
Context (Hr : timers k !! r = Some tm) (Hdue : remaining (rt_tick k) tm <= 0).

#[local] Lemma fire_not_in : r ∉ l'.
Proof using I Hl.
  pose proof (swf_nodup _ (sm_swf _ _ (ki_timer_store _ _ I)) tt) as Hnd. rewrite Hl in Hnd.
  by apply NoDup_cons in Hnd as [? _].
Qed.

#[local] Lemma fire_filter : filter (λ x, x ≠ r) (lof (timer_list k) tt) = l'.
Proof using I Hl.
  pose proof fire_not_in as Hn. rewrite Hl, filter_cons_False by tauto.
  by apply (list_del_id r (λ _ : unit, l') tt).
Qed.

(** What is due, when [r] left the list or has a time to go. *)
#[local] Lemma fire_due (k' : kern) l1 l2 : rt_tick k' = rt_tick k →
  (∀ x, x ≠ r → timers k' !! x = timers k !! x) → l' = l1 ++ l2 →
  lof (timer_list k') tt = l1 ++ l2 ∨
    (lof (timer_list k') tt = l1 ++ r :: l2 ∧ 0 < remaining_of (rt_tick k) (timers k') r) →
  due k = r :: due k'.
Proof using I Hl Hr Hdue.
  intros Et Hx El Hl'. unfold due. rewrite Hl, filter_cons_True, Et.
  2:{ unfold remaining_of. by rewrite Hr. }
  f_equal. pose proof fire_not_in as Hn.
  assert (∀ l : list timer_ref, (∀ x, x ∈ l → x ∈ l') →
    filter (λ x, remaining_of (rt_tick k) (timers k) x <= 0) l =
    filter (λ x, remaining_of (rt_tick k) (timers k') x <= 0) l) as Hext.
  { intros l Hsub. apply filter_ext_elem. intros x Hin. unfold remaining_of. rewrite Hx; [done|].
    intros ->. auto. }
  destruct Hl' as [->|[-> Hpos]]; rewrite El; [apply Hext; by subst|].
  rewrite !filter_app, filter_cons_False by lia.
  f_equal; apply Hext; subst; set_solver.
Qed.

(** The timer is out of the list. *)
Definition unlinked (T1 : seqs unit timer_ref) : kern := set_timer_list (LS:=seq_lists) T1 k.

#[local] Lemma unlinked_ok : ∃ T1, s_remove (El r) (timer_list k) = Some T1 ∧
  becomes (timer_list k) T1 (list_del r (lof (timer_list k))) ∧
  kinv_at (-1) (unlinked T1) ∧ lof T1 tt = l'.
Proof using I Hl Hr.
  destruct (s_remove_spec (timer_list k) r) as (T1&HT1&Hb).
  - apply I.
  - apply (sm_elem _ _ (ki_timer_store _ _ I)). by rewrite Hr.
  - exists T1. split_and!; [done|done|by eapply kinv_unlink|]. rewrite (bc_lof _ _ _ Hb). apply fire_filter.
Qed.

Context (Happ : app_timers (timers k)).

(** The ready lists when a suspended thread wakes. *)
#[local] Lemma enqueue_wakes t th p : r = ThreadTimer t → threads k !! t = Some th →
  th_stat th = RT_THREAD_SUSPEND →
  enqueue t (th_current_priority th) (lof (thread_lists k)) (QReady p) =
  lof (thread_lists k) (QReady p) ++ option_list (wakes (threads k) p r).
Proof using I.
  intros Er Ht Hs. unfold wakes. rewrite Er, Ht. obind.
  assert (th_stat th ≠ RT_THREAD_READY) as Hn by (by rewrite Hs).
  case_bool_decide as E.
  - subst p. rewrite enqueue_self. by rewrite (not_ready_del _ _ _ _ I Ht Hn).
  - rewrite enqueue_other by done. rewrite (not_ready_del _ _ _ _ I Ht Hn). by rewrite app_nil_r.
Qed.

#[local] Lemma wakes_up_thread t th (T1 : seqs unit timer_ref) k1 k2 tm2 : r = ThreadTimer t →
  threads k !! t = Some th → th_stat th = RT_THREAD_SUSPEND → lof T1 tt = l' →
  moved (-1) t (timed_out th) (enqueue t (th_current_priority th) (lof (thread_lists k))) l'
    (unlinked T1) k1 → scheduled k1 k2 →
  wakes_up r k (set_timers (<[r := clear_flag RT_TIMER_FLAG_ACTIVATED tm2]> (timers k2)) k2).
Proof using I Hl Hr Hdue.
  intros Er Ht Hs HT1 Hm Hk2. set (k' := set_timers _ _).
  pose proof (mv_rest _ _ _ _ _ _ _ Hm) as Hrest. pose proof (scheduled_same _ _ Hk2) as Hsame.
  assert (quiet k k') as Hq.
  { etrans; [|etrans; [by apply same_rest_quiet|etrans; [by apply same_but_current_quiet|]]]; done. }
  assert (∀ x, x ≠ r → timers k' !! x = timers k !! x) as Htms.
  { intros x Hx. simpl. rewrite lookup_insert_ne by done. rewrite (sc_timers _ _ Hsame).
    apply (mv_timers _ _ _ _ _ _ _ Hm). by rewrite <-Er. }
  assert (lof (timer_list k') tt = l') as Hl'.
  { simpl. rewrite (sc_timer_list _ _ Hsame). apply Hm. }
  assert (∀ q, lof (thread_lists k') q =
    enqueue t (th_current_priority th) (lof (thread_lists k)) q) as HL.
  { intros q. simpl. rewrite (sc_lists _ _ Hsame). apply Hm. }
  split; [done| | | | | | |done].
  - apply (fire_due k' [] l'); [apply Hq|done|done|by left].
  - intros u. simpl. rewrite (sc_threads _ _ Hsame), (mv_threads _ _ _ _ _ _ _ Hm). simpl.
    destruct (decide (t = u)) as [->|Hne].
    + by rewrite bool_decide_true, lookup_insert_eq, Ht.
    + by rewrite bool_decide_false, lookup_insert_ne by congruence.
  - intros p. rewrite HL. by apply enqueue_wakes.
  - intros q Hnq. rewrite HL. unfold enqueue. rewrite fn_lookup_insert_ne by (intros <-; by eapply Hnq).
    apply filter_ext_elem. intros u _. rewrite Er. naive_solver.
  - intros q Hh. simpl. rewrite (sc_lists _ _ Hsame). by apply (mv_heads _ _ _ _ _ _ _ Hm).
  - by rewrite Hl'.
Qed.

Context (user : Z → Z → M unit) (App : kern → Prop) `{HU : !Callbacks user App} (HApp : App k).

#[local] Lemma due_nodup : NoDup (due k).
Proof using I. apply NoDup_filter, (ki_timer_store _ _ I). Qed.

#[local] Lemma stays_thread t th k' : r = ThreadTimer t → threads k !! t = Some th → wakes_up r k k' →
  kinv_at (-1) k' → (rt_scheduler_lock_nest k = 0 → running k') → stays App r k k'.
Proof using I Hl Hr Happ HU HApp.
  intros Er Ht Hw I' Hrun.
  assert (threads k' !! t = Some (timed_out th)) as Ht'.
  { rewrite (wu_threads _ _ _ Hw), bool_decide_true, Ht by done. done. }
  split; [apply quiet_clock, Hw|done| | | |auto].
  - split.
    + intros x tmx Hx Hp. destruct (decide (x = r)) as [->|Hne].
      * destruct (mi_own _ _ _ _ _ (ki_timers _ _ I') t _ Ht') as (tm0&Htm0&_&?).
        rewrite Er in Hx. by simplify_eq.
      * rewrite (wu_timers _ _ _ Hw) in Hx by done. by eapply at_period.
    + intros a tmx Hx. rewrite (wu_timers _ _ _ Hw) in Hx by (by rewrite Er). by eapply at_func.
  - apply (cb_app (user:=user) k); [|done]. apply quiet_undisturbed; [apply Hw|apply Hw| |].
    + intros u Hu. rewrite (wu_threads _ _ _ Hw). case_bool_decide; [by rewrite fmap_is_Some|done].
    + intros a Ha. by rewrite (wu_timers _ _ _ Hw) by (by rewrite Er).
  - intros x Hx. pose proof due_nodup as Hnd. rewrite (wu_due _ _ _ Hw) in Hnd |- *.
    apply NoDup_cons in Hnd as [Hnr _]. split; [by right|]. by intros ->.
Qed.

(** What [rt_timer_check] does with an expired timer. *)
Definition expire {A} (f : Z → M A) : M A :=
  _rt_timer_remove r;;
  call_timeout user (tm_timeout_func tm);;
  current_tick ← gets rt_tick;
  t ← get_timer r;
  (if bool_decide (Z.land (tm_flag t) RT_TIMER_FLAG_PERIODIC ≠ 0 ∧
                   Z.land (tm_flag t) RT_TIMER_FLAG_ACTIVATED ≠ 0) then
     mod_timer r (clear_flag RT_TIMER_FLAG_ACTIVATED);;
     rt_timer_start r;; mret tt
   else mod_timer r (clear_flag RT_TIMER_FLAG_ACTIVATED));;
  f current_tick.

Lemma wp_expire_thread t A (f : Z → M A) (Q : A → kern → Prop) : r = ThreadTimer t →
  (∀ k', expiry user App r k k' → stays App r k k' → wp (f (rt_tick k')) k' Q) → wp (expire f) k Q.
Proof using I Hl Hr Hdue Happ HU HApp.
  intros Er HQ. destruct unlinked_ok as (T1&HT1&_&I1&Hl1).
  destruct (mi_active _ _ _ _ _ (ki_timers _ _ I) t) as (tm'&th&Htm&_&Ht&Hs).
  { rewrite Hl, Er. left. }
  destruct (own_timer _ _ _ _ I Ht) as (tm0&Htm0&Hf&_). rewrite <-Er in Htm0.
  assert (tm0 = tm) as -> by congruence.
  unfold expire, _rt_timer_remove. apply wp_bind. eapply wp_on_timers; [exact HT1|].
  apply wp_bind. rewrite Hf. simpl.
  eapply (wp_timeout (-1) (unlinked T1) t th I1 Ht); [done| |].
  { simpl. rewrite Hl1, <-Er. apply fire_not_in. }
  intros k1 k2 Hm Hk2. simpl in Hm. rewrite Hl1 in Hm.
  assert (kinv_at (-1) k2) as I2 by (eapply scheduled_inv; [apply Hm|done]).
  pose proof (scheduled_same _ _ Hk2) as Hsame.
  destruct (mi_own _ _ _ _ _ (ki_timers _ _ I2) t (timed_out th)) as (tm2&Htm2&_&Hper).
  { rewrite (sc_threads _ _ Hsame), (mv_threads _ _ _ _ _ _ _ Hm). apply lookup_insert_eq. }
  rewrite <-Er in Htm2. wps. rewrite bool_decide_false by tauto. wps.
  pose proof (wakes_up_thread t th T1 k1 k2 tm2 Er Ht Hs Hl1 Hm Hk2) as Hw.
  refine (HQ (set_timers _ k2) (expiry_thread _ _ _ _ _ t Er Hw) _).
  apply (stays_thread t th); [done..| |].
  - eapply kinv_timer; [done|done| |].
    + apply clear_flag_same; [done|]. eapply mi_fields; [apply I2|done].
    + rewrite (sc_timer_list _ _ Hsame), (mv_timer_list _ _ _ _ _ _ _ Hm). apply fire_not_in.
  - intros Hlock. apply (scheduled_current k1 k2); [done|].
    by rewrite (sr_lock _ _ (mv_rest _ _ _ _ _ _ _ Hm)).
Qed.

(** What is due once [r] left the list. *)
#[local] Lemma unlinked_due T1 x : lof T1 tt = l' → x ∈ due (unlinked T1) → x ∈ due k ∧ x ≠ r.
Proof using I Hl.
  intros HT1 [Hx Hin]%list_elem_of_filter. simpl in Hx, Hin. rewrite HT1 in Hin. split.
  - apply list_elem_of_filter. rewrite Hl. split; [done|]. by right.
  - intros ->. by apply fire_not_in.
Qed.

(** The flag of an application's timer, in the list or not. *)
#[local] Lemma cleared_stays a (ku : kern) tmu (T1 : seqs unit timer_ref) : r = UserTimer a →
  lof T1 tt = l' → kept App r (unlinked T1) ku → timers ku !! r = Some tmu →
  stays App r k (set_timers (<[r := clear_flag RT_TIMER_FLAG_ACTIVATED tmu]> (timers ku)) ku).
Proof using I Hl Hr HU.
  intros Er HT1 [Hc Iu Ha HA _ Hd Hrun] Hru. set (k' := set_timers _ _).
  pose proof (clear_flag_same tmu RT_TIMER_FLAG_ACTIVATED ltac:(done)
    (mi_fields _ _ _ _ _ (ki_timers _ _ Iu) r tmu Hru)) as Hst.
  assert (∀ x, remaining_of (rt_tick ku) (timers k') x = remaining_of (rt_tick ku) (timers ku) x) as Hrem.
  { intros x. unfold remaining_of. simpl. destruct (decide (r = x)) as [<-|].
    - by rewrite lookup_insert_eq, Hru.
    - by rewrite lookup_insert_ne. }
  split; [by destruct Hc| | | | |done].
  - destruct Iu as [J1 J2 J3 J4 J5 J6]. split; try done.
    + by eapply minv_flag; [..|intros; by rewrite Er].
    + by eapply siminv_insert.
  - by eapply app_timers_same.
  - apply (cb_app (user:=user) ku); [|done]. apply quiet_undisturbed; try done. intros b Hb. simpl.
    destruct (decide (r = UserTimer b)) as [->|]; [by rewrite lookup_insert_eq|by rewrite lookup_insert_ne].
  - intros x [Hx Hin]%list_elem_of_filter. apply (unlinked_due T1); [done|]. apply Hd.
    apply list_elem_of_filter. split; [by rewrite <-Hrem|done].
Qed.

(** The timer starts again. *)
#[local] Lemma restart_stays a k1 tm1 k' : r = UserTimer a → stays App r k k1 →
  timers k1 !! r = Some tm1 → 0 < tm_init_tick tm1 < RT_TICK_MAX / 2 → started (-1) k1 r tm1 k' →
  stays App r k k'.
Proof using I Hl Hr Hdue Happ HU HApp.
  intros Er [Hc I1 Ha HA Hd Hrun] H1 Hper Hs. pose proof (kinv_started _ _ _ _ _ I1 Hs) as I'.
  destruct Hs as (T'&m1&m2&->&Hm&HT'&_).
  pose proof (mi_fields _ _ _ _ _ (ki_timers _ _ I1) r tm1 H1) as Hf.
  split; [by destruct Hc|done| | | |done].
  - eapply app_timers_same; [done|done|by apply armed_same|done].
  - apply (cb_app (user:=user) k1); [|done]. apply quiet_undisturbed; try done. intros b Hb. simpl.
    destruct (decide (r = UserTimer b)) as [->|]; [by rewrite lookup_insert_eq|by rewrite lookup_insert_ne].
  - intros x [Hx Hin]%list_elem_of_filter. simpl in Hx, Hin. rewrite HT' in Hin.
    destruct (decide (x = r)) as [->|Hne].
    { unfold remaining_of in Hx. rewrite lookup_insert_eq in Hx. unfold remaining in Hx. simpl in Hx.
      rewrite start_remaining in Hx; [lia|apply I1|lia]. }
    split; [|done]. apply Hd, list_elem_of_filter. unfold remaining_of in *.
    rewrite lookup_insert_ne in Hx by done. split; [done|].
    assert (x ∈ m1 ++ m2) as Hin' by set_solver. rewrite <-Hm in Hin'.
    by apply list_elem_of_filter in Hin' as [_ ?].
Qed.

Lemma wp_expire_user a A (f : Z → M A) (Q : A → kern → Prop) : r = UserTimer a →
  (∀ k', expiry user App r k k' → stays App r k k' → wp (f (rt_tick k')) k' Q) → wp (expire f) k Q.
Proof using I Hl Hr Hdue Happ HU HApp.
  intros Er HQ. destruct unlinked_ok as (T1&HT1&Hb&I1&Hl1).
  destruct (at_func _ Happ a tm) as (Hna&fn&arg&Hf); [by rewrite <-Er|].
  assert (App (unlinked T1)) as HA1.
  { apply (cb_app (user:=user) k); [|done]. by split. }
  destruct (cb_returns (user:=user) a tm fn arg (unlinked T1)) as (ku&Eu&Hk);
    [done|done|done|by rewrite <-Er|done| |].
  { simpl. rewrite Hl1, <-Er. apply fire_not_in. }
  rewrite <-Er in Hk. destruct (ke_own _ _ _ _ Hk) as [tmu Hru].
  unfold expire, _rt_timer_remove. apply wp_bind. eapply wp_on_timers; [exact HT1|].
  apply wp_bind. rewrite Hf. simpl. eapply wp_eq; [exact Eu|].
  pose proof (cleared_stays a ku tmu T1 Er Hl1 Hk Hru) as Hst.
  assert (∀ k', restarted r ku k' → expiry user App r k k') as Hex by (intros k'; by eapply expiry_user).
  wps. destruct (decide (Z.land (tm_flag tmu) RT_TIMER_FLAG_PERIODIC ≠ 0 ∧
                         Z.land (tm_flag tmu) RT_TIMER_FLAG_ACTIVATED ≠ 0)) as [Hpa|Hn].
  2:{ rewrite bool_decide_false by done. wps. refine (HQ (set_timers _ ku) (Hex _ _) Hst).
      exists tmu. split; [done|]. by rewrite bool_decide_false. }
  rewrite bool_decide_true by done. wps.
  pose proof (at_period _ (ke_timers _ _ _ _ Hk) r tmu Hru (proj1 Hpa)) as Hper.
  set (k2 := set_timers _ _). set (tm2 := clear_flag RT_TIMER_FLAG_ACTIVATED tmu).
  pose proof (st_inv _ _ _ _ Hst) as I2.
  eapply (wp_timer_start (-1) k2 r tm2); [lia|apply I2|apply I2|apply I2| |apply lookup_insert_eq|apply Hper| |].
  { rewrite Er. simpl. by rewrite bool_decide_false. }
  { by rewrite Er. }
  intros k' Hs. wps.
  assert (rt_tick ku = rt_tick k') as -> by (by destruct Hs as (T'&?&?&->&_)).
  apply HQ.
  - apply Hex. exists tmu. split; [done|]. by rewrite bool_decide_true.
  - eapply (restart_stays a k2 tm2); [done|done|apply lookup_insert_eq|apply Hper|done].
Qed.

End fire.

(** ** [rt_timer_check] *)

(** The timers [rs] expire one after the other, each the first one due at its
    time, until none is due. *)
Inductive fired (user : Z → Z → M unit) (App : kern → Prop) : list timer_ref → kern → kern → Prop :=
  | fired_none k : due k = [] → fired user App [] k k
  | fired_one r rs k k1 k' : kinv_at (-1) k → head (due k) = Some r → expiry user App r k k1 →
      fired user App rs k1 k' → fired user App (r :: rs) k k'.

(** The functions stop no timer that is due. *)
Definition steady (user : Z → Z → M unit) : Prop :=
  ∀ f p k k' x, kinv_at (-1) k → user f p k = Ok tt k' → x ∈ due k → x ∈ due k'.

(** No timer is due any more, and what was kept. *)
Record settled (App : kern → Prop) (k k' : kern) : Prop := {
  se_clock : same_clock k k';
  se_inv : kinv_at 1 k';
  se_timers : app_timers (timers k');
  se_app : App k';
  se_running : rt_scheduler_lock_nest k = 0 → running k → running k';
}.

Lemma settled_nothing App k : kinv_at (-1) k → app_timers (timers k) → App k → due k = [] → settled App k k.
Proof.
  intros [I1 I2 I3 I4 I5 I6] Ha HA E. split; try done.
  split; try done. destruct I4 as [J1 J2 J3 J4 J5]. split; try done.
  intros r Hr. destruct (J1 r Hr) as (tm&Htm&Hrem). exists tm. split; [done|].
  destruct (decide (1 <= remaining (rt_tick k) tm)); [lia|]. exfalso.
  assert (r ∈ due k) as Hd; [|rewrite E in Hd; by apply not_elem_of_nil in Hd].
  apply list_elem_of_filter. split; [|done]. unfold remaining_of. rewrite Htm. lia.
Qed.

Lemma settled_step App r k k1 k' : stays App r k k1 → settled App k1 k' → settled App k k'.
Proof.
  intros Hs He. split; [etrans; [apply Hs|apply He]|apply He|apply He|apply He|].
  intros Hl Hr. apply (se_running _ _ _ He); [by rewrite (sk_lock _ _ (st_clock _ _ _ _ Hs))|].
  by apply (st_running _ _ _ _ Hs).
Qed.

(** The other timers due stay so. *)
Lemma expiry_steady user App r k k' x : steady user → kinv_at (-1) k → expiry user App r k k' → x ≠ r →
  x ∈ due k → x ∈ due k'.
Proof.
  intros Hu I [t Er Hw|a tm f p T ku Er Hr Hf Hb Eu Hk (tmu&Hru&Hres)] Hx Hd.
  { rewrite (wu_due _ _ _ Hw) in Hd. by apply elem_of_cons in Hd as [?|?]. }
  assert (x ∈ due ku) as Hdu.
  { eapply Hu; [by eapply kinv_unlink|exact Eu|]. apply list_elem_of_filter in Hd as [? ?]. apply list_elem_of_filter. simpl.
    split; [done|]. rewrite (bc_lof _ _ _ Hb). by apply list_elem_of_filter. }
  apply list_elem_of_filter in Hdu as [Hrem Hin]. apply list_elem_of_filter.
  unfold remaining_of in *. case_bool_decide as Hp.
  - destruct Hres as (T'&m1&m2&->&Hm&HT'&_). simpl in *. rewrite !lookup_insert_ne by done. split; [done|].
    assert (x ∈ m1 ++ m2) as Hx'; [|rewrite HT'; set_solver].
    rewrite <-Hm. by apply list_elem_of_filter.
  - subst k'. simpl. by rewrite lookup_insert_ne by done.
Qed.

Lemma fired_steady user App rs k k' r : steady user → fired user App rs k k' → r ∈ due k → r ∈ rs.
Proof.
  intros Hu Hf. induction Hf as [k E|r0 rs k k1 k' I Hh He Hf IH]; intros Hr.
  - by rewrite E in Hr.
  - destruct (decide (r = r0)) as [->|Hne]; [left|right]. apply IH. by eapply expiry_steady.
Qed.

(** The test of the loop, across the wrap-around of the tick. *)
Lemma due_test now timeout : -1 <= s32 (timeout - now) <= max_time →
  u32 (now - timeout) < RT_TICK_MAX / 2 ↔ s32 (timeout - now) <= 0.
Proof. unfold max_time. change (RT_TICK_MAX / 2) with 2147483647. intros. mlia. Qed.

Section check.
Context (user : Z → Z → M unit) (App : kern → Prop) `{HU : !Callbacks user App}.

(** An expiry leaves fewer timers due. *)
Lemma due_shrinks r k k' : kinv_at (-1) k → stays App r k k' → r ∈ due k →
  (length (due k') < length (due k))%nat.
Proof.
  intros I Hs Hr. change (length (r :: due k') <= length (due k))%nat.
  apply submseteq_length, NoDup_submseteq.
  - constructor; [|apply NoDup_filter, (ki_timer_store _ _ (st_inv _ _ _ _ Hs))].
    by intros [_ ?]%(st_due _ _ _ _ Hs).
  - intros x [->|Hx]%elem_of_cons; [done|]. by apply (st_due _ _ _ _ Hs).
Qed.

(** No timer is due when the first of the sorted list is not. *)
Lemma due_first k r l' tm : kinv_at (-1) k → lof (timer_list k) tt = r :: l' →
  timers k !! r = Some tm → 0 < remaining (rt_tick k) tm → due k = [].
Proof.
  intros I Hl Hr Hpos. pose proof (mi_sorted _ _ _ _ _ (ki_timers _ _ I)) as Hs.
  rewrite Hl in Hs. simpl in Hs. apply StronglySorted_inv in Hs as [_ Hall].
  rewrite Forall_fmap, Forall_forall in Hall.
  assert (remaining_of (rt_tick k) (timers k) r = remaining (rt_tick k) tm) as E
    by (unfold remaining_of; by rewrite Hr).
  unfold due. rewrite Hl. apply elem_of_nil_inv. intros x [Hle Hx]%list_elem_of_filter.
  apply elem_of_cons in Hx as [->|Hx]; [lia|]. specialize (Hall x Hx). simpl in Hall. lia.
Qed.

Lemma wp_check_loop fuel k (Q : unit → kern → Prop) : kinv_at (-1) k → app_timers (timers k) → App k →
  (length (due k) < fuel)%nat →
  (∀ rs k', fired user App rs k k' → settled App k k' → NoDup rs → (∀ r, r ∈ rs → r ∈ due k) → Q tt k') →
  wp (timer_check_loop (call_timeout user) fuel (rt_tick k)) k Q.
Proof using HU.
  revert k Q. induction fuel as [|fuel IH]; intros k Q I Happ HA Hfuel HQ; [lia|].
  assert (due k = [] → Q tt k) as Hend.
  { intros E. apply (HQ []); [by constructor|by apply settled_nothing|constructor|].
    by intros r ?%not_elem_of_nil. }
  cbn [timer_check_loop]. apply wp_bind.
  eapply wp_kopt; [apply s_isempty_spec, (ki_timer_store _ _ I)|].
  destruct (lof (timer_list k) tt) as [|r l'] eqn:Hl.
  { apply wp_ret, Hend. unfold due. by rewrite Hl. }
  rewrite bool_decide_false by done. apply wp_bind.
  eapply wp_kopt; [apply s_next_head, (ki_timer_store _ _ I)|]. rewrite Hl. simpl.
  destruct (mi_range _ _ _ _ _ (ki_timers _ _ I) r) as (tm&Hr&Hrem); [rewrite Hl; left|].
  wps. pose proof (due_test (rt_tick k) (tm_timeout_tick tm) Hrem) as Htest.
  fold (remaining (rt_tick k) tm) in Htest.
  destruct (decide (remaining (rt_tick k) tm <= 0)) as [Hdue|Hdue].
  2:{ rewrite bool_decide_false by tauto. apply wp_ret, Hend. eapply due_first; [done..|lia]. }
  rewrite bool_decide_true by tauto.
  assert (∃ d, due k = r :: d) as [d Hd].
  { unfold due. rewrite Hl, filter_cons_True; [eauto|]. unfold remaining_of. by rewrite Hr. }
  assert (∀ k', expiry user App r k k' → stays App r k k' →
    wp (timer_check_loop (call_timeout user) fuel (rt_tick k')) k' Q) as Hgo.
  { intros k' He Hs. apply IH; [apply Hs|apply Hs|apply Hs| |].
    - pose proof (due_shrinks r k k' I Hs) as Hlt. rewrite Hd in Hlt at 1. specialize (Hlt ltac:(left)). lia.
    - intros rs k2 Hf H2 Hnd Hsub. apply (HQ (r :: rs)).
      + econstructor; [done|by rewrite Hd|done|done].
      + by eapply settled_step.
      + constructor; [|done]. intros Hin%Hsub. by apply (st_due _ _ _ _ Hs) in Hin as [_ ?].
      + intros x [->|Hx]%elem_of_cons; [rewrite Hd; left|]. by apply (st_due _ _ _ _ Hs), Hsub. }
  destruct r as [t|a].
  - eapply (wp_expire_thread k (ThreadTimer t) tm l' I Hl Hr Hdue Happ user App HA t); [done|exact Hgo].
  - eapply (wp_expire_user k (UserTimer a) tm l' I Hl Hr Hdue Happ user App HA a); [done|exact Hgo].
Qed.

(** What [rt_timer_check] does from [k], when [k'] is the state before it
    unmasks interrupts again. *)
Record checked_timers (rs : list timer_ref) (k k' : kern) : Prop := {
  ct_fired : fired user App rs (set_primask 1 k) k';
  ct_settled : settled App k (set_primask (primask k) k');
  ct_once : NoDup rs;
  ct_due r : r ∈ rs → r ∈ due k;
  ct_all r : steady user → r ∈ due k → r ∈ rs;
}.

Lemma wp_timer_check k (Q : unit → kern → Prop) : kinv_at (-1) k → app_timers (timers k) → App k →
  (∀ rs k', checked_timers rs k k' → Q tt (set_primask (primask k) k')) →
  wp (rt_timer_check (call_timeout user)) k Q.
Proof using HU.
  intros I Happ HA HQ. unfold rt_timer_check. wps.
  assert (kinv_at (-1) (set_primask 1 k)) as I1 by (by apply (kinv_at_irrelevant (-1) k)).
  assert (∀ n k, App k → App (set_primask n k)) as Hmask.
  { intros n k0. apply (cb_app (user:=user)). by split. }
  apply (wp_check_loop _ (set_primask 1 k)); [done|done|by apply Hmask| |].
  - simpl. apply Nat.lt_succ_r, NoDup_keys_size.
    + apply NoDup_filter, (ki_timer_store _ _ I).
    + intros x [_ Hx]%list_elem_of_filter.
      destruct (mi_range _ _ _ _ _ (ki_timers _ _ I) x Hx) as (?&->&_). eauto.
  - intros rs k' Hf Hs Hnd Hsub. wps. apply (HQ rs). destruct Hs as [Hc Hi Ha HA' Hrun].
    split; [done| |done|done|].
    + split; [by destruct Hc|by apply (kinv_at_irrelevant 1 k')|done|by apply Hmask|done].
    + intros r Hst Hr. by eapply (fired_steady user App rs _ k' r Hst Hf).
Qed.

End check.

(** ** The tick *)

Lemma remaining_tick now tm : in_u32 now → 0 <= remaining now tm <= max_time →
  remaining (u32 (now + 1)) tm = remaining now tm - 1.
Proof. unfold remaining, max_time. intros. mlia. Qed.

Lemma kinv_at_weaken lo lo' (k : kern) : lo' <= lo → kinv_at lo k → kinv_at lo' k.
Proof.
  intros Hlo [I1 I2 I3 [J1 J2 J3 J4 J5] I5 I6]. split; try done. split; try done.
  intros r Hr. destruct (J1 r Hr) as (tm&?&?). exists tm. split; [done|lia].
Qed.

Lemma kinv_tick k : kinv k → kinv_at (-1) (set_rt_tick (u32 (rt_tick k + 1)) k).
Proof.
  intros [I1 I2 I3 [J1 J2 J3 J4 J5] I5 I6].
  assert (∀ r, r ∈ lof (timer_list k) tt → remaining_of (u32 (rt_tick k + 1)) (timers k) r =
    remaining_of (rt_tick k) (timers k) r - 1) as Hrem.
  { intros r Hr. destruct (J1 r Hr) as (tm&Htm&Hb). unfold remaining_of. rewrite Htm.
    by apply remaining_tick. }
  split; simpl; try done; [|apply u32_range]. split; try done.
  - intros r Hr. destruct (J1 r Hr) as (tm&Htm&Hb). exists tm. split; [done|].
    rewrite remaining_tick by done. lia.
  - apply (sorted_ext (λ r, remaining_of (rt_tick k) (timers k) r - 1)).
    + intros r Hr. by rewrite Hrem.
    + clear -J2. induction (lof (timer_list k) tt) as [|a l IH]; simpl in *; [done|].
      apply StronglySorted_inv in J2 as [Hs Ha]. constructor; [auto|].
      rewrite Forall_fmap in *. eapply Forall_impl; [exact Ha|]. intros x. simpl. lia.
Qed.

Lemma moved_app lo t th' L' l' k k' : moved lo t th' L' l' k k' → app_timers (timers k) →
  app_timers (timers k').
Proof.
  intros Hm [Hp Hu]. split.
  - intros r tm Hr Hper. destruct (decide (r = ThreadTimer t)) as [->|Hne].
    + destruct (mi_own _ _ _ _ _ (ki_timers _ _ (mv_inv _ _ _ _ _ _ _ Hm)) t th') as (?&?&_&?).
      { rewrite (mv_threads _ _ _ _ _ _ _ Hm). apply lookup_insert_eq. }
      by simplify_eq.
    + rewrite (mv_timers _ _ _ _ _ _ _ Hm) in Hr by done. by eapply Hp.
  - intros a tm Ha. rewrite (mv_timers _ _ _ _ _ _ _ Hm) in Ha by done. by eapply Hu.
Qed.

(** The time slice of a thread: a used up slice starts again. *)
Definition slice (th : rt_thread) : rt_thread :=
  let r := u32 (th_remaining_tick th - 1) in
  set_th_remaining_tick (if bool_decide (r = 0) then th_init_tick th else r) th.

(** The slice of the current thread ends with this tick. *)
Definition slice_over (th : rt_thread) : Prop :=
  u32 (th_remaining_tick th - 1) = 0 ∧ th_stat th = RT_THREAD_READY.

Record sliced (lo t : Z) (th : rt_thread) (k k' : kern) : Prop := {
  sl_quiet : quiet k k';
  sl_inv : kinv_at lo k';
  sl_threads : threads k' = <[t := slice th]> (threads k);
  sl_lists q : lof (thread_lists k') q =
    if bool_decide (slice_over th) then enqueue t (th_current_priority th) (lof (thread_lists k)) q
    else lof (thread_lists k) q;
  sl_heads q : is_Some (s_lists (thread_lists k) !! q) → is_Some (s_lists (thread_lists k') !! q);
  sl_timer_list : lof (timer_list k') tt = lof (timer_list k) tt;
  sl_timers r : r ∈ lof (timer_list k) tt → timers k' !! r = timers k !! r;
  sl_user a : timers k' !! UserTimer a = timers k !! UserTimer a;
  sl_app : app_timers (timers k) → app_timers (timers k');
  sl_running : rt_scheduler_lock_nest k = 0 → running k → running k';
}.

Section slice.
Context (lo : Z) (k : kern) (t : Z) (th : rt_thread) (I : kinv_at lo k).
Context (Hc : rt_current_thread k = t) (Ht : threads k !! t = Some th).

#[local] Abbreviation k0 := (set_threads (<[t := slice th]> (threads k)) k).

#[local] Lemma slice_inv : kinv_at lo k0.
Proof using I Ht.
  apply (kinv_thread lo k t th); try done.
  pose proof (thread_ok _ _ _ _ I Ht) as []. by split.
Qed.

(** The thread keeps its place. *)
#[local] Lemma sliced_stays :
  (∀ q, (if bool_decide (slice_over th) then enqueue t (th_current_priority th) (lof (thread_lists k)) q
         else lof (thread_lists k) q) = lof (thread_lists k) q) →
  sliced lo t th k k0.
Proof using I Ht. intros E. split; try done. apply slice_inv. Qed.

#[local] Lemma sliced_moves k1 k' : slice_over th →
  moved lo t (slice th) (enqueue t (th_current_priority th) (lof (thread_lists k)))
    (lof (timer_list k) tt) k0 k1 → scheduled k1 k' → sliced lo t th k k'.
Proof using I Ht.
  intros Hover Hm%moved_set_thread Hk'. pose proof (scheduled_same _ _ Hk') as Hs.
  assert (ThreadTimer t ∉ lof (timer_list k) tt) as Hno.
  { eapply no_timer; [done..|]. destruct Hover as [_ ->]. done. }
  split.
  - etrans; [apply same_rest_quiet, Hm|by apply same_but_current_quiet].
  - eapply scheduled_inv, Hk'. apply Hm.
  - rewrite (sc_threads _ _ Hs). apply Hm.
  - intros q. rewrite (sc_lists _ _ Hs), bool_decide_true by done. apply Hm.
  - intros q Hq. rewrite (sc_lists _ _ Hs). by apply (mv_heads _ _ _ _ _ _ _ Hm).
  - rewrite (sc_timer_list _ _ Hs). apply Hm.
  - intros r Hr. rewrite (sc_timers _ _ Hs). apply (mv_timers _ _ _ _ _ _ _ Hm). by intros ->.
  - intros a. rewrite (sc_timers _ _ Hs). by apply (mv_timers _ _ _ _ _ _ _ Hm).
  - intros Ha. rewrite (sc_timers _ _ Hs). by eapply moved_app.
  - intros Hl _. apply (scheduled_current k1); [done|].
    by rewrite (sr_lock _ _ (mv_rest _ _ _ _ _ _ _ Hm)).
Qed.

Lemma wp_slice A (f : M A) (Q : A → kern → Prop) : (∀ k', sliced lo t th k k' → wp f k' Q) →
  wp (thread ← rt_thread_self;
      mod_thread thread (λ th, set_th_remaining_tick (u32 (th_remaining_tick th - 1)) th);;
      th ← get_thread thread;
      (if bool_decide (th_remaining_tick th = 0) then
         mod_thread thread (λ th, set_th_remaining_tick (th_init_tick th) th);;
         rt_thread_yield;; mret tt
       else mret tt);; f) k Q.
Proof using All.
  intros HQ. unfold rt_thread_self. wps. rewrite Hc. wps.
  eapply wp_get_thread; [apply lookup_insert_eq|]. simpl.
  destruct (decide (u32 (th_remaining_tick th - 1) = 0)) as [E|E].
  2:{ rewrite bool_decide_false by done. wps. apply HQ.
      assert (set_th_remaining_tick (u32 (th_remaining_tick th - 1)) th = slice th) as ->.
      { unfold slice. by rewrite bool_decide_false. }
      apply sliced_stays. intros q. rewrite bool_decide_false; [done|]. by intros [? _]. }
  rewrite bool_decide_true by done. wps.
  eapply wp_mod_thread; [apply lookup_insert_eq|]. wps. simpl. rewrite insert_insert_eq.
  assert (set_th_remaining_tick (th_init_tick th)
    (set_th_remaining_tick (u32 (th_remaining_tick th - 1)) th) = slice th) as ->.
  { unfold slice. by rewrite bool_decide_true. }
  destruct (decide (th_stat th = RT_THREAD_READY)) as [Hs|Hs].
  - eapply (wp_yield lo k0 t (slice th) slice_inv (lookup_insert_eq _ _ _)); [done|done| |].
    + intros Halone. wps. apply HQ, sliced_stays. intros q. case_bool_decide; [|done].
      by apply (enqueue_alone _ _ _ _ I Ht).
    + intros k1 k' _ Hm Hk'. wps. by eapply HQ, sliced_moves.
  - unfold rt_thread_yield. wps. eapply wp_get_thread; [simpl; rewrite Hc; apply lookup_insert_eq|].
    simpl. rewrite bool_decide_false by done. wps.
    assert (sliced lo t th k k0) as Hsl.
    { apply sliced_stays. intros q. rewrite bool_decide_false; [done|]. by intros [_ ?]. }
    specialize (HQ _ Hsl). by destruct k.
Qed.

End slice.

(** The timers that expire with the next tick. *)
Definition next_due (k : kern) : list timer_ref :=
  filter (λ r, remaining_of (rt_tick k) (timers k) r <= 1) (lof (timer_list k) tt).

(** A tick while [t] runs, in which the timers [rs] expire: [k1] is the state
    after the time slice, [k2] the one after the last expiry. *)
Record ticked (user : Z → Z → M unit) (App : kern → Prop) (t : Z) (th : rt_thread)
    (rs : list timer_ref) (k k1 k2 k' : kern) : Prop := {
  tk_slice : sliced (-1) t th
    (set_rt_tick (u32 (rt_tick k + 1)) (set_rt_interrupt_nest (u8 (rt_interrupt_nest k + 1)) k)) k1;
  tk_fired : fired user App rs (set_primask 1 k1) k2;
  tk_end : k' = set_rt_interrupt_nest (rt_interrupt_nest k) (set_primask (primask k) k2);
  tk_once : NoDup rs;
  tk_due r : r ∈ rs → r ∈ next_due k;
  tk_all r : steady user → r ∈ next_due k → r ∈ rs;
  tk_settled : settled App (set_rt_tick (u32 (rt_tick k + 1)) k) k';
}.

Section tick.
Context (k : kern) (t : Z) (th : rt_thread) (I : kinv k).
Context (Hc : rt_current_thread k = t) (Ht : threads k !! t = Some th).

#[local] Abbreviation kt := (set_rt_tick (u32 (rt_tick k + 1)) k).

#[local] Lemma sliced_due k1 : sliced (-1) t th kt k1 → due k1 = next_due k.
Proof using All.
  intros Hs. unfold due, next_due. rewrite (sl_timer_list _ _ _ _ _ Hs). simpl.
  apply filter_ext_elem. intros r Hr. unfold remaining_of.
  rewrite (sl_timers _ _ _ _ _ Hs), (qu_tick _ _ (sl_quiet _ _ _ _ _ Hs)) by done. simpl.
  destruct (mi_range _ _ _ _ _ (ki_timers _ _ I) r Hr) as (tm&->&Hrem).
  rewrite remaining_tick by (done || apply I). lia.
Qed.

Context (user : Z → Z → M unit) (App : kern → Prop) `{HU : !Callbacks user App}.
Context (Happ : app_timers (timers k)) (HApp : App k).

#[local] Lemma sliced_app k1 : sliced (-1) t th kt k1 → App k1.
Proof using Ht HU HApp.
  intros Hs. apply (cb_app (user:=user) k); [|done].
  pose proof (sl_quiet _ _ _ _ _ Hs) as []. split; try done; [apply Hs| |].
  - intros u Hu. rewrite (sl_threads _ _ _ _ _ Hs). simpl. apply lookup_insert_is_Some'. by right.
  - intros a. by rewrite (sl_user _ _ _ _ _ Hs).
Qed.

Lemma wp_tick_increase (Q : unit → kern → Prop) :
  (∀ rs k1 k2, sliced (-1) t th kt k1 → due k1 = next_due k → checked_timers user App rs k1 k2 →
     Q tt (set_primask (primask k) k2)) →
  wp (rt_tick_increase user) k Q.
Proof using All.
  intros HQ. unfold rt_tick_increase. apply wp_bind, wp_kset.
  apply (wp_slice (-1) kt t th (kinv_tick k I) Hc Ht). intros k1 Hs.
  apply (wp_timer_check user App);
    [apply Hs|by apply (sl_app _ _ _ _ _ Hs)|by apply sliced_app|].
  intros rs k2 Hk2. rewrite (qu_primask _ _ (sl_quiet _ _ _ _ _ Hs)).
  apply (HQ rs k1 k2); [done|by apply sliced_due|done].
Qed.

End tick.

(** ** The tick interrupt *)

Section systick.
Context (user : Z → Z → M unit) (App : kern → Prop) `{HU : !Callbacks user App}.

Lemma wp_SysTick (k : kern) t th (Q : unit → kern → Prop) : kinv k → rt_current_thread k = t →
  threads k !! t = Some th → app_timers (timers k) → App k → in_u8 (rt_interrupt_nest k) →
  (∀ rs k1 k2 k', ticked user App t th rs k k1 k2 k' → Q tt k') → wp (SysTick_Handler user) k Q.
Proof using HU.
  intros I Hc Ht Ha HA Hn HQ. unfold SysTick_Handler, rt_interrupt_enter, rt_interrupt_leave. wps.
  set (k0 := set_primask (primask k) _).
  assert (k0 = set_rt_interrupt_nest (u8 (rt_interrupt_nest k + 1)) k) as -> by (subst k0; by destruct k).
  set (k0 := set_rt_interrupt_nest _ k).
  assert (kinv k0) as I0 by (by apply (kinv_at_irrelevant 0 k)).
  assert (∀ m n k, App k → App (set_rt_interrupt_nest m (set_primask n k))) as Hset.
  { intros m n k3. apply (cb_app (user:=user)). by split. }
  assert (App k0) as HA0 by (apply (cb_app (user:=user) k); [by split|done]).
  apply (wp_tick_increase k0 t th I0 Hc Ht user App Ha HA0). intros rs k1 k2 Hs Hd [Hf He H1 H2 H3]. wps.
  pose proof (sl_quiet _ _ _ _ _ Hs) as Hq. destruct He as [Hca Hi Hap HA' Hrun]. rewrite Hd in *.
  set (n := u8 _). assert (n = rt_interrupt_nest k) as En.
  { pose proof (sk_nest _ _ Hca) as E1. pose proof (qu_nest _ _ Hq) as E2. simpl in E1, E2.
    subst n. simpl. rewrite E1, E2. unfold in_u8 in Hn. mlia. }
  set (k' := set_primask _ _).
  assert (k' = set_rt_interrupt_nest (rt_interrupt_nest k) (set_primask (primask k) k2)) as ->.
  { subst k'. rewrite <-En. by destruct k2. }
  apply (HQ rs k1 k2 (set_rt_interrupt_nest (rt_interrupt_nest k) (set_primask (primask k) k2))).
  split; try done. split.
  - split; [|  |done|done]; simpl.
    + pose proof (sk_tick _ _ Hca) as E. simpl in E. rewrite E. apply Hq.
    + pose proof (sk_lock _ _ Hca) as E. simpl in E. rewrite E. apply Hq.
  - by apply (kinv_at_irrelevant 1 (set_primask (primask k1) k2)).
  - done.
  - apply (cb_app (user:=user) (set_primask (primask k1) k2)); [by split|done].
  - intros Hl Hr. apply Hrun; [by rewrite (qu_lock _ _ Hq)|]. by apply (sl_running _ _ _ _ _ Hs).
Qed.

Fixpoint ticks (n : nat) : M unit :=
  match n with O => mret tt | S n => SysTick_Handler user;; ticks n end.

(** What the ticks keep. *)
Record ticking (k : kern) : Prop := {
  ti_inv : kinv k;
  ti_timers : app_timers (timers k);
  ti_app : App k;
  ti_nest : in_u8 (rt_interrupt_nest k);
  ti_lock : rt_scheduler_lock_nest k = 0;
  ti_running : running k;
}.

Lemma wp_tick (k : kern) (Q : unit → kern → Prop) : ticking k →
  (∀ t th rs k1 k2 k', threads k !! t = Some th → th_stat th = RT_THREAD_READY → rt_current_thread k = t →
     ticked user App t th rs k k1 k2 k' → ticking k' → Q tt k') →
  wp (SysTick_Handler user) k Q.
Proof using HU.
  intros [I Ha HA Hn Hl [p Hr]] HQ. destruct (highest_thread _ _ I _ _ Hr) as (th&Ht&Hs&_&_).
  eapply (wp_SysTick k _ th); [done..|]. intros rs k1 k2 k' Hk'. eapply HQ; [done..|].
  destruct (tk_settled _ _ _ _ _ _ _ _ _ Hk') as [Hc Hi Hap HA' Hrun]. split; try done.
  - eapply kinv_at_weaken; [|exact Hi]. lia.
  - by rewrite (sk_nest _ _ Hc).
  - by rewrite (sk_lock _ _ Hc).
  - apply Hrun; [done|]. by exists p.
Qed.

(** ** A sleeping thread *)

(** The functions leave the thread [t] and its timer alone. *)
Definition leaves_alone (t : Z) : Prop :=
  ∀ f p k k', kinv_at (-1) k → user f p k = Ok tt k' →
    threads k' !! t = threads k !! t ∧ timers k' !! ThreadTimer t = timers k !! ThreadTimer t ∧
    (ThreadTimer t ∈ lof (timer_list k') tt ↔ ThreadTimer t ∈ lof (timer_list k) tt).

(** The thread [t] and its timer are the same. *)
Record asleep (t : Z) (k k' : kern) : Prop := {
  as_thread : threads k' !! t = threads k !! t;
  as_timer : timers k' !! ThreadTimer t = timers k !! ThreadTimer t;
  as_list : ThreadTimer t ∈ lof (timer_list k') tt ↔ ThreadTimer t ∈ lof (timer_list k) tt;
  as_tick : rt_tick k' = rt_tick k;
}.

Lemma asleep_due t k k' : asleep t k k' → ThreadTimer t ∈ due k' ↔ ThreadTimer t ∈ due k.
Proof.
  intros [_ Hm Hl Ht]. unfold due. rewrite !list_elem_of_filter, Ht. unfold remaining_of.
  rewrite Hm. tauto.
Qed.

Lemma asleep_trans t k1 k2 k3 : asleep t k1 k2 → asleep t k2 k3 → asleep t k1 k3.
Proof. intros [] []. split; [congruence|congruence|tauto|congruence]. Qed.

Lemma expiry_other t r k k' : leaves_alone t → kinv_at (-1) k → expiry user App r k k' → r ≠ ThreadTimer t → asleep t k k'.
Proof.
  intros Hu I [u Er Hw|a tm f p T ku Er Hr Hf Hb Eu Hk (tmu&Hru&Hres)] Hne.
  - split.
    + by rewrite (wu_threads _ _ _ Hw), bool_decide_false.
    + by apply (wu_timers _ _ _ Hw).
    + rewrite (wu_list _ _ _ Hw). set_solver.
    + apply Hw.
  - destruct (Hu _ _ _ _ (kinv_unlink _ _ _ _ I (mk_is_Some _ _ Hr) Hb) Eu) as (H1&H2&H3). simpl in *.
    assert (asleep t k ku) as Hku.
    { split; [done|done| |apply (ke_clock _ _ _ _ Hk)]. rewrite H3, (bc_lof _ _ _ Hb). unfold list_del.
      rewrite list_elem_of_filter. naive_solver. }
    eapply asleep_trans; [exact Hku|]. case_bool_decide.
    + destruct Hres as (T'&m1&m2&->&Hm&HT'&_). simpl in *. split; [done| | |done].
      * simpl. by rewrite !lookup_insert_ne.
      * simpl. rewrite HT'. assert (ThreadTimer t ∈ m1 ++ m2 ↔ ThreadTimer t ∈ lof (timer_list ku) tt) as <-.
        { rewrite <-Hm, list_elem_of_filter. naive_solver. }
        set_solver.
    + subst k'. split; [done| |done|done]. simpl. by rewrite lookup_insert_ne.
Qed.

Lemma fired_sleeper t rs k k' th : leaves_alone t → fired user App rs k k' → threads k !! t = Some th →
  (ThreadTimer t ∈ due k → threads k' !! t = Some (timed_out th)) ∧
  (ThreadTimer t ∉ due k → asleep t k k').
Proof.
  intros Hu Hf. revert th. induction Hf as [k E|r rs k k1 k' I Hh He Hf IH]; intros th Ht.
  { rewrite E. split; [by intros ?%not_elem_of_nil|done]. }
  destruct (decide (r = ThreadTimer t)) as [->|Hne].
  - assert (ThreadTimer t ∈ due k) as Hin by (destruct (due k); simplify_eq/=; left).
    split; [intros _|by intros []].
    assert (threads k1 !! t = Some (timed_out th)) as Ht1.
    { destruct He as [u Eu Hw|]; [|done]. by rewrite (wu_threads _ _ _ Hw), bool_decide_true, Ht. }
    destruct (IH _ Ht1) as [H1 H2]. destruct (decide (ThreadTimer t ∈ due k1)); [auto|].
    by rewrite (as_thread _ _ _ (H2 ltac:(done))).
  - pose proof (expiry_other _ _ _ _ Hu I He Hne) as Ha. rewrite <-(as_thread _ _ _ Ha) in Ht.
    destruct (IH _ Ht) as [H1 H2]. pose proof (asleep_due _ _ _ Ha) as Hd. split.
    + intros Hin. by apply H1, Hd.
    + intros Hin. eapply asleep_trans; [exact Ha|]. apply H2. by rewrite Hd.
Qed.

(** A tick for a sleeping thread: it sleeps on, or it is time to wake up. *)
Lemma ticked_sleeper t th u uth rs n (k k1 k2 k' : kern) : leaves_alone t → kinv k →
  threads k !! u = Some uth → th_stat uth = RT_THREAD_READY → threads k !! t = Some th →
  th_stat th = RT_THREAD_SUSPEND → ThreadTimer t ∈ lof (timer_list k) tt →
  remaining_of (rt_tick k) (timers k) (ThreadTimer t) = n → ticked user App u uth rs k k1 k2 k' →
  if bool_decide (n <= 1) then
    threads k' !! t = Some (timed_out th) ∧ t ∈ lof (thread_lists k') (QReady (th_current_priority th))
  else
    threads k' !! t = Some th ∧ ThreadTimer t ∈ lof (timer_list k') tt ∧
    remaining_of (rt_tick k') (timers k') (ThreadTimer t) = n - 1.
Proof.
  intros Hlv I Hu Hus Ht Hs Hin Hn [Hsl Hf -> _ _ _ Hse].
  assert (u ≠ t) as Hne by (intros ->; assert (uth = th) as -> by congruence; by rewrite Hs in Hus).
  destruct (mi_range _ _ _ _ _ (ki_timers _ _ I) _ Hin) as (tm&Htm&Hrem).
  assert (threads k1 !! t = Some th) as Ht1.
  { rewrite (sl_threads _ _ _ _ _ Hsl). simpl. by rewrite lookup_insert_ne. }
  assert (timers k1 !! ThreadTimer t = Some tm) as Htm1 by (by rewrite (sl_timers _ _ _ _ _ Hsl)).
  assert (ThreadTimer t ∈ lof (timer_list k1) tt) as Hin1 by (by rewrite (sl_timer_list _ _ _ _ _ Hsl)).
  assert (rt_tick k1 = u32 (rt_tick k + 1)) as Etick by apply (qu_tick _ _ (sl_quiet _ _ _ _ _ Hsl)).
  assert (remaining (rt_tick k1) tm = n - 1) as Hrem1.
  { rewrite Etick, remaining_tick by (done || apply I). unfold remaining_of in Hn. by rewrite <-Hn, Htm. }
  assert (ThreadTimer t ∈ due (set_primask 1 k1) ↔ n <= 1) as Hd.
  { unfold due. rewrite list_elem_of_filter. simpl. unfold remaining_of. rewrite Htm1, Hrem1.
    split; [lia|]. intros. split; [lia|done]. }
  destruct (fired_sleeper t rs _ _ th Hlv Hf Ht1) as [H1 H2]. case_bool_decide as E.
  - specialize (H1 (proj2 Hd E)). split; [done|].
    by apply (ti_ready _ _ (ki_threads _ _ (se_inv _ _ _ Hse)) t (timed_out th)).
  - destruct H2 as [A1 A2 A3 A4]; [by rewrite Hd|]. simpl in *. rewrite A1, A3. split_and!; [done..|].
    unfold remaining_of. by rewrite A2, Htm1, A4.
Qed.

(** Of [n] ticks to go, after [m]. *)
Lemma wp_ticks m (k : kern) t th n (Q : unit → kern → Prop) : leaves_alone t → ticking k →
  threads k !! t = Some th → th_stat th = RT_THREAD_SUSPEND → ThreadTimer t ∈ lof (timer_list k) tt →
  remaining_of (rt_tick k) (timers k) (ThreadTimer t) = n → Z.of_nat m <= n →
  (∀ k', ticking k' →
     (if bool_decide (0 < Z.of_nat m ∧ Z.of_nat m = n) then
        threads k' !! t = Some (timed_out th) ∧
        t ∈ lof (thread_lists k') (QReady (th_current_priority th))
      else threads k' !! t = Some th ∧ remaining_of (rt_tick k') (timers k') (ThreadTimer t) = n - Z.of_nat m) →
     Q tt k') →
  wp (ticks m) k Q.
Proof using HU.
  intros Hlv. revert k n. induction m as [|m IH]; intros k n Hk Ht Hs Hin Hn Hm HQ; cbn [ticks].
  { apply wp_ret, HQ; [done|]. rewrite bool_decide_false by lia. split; [done|]. rewrite Hn. lia. }
  apply wp_bind, wp_tick; [done|]. intros u uth rs k1 k2 k3 Hu Hus _ Hk3 Htk3.
  pose proof (ticked_sleeper _ _ _ _ _ _ _ _ _ _ Hlv (ti_inv _ Hk) Hu Hus Ht Hs Hin Hn Hk3) as Hstep.
  destruct (decide (n <= 1)) as [E|E].
  - rewrite bool_decide_true in Hstep by done. assert (m = 0%nat) as -> by lia.
    apply wp_ret, HQ; [done|]. by rewrite bool_decide_true by lia.
  - rewrite bool_decide_false in Hstep by done. destruct Hstep as (Ht1&Hin1&Hn1).
    eapply (IH k3); [done|done|done|done|exact Hn1|lia|].
    intros k' Hk' HP. apply HQ; [done|]. destruct (decide (Z.of_nat (S m) = n)) as [En|En].
    + rewrite bool_decide_true in HP by lia. by rewrite bool_decide_true by lia.
    + rewrite bool_decide_false in HP by lia. rewrite bool_decide_false by lia.
      split; [tauto|]. destruct HP as [_ ->]. lia.
Qed.

End systick.

(** ** The calls *)

Definition user_timer_b (r : timer_ref) (tm : rt_timer) : bool :=
  match r, tm_timeout_func tm with
  | UserTimer a, user_timeout _ _ => bool_decide (a ≠ RT_NULL)
  | UserTimer _, thread_timeout _ => false
  | ThreadTimer _, _ => true
  end.

Definition app_timers_b (tms : gmap timer_ref rt_timer) : bool :=
  bool_decide (map_Forall (λ _ tm, Z.land (tm_flag tm) RT_TIMER_FLAG_PERIODIC ≠ 0 →
    0 < tm_init_tick tm < RT_TICK_MAX / 2) tms) &&
  bool_decide (map_Forall (λ r tm, Is_true (user_timer_b r tm)) tms).

Lemma app_timers_b_sound tms : app_timers_b tms = true → app_timers tms.
Proof.
  unfold app_timers_b. rewrite andb_true_iff, !bool_decide_eq_true. intros [H1 H2]. split.
  - intros r tm Hr. by apply (H1 r tm).
  - intros a tm Ha. specialize (H2 _ _ Ha). unfold user_timer_b in H2.
    destruct (tm_timeout_func tm); [done|]. apply bool_decide_unpack in H2. eauto.
Qed.

Definition ticking_b (p : Z) (k : kern) : bool :=
  kinv_b 0 k && app_timers_b (timers k) && bool_decide (0 <= rt_interrupt_nest k < 2 ^ 8) &&
  bool_decide (rt_scheduler_lock_nest k = 0) &&
  highest_b (lof (thread_lists k)) p (rt_current_thread k).

Lemma ticking_b_sound (App : kern → Prop) p k : ticking_b p k = true → App k → ticking App k.
Proof.
  intros Hb HA. revert Hb. unfold ticking_b. rewrite !andb_true_iff, !bool_decide_eq_true. intros [[[[H1 H2] H3] H4] H5].
  split; [by apply kinv_b_sound|by apply app_timers_b_sound|done|done|done|].
  exists p. by apply highest_b_sound.
Qed.

(** Two timeout functions the contract admits: one that sets the error number,
    and one that stops the application's timer. *)
Definition set_error (n : Z) : Z → Z → M unit := λ _ _, kset (set__errno n).

Definition stop_timer (a : Z) : Z → Z → M unit := λ _ _, rt_timer_stop (UserTimer a);; mret tt.

Definition has_timer (a : Z) (k : kern) : Prop := is_Some (timers k !! UserTimer a).

#[global] Instance set_error_callbacks n : Callbacks (set_error n) (λ _, True).
Proof.
  split; [|done]. intros a tm f p k I Ha _ Hr Hf Hn. eexists. split; [done|].
  split; try done. by apply (kinv_at_irrelevant (-1) k).
Qed.

(** Stopping a timer of the application, whether it runs or not. *)
Lemma wp_stop_user a f p k (Q : unit → kern → Prop) : a ≠ RT_NULL → kinv_at (-1) k → has_timer a k →
  (∀ tm T', timers k !! UserTimer a = Some tm →
     becomes (timer_list k) T' (list_del (UserTimer a) (lof (timer_list k))) →
     Q tt (timer_part (<[UserTimer a := clear_flag RT_TIMER_FLAG_ACTIVATED tm]> (timers k)) T' k)) →
  Q tt k → wp (stop_timer a f p) k Q.
Proof.
  intros Ha I [tm Hr] Hstop Hno. apply wp_bind.
  eapply wp_timer_stop; [simpl; by rewrite bool_decide_false|done|apply I| |].
  - intros _. by apply wp_ret.
  - intros _ T' Hb. apply wp_ret. by apply Hstop.
Qed.

Lemma due_stopped (k : kern) r tm' T' x : becomes (timer_list k) T' (list_del r (lof (timer_list k))) →
  x ∈ due (timer_part (<[r := tm']> (timers k)) T' k) ↔ x ∈ due k ∧ x ≠ r.
Proof.
  intros Hb. unfold due. rewrite !list_elem_of_filter. simpl. rewrite (bc_lof _ _ _ Hb).
  unfold list_del. rewrite list_elem_of_filter. unfold remaining_of.
  destruct (decide (x = r)) as [->|Hne]; [tauto|]. rewrite lookup_insert_ne by done. tauto.
Qed.

#[global] Instance stop_timer_callbacks a : TCEq (bool_decide (a = RT_NULL)) false →
  Callbacks (stop_timer a) (has_timer a).
Proof.
  intros Ha%TCEq_eq. apply bool_decide_eq_false in Ha. split.
  2:{ intros k k' Hu. apply Hu. }
  intros b tm f p k I Ht HA Hr Hf Hn.
  apply (wp_returns (stop_timer a f p) k tt (kept (has_timer a) (UserTimer b) k)).
  apply wp_stop_user; [done..| |].
  2:{ split; [done|]. by split. }
  intros tma T' Ha' Hb. split; [done|].
  pose proof (clear_flag_same tma RT_TIMER_FLAG_ACTIVATED ltac:(done)
    (mi_fields _ _ _ _ _ (ki_timers _ _ I) _ tma Ha')) as Hst.
  split; [done| |by eapply app_timers_same| | | |done].
  - destruct I as [J1 J2 J3 J4 J5 J6]. split; try done.
    + simpl. rewrite (bc_lof _ _ _ Hb). by eapply minv_del.
    + eapply siminv_insert; [done|]. by eapply siminv_becomes.
  - unfold has_timer. simpl. by rewrite lookup_insert_eq.
  - simpl. apply lookup_insert_is_Some'. rewrite Hr. eauto.
  - intros x Hx. by apply (due_stopped k _ _ _ _ Hb) in Hx as [? _].
Qed.

Lemma stop_timer_leaves_alone a t : leaves_alone (stop_timer a) t.
Proof.
  intros f p k k' I E.
  destruct (decide (a ≠ RT_NULL ∧ has_timer a k)) as [[Hn Ha]|Hno].
  - assert (wp (stop_timer a f p) k (λ _ k', threads k' !! t = threads k !! t ∧
      timers k' !! ThreadTimer t = timers k !! ThreadTimer t ∧
      (ThreadTimer t ∈ lof (timer_list k') tt ↔ ThreadTimer t ∈ lof (timer_list k) tt))) as Hw.
    { apply wp_stop_user; [done..| |done]. intros tm T' _ Hb. simpl. split_and!; [done| |].
      - by rewrite lookup_insert_ne.
      - rewrite (bc_lof _ _ _ Hb). unfold list_del. rewrite list_elem_of_filter. naive_solver. }
    unfold wp in Hw. by rewrite E in Hw.
  - exfalso. unfold stop_timer, rt_timer_stop, RT_ASSERT in E. unfold mbind, K_bind in E. simpl in E.
    destruct (decide (a = RT_NULL)) as [->|Hn]; [done|]. rewrite bool_decide_false in E by done. simpl in E.
    unfold get_timer, kopt in E. destruct (timers k !! UserTimer a) eqn:Et; [|done].
    apply Hno. split; [done|]. unfold has_timer. by rewrite Et.
Qed.

(** A sleeping thread leaves the ready list, its timer runs for the given time,
    and the processor goes to the next thread. *)
Theorem rt_thread_sleep_correct (k : kern) t th tick : kinv k → rt_current_thread k = t →
  threads k !! t = Some th → th_stat th = RT_THREAD_READY → rt_scheduler_lock_nest k = 0 →
  some_ready (list_del t (lof (thread_lists k))) → 0 <= tick < RT_TICK_MAX / 2 →
  ∃ k' k1, rt_thread_sleep tick k = Ok Waits k' ∧
    blocked 0 t (set_th_stat RT_THREAD_SUSPEND th) (list_del t (lof (thread_lists k))) (Some tick) k k1 ∧
    scheduled k1 k' ∧ rt_current_thread k' ≠ t.
Proof.
  intros I Hc Ht Hs Hl Ho Htick.
  destruct (wp_returns (rt_thread_sleep tick) k Waits (λ k', ∃ k1, blocked 0 t
    (set_th_stat RT_THREAD_SUSPEND th) (list_del t (lof (thread_lists k))) (Some tick) k k1 ∧
    scheduled k1 k' ∧ rt_current_thread k' ≠ t)) as (k'&E&k1&?); [|by exists k', k1].
  eapply (wp_sleep k t th); [done..|]. eauto 10.
Qed.

Lemma rt_thread_sleep_correct_witness :
  ∃ k' k1, rt_thread_sleep 3 (demo []) = Ok Waits k' ∧ kinv k1 ∧
           lof (thread_lists k1) (QReady 5) = [thread_b] ∧ scheduled k1 k'.
Proof.
  destruct (threads (demo []) !! thread_a) as [th|] eqn:E; [|vm_compute in E; discriminate E].
  destruct (rt_thread_sleep_correct (demo []) thread_a th 3) as (k'&k1&Hk'&Hb&Hs&_).
  - apply kinv_b_sound. vm_compute. reflexivity.
  - vm_compute. reflexivity.
  - exact E.
  - vm_compute in E. injection E as <-. reflexivity.
  - vm_compute. reflexivity.
  - exists 5. split; [clear; done|]. vm_compute. discriminate.
  - clear. done.
  - exists k', k1. split_and!; [exact Hk'|apply Hb| |exact Hs].
    rewrite (bl_lists _ _ _ _ _ _ _ Hb). vm_compute. reflexivity.
Defined.



(** C7: A tick interrupt, whatever the application's timeout functions do within
    their contract: the tick counts up, the running thread uses up its time
    slice and at its end goes behind the threads of its priority; then the timers
    due at the new tick expire one by one, threads wake up, functions are called
    and periodic timers start again, until none is due, and the handler leaves the
    interrupt nesting and mask as they were. *)
Theorem SysTick_Handler_correct (user : Z → Z → M unit) (App : kern → Prop) `{!Callbacks user App}
    (k : kern) t th : kinv k → rt_current_thread k = t → threads k !! t = Some th →
  app_timers (timers k) → App k → in_u8 (rt_interrupt_nest k) →
  ∃ rs k1 k2 k', SysTick_Handler user k = Ok tt k' ∧ ticked user App t th rs k k1 k2 k'.
Proof.
  intros I Hc Ht Ha HA Hn.
  destruct (wp_returns (SysTick_Handler user) k tt (λ k', ∃ rs k1 k2, ticked user App t th rs k k1 k2 k'))
    as (k'&E&rs&k1&k2&Hk); [|by exists rs, k1, k2, k'].
  eapply (wp_SysTick user App); eauto 10.
Qed.

Lemma SysTick_Handler_correct_witness :
  let k := demo (replicate 9 Tick) in
  ∃ rs (k1 k2 k' : kern), SysTick_Handler (stop_timer the_timer) k = Ok tt k' ∧ kinv_at 1 k' ∧
    lof (thread_lists k1) (QReady 5) = [thread_b; thread_a] ∧
    fired (stop_timer the_timer) (has_timer the_timer) rs (set_primask 1 k1) k2.
Proof.
  intros k. destruct (threads k !! thread_a) as [th|] eqn:E; [|vm_compute in E; discriminate E].
  destruct (SysTick_Handler_correct (stop_timer the_timer) (has_timer the_timer) k thread_a th)
    as (rs&k1&k2&k'&Hk'&He).
  - apply kinv_b_sound. vm_compute. reflexivity.
  - vm_compute. reflexivity.
  - exact E.
  - apply app_timers_b_sound. vm_compute. reflexivity.
  - vm_compute. eexists. reflexivity.
  - vm_compute. split; [discriminate|reflexivity].
  - exists rs, k1, k2, k'. destruct He as [Hs Hf _ _ _ _ Hse]. split_and!; [exact Hk'|apply Hse| |exact Hf].
    vm_compute in E. injection E as <-. rewrite (sl_lists _ _ _ _ _ Hs). vm_compute. reflexivity.
Defined.

Lemma blocked_app lo t th' L' w (k k' : kern) : blocked lo t th' L' w k k' → app_timers (timers k) →
  app_timers (timers k').
Proof.
  intros Hm [Hp Hu]. split.
  - intros r tm Hr Hper. destruct (decide (r = ThreadTimer t)) as [->|Hne].
    + destruct (mi_own _ _ _ _ _ (ki_timers _ _ (bl_inv _ _ _ _ _ _ _ Hm)) t th') as (?&?&_&?).
      { rewrite (bl_threads _ _ _ _ _ _ _ Hm). apply lookup_insert_eq. }
      by simplify_eq.
    + rewrite (bl_timers _ _ _ _ _ _ _ Hm) in Hr by done. by eapply Hp.
  - intros a tm Ha. rewrite (bl_timers _ _ _ _ _ _ _ Hm) in Ha by done. by eapply Hu.
Qed.

Lemma blocked_undisturbed lo t th th' L' w (k k' : kern) : threads k !! t = Some th →
  blocked lo t th' L' w k k' → undisturbed k k'.
Proof.
  intros Ht Hb. apply quiet_undisturbed; [apply same_rest_quiet, Hb|apply Hb| |].
  - intros u Hu. rewrite (bl_threads _ _ _ _ _ _ _ Hb). apply lookup_insert_is_Some'. by right.
  - intros a. by rewrite (bl_timers _ _ _ _ _ _ _ Hb).
Qed.

Lemma scheduled_undisturbed (k k' : kern) : scheduled k k' → undisturbed k k'.
Proof.
  intros Hs%scheduled_same. apply quiet_undisturbed; [by apply same_but_current_quiet|..];
    intros ?; by rewrite ?(sc_lists _ _ Hs), ?(sc_threads _ _ Hs), ?(sc_timers _ _ Hs).
Qed.

Lemma blocked_ticking user App `{!Callbacks user App} t th th' L' w (k k1 k' : kern) :
  threads k !! t = Some th → ticking App k → blocked 0 t th' L' w k k1 → scheduled k1 k' → ticking App k'.
Proof.
  intros Ht [I Ha HA Hn Hl Hr] Hb Hk'. pose proof (scheduled_same _ _ Hk') as Hs.
  pose proof (bl_rest _ _ _ _ _ _ _ Hb) as Hrest. split.
  - eapply scheduled_inv, Hk'. apply Hb.
  - rewrite (sc_timers _ _ Hs). by eapply blocked_app.
  - apply (cb_app (user:=user) k1); [by apply scheduled_undisturbed|].
    apply (cb_app (user:=user) k); [by eapply blocked_undisturbed|done].
  - by rewrite (sc_nest _ _ Hs), (sr_nest _ _ Hrest).
  - by rewrite (sc_lock _ _ Hs), (sr_lock _ _ Hrest).
  - eapply scheduled_current; [done|]. by rewrite (sr_lock _ _ Hrest).
Qed.

(** C2: A thread that sleeps for [n] ticks is suspended during the first [n - 1] and
    ready after the [n]th, wherever the tick counter stands and whatever the
    application's timeout functions do within their contract, as long as they
    leave this thread and its timer alone. *)
Theorem sleep_wakes_on_time (user : Z → Z → M unit) (App : kern → Prop) `{!Callbacks user App}
    (k : kern) t th n m :
  leaves_alone user t → ticking App k → rt_current_thread k = t → threads k !! t = Some th →
  some_ready (list_del t (lof (thread_lists k))) → 0 < n < RT_TICK_MAX / 2 → Z.of_nat m <= n →
  ∃ k1 k' th', rt_thread_sleep n k = Ok Waits k1 ∧ ticks user m k1 = Ok tt k' ∧
    threads k' !! t = Some th' ∧
    (Z.of_nat m < n → th_stat th' = RT_THREAD_SUSPEND) ∧
    (Z.of_nat m = n → th_stat th' = RT_THREAD_READY ∧
       t ∈ lof (thread_lists k') (QReady (th_current_priority th))).
Proof.
  intros Hlv Hk Hc Ht Ho Hn Hm. pose proof Hk as [I _ _ _ Hl [p Hr]]. rewrite Hc in Hr.
  destruct (highest_thread _ _ I _ _ Hr) as (th0&Ht0&Hs&_). assert (th0 = th) as -> by congruence.
  destruct (wp_returns (rt_thread_sleep n) k Waits (λ k', ∃ k1, blocked 0 t
    (set_th_stat RT_THREAD_SUSPEND th) (list_del t (lof (thread_lists k))) (Some n) k k1 ∧
    scheduled k1 k')) as (k2&E2&k1&Hb&Hk2).
  { eapply (wp_sleep k t th); [done..|lia|]. eauto 10. }
  pose proof (blocked_ticking user App _ _ _ _ _ _ _ _ Ht Hk Hb Hk2) as Htk.
  pose proof (scheduled_same _ _ Hk2) as Hsame.
  destruct (bl_timer_list _ _ _ _ _ _ _ Hb) as ((l1&l2&_&Hl2)&Hrem).
  destruct (wp_returns (ticks user m) k2 tt (λ k', ∃ th', threads k' !! t = Some th' ∧
    (Z.of_nat m < n → th_stat th' = RT_THREAD_SUSPEND) ∧
    (Z.of_nat m = n → th_stat th' = RT_THREAD_READY ∧
       t ∈ lof (thread_lists k') (QReady (th_current_priority th))))) as (k'&E'&th'&?&?&?);
    [|by exists k2, k', th'].
  eapply (wp_ticks user App m k2 t (set_th_stat RT_THREAD_SUSPEND th) n); [done|done| |done| | |done|].
  - rewrite (sc_threads _ _ Hsame), (bl_threads _ _ _ _ _ _ _ Hb). apply lookup_insert_eq.
  - rewrite (sc_timer_list _ _ Hsame), Hl2. set_solver.
  - rewrite (sc_tick _ _ Hsame), (sc_timers _ _ Hsame), (sr_tick _ _ (bl_rest _ _ _ _ _ _ _ Hb)). done.
  - intros k' _ HP. split; [done|]. destruct (decide (Z.of_nat m = n)) as [En|En].
    + rewrite bool_decide_true in HP by lia. destruct HP as [Hth' Hin].
      eexists. split_and!; [exact Hth'|lia|done].
    + rewrite bool_decide_false in HP by lia. destruct HP as [Hth' _].
      eexists. split_and!; [exact Hth'|done|lia].
Qed.

Lemma sleep_wakes_on_time_witness :
  ∃ k1 k', rt_thread_sleep 8 (demo []) = Ok Waits k1 ∧ ticks (stop_timer the_timer) 8 k1 = Ok tt k' ∧
           thread_a ∈ lof (thread_lists k') (QReady 5).
Proof.
  destruct (threads (demo []) !! thread_a) as [th|] eqn:E; [|vm_compute in E; discriminate E].
  destruct (sleep_wakes_on_time (stop_timer the_timer) (has_timer the_timer) (demo []) thread_a th 8 8)
    as (k1&k'&th'&E1&E2&_&_&Hw).
  - apply stop_timer_leaves_alone.
  - apply (ticking_b_sound _ 5); vm_compute; [reflexivity|]. eexists. reflexivity.
  - vm_compute. reflexivity.
  - exact E.
  - exists 5. split; [clear; done|]. vm_compute. discriminate.
  - clear. done.
  - clear. done.
  - exists k1, k'. split_and!; [exact E1|exact E2|]. vm_compute in E. injection E as <-.
    apply Hw. reflexivity.
Defined.
