(* ===== verification/IpcProof.v ===== *)
(** * Waiting lists

    Suspending the current thread on the list of an IPC object, in the order of
    arrival or of priority, and waking the first thread or all of them. *)

From S2P Require Import Prelude DList ListStore SeqLemmas KString KState Scheduler ObjectSys Timer ThreadSys Ipc KernelWp KernelInv System KernelCheck SchedProof TimerProof ThreadProof Clock ClockProof.

(** A queue in which threads wait for an IPC object. *)
Definition waiting_queue (q : thread_queue) : Prop :=
  match q with QReady _ | QDefunct => False | _ => True end.

(** A ready thread waits nowhere. *)
Lemma ready_del lo (k : kern) t th q : kinv_at lo k → threads k !! t = Some th →
  th_stat th = RT_THREAD_READY → waiting_queue q →
  list_del t (lof (thread_lists k)) q = lof (thread_lists k) q.
Proof.
  intros I Ht Hs Hq. apply list_del_id. intros Hin.
  destruct (ti_queue _ _ (ki_threads _ _ I) q t Hin) as (th'&?&Hok). simplify_eq.
  destruct q; simpl in Hok; first [done|by rewrite Hs in Hok].
Qed.

Definition priority_of (ths : gmap Z rt_thread) (t : Z) : Z :=
  match ths !! t with Some th => th_current_priority th | None => 0 end.

(** The place of a thread of priority [p] in a list ordered by priority: behind
    those of the same priority. *)
Fixpoint prio_insert (ths : gmap Z rt_thread) (t p : Z) (l : list Z) : list Z :=
  match l with
  | [] => [t]
  | s :: l' => if bool_decide (p < priority_of ths s) then t :: l else s :: prio_insert ths t p l'
  end.

Definition wait_insert (flag : Z) (ths : gmap Z rt_thread) (t p : Z) (l : list Z) : list Z :=
  if bool_decide (flag = RT_IPC_FLAG_FIFO) then l ++ [t] else prio_insert ths t p l.

Lemma prio_insert_split ths t p l : ∃ l1 l2, l = l1 ++ l2 ∧ prio_insert ths t p l = l1 ++ t :: l2.
Proof.
  induction l as [|s l (l1&l2&->&E)]; simpl; [by exists [], []|].
  case_bool_decide; [by exists [], (s :: l1 ++ l2)|]. exists (s :: l1), l2. by rewrite E.
Qed.

Lemma wait_insert_split flag ths t p l : ∃ l1 l2, l = l1 ++ l2 ∧ wait_insert flag ths t p l = l1 ++ t :: l2.
Proof.
  unfold wait_insert. case_bool_decide; [|apply prio_insert_split].
  exists l, []. by rewrite app_nil_r.
Qed.

(** In a list ordered by priority the new thread keeps the order. *)
Lemma prio_insert_sorted ths t p l : priority_of ths t = p →
  StronglySorted Z.le (priority_of ths <$> l) →
  StronglySorted Z.le (priority_of ths <$> prio_insert ths t p l).
Proof.
  intros Hp. induction l as [|s l IH]; simpl; intros Hs; [repeat constructor|].
  apply StronglySorted_inv in Hs as [Hs Hall]. case_bool_decide as E; simpl.
  - constructor; [by constructor|]. constructor; [lia|].
    eapply Forall_impl; [exact Hall|]. intros x Hx. lia.
  - constructor; [auto|]. rewrite Forall_fmap in *. destruct (prio_insert_split ths t p l) as (l1&l2&->&->).
    rewrite Forall_app in *. rewrite Forall_cons. simpl. split_and!; try tauto. lia.
Qed.

(** ** Suspending *)

Section suspend.
Context (lo : Z) (k : kern) (t : Z) (th' : rt_thread) (L0 : queues) (l0 : list timer_ref).
Context (k1 : kern) (Hm : moved lo t th' (list_del t L0) l0 k k1).
Context (q : thread_queue) (Hq : waiting_queue q) (Hh : is_Some (s_lists (thread_lists k1) !! q)).
Context (Hs : th_stat th' = RT_THREAD_SUSPEND).

#[local] Lemma moved_here : threads k1 !! t = Some th'.
Proof using Hm. rewrite (mv_threads _ _ _ _ _ _ _ Hm). apply lookup_insert_eq. Qed.

#[local] Lemma moved_detached : detached (lof (thread_lists k1)) t.
Proof using Hm. intros y. rewrite (mv_lists _ _ _ _ _ _ _ Hm). apply list_del_detached. Qed.

(** A suspended thread enters a waiting list. *)
Lemma moved_enter S2 l1 l2 : lof (thread_lists k1) q = l1 ++ l2 →
  becomes (thread_lists k1) S2 (<[q := l1 ++ t :: l2]> (lof (thread_lists k1))) →
  moved lo t th' (<[q := l1 ++ t :: l2]> (list_del t L0)) l0 k (set_thread_lists (LS:=seq_lists) S2 k1).
Proof using All.
  intros E Hb. pose proof Hm as [Hr Hi Ht Hl Hhd Htl Htm].
  pose proof (bc_lof _ _ _ Hb) as HL.
  assert (∀ p, lof S2 (QReady p) = lof (thread_lists k1) (QReady p)) as Hready.
  { intros p. rewrite HL, fn_lookup_insert_ne; [done|]. intros ->. done. }
  split; simpl; try done.
  - by apply same_rest_lists.
  - pose proof Hi as [I1 I2 I3 I4 I5 I6]. split; simpl; try done.
    + eapply tinv_lists; [apply HL|]. rewrite <-(insert_id (threads k1) t th' moved_here).
      eapply tinv_enter; [done|apply moved_detached|done| |by eapply ti_wf, moved_here].
      by destruct q.
    + eapply ginv_ext, I2. intros p. by rewrite Hready.
    + rewrite <-(insert_id (threads k1) t th' moved_here). eapply sinv_insert; [done|apply moved_here|done].
  - intros y. rewrite HL. destruct (decide (q = y)) as [<-|Hne].
    + by rewrite !fn_lookup_insert.
    + by rewrite !fn_lookup_insert_ne by done.
  - intros y Hy. by apply (bc_heads _ _ _ Hb), Hhd.
Qed.

(** The search of the place, from the [l2] part of the list on. *)
Lemma wp_suspend_scan fuel l1 l2 (Q : unit → kern → Prop) :
  lof (thread_lists k1) q = l1 ++ l2 → (length l2 < fuel)%nat →
  (∀ S2, becomes (thread_lists k1) S2 (<[q := l1 ++ prio_insert (threads k1) t (th_current_priority th') l2]>
                                         (lof (thread_lists k1))) →
         Q tt (set_thread_lists (LS:=seq_lists) S2 k1)) →
  wp (suspend_scan fuel q t (default (Hd q) (El <$> head l2))) k1 Q.
Proof using All.
  pose proof (si_swf _ _ (ki_store _ _ (mv_inv _ _ _ _ _ _ _ Hm))) as Hwf.
  revert l1 l2. induction fuel as [|fuel IH]; intros l1 l2 E Hf HQ; [lia|].
  destruct l2 as [|s l2].
  - change (default (Hd q) (El <$> head [])) with (Hd (EL:=Z) q). cbn [suspend_scan].
    destruct (s_append_spec (thread_lists k1) q t) as (S2&HS2&Hb); [done|done|apply moved_detached|].
    eapply wp_on_threads; [exact HS2|]. apply HQ. simpl. rewrite E, app_nil_r in Hb. done.
  - change (default (Hd q) (El <$> head (s :: l2))) with (El (HD:=thread_queue) s). cbn [suspend_scan].
    destruct (ti_queue _ _ (ki_threads _ _ (mv_inv _ _ _ _ _ _ _ Hm)) q s) as (sth&Hsth&_);
      [rewrite E; set_solver|].
    pose proof moved_here as Ht. wps. simpl in HQ.
    assert (priority_of (threads k1) s = th_current_priority sth) as Ep
      by (unfold priority_of; by rewrite Hsth).
    rewrite Ep in HQ. destruct (decide (th_current_priority th' < th_current_priority sth)) as [Elt|Elt];
      [rewrite bool_decide_true in HQ |- * by done|rewrite bool_decide_false in HQ |- * by done].
    + destruct (s_insert_before_spec (thread_lists k1) q t l1 s l2) as (S2&HS2&Hb);
        [done|done|apply moved_detached|].
      eapply wp_on_threads; [exact HS2|]. by apply HQ.
    + wps. eapply wp_kopt; [by apply (s_next_elem _ q l1 s l2)|].
      apply (IH (l1 ++ [s]) l2); [by rewrite <-(assoc_L (++))|simpl in Hf; lia|].
      intros S2 Hb. apply HQ. by rewrite <-(assoc_L (++)) in Hb.
Qed.

End suspend.

Lemma prio_insert_ext ths ths' t p l : (∀ s, s ∈ l → priority_of ths s = priority_of ths' s) →
  prio_insert ths t p l = prio_insert ths' t p l.
Proof.
  induction l as [|s l IH]; intros E; [done|]. simpl.
  rewrite IH by (intros; apply E; by right). by rewrite (E s) by left.
Qed.

Section list_suspend.
Context (lo : Z) (k : kern) (t : Z) (th : rt_thread).
Context (I : kinv_at lo k) (Ht : threads k !! t = Some th) (Hs : th_stat th = RT_THREAD_READY).
Context (q : thread_queue) (Hq : waiting_queue q) (Hh : is_Some (s_lists (thread_lists k) !! q)).

Abbreviation L := (lof (thread_lists k)).
Abbreviation l := (lof (timer_list k) tt).

(** The queues with [t] at its place among the threads that wait in [q]. *)
Definition waits_in (flag : Z) : queues :=
  <[q := wait_insert flag (threads k) t (th_current_priority th) (L q)]> (list_del t L).

#[local] Lemma waiting_del : list_del t L q = L q.
Proof using All. by eapply ready_del. Qed.

Lemma wp_list_suspend flag (Q : Z → kern → Prop) : flag = RT_IPC_FLAG_FIFO ∨ flag = RT_IPC_FLAG_PRIO →
  (∀ k', moved lo t (set_th_stat RT_THREAD_SUSPEND th) (waits_in flag) l k k' → Q RT_EOK k') →
  wp (rt_ipc_list_suspend q t flag) k Q.
Proof using All.
  intros Hflag HQ. unfold rt_ipc_list_suspend. apply wp_bind.
  eapply (wp_suspend lo k t th I Ht); [done|]. intros k1 Hm. unfold waits_in, wait_insert in HQ.
  pose proof (mv_lists _ _ _ _ _ _ _ Hm q) as Eq. rewrite waiting_del in Eq.
  pose proof (mv_heads _ _ _ _ _ _ _ Hm q Hh) as Hh1.
  pose proof (si_swf _ _ (ki_store _ _ (mv_inv _ _ _ _ _ _ _ Hm))) as Hwf.
  destruct Hflag as [->| ->]; cbn [bool_decide] in *.
  - rewrite (bool_decide_true (RT_IPC_FLAG_FIFO = RT_IPC_FLAG_FIFO)) in * by done. apply wp_bind.
    destruct (s_append_spec (thread_lists k1) q t) as (S2&HS2&Hb);
      [done|done|by eapply moved_detached|].
    eapply wp_on_threads; [exact HS2|]. wps. apply HQ. rewrite <-Eq.
    eapply (moved_enter _ _ _ _ _ _ _ Hm q Hq Hh1 eq_refl S2 _ []); [by rewrite app_nil_r|done].
  - rewrite (bool_decide_false (RT_IPC_FLAG_PRIO = RT_IPC_FLAG_FIFO)) in * by done.
    rewrite (bool_decide_true (RT_IPC_FLAG_PRIO = RT_IPC_FLAG_PRIO)) in * by done. wps.
    eapply wp_kopt; [by apply s_next_head|]. wps. rewrite Eq.
    eapply (wp_suspend_scan _ _ _ _ _ _ _ Hm q Hq Hh1 eq_refl _ [] (L q)); [done| |].
    { apply Nat.lt_succ_r, NoDup_keys_size; [apply (ki_store _ _ I)|]. intros x Hx.
      destruct (ti_queue _ _ (ki_threads _ _ I) q x Hx) as (?&Hx'&_).
      rewrite (mv_threads _ _ _ _ _ _ _ Hm). apply lookup_insert_is_Some'. eauto. }
    intros S2 Hb. wps. apply HQ. simpl in Hb.
    assert (prio_insert (threads k1) t (th_current_priority th) (L q) =
            prio_insert (threads k) t (th_current_priority th) (L q)) as Ep.
    { apply prio_insert_ext. intros x _. unfold priority_of. rewrite (mv_threads _ _ _ _ _ _ _ Hm).
      destruct (decide (t = x)) as [<-|]; [by rewrite lookup_insert_eq, Ht|by rewrite lookup_insert_ne]. }
    rewrite Ep in Hb. destruct (prio_insert_split (threads k) t (th_current_priority th) (L q)) as (l1&l2&E&E2).
    rewrite E2 in *. eapply (moved_enter _ _ _ _ _ _ _ Hm q Hq Hh1 eq_refl S2 l1 l2); [congruence|done].
Qed.

(** ** Waiting, with or without a limit *)

Definition wait_time (time : Z) : option Z := if bool_decide (time > 0) then Some time else None.

(** The timer of a thread that was moved to a waiting list. *)
Lemma wp_start_timer L' (k1 : kern) time A (f : M A) (Q : A → kern → Prop) : -1 <= lo <= 0 →
  time < RT_TICK_MAX / 2 → moved lo t (set_th_stat RT_THREAD_SUSPEND th) L' l k k1 →
  (∀ k', blocked lo t (set_th_stat RT_THREAD_SUSPEND th) L' (wait_time time) k k' → wp f k' Q) →
  wp (start_thread_timer t time;; f) k1 Q.
Proof using I Ht Hs.
  intros Hlo Htime Hm HQ. unfold start_thread_timer, wait_time in *.
  destruct (decide (time > 0)) as [E|E].
  - rewrite bool_decide_true in * by done. apply wp_bind.
    eapply (wp_arm lo k1 t (set_th_stat RT_THREAD_SUSPEND th) (mv_inv _ _ _ _ _ _ _ Hm));
      [|lia|done| |lia|].
    + rewrite (mv_threads _ _ _ _ _ _ _ Hm). apply lookup_insert_eq.
    + rewrite (mv_timer_list _ _ _ _ _ _ _ Hm). apply (no_timer lo k t th I Ht). by rewrite Hs.
    + intros k2 Hw. wps. apply HQ. by eapply moved_waits.
  - rewrite bool_decide_false in * by done. wps. by apply HQ, moved_blocked.
Qed.

Lemma wp_wait flag time A (f : M A) (Q : A → kern → Prop) : -1 <= lo <= 0 →
  flag = RT_IPC_FLAG_FIFO ∨ flag = RT_IPC_FLAG_PRIO → time < RT_TICK_MAX / 2 →
  (∀ k', blocked lo t (set_th_stat RT_THREAD_SUSPEND th) (waits_in flag) (wait_time time) k k' →
         wp f k' Q) →
  wp (rt_ipc_list_suspend q t flag;; start_thread_timer t time;; f) k Q.
Proof using All.
  intros Hlo Hflag Htime HQ. apply wp_bind, (wp_list_suspend flag); [done|]. intros k1 Hm.
  by eapply wp_start_timer.
Qed.

(** Waiting at one end of a list. *)
Lemma wp_suspend_first A (f : M A) (Q : A → kern → Prop) :
  (∀ k', moved lo t (set_th_stat RT_THREAD_SUSPEND th) (<[q := t :: L q]> (list_del t L)) l k k' →
         wp f k' Q) →
  wp (rt_thread_suspend t;; on_threads (l_insert_after (Hd q) (El t));; f) k Q.
Proof using All.
  intros HQ. apply wp_bind. eapply (wp_suspend lo k t th I Ht); [done|]. intros k1 Hm.
  pose proof (mv_lists _ _ _ _ _ _ _ Hm q) as Eq. rewrite waiting_del in Eq.
  pose proof (mv_heads _ _ _ _ _ _ _ Hm q Hh) as Hh1.
  pose proof (si_swf _ _ (ki_store _ _ (mv_inv _ _ _ _ _ _ _ Hm))) as Hwf.
  destruct (s_prepend_spec (thread_lists k1) q t) as (S2&HS2&Hb); [done|done|by eapply moved_detached|].
  apply wp_bind. eapply wp_on_threads; [exact HS2|]. apply HQ. rewrite <-Eq.
  by eapply (moved_enter _ _ _ _ _ _ _ Hm q Hq Hh1 eq_refl S2 []).
Qed.

Lemma wp_suspend_last A (f : M A) (Q : A → kern → Prop) :
  (∀ k', moved lo t (set_th_stat RT_THREAD_SUSPEND th) (<[q := L q ++ [t]]> (list_del t L)) l k k' →
         wp f k' Q) →
  wp (rt_thread_suspend t;; on_threads (l_insert_before (Hd q) (El t));; f) k Q.
Proof using All.
  intros HQ. apply wp_bind. eapply (wp_suspend lo k t th I Ht); [done|]. intros k1 Hm.
  pose proof (mv_lists _ _ _ _ _ _ _ Hm q) as Eq. rewrite waiting_del in Eq.
  pose proof (mv_heads _ _ _ _ _ _ _ Hm q Hh) as Hh1.
  pose proof (si_swf _ _ (ki_store _ _ (mv_inv _ _ _ _ _ _ _ Hm))) as Hwf.
  destruct (s_append_spec (thread_lists k1) q t) as (S2&HS2&Hb); [done|done|by eapply moved_detached|].
  apply wp_bind. eapply wp_on_threads; [exact HS2|]. apply HQ. rewrite <-Eq.
  eapply (moved_enter _ _ _ _ _ _ _ Hm q Hq Hh1 eq_refl S2 _ []); [by rewrite app_nil_r|done].
Qed.

End list_suspend.

(** ** Waking *)

Section resume.
Context (lo : Z) (k : kern) (I : kinv_at lo k) (q : thread_queue) (Hq : waiting_queue q).
Context (Hh : is_Some (s_lists (thread_lists k) !! q)).

Abbreviation L := (lof (thread_lists k)).
Abbreviation l := (lof (timer_list k) tt).

Lemma waiter t : t ∈ L q → ∃ th, threads k !! t = Some th ∧ th_stat th = RT_THREAD_SUSPEND.
Proof using All.
  intros Hin. destruct (ti_queue _ _ (ki_threads _ _ I) q t Hin) as (th&Ht&Hok).
  exists th. split; [done|]. by destruct q.
Qed.

(** [t] is made ready. *)
Definition woken (t : Z) (th : rt_thread) : kern → Prop :=
  moved lo t (set_th_stat RT_THREAD_READY th) (enqueue t (th_current_priority th) L)
    (filter (λ r, r ≠ ThreadTimer t) l) k.

Lemma woken_queue t rest th k' : L q = t :: rest → woken t th k' →
  lof (thread_lists k') q = rest.
Proof using All.
  intros E Hm. rewrite (mv_lists _ _ _ _ _ _ _ Hm). unfold enqueue.
  rewrite fn_lookup_insert_ne by (by intros <-).
  eapply list_del_head; [apply I|done].
Qed.

Lemma wp_first_waiter t rest (Q : Z → kern → Prop) : L q = t :: rest → Q t k →
  wp (first_waiter q) k Q.
Proof using All.
  intros E HQ. unfold first_waiter. apply wp_bind. eapply wp_kopt; [by apply s_next_head|].
  rewrite E. simpl. by wps.
Qed.

Lemma wp_list_resume t rest (Q : Z → kern → Prop) : L q = t :: rest →
  (∀ th k', threads k !! t = Some th → th_stat th = RT_THREAD_SUSPEND → woken t th k' → Q RT_EOK k') →
  wp (rt_ipc_list_resume q) k Q.
Proof using All.
  intros E HQ. destruct (waiter t) as (th&Ht&Hs); [rewrite E; left|].
  unfold rt_ipc_list_resume. apply wp_bind. eapply wp_first_waiter; [done|].
  apply wp_bind. eapply (wp_resume lo k t th I Ht); [done|]. intros k' Hm. wps. by eapply HQ.
Qed.

Lemma woken_ready t th k' : threads k !! t = Some th → woken t th k' →
  some_ready (lof (thread_lists k')).
Proof using All.
  intros Ht Hm. eapply some_ready_ext; [apply Hm|]. apply some_ready_enqueue.
  by apply (thread_ok lo k t th I Ht).
Qed.

End resume.

(** ** Waking all *)

Definition dismissed (th : rt_thread) : rt_thread :=
  set_th_stat RT_THREAD_READY (set_th_error (- RT_ERROR) th).

(** [r] is the timer of a thread of [l]. *)
Definition timer_in (l : list Z) (r : timer_ref) : bool :=
  match r with ThreadTimer t => bool_decide (t ∈ l) | UserTimer _ => false end.

(** All threads of [q] are ready, with an error. *)
Record all_woken (lo : Z) (q : thread_queue) (k k' : kern) : Prop := {
  aw_rest : same_rest k k';
  aw_inv : kinv_at lo k';
  aw_empty : lof (thread_lists k') q = [];
  aw_threads t : threads k' !! t =
    if bool_decide (t ∈ lof (thread_lists k) q) then dismissed <$> threads k !! t else threads k !! t;
  aw_ready p : lof (thread_lists k') (QReady p) =
    lof (thread_lists k) (QReady p) ++
    filter (λ t, priority_of (threads k) t = p) (lof (thread_lists k) q);
  aw_other y : y ≠ q → (∀ p, y ≠ QReady p) → lof (thread_lists k') y = lof (thread_lists k) y;
  aw_heads y : is_Some (s_lists (thread_lists k) !! y) → is_Some (s_lists (thread_lists k') !! y);
  aw_timer_list : lof (timer_list k') tt =
    filter (λ r, timer_in (lof (thread_lists k) q) r = false) (lof (timer_list k) tt);
  aw_timers r : timer_in (lof (thread_lists k) q) r = false → timers k' !! r = timers k !! r;
}.

Lemma all_woken_none lo q (k : kern) : kinv_at lo k → lof (thread_lists k) q = [] → all_woken lo q k k.
Proof.
  intros I E. split; try done.
  - intros t. by rewrite E, bool_decide_false by apply not_elem_of_nil.
  - intros p. rewrite E. symmetry. apply app_nil_r.
  - rewrite filter_all; [done|]. intros [t|] _; simpl; [|done]. rewrite E. apply bool_decide_false, not_elem_of_nil.
Qed.

(** The first thread is woken, then the others. *)
Lemma all_woken_step lo q t rest th (k k1 k' : kern) : kinv_at lo k → waiting_queue q →
  lof (thread_lists k) q = t :: rest → threads k !! t = Some th → th_stat th = RT_THREAD_SUSPEND →
  moved lo t (dismissed th) (enqueue t (th_current_priority th) (lof (thread_lists k)))
    (filter (λ r, r ≠ ThreadTimer t) (lof (timer_list k) tt)) k k1 →
  lof (thread_lists k1) q = rest →
  all_woken lo q k1 k' → all_woken lo q k k'.
Proof.
  intros I Hq E Ht Hs Hm Eq Hw. pose proof (mv_lists _ _ _ _ _ _ _ Hm) as HL.
  assert (t ∉ rest) as Hn.
  { pose proof (swf_nodup _ (si_swf _ _ (ki_store _ _ I)) q) as Hnd. rewrite E in Hnd.
    by apply NoDup_cons in Hnd as [? _]. }
  assert (th_stat th ≠ RT_THREAD_READY) as Hnr by (by rewrite Hs).
  assert (∀ r, timer_in (t :: rest) r = false ↔ timer_in rest r = false ∧ r ≠ ThreadTimer t) as Htin.
  { intros [u|]; simpl; [|naive_solver]. rewrite !bool_decide_eq_false. set_solver. }
  split.
  - etrans; [apply Hm|apply Hw].
  - apply Hw.
  - apply Hw.
  - intros u. rewrite (aw_threads _ _ _ _ Hw), Eq, E, (mv_threads _ _ _ _ _ _ _ Hm).
    destruct (decide (u = t)) as [->|Hne].
    + rewrite bool_decide_false by done. rewrite bool_decide_true by left.
      by rewrite lookup_insert_eq, Ht.
    + rewrite lookup_insert_ne by done. erewrite (bool_decide_ext (u ∈ t :: rest)); [done|set_solver].
  - intros p. rewrite (aw_ready _ _ _ _ Hw), Eq, E, HL.
    rewrite (filter_ext_elem (λ u, priority_of (threads k1) u = p)
               (λ u, priority_of (threads k) u = p)).
    2:{ intros u Hu. unfold priority_of. rewrite (mv_threads _ _ _ _ _ _ _ Hm).
        rewrite lookup_insert_ne; [done|]. by intros ->. }
    assert (priority_of (threads k) t = th_current_priority th) as Ep
      by (unfold priority_of; by rewrite Ht).
    rewrite filter_cons, Ep. destruct (decide (th_current_priority th = p)) as [<-|Hne].
    + rewrite enqueue_self, (not_ready_del _ _ _ _ I Ht Hnr). by rewrite <-(assoc_L (++)).
    + by rewrite enqueue_other, (not_ready_del _ _ _ _ I Ht Hnr).
  - intros y Hy Hp. rewrite (aw_other _ _ _ _ Hw y Hy Hp), HL. unfold enqueue.
    rewrite fn_lookup_insert_ne by (intros <-; by eapply Hp).
    eapply (list_del_other _ t q); [apply I| |done]. rewrite E. left.
  - intros y Hy. by apply (aw_heads _ _ _ _ Hw), (mv_heads _ _ _ _ _ _ _ Hm).
  - rewrite (aw_timer_list _ _ _ _ Hw), Eq, E, (mv_timer_list _ _ _ _ _ _ _ Hm), list_filter_filter.
    apply filter_ext_elem. intros r _. rewrite Htin. naive_solver.
  - intros r Hr. rewrite E in Hr. apply Htin in Hr as [Hr Hne].
    rewrite (aw_timers _ _ _ _ Hw) by by rewrite Eq. by apply (mv_timers _ _ _ _ _ _ _ Hm).
Qed.

Lemma wp_resume_all_loop lo q fuel (k : kern) (Q : unit → kern → Prop) : kinv_at lo k → waiting_queue q →
  is_Some (s_lists (thread_lists k) !! q) → (length (lof (thread_lists k) q) < fuel)%nat →
  (∀ k', all_woken lo q k k' → Q tt k') → wp (resume_all_loop fuel q) k Q.
Proof.
  intros I Hq. revert k I. induction fuel as [|fuel IH]; intros k I Hh Hf HQ; [lia|].
  cbn [resume_all_loop]. apply wp_bind. eapply wp_kopt; [by apply s_isempty_spec|].
  destruct (lof (thread_lists k) q) as [|t rest] eqn:E.
  { rewrite bool_decide_true by done. wps. by apply HQ, all_woken_none. }
  rewrite bool_decide_false by done. wps.
  assert (kinv_at lo (set_primask 1 k)) as I1 by (by apply (kinv_at_irrelevant lo k)).
  destruct (waiter lo k I q Hq Hh t) as (th&Ht&Hs); [rewrite E; left|].
  eapply (wp_first_waiter lo _ I1 q Hq Hh t rest); [done|]. wps.
  set (k1 := set_threads _ _).
  assert (kinv_at lo k1) as I2.
  { apply (kinv_thread lo (set_primask 1 k) t th I1 Ht); [done|done|].
    apply wf_error, (thread_ok lo k t th I Ht). }
  eapply (wp_resume lo k1 t _ I2 (lookup_insert_eq _ _ _)); [done|].
  intros k2 Hm%moved_set_thread. wps.
  pose proof (moved_primask _ _ _ _ _ k _ Hm) as Hm'.
  assert (lof (thread_lists k2) q = rest) as Eq.
  { rewrite (mv_lists _ _ _ _ _ _ _ Hm). unfold enqueue. rewrite fn_lookup_insert_ne by (by intros <-).
    eapply (list_del_head (thread_lists k)); [apply I|done]. }
  apply IH; [apply Hm'|by apply (mv_heads _ _ _ _ _ _ _ Hm')| |].
  - simpl. rewrite Eq. simpl in Hf. lia.
  - intros k' Hw. apply HQ. by eapply (all_woken_step lo q t rest th).
Qed.

Lemma wp_resume_all lo q (k : kern) (Q : Z → kern → Prop) : kinv_at lo k → waiting_queue q →
  is_Some (s_lists (thread_lists k) !! q) →
  (∀ k', all_woken lo q k k' → Q RT_EOK k') → wp (rt_ipc_list_resume_all q) k Q.
Proof.
  intros I Hq Hh HQ. unfold rt_ipc_list_resume_all. wps.
  eapply (wp_resume_all_loop lo); [done|done|done| |].
  - apply Nat.lt_succ_r, NoDup_keys_size; [apply (ki_store _ _ I)|]. intros x Hx.
    destruct (ti_queue _ _ (ki_threads _ _ I) q x Hx) as (?&Hx'&_). eauto.
  - intros k' Hw. wps. by apply HQ.
Qed.

(** ** The calls *)

(** The new thread stands behind those of its priority and before the lower
    ones. *)
Lemma prio_insert_place ths t p l : StronglySorted Z.le (priority_of ths <$> l) →
  ∃ l1 l2, l = l1 ++ l2 ∧ prio_insert ths t p l = l1 ++ t :: l2 ∧
    Forall (λ s, priority_of ths s <= p) l1 ∧ Forall (λ s, p < priority_of ths s) l2.
Proof.
  induction l as [|s l IH]; simpl; intros Hs; [by exists [], []|].
  apply StronglySorted_inv in Hs as [Hs Hall]. case_bool_decide as E.
  - exists [], (s :: l). split_and!; [done|done|done|]. constructor; [done|].
    rewrite Forall_fmap in Hall. eapply Forall_impl; [exact Hall|]. intros x Hx. simpl in Hx. lia.
  - destruct (IH Hs) as (l1&l2&->&->&H1&H2). exists (s :: l1), l2. split_and!; try done.
    constructor; [lia|done].
Qed.

(** A thread that waits in an object's list ordered by priority keeps it
    ordered: it stands behind the threads of at least its priority and before
    the others. *)
Theorem rt_ipc_list_suspend_ordered (k : kern) t th q : kinv k → threads k !! t = Some th →
  th_stat th = RT_THREAD_READY → waiting_queue q → is_Some (s_lists (thread_lists k) !! q) →
  StronglySorted Z.le (priority_of (threads k) <$> lof (thread_lists k) q) →
  ∃ k' l1 l2, rt_ipc_list_suspend q t RT_IPC_FLAG_PRIO k = Ok RT_EOK k' ∧ kinv k' ∧
    lof (thread_lists k) q = l1 ++ l2 ∧ lof (thread_lists k') q = l1 ++ t :: l2 ∧
    Forall (λ s, priority_of (threads k) s <= th_current_priority th) l1 ∧
    Forall (λ s, th_current_priority th < priority_of (threads k) s) l2 ∧
    StronglySorted Z.le (priority_of (threads k') <$> lof (thread_lists k') q).
Proof.
  intros I Ht Hs Hq Hh Hsort.
  destruct (wp_returns (rt_ipc_list_suspend q t RT_IPC_FLAG_PRIO) k RT_EOK
    (moved 0 t (set_th_stat RT_THREAD_SUSPEND th) (waits_in k t th q RT_IPC_FLAG_PRIO)
       (lof (timer_list k) tt) k)) as (k'&E&Hm).
  { by eapply (wp_list_suspend 0 k t th); [done..|right|auto]. }
  assert (lof (thread_lists k') q =
    prio_insert (threads k) t (th_current_priority th) (lof (thread_lists k) q)) as El.
  { rewrite (mv_lists _ _ _ _ _ _ _ Hm). apply fn_lookup_insert. }
  destruct (prio_insert_place (threads k) t (th_current_priority th) _ Hsort) as (l1&l2&E1&E2&H1&H2).
  exists k', l1, l2. split_and!; try done; [apply Hm|by rewrite El|]. rewrite El.
  assert (priority_of (threads k) t = th_current_priority th) as Ep by (unfold priority_of; by rewrite Ht).
  apply (sorted_ext (priority_of (threads k))); [|by apply prio_insert_sorted].
  intros x _. unfold priority_of. rewrite (mv_threads _ _ _ _ _ _ _ Hm).
  destruct (decide (t = x)) as [<-|]; [by rewrite lookup_insert_eq, Ht|by rewrite lookup_insert_ne].
Qed.

Lemma rt_ipc_list_suspend_ordered_witness :
  ∃ k' l1 l2, rt_ipc_list_suspend (QSuspend (OMutex the_mutex)) thread_b RT_IPC_FLAG_PRIO (demo []) =
    Ok RT_EOK k' ∧ kinv k' ∧ lof (thread_lists k') (QSuspend (OMutex the_mutex)) = l1 ++ thread_b :: l2.
Proof.
  destruct (threads (demo []) !! thread_b) as [th|] eqn:E; [|vm_compute in E; discriminate E].
  destruct (rt_ipc_list_suspend_ordered (demo []) thread_b th (QSuspend (OMutex the_mutex)))
    as (k'&l1&l2&Hk'&Hi&_&Hl&_).
  - apply kinv_b_sound. vm_compute. reflexivity.
  - exact E.
  - vm_compute in E. injection E as <-. reflexivity.
  - exact Logic.I.
  - vm_compute. eexists. reflexivity.
  - vm_compute. constructor.
  - exists k', l1, l2. split_and!; [exact Hk'|exact Hi|exact Hl].
Defined.

(** Resetting or deleting an object wakes all its waiting threads, in order,
    with an error, and leaves everything else alone. *)
Theorem rt_ipc_list_resume_all_correct (k : kern) q : kinv k → waiting_queue q →
  is_Some (s_lists (thread_lists k) !! q) →
  ∃ k', rt_ipc_list_resume_all q k = Ok RT_EOK k' ∧ all_woken 0 q k k'.
Proof. intros I Hq Hh. apply wp_returns. eapply (wp_resume_all 0); auto. Qed.

Lemma rt_ipc_list_resume_all_correct_witness :
  let k := demo [Call (CSemTake the_sem 5); Call (CSemTake the_sem (-1))] in
  ∃ k', rt_ipc_list_resume_all (QSuspend (OSem the_sem)) k = Ok RT_EOK k' ∧ kinv k' ∧
        lof (thread_lists k') (QReady 5) = [thread_a; thread_b].
Proof.
  intros k. destruct (rt_ipc_list_resume_all_correct k (QSuspend (OSem the_sem))) as (k'&Hk'&Hw).
  - apply kinv_b_sound. vm_compute. reflexivity.
  - exact Logic.I.
  - vm_compute. eexists. reflexivity.
  - exists k'. split_and!; [exact Hk'|apply Hw|]. rewrite (aw_ready _ _ _ _ Hw). vm_compute. reflexivity.
Defined.
