(* ===== verification/SemProof.v ===== *)
(** * Semaphores are correct

    [rt_sem_take] and [rt_sem_release] on every branch, and the invariant of a
    semaphore: nobody waits while a permit is left. *)

From S2P Require Import Prelude DList ListStore SeqLemmas KString KState Scheduler ObjectSys Timer ThreadSys Ipc KernelWp KernelInv System KernelCheck SchedProof TimerProof ThreadProof Clock ClockProof IpcProof.

(** ** The calling thread *)

(** The thread [t] runs, the scheduler is not locked, and there is another ready
    thread, if only the idle thread. *)
Record calls (k : kern) (t : Z) (th : rt_thread) : Prop := {
  ca_inv : kinv k;
  ca_current : rt_current_thread k = t;
  ca_thread : threads k !! t = Some th;
  ca_ready : th_stat th = RT_THREAD_READY;
  ca_lock : rt_scheduler_lock_nest k = 0;
  ca_nest : rt_interrupt_nest k = 0;
  ca_other : some_ready (list_del t (lof (thread_lists k)));
}.

Definition ipc_flag (flag : Z) : Prop := flag = RT_IPC_FLAG_FIFO ∨ flag = RT_IPC_FLAG_PRIO.

(** [t] blocks in [q] and the processor goes to another thread. *)
Definition gives_up (t : Z) (th : rt_thread) (q : thread_queue) (flag time : Z) (k k' : kern) : Prop :=
  ∃ k1, blocked 0 t (set_th_stat RT_THREAD_SUSPEND th) (waits_in k t th q flag) (wait_time time) k k1 ∧
        scheduled k1 k' ∧ rt_current_thread k' ≠ t.

Lemma blocked_set_thread lo t th1 th' L' wait (k k' : kern) :
  blocked lo t th' L' wait (set_threads (<[t := th1]> (threads k)) k) k' → blocked lo t th' L' wait k k'.
Proof.
  intros [Hr Hi Ht Hl Hh Htl Htm]. split; try done. rewrite Ht. simpl. apply insert_insert_eq.
Qed.

Lemma calls_primask k t th : calls k t th → calls (set_primask 1 k) t th.
Proof. intros []. split; try done. by apply (kinv_at_irrelevant 0 k). Qed.

(** Fields that the scheduler does not look at. *)
Lemma calls_change k t th th' : calls k t th → th_stat th' = th_stat th →
  th_current_priority th' = th_current_priority th → thread_wf t th' →
  calls (set_threads (<[t := th']> (threads k)) k) t th'.
Proof.
  intros [I Hc Ht Hs Hl Hn Ho] Es Ep Hwf.
  split; try done; [|apply lookup_insert_eq|by rewrite Es]. by eapply kinv_thread.
Qed.

Lemma calls_error k t th e : calls k t th →
  calls (set_threads (<[t := set_th_error e th]> (threads k)) k) t (set_th_error e th).
Proof. intros H. eapply calls_change; [done..|]. apply wf_error. by eapply thread_ok; apply H. Qed.

Lemma calls_null k t th : calls k t th → t ≠ RT_NULL.
Proof. intros [I _ Ht _ _ _ _]. by apply (tw_null _ _ (thread_ok _ _ _ _ I Ht)). Qed.

(** The common end of the blocking calls, with interrupts disabled before. *)
Section block.
Context (k : kern) (t : Z) (th : rt_thread) (Hca : calls k t th).
Context (q : thread_queue) (Hq : waiting_queue q) (Hh : is_Some (s_lists (thread_lists k) !! q)).
Context (flag : Z) (Hflag : ipc_flag flag).

(** The processor is given up after [t] was moved to a waiting list. *)
Lemma wp_leave (L' : queues) (k1 : kern) time A (f : M A) (Q : A → kern → Prop) :
  (∀ p, L' (QReady p) = list_del t (lof (thread_lists k)) (QReady p)) →
  blocked 0 t (set_th_stat RT_THREAD_SUSPEND th) L' time (set_primask 1 k) k1 →
  (∀ k1 k', blocked 0 t (set_th_stat RT_THREAD_SUSPEND th) L' time k k1 → scheduled k1 k' →
     rt_current_thread k' ≠ t → wp f k' Q) →
  wp (rt_hw_interrupt_enable (primask k);; rt_schedule;; f) k1 Q.
Proof using Hca.
  intros HL Hb HQ. destruct Hca as [I1 Hc Ht Hs Hl Hn Ho].
  apply (blocked_primask _ _ _ _ _ k) in Hb. wps.
  assert (threads (set_primask (primask k) k1) !! t = Some (set_th_stat RT_THREAD_SUSPEND th)) as Ht1.
  { rewrite (bl_threads _ _ _ _ _ _ _ Hb). apply lookup_insert_eq. }
  eapply wp_schedule_any; [apply Hb| |].
  - eapply some_ready_ext; [apply Hb|]. destruct Ho as (p&Hp&Hne). exists p. split; [done|]. by rewrite HL.
  - intros k' Hk'. apply (HQ (set_primask (primask k) k1)); [done|done|].
    eapply scheduled_away; [apply Hb|exact Ht1|done| |done].
    by rewrite (sr_lock _ _ (bl_rest _ _ _ _ _ _ _ Hb)).
Qed.

Lemma wp_block time A (f : M A) (Q : A → kern → Prop) : time < RT_TICK_MAX / 2 →
  (∀ k', gives_up t th q flag time k k' → wp f k' Q) →
  wp (rt_ipc_list_suspend q t flag;; start_thread_timer t time;;
      rt_hw_interrupt_enable (primask k);; rt_schedule;; f) (set_primask 1 k) Q.
Proof using All.
  intros Htime HQ. pose proof (calls_primask _ _ _ Hca) as [I1 Hc Ht Hs Hl Hn Ho].
  eapply (wp_wait 0 _ t th I1 Ht Hs q Hq Hh flag time); [lia|done|done|]. intros k1 Hb.
  eapply wp_leave; [|exact Hb|].
  - intros p. unfold waits_in. rewrite fn_lookup_insert_ne; [done|]. by intros ->.
  - intros k2 k' Hb' Hk' Hne. apply HQ. by exists k2.
Qed.

End block.

(** The place in a queue depends on the priorities only. *)
Lemma waits_in_change (k : kern) t th th' q flag y : threads k !! t = Some th →
  th_current_priority th' = th_current_priority th →
  waits_in (set_threads (<[t := th']> (threads k)) k) t th' q flag y = waits_in k t th q flag y.
Proof.
  intros Ht Ep. unfold waits_in. simpl. rewrite Ep.
  destruct (decide (q = y)) as [<-|]; [|by rewrite !fn_lookup_insert_ne].
  rewrite !fn_lookup_insert. unfold wait_insert. case_bool_decide; [done|].
  apply prio_insert_ext. intros s _. unfold priority_of. destruct (decide (t = s)) as [<-|].
  - by rewrite lookup_insert_eq, Ht.
  - by rewrite lookup_insert_ne.
Qed.

Lemma gives_up_change t th th' q flag time (k k' : kern) : threads k !! t = Some th →
  th_current_priority th' = th_current_priority th →
  gives_up t th' q flag time (set_threads (<[t := th']> (threads k)) k) k' →
  ∃ k1, blocked 0 t (set_th_stat RT_THREAD_SUSPEND th') (waits_in k t th q flag)
          (wait_time time) k k1 ∧ scheduled k1 k' ∧ rt_current_thread k' ≠ t.
Proof.
  intros Ht Ep (k1&Hb%blocked_set_thread&Hk&Hc). exists k1. split_and!; [|done..].
  destruct Hb as [Hr Hi Hth Hl Hh Htl Htm]. split; try done.
  intros y. rewrite Hl. by apply waits_in_change.
Qed.

(** ** Semaphores *)

Record sem_ok (k : kern) (sem : Z) (s : rt_semaphore) : Prop := {
  so_null : sem ≠ RT_NULL;
  so_flag : ipc_flag (sem_flag s);
  so_value : in_u16 (sem_value s);
  so_head : is_Some (s_lists (thread_lists k) !! QSuspend (OSem sem));
  so_waiters : lof (thread_lists k) (QSuspend (OSem sem)) ≠ [] → sem_value s = 0;
}.

Definition with_sem (sem v : Z) (s : rt_semaphore) (k : kern) : kern :=
  set_sems (<[sem := set_sem_value v s]> (sems k)) k.

Section sem.
Context (k : kern) (sem : Z) (s : rt_semaphore).
Context (Hsem : sems k !! sem = Some s) (Hok : sem_ok k sem s).

Abbreviation q := (QSuspend (OSem sem)).

Lemma wp_sem_take t th time (Q : outcome → kern → Prop) : calls k t th → time < RT_TICK_MAX / 2 →
  (sem_value s > 0 → Q (Returns RT_EOK) (with_sem sem (sem_value s - 1) s k)) →
  (sem_value s = 0 → time = 0 → Q (Returns (- RT_ETIMEOUT)) k) →
  (sem_value s = 0 → time ≠ 0 → ∀ k1 k',
     blocked 0 t (set_th_stat RT_THREAD_SUSPEND (set_th_error RT_EOK th))
       (waits_in k t th q (sem_flag s)) (wait_time time) k k1 →
     scheduled k1 k' → rt_current_thread k' ≠ t → Q Waits k') →
  wp (rt_sem_take sem time) k Q.
Proof using All.
  intros Hca Htime H1 H2 H3. destruct Hok as [Hnull Hflag Hval Hhead Hwait].
  unfold rt_sem_take. wps. unfold get_sem. eapply wp_kopt; [exact Hsem|].
  destruct (decide (sem_value s > 0)) as [Hv|Hv].
  { rewrite bool_decide_true by done. unfold put_sem. wps. specialize (H1 Hv). by destruct k. }
  assert (sem_value s = 0) as Hv0 by (unfold in_u16 in Hval; lia).
  rewrite bool_decide_false by done. destruct (decide (time = 0)) as [Ht0|Ht0].
  { rewrite bool_decide_true by done. wps. specialize (H2 Hv0 Ht0). by destruct k. }
  rewrite bool_decide_false by done. apply wp_bind, wp_in_thread_context;
    [by apply Hca|simpl; rewrite (ca_current _ _ _ Hca); by eapply calls_null|].
  unfold rt_thread_self. wps. simpl. rewrite (ca_current _ _ _ Hca).
  eapply wp_mod_thread; [apply Hca|]. cbv beta.
  pose proof (calls_error k t th RT_EOK Hca) as Hca1.
  eapply (wp_block _ t _ Hca1 q Logic.I Hhead (sem_flag s) Hflag time); [done|].
  intros k' Hg. apply (gives_up_change t th) in Hg as (k1&Hb&Hk&Hne); [|apply Hca|done].
  unfold after_schedule. wps. rewrite bool_decide_false by done. wps. by eapply H3.
Qed.

Lemma wp_sem_release (Q : Z → kern → Prop) : kinv k →
  (lof (thread_lists k) q = [] → Q RT_EOK (with_sem sem (u16 (sem_value s + 1)) s k)) →
  (∀ t rest th k1 k', lof (thread_lists k) q = t :: rest → threads k !! t = Some th →
     th_stat th = RT_THREAD_SUSPEND → woken 0 k t th k1 → scheduled k1 k' → Q RT_EOK k') →
  wp (rt_sem_release sem) k Q.
Proof using All.
  intros I H1 H2. destruct Hok as [Hnull Hflag Hval Hhead Hwait].
  unfold rt_sem_release. wps. unfold get_sem. eapply wp_kopt; [exact Hsem|]. wps.
  eapply wp_kopt; [by apply s_isempty_spec|]. simpl.
  destruct (lof (thread_lists k) q) as [|t rest] eqn:E.
  { rewrite bool_decide_true by done. unfold put_sem. wps. specialize (H1 eq_refl). by destruct k. }
  rewrite bool_decide_false by done. wps.
  assert (kinv_at 0 (set_primask 1 k)) as I1 by (by apply (kinv_at_irrelevant 0 k)).
  eapply (wp_list_resume 0 _ I1 q Logic.I Hhead t rest); [done|]. intros th k1 Ht Hs Hw. wps.
  apply (moved_primask _ _ _ _ _ k) in Hw.
  eapply wp_schedule_any; [apply Hw| |].
  - by eapply (woken_ready 0 k I q Logic.I Hhead t th).
  - intros k' Hk'. wps. by eapply H2.
Qed.

End sem.

(** ** The calls *)

Definition calls_b (k : kern) (t : Z) : bool :=
  kinv_b 0 k && bool_decide (rt_current_thread k = t) &&
  found (λ th, th_stat th = RT_THREAD_READY) (threads k !! t) &&
  bool_decide (rt_scheduler_lock_nest k = 0) && bool_decide (rt_interrupt_nest k = 0) &&
  existsb (λ p, bool_decide (list_del t (lof (thread_lists k)) (QReady p) ≠ [])) priorities.

Lemma calls_b_sound k t th : calls_b k t = true → threads k !! t = Some th → calls k t th.
Proof.
  unfold calls_b. rewrite !andb_true_iff, !bool_decide_eq_true, found_spec, existsb_exists.
  intros [[[[[H1 H2] (?&?&H3)] H4] H5] (p&Hp&H6)] Ht. simplify_eq.
  split; try done; [by apply kinv_b_sound|]. exists p. split.
  - apply list_elem_of_In, elem_of_seqZ in Hp. lia.
  - by apply bool_decide_eq_true in H6.
Qed.

(** [rt_sem_take]: a permit is taken if there is one; otherwise the call fails
    at once if it must not wait, or the thread waits at its place in the
    semaphore's list, for the given time or without a limit, and the processor
    goes to another thread. *)
Theorem rt_sem_take_correct (k : kern) sem s t th time : sems k !! sem = Some s → sem_ok k sem s →
  calls k t th → time < RT_TICK_MAX / 2 →
  ∃ r k', rt_sem_take sem time k = Ok r k' ∧
    (sem_value s > 0 → r = Returns RT_EOK ∧ k' = with_sem sem (sem_value s - 1) s k) ∧
    (sem_value s = 0 → time = 0 → r = Returns (- RT_ETIMEOUT) ∧ k' = k) ∧
    (sem_value s = 0 → time ≠ 0 → r = Waits ∧ rt_current_thread k' ≠ t ∧ ∃ k1,
       blocked 0 t (set_th_stat RT_THREAD_SUSPEND (set_th_error RT_EOK th))
         (waits_in k t th (QSuspend (OSem sem)) (sem_flag s)) (wait_time time) k k1 ∧
       scheduled k1 k').
Proof.
  intros Hs Hok Hca Ht. apply wp_run. eapply wp_sem_take; [done..| | |].
  - intros Hv. split_and!; [done|lia..].
  - intros Hv E. split_and!; [lia|done|done].
  - intros Hv E k1 k' Hb Hk' Hc. split_and!; [lia|done|]. eauto 10.
Qed.

Lemma rt_sem_take_correct_witness :
  ∃ k', rt_sem_take the_sem 5 (demo []) = Ok Waits k' ∧ rt_current_thread k' ≠ thread_a.
Proof.
  destruct (threads (demo []) !! thread_a) as [th|] eqn:E; [|vm_compute in E; discriminate E].
  destruct (rt_sem_take_correct (demo []) the_sem (Semaphore 0 0) thread_a th 5)
    as (r&k'&Hk'&_&_&Hw).
  - vm_compute. reflexivity.
  - split; [discriminate|left; reflexivity|vm_compute; split; [discriminate|reflexivity]
      |vm_compute; eexists; reflexivity|intros _; reflexivity].
  - apply calls_b_sound; [vm_compute; reflexivity|exact E].
  - clear. done.
  - destruct Hw as (->&Hc&_); [reflexivity|discriminate|]. exists k'. split; [exact Hk'|exact Hc].
Defined.

(** [rt_sem_release]: without a waiting thread the value counts up, modulo 2^16;
    otherwise the first waiting thread is made ready and the value stays. *)
Theorem rt_sem_release_correct (k : kern) sem s : sems k !! sem = Some s → sem_ok k sem s → kinv k →
  ∃ k', rt_sem_release sem k = Ok RT_EOK k' ∧
    match lof (thread_lists k) (QSuspend (OSem sem)) with
    | [] => k' = with_sem sem (u16 (sem_value s + 1)) s k
    | t :: rest => ∃ th k1, threads k !! t = Some th ∧ th_stat th = RT_THREAD_SUSPEND ∧
        woken 0 k t th k1 ∧ lof (thread_lists k1) (QSuspend (OSem sem)) = rest ∧ scheduled k1 k'
    end.
Proof.
  intros Hs Hok I. apply wp_returns. eapply wp_sem_release; [done..| |].
  - intros ->. done.
  - intros t rest th k1 k' E Ht Hst Hw Hk'. split; [done|]. rewrite E. exists th, k1.
    split_and!; try done. by eapply (woken_queue 0 k I (QSuspend (OSem sem)) Logic.I (so_head _ _ _ Hok)).
Qed.

Lemma rt_sem_release_correct_witness :
  let k := demo [Call (CSemTake the_sem 5)] in
  ∃ k' k1, rt_sem_release the_sem k = Ok RT_EOK k' ∧ scheduled k1 k' ∧
           lof (thread_lists k1) (QSuspend (OSem the_sem)) = [].
Proof.
  intros k. destruct (rt_sem_release_correct k the_sem (Semaphore 0 0)) as (k'&Hk'&Hm).
  - vm_compute. reflexivity.
  - split; [discriminate|left; reflexivity|vm_compute; split; [discriminate|reflexivity]
      |vm_compute; eexists; reflexivity|intros _; reflexivity].
  - apply kinv_b_sound. vm_compute. reflexivity.
  - replace (lof (thread_lists k) (QSuspend (OSem the_sem))) with [thread_a] in Hm
      by (vm_compute; reflexivity).
    destruct Hm as (th&k1&_&_&_&Hl&Hs). exists k', k1. split_and!; [exact Hk'|exact Hs|exact Hl].
Defined.

(** ** A semaphore is a counter with a queue *)

(** The abstract semaphore: the permits left and the waiting threads. *)
Definition sem_view (k : kern) (sem : Z) : option (Z * list Z) :=
  s ← sems k !! sem; Some (sem_value s, lof (thread_lists k) (QSuspend (OSem sem))).

(** Its operations: [insert] puts the caller at its place.  Taking a permit
    succeeds, waits, or fails at once with a timeout. *)
Definition spec_take (insert : list Z → list Z) (wait : bool) (v : Z * list Z)
    : outcome * (Z * list Z) :=
  if bool_decide (v.1 > 0) then (Returns RT_EOK, (v.1 - 1, v.2))
  else if wait then (Waits, (v.1, insert v.2))
  else (Returns (- RT_ETIMEOUT), v).
Definition spec_release (v : Z * list Z) : Z * list Z :=
  match v.2 with [] => (u16 (v.1 + 1), []) | _ :: ws => (v.1, ws) end.

(** The thread is suspended, not the one that runs, and its timer runs for the
    waiting time, if there is a limit. *)
Definition left_waiting (t : Z) (th : rt_thread) (time : Z) (k k' : kern) : Prop :=
  threads k' !! t = Some (set_th_stat RT_THREAD_SUSPEND (set_th_error RT_EOK th)) ∧
  rt_current_thread k' ≠ t ∧
  match wait_time time with
  | Some n => ThreadTimer t ∈ lof (timer_list k') tt ∧
              remaining_of (rt_tick k') (timers k') (ThreadTimer t) = n
  | None => lof (timer_list k') tt = lof (timer_list k) tt
  end.

(** The thread is ready, in the list of its priority, its timer does not run,
    and its [rt_sem_take] returns the error it waited with. *)
Definition handed_permit (t : Z) (k k' : kern) : Prop :=
  ∃ th, threads k !! t = Some th ∧ threads k' !! t = Some (set_th_stat RT_THREAD_READY th) ∧
    t ∈ lof (thread_lists k') (QReady (th_current_priority th)) ∧
    (ThreadTimer t ∉ lof (timer_list k') tt) ∧ rt_sem_take_resumed t k' = Ok (th_error th) k'.

Lemma woken_handed (k k1 k' : kern) t th : threads k !! t = Some th → woken 0 k t th k1 →
  scheduled k1 k' → handed_permit t k k'.
Proof.
  intros Ht Hw Hk'%scheduled_same. exists th.
  assert (threads k' !! t = Some (set_th_stat RT_THREAD_READY th)) as Ht'.
  { rewrite (sc_threads _ _ Hk'), (mv_threads _ _ _ _ _ _ _ Hw). apply lookup_insert_eq. }
  split_and!; [done|done| | |].
  - rewrite (sc_lists _ _ Hk'), (mv_lists _ _ _ _ _ _ _ Hw), enqueue_self. set_solver.
  - rewrite (sc_timer_list _ _ Hk'), (mv_timer_list _ _ _ _ _ _ _ Hw), list_elem_of_filter. tauto.
  - unfold rt_sem_take_resumed, get_thread, kopt, mbind, K_bind. rewrite Ht'. simpl.
    case_bool_decide as E; [done|]. by rewrite E.
Qed.

Lemma blocked_left (k k1 k' : kern) t th L' time :
  blocked 0 t (set_th_stat RT_THREAD_SUSPEND (set_th_error RT_EOK th)) L' (wait_time time) k k1 →
  scheduled k1 k' → rt_current_thread k' ≠ t → left_waiting t th time k k'.
Proof.
  intros Hb Hk'%scheduled_same Hc. split_and!; [|done|].
  - rewrite (sc_threads _ _ Hk'), (bl_threads _ _ _ _ _ _ _ Hb). apply lookup_insert_eq.
  - pose proof (bl_timer_list _ _ _ _ _ _ _ Hb) as Hl.
    rewrite (sc_timer_list _ _ Hk'), (sc_timers _ _ Hk'), (sc_tick _ _ Hk').
    rewrite (sr_tick _ _ (bl_rest _ _ _ _ _ _ _ Hb)).
    destruct (wait_time time); [|done]. destruct Hl as ((l1&l2&_&->)&Hrem). split; [set_solver|done].
Qed.

Lemma sem_ok_value (k : kern) sem s v : sem_ok k sem s → in_u16 v →
  (lof (thread_lists k) (QSuspend (OSem sem)) ≠ [] → v = 0) →
  sem_ok (with_sem sem v s k) sem (set_sem_value v s).
Proof. intros [] Hv Hw. by split. Qed.

Lemma sem_ok_lists (k k' : kern) sem s : sem_ok k sem s →
  (∀ q, is_Some (s_lists (thread_lists k) !! q) → is_Some (s_lists (thread_lists k') !! q)) →
  (lof (thread_lists k') (QSuspend (OSem sem)) ≠ [] → sem_value s = 0) → sem_ok k' sem s.
Proof. intros [] Hh Hw. split; auto. Qed.

Lemma blocked_sems lo t th' L' w (k k1 k' : kern) : blocked lo t th' L' w k k1 → scheduled k1 k' →
  sems k' = sems k ∧ (∀ q, lof (thread_lists k') q = L' q) ∧
  (∀ q, is_Some (s_lists (thread_lists k) !! q) → is_Some (s_lists (thread_lists k') !! q)).
Proof.
  intros Hb Hk'%scheduled_same. split_and!.
  - by rewrite (sc_sems _ _ Hk'), (sr_sems _ _ (bl_rest _ _ _ _ _ _ _ Hb)).
  - intros q. rewrite (sc_lists _ _ Hk'). apply Hb.
  - intros q. rewrite (sc_lists _ _ Hk'). apply (bl_heads _ _ _ _ _ _ _ Hb).
Qed.

Section view.
Context (k : kern) (sem : Z) (s : rt_semaphore) (Hs : sems k !! sem = Some s) (Hok : sem_ok k sem s).

Abbreviation q := (QSuspend (OSem sem)).
Abbreviation v := (sem_value s, lof (thread_lists k) q).
Definition view_ok (k' : kern) (v' : Z * list Z) : Prop :=
  sem_view k' sem = Some v' ∧ ∃ s', sems k' !! sem = Some s' ∧ sem_ok k' sem s'.

#[local] Lemma view_value n : in_u16 n → (lof (thread_lists k) q ≠ [] → n = 0) →
  view_ok (with_sem sem n s k) (n, lof (thread_lists k) q).
Proof using All.
  intros Hn Hw. unfold view_ok, sem_view. simpl. rewrite lookup_insert_eq. split; [done|].
  eexists; split; [done|]. by apply sem_ok_value.
Qed.

#[local] Lemma view_lists (k' : kern) ws : sems k' = sems k → lof (thread_lists k') q = ws →
  (∀ y, is_Some (s_lists (thread_lists k) !! y) → is_Some (s_lists (thread_lists k') !! y)) →
  (ws ≠ [] → sem_value s = 0) → view_ok k' (sem_value s, ws).
Proof using All.
  intros E1 E2 Hh Hw. unfold view_ok, sem_view. rewrite E1, Hs, E2. split; [done|].
  exists s. split; [done|]. eapply sem_ok_lists; [done..|]. by rewrite E2.
Qed.

Lemma view_release (Q : Z → kern → Prop) : kinv k →
  (∀ k', view_ok k' (spec_release v) → (∀ t, head v.2 = Some t → handed_permit t k k') → Q RT_EOK k') →
  wp (rt_sem_release sem) k Q.
Proof using All.
  intros I HQ. eapply wp_sem_release; [done..| |].
  - intros E. apply HQ; [|by simpl; rewrite E]. unfold spec_release. simpl. rewrite E, <-E.
    apply view_value; [apply u16_range|]. by rewrite E.
  - intros t rest th k1 k' E Ht Hst Hw Hk'. simpl in HQ. rewrite E in HQ. apply HQ.
    2:{ intros ? [= <-]. by eapply woken_handed. }
    pose proof (scheduled_same _ _ Hk') as Hsame. apply view_lists.
    + by rewrite (sc_sems _ _ Hsame), (sr_sems _ _ (mv_rest _ _ _ _ _ _ _ Hw)).
    + rewrite (sc_lists _ _ Hsame). by eapply (woken_queue 0 k I (QSuspend (OSem sem)) Logic.I (so_head _ _ _ Hok)).
    + intros y. rewrite (sc_lists _ _ Hsame). apply (mv_heads _ _ _ _ _ _ _ Hw).
    + intros _. apply (so_waiters _ _ _ Hok). by rewrite E.
Qed.

Lemma view_take t th time (Q : outcome → kern → Prop) : calls k t th → time < RT_TICK_MAX / 2 →
  (let a := spec_take (wait_insert (sem_flag s) (threads k) t (th_current_priority th))
              (bool_decide (time ≠ 0)) v in
   ∀ k', view_ok k' a.2 → (a.1 = Waits → left_waiting t th time k k') → Q a.1 k') →
  wp (rt_sem_take sem time) k Q.
Proof using All.
  intros Hca Htime HQ. pose proof (so_value _ _ _ Hok) as Hrange. unfold in_u16 in Hrange.
  unfold spec_take in HQ. simpl in HQ. eapply wp_sem_take; [done..| | |].
  - intros Hv. rewrite bool_decide_true in HQ by done. apply HQ; [|done].
    apply view_value; [unfold in_u16; lia|]. intros Hw%(so_waiters _ _ _ Hok). lia.
  - intros Hv E. rewrite bool_decide_false in HQ by lia. rewrite bool_decide_false in HQ by tauto.
    apply HQ; [|done]. apply view_lists; try done.
  - intros Hv E k1 k' Hb Hk' Hc. rewrite bool_decide_false in HQ by lia.
    rewrite bool_decide_true in HQ by done. apply HQ; [|intros _; by eapply blocked_left].
    destruct (blocked_sems _ _ _ _ _ _ _ _ Hb Hk') as (?&HL&?).
    apply view_lists; try done. rewrite HL. apply fn_lookup_insert.
Qed.

End view.

(** C10: [rt_sem_take] and [rt_sem_release] refine the abstract operations and keep
    the semaphore's invariant, that no thread waits while a permit is left.
    [rt_sem_take] returns success with a permit, [-RT_ETIMEOUT] at once without one
    and without a waiting time, and otherwise waits: the caller is suspended at
    its place in the queue, with its timer running for the waiting time.  A
    release without a waiting thread counts up; with one it makes the first
    waiting thread ready, and the [rt_sem_take] of that thread goes on to return
    the error it waited with, which is success. *)
Theorem semaphore_refines_counter (k : kern) sem s v : sems k !! sem = Some s → sem_ok k sem s →
  kinv k → sem_view k sem = Some v →
  (∃ k', rt_sem_release sem k = Ok RT_EOK k' ∧ view_ok sem k' (spec_release v) ∧
     ∀ t, head v.2 = Some t → handed_permit t k k') ∧
  (∀ t th time, calls k t th → time < RT_TICK_MAX / 2 →
   let a := spec_take (wait_insert (sem_flag s) (threads k) t (th_current_priority th))
              (bool_decide (time ≠ 0)) v in
   ∃ k', rt_sem_take sem time k = Ok a.1 k' ∧ view_ok sem k' a.2 ∧
     (a.1 = Waits → left_waiting t th time k k')).
Proof.
  intros Hs Hok I Hv. unfold sem_view in Hv. rewrite Hs in Hv. injection Hv as <-. split.
  - apply wp_returns. eapply view_release; eauto 10.
  - intros t th time Hca Ht a. apply wp_returns. eapply view_take; eauto 10.
Qed.

Lemma semaphore_refines_counter_witness :
  let k := demo [Call (CSemTake the_sem 5)] in
  ∃ k', rt_sem_release the_sem k = Ok RT_EOK k' ∧ view_ok the_sem k' (0, []) ∧ handed_permit thread_a k k'.
Proof.
  intros k. destruct (semaphore_refines_counter k the_sem (Semaphore 0 0) (0, [thread_a])) as [Hr _].
  - vm_compute. reflexivity.
  - split; [discriminate|left; reflexivity|vm_compute; split; [discriminate|reflexivity]
      |vm_compute; eexists; reflexivity|intros _; reflexivity].
  - apply kinv_b_sound. vm_compute. reflexivity.
  - vm_compute. reflexivity.
  - destruct Hr as (k'&Hk'&Hv&Hh). exists k'. split_and!; [exact Hk'|exact Hv|]. apply Hh. reflexivity.
Defined.
