(* ===== verification/MutexProof.v ===== *)
(** * Mutexes are correct

    [rt_mutex_take] with priority inheritance and [rt_mutex_release] with the
    hand-over to the first waiting thread, on every branch. *)

From S2P Require Import Prelude DList ListStore SeqLemmas KString KState Scheduler ObjectSys Timer ThreadSys Ipc KernelWp KernelInv System KernelCheck SchedProof TimerProof ThreadProof Clock ClockProof IpcProof SemProof.

(** ** The state of a mutex *)

Definition with_mutex (mutex : Z) (m : rt_mutex) (k : kern) : kern :=
  set_mutexes (<[mutex := m]> (mutexes k)) k.
Definition with_thread (t : Z) (th : rt_thread) (k : kern) : kern :=
  set_threads (<[t := th]> (threads k)) k.

Definition mutex_free (m : rt_mutex) : Prop :=
  mtx_value m = 1 ∧ mtx_owner m = RT_NULL ∧ mtx_hold m = 0.

(** Held [mtx_hold] times by a thread, whose priority was [mtx_original_priority]. *)
Definition mutex_held (k : kern) (m : rt_mutex) : Prop :=
  mtx_value m = 0 ∧ is_Some (threads k !! mtx_owner m) ∧ 1 <= mtx_hold m < 2 ^ 8 ∧
  0 <= mtx_original_priority m < RT_THREAD_PRIORITY_MAX.

Record mutex_ok (k : kern) (mutex : Z) (m : rt_mutex) : Prop := {
  mo_null : mutex ≠ RT_NULL;
  mo_flag : ipc_flag (mtx_flag m);
  mo_head : is_Some (s_lists (thread_lists k) !! QSuspend (OMutex mutex));
  mo_state : mutex_free m ∨ mutex_held k m;
  mo_waiters : lof (thread_lists k) (QSuspend (OMutex mutex)) ≠ [] → mutex_held k m;
}.

(** ** Priority inheritance *)

(** The owner [o] gets the priority [p] if it is higher than its own. *)
Definition boosted (o : Z) (oth : rt_thread) (p : Z) (k k0 : kern) : Prop :=
  if bool_decide (p < th_current_priority oth) then
    moved 0 o (change_priority p oth)
      (if bool_decide (th_stat oth = RT_THREAD_READY)
       then enqueue o p (lof (thread_lists k)) else lof (thread_lists k))
      (lof (timer_list k) tt) k k0
  else k0 = k.

(** A thread whose priority another call changes goes on running. *)
Lemma calls_moved o oth p (k k0 : kern) t th : calls k t th → o ≠ t → threads k !! o = Some oth →
  moved 0 o (change_priority p oth)
    (if bool_decide (th_stat oth = RT_THREAD_READY)
     then enqueue o p (lof (thread_lists k)) else lof (thread_lists k))
    (lof (timer_list k) tt) k k0 →
  0 <= p < RT_THREAD_PRIORITY_MAX → calls k0 t th.
Proof.
  intros [I Hc Ht Hs Hl Hn Ho] Hne Hoth Hm Hp. pose proof (mv_rest _ _ _ _ _ _ _ Hm) as Hr. split.
  - apply Hm.
  - by rewrite (sr_current _ _ Hr).
  - by rewrite (mv_threads _ _ _ _ _ _ _ Hm), lookup_insert_ne.
  - done.
  - by rewrite (sr_lock _ _ Hr).
  - by rewrite (sr_nest _ _ Hr).
  - pose proof (mv_lists _ _ _ _ _ _ _ Hm) as HL. case_bool_decide.
    + exists p. split; [done|]. unfold list_del. rewrite HL, enqueue_self, filter_app.
      rewrite filter_cons_True by done. intros E. by apply app_eq_nil in E as [_ ?].
    + destruct Ho as (p'&Hp'&Hne'). exists p'. split; [done|]. unfold list_del in *. by rewrite HL.
Qed.

Lemma calls_boosted o oth p (k k0 : kern) t th : calls k t th → o ≠ t → threads k !! o = Some oth →
  boosted o oth p k k0 → 0 <= p < RT_THREAD_PRIORITY_MAX → calls k0 t th.
Proof.
  unfold boosted. case_bool_decide; [|by intros ???->]. intros. by eapply calls_moved.
Qed.

Lemma boosted_heads o oth p (k k0 : kern) q : boosted o oth p k k0 →
  is_Some (s_lists (thread_lists k) !! q) → is_Some (s_lists (thread_lists k0) !! q).
Proof. unfold boosted. case_bool_decide; [intros Hm; apply (mv_heads _ _ _ _ _ _ _ Hm)|by intros ->]. Qed.

Lemma wp_boost o oth p (k : kern) A (f : M A) (Q : A → kern → Prop) : kinv k →
  threads k !! o = Some oth → 0 <= p < RT_THREAD_PRIORITY_MAX →
  (∀ k0, boosted o oth p k k0 → primask k0 = primask k → wp f (set_primask 1 k0) Q) →
  wp ((if bool_decide (p < th_current_priority oth) then
         rt_thread_control o RT_THREAD_CTRL_CHANGE_PRIORITY p;; mret tt
       else mret tt);; f) (set_primask 1 k) Q.
Proof.
  intros I Ho Hp HQ. unfold boosted in HQ. case_bool_decide.
  - wps. eapply (wp_change_priority 0 (set_primask 1 k) o oth); [|done|done|].
    { by apply (kinv_at_irrelevant 0 k). }
    intros k0 Hm. wps. pose proof (moved_primask _ _ _ _ _ k _ Hm) as Hm'.
    specialize (HQ _ Hm' eq_refl).
    pose proof (sr_primask _ _ (mv_rest _ _ _ _ _ _ _ Hm)) as E. simpl in E.
    replace (set_primask 1 (set_primask (primask k) k0)) with k0 in HQ; [done|].
    destruct k0; simpl in *. by subst.
  - wps. by apply HQ.
Qed.

(** ** Taking *)

Section take.
Context (k : kern) (mutex : Z) (m : rt_mutex) (Hm : mutexes k !! mutex = Some m).
Context (Hok : mutex_ok k mutex m) (t : Z) (th : rt_thread) (Hca : calls k t th).

Abbreviation q := (QSuspend (OMutex mutex)).
Abbreviation th0 := (set_th_error RT_EOK th).
Abbreviation k_error e := (with_thread t (set_th_error e th) k).

(** [t] waits for the owner [o], which inherited its priority. *)
Definition mutex_waits (o time : Z) (k' : kern) : Prop :=
  ∃ oth k0, threads k !! o = Some oth ∧ boosted o oth (th_current_priority th) (k_error RT_EOK) k0 ∧
            gives_up t th0 q (mtx_flag m) time k0 k'.

Lemma wp_mutex_take time (Q : outcome → kern → Prop) : time < RT_TICK_MAX / 2 →
  (mtx_owner m = t → Q (Returns RT_EOK)
     (with_mutex mutex (set_mtx_hold (u8 (mtx_hold m + 1)) m) (k_error RT_EOK))) →
  (mtx_value m = 1 → mtx_owner m ≠ t → Q (Returns RT_EOK)
     (with_mutex mutex (mutex_acquire t (th_current_priority th) m) (k_error RT_EOK))) →
  (mtx_value m = 0 → mtx_owner m ≠ t → time = 0 →
     Q (Returns (- RT_ETIMEOUT)) (k_error (- RT_ETIMEOUT))) →
  (mtx_value m = 0 → mtx_owner m ≠ t → time ≠ 0 → ∀ k', mutex_waits (mtx_owner m) time k' →
     rt_current_thread k' ≠ t → Q Waits k') →
  wp (rt_mutex_take mutex time) k Q.
Proof using All.
  intros Htime H1 H2 H3 H4. destruct Hok as [Hnull Hflag Hhead Hstate Hwait].
  pose proof (calls_error k t th RT_EOK Hca) as Hca1.
  unfold rt_mutex_take. apply wp_bind, wp_in_thread_context;
    [apply Hca|rewrite (ca_current _ _ _ Hca); by eapply calls_null|].
  unfold rt_thread_self. wps. simpl. rewrite (ca_current _ _ _ Hca).
  eapply wp_mod_thread; [apply Hca|]. wps. eapply wp_kopt; [exact Hm|]. wps.
  eapply wp_get_thread; [apply lookup_insert_eq|]. wps. simpl.
  destruct (decide (mtx_owner m = t)) as [Ho|Ho].
  { rewrite bool_decide_true by done. unfold put_mutex. wps. specialize (H1 Ho). by destruct k. }
  rewrite (bool_decide_false (mtx_owner m = t)) by done.
  destruct Hstate as [(Hv&_)|(Hv&[oth Hoth]&_)].
  { rewrite bool_decide_true by lia. unfold put_mutex. wps. specialize (H2 Hv Ho). by destruct k. }
  rewrite (bool_decide_false (mtx_value m > 0)) by lia.
  destruct (decide (time = 0)) as [E|E].
  { rewrite bool_decide_true by done. wps. eapply wp_mod_thread; [apply lookup_insert_eq|]. wps.
    simpl. rewrite insert_insert_eq. specialize (H3 Hv Ho E). by destruct k. }
  rewrite bool_decide_false by done. wps.
  assert (threads (k_error RT_EOK) !! mtx_owner m = Some oth) as Hoth1
    by (simpl; by rewrite lookup_insert_ne).
  eapply wp_get_thread; [exact Hoth1|]. cbv beta.
  assert (0 <= th_current_priority th < RT_THREAD_PRIORITY_MAX) as Hp
    by apply (thread_ok 0 k t th (ca_inv _ _ _ Hca) (ca_thread _ _ _ Hca)).
  eapply (wp_boost (mtx_owner m) oth _ (k_error RT_EOK)); [apply Hca1|done|done|].
  intros k0 Hb Hpm. pose proof (calls_boosted _ _ _ _ _ _ _ Hca1 Ho Hoth1 Hb Hp) as Hca0.
  replace (primask k) with (primask k0) by done.
  eapply (wp_block k0 t th0 Hca0 q Logic.I); [by eapply boosted_heads|done|done|].
  intros k' Hg. assert (rt_current_thread k' ≠ t) as Hne by (by destruct Hg as (?&_&_&?)).
  unfold after_schedule. wps. rewrite bool_decide_false by done. wps.
  apply H4; [done..| |done]. exists oth, k0. done.
Qed.

End take.

(** ** Releasing *)

(** The thread [t] gets the priority [p] back. *)
Definition restored (t : Z) (th : rt_thread) (p : Z) (k k0 : kern) : Prop :=
  if bool_decide (p ≠ th_current_priority th) then
    moved 0 t (change_priority p th) (enqueue t p (lof (thread_lists k))) (lof (timer_list k) tt) k k0
  else k0 = k.

Lemma restored_inv t th p (k k0 : kern) : kinv k → restored t th p k k0 → kinv k0.
Proof. unfold restored. intros I. case_bool_decide; [apply mv_inv|by intros ->]. Qed.

Lemma restored_heads t th p (k k0 : kern) q : restored t th p k k0 →
  is_Some (s_lists (thread_lists k) !! q) → is_Some (s_lists (thread_lists k0) !! q).
Proof. unfold restored. case_bool_decide; [intros Hm; apply (mv_heads _ _ _ _ _ _ _ Hm)|by intros ->]. Qed.

Lemma restored_mutexes t th p (k k0 : kern) : restored t th p k k0 → mutexes k0 = mutexes k.
Proof.
  unfold restored. case_bool_decide; [|by intros ->]. intros Hm.
  apply (sr_mutexes _ _ (mv_rest _ _ _ _ _ _ _ Hm)).
Qed.

(** The waiting lists are as before. *)
Lemma restored_waiting t th p (k k0 : kern) q : kinv k → threads k !! t = Some th →
  th_stat th = RT_THREAD_READY → waiting_queue q → restored t th p k k0 →
  lof (thread_lists k0) q = lof (thread_lists k) q.
Proof.
  unfold restored. intros I Ht Hs Hq. case_bool_decide; [|by intros ->]. intros Hm.
  rewrite (mv_lists _ _ _ _ _ _ _ Hm). unfold enqueue. rewrite fn_lookup_insert_ne by (by intros <-).
  by eapply ready_del.
Qed.

(** The other threads are as before. *)
Lemma restored_threads t th p (k k0 : kern) u : restored t th p k k0 → u ≠ t →
  threads k0 !! u = threads k !! u.
Proof.
  unfold restored. case_bool_decide; [|by intros ->]. intros Hm Hu.
  by rewrite (mv_threads _ _ _ _ _ _ _ Hm), lookup_insert_ne.
Qed.

Lemma wp_restore t th p (k : kern) A (f : M A) (Q : A → kern → Prop) : kinv k →
  threads k !! t = Some th → th_stat th = RT_THREAD_READY → 0 <= p < RT_THREAD_PRIORITY_MAX →
  (∀ k0, restored t th p k k0 → primask k0 = primask k → wp f (set_primask 1 k0) Q) →
  wp ((if bool_decide (p ≠ th_current_priority th) then
         rt_thread_control t RT_THREAD_CTRL_CHANGE_PRIORITY p;; mret tt
       else mret tt);; f) (set_primask 1 k) Q.
Proof.
  intros I Ht Hs Hp HQ. unfold restored in HQ. case_bool_decide.
  - wps. eapply (wp_change_priority 0 (set_primask 1 k) t th); [|done|done|].
    { by apply (kinv_at_irrelevant 0 k). }
    intros k0 Hm. rewrite bool_decide_true in Hm by done.
    wps. pose proof (moved_primask _ _ _ _ _ k _ Hm) as Hm'.
    specialize (HQ _ Hm' eq_refl).
    pose proof (sr_primask _ _ (mv_rest _ _ _ _ _ _ _ Hm)) as E. simpl in E.
    replace (set_primask 1 (set_primask (primask k) k0)) with k0 in HQ; [done|].
    destruct k0; simpl in *. by subst.
  - wps. by apply HQ.
Qed.

Section release.
Context (k : kern) (mutex : Z) (m : rt_mutex) (Hm : mutexes k !! mutex = Some m).
Context (Hok : mutex_ok k mutex m) (t : Z) (th : rt_thread) (Hca : calls k t th).

Abbreviation q := (QSuspend (OMutex mutex)).
Abbreviation released := (with_mutex mutex (set_mtx_hold (mtx_hold m - 1) m) k).

(** The mutex is free. *)
Definition mutex_freed (k' : kern) : Prop :=
  ∃ k0, restored t th (mtx_original_priority m) released k0 ∧
        k' = with_mutex mutex (Mutex (mtx_flag m) 1 0xff 0 RT_NULL) k0.

(** The mutex is handed over to the first waiting thread [u]. *)
Definition mutex_handed (u : Z) (k' : kern) : Prop :=
  ∃ uth k0 k1, restored t th (mtx_original_priority m) released k0 ∧ threads k !! u = Some uth ∧
    woken 0 (with_mutex mutex (Mutex (mtx_flag m) 0 (th_current_priority uth) 1 u) k0) u uth k1 ∧
    scheduled k1 k'.

Lemma wp_mutex_release (Q : Z → kern → Prop) :
  (mtx_owner m ≠ t → Q (- RT_ERROR) (with_thread t (set_th_error (- RT_ERROR) th) k)) →
  (mtx_owner m = t → mtx_hold m > 1 → Q RT_EOK released) →
  (mtx_owner m = t → mtx_hold m = 1 → lof (thread_lists k) q = [] →
     ∀ k', mutex_freed k' → Q RT_EOK k') →
  (mtx_owner m = t → mtx_hold m = 1 → ∀ u rest, lof (thread_lists k) q = u :: rest →
     ∀ k', mutex_handed u k' → Q RT_EOK k') →
  wp (rt_mutex_release mutex) k Q.
Proof using All.
  intros H1 H2 H3 H4. destruct Hok as [Hnull Hflag Hhead Hstate Hwait].
  pose proof Hca as [I Hc Ht Hs Hl Hn Ho].
  unfold rt_mutex_release. apply wp_bind, wp_in_thread_context;
    [done|rewrite Hc; by eapply calls_null|].
  unfold rt_thread_self. wps. eapply wp_kopt; [exact Hm|]. simpl. rewrite Hc.
  destruct (decide (t = mtx_owner m)) as [E|E].
  2:{ rewrite bool_decide_true by done. wps.
      specialize (H1 (not_eq_sym E)). by destruct k. }
  rewrite bool_decide_false by tauto. symmetry in E.
  destruct Hstate as [(_&Eo&_)|(Hv&_&Hhold&Hprio)]; [by pose proof (calls_null _ _ _ Hca); congruence|].
  rewrite (u8_small (mtx_hold m - 1)) by (unfold in_u8; lia). unfold put_mutex. wps.
  destruct (decide (mtx_hold m = 1)) as [Eh|Eh].
  2:{ rewrite bool_decide_false by (simpl; lia). wps. specialize (H2 E ltac:(lia)). by destruct k. }
  rewrite bool_decide_true by (simpl; lia). wps.
  eapply wp_get_thread; [simpl; rewrite E; exact Ht|]. simpl. rewrite E.
  assert (kinv released) as I1 by (by apply (kinv_at_irrelevant 0 k)).
  eapply (wp_restore t th _ released); [done|done|done|done|]. intros k0 Hr Hpm.
  pose proof (restored_waiting _ _ _ _ _ q I1 Ht Hs Logic.I Hr) as Eq. simpl in Eq.
  pose proof (restored_heads _ _ _ _ _ q Hr Hhead) as Hh0. pose proof (restored_inv _ _ _ _ _ I1 Hr) as I0.
  wps. eapply wp_kopt; [by apply s_isempty_spec|]. simpl. rewrite Eq.
  rewrite Hv, Eh. change (u16 (0 + 1)) with 1. change (u8 (1 - 1 + 1)) with 1. change (1 - 1) with 0.
  destruct (lof (thread_lists k) q) as [|u rest] eqn:EL.
  { rewrite bool_decide_true by done. wps. apply H3; [done..|]. exists k0. split; [done|].
    replace (primask k) with (primask k0) by done. by destruct k0. }
  rewrite bool_decide_false by done. wps.
  destruct (waiter 0 k I q Logic.I Hhead u) as (uth&Hu&Hus); [rewrite EL; left|].
  assert (threads k0 !! u = Some uth) as Hu0.
  { rewrite (restored_threads _ _ _ _ _ u Hr); [done|]. intros ->.
    assert (uth = th) as -> by congruence. by rewrite Hs in Hus. }
  eapply (wp_first_waiter 0 (set_primask 1 k0)); [by apply (kinv_at_irrelevant 0 k0)|exact Logic.I|done|done|].
  wps. set (k1 := with_mutex mutex (Mutex (mtx_flag m) 0 (th_current_priority uth) 1 u) k0).
  assert (kinv_at 0 k1) as I2 by (by apply (kinv_at_irrelevant 0 k0)).
  eapply (wp_list_resume 0 (set_primask 1 k1)); [by apply (kinv_at_irrelevant 0 k0)|exact Logic.I|done|done|].
  intros uth' k2 Hu' _ Hw. simpl in Hu'. rewrite Hu0 in Hu'. injection Hu' as <-. wps.
  apply (moved_primask _ _ _ _ _ k1) in Hw. change (primask k1) with (primask k0) in Hw. rewrite Hpm in Hw.
  change (primask released) with (primask k) in Hw.
  eapply wp_schedule_any; [apply Hw| |].
  - by eapply (woken_ready 0 k1 I2 q Logic.I Hh0 u uth).
  - intros k' Hk'. wps. eapply H4; [done..|]. by exists uth, k0, (set_primask (primask k) k2).
Qed.

End release.

(** ** The calls *)

(** Whoever waits for a mutex, its owner runs at least at that priority. *)
Lemma mutex_waits_inherits (k : kern) mutex m t th o time k' :
  calls k t th → o ≠ t → mutex_waits k mutex m t th o time k' →
  ∃ oth, threads k' !! o = Some oth ∧ th_current_priority oth <= th_current_priority th.
Proof.
  intros Hca Hne (oth&k0&Ho&Hb&k1&Hbl&Hk'&_).
  assert (0 <= th_current_priority th < RT_THREAD_PRIORITY_MAX) as Hp
    by apply (thread_ok 0 k t th (ca_inv _ _ _ Hca) (ca_thread _ _ _ Hca)).
  assert (threads k' !! o = threads k0 !! o) as ->.
  { rewrite (sc_threads _ _ (scheduled_same _ _ Hk')), (bl_threads _ _ _ _ _ _ _ Hbl).
    by rewrite lookup_insert_ne. }
  unfold boosted in Hb. case_bool_decide as E.
  - rewrite (mv_threads _ _ _ _ _ _ _ Hb), lookup_insert_eq. eexists; split; [done|].
    destruct (change_priority_mask oth _ Hp) as [-> _]. done.
  - subst k0. simpl. rewrite lookup_insert_ne by done. exists oth. split; [done|lia].
Qed.

(** C28: [rt_mutex_take]: the owner takes it once more; a free mutex is acquired with
    the caller's priority noted; a mutex of another thread fails at once if the
    call must not wait, and otherwise its owner inherits the priority of the
    caller if that is higher, and the caller waits. *)
Theorem rt_mutex_take_correct (k : kern) mutex m t th time : mutexes k !! mutex = Some m →
  mutex_ok k mutex m → calls k t th → time < RT_TICK_MAX / 2 →
  ∃ r k', rt_mutex_take mutex time k = Ok r k' ∧
    (mtx_owner m = t → r = Returns RT_EOK ∧
       k' = with_mutex mutex (set_mtx_hold (u8 (mtx_hold m + 1)) m) (with_thread t (set_th_error RT_EOK th) k)) ∧
    (mtx_owner m ≠ t → mtx_value m = 1 → r = Returns RT_EOK ∧
       k' = with_mutex mutex (mutex_acquire t (th_current_priority th) m)
              (with_thread t (set_th_error RT_EOK th) k)) ∧
    (mtx_owner m ≠ t → mtx_value m = 0 → time = 0 → r = Returns (- RT_ETIMEOUT) ∧
       k' = with_thread t (set_th_error (- RT_ETIMEOUT) th) k) ∧
    (mtx_owner m ≠ t → mtx_value m = 0 → time ≠ 0 → r = Waits ∧ rt_current_thread k' ≠ t ∧
       mutex_waits k mutex m t th (mtx_owner m) time k' ∧
       ∃ oth, threads k' !! mtx_owner m = Some oth ∧ th_current_priority oth <= th_current_priority th).
Proof.
  intros Hm Hok Hca Htime. apply wp_run. eapply (wp_mutex_take k mutex m Hm Hok t th Hca); [done|..].
  - intros Ho. split_and!; [done|tauto..].
  - intros Hv Ho. split_and!; [done|done|lia..].
  - intros Hv Ho E. split_and!; [done|lia|done|done].
  - intros Hv Ho E k' Hw Hc. split_and!; [done|lia|done|]. intros _ _ _. split_and!; [done..|].
    by eapply mutex_waits_inherits.
Qed.

Lemma rt_mutex_take_correct_witness :
  let k := demo [Call (CMutexTake the_mutex 0); Call CThreadYield] in
  ∃ k', rt_mutex_take the_mutex 10 k = Ok Waits k' ∧ rt_current_thread k' ≠ thread_b.
Proof.
  intros k. destruct (threads k !! thread_b) as [th|] eqn:E; [|vm_compute in E; discriminate E].
  destruct (rt_mutex_take_correct k the_mutex (Mutex 1 0 5 1 thread_a) thread_b th 10)
    as (r&k'&Hk'&_&_&_&Hw).
  - vm_compute. reflexivity.
  - split; [discriminate|right; reflexivity|vm_compute; eexists; reflexivity|right|intros []; vm_compute; reflexivity].
    split_and!; [reflexivity|vm_compute; eexists; reflexivity|clear; done..].
  - apply calls_b_sound; [vm_compute; reflexivity|exact E].
  - clear. done.
  - destruct Hw as (->&Hc&_); [discriminate|reflexivity|discriminate|].
    exists k'. split; [exact Hk'|exact Hc].
Defined.

(** C29: [rt_mutex_release]: only the owner may; an inner release counts down; the
    last one restores the owner's priority and frees the mutex, or hands it over
    to the first waiting thread, which becomes ready. *)
Theorem rt_mutex_release_correct (k : kern) mutex m t th : mutexes k !! mutex = Some m →
  mutex_ok k mutex m → calls k t th →
  ∃ r k', rt_mutex_release mutex k = Ok r k' ∧
    (mtx_owner m ≠ t → r = - RT_ERROR ∧ k' = with_thread t (set_th_error (- RT_ERROR) th) k) ∧
    (mtx_owner m = t → r = RT_EOK ∧
       (mtx_hold m > 1 → k' = with_mutex mutex (set_mtx_hold (mtx_hold m - 1) m) k) ∧
       (mtx_hold m = 1 → match lof (thread_lists k) (QSuspend (OMutex mutex)) with
          | [] => mutex_freed k mutex m t th k'
          | u :: _ => mutex_handed k mutex m t th u k'
          end)).
Proof.
  intros Hm Hok Hca. apply wp_run. eapply (wp_mutex_release k mutex m Hm Hok t th Hca).
  - intros Ho. split; [done|tauto].
  - intros Ho Hh. split; [tauto|intros _]. split_and!; [done|done|lia].
  - intros Ho Hh El k' Hf. split; [tauto|intros _]. split_and!; [done|lia|]. by rewrite El.
  - intros Ho Hh u rest El k' Hf. split; [tauto|intros _]. split_and!; [done|lia|]. by rewrite El.
Qed.

Lemma rt_mutex_release_correct_witness :
  let k := demo [Call (CMutexTake the_mutex 0); Call CThreadYield; Call (CMutexTake the_mutex (-1))] in
  ∃ k' th, rt_mutex_release the_mutex k = Ok RT_EOK k' ∧
           mutex_handed k the_mutex (Mutex 1 0 5 1 thread_a) thread_a th thread_b k'.
Proof.
  intros k. destruct (threads k !! thread_a) as [th|] eqn:E; [|vm_compute in E; discriminate E].
  destruct (rt_mutex_release_correct k the_mutex (Mutex 1 0 5 1 thread_a) thread_a th)
    as (r&k'&Hk'&_&Hw).
  - vm_compute. reflexivity.
  - assert (mutex_held k (Mutex 1 0 5 1 thread_a)) as Hh.
    { split_and!; [reflexivity|vm_compute; eexists; reflexivity|clear; done..]. }
    split; [discriminate|right; reflexivity|vm_compute; eexists; reflexivity|right; exact Hh|intros _; exact Hh].
  - apply calls_b_sound; [vm_compute; reflexivity|exact E].
  - destruct Hw as (->&_&Hh); [reflexivity|]. specialize (Hh eq_refl).
    replace (lof (thread_lists k) (QSuspend (OMutex the_mutex))) with [thread_b] in Hh
      by (vm_compute; reflexivity).
    exists k', th. split; [exact Hk'|exact Hh].
Defined.
