(* ===== verification/MailProof.v ===== *)
(** * Mailboxes are bounded FIFO queues

    [rt_mb_send_wait] and [rt_mb_recv] on every branch, and the queue of mails
    the circular buffer of a mailbox holds. *)

From S2P Require Import Prelude DList ListStore SeqLemmas KString KState Scheduler ObjectSys Timer ThreadSys Ipc MailBox KernelWp KernelInv System KernelCheck SchedProof TimerProof ThreadProof Clock ClockProof IpcProof SemProof.

(** ** The end of a sending call *)

(** The first thread that waits in [q], if any, is made ready. *)
Definition wakes_first (q : thread_queue) (k k' : kern) : Prop :=
  match lof (thread_lists k) q with
  | [] => k' = k
  | t :: _ => ∃ th k1, threads k !! t = Some th ∧ th_stat th = RT_THREAD_SUSPEND ∧
                       woken 0 k t th k1 ∧ scheduled k1 k'
  end.

Section wake.
Context (k : kern) (q : thread_queue) (I : kinv k) (Hq : waiting_queue q).
Context (Hh : is_Some (s_lists (thread_lists k) !! q)).

Lemma wp_wake_first {A} (r : A) (Q : A → kern → Prop) :
  (∀ k', wakes_first q k k' → Q r k') →
  wp (empty ← kopt (λ k, l_isempty (Hd q) (thread_lists k));
      if (empty : bool) then rt_hw_interrupt_enable (primask k);; mret r
      else rt_ipc_list_resume q;; rt_hw_interrupt_enable (primask k);; rt_schedule;; mret r)
    (set_primask 1 k) Q.
Proof using All.
  intros HQ. unfold wakes_first in HQ. apply wp_bind. eapply wp_kopt; [by apply s_isempty_spec|]. simpl.
  destruct (lof (thread_lists k) q) as [|t rest] eqn:E.
  { rewrite bool_decide_true by done. wps. specialize (HQ k eq_refl). by destruct k. }
  rewrite bool_decide_false by done. wps.
  assert (kinv_at 0 (set_primask 1 k)) as I1 by (by apply (kinv_at_irrelevant 0 k)).
  eapply (wp_list_resume 0 _ I1 q Hq Hh t rest); [done|]. intros th k1 Ht Hs Hw. wps.
  apply (moved_primask _ _ _ _ _ k) in Hw.
  eapply wp_schedule_any; [apply Hw| |].
  - by eapply (woken_ready 0 k I q Hq Hh t th).
  - intros k' Hk'. wps. apply HQ. by exists th, (set_primask (primask k) k1).
Qed.

(** The other waiting threads keep their places. *)
Lemma wakes_first_queue k' : wakes_first q k k' → lof (thread_lists k') q = tail (lof (thread_lists k) q).
Proof using All.
  unfold wakes_first. destruct (lof (thread_lists k) q) as [|t rest] eqn:E; [by intros ->|].
  intros (th&k1&Ht&Hs&Hw&Hk'). rewrite (sc_lists _ _ (scheduled_same _ _ Hk')).
  by eapply (woken_queue 0 k I q Hq Hh).
Qed.

Lemma wakes_first_other y k' : wakes_first q k k' → y ≠ q → (∀ p, y ≠ QReady p) →
  lof (thread_lists k') y = lof (thread_lists k) y.
Proof using All.
  unfold wakes_first. destruct (lof (thread_lists k) q) as [|t rest] eqn:E; [by intros ->|].
  intros (th&k1&Ht&Hs&Hw&Hk') Hy Hp. rewrite (sc_lists _ _ (scheduled_same _ _ Hk')).
  rewrite (mv_lists _ _ _ _ _ _ _ Hw). unfold enqueue.
  rewrite fn_lookup_insert_ne by (intros <-; by eapply Hp).
  eapply (list_del_other _ t q); [apply I| |done]. rewrite E. left.
Qed.

Lemma wakes_first_inv k' : wakes_first q k k' → kinv k'.
Proof using All.
  unfold wakes_first. destruct (lof (thread_lists k) q) as [|t rest]; [by intros ->|].
  intros (th&k1&_&_&Hw&Hk'). eapply scheduled_inv; [apply Hw|done].
Qed.

Lemma wakes_first_heads y k' : wakes_first q k k' →
  is_Some (s_lists (thread_lists k) !! y) → is_Some (s_lists (thread_lists k') !! y).
Proof using All.
  unfold wakes_first. destruct (lof (thread_lists k) q) as [|t rest]; [by intros ->|].
  intros (th&k1&_&_&Hw&Hk'). rewrite (sc_lists _ _ (scheduled_same _ _ Hk')).
  apply (mv_heads _ _ _ _ _ _ _ Hw).
Qed.

Lemma wakes_first_ipc k' : wakes_first q k k' →
  mailboxes k' = mailboxes k ∧ mqueues k' = mqueues k ∧ events k' = events k ∧ sems k' = sems k.
Proof using All.
  unfold wakes_first. destruct (lof (thread_lists k) q) as [|t rest]; [by intros ->|].
  intros (th&k1&_&_&Hw&Hk'). apply scheduled_same in Hk' as Hs. pose proof (mv_rest _ _ _ _ _ _ _ Hw) as Hr.
  rewrite (sc_mailboxes _ _ Hs), (sc_mqueues _ _ Hs), (sc_events _ _ Hs), (sc_sems _ _ Hs).
  by rewrite (sr_mailboxes _ _ Hr), (sr_mqueues _ _ Hr), (sr_events _ _ Hr), (sr_sems _ _ Hr).
Qed.

End wake.

(** ** Waiting *)

(** The tick is read between two steps that do not change it. *)
Lemma wp_read_tick {A B} (c : M A) (b : bool) (f : Z → M B) (k : kern) Q :
  wp c k (λ _ k1, rt_tick k1 = rt_tick k) →
  wp (c;; f (if b then rt_tick k else 0)) k Q →
  wp (c;; td ← (if b then gets rt_tick else mret 0); f td) k Q.
Proof.
  unfold wp, mbind, K_bind. destruct (c k) as [a k1|]; [|done]. intros E.
  destruct b; simpl; [by rewrite E|done].
Qed.

(** The start tick a waiting call remembers. *)
Definition start_tick (time : Z) (k : kern) : Z := if bool_decide (time > 0) then rt_tick k else 0.

(** [t] waits in [q] with its error code cleared, and another thread runs. *)
Definition waits (t : Z) (th : rt_thread) (q : thread_queue) (flag time : Z) (k k' : kern) : Prop :=
  rt_current_thread k' ≠ t ∧ ∃ k1,
    blocked 0 t (set_th_stat RT_THREAD_SUSPEND (set_th_error RT_EOK th)) (waits_in k t th q flag)
      (wait_time time) k k1 ∧ scheduled k1 k'.

Section wait.
Context (k : kern) (t : Z) (th : rt_thread) (Hca : calls k t th).
Context (q : thread_queue) (Hq : waiting_queue q) (Hh : is_Some (s_lists (thread_lists k) !! q)).
Context (flag : Z) (Hflag : ipc_flag flag).

(** The check that a thread calls; the masked kernel and its thread's error are as at the call. *)
Lemma wp_check_context (k0 : kern) Q : rt_interrupt_nest k0 = rt_interrupt_nest k →
  rt_current_thread k0 = rt_current_thread k → Q tt k0 → wp RT_DEBUG_IN_THREAD_CONTEXT k0 Q.
Proof using Hca.
  intros E1 E2. apply wp_in_thread_context; [by rewrite E1; apply Hca|].
  rewrite E2, (ca_current _ _ _ Hca). by eapply calls_null.
Qed.

Lemma wp_mb_wait time (Q : Z → kern → Prop) : time < RT_TICK_MAX / 2 →
  (∀ k', waits t th q flag time k k' → Q (start_tick time k) k') →
  wp (mb_wait q t flag time (primask k))
    (set_threads (<[t := set_th_error RT_EOK th]> (threads k)) (set_primask 1 k)) Q.
Proof using All.
  intros Htime HQ. pose proof (calls_error k t th RT_EOK Hca) as Hca1. unfold mb_wait.
  set (k0 := set_threads _ (set_primask 1 k)).
  apply (wp_read_tick _ (bool_decide (time > 0)) (λ td, start_thread_timer t time;; _)).
  - pose proof (calls_primask _ _ _ Hca1) as [I1 _ Ht1 Hs1 _ _ _].
    eapply (wp_list_suspend 0 k0 t _ I1 Ht1 Hs1 q Hq Hh flag); [done|].
    intros k1 Hm. by rewrite (sr_tick _ _ (mv_rest _ _ _ _ _ _ _ Hm)).
  - eapply (wp_block _ t _ Hca1 q Hq Hh flag Hflag time); [done|].
    intros k' Hg. wps. apply (gives_up_change t th) in Hg as (k1&Hb&Hk&Hne); [|apply Hca|done].
    apply HQ. split; [done|]. by exists k1.
Qed.

Lemma waits_lists time k' y : waits t th q flag time k k' →
  lof (thread_lists k') y = waits_in k t th q flag y.
Proof using All.
  intros (_&k1&Hb&Hk'). rewrite (sc_lists _ _ (scheduled_same _ _ Hk')). apply Hb.
Qed.

Lemma waits_ipc time k' : waits t th q flag time k k' →
  mailboxes k' = mailboxes k ∧ mqueues k' = mqueues k ∧ events k' = events k ∧ kinv k' ∧
  (∀ y, is_Some (s_lists (thread_lists k) !! y) → is_Some (s_lists (thread_lists k') !! y)).
Proof using All.
  intros (_&k1&Hb&Hk'). apply scheduled_same in Hk' as Hs. pose proof (bl_rest _ _ _ _ _ _ _ Hb) as Hr.
  rewrite (sc_mailboxes _ _ Hs), (sc_mqueues _ _ Hs), (sc_events _ _ Hs), (sc_lists _ _ Hs).
  rewrite (sr_mailboxes _ _ Hr), (sr_mqueues _ _ Hr), (sr_events _ _ Hr). split_and!; try done.
  - eapply scheduled_inv; [apply Hb|done].
  - apply (bl_heads _ _ _ _ _ _ _ Hb).
Qed.

End wait.

(** ** The buffer *)

(** Shape of the circular buffer. *)
Record mb_shape (b : rt_mailbox) : Prop := {
  ms_size : 0 < mb_size b < 2 ^ 16;
  ms_pool : zlen (mb_msg_pool b) = mb_size b;
  ms_entry : 0 <= mb_entry b <= mb_size b;
  ms_out : 0 <= mb_out_offset b < mb_size b;
  ms_in : mb_in_offset b = (mb_out_offset b + mb_entry b) mod mb_size b;
}.

(** The mails, the oldest first. *)
Definition mails (b : rt_mailbox) : list Z :=
  (λ i, default 0 (arr_get ((mb_out_offset b + Z.of_nat i) mod mb_size b) (mb_msg_pool b)))
    <$> seq 0 (Z.to_nat (mb_entry b)).

Lemma zlen_mails b : mb_shape b → zlen (mails b) = mb_entry b.
Proof. intros []. unfold zlen, mails. rewrite length_fmap, length_seq. lia. Qed.

Definition mb_stored (v : Z) (pool : list Z) (b : rt_mailbox) : rt_mailbox :=
  let in_offset := u16 (mb_in_offset b + 1) in
  MailBox (mb_flag b) pool (mb_size b) (u16 (mb_entry b + 1))
    (if bool_decide (in_offset >= mb_size b) then 0 else in_offset) (mb_out_offset b).

Definition mb_taken (b : rt_mailbox) : rt_mailbox :=
  let out_offset := u16 (mb_out_offset b + 1) in
  MailBox (mb_flag b) (mb_msg_pool b) (mb_size b) (u16 (mb_entry b - 1)) (mb_in_offset b)
    (if bool_decide (out_offset >= mb_size b) then 0 else out_offset).

Lemma wrap_mod a n : 0 <= a < n → n < 2 ^ 16 →
  (if bool_decide (u16 (a + 1) >= n) then 0 else u16 (a + 1)) = (a + 1) mod n.
Proof.
  intros. rewrite u16_small by (unfold in_u16; lia). case_bool_decide.
  - replace (a + 1) with n by lia. by rewrite Z.mod_same by lia.
  - by rewrite Z.mod_small by lia.
Qed.

Lemma arr_get_set {A} i j (v : A) l l' : arr_set i v l = Some l' → 0 <= j →
  arr_get j l' = if bool_decide (j = i) then Some v else arr_get j l.
Proof.
  unfold arr_set, arr_get, zlen. case_bool_decide as Hi; [|done]. intros [= <-] Hj.
  rewrite !bool_decide_true by done. case_bool_decide as E.
  - subst. by rewrite list_lookup_insert_eq by lia.
  - rewrite list_lookup_insert_ne by lia. done.
Qed.

(** Two offsets less than the size apart are different. *)
Lemma mod_ne a i j n : (a + i) mod n = (a + j) mod n → 0 <= i < j → j < n → False.
Proof.
  intros E ??. pose proof (Z.div_mod (a + i) n ltac:(lia)) as H1.
  pose proof (Z.div_mod (a + j) n ltac:(lia)) as H2.
  rewrite E in H1. assert (j - i = n * ((a + j) / n) - n * ((a + i) / n)) as H3 by lia.
  rewrite <-Z.mul_sub_distr_l in H3. revert H3. generalize ((a + j) / n - (a + i) / n). intros q H3.
  clear H1 H2 E. assert (q <= 0 ∨ 1 <= q) as [] by lia; nia.
Qed.

Lemma mails_stored v b : mb_shape b → mb_entry b < mb_size b →
  ∃ pool, arr_set (mb_in_offset b) v (mb_msg_pool b) = Some pool ∧
    mb_shape (mb_stored v pool b) ∧ mails (mb_stored v pool b) = mails b ++ [v].
Proof.
  intros [Hsz Hp He Ho Hin] Hlt.
  pose proof (Z.mod_pos_bound (mb_out_offset b + mb_entry b) (mb_size b)) as Hmod.
  exists (<[Z.to_nat (mb_in_offset b) := v]> (mb_msg_pool b)).
  assert (arr_set (mb_in_offset b) v (mb_msg_pool b) =
    Some (<[Z.to_nat (mb_in_offset b):=v]> (mb_msg_pool b))) as Hset
    by (unfold arr_set; rewrite bool_decide_true; [done|lia]).
  assert (u16 (mb_entry b + 1) = mb_entry b + 1) as Eu by (apply u16_small; unfold in_u16; lia).
  split; [done|]. split.
  - split; simpl; rewrite ?Eu; try done; try lia.
    + unfold zlen in *. by rewrite length_insert.
    + rewrite wrap_mod by lia. rewrite Hin, Zplus_mod_idemp_l. f_equal. lia.
  - unfold mails. simpl. rewrite Eu. replace (Z.to_nat (mb_entry b + 1)) with (S (Z.to_nat (mb_entry b))) by lia.
    rewrite seq_S, fmap_app. f_equal.
    + apply list_fmap_ext. intros i j [-> Hi]%lookup_seq. f_equal.
      erewrite arr_get_set; [|done|apply Z.mod_pos_bound; lia]. rewrite bool_decide_false; [done|].
      rewrite Hin. intros E. apply (mod_ne _ _ _ _ E); lia.
    + simpl. f_equal. erewrite arr_get_set; [|done|apply Z.mod_pos_bound; lia].
      rewrite bool_decide_true; [done|]. rewrite Hin. f_equal. lia.
Qed.

Lemma mails_taken b : mb_shape b → 0 < mb_entry b →
  ∃ v, arr_get (mb_out_offset b) (mb_msg_pool b) = Some v ∧
    mb_shape (mb_taken b) ∧ mails b = v :: mails (mb_taken b).
Proof.
  intros [Hsz Hp He Ho Hin] Hlt. destruct (arr_get_ok (mb_out_offset b) (mb_msg_pool b)) as (v&Hv&_); [lia|].
  assert (u16 (mb_entry b - 1) = mb_entry b - 1) as Eu by (apply u16_small; unfold in_u16; lia).
  exists v. split; [done|]. split.
  - split; simpl; rewrite ?Eu; try done; try lia.
    + rewrite wrap_mod by lia. apply Z.mod_pos_bound. lia.
    + rewrite wrap_mod by lia. rewrite Hin, Zplus_mod_idemp_l. f_equal. lia.
  - unfold mails. simpl. rewrite Eu, wrap_mod by lia.
    replace (Z.to_nat (mb_entry b)) with (S (Z.to_nat (mb_entry b - 1))) by lia. simpl. f_equal.
    + rewrite Z.add_0_r, Z.mod_small by lia. by rewrite Hv.
    + rewrite <-fmap_S_seq, <-list_fmap_compose. apply list_fmap_ext. intros i j _. simpl. f_equal.
      f_equal. rewrite Zplus_mod_idemp_l. f_equal. lia.
Qed.

(** ** The calls *)

Record mb_ok (k : kern) (mb : Z) (b : rt_mailbox) : Prop := {
  mo_null : mb ≠ RT_NULL;
  mo_flag : ipc_flag (mb_flag b);
  mo_shape : mb_shape b;
  mo_receivers : is_Some (s_lists (thread_lists k) !! QSuspend (OMailBox mb));
  mo_senders : is_Some (s_lists (thread_lists k) !! QSender mb);
}.

Definition with_mb (mb : Z) (b : rt_mailbox) (k : kern) : kern :=
  set_mailboxes (<[mb := b]> (mailboxes k)) k.

Section mb.
Context (k : kern) (mb : Z) (b : rt_mailbox).
Context (Hmb : mailboxes k !! mb = Some b) (Hok : mb_ok k mb b).
Context (t : Z) (th : rt_thread) (Hca : calls k t th) (timeout : Z).
Context (Htime : timeout < RT_TICK_MAX / 2).

#[local] Lemma kinv_with b' : kinv (with_mb mb b' k).
Proof using All. apply (kinv_at_irrelevant 0 k); try done. apply Hca. Qed.

Lemma wp_mb_send v (Q : mb_outcome → kern → Prop) :
  (mb_entry b < mb_size b → ∀ b' k', mb_shape b' → mb_flag b' = mb_flag b → mb_size b' = mb_size b →
     mails b' = mails b ++ [v] →
     wakes_first (QSuspend (OMailBox mb)) (with_mb mb b' k) k' → Q (MbReturns RT_EOK None) k') →
  (mb_entry b = mb_size b → timeout = 0 → Q (MbReturns (- RT_EFULL) None) k) →
  (mb_entry b = mb_size b → timeout ≠ 0 → ∀ k',
     waits t th (QSender mb) (mb_flag b) timeout k k' → Q (MbWaits timeout (start_tick timeout k)) k') →
  wp (rt_mb_send_wait mb v timeout) k Q.
Proof using All.
  intros H1 H2 H3. pose proof Hok as [Hnull Hflag Hshape Hrecv Hsend]. pose proof (ms_entry _ Hshape).
  unfold rt_mb_send_wait, rt_thread_self. wps. rewrite (ca_current _ _ _ Hca). unfold get_mb.
  eapply wp_kopt; [exact Hmb|].
  destruct (decide (mb_entry b = mb_size b ∧ timeout = 0)) as [[E E0]|Hn].
  { rewrite bool_decide_true by done. wps. specialize (H2 E E0). by destruct k. }
  rewrite bool_decide_false by done. cbn [mb_send_loop]. unfold get_mb. apply wp_bind.
  eapply wp_kopt; [exact Hmb|]. destruct (decide (mb_entry b = mb_size b)) as [E|E].
  - rewrite bool_decide_true by done. apply wp_bind. eapply wp_mod_thread; [apply Hca|].
    rewrite bool_decide_false by tauto. apply wp_bind.
    apply (wp_check_context k t th Hca); [done..|]. apply wp_bind.
    eapply (wp_mb_wait k t th Hca (QSender mb)); [done..|]. intros k' Hw. wps.
    rewrite bool_decide_false by apply Hw. wps. by apply H3; [|tauto|].
  - rewrite bool_decide_false by done. unfold mb_send_mail, get_mb, put_mb, kopt_. apply wp_bind.
    eapply wp_kopt; [exact Hmb|]. destruct (mails_stored v b Hshape) as (pool&Es&Hsh&Em); [lia|].
    apply wp_bind. eapply wp_kopt; [exact Es|]. cbv zeta. apply wp_bind, wp_kset.
    eapply (wp_wake_first (with_mb mb (mb_stored v pool b) k) (QSuspend (OMailBox mb)));
      [apply kinv_with|done|done|]. intros k' Hw. eapply H1; [lia|done|done|done|done|done].
Qed.

Lemma wp_mb_recv (Q : mb_outcome → kern → Prop) :
  (0 < mb_entry b → ∀ v b' k', mb_shape b' → mb_flag b' = mb_flag b → mb_size b' = mb_size b →
     mails b = v :: mails b' →
     wakes_first (QSender mb) (with_mb mb b' k) k' → Q (MbReturns RT_EOK (Some v)) k') →
  (mb_entry b = 0 → timeout = 0 → Q (MbReturns (- RT_ETIMEOUT) None) k) →
  (mb_entry b = 0 → timeout ≠ 0 → ∀ k',
     waits t th (QSuspend (OMailBox mb)) (mb_flag b) timeout k k' →
     Q (MbWaits timeout (start_tick timeout k)) k') →
  wp (rt_mb_recv mb timeout) k Q.
Proof using All.
  intros H1 H2 H3. pose proof Hok as [Hnull Hflag Hshape Hrecv Hsend]. pose proof (ms_entry _ Hshape).
  unfold rt_mb_recv, rt_thread_self. wps. rewrite (ca_current _ _ _ Hca). unfold get_mb.
  eapply wp_kopt; [exact Hmb|].
  destruct (decide (mb_entry b = 0 ∧ timeout = 0)) as [[E E0]|Hn].
  { rewrite bool_decide_true by done. wps. specialize (H2 E E0). by destruct k. }
  rewrite bool_decide_false by done. cbn [mb_recv_loop]. unfold get_mb. apply wp_bind.
  eapply wp_kopt; [exact Hmb|]. destruct (decide (mb_entry b = 0)) as [E|E].
  - rewrite bool_decide_true by done. apply wp_bind. eapply wp_mod_thread; [apply Hca|].
    rewrite bool_decide_false by tauto. apply wp_bind.
    apply (wp_check_context k t th Hca); [done..|]. apply wp_bind.
    eapply (wp_mb_wait k t th Hca (QSuspend (OMailBox mb))); [done..|]. intros k' Hw. wps.
    rewrite bool_decide_false by apply Hw. wps. by apply H3; [|tauto|].
  - rewrite bool_decide_false by done. unfold mb_recv_mail, get_mb, put_mb, kopt_. apply wp_bind.
    eapply wp_kopt; [exact Hmb|]. destruct (mails_taken b Hshape) as (v&Eg&Hsh&Em); [lia|].
    apply wp_bind. eapply wp_kopt; [exact Eg|]. cbv zeta. apply wp_bind, wp_kset.
    eapply (wp_wake_first (with_mb mb (mb_taken b) k) (QSender mb));
      [apply kinv_with|done|done|]. intros k' Hw. eapply H1; [lia|done|done|done|done|done].
Qed.

End mb.

(** ** A mailbox as a bounded queue of mails with two queues of threads *)

Record mb_view : Type := MbView { v_mails : list Z; v_receivers : list Z; v_senders : list Z }.

Definition view_mb (k : kern) (mb : Z) (b : rt_mailbox) : mb_view :=
  MbView (mails b) (lof (thread_lists k) (QSuspend (OMailBox mb))) (lof (thread_lists k) (QSender mb)).

(** The mailbox at [mb] of [size] mails is in order and shows [v]. *)
Definition mb_shows (mb size : Z) (k : kern) (v : mb_view) : Prop :=
  kinv k ∧ ∃ b, mailboxes k !! mb = Some b ∧ mb_ok k mb b ∧ mb_size b = size ∧ view_mb k mb b = v.

(** Sending and receiving; [insert] puts the calling thread at its place. *)
Definition spec_send (size : Z) (insert : list Z → list Z) (value : Z) (wait : bool) (v : mb_view)
    : mb_view :=
  if bool_decide (zlen (v_mails v) < size)
  then MbView (v_mails v ++ [value]) (tail (v_receivers v)) (v_senders v)
  else if wait then MbView (v_mails v) (v_receivers v) (insert (v_senders v)) else v.

Definition spec_recv (insert : list Z → list Z) (wait : bool) (v : mb_view) : mb_view :=
  match v_mails v with
  | _ :: ms => MbView ms (v_receivers v) (tail (v_senders v))
  | [] => if wait then MbView [] (insert (v_receivers v)) (v_senders v) else v
  end.

Lemma not_waiting (k : kern) t th y : calls k t th → waiting_queue y →
  list_del t (lof (thread_lists k)) y = lof (thread_lists k) y.
Proof.
  intros [I _ Ht Hs _ _ _] Hy. by eapply ready_del.
Qed.

Section shows.
Context (k : kern) (mb : Z) (b : rt_mailbox).
Context (Hmb : mailboxes k !! mb = Some b) (Hok : mb_ok k mb b).

(** A receiver or sender is woken after the buffer became [b']. *)
#[local] Lemma shows_woken q b' (k' : kern) : kinv k → mb_shape b' → mb_flag b' = mb_flag b →
  q = QSuspend (OMailBox mb) ∨ q = QSender mb →
  wakes_first q (with_mb mb b' k) k' →
  mb_shows mb (mb_size b') k' (MbView (mails b')
    (if bool_decide (q = QSender mb) then lof (thread_lists k) (QSuspend (OMailBox mb))
     else tail (lof (thread_lists k) (QSuspend (OMailBox mb))))
    (if bool_decide (q = QSender mb) then tail (lof (thread_lists k) (QSender mb))
     else lof (thread_lists k) (QSender mb))).
Proof using All.
  intros I Hsh Hf Hq Hw. pose proof Hok as [Hnull Hflag Hshape Hrecv Hsend].
  assert (kinv (with_mb mb b' k)) as I' by (by apply (kinv_at_irrelevant 0 k)).
  assert (waiting_queue q) as Hwq by (by destruct Hq as [-> | ->]).
  assert (is_Some (s_lists (thread_lists (with_mb mb b' k)) !! q)) as Hh by (by destruct Hq as [-> | ->]).
  split; [by eapply wakes_first_inv|]. exists b'.
  destruct (wakes_first_ipc _ _ I' Hwq Hh _ Hw) as (->&_). simpl. rewrite lookup_insert_eq.
  pose proof (wakes_first_queue _ _ I' Hwq Hh _ Hw) as Eq. simpl in Eq.
  pose proof (λ y, wakes_first_other _ _ I' Hwq Hh y _ Hw) as Eo. simpl in Eo.
  split_and!; [done| |done|].
  - split; try done; [by rewrite Hf|..]; by eapply (wakes_first_heads _ _ I' Hwq Hh).
  - unfold view_mb. destruct Hq as [-> | ->].
    + rewrite !bool_decide_false by done. by rewrite Eq, Eo.
    + rewrite !bool_decide_true by done. by rewrite Eq, Eo.
Qed.

(** The caller waits in [q]. *)
#[local] Lemma shows_waits t th time q (k' : kern) : calls k t th →
  q = QSuspend (OMailBox mb) ∨ q = QSender mb → waits t th q (mb_flag b) time k k' →
  let insert := wait_insert (mb_flag b) (threads k) t (th_current_priority th) in
  mb_shows mb (mb_size b) k' (MbView (mails b)
    (if bool_decide (q = QSender mb) then lof (thread_lists k) (QSuspend (OMailBox mb))
     else insert (lof (thread_lists k) (QSuspend (OMailBox mb))))
    (if bool_decide (q = QSender mb) then insert (lof (thread_lists k) (QSender mb))
     else lof (thread_lists k) (QSender mb))).
Proof using All.
  intros Hca Hq Hw insert. pose proof Hok as [Hnull Hflag Hshape Hrecv Hsend].
  assert (waiting_queue q) as Hwq by (by destruct Hq as [-> | ->]).
  assert (is_Some (s_lists (thread_lists k) !! q)) as Hh by (by destruct Hq as [-> | ->]).
  destruct (waits_ipc k t th Hca q Hwq Hh _ Hflag time k' Hw) as (E&_&_&I'&Hhd).
  split; [done|]. exists b. rewrite E. split_and!; [done| |done|].
  - split; try done; by apply Hhd.
  - pose proof (λ y, waits_lists k t th Hca q Hwq Hh _ Hflag time k' y Hw) as El.
    unfold view_mb. rewrite !El. unfold waits_in.
    destruct Hq as [-> | ->]; [rewrite !bool_decide_false by done|rewrite !bool_decide_true by done].
    + rewrite fn_lookup_insert, fn_lookup_insert_ne by done. by rewrite (not_waiting k t th).
    + rewrite fn_lookup_insert, fn_lookup_insert_ne by done. by rewrite (not_waiting k t th).
Qed.

Lemma view_same : kinv k → mb_shows mb (mb_size b) k (view_mb k mb b).
Proof using All. intros I. split; [done|]. by exists b. Qed.

End shows.

(** C11: A mailbox is a bounded FIFO queue: sending appends the mail when there is
    room and wakes the first waiting receiver, receiving takes the oldest mail
    and wakes the first waiting sender; on a full or empty mailbox the call
    fails at once when it must not wait and otherwise the caller waits at its
    place among the senders or receivers.  Nothing else of the mailbox changes,
    and the kernel's invariant is kept. *)
Theorem mailbox_refines_fifo (k : kern) mb b t th timeout : mailboxes k !! mb = Some b →
  mb_ok k mb b → calls k t th → timeout < RT_TICK_MAX / 2 →
  let insert := wait_insert (mb_flag b) (threads k) t (th_current_priority th) in
  let wait := bool_decide (timeout ≠ 0) in
  (∀ value, ∃ k', rt_mb_send_wait mb value timeout k = Ok
       (if bool_decide (zlen (mails b) < mb_size b) then MbReturns RT_EOK None
        else if wait then MbWaits timeout (start_tick timeout k) else MbReturns (- RT_EFULL) None) k' ∧
     mb_shows mb (mb_size b) k' (spec_send (mb_size b) insert value wait (view_mb k mb b))) ∧
  (∃ k', rt_mb_recv mb timeout k = Ok
       (match mails b with
        | v :: _ => MbReturns RT_EOK (Some v)
        | [] => if wait then MbWaits timeout (start_tick timeout k) else MbReturns (- RT_ETIMEOUT) None
        end) k' ∧
     mb_shows mb (mb_size b) k' (spec_recv insert wait (view_mb k mb b))).
Proof.
  intros Hmb Hok Hca Ht insert wait. pose proof (mo_shape _ _ _ Hok) as Hsh.
  pose proof (ms_entry _ Hsh). pose proof (zlen_mails b Hsh) as El. split.
  - intros value. apply wp_returns. unfold spec_send, view_mb, wait. simpl. rewrite El.
    eapply (wp_mb_send k mb b Hmb Hok t th Hca timeout Ht).
    + intros Hlt b' k' Hsh' Hf Hs Em Hw. rewrite bool_decide_true by lia. split; [done|].
      rewrite <-Hs, <-Em. eapply (shows_woken k mb b Hmb Hok _ b' k') in Hw; [|apply Hca|done..|by left].
      by rewrite !(bool_decide_false (_ = QSender mb)) in Hw.
    + intros E E0. rewrite bool_decide_false by lia. rewrite bool_decide_false by tauto.
      split; [done|]. by apply view_same; [..|apply Hca].
    + intros E E0 k' Hw. rewrite bool_decide_false by lia. rewrite bool_decide_true by done. split; [done|].
      eapply (shows_waits k mb b Hmb Hok) in Hw; [|done|by right].
      by rewrite !(bool_decide_true (_ = QSender mb)) in Hw.
  - apply wp_returns. unfold spec_recv, view_mb, wait. simpl.
    eapply (wp_mb_recv k mb b Hmb Hok t th Hca timeout Ht).
    + intros Hlt v b' k' Hsh' Hf Hs Em Hw. rewrite Em. split; [done|].
      rewrite <-Hs. eapply (shows_woken k mb b Hmb Hok _ b' k') in Hw; [|apply Hca|done..|by right].
      by rewrite !(bool_decide_true (_ = QSender mb)) in Hw.
    + intros E E0. assert (mails b = []) as Em by (unfold mails; by rewrite E).
      rewrite Em, bool_decide_false by tauto. split; [done|]. rewrite <-Em.
      by apply view_same; [..|apply Hca].
    + intros E E0 k' Hw. assert (mails b = []) as Em by (unfold mails; by rewrite E).
      rewrite Em, bool_decide_true by done. split; [done|].
      eapply (shows_waits k mb b Hmb Hok) in Hw; [|done|by left].
      rewrite !(bool_decide_false (_ = QSender mb)) in Hw by done. by rewrite <-Em at 1.
Qed.

Definition demo_mailbox : rt_mailbox := MailBox 0 [0; 0] 2 0 0 0.

Lemma demo_mb_ok : mb_ok (demo []) the_mailbox demo_mailbox.
Proof.
  split; [discriminate|left; reflexivity| |vm_compute; eexists; reflexivity..].
  split; simpl; [lia|reflexivity|lia|lia|reflexivity].
Qed.

Lemma mailbox_refines_fifo_witness :
  ∃ k', rt_mb_send_wait the_mailbox 7 0 (demo []) = Ok (MbReturns RT_EOK None) k' ∧
        mb_shows the_mailbox 2 k' (MbView [7] [] []).
Proof.
  destruct (threads (demo []) !! thread_a) as [th|] eqn:E; [|vm_compute in E; discriminate E].
  destruct (mailbox_refines_fifo (demo []) the_mailbox demo_mailbox thread_a th 0)
    as [Hs _].
  - vm_compute. reflexivity.
  - exact demo_mb_ok.
  - apply calls_b_sound; [vm_compute; reflexivity|exact E].
  - reflexivity.
  - destruct (Hs 7) as (k'&Hk'&Hv). exists k'. split; [exact Hk'|].
    replace (view_mb (demo []) the_mailbox demo_mailbox) with (MbView [] [] []) in Hv
      by (vm_compute; reflexivity).
    exact Hv.
Defined.
