(* ===== verification/QueueProof.v ===== *)
(** * Message queues are bounded FIFO queues

    The messages of a queue are linked through the memory of its pool; sending,
    urgent sending and receiving implement a bounded queue of messages. *)

From S2P Require Import Prelude DList ListStore SeqLemmas KString KState Scheduler ObjectSys Timer ThreadSys Ipc MailBox KernelWp KernelInv System KernelCheck SchedProof TimerProof ThreadProof Clock ClockProof IpcProof SemProof MailProof.

(** ** Linked messages *)

(** The messages [l] are linked from [a] on, the last to null. *)
Fixpoint linked (next : gmap Z Z) (a : Z) (l : list Z) : Prop :=
  match l with
  | [] => a = RT_NULL
  | x :: l => a = x ∧ x ≠ RT_NULL ∧ ∃ b, next !! x = Some b ∧ linked next b l
  end.

(** At most [n] messages from [a] on. *)
Fixpoint follow (n : nat) (next : gmap Z Z) (a : Z) : list Z :=
  match n with
  | O => []
  | S n => if bool_decide (a = RT_NULL) then [] else a :: follow n next (default RT_NULL (next !! a))
  end.

Lemma follow_linked next a l : linked next a l → follow (length l) next a = l.
Proof.
  revert a. induction l as [|x l IH]; intros a; simpl; [done|]. intros (->&Hx&b&Hb&Hl).
  rewrite bool_decide_false by done. rewrite Hb. simpl. f_equal. auto.
Qed.

Lemma linked_insert next a l x b : x ∉ l → linked next a l → linked (<[x := b]> next) a l.
Proof.
  revert a. induction l as [|y l IH]; intros a Hx; simpl; [done|]. intros (->&Hy&c&Hc&Hl).
  split_and!; [done..|]. exists c. rewrite lookup_insert_ne by set_solver.
  split; [done|]. apply IH; [set_solver|done].
Qed.

Lemma linked_null next a l : linked next a l → a = RT_NULL ↔ l = [].
Proof. destruct l; simpl; [done|]. intros (->&?&_). naive_solver. Qed.

(** A message is linked behind the last one. *)
Lemma linked_snoc next a l y x : NoDup (l ++ [y]) → x ∉ l ++ [y] → x ≠ RT_NULL →
  next !! x = Some RT_NULL → linked next a (l ++ [y]) →
  linked (<[y := x]> next) a ((l ++ [y]) ++ [x]).
Proof.
  intros Hnd Hx Hx0 Hn. revert a. induction l as [|z l IH]; intros a; simpl.
  - intros (->&Hy&b&Hb&->). split_and!; [done..|]. exists x. rewrite lookup_insert_eq.
    split; [done|]. split_and!; [done..|]. exists RT_NULL. rewrite lookup_insert_ne by set_solver. done.
  - intros (->&Hz&b&Hb&Hl). apply NoDup_cons in Hnd as [Hz' Hnd].
    split_and!; [done..|]. exists b. rewrite lookup_insert_ne by set_solver. split; [done|].
    apply IH; [done|set_solver|done].
Qed.

(** ** The queue *)

Record mq_shape (q : rt_messagequeue) (ms fs : list Z) : Prop := {
  qs_messages : linked (mq_next q) (mq_head q) ms;
  qs_free : linked (mq_next q) (mq_free q) fs;
  qs_nodup : NoDup (ms ++ fs);
  qs_tail : mq_tail q = default RT_NULL (last ms);
  qs_entry : mq_entry q = zlen ms;
  qs_max : zlen ms + zlen fs = mq_max_msgs q;
  qs_range : mq_max_msgs q < 2 ^ 16;
  qs_size : 0 <= mq_msg_size q;
  qs_data x : x ∈ ms ++ fs → ∃ d, mq_data q !! x = Some d ∧ zlen d = mq_msg_size q;
}.

(** The contents of the queued messages, the oldest first. *)
Definition messages (q : rt_messagequeue) : list (list Z) :=
  (λ x, default [] (mq_data q !! x)) <$> follow (Z.to_nat (mq_entry q)) (mq_next q) (mq_head q).

Lemma messages_shape q ms fs : mq_shape q ms fs →
  messages q = (λ x, default [] (mq_data q !! x)) <$> ms.
Proof.
  intros [Hm _ _ _ He _ _ _ _]. unfold messages. rewrite He. unfold zlen. rewrite Nat2Z.id.
  by rewrite follow_linked.
Qed.

Lemma zlen_messages q ms fs : mq_shape q ms fs → zlen (messages q) = mq_entry q.
Proof. intros Hs. rewrite (messages_shape _ _ _ Hs), (qs_entry _ _ _ Hs). unfold zlen. by rewrite length_fmap. Qed.

(** The contents of a message slot after [size] bytes of [buffer] were stored. *)
Definition filled (buffer : list Z) (size msg_size : Z) (d : list Z) : Prop :=
  zlen d = msg_size ∧ take (Z.to_nat size) d = take (Z.to_nat size) buffer.

Lemma memcpy_filled old buffer size : 0 <= size <= zlen old → size <= zlen buffer →
  ∃ d, memcpy old 0 buffer 0 size = Some d ∧ filled buffer size (zlen old) d.
Proof.
  intros Hs Hb. unfold memcpy. rewrite arr_read_ok by lia. simpl.
  assert (zlen (seg 0 (0 + size) buffer) = size) as El by (rewrite zlen_seg; lia).
  destruct (arr_write_spec 0 (seg 0 (0 + size) buffer) old) as (d&E&Hl&Hsg&_); [lia|lia|].
  exists d. split; [done|]. split; [done|]. rewrite El in Hsg. unfold seg in Hsg. simpl in Hsg.
  by rewrite !Z.sub_0_r in Hsg.
Qed.

(** The message [x] with the contents [d] is in neither list. *)
Record mq_open (q : rt_messagequeue) (ms : list Z) (x : Z) (fs : list Z) (d : list Z) : Prop := {
  qo_messages : linked (mq_next q) (mq_head q) ms;
  qo_free : linked (mq_next q) (mq_free q) fs;
  qo_nodup : NoDup (ms ++ x :: fs);
  qo_null : x ≠ RT_NULL;
  qo_tail : mq_tail q = default RT_NULL (last ms);
  qo_entry : mq_entry q = zlen ms;
  qo_max : zlen ms + zlen fs + 1 = mq_max_msgs q;
  qo_range : mq_max_msgs q < 2 ^ 16;
  qo_size : 0 <= mq_msg_size q;
  qo_here : mq_data q !! x = Some d ∧ zlen d = mq_msg_size q;
  qo_data y : y ∈ ms ++ fs → ∃ e, mq_data q !! y = Some e ∧ zlen e = mq_msg_size q;
}.

(** The last message is not null. *)
Lemma linked_last next a l y : linked next a (l ++ [y]) → y ≠ RT_NULL.
Proof.
  revert a. induction l as [|z l IH]; intros a; simpl; [by intros (->&?&_)|].
  intros (_&_&b&_&Hl). by eapply IH.
Qed.

Section open.
Context (q : rt_messagequeue) (ms : list Z) (x : Z) (fs : list Z) (d : list Z).
Context (Ho : mq_open q ms x fs d).

#[local] Lemma open_fresh : (x ∉ ms) ∧ (x ∉ fs) ∧ NoDup ms ∧ NoDup fs ∧ NoDup (ms ++ fs).
Proof using All.
  pose proof (qo_nodup _ _ _ _ _ Ho) as Hnd. rewrite <-Permutation_middle in Hnd.
  apply NoDup_cons in Hnd as [Hx Hnd]. apply NoDup_app in Hnd as Hnd'. set_solver.
Qed.

#[local] Lemma open_entry : u16 (mq_entry q + 1) = zlen ms + 1.
Proof using All.
  destruct Ho. rewrite qo_entry0. apply u16_small. pose proof (zlen_nonneg ms).
  pose proof (zlen_nonneg fs). unfold in_u16. lia.
Qed.

#[local] Lemma open_data y : y ∈ (x :: ms ++ fs) → ∃ e, mq_data q !! y = Some e ∧ zlen e = mq_msg_size q.
Proof using All.
  intros [->|Hy]%elem_of_cons; [exists d; apply Ho|by apply (qo_data _ _ _ _ _ Ho)].
Qed.

#[local] Lemma prepend_eq : mq_prepend x q =
  MessageQueue (mq_flag q) (mq_msg_pool q) (mq_msg_size q) (mq_max_msgs q) (u16 (mq_entry q + 1)) x
    (if bool_decide (mq_tail q = RT_NULL) then x else mq_tail q) (mq_free q)
    (<[x := mq_head q]> (mq_next q)) (mq_data q).
Proof using All. unfold mq_prepend. simpl. by case_bool_decide. Qed.

#[local] Lemma append_eq : mq_append x q =
  MessageQueue (mq_flag q) (mq_msg_pool q) (mq_msg_size q) (mq_max_msgs q) (u16 (mq_entry q + 1))
    (if bool_decide (mq_head q = RT_NULL) then x else mq_head q) x (mq_free q)
    (if bool_decide (mq_tail q ≠ RT_NULL) then <[mq_tail q := x]> (mq_next q) else mq_next q)
    (mq_data q).
Proof using All.
  unfold mq_append. destruct (decide (mq_tail q ≠ RT_NULL)) as [E|E];
    [rewrite !(bool_decide_true (mq_tail q ≠ RT_NULL)) by done
    |rewrite !(bool_decide_false (mq_tail q ≠ RT_NULL)) by done]; simpl; by case_bool_decide.
Qed.

Lemma prepend_shape : mq_shape (mq_prepend x q) (x :: ms) fs.
Proof using All.
  pose proof open_fresh as (Hxm&Hxf&Hndm&Hndf&Hnd). pose proof open_entry as Ee.
  pose proof Ho as [Hm Hf Hnd' Hx0 Ht He Hmax Hr Hsz [Hd Hl] Hdat]. rewrite prepend_eq.
  split; simpl; try done.
  - split_and!; [done..|]. exists (mq_head q). rewrite lookup_insert_eq. split; [done|].
    by apply linked_insert.
  - by apply linked_insert.
  - apply NoDup_cons. split; [set_solver|done].
  - rewrite Ht. destruct ms as [|y ms' _] using rev_ind; [done|].
    rewrite last_snoc. simpl. rewrite bool_decide_false by (by eapply linked_last).
    by rewrite app_comm_cons, last_snoc.
  - unfold zlen in *. simpl. lia.
  - unfold zlen in *. simpl. lia.
  - intros y Hy. by apply open_data.
Qed.

Lemma append_shape : mq_next q !! x = Some RT_NULL → mq_shape (mq_append x q) (ms ++ [x]) fs.
Proof using All.
  intros Hn. pose proof open_fresh as (Hxm&Hxf&Hndm&Hndf&Hnd). pose proof open_entry as Ee.
  pose proof Ho as [Hm Hf Hnd' Hx0 Ht He Hmax Hr Hsz [Hd Hl] Hdat]. rewrite append_eq.
  split; simpl; try done.
  - rewrite Ht. destruct ms as [|y ms' _] using rev_ind.
    { simpl in Hm. rewrite bool_decide_false, bool_decide_true by tauto. simpl. eauto 6. }
    rewrite last_snoc. simpl. rewrite bool_decide_true by (by eapply linked_last).
    rewrite bool_decide_false; [by apply linked_snoc|].
    rewrite (linked_null _ _ _ Hm). by destruct ms'.
  - rewrite Ht. case_bool_decide as E; [|done]. apply linked_insert; [|done].
    destruct ms as [|y ms' _] using rev_ind; [done|]. rewrite last_snoc. simpl.
    apply NoDup_app in Hnd as (_&Hdis&_). apply Hdis. set_solver.
  - by rewrite <-app_assoc.
  - by rewrite last_snoc.
  - rewrite zlen_app. unfold zlen in *. simpl. lia.
  - rewrite zlen_app. unfold zlen in *. simpl. lia.
  - intros y Hy. apply open_data. set_solver.
Qed.

End open.

(** What [rt_mq_send] and [rt_mq_urgent] do to the structure. *)
Definition mq_sent (urgent : bool) (buffer : list Z) (size : Z) (q : rt_messagequeue)
    : option rt_messagequeue :=
  let msg := mq_free q in
  q ← mq_take_free q;
  let q := if urgent then q else set_mq_next (<[msg := RT_NULL]> (mq_next q)) q in
  q ← mq_store msg buffer size q;
  Some (if urgent then mq_prepend msg q else mq_append msg q).

(** The messages after a message with the contents [d] was sent. *)
Definition sent_to (urgent : bool) {A} (d : A) (l : list A) : list A :=
  if urgent then d :: l else l ++ [d].

Lemma mq_sent_shape urgent buffer size q ms x fs : mq_shape q ms (x :: fs) →
  0 <= size <= mq_msg_size q → size <= zlen buffer →
  ∃ q' d, mq_sent urgent buffer size q = Some q' ∧ filled buffer size (mq_msg_size q) d ∧
    mq_shape q' (sent_to urgent x ms) fs ∧ messages q' = sent_to urgent d (messages q) ∧
    mq_flag q' = mq_flag q ∧ mq_msg_size q' = mq_msg_size q ∧ mq_max_msgs q' = mq_max_msgs q.
Proof.
  intros HS Hs Hb. pose proof HS as [Hm (Ef&Hx0&f&Hf&Hfs) Hnd Ht He Hmax Hr Hsz Hd].
  destruct (Hd x) as (old&Hold&Hlen); [set_solver|].
  destruct (memcpy_filled old buffer size) as (d&Hcpy&Hfill); [lia|done|]. rewrite Hlen in Hfill.
  assert ((x ∉ ms) ∧ x ∉ fs) as [Hxm Hxf].
  { apply NoDup_app in Hnd as (_&Hdis&[? _]%NoDup_cons). split; [|done].
    intros Hin. apply (Hdis x Hin). left. }
  set (q1 := if urgent then set_mq_free f q
             else set_mq_next (<[x := RT_NULL]> (mq_next q)) (set_mq_free f q)).
  set (q2 := set_mq_data (<[x := d]> (mq_data q)) q1).
  assert (mq_sent urgent buffer size q = Some (if urgent then mq_prepend x q2 else mq_append x q2)) as Es.
  { unfold mq_sent, mq_take_free, mq_store. rewrite Ef, Hf. destruct urgent; simpl; rewrite Hold; simpl;
      rewrite Hcpy; done. }
  assert (mq_open q2 ms x fs d) as Ho.
  { assert (linked (mq_next q1) (mq_head q) ms ∧ linked (mq_next q1) f fs) as [Hm1 Hf1]
      by (destruct urgent; simpl; auto using linked_insert).
    rewrite <-Hlen in Hfill. destruct Hfill as [Hl' _].
    split; try done; try (by destruct urgent).
    - destruct urgent; simpl; unfold zlen in *; simpl in *; lia.
    - simpl. rewrite lookup_insert_eq. split; [done|]. rewrite Hl', Hlen. by destruct urgent.
    - intros y Hy. simpl. rewrite lookup_insert_ne by set_solver.
      destruct (Hd y) as (e&?&?); [set_solver|]. exists e. split; [done|]. by destruct urgent. }
  assert (mq_shape (if urgent then mq_prepend x q2 else mq_append x q2) (sent_to urgent x ms) fs) as HS'.
  { destruct urgent; [by eapply prepend_shape|]. eapply append_shape; [done|]. apply lookup_insert_eq. }
  assert (((λ y, default [] (mq_data q2 !! y)) <$> ms) = messages q) as Em.
  { rewrite (messages_shape _ _ _ HS). apply list_fmap_ext. intros i y Hy. simpl.
    rewrite lookup_insert_ne; [done|]. intros <-.
    by apply Hxm, (list_elem_of_lookup_2 _ i). }
  eexists _, d. split; [done|]. split; [done|]. split; [done|]. split.
  - rewrite (messages_shape _ _ _ HS'), <-Em.
    assert (mq_data (if urgent then mq_prepend x q2 else mq_append x q2) = <[x := d]> (mq_data q)) as ->
      by (destruct urgent; [rewrite (prepend_eq _ _ _ _ _ Ho)|rewrite (append_eq _ _ _ _ _ Ho)]; done).
    destruct urgent; simpl; [|rewrite fmap_app; simpl]; by rewrite lookup_insert_eq.
  - destruct urgent; [rewrite (prepend_eq _ _ _ _ _ Ho)|rewrite (append_eq _ _ _ _ _ Ho)]; done.
Qed.

(** What [rt_mq_recv] does to the structure when it takes a message. *)
Definition mq_received (q : rt_messagequeue) : option rt_messagequeue :=
  let msg := mq_head q in
  q ← mq_unlink q;
  Some (mq_release msg (set_mq_entry (u16 (mq_entry q - 1)) q)).

Lemma mq_received_shape q x ms fs : mq_shape q (x :: ms) fs →
  ∃ q' d, mq_received q = Some q' ∧ mq_head q = x ∧ mq_data q !! x = Some d ∧
    zlen d = mq_msg_size q ∧ mq_shape q' ms (x :: fs) ∧ messages q = d :: messages q' ∧
    mq_flag q' = mq_flag q ∧ mq_msg_size q' = mq_msg_size q ∧ mq_max_msgs q' = mq_max_msgs q.
Proof.
  intros HS. pose proof HS as [(Eh&Hx0&n&Hn&Hms) Hf Hnd Ht He Hmax Hr Hsz Hd].
  destruct (Hd x) as (d&Hx&Hlen); [set_solver|].
  assert ((x ∉ ms) ∧ (x ∉ fs) ∧ NoDup (ms ++ x :: fs)) as (Hxm&Hxf&Hnd').
  { split_and!; [| |by rewrite <-Permutation_middle]; apply NoDup_cons in Hnd as [? _]; set_solver. }
  pose proof (zlen_nonneg fs). pose proof (zlen_nonneg ms). rewrite zlen_cons in *.
  assert (u16 (mq_entry q - 1) = zlen ms) as Eu.
  { rewrite He, u16_small by (unfold in_u16; lia). lia. }
  set (q' := MessageQueue (mq_flag q) (mq_msg_pool q) (mq_msg_size q) (mq_max_msgs q) (zlen ms) n
    (if bool_decide (mq_tail q = x) then RT_NULL else mq_tail q) x (<[x := mq_free q]> (mq_next q)) (mq_data q)).
  assert (mq_received q = Some q') as Er.
  { unfold mq_received, mq_unlink. rewrite Eh, Hn. simpl. unfold mq_release, q'.
    by case_bool_decide; simpl; rewrite Eu. }
  assert (mq_shape q' ms (x :: fs)) as HS'.
  { split; simpl; try done.
    - by apply linked_insert.
    - split_and!; [done..|]. exists (mq_free q). rewrite lookup_insert_eq. split; [done|].
      by apply linked_insert.
    - rewrite Ht. destruct ms as [|y ms' _] using rev_ind; [by rewrite bool_decide_true|].
      rewrite app_comm_cons, !last_snoc. simpl. rewrite bool_decide_false; [done|]. set_solver.
    - rewrite zlen_cons. lia.
    - intros y Hy. apply Hd. set_solver. }
  exists q', d. split_and!; try done.
  by rewrite (messages_shape _ _ _ HS), (messages_shape _ _ _ HS'), fmap_cons, Hx.
Qed.

(** ** The calls *)

Record mq_ok (k : kern) (mq : Z) (q : rt_messagequeue) : Prop := {
  qk_null : mq ≠ RT_NULL;
  qk_flag : ipc_flag (mq_flag q);
  qk_shape : ∃ ms fs, mq_shape q ms fs;
  qk_receivers : is_Some (s_lists (thread_lists k) !! QSuspend (OMessageQueue mq));
}.

Definition with_mq (mq : Z) (q : rt_messagequeue) (k : kern) : kern :=
  set_mqueues (<[mq := q]> (mqueues k)) k.

Lemma with_mq_mq mq q q' k : with_mq mq q' (with_mq mq q k) = with_mq mq q' k.
Proof. unfold with_mq. simpl. by rewrite insert_insert_eq. Qed.

Lemma wp_get_mq k mq q (Q : rt_messagequeue → kern → Prop) :
  mqueues k !! mq = Some q → Q q k → wp (get_mq mq) k Q.
Proof. apply (wp_kopt (λ k, mqueues k !! mq)). Qed.

Lemma wp_mod_mq k mq q f q' (Q : unit → kern → Prop) : mqueues k !! mq = Some q → f q = Some q' →
  Q tt (with_mq mq q' k) → wp (mod_mq mq f) k Q.
Proof.
  intros Hq Hf HQ. unfold mod_mq. apply wp_bind. eapply wp_get_mq; [done|].
  apply wp_bind. by eapply wp_kopt.
Qed.

Section mq.
Context (k : kern) (mq : Z) (q : rt_messagequeue) (ms fs : list Z).
Context (Hmq : mqueues k !! mq = Some q) (Hok : mq_ok k mq q) (HS : mq_shape q ms fs) (I : kinv k).

#[local] Lemma kinv_with_mq q' : kinv (with_mq mq q' k).
Proof using All. by apply (kinv_at_irrelevant 0 k). Qed.

(** The common start of [rt_mq_send] and [rt_mq_urgent], and the two ends. *)
Definition mq_put (mq size : Z) (body : Z → M Z) : M Z :=
  RT_ASSERT (bool_decide (mq ≠ RT_NULL));;
  RT_ASSERT (bool_decide (size ≠ 0));;
  q ← get_mq mq;
  if bool_decide (size > mq_msg_size q) then mret (- RT_ERROR) else
  temp ← rt_hw_interrupt_disable;
  q ← get_mq mq;
  let msg := mq_free q in
  if bool_decide (msg = RT_NULL) then rt_hw_interrupt_enable temp;; mret (- RT_EFULL) else
  mod_mq mq mq_take_free;;
  rt_hw_interrupt_enable temp;;
  body msg.

Definition put_urgent (mq : Z) (buffer : list Z) (size msg : Z) : M Z :=
  mod_mq mq (mq_store msg buffer size);;
  temp ← rt_hw_interrupt_disable;
  mod_mq mq (λ q, Some (mq_prepend msg q));;
  mq_wake mq temp.

Definition put_last (mq : Z) (buffer : list Z) (size msg : Z) : M Z :=
  mod_mq mq (λ q, Some (set_mq_next (<[msg := RT_NULL]> (mq_next q)) q));;
  mod_mq mq (mq_store msg buffer size);;
  temp ← rt_hw_interrupt_disable;
  mod_mq mq (λ q, Some (mq_append msg q));;
  mq_wake mq temp.

Definition mq_send (urgent : bool) (mq : Z) (buffer : list Z) (size : Z) : M Z :=
  if urgent then rt_mq_urgent mq buffer size else rt_mq_send mq buffer size.

Lemma mq_send_put urgent buffer size : mq_send urgent mq buffer size =
  mq_put mq size ((if urgent then put_urgent else put_last) mq buffer size).
Proof. by destruct urgent. Qed.

Lemma wp_mq_free size body (Q : Z → kern → Prop) : 0 < size →
  (mq_msg_size q < size → Q (- RT_ERROR) k) →
  (size <= mq_msg_size q → mq_free q = RT_NULL → Q (- RT_EFULL) k) →
  (size <= mq_msg_size q → ∀ x q', mq_free q = x → x ≠ RT_NULL → mq_take_free q = Some q' →
     wp (body x) (with_mq mq q' k) Q) →
  wp (mq_put mq size body) k Q.
Proof using All.
  intros Hs H1 H2 H3. pose proof Hok as [Hnull _ _ _]. unfold mq_put.
  apply wp_bind, wp_assert; [by apply bool_decide_true|].
  apply wp_bind, wp_assert; [apply bool_decide_true; lia|].
  apply wp_bind. eapply wp_get_mq; [done|]. case_bool_decide; [apply wp_ret, H1; lia|].
  apply wp_bind, wp_disable, wp_bind. eapply wp_get_mq; [done|]. cbv zeta. case_bool_decide as E.
  { wps. specialize (H2 ltac:(lia) E). by destruct k. }
  pose proof (qs_free _ _ _ HS) as Hf. destruct fs as [|x fs']; [done|]. destruct Hf as (Ef&Hx0&f&Hf&_).
  assert (mq_take_free q = Some (set_mq_free f q)) as Et by (unfold mq_take_free; by rewrite Ef, Hf).
  apply wp_bind. eapply wp_mod_mq; [done..|]. apply wp_bind, wp_enable.
  specialize (H3 ltac:(lia) _ _ eq_refl E Et). by destruct k.
Qed.

(** A message is stored and linked; the first receiver is woken. *)
Lemma wp_mq_send urgent buffer size (Q : Z → kern → Prop) : 0 < size → size <= zlen buffer →
  (mq_msg_size q < size → Q (- RT_ERROR) k) →
  (size <= mq_msg_size q → mq_free q = RT_NULL → Q (- RT_EFULL) k) →
  (size <= mq_msg_size q → mq_free q ≠ RT_NULL → ∀ q' k', mq_sent urgent buffer size q = Some q' →
     wakes_first (QSuspend (OMessageQueue mq)) (with_mq mq q' k) k' → Q RT_EOK k') →
  wp (mq_send urgent mq buffer size) k Q.
Proof using All.
  intros Hs Hb H1 H2 H3. pose proof kinv_with_mq as HI. rewrite mq_send_put. apply wp_mq_free; [done..|].
  intros Hsz x q1 Ex Hx0 Et. specialize (H3 Hsz ltac:(by rewrite Ex)).
  pose proof (qs_free _ _ _ HS) as Hf. destruct fs as [|x' fs']; [by destruct Hx0; rewrite <-Ex|].
  destruct Hf as [Ex' _]. assert (x' = x) as -> by congruence.
  destruct (mq_sent_shape urgent buffer size q ms x fs' HS) as (q'&_&Es&_); [lia|done|].
  assert (mqueues (with_mq mq q1 k) !! mq = Some q1) as Hq1 by apply lookup_insert_eq.
  assert (∀ q1 k1, mqueues k1 !! mq = Some q1 → k1 = with_mq mq q1 k →
    (if urgent then mq_prepend x q1 else mq_append x q1) = q' →
    wp (temp ← rt_hw_interrupt_disable;
        mod_mq mq (λ q, Some (if urgent then mq_prepend x q else mq_append x q));; mq_wake mq temp)
      k1 Q) as Hend.
  { intros q2 k1 Hq2 -> E. apply wp_bind, wp_disable, wp_bind. eapply wp_mod_mq; [done..|].
    rewrite E. unfold mq_wake.
    change (with_mq mq q' (set_primask 1 (with_mq mq q2 k)))
      with (set_primask 1 (with_mq mq q' (with_mq mq q2 k))). rewrite with_mq_mq.
    change (primask (with_mq mq q2 k)) with (primask (with_mq mq q' k)).
    apply wp_wake_first; [apply HI|done|apply Hok|]. intros k'. by apply H3. }
  unfold mq_sent in Es. rewrite Ex, Et in Es. simpl in Es.
  destruct urgent; unfold put_urgent, put_last.
  - destruct (mq_store x buffer size q1) as [q2|] eqn:E2; simplify_eq/=.
    apply wp_bind. eapply wp_mod_mq; [done..|]. eapply Hend; [apply lookup_insert_eq| |done].
    apply with_mq_mq.
  - apply wp_bind. eapply wp_mod_mq; [done..|]. rewrite with_mq_mq.
    destruct (mq_store x buffer size _) as [q2|] eqn:E2; simplify_eq/=.
    apply wp_bind. eapply wp_mod_mq; [apply lookup_insert_eq|done|]. rewrite with_mq_mq.
    eapply Hend; [apply lookup_insert_eq|done..].
Qed.

Context (t : Z) (th : rt_thread) (Hca : calls k t th).

Lemma wp_mq_recv_msg size (Q : mq_outcome → kern → Prop) : 0 < size → 0 < mq_entry q →
  (∀ q' d, mq_received q = Some q' → mq_data q !! mq_head q = Some d →
     Q (MqReturns RT_EOK (Some (take (Z.to_nat (Z.min size (mq_msg_size q))) d))) (with_mq mq q' k)) →
  wp (mq_recv_msg mq size (primask k)) (set_primask 1 k) Q.
Proof using All.
  intros Hs He HQ. rewrite (qs_entry _ _ _ HS) in He. destruct ms as [|x ms']; [done|].
  destruct (mq_received_shape q x ms' fs HS) as (q'&d&Er&Eh&Ed&Hl&HS'&_).
  specialize (HQ q' d Er). rewrite Eh in HQ. specialize (HQ Ed). pose proof (qs_size _ _ _ HS).
  unfold mq_received in Er. destruct (mq_unlink q) as [q1|] eqn:E1; [|done].
  simpl in Er. injection Er as Er.
  assert (mq_data q1 = mq_data q ∧ mq_msg_size q1 = mq_msg_size q) as [Ed1 Es1].
  { unfold mq_unlink in E1. destruct (mq_next q !! mq_head q); simplify_eq/=. by case_bool_decide. }
  unfold mq_recv_msg, kopt_. apply wp_bind. eapply wp_get_mq; [done|]. cbv zeta. rewrite Eh.
  apply wp_bind. eapply wp_mod_mq; [done..|].
  apply wp_bind. eapply wp_mod_mq; [apply lookup_insert_eq|done|]. rewrite with_mq_mq.
  apply wp_bind, wp_enable, wp_bind. eapply wp_get_mq; [apply lookup_insert_eq|].
  apply wp_bind. eapply wp_kopt; [simpl; by rewrite Ed1|]. simpl. rewrite Es1.
  apply wp_bind. eapply wp_kopt; [apply arr_read_ok; [lia| |]; case_bool_decide; lia|].
  apply wp_bind, wp_disable, wp_bind. eapply wp_mod_mq; [apply lookup_insert_eq|done|].
  apply wp_bind, wp_enable, wp_ret. rewrite Eh in Er.
  replace (seg 0 _ d) with (take (Z.to_nat (Z.min size (mq_msg_size q))) d).
  2:{ unfold seg. simpl. f_equal. case_bool_decide; lia. }
  match goal with |- Q _ ?k1 => replace k1 with (with_mq mq q' k); [done|] end.
  rewrite <-Er. unfold with_mq. destruct k. simpl. by rewrite !insert_insert_eq.
Qed.

Context (timeout : Z) (Htime : timeout < RT_TICK_MAX / 2).

Lemma wp_mq_recv size (Q : mq_outcome → kern → Prop) : 0 < size →
  (0 < mq_entry q → ∀ q' d, mq_received q = Some q' → mq_data q !! mq_head q = Some d →
     Q (MqReturns RT_EOK (Some (take (Z.to_nat (Z.min size (mq_msg_size q))) d))) (with_mq mq q' k)) →
  (mq_entry q = 0 → timeout = 0 → Q (MqReturns (- RT_ETIMEOUT) None) k) →
  (mq_entry q = 0 → timeout ≠ 0 → ∀ k',
     waits t th (QSuspend (OMessageQueue mq)) (mq_flag q) timeout k k' →
     Q (MqWaits timeout (start_tick timeout k)) k') →
  wp (rt_mq_recv mq size timeout) k Q.
Proof using All.
  intros Hs H1 H2 H3. pose proof Hok as [Hnull Hflag _ Hrecv].
  unfold rt_mq_recv, rt_thread_self. apply wp_bind, wp_assert; [by apply bool_decide_true|].
  apply wp_bind, wp_assert; [apply bool_decide_true; lia|].
  apply wp_bind, wp_gets, wp_bind, wp_disable, wp_bind. rewrite (ca_current _ _ _ Hca).
  eapply wp_get_mq; [exact Hmq|].
  destruct (decide (mq_entry q = 0 ∧ timeout = 0)) as [[E E0]|Hn].
  { rewrite bool_decide_true by done. wps. specialize (H2 E E0). by destruct k. }
  rewrite bool_decide_false by done. cbn [mq_recv_loop]. apply wp_bind.
  eapply wp_get_mq; [exact Hmq|]. destruct (decide (mq_entry q = 0)) as [E|E].
  - rewrite bool_decide_true by done. apply wp_bind, (wp_check_context k t th Hca); [done..|].
    apply wp_bind. eapply wp_mod_thread; [apply Hca|]. rewrite bool_decide_false by tauto. apply wp_bind.
    eapply (wp_mb_wait k t th Hca (QSuspend (OMessageQueue mq))); [done..|]. intros k' Hw. wps.
    rewrite bool_decide_false by apply Hw. wps. by apply H3; [|tauto|].
  - rewrite bool_decide_false by done. pose proof (qs_entry _ _ _ HS). pose proof (zlen_nonneg ms).
    apply wp_mq_recv_msg; [done|lia|]. apply H1. lia.
Qed.

End mq.

(** ** A message queue as a bounded queue of messages with a queue of threads *)

Record mq_view : Type := MqView { v_messages : list (list Z); v_waiting : list Z }.

Definition view_mq (k : kern) (mq : Z) (q : rt_messagequeue) : mq_view :=
  MqView (messages q) (lof (thread_lists k) (QSuspend (OMessageQueue mq))).

(** The queue at [mq] of [max] messages of [msg_size] bytes is in order and shows [v]. *)
Definition mq_shows (mq msg_size max : Z) (k : kern) (v : mq_view) : Prop :=
  kinv k ∧ ∃ q, mqueues k !! mq = Some q ∧ mq_ok k mq q ∧ mq_msg_size q = msg_size ∧
    mq_max_msgs q = max ∧ view_mq k mq q = v.

Section mq_shows.
Context (k : kern) (mq : Z) (q : rt_messagequeue).
Context (Hmq : mqueues k !! mq = Some q) (Hok : mq_ok k mq q) (I : kinv k).

(** The free list is empty exactly when the queue is full. *)
#[local] Lemma full_null : mq_free q = RT_NULL ↔ zlen (messages q) = mq_max_msgs q.
Proof using All.
  destruct (qk_shape _ _ _ Hok) as (ms&fs&HS).
  rewrite (zlen_messages _ _ _ HS), (qs_entry _ _ _ HS), <-(qs_max _ _ _ HS).
  rewrite (linked_null _ _ _ (qs_free _ _ _ HS)). unfold zlen. destruct fs; simpl; naive_solver lia.
Qed.

#[local] Lemma shows_put q' (k' : kern) : (∃ ms fs, mq_shape q' ms fs) → mq_flag q' = mq_flag q →
  wakes_first (QSuspend (OMessageQueue mq)) (with_mq mq q' k) k' →
  mq_shows mq (mq_msg_size q') (mq_max_msgs q') k'
    (MqView (messages q') (tail (lof (thread_lists k) (QSuspend (OMessageQueue mq))))).
Proof using All.
  intros Hsh Hf Hw. pose proof Hok as [Hnull Hflag _ Hrecv].
  assert (kinv (with_mq mq q' k)) as I' by (by apply (kinv_at_irrelevant 0 k)).
  assert (waiting_queue (QSuspend (OMessageQueue mq))) as Hwq by done.
  split; [by eapply wakes_first_inv|]. exists q'.
  destruct (wakes_first_ipc _ _ I' Hwq Hrecv _ Hw) as (_&->&_). simpl. rewrite lookup_insert_eq.
  split_and!; [done| |done..|].
  - split; try done; [by rewrite Hf|]. by eapply (wakes_first_heads _ _ I' Hwq Hrecv).
  - unfold view_mq. by rewrite (wakes_first_queue _ _ I' Hwq Hrecv _ Hw).
Qed.

#[local] Lemma shows_taken q' : (∃ ms fs, mq_shape q' ms fs) → mq_flag q' = mq_flag q →
  mq_shows mq (mq_msg_size q') (mq_max_msgs q') (with_mq mq q' k)
    (MqView (messages q') (lof (thread_lists k) (QSuspend (OMessageQueue mq)))).
Proof using All.
  intros Hsh Hf. pose proof Hok as [Hnull Hflag _ Hrecv].
  split; [by apply (kinv_at_irrelevant 0 k)|]. exists q'.
  split_and!; [apply lookup_insert_eq| |done..]. split; try done. by rewrite Hf.
Qed.

#[local] Lemma shows_blocked t th time (k' : kern) : calls k t th →
  waits t th (QSuspend (OMessageQueue mq)) (mq_flag q) time k k' →
  mq_shows mq (mq_msg_size q) (mq_max_msgs q) k' (MqView (messages q)
    (wait_insert (mq_flag q) (threads k) t (th_current_priority th)
      (lof (thread_lists k) (QSuspend (OMessageQueue mq))))).
Proof using All.
  intros Hca Hw. pose proof Hok as [Hnull Hflag Hsh Hrecv].
  assert (waiting_queue (QSuspend (OMessageQueue mq))) as Hwq by done.
  destruct (waits_ipc k t th Hca _ Hwq Hrecv _ Hflag time k' Hw) as (_&E&_&I'&Hhd).
  split; [done|]. exists q. rewrite E. split_and!; [done| |done..|].
  - split; try done. by apply Hhd.
  - unfold view_mq. rewrite (waits_lists k t th Hca _ Hwq Hrecv _ Hflag time k' _ Hw). unfold waits_in.
    by rewrite fn_lookup_insert.
Qed.

End mq_shows.

(** C12: A message queue is a bounded queue of messages: [rt_mq_send] appends the
    message and [rt_mq_urgent] puts it first, each waking the first waiting
    receiver; a message that is too long or finds the queue full is refused and
    nothing changes.  [rt_mq_recv] takes the first message and copies as much of
    it as fits; on an empty queue it fails at once when it must not wait and
    otherwise the caller waits at its place.  The pool's free list and the
    kernel's invariant are kept. *)
Theorem message_queue_refines_fifo (k : kern) mq q t th timeout size :
  mqueues k !! mq = Some q → mq_ok k mq q → calls k t th → timeout < RT_TICK_MAX / 2 → 0 < size →
  let shows := mq_shows mq (mq_msg_size q) (mq_max_msgs q) in
  let waiting := lof (thread_lists k) (QSuspend (OMessageQueue mq)) in
  (∀ (urgent : bool) buffer, size <= zlen buffer →
     ∃ k', (if urgent then rt_mq_urgent mq buffer size k else rt_mq_send mq buffer size k) =
       Ok (if bool_decide (mq_msg_size q < size) then - RT_ERROR
           else if bool_decide (zlen (messages q) = mq_max_msgs q) then - RT_EFULL else RT_EOK) k' ∧
     if bool_decide (mq_msg_size q < size ∨ zlen (messages q) = mq_max_msgs q) then k' = k
     else ∃ d, filled buffer size (mq_msg_size q) d ∧
       shows k' (MqView (if urgent then d :: messages q else messages q ++ [d]) (tail waiting))) ∧
  (∃ k', rt_mq_recv mq size timeout k =
       Ok (match messages q with
           | d :: _ => MqReturns RT_EOK (Some (take (Z.to_nat (Z.min size (mq_msg_size q))) d))
           | [] => if bool_decide (timeout = 0) then MqReturns (- RT_ETIMEOUT) None
                   else MqWaits timeout (start_tick timeout k)
           end) k' ∧
     match messages q with
     | _ :: ds => shows k' (MqView ds waiting)
     | [] => if bool_decide (timeout = 0) then k' = k
             else shows k' (MqView []
                    (wait_insert (mq_flag q) (threads k) t (th_current_priority th) waiting))
     end).
Proof.
  intros Hmq Hok Hca Ht Hs shows waiting. pose proof (ca_inv _ _ _ Hca) as I.
  destruct (qk_shape _ _ _ Hok) as (ms&fs&HS). pose proof (full_null k mq q Hmq Hok I) as Hfull. split.
  - intros urgent buffer Hb.
    assert (∀ r P, (∃ k', mq_send urgent mq buffer size k = Ok r k' ∧ P k') →
      ∃ k', (if urgent then rt_mq_urgent mq buffer size k else rt_mq_send mq buffer size k) = Ok r k' ∧ P k')
      as Hsend by (intros r P; by destruct urgent).
    apply Hsend. apply wp_returns. eapply (wp_mq_send k mq q ms fs Hmq Hok HS I); [done..| | |].
    + intros Hbig. by rewrite !bool_decide_true by auto.
    + intros Hle Hn%Hfull. rewrite bool_decide_false by lia. by rewrite !bool_decide_true by auto.
    + intros Hle Hn q' k' Es Hw. rewrite Hfull in Hn. rewrite !bool_decide_false by (lia || tauto).
      split; [done|]. destruct fs as [|x fs'].
      { destruct Hn. apply Hfull. apply (linked_null _ _ _ (qs_free _ _ _ HS)). done. }
      destruct (mq_sent_shape urgent buffer size q ms x fs' HS) as (q2&d&Es'&Hd&HS'&Em&Ef&E1&E2); [lia|done|].
      rewrite Es in Es'. injection Es' as <-. exists d. split; [done|].
      replace (if urgent then _ else _) with (messages q') by (by destruct urgent).
      unfold shows. rewrite <-E1, <-E2. apply (shows_put k mq q); eauto.
  - apply wp_returns. assert (mq_entry q = 0 → messages q = []) as Hnil.
    { intros E. rewrite <-(zlen_messages _ _ _ HS) in E. unfold zlen in E. destruct (messages q); [done|simpl in E; lia]. }
    eapply (wp_mq_recv k mq q ms fs Hmq Hok HS I t th Hca timeout Ht); [done|..].
    + intros He q' d Er Ed. destruct ms as [|x ms']; [by rewrite (qs_entry _ _ _ HS) in He|].
      destruct (mq_received_shape q x ms' fs HS) as (q2&d2&Er'&Eh&Ed'&_&HS'&Em&Ef&E1&E2).
      rewrite Er in Er'. injection Er' as <-. rewrite Eh, Ed' in Ed. injection Ed as ->. rewrite Em.
      split; [done|]. unfold shows. rewrite <-E1, <-E2. apply (shows_taken k mq q); eauto.
    + intros E ->. by rewrite (Hnil E).
    + intros E Hne k' Hw. pose proof (Hnil E) as Em. rewrite Em, !bool_decide_false by done.
      split; [done|]. rewrite <-Em. by eapply shows_blocked.
Qed.

Definition demo_queue : rt_messagequeue := mq_fresh 0 0x20006000 4 3.

Lemma demo_mq_shape : mq_shape demo_queue [] [0x20006010; 0x20006008; 0x20006000].
Proof.
  split; try reflexivity; try (vm_compute; reflexivity).
  - split_and!; [reflexivity|discriminate|]. eexists. split; [vm_compute; reflexivity|].
    split_and!; [reflexivity|discriminate|]. eexists. split; [vm_compute; reflexivity|].
    split_and!; [reflexivity|discriminate|]. eexists. split; [vm_compute; reflexivity|]. reflexivity.
  - apply (bool_decide_unpack _). vm_compute. exact I.
  - vm_compute. discriminate.
  - intros x Hx. exists [0; 0; 0; 0].
    repeat (apply elem_of_cons in Hx as [->|Hx]; [split; vm_compute; reflexivity|]).
    by apply elem_of_nil in Hx.
Qed.

Lemma demo_mq_ok : mq_ok (demo []) the_queue demo_queue.
Proof.
  split; [discriminate|left; reflexivity|eexists _, _; apply demo_mq_shape|vm_compute; eexists; reflexivity].
Qed.

Lemma message_queue_refines_fifo_witness :
  (∃ k', rt_mq_send the_queue [1; 2; 3; 4] 4 (demo []) = Ok RT_EOK k') ∧
  (∃ k', rt_mq_recv the_queue 4 0 (demo []) = Ok (MqReturns (- RT_ETIMEOUT) None) k').
Proof.
  destruct (threads (demo []) !! thread_a) as [th|] eqn:E; [|vm_compute in E; discriminate E].
  destruct (message_queue_refines_fifo (demo []) the_queue demo_queue thread_a th 0 4) as [Hs Hr].
  - vm_compute. reflexivity.
  - exact demo_mq_ok.
  - apply calls_b_sound; [vm_compute; reflexivity|exact E].
  - reflexivity.
  - reflexivity.
  - split.
    + destruct (Hs false [1; 2; 3; 4]) as (k'&Hk'&_); [vm_compute; discriminate|]. exists k'. exact Hk'.
    + destruct Hr as (k'&Hk'&_). exists k'. exact Hk'.
Defined.
