(* ===== verification/EventProof.v ===== *)
(** * Events

    [rt_event_recv] and [rt_event_send] on every branch: who is woken by a
    send, what each woken thread receives, which bits are left, and that no
    thread keeps waiting for events that have been sent. *)

From S2P Require Import Prelude DList ListStore SeqLemmas KString KState Scheduler ObjectSys Timer ThreadSys Ipc KernelWp KernelInv System KernelCheck SchedProof TimerProof ThreadProof Clock ClockProof IpcProof SemProof MailProof.

(** ** What a receiver waits for *)

(** Does the event set [set] satisfy a receiver of the events [want]? *)
Definition accepts (info want set : Z) : bool :=
  if has info RT_EVENT_FLAG_AND then bool_decide (Z.land want set = want)
  else if has info RT_EVENT_FLAG_OR then bool_decide (Z.land want set ≠ 0)
  else false.

(** What is left of the set after [got] was received. *)
Definition left_after (info got set : Z) : Z :=
  if has info RT_EVENT_FLAG_CLEAR then Z.land set (Z.lnot got) else set.

(** Every event of [set'] is one of [set]. *)
Definition bits_in (set' set : Z) : Prop := Z.land set' set = set'.

Lemma bits_in_refl set : bits_in set set.
Proof. apply Z.land_diag. Qed.

Lemma bits_in_left info got set : bits_in (left_after info got set) set.
Proof.
  unfold bits_in, left_after. destruct (has info RT_EVENT_FLAG_CLEAR); [|apply Z.land_diag].
  rewrite (Z.land_comm set), <-Z.land_assoc. by rewrite Z.land_diag.
Qed.

Lemma bits_in_trans a b c : bits_in a b → bits_in b c → bits_in a c.
Proof. unfold bits_in. intros H1 H2. rewrite <-H1 at 1. by rewrite <-Z.land_assoc, H2. Qed.

(** Fewer events satisfy fewer receivers. *)
Lemma accepts_mono info want set set' : bits_in set' set →
  accepts info want set' = true → accepts info want set = true.
Proof.
  unfold bits_in, accepts. intros H. destruct (has info RT_EVENT_FLAG_AND).
  - rewrite !bool_decide_eq_true. intros E. rewrite <-E at 1. rewrite <-Z.land_assoc, H. done.
  - destruct (has info RT_EVENT_FLAG_OR); [|done]. rewrite !bool_decide_eq_true.
    intros Hne E. apply Hne. rewrite <-H, (Z.land_comm set'), Z.land_assoc, E. done.
Qed.

(** A receiver of an AND gets all events it wants, and so does one of an OR those that are set. *)
Lemma accepts_got info want set : accepts info want set = true →
  has info RT_EVENT_FLAG_AND → Z.land want set = want.
Proof. unfold accepts. intros H Ha. destruct (has info RT_EVENT_FLAG_AND); [|done]. by apply bool_decide_eq_true in H. Qed.

(** ** Receiving *)

Record event_ok (k : kern) (event : Z) (e : rt_event) : Prop := {
  eo_null : event ≠ RT_NULL;
  eo_flag : ipc_flag (ev_flag e);
  eo_head : is_Some (s_lists (thread_lists k) !! QSuspend (OEvent event));
}.

Definition with_event (event set : Z) (e : rt_event) (k : kern) : kern :=
  set_events (<[event := set_ev_set set e]> (events k)) k.

Definition with_thread (t : Z) (th : rt_thread) (k : kern) : kern :=
  set_threads (<[t := th]> (threads k)) k.

(** The thread that waits for [set]. *)
Definition expects (set option : Z) (th : rt_thread) : rt_thread :=
  set_th_event_info option (set_th_event_set set (set_th_error RT_EOK th)).

Section recv.
Context (k : kern) (event : Z) (e : rt_event).
Context (Hev : events k !! event = Some e) (Hok : event_ok k event e).
Context (t : Z) (th : rt_thread) (Hca : calls k t th).

Abbreviation q := (QSuspend (OEvent event)).

Lemma wp_event_recv set option timeout (Q : recv_outcome → kern → Prop) :
  set ≠ 0 → has option RT_EVENT_FLAG_AND || has option RT_EVENT_FLAG_OR → timeout < RT_TICK_MAX / 2 →
  (accepts option set (ev_set e) = true →
     Q (Received RT_EOK (Some (Z.land (ev_set e) set)))
       (with_event event (left_after option set (ev_set e)) e (with_thread t (set_th_error RT_EOK th) k))) →
  (accepts option set (ev_set e) = false → timeout = 0 →
     Q (Received (- RT_ETIMEOUT) None) (with_thread t (set_th_error (- RT_ETIMEOUT) th) k)) →
  (accepts option set (ev_set e) = false → timeout ≠ 0 → ∀ k1 k',
     blocked 0 t (set_th_stat RT_THREAD_SUSPEND (expects set option th)) (waits_in k t th q (ev_flag e))
       (wait_time timeout) k k1 →
     scheduled k1 k' → rt_current_thread k' ≠ t → Q RecvWaits k') →
  wp (rt_event_recv event set option timeout) k Q.
Proof using All.
  intros Hset Hopt Htime H1 H2 H3. pose proof Hok as [Hnull Hflag Hhead].
  unfold rt_event_recv. apply wp_bind, (wp_check_context k t th Hca); [done..|]. wps.
  rewrite bool_decide_false by done. unfold rt_thread_self. wps. rewrite (ca_current _ _ _ Hca).
  eapply wp_mod_thread; [apply Hca|]. wps. unfold get_event. eapply wp_kopt; [exact Hev|].
  apply wp_bind. eapply (wp_mono _ _ (λ s k2, s = accepts option set (ev_set e) ∧ k2 = _)).
  { unfold accepts. rewrite (Z.land_comm set). destruct (has option RT_EVENT_FLAG_AND); [by apply wp_ret|].
    by destruct (has option RT_EVENT_FLAG_OR); [apply wp_ret; unfold has|]. }
  intros s k2 [-> ->]. destruct (accepts option set (ev_set e)) eqn:Ea.
  { specialize (H1 eq_refl). unfold left_after, with_event, with_thread in H1.
    apply wp_bind. unfold put_event. destruct (has option RT_EVENT_FLAG_CLEAR); wps;
      (eapply wp_get_thread; [apply lookup_insert_eq|]; wps).
    - by destruct k.
    - replace (set_ev_set (ev_set e) e) with e in H1 by (by destruct e).
      rewrite insert_id in H1 by done. by destruct k. }
  destruct (decide (timeout = 0)) as [Et|Et].
  { rewrite bool_decide_true by done. specialize (H2 eq_refl Et).
    apply wp_bind. eapply wp_mod_thread; [apply lookup_insert_eq|]. wps.
    eapply wp_get_thread; [apply lookup_insert_eq|]. wps. simpl. rewrite insert_insert_eq. by destruct k. }
  rewrite bool_decide_false by done. apply wp_bind. eapply wp_mod_thread; [apply lookup_insert_eq|].
  simpl. rewrite insert_insert_eq. specialize (H3 eq_refl Et).
  change (set_th_event_info option (set_th_event_set set (set_th_error RT_EOK th)))
    with (expects set option th).
  assert (calls (with_thread t (expects set option th) k) t (expects set option th)) as Hca1.
  { eapply calls_change; [exact Hca|done..|]. by destruct (thread_ok _ _ _ _ (ca_inv _ _ _ Hca) (ca_thread _ _ _ Hca)). }
  eapply (wp_block _ t _ Hca1 q Logic.I Hhead (ev_flag e) Hflag timeout); [done|].
  intros k' Hg. apply (gives_up_change t th) in Hg as (k1&Hb&Hk&Hne); [|apply Hca|done].
  wps. rewrite bool_decide_false by done. wps. by eapply H3.
Qed.

End recv.

(** ** Sending *)

(** The scan of the waiting threads [l] with the set [set]: those that are
    woken with what each receives, those that stay, and the set that is left. *)
Fixpoint event_scan (ths : gmap Z rt_thread) (set : Z) (l : list Z) : list (Z * Z) * list Z * Z :=
  match l with
  | [] => ([], [], set)
  | t :: l =>
      match ths !! t with
      | None => ([], t :: l, set)
      | Some th =>
          let want := th_event_set th in let info := th_event_info th in
          if accepts info want set then
            let got := Z.land want set in
            let '(wk, kept, rest) := event_scan ths (left_after info got set) l in
            ((t, got) :: wk, kept, rest)
          else let '(wk, kept, rest) := event_scan ths set l in (wk, t :: kept, rest)
      end
  end.

Lemma event_scan_ext ths ths' set l : (∀ t, t ∈ l → ths !! t = ths' !! t) →
  event_scan ths set l = event_scan ths' set l.
Proof.
  revert set. induction l as [|t l IH]; intros set H; simpl; [done|]. rewrite <-H by left.
  destruct (ths !! t) as [th|]; [|done]. rewrite !IH by (intros; apply H; by right). done.
Qed.

(** The scan only takes events away, and who stays is not satisfied. *)
Lemma event_scan_bits ths set l : bits_in (event_scan ths set l).2 set.
Proof.
  revert set. induction l as [|t l IH]; intros set; simpl; [apply bits_in_refl|].
  destruct (ths !! t) as [th|]; [|apply bits_in_refl]. destruct (accepts _ _ set).
  - pose proof (IH (left_after (th_event_info th) (Z.land (th_event_set th) set) set)) as H.
    destruct (event_scan ths _ l) as [[wk kept] rest]. simpl in *.
    eapply bits_in_trans; [done|]. apply bits_in_left.
  - pose proof (IH set) as H. by destruct (event_scan ths set l) as [[wk kept] rest].
Qed.

Lemma event_scan_kept ths set l t th : (∀ t, t ∈ l → is_Some (ths !! t)) →
  t ∈ (event_scan ths set l).1.2 → ths !! t = Some th →
  accepts (th_event_info th) (th_event_set th) (event_scan ths set l).2 = false.
Proof.
  revert set. induction l as [|u l IH]; intros set Hl; simpl; [set_solver|].
  destruct (Hl u) as [thu Hu]; [left|]. rewrite Hu.
  assert (∀ t, t ∈ l → is_Some (ths !! t)) as Hl' by (intros; apply Hl; by right).
  destruct (accepts _ _ set) eqn:Ea.
  - set (set' := left_after _ _ set). pose proof (IH set' Hl') as H.
    by destruct (event_scan ths set' l) as [[wk kept] rest].
  - pose proof (IH set Hl') as H. pose proof (event_scan_bits ths set l) as Hb.
    destruct (event_scan ths set l) as [[wk kept] rest]. simpl in *.
    intros [->|Hin]%elem_of_cons Ht; [|by apply H]. simplify_eq.
    destruct (accepts _ _ rest) eqn:Er; [|done]. by rewrite (accepts_mono _ _ _ _ Hb Er) in Ea.
Qed.

(** Each waiting thread is woken or stays. *)
Lemma event_scan_perm ths set l :
  ((event_scan ths set l).1.1.*1 ++ (event_scan ths set l).1.2) ≡ₚ l.
Proof.
  revert set. induction l as [|t l IH]; intros set; simpl; [done|].
  destruct (ths !! t) as [th|]; [|done]. destruct (accepts _ _ set).
  - set (set' := left_after _ _ set). pose proof (IH set').
    destruct (event_scan ths set' l) as [[wk kept] rest]. simpl in *. by constructor.
  - pose proof (IH set) as H. destruct (event_scan ths set l) as [[wk kept] rest]. simpl in *.
    rewrite <-Permutation_middle. by constructor.
Qed.

(** A thread that has received [got]. *)
Definition receives (got : Z) (th : rt_thread) : rt_thread :=
  set_th_stat RT_THREAD_READY (set_th_event_set got th).

(** The threads of [wk] are woken, in this order, the others of the queue stay. *)
Record sent (event : Z) (e : rt_event) (wk : list (Z * Z)) (queue : list Z) (set : Z) (k k' : kern) : Prop := {
  se_inv : kinv k';
  se_event : events k' = <[event := set_ev_set set e]> (events k);
  se_queue : lof (thread_lists k') (QSuspend (OEvent event)) = queue;
  se_woken t got : (t, got) ∈ wk → ∃ th, threads k !! t = Some th ∧ threads k' !! t = Some (receives got th);
  se_threads t : t ∉ wk.*1 → threads k' !! t = threads k !! t;
  se_ready p : lof (thread_lists k') (QReady p) =
    lof (thread_lists k) (QReady p) ++ filter (λ t, priority_of (threads k) t = p) wk.*1;
  se_other y : y ≠ QSuspend (OEvent event) → (∀ p, y ≠ QReady p) →
    lof (thread_lists k') y = lof (thread_lists k) y;
  se_heads y : is_Some (s_lists (thread_lists k) !! y) → is_Some (s_lists (thread_lists k') !! y);
}.

Lemma sent_none event e (k : kern) l : kinv k → events k !! event = Some e →
  lof (thread_lists k) (QSuspend (OEvent event)) = l → sent event e [] l (ev_set e) k k.
Proof.
  intros I He El. split; try done.
  - rewrite insert_id; [done|]. rewrite He. by destruct e.
  - intros t got H. by apply elem_of_nil in H.
  - intros p. symmetry. apply app_nil_r.
Qed.

Section send.
Context (event : Z).

Abbreviation q := (QSuspend (OEvent event)).

(** One waiting thread is woken, then those of [wk]. *)
Lemma sent_step (k k1 k' : kern) e t th got s1 l1 l2 wk kept s' l' : kinv k →
  lof (thread_lists k) q = l1 ++ t :: l2 → threads k !! t = Some th → th_stat th = RT_THREAD_SUSPEND →
  moved 0 t (receives got th) (enqueue t (th_current_priority th) (lof (thread_lists k))) l'
    (with_event event s1 e (with_thread t (set_th_event_set got th) k)) k1 →
  t ∉ wk.*1 → sent event (set_ev_set s1 e) wk (l1 ++ kept) s' k1 k' →
  sent event e ((t, got) :: wk) (l1 ++ kept) s' k k'.
Proof using All.
  intros I El Ht Hs Hm Hn Hw. pose proof (mv_lists _ _ _ _ _ _ _ Hm) as HL.
  pose proof (mv_threads _ _ _ _ _ _ _ Hm) as Hth. simpl in Hth. rewrite insert_insert_eq in Hth.
  assert (th_stat th ≠ RT_THREAD_READY) as Hnr by (by rewrite Hs). split.
  - apply Hw.
  - rewrite (se_event _ _ _ _ _ _ _ Hw), (sr_events _ _ (mv_rest _ _ _ _ _ _ _ Hm)). simpl.
    by rewrite insert_insert_eq.
  - apply Hw.
  - intros u g [[= -> ->]|Hu]%elem_of_cons.
    + exists th. split; [done|]. rewrite (se_threads _ _ _ _ _ _ _ Hw) by done. by rewrite Hth, lookup_insert_eq.
    + destruct (se_woken _ _ _ _ _ _ _ Hw _ _ Hu) as (thu&Hu1&Hu2). exists thu. split; [|done].
      rewrite Hth, lookup_insert_ne in Hu1; [done|]. intros ->. apply Hn, list_elem_of_fmap.
      by exists (u, g).
  - simpl. intros u [Hne Hu]%not_elem_of_cons. rewrite (se_threads _ _ _ _ _ _ _ Hw) by done.
    by rewrite Hth, lookup_insert_ne.
  - intros p. rewrite (se_ready _ _ _ _ _ _ _ Hw), HL. simpl.
    rewrite (filter_ext_elem (λ u, priority_of (threads k1) u = p) (λ u, priority_of (threads k) u = p)).
    2:{ intros u Hu. unfold priority_of. rewrite Hth, lookup_insert_ne; [done|]. by intros ->. }
    assert (priority_of (threads k) t = th_current_priority th) as Ep by (unfold priority_of; by rewrite Ht).
    rewrite filter_cons, Ep. destruct (decide (th_current_priority th = p)) as [<-|Hne].
    + rewrite enqueue_self, (not_ready_del _ _ _ _ I Ht Hnr). by rewrite <-(assoc_L (++)).
    + by rewrite enqueue_other, (not_ready_del _ _ _ _ I Ht Hnr).
  - intros y Hy Hp. rewrite (se_other _ _ _ _ _ _ _ Hw y Hy Hp), HL. unfold enqueue.
    rewrite fn_lookup_insert_ne by (intros <-; by eapply Hp).
    eapply (list_del_other _ t q); [apply I| |done]. rewrite El. set_solver.
  - intros y Hy. by apply (se_heads _ _ _ _ _ _ _ Hw), (mv_heads _ _ _ _ _ _ _ Hm).
Qed.

(** A thread whose condition is satisfied: its events are stored, the set is
    changed and it is resumed. *)
Lemma wp_event_wake {A} (k : kern) e t th (f : bool → M A) (Q : A → kern → Prop) : kinv k →
  events k !! event = Some e → threads k !! t = Some th → th_stat th = RT_THREAD_SUSPEND →
  (accepts (th_event_info th) (th_event_set th) (ev_set e) = false → wp (f false) k Q) →
  (accepts (th_event_info th) (th_event_set th) (ev_set e) = true →
     wp (f true) (with_thread t (set_th_event_set (Z.land (th_event_set th) (ev_set e)) th) k) Q) →
  wp (status ←
        (if has (th_event_info th) RT_EVENT_FLAG_AND then
           mret (bool_decide (Z.land (th_event_set th) (ev_set e) = th_event_set th))
         else if has (th_event_info th) RT_EVENT_FLAG_OR then
           if bool_decide (Z.land (th_event_set th) (ev_set e) ≠ 0) then
             mod_thread t (set_th_event_set (Z.land (th_event_set th) (ev_set e)));;
             mret true
           else mret false
         else mret false); f status) k Q.
Proof using All.
  intros I He Ht Hs H1 H2. apply wp_bind. unfold accepts in *.
  destruct (has (th_event_info th) RT_EVENT_FLAG_AND).
  { apply wp_ret. destruct (decide (Z.land (th_event_set th) (ev_set e) = th_event_set th)) as [E|E].
    - rewrite bool_decide_true in * by done. specialize (H2 eq_refl). rewrite E in H2.
      replace (with_thread _ _ k) with k in H2; [done|]. unfold with_thread.
      replace (set_th_event_set (th_event_set th) th) with th by (by destruct th).
      rewrite insert_id by done. by destruct k.
    - rewrite bool_decide_false in * by done. auto. }
  destruct (has (th_event_info th) RT_EVENT_FLAG_OR); [|apply wp_ret; auto].
  destruct (decide (Z.land (th_event_set th) (ev_set e) ≠ 0)) as [E|E].
  - rewrite bool_decide_true in * by done. apply wp_bind. eapply wp_mod_thread; [done|]. apply wp_ret. auto.
  - rewrite bool_decide_false in * by done. apply wp_ret. auto.
Qed.

Lemma wp_event_send_loop fuel (k : kern) e l1 l2 need (Q : bool → kern → Prop) : kinv k →
  events k !! event = Some e → is_Some (s_lists (thread_lists k) !! q) →
  lof (thread_lists k) q = l1 ++ l2 → (length l2 < fuel)%nat →
  (let '(wk, kept, s') := event_scan (threads k) (ev_set e) l2 in
   ∀ k', sent event e wk (l1 ++ kept) s' k k' → Q (need || bool_decide (wk ≠ [])) k') →
  wp (event_send_loop fuel event (default (Hd q) (El <$> head l2)) need) k Q.
Proof using All.
  revert k e l1 l2 need. induction fuel as [|fuel IH]; intros k e l1 l2 need I He Hh El Hf HQ; [lia|].
  destruct l2 as [|t l2]; cbn [event_send_loop head fmap option_fmap option_map default].
  { wps. cbn [event_scan] in HQ. rewrite bool_decide_false, orb_false_r in HQ by tauto. apply HQ. by apply sent_none. }
  destruct (waiter 0 k I q Logic.I Hh t) as (th&Ht&Hs); [rewrite El; set_solver|].
  cbn [event_scan] in HQ. rewrite Ht in HQ. cbn [length] in Hf.
  apply wp_bind. eapply wp_get_thread; [done|]. apply wp_bind. unfold get_event. eapply wp_kopt; [done|].
  eapply wp_event_wake; [done..| |]; intros Ea; rewrite Ea in HQ; apply wp_bind;
    (eapply wp_kopt; [eapply (s_next_elem _ q l1 t l2); [apply I|done]|]).
  - eapply IH with (l1 := l1 ++ [t]); [done..|by rewrite <-app_assoc|lia|].
    destruct (event_scan (threads k) (ev_set e) l2) as [[wk kept] s'].
    intros k'. rewrite <-app_assoc. apply HQ.
  - set (got := Z.land (th_event_set th) (ev_set e)) in *. set (th1 := set_th_event_set got th).
    set (s1 := left_after (th_event_info th) got (ev_set e)) in *.
    apply wp_bind. eapply (wp_get_thread t th1); [apply lookup_insert_eq|]. apply wp_bind.
    apply (wp_mono _ _ (λ _ k2, k2 = with_event event s1 e (with_thread t th1 k))).
    { unfold s1, left_after, with_event. simpl. destruct (has (th_event_info th) RT_EVENT_FLAG_CLEAR).
      - unfold put_event. by apply wp_kset.
      - apply wp_ret. replace (set_ev_set (ev_set e) e) with e by (by destruct e).
        simpl. rewrite insert_id by done. by destruct k. }
    intros _ k2 ->.
    assert (kinv (with_event event s1 e (with_thread t th1 k))) as I2.
    { apply (kinv_at_irrelevant 0 (with_thread t th1 k)); [|done..].
      eapply kinv_thread; [done..|]. by destruct (thread_ok _ _ _ _ I Ht). }
    apply wp_bind. eapply (wp_resume 0 _ t th1 I2); [apply lookup_insert_eq|done|]. intros k1 Hm.
    assert (t ∉ l1 ++ l2) as Hn.
    { pose proof (swf_nodup _ (si_swf _ _ (ki_store _ _ I)) q) as Hnd. rewrite El in Hnd.
      rewrite <-Permutation_middle in Hnd. by apply NoDup_cons in Hnd as [? _]. }
    pose proof (mv_lists _ _ _ _ _ _ _ Hm) as HL.
    eapply IH with (l1 := l1) (e := set_ev_set s1 e); [apply Hm| | | |lia|].
    + rewrite (sr_events _ _ (mv_rest _ _ _ _ _ _ _ Hm)). apply lookup_insert_eq.
    + by apply (mv_heads _ _ _ _ _ _ _ Hm).
    + rewrite HL. unfold enqueue. rewrite fn_lookup_insert_ne by done.
      apply (list_del_split t _ q l1 l2); [done|set_solver..].
    + rewrite (event_scan_ext (threads k1) (threads k)).
      2:{ intros u Hu. rewrite (mv_threads _ _ _ _ _ _ _ Hm). simpl.
          rewrite !lookup_insert_ne; [done|set_solver..]. }
      simpl. pose proof (event_scan_perm (threads k) s1 l2) as Hp.
      destruct (event_scan (threads k) s1 l2) as [[wk kept] s'].
      intros k' Hk'. rewrite bool_decide_true, orb_true_r in HQ by done. apply HQ.
      simpl in Hp.
      eapply (sent_step k k1 k' e t th got s1 l1 l2); [done..|exact Hm| |done].
      intros Hin. apply Hn. rewrite <-Hp. set_solver.
Qed.

End send.

Lemma sent_ready event e wk queue s' (k k' : kern) : sent event e wk queue s' k k' → wk ≠ [] →
  some_ready (lof (thread_lists k')).
Proof.
  intros Hw Hne. destruct wk as [|[t got] wk]; [done|].
  destruct (se_woken _ _ _ _ _ _ _ Hw t got) as (th&_&Ht); [left|]. pose proof (se_inv _ _ _ _ _ _ _ Hw) as I.
  exists (th_current_priority th). split; [apply (thread_ok _ _ _ _ I Ht)|].
  pose proof (ti_ready _ _ (ki_threads _ _ I) t _ Ht eq_refl) as Hin. simpl in Hin. intros E.
  rewrite E in Hin. by apply elem_of_nil in Hin.
Qed.

(** The set may be changed and the interrupts masked before. *)
Lemma sent_before event e s0 wk queue s' (k k' : kern) :
  sent event (set_ev_set s0 e) wk queue s' (with_event event s0 e (set_primask 1 k)) k' →
  sent event e wk queue s' k (set_primask (primask k) k').
Proof.
  intros [Hi He Hq Hw Ht Hr Ho Hh]. split; try done; simpl in *.
  - by apply (kinv_at_irrelevant 0 k').
  - by rewrite He, insert_insert_eq.
Qed.

(** The whole send. *)
Lemma wp_event_send (k : kern) event e set (Q : Z → kern → Prop) : kinv k →
  events k !! event = Some e → event_ok k event e → set ≠ 0 →
  (let '(wk, kept, s') :=
     event_scan (threads k) (Z.lor (ev_set e) set) (lof (thread_lists k) (QSuspend (OEvent event))) in
   ∀ k1 k', sent event e wk kept s' k k1 →
     (if bool_decide (wk ≠ []) then scheduled k1 k' else k' = k1) → Q RT_EOK k') →
  wp (rt_event_send event set) k Q.
Proof.
  intros I He [Hnull _ Hh] Hset HQ.
  unfold rt_event_send. wps. rewrite bool_decide_false by done. wps. unfold get_event. eapply wp_kopt; [done|].
  unfold put_event. wps. set (s0 := Z.lor (ev_set e) set) in *.
  change (set_events _ (set_primask 1 k)) with (with_event event s0 e (set_primask 1 k)).
  set (k0 := with_event event s0 e (set_primask 1 k)). eapply wp_kopt; [by apply s_isempty_spec|].
  assert (kinv k0) as I0 by (by apply (kinv_at_irrelevant 0 k)).
  assert (events k0 !! event = Some (set_ev_set s0 e)) as He0 by apply lookup_insert_eq.
  apply wp_bind. eapply (wp_mono _ _ (λ need k2,
    let '(wk, kept, s') := event_scan (threads k) s0 (lof (thread_lists k) (QSuspend (OEvent event))) in
    need = bool_decide (wk ≠ []) ∧ sent event (set_ev_set s0 e) wk kept s' k0 k2)).
  - change (thread_lists k0) with (thread_lists k). case_bool_decide as E.
    + apply wp_ret. rewrite E. split; [by rewrite bool_decide_false by tauto|]. by apply sent_none.
    + apply wp_bind. eapply wp_kopt; [by apply s_next_head|]. apply wp_bind, wp_gets.
      eapply (wp_event_send_loop event _ k0 (set_ev_set s0 e) []); [done..| |].
      * apply Nat.lt_succ_r, NoDup_keys_size; [apply (ki_store _ _ I)|]. intros x Hx.
        destruct (ti_queue _ _ (ki_threads _ _ I) _ x Hx) as (?&Hx'&_). eauto.
      * simpl. by destruct (event_scan (threads k) s0 _) as [[wk kept] s'].
  - intros need k2. destruct (event_scan (threads k) s0 _) as [[wk kept] s'].
    intros [-> Hs%sent_before]. wps. specialize (HQ (set_primask (primask k) k2)). case_bool_decide as E.
    + eapply wp_schedule_any; [apply Hs|by eapply sent_ready|]. intros k' Hk'. wps. by apply HQ.
    + wps. by apply HQ.
Qed.

(** ** The calls *)

(** An empty set is refused. *)
Lemma wp_event_send_none (k : kern) event e (Q : Z → kern → Prop) : event_ok k event e →
  Q (- RT_ERROR) k → wp (rt_event_send event 0) k Q.
Proof. intros [Hnull _ _] HQ. unfold rt_event_send. wps. by rewrite bool_decide_true by done. Qed.

Lemma wp_event_recv_none (k : kern) event e t th option timeout (Q : recv_outcome → kern → Prop) :
  event_ok k event e → calls k t th → Q (Received (- RT_ERROR) None) k →
  wp (rt_event_recv event 0 option timeout) k Q.
Proof.
  intros [Hnull _ _] Hca HQ. unfold rt_event_recv.
  apply wp_bind, (wp_check_context k t th Hca); [done..|]. wps. by rewrite bool_decide_true by done.
Qed.

(** [rt_event_recv] on every branch: an empty set is refused; a receiver
    whose condition holds (all events of an AND, one of an OR) gets exactly the
    events it asked for that are set, and with CLEAR they are removed; otherwise
    it times out at once with a timeout of 0, or else waits in the event's queue
    with its condition recorded. *)
Theorem rt_event_recv_correct (k : kern) event e t th set option timeout :
  events k !! event = Some e → event_ok k event e → calls k t th →
  has option RT_EVENT_FLAG_AND || has option RT_EVENT_FLAG_OR = true → timeout < RT_TICK_MAX / 2 →
  if bool_decide (set = 0) then rt_event_recv event set option timeout k = Ok (Received (- RT_ERROR) None) k
  else if accepts option set (ev_set e) then
    rt_event_recv event set option timeout k =
      Ok (Received RT_EOK (Some (Z.land (ev_set e) set)))
         (with_event event (left_after option set (ev_set e)) e (with_thread t (set_th_error RT_EOK th) k))
  else if bool_decide (timeout = 0) then
    rt_event_recv event set option timeout k =
      Ok (Received (- RT_ETIMEOUT) None) (with_thread t (set_th_error (- RT_ETIMEOUT) th) k)
  else ∃ k1 k', rt_event_recv event set option timeout k = Ok RecvWaits k' ∧
    blocked 0 t (set_th_stat RT_THREAD_SUSPEND (expects set option th))
      (waits_in k t th (QSuspend (OEvent event)) (ev_flag e)) (wait_time timeout) k k1 ∧
    scheduled k1 k' ∧ rt_current_thread k' ≠ t.
Proof.
  intros Hev Hok Hca Hopt Htime. case_bool_decide as Hset.
  { assert (wp (rt_event_recv event set option timeout) k
      (λ r k', r = Received (- RT_ERROR) None ∧ k' = k)) as (?&?&?&->&->)%wp_run; [|done].
    subst. by eapply wp_event_recv_none. }
  assert (wp (rt_event_recv event set option timeout) k (λ r k',
    if accepts option set (ev_set e) then r = Received RT_EOK (Some (Z.land (ev_set e) set)) ∧
      k' = with_event event (left_after option set (ev_set e)) e (with_thread t (set_th_error RT_EOK th) k)
    else if bool_decide (timeout = 0) then r = Received (- RT_ETIMEOUT) None ∧
      k' = with_thread t (set_th_error (- RT_ETIMEOUT) th) k
    else r = RecvWaits ∧ ∃ k1, blocked 0 t (set_th_stat RT_THREAD_SUSPEND (expects set option th))
      (waits_in k t th (QSuspend (OEvent event)) (ev_flag e)) (wait_time timeout) k k1 ∧
      scheduled k1 k' ∧ rt_current_thread k' ≠ t)) as (r&k'&E&H)%wp_run.
  { eapply (wp_event_recv k event e Hev Hok t th Hca); [done|by rewrite Hopt|done|..].
    - by intros ->.
    - intros -> ->. done.
    - intros -> Hne k1 k' Hb Hk Hc. rewrite bool_decide_false by done. split; [done|]. by exists k1. }
  rewrite E. destruct (accepts option set (ev_set e)); [by destruct H as [-> ->]|].
  case_bool_decide; [by destruct H as [-> ->]|]. destruct H as (->&k1&H). by exists k1, k'.
Qed.

Lemma rt_event_recv_correct_witness :
  ∃ k', rt_event_recv the_event 4 6 0 (demo [Call (CEventSend the_event 5)]) =
          Ok (Received RT_EOK (Some 4)) k'.
Proof.
  set (k := demo [Call (CEventSend the_event 5)]).
  destruct (threads k !! thread_a) as [th|] eqn:E; [|vm_compute in E; discriminate E].
  eexists. refine (rt_event_recv_correct k the_event (Event 0 5) thread_a th 4 6 0 _ _ _ _ _).
  - vm_compute. reflexivity.
  - split; [discriminate|left; reflexivity|vm_compute; eexists; reflexivity].
  - apply calls_b_sound; [vm_compute; reflexivity|exact E].
  - reflexivity.
  - reflexivity.
Defined.

(** C13: [rt_event_send] adds the events and scans the waiting threads in their
    order; each whose condition then holds is made ready with the events it
    receives, and when it asked for CLEAR they are removed before the next one
    is looked at.  The others keep their places, an empty set is refused, and
    the scheduler runs exactly when somebody was woken. *)
Theorem rt_event_send_correct (k : kern) event e set : events k !! event = Some e →
  event_ok k event e → kinv k →
  if bool_decide (set = 0) then rt_event_send event set k = Ok (- RT_ERROR) k
  else
    let '(wk, kept, rest) :=
      event_scan (threads k) (Z.lor (ev_set e) set) (lof (thread_lists k) (QSuspend (OEvent event))) in
    ∃ k1 k', rt_event_send event set k = Ok RT_EOK k' ∧ sent event e wk kept rest k k1 ∧
      if bool_decide (wk ≠ []) then scheduled k1 k' else k' = k1.
Proof.
  intros Hev Hok I. case_bool_decide as Hset.
  { assert (wp (rt_event_send event set) k (λ r k', r = - RT_ERROR ∧ k' = k)) as (?&?&?&->&->)%wp_run; [|done].
    subst. by eapply wp_event_send_none. }
  pose proof (wp_event_send k event e set) as H.
  destruct (event_scan _ _ _) as [[wk kept] rest].
  assert (wp (rt_event_send event set) k (λ r k', r = RT_EOK ∧ ∃ k1, sent event e wk kept rest k k1 ∧
     if bool_decide (wk ≠ []) then scheduled k1 k' else k' = k1)) as (r&k'&E&->&k1&H1)%wp_run.
  { eapply H; [done..|]. intros k1 k' H1 H2. split; [done|]. by exists k1. }
  by exists k1, k'.
Qed.

(** [thread_a] waits for event 4 or 16 and clears what it gets; 12 is sent. *)
Lemma rt_event_send_correct_witness :
  let k := demo [Call (CEventRecv the_event 20 6 10)] in
  ∃ k1 k', rt_event_send the_event 12 k = Ok RT_EOK k' ∧
    sent the_event (Event 0 0) [(thread_a, 4)] [] 8 k k1 ∧ scheduled k1 k'.
Proof.
  intros k. pose proof (rt_event_send_correct k the_event (Event 0 0) 12) as H.
  rewrite bool_decide_false in H by discriminate.
  replace (event_scan _ _ _) with ([(thread_a, 4)], [] : list Z, 8) in H by (vm_compute; reflexivity).
  apply H.
  - vm_compute. reflexivity.
  - split; [discriminate|left; reflexivity|vm_compute; eexists; reflexivity].
  - apply kinv_b_sound. vm_compute. reflexivity.
Defined.

(** No thread waits for events that are set. *)
Definition settled (k : kern) (event : Z) (e : rt_event) : Prop :=
  ∀ t th, t ∈ lof (thread_lists k) (QSuspend (OEvent event)) → threads k !! t = Some th →
    accepts (th_event_info th) (th_event_set th) (ev_set e) = false.

(** The event at [event] is in order. *)
Definition event_inv (k : kern) (event : Z) : Prop :=
  kinv k ∧ ∃ e, events k !! event = Some e ∧ event_ok k event e ∧ settled k event e.

Lemma sent_settled event e wk kept rest (k k1 k' : kern) set : kinv k → event_ok k event e →
  event_scan (threads k) set (lof (thread_lists k) (QSuspend (OEvent event))) = (wk, kept, rest) →
  sent event e wk kept rest k k1 → (if bool_decide (wk ≠ []) then scheduled k1 k' else k' = k1) →
  event_inv k' event.
Proof.
  intros I [Hnull Hflag Hh] Es Hw Hk.
  assert (same_but_current k1 k' ∧ kinv k') as [Hs I'].
  { case_bool_decide; [|by subst; split; [|apply Hw]].
    split; [by apply scheduled_same|]. eapply scheduled_inv; [apply Hw|done]. }
  split; [done|]. exists (set_ev_set rest e). rewrite (sc_events _ _ Hs), (se_event _ _ _ _ _ _ _ Hw).
  rewrite lookup_insert_eq. split_and!; [done| |].
  { split; [done..|]. rewrite (sc_lists _ _ Hs). by apply (se_heads _ _ _ _ _ _ _ Hw). }
  intros t th. rewrite (sc_lists _ _ Hs), (sc_threads _ _ Hs), (se_queue _ _ _ _ _ _ _ Hw). intros Hin.
  pose proof (swf_nodup _ (si_swf _ _ (ki_store _ _ I)) (QSuspend (OEvent event))) as Hnd.
  pose proof (event_scan_perm (threads k) set (lof (thread_lists k) (QSuspend (OEvent event)))) as Hp.
  rewrite Es in Hp. simpl in Hp. rewrite <-Hp in Hnd. apply NoDup_app in Hnd as (_&Hdis&_).
  rewrite (se_threads _ _ _ _ _ _ _ Hw) by (intros H; by apply (Hdis t)). intros Ht.
  pose proof (event_scan_kept (threads k) set (lof (thread_lists k) (QSuspend (OEvent event))) t th) as H.
  rewrite Es in H. apply H; [|done..]. intros u Hu.
  destruct (ti_queue _ _ (ki_threads _ _ I) _ u Hu) as (?&?&_). eauto.
Qed.

(** Fewer events, and the same conditions of the waiting threads. *)
Lemma settled_less (k k' : kern) event e e' : settled k event e →
  lof (thread_lists k') (QSuspend (OEvent event)) = lof (thread_lists k) (QSuspend (OEvent event)) →
  (∀ t th', threads k' !! t = Some th' → ∃ th, threads k !! t = Some th ∧
     th_event_info th' = th_event_info th ∧ th_event_set th' = th_event_set th) →
  bits_in (ev_set e') (ev_set e) → settled k' event e'.
Proof.
  intros Hs El Hth Hb t th' Hin Ht. rewrite El in Hin. destruct (Hth _ _ Ht) as (th&Ht0&->&->).
  specialize (Hs t th Hin Ht0). destruct (accepts _ _ (ev_set e')) eqn:E; [|done].
  by rewrite (accepts_mono _ _ _ _ Hb E) in Hs.
Qed.

(** The caller's error code is not looked at. *)
Lemma with_thread_conditions (k : kern) t th err u th' : threads k !! t = Some th →
  threads (with_thread t (set_th_error err th) k) !! u = Some th' →
  ∃ th0, threads k !! u = Some th0 ∧ th_event_info th' = th_event_info th0 ∧ th_event_set th' = th_event_set th0.
Proof.
  intros Ht. simpl. destruct (decide (t = u)) as [<-|Hne].
  - rewrite lookup_insert_eq. intros [= <-]. eauto.
  - rewrite lookup_insert_ne by done. eauto.
Qed.

(** The caller waits because its condition does not hold. *)
Lemma blocked_settled (k k1 k' : kern) event e t th set option time : calls k t th →
  events k !! event = Some e → event_ok k event e → settled k event e →
  accepts option set (ev_set e) = false →
  blocked 0 t (set_th_stat RT_THREAD_SUSPEND (expects set option th))
    (waits_in k t th (QSuspend (OEvent event)) (ev_flag e)) time k k1 →
  scheduled k1 k' → event_inv k' event.
Proof.
  intros Hca He [Hnull Hflag Hh] Hst Ha Hb Hk. apply scheduled_same in Hk as Hs.
  split; [eapply scheduled_inv; [apply Hb|done]|]. exists e.
  rewrite (sc_events _ _ Hs), (sr_events _ _ (bl_rest _ _ _ _ _ _ _ Hb)). split_and!; [done| |].
  { split; [done..|]. rewrite (sc_lists _ _ Hs). by apply (bl_heads _ _ _ _ _ _ _ Hb). }
  intros u thu. rewrite (sc_lists _ _ Hs), (sc_threads _ _ Hs), (bl_lists _ _ _ _ _ _ _ Hb), (bl_threads _ _ _ _ _ _ _ Hb).
  unfold waits_in. rewrite fn_lookup_insert.
  destruct (wait_insert_split (ev_flag e) (threads k) t (th_current_priority th)
    (lof (thread_lists k) (QSuspend (OEvent event)))) as (l1&l2&E&->).
  intros Hin. destruct (decide (t = u)) as [<-|Hne]; [rewrite lookup_insert_eq; by intros [= <-]|].
  rewrite lookup_insert_ne by done. apply Hst. rewrite E. set_solver.
Qed.

(** C14: No wakeup is lost: sending and receiving keep the invariant that no
    thread waits on an event whose set already satisfies its condition (with
    the kernel's own invariant), whichever branch the call takes. *)
Theorem event_no_lost_wakeup (k : kern) event : event_inv k event →
  (∀ set, ∃ r k', rt_event_send event set k = Ok r k' ∧ event_inv k' event) ∧
  (∀ t th set option timeout, calls k t th →
     has option RT_EVENT_FLAG_AND || has option RT_EVENT_FLAG_OR = true → timeout < RT_TICK_MAX / 2 →
     ∃ r k', rt_event_recv event set option timeout k = Ok r k' ∧ event_inv k' event).
Proof.
  intros (I&e&He&Hok&Hst). split.
  - intros set. apply wp_run. destruct (decide (set = 0)) as [->|Hset].
    { eapply wp_event_send_none; [done|]. split; [done|]. by exists e. }
    pose proof (wp_event_send k event e set) as H.
    destruct (event_scan _ _ _) as [[wk kept] rest] eqn:Es. eapply H; [done..|].
    intros k1 k' Hw Hk. by eapply sent_settled.
  - intros t th set option timeout Hca Hopt Htime. apply wp_run.
    destruct (decide (set = 0)) as [->|Hset].
    { eapply wp_event_recv_none; [done..|]. split; [done|]. by exists e. }
    pose proof Hok as [Hnull Hflag Hh]. pose proof (calls_error k t th) as Hce.
    eapply (wp_event_recv k event e He Hok t th Hca); [done|by rewrite Hopt|done|..].
    + intros _. split; [apply (kinv_at_irrelevant 0 (with_thread t (set_th_error RT_EOK th) k)); [|done..]; by apply Hce|].
      eexists. split; [apply lookup_insert_eq|]. split; [by split|].
      eapply (settled_less k); [done|done| |apply bits_in_left]. intros u th'. by apply with_thread_conditions, Hca.
    + intros _ _. split; [by apply Hce|]. exists e. split; [done|]. split; [by split|].
      eapply (settled_less k); [done|done| |apply bits_in_refl]. intros u th'. by apply with_thread_conditions, Hca.
    + intros Ha Hne k1 k' Hb Hk _. by eapply blocked_settled.
Qed.

Lemma event_no_lost_wakeup_witness :
  let k := demo [Call (CEventRecv the_event 20 6 10)] in
  ∃ r k', rt_event_send the_event 8 k = Ok r k' ∧ event_inv k' the_event.
Proof.
  intros k. refine (proj1 (event_no_lost_wakeup k the_event _) 8).
  split; [apply kinv_b_sound; vm_compute; reflexivity|]. exists (Event 0 0). split_and!.
  - vm_compute. reflexivity.
  - split; [discriminate|left; reflexivity|vm_compute; eexists; reflexivity].
  - intros t th Hin Ht.
    replace (lof (thread_lists k) (QSuspend (OEvent the_event))) with [thread_a] in Hin
      by (vm_compute; reflexivity).
    apply list_elem_of_singleton in Hin as ->.
    assert (option_map (λ th, accepts (th_event_info th) (th_event_set th) 0) (threads k !! thread_a) = Some false)
      as Ha by (vm_compute; reflexivity).
    rewrite Ht in Ha. injection Ha as Ha. exact Ha.
Defined.
