(* ===== verification/PoolProof.v ===== *)
(** * Memory pools

    A pool hands out each of its blocks to one owner at a time; allocation,
    release and waiting on every branch, the initial list of blocks, and what
    goes wrong after a wait has timed out. *)

From S2P Require Import Prelude DList ListStore SeqLemmas KString KState Scheduler ObjectSys Timer ThreadSys Ipc MailBox MemPool KernelWp KernelInv System KernelCheck SchedProof TimerProof ThreadProof Clock ClockProof IpcProof SemProof MailProof QueueProof.

(** ** The shape of a pool *)

(** The blocks of a pool, each with its word in front. *)
Definition mp_blocks (p : rt_mempool) : list Z :=
  (λ i, mp_start_address p + i * (mp_block_size p + SIZEOF_PTR)) <$> seqZ 0 (mp_block_total_count p).

Record mp_shape (words : gmap Z Z) (mp : Z) (p : rt_mempool) (free used : list Z) : Prop := {
  mh_null : mp ≠ RT_NULL;
  mh_free : linked words (mp_block_list p) free;
  mh_used x : x ∈ used → words !! x = Some mp;
  mh_blocks : free ++ used ≡ₚ mp_blocks p;
  mh_count : mp_block_free_count p = zlen free;
  mh_start : 0 < mp_start_address p;
  mh_size : 0 <= mp_block_size p;
  mh_total : 0 <= mp_block_total_count p < 2 ^ 32;
}.

Lemma mp_blocks_nodup p : 0 <= mp_block_size p → NoDup (mp_blocks p).
Proof.
  intros Hs. unfold mp_blocks. apply NoDup_fmap_2_strong; [|apply NoDup_seqZ].
  intros i j _ _. unfold SIZEOF_PTR. intros E. assert ((i - j) * (mp_block_size p + 4) = 0) by lia. nia.
Qed.

Lemma mp_shape_nodup words mp p free used : mp_shape words mp p free used → NoDup (free ++ used).
Proof. intros H. rewrite (mh_blocks _ _ _ _ _ H). apply mp_blocks_nodup, H. Qed.

Lemma mp_shape_lengths words mp p free used : mp_shape words mp p free used →
  zlen free + zlen used = mp_block_total_count p.
Proof.
  intros H. rewrite <-zlen_app. unfold zlen. rewrite (mh_blocks _ _ _ _ _ H).
  unfold mp_blocks. rewrite length_fmap, length_seqZ. pose proof (mh_total _ _ _ _ _ H). lia.
Qed.

Lemma mp_block_null words mp p free used x : mp_shape words mp p free used →
  x ∈ free ++ used → x ≠ RT_NULL.
Proof.
  intros H Hx. rewrite (mh_blocks _ _ _ _ _ H) in Hx.
  apply list_elem_of_fmap in Hx as (i&->&Hi). apply elem_of_seqZ in Hi. pose proof (mh_start _ _ _ _ _ H).
  pose proof (mh_size _ _ _ _ _ H). unfold SIZEOF_PTR, RT_NULL. nia.
Qed.

(** A block is taken. *)
Definition mp_taken (next : Z) (p : rt_mempool) : rt_mempool :=
  set_mp_block_list next (set_mp_block_free_count (u32 (mp_block_free_count p - 1)) p).

Lemma mp_shape_take words mp p x free used : mp_shape words mp p (x :: free) used →
  ∃ next, mp_block_list p = x ∧ x ≠ RT_NULL ∧ words !! x = Some next ∧
    mp_shape (<[x := mp]> words) mp (mp_taken next p) free (x :: used).
Proof.
  intros H. pose proof (mp_shape_nodup _ _ _ _ _ H) as Hnd. pose proof (mp_shape_lengths _ _ _ _ _ H) as Hl.
  pose proof H as [Hnull (Eh&Hx0&next&Hn&Hf) Hu Hb Hc Hst Hs Ht]. apply NoDup_cons in Hnd as [Hx _].
  exists next. split_and!; [done..|]. split; simpl; try done.
  - apply linked_insert; [set_solver|done].
  - intros y [->|Hy]%elem_of_cons; [apply lookup_insert_eq|].
    rewrite lookup_insert_ne; [by apply Hu|]. intros ->. set_solver.
  - unfold mp_blocks. simpl. fold (mp_blocks p). by rewrite <-Hb, <-Permutation_middle.
  - rewrite Hc. rewrite zlen_cons in *. pose proof (zlen_nonneg free). pose proof (zlen_nonneg used).
    rewrite u32_small by (unfold in_u32; lia). lia.
Qed.

(** A block is given back. *)
Definition mp_given (x : Z) (p : rt_mempool) : rt_mempool :=
  set_mp_block_list x (set_mp_block_free_count (u32 (mp_block_free_count p + 1)) p).

Lemma mp_shape_give words mp p free used1 x used2 :
  mp_shape words mp p free (used1 ++ x :: used2) →
  words !! x = Some mp ∧
  mp_shape (<[x := mp_block_list p]> words) mp (mp_given x p) (x :: free) (used1 ++ used2).
Proof.
  intros H. pose proof (mp_shape_nodup _ _ _ _ _ H) as Hnd. pose proof (mp_shape_lengths _ _ _ _ _ H) as Hl.
  pose proof H as [Hnull Hf Hu Hb Hc Hst Hs Ht].
  assert (x ≠ RT_NULL) as Hx0 by (eapply mp_block_null; [done|set_solver]).
  rewrite <-Permutation_middle, <-Permutation_middle in Hnd. apply NoDup_cons in Hnd as [Hx _].
  split; [apply Hu; set_solver|]. split; simpl; try done.
  - split_and!; [done..|]. exists (mp_block_list p). rewrite lookup_insert_eq. split; [done|].
    apply linked_insert; [set_solver|done].
  - intros y Hy. rewrite lookup_insert_ne; [apply Hu; set_solver|]. intros <-. set_solver.
  - unfold mp_blocks. simpl. fold (mp_blocks p). by rewrite <-Hb, <-!Permutation_middle.
  - rewrite Hc, !zlen_app, zlen_cons in *. pose proof (zlen_nonneg free). pose proof (zlen_nonneg used1).
    pose proof (zlen_nonneg used2). rewrite u32_small by (unfold in_u32; lia). lia.
Qed.

(** The number of waiting threads does not matter. *)
Lemma mp_shape_suspend words mp p free used n : mp_shape words mp p free used →
  mp_shape words mp (set_mp_suspend_thread_count n p) free used.
Proof. intros []. by split. Qed.

(** ** The calls *)

(** The count of waiting threads and the list of them.  The pool also counts
    [late] threads that are not in the list any more: those whose wait timed out,
    which nobody subtracts. *)
Record mp_ok (k : kern) (mp : Z) (p : rt_mempool) (free used : list Z) (late : Z) : Prop := {
  mk_shape : mp_shape (pool_words k) mp p free used;
  mk_head : is_Some (s_lists (thread_lists k) !! QSuspend (OMemPool mp));
  mk_waiting : mp_suspend_thread_count p =
    zlen (lof (thread_lists k) (QSuspend (OMemPool mp))) + late;
  mk_late : 0 <= late;
  mk_range : mp_suspend_thread_count p < 2 ^ 32;
}.

Definition with_mp (mp : Z) (p : rt_mempool) (k : kern) : kern :=
  set_mempools (<[mp := p]> (mempools k)) k.

Definition with_word (a v : Z) (k : kern) : kern := set_pool_words (<[a := v]> (pool_words k)) k.

Lemma with_mp_mp mp p p' k : with_mp mp p' (with_mp mp p k) = with_mp mp p' k.
Proof. unfold with_mp. simpl. by rewrite insert_insert_eq. Qed.

Lemma moved_with_mp lo t th' L' l' mp p (k k' : kern) : moved lo t th' L' l' k k' →
  moved lo t th' L' l' (with_mp mp p k) (with_mp mp p k').
Proof.
  intros [Hr Hi Ht Hl Hh Htl Htm]. split; try done.
  - clear -Hr. destruct k, k'. injection Hr. intros. by subst.
  - by apply (kinv_at_irrelevant lo k').
Qed.

Section pool.
Context (k : kern) (mp : Z) (p : rt_mempool) (free used : list Z) (late : Z).
Context (Hmp : mempools k !! mp = Some p) (Hok : mp_ok k mp p free used late).

Abbreviation q := (QSuspend (OMemPool mp)).

(** One more thread waits, in front of the others. *)
Definition mp_waits (t : Z) (th : rt_thread) (time : Z) (k' : kern) : Prop :=
  rt_current_thread k' ≠ t ∧ ∃ k1,
    blocked 0 t (set_th_stat RT_THREAD_SUSPEND (set_th_error RT_EOK th))
      (<[q := t :: lof (thread_lists k) q]> (list_del t (lof (thread_lists k)))) (wait_time time)
      (with_mp mp (set_mp_suspend_thread_count (mp_suspend_thread_count p + 1) p) k) k1 ∧
    scheduled k1 k'.

Lemma wp_mp_alloc t th time (Q : mp_outcome → kern → Prop) : calls k t th → time < RT_TICK_MAX / 2 →
  mp_suspend_thread_count p + 1 < 2 ^ 32 →
  (∀ x free' next, free = x :: free' → pool_words k !! x = Some next →
     Q (MpReturns (x + SIZEOF_PTR)) (with_word x mp (with_mp mp (mp_taken next p) k))) →
  (free = [] → time = 0 →
     Q (MpReturns RT_NULL) (set_threads (<[t := set_th_error (- RT_ETIMEOUT) th]> (threads k)) k)) →
  (free = [] → time ≠ 0 → ∀ k', mp_waits t th time k' → Q (MpWaits time (start_tick time k)) k') →
  wp (rt_mp_alloc mp time) k Q.
Proof using All.
  intros Hca Htime Hroom H1 H2 H3. pose proof Hok as [Hsh Hh Hw Hla Hr].
  unfold rt_mp_alloc, rt_thread_self. wps. rewrite (ca_current _ _ _ Hca). cbn [mp_alloc_loop].
  apply wp_bind. unfold get_mp. eapply wp_kopt; [exact Hmp|]. rewrite (mh_count _ _ _ _ _ Hsh).
  destruct free as [|x free'].
  - rewrite bool_decide_true by done. destruct (decide (time = 0)) as [E|E].
    { rewrite bool_decide_true by done. specialize (H2 eq_refl E). apply wp_bind, wp_enable, wp_bind.
      unfold rt_set_errno, errno_thread, rt_thread_self. wps. simpl. rewrite (ca_nest _ _ _ Hca).
      rewrite bool_decide_false by (by intros []). wps. simpl. rewrite (ca_current _ _ _ Hca).
      rewrite bool_decide_false by (by eapply calls_null). eapply wp_mod_thread; [apply Hca|]. wps.
      simpl. by destruct k. }
    rewrite bool_decide_false by done. apply wp_bind, wp_not_in_interrupt; [apply Hca|].
    apply wp_bind. eapply wp_mod_thread; [apply Hca|]. apply wp_bind. unfold mp_wait.
    pose proof (calls_error k t th RT_EOK Hca) as Hca1. set (th1 := set_th_error RT_EOK th) in *.
    set (k0 := set_threads (<[t := th1]> (threads k)) k) in *.
    change (set_threads _ (set_primask 1 k)) with (set_primask 1 k0).
    pose proof (calls_primask _ _ _ Hca1) as [I1 Hc1 Ht1 Hs1 _ _ _].
    eapply (wp_suspend_first 0 (set_primask 1 k0) t th1 I1 Ht1 Hs1 q); [done|done|].
    intros k1 Hm. apply wp_bind. unfold get_mp, put_mp.
    eapply wp_kopt; [by rewrite (sr_mempools _ _ (mv_rest _ _ _ _ _ _ _ Hm))|]. apply wp_bind, wp_kset.
    assert (u32 (mp_suspend_thread_count p + 1) = mp_suspend_thread_count p + 1) as ->.
    { apply u32_small. pose proof (zlen_nonneg (lof (thread_lists k) q)). unfold in_u32. lia. }
    set (p1 := set_mp_suspend_thread_count _ p).
    change (set_mempools _ k1) with (with_mp mp p1 k1). apply (moved_with_mp _ _ _ _ _ mp p1) in Hm.
    apply wp_bind, (wp_mono _ _ (λ b k', b = start_tick time k ∧ k' = with_mp mp p1 k1)).
    { unfold start_tick. case_bool_decide; [|done]. split; [|done].
      by rewrite (sr_tick _ _ (mv_rest _ _ _ _ _ _ _ Hm)). }
    intros b k2 [-> ->].
    assert (calls (with_mp mp p1 k0) t th1) as Hca2.
    { destruct Hca1. split; try done. by apply (kinv_at_irrelevant 0 k0). }
    eapply (wp_start_timer 0 (with_mp mp p1 (set_primask 1 k0)) t th1); [|done|done|lia|done|exact Hm|].
    { apply (kinv_at_irrelevant 0 k0); [apply Hca1|done..]. }
    intros k2 Hb. eapply (wp_leave _ t th1 Hca2); [|exact Hb|].
    { intros p0. by rewrite fn_lookup_insert_ne. }
    clear k1 k2 Hm Hb. intros k1 k' Hb Hk' Hne. wps. rewrite bool_decide_false by done. wps.
    apply H3; [done|done|]. split; [done|]. exists k1. split; [|done].
    exact (blocked_set_thread 0 t th1 _ _ _ (with_mp mp p1 k) k1 Hb).
  - rewrite bool_decide_false by (rewrite zlen_cons; pose proof (zlen_nonneg free'); lia).
    destruct (mp_shape_take _ _ _ _ _ _ Hsh) as (next&Eb&Hx0&Hn&_). specialize (H1 x free' next eq_refl Hn).
    unfold mp_take, get_mp, put_mp. apply wp_bind. eapply wp_kopt; [exact Hmp|]. cbv zeta. simpl. rewrite Eb.
    wps. eapply wp_kopt; [exact Hn|]. wps. by destruct k.
Qed.

(** The pool after the block [x] was given back, with [n] threads waiting. *)
Definition mp_after (x n : Z) : kern :=
  with_mp mp (set_mp_suspend_thread_count n (mp_given x p)) (with_word x (mp_block_list p) k).

Lemma wp_mp_free used1 x used2 (Q : unit → kern → Prop) : used = used1 ++ x :: used2 → kinv k →
  ¬ (lof (thread_lists k) q = [] ∧ 0 < late) →
  (lof (thread_lists k) q = [] → late = 0 → Q tt (mp_after x 0)) →
  (∀ t rest th k1 k', lof (thread_lists k) q = t :: rest → threads k !! t = Some th →
     th_stat th = RT_THREAD_SUSPEND →
     moved 0 t (set_th_stat RT_THREAD_READY (set_th_error RT_EOK th))
       (enqueue t (th_current_priority th) (lof (thread_lists k)))
       (filter (λ r, r ≠ ThreadTimer t) (lof (timer_list k) tt)) (mp_after x (zlen rest + late)) k1 →
     scheduled k1 k' → Q tt k') →
  wp (rt_mp_free (x + SIZEOF_PTR)) k Q.
Proof using All.
  intros Eu I Hnot H1 H2. pose proof Hok as [Hsh Hh Hw Hla Hr]. rewrite Eu in Hsh.
  destruct (mp_shape_give _ _ _ _ _ _ _ Hsh) as [Hx _].
  unfold rt_mp_free, get_mp, put_mp. cbv zeta. replace (x + SIZEOF_PTR - SIZEOF_PTR) with x by lia.
  apply wp_bind. eapply wp_kopt; [exact Hx|]. wps. eapply wp_kopt; [exact Hmp|]. wps.
  set (k0 := set_mempools _ _).
  assert (k0 = with_mp mp (mp_given x p) (with_word x (mp_block_list p) (set_primask 1 k))) as Ek0 by done.
  clearbody k0. rewrite Hw. destruct (lof (thread_lists k) q) as [|t rest] eqn:El.
  { assert (late = 0) as El0 by (destruct (decide (0 < late)); [by destruct Hnot|lia]).
    rewrite El0 in Hw. rewrite El0, bool_decide_false by done. wps. specialize (H1 eq_refl El0).
    replace (set_primask (primask k) k0) with (mp_after x 0); [done|]. subst k0. unfold mp_after.
    replace (set_mp_suspend_thread_count 0 (mp_given x p)) with (mp_given x p); [by destruct k|].
    unfold mp_given. destruct p. simpl in *. by subst. }
  rewrite bool_decide_true by (rewrite zlen_cons; pose proof (zlen_nonneg rest); lia).
  assert (kinv k0) as I0 by (subst k0; by apply (kinv_at_irrelevant 0 k)).
  assert (thread_lists k0 = thread_lists k ∧ threads k0 = threads k) as [El0 Et0] by (by subst k0).
  assert (is_Some (s_lists (thread_lists k0) !! q)) as Hh0 by (by rewrite El0).
  destruct (waiter 0 k0 I0 q Logic.I Hh0 t) as (th&Ht&Hs); [rewrite El0, El; left|].
  apply wp_bind. eapply (wp_first_waiter 0 k0 I0 q Logic.I Hh0 t rest); [by rewrite El0|].
  apply wp_bind. eapply wp_mod_thread; [done|]. set (k1 := set_threads _ k0).
  assert (kinv k1) as I1.
  { eapply kinv_thread; [done..|]. apply wf_error. by eapply thread_ok. }
  apply wp_bind. eapply (wp_resume 0 k1 t _ I1 (lookup_insert_eq _ _ _)); [done|].
  intros k2 Hm%moved_set_thread. apply wp_bind.
  eapply wp_kopt; [rewrite (sr_mempools _ _ (mv_rest _ _ _ _ _ _ _ Hm)), Ek0; apply lookup_insert_eq|].
  apply wp_bind, wp_kset. simpl.
  assert (u32 (mp_suspend_thread_count p - 1) = zlen rest + late) as ->.
  { rewrite Hw, zlen_cons in *. pose proof (zlen_nonneg rest). rewrite u32_small; [lia|unfold in_u32; lia]. }
  set (p2 := set_mp_suspend_thread_count _ _). change (set_mempools _ k2) with (with_mp mp p2 k2).
  apply (moved_with_mp _ _ _ _ _ mp p2) in Hm. unfold k1 in Hm.
  rewrite Ek0, with_mp_mp in Hm.
  apply (moved_primask _ _ _ _ _ (mp_after x (zlen rest + late))) in Hm. wps.
  eapply wp_schedule_any; [apply Hm| |].
  - eapply some_ready_ext; [apply Hm|]. apply some_ready_enqueue. by apply (thread_ok 0 k0 t th I0 Ht).
  - intros k' Hk'. rewrite Et0 in Ht. eapply (H2 t rest th); [done..|exact Hm|done].
Qed.

End pool.

(** ** A pool as a stack of free blocks, the blocks in use and a stack of threads *)

(** The pool at [mp] with the blocks [bs]: which are free, which in use, who
    waits, and how many threads it still counts after their wait timed out. *)
Definition pool_shows (mp : Z) (bs : list Z) (k : kern) (free used waiting : list Z) (late : Z) : Prop :=
  kinv k ∧ ∃ p, mempools k !! mp = Some p ∧ mp_ok k mp p free used late ∧ mp_blocks p = bs ∧
    lof (thread_lists k) (QSuspend (OMemPool mp)) = waiting.

Section shows.
Context (k : kern) (mp : Z) (p : rt_mempool) (free used : list Z) (late : Z).
Context (Hmp : mempools k !! mp = Some p) (Hok : mp_ok k mp p free used late).

Abbreviation q := (QSuspend (OMemPool mp)).

#[local] Lemma shows_taken_block x free' next : kinv k → free = x :: free' → pool_words k !! x = Some next →
  pool_shows mp (mp_blocks p) (with_word x mp (with_mp mp (mp_taken next p) k)) free' (x :: used)
    (lof (thread_lists k) q) late.
Proof using All.
  intros I Ef Hn. pose proof Hok as [Hsh Hh Hw Hla Hr]. rewrite Ef in Hsh.
  destruct (mp_shape_take _ _ _ _ _ _ Hsh) as (next'&Eb&Hx0&Hn'&Hsh'). simplify_eq.
  split; [by apply (kinv_at_irrelevant 0 k)|]. exists (mp_taken next p).
  split_and!; [apply lookup_insert_eq| |done|done]. by split.
Qed.

#[local] Lemma shows_waiting t th time (k' : kern) : calls k t th →
  mp_suspend_thread_count p + 1 < 2 ^ 32 → mp_waits k mp p t th time k' →
  pool_shows mp (mp_blocks p) k' free used (t :: lof (thread_lists k) q) late.
Proof using All.
  intros Hca Hroom (_&k1&Hb&Hk). pose proof Hok as [Hsh Hh Hw Hla Hr]. apply scheduled_same in Hk as Hs.
  split; [eapply scheduled_inv; [apply Hb|done]|]. eexists.
  rewrite (sc_mempools _ _ Hs), (sr_mempools _ _ (bl_rest _ _ _ _ _ _ _ Hb)).
  assert (lof (thread_lists k') q = t :: lof (thread_lists k) q) as El.
  { rewrite (sc_lists _ _ Hs), (bl_lists _ _ _ _ _ _ _ Hb). apply fn_lookup_insert. }
  split_and!; [apply lookup_insert_eq| |done|done]. split.
  - rewrite (sc_pool_words _ _ Hs), (sr_pool_words _ _ (bl_rest _ _ _ _ _ _ _ Hb)).
    by apply mp_shape_suspend.
  - rewrite (sc_lists _ _ Hs). by apply (bl_heads _ _ _ _ _ _ _ Hb).
  - rewrite El, zlen_cons. simpl. lia.
  - done.
  - done.
Qed.

#[local] Lemma shows_given x used1 used2 n (k' : kern) : used = used1 ++ x :: used2 →
  kinv k' → mempools k' = mempools (mp_after k mp p x n) → pool_words k' = pool_words (mp_after k mp p x n) →
  is_Some (s_lists (thread_lists k') !! q) → zlen (lof (thread_lists k') q) + late = n → n < 2 ^ 32 →
  pool_shows mp (mp_blocks p) k' (x :: free) (used1 ++ used2) (lof (thread_lists k') q) late.
Proof using All.
  intros Eu I' Em Ew Hh' Hn Hr'. pose proof Hok as [Hsh Hh Hw Hla Hr]. rewrite Eu in Hsh.
  destruct (mp_shape_give _ _ _ _ _ _ _ Hsh) as [_ Hsh'].
  split; [done|]. eexists. rewrite Em. split_and!; [apply lookup_insert_eq| |done|done]. split; [|done|done|done|done].
  rewrite Ew. by apply mp_shape_suspend.
Qed.

End shows.

(** The release of a block when nobody waits but the pool counts threads whose
    wait timed out: the head of the empty list is taken for a thread. *)
Lemma mp_free_late (k : kern) mp p x : mempools k !! mp = Some p → pool_words k !! x = Some mp →
  0 < mp_suspend_thread_count p → is_Some (s_lists (thread_lists k) !! QSuspend (OMemPool mp)) →
  lof (thread_lists k) (QSuspend (OMemPool mp)) = [] →
  rt_mp_free (x + SIZEOF_PTR) k = Halt Hpointer.
Proof.
  intros Hmp Hx Hn Hh El. pose proof (s_next_head (thread_lists k) (QSuspend (OMemPool mp)) Hh) as Hnx.
  rewrite El in Hnx. unfold rt_mp_free, get_mp, put_mp, first_waiter, kopt, mbind, K_bind. cbv zeta.
  replace (x + SIZEOF_PTR - SIZEOF_PTR) with x by lia. rewrite Hx. simpl. rewrite Hmp. simpl.
  rewrite bool_decide_true by lia.
  match goal with |- context [match ?o with Some a => Ok a _ | None => _ end] =>
    change o with (s_next (Hd (QSuspend (OMemPool mp))) (thread_lists k)) end.
  by rewrite Hnx.
Qed.

(** [rt_mp_alloc] against the stacks. *)
Lemma pool_alloc (k : kern) mp bs free used waiting late t th time :
  pool_shows mp bs k free used waiting late → calls k t th → time < RT_TICK_MAX / 2 →
  zlen waiting + late + 1 < 2 ^ 32 →
  ∃ k', rt_mp_alloc mp time k =
     Ok (match free with
         | x :: _ => MpReturns (x + SIZEOF_PTR)
         | [] => if bool_decide (time = 0) then MpReturns RT_NULL else MpWaits time (start_tick time k)
         end) k' ∧
     match free with
     | x :: free => pool_shows mp bs k' free (x :: used) waiting late
     | [] => if bool_decide (time = 0)
             then pool_shows mp bs k' [] used waiting late ∧
                  th_error <$> threads k' !! t = Some (- RT_ETIMEOUT)
             else pool_shows mp bs k' [] used (t :: waiting) late
     end.
Proof.
  intros (I&p&Hmp&Hok&<-&<-) Hca Htime Hroom. pose proof Hok as [Hsh Hh Hw Hla Hr].
  apply wp_returns. eapply (wp_mp_alloc k mp p free used late Hmp Hok t th time); [done|done|lia|..].
  - intros x free' next -> Hn. split; [done|].
    by apply (shows_taken_block k mp p _ used late Hmp Hok x free' next).
  - intros -> ->. split; [done|]. simpl. rewrite lookup_insert_eq. split; [|done].
    split; [by apply calls_error|]. exists p. split_and!; try done.
  - intros -> Hne k' Hwt. rewrite !bool_decide_false by done. split; [done|].
    eapply (shows_waiting k mp p); [done..|lia|done].
Qed.

(** [rt_mp_free] against the stacks. *)
Lemma pool_free (k : kern) mp bs free used1 x used2 waiting late :
  pool_shows mp bs k free (used1 ++ x :: used2) waiting late → ¬ (waiting = [] ∧ 0 < late) →
  ∃ k', rt_mp_free (x + SIZEOF_PTR) k = Ok tt k' ∧
        pool_shows mp bs k' (x :: free) (used1 ++ used2) (tail waiting) late.
Proof.
  intros (I&p&Hmp&Hok&<-&<-) Hnot. pose proof Hok as [Hsh Hh Hw Hla Hr].
  apply wp_returns. eapply (wp_mp_free k mp p free _ late Hmp Hok used1 x used2); [done|done|done|..].
  - intros El E0. split; [done|].
    assert (pool_shows mp (mp_blocks p) (mp_after k mp p x 0) (x :: free) (used1 ++ used2)
      (lof (thread_lists k) (QSuspend (OMemPool mp))) late) as H.
    { eapply (shows_given k mp p free _ late Hmp Hok x used1 used2 0 (mp_after k mp p x 0)); try done.
      - by apply (kinv_at_irrelevant 0 k).
      - simpl. by rewrite El, E0. }
    by rewrite El in *.
  - intros u rest thu k1 k' El Hu Hs Hm Hk. split; [done|]. apply scheduled_same in Hk as Hs'.
    assert (lof (thread_lists k') (QSuspend (OMemPool mp)) = rest) as El'.
    { rewrite (sc_lists _ _ Hs'), (mv_lists _ _ _ _ _ _ _ Hm). unfold enqueue.
      rewrite fn_lookup_insert_ne by done. eapply list_del_head; [apply I|done]. }
    rewrite El. simpl. rewrite <-El'.
    eapply (shows_given k mp p free _ late Hmp Hok x used1 used2 (zlen rest + late)); [done|..].
    + eapply scheduled_inv; [apply Hm|done].
    + by rewrite (sc_mempools _ _ Hs'), (sr_mempools _ _ (mv_rest _ _ _ _ _ _ _ Hm)).
    + by rewrite (sc_pool_words _ _ Hs'), (sr_pool_words _ _ (mv_rest _ _ _ _ _ _ _ Hm)).
    + rewrite (sc_lists _ _ Hs'). by apply (mv_heads _ _ _ _ _ _ _ Hm).
    + by rewrite El'.
    + rewrite Hw, El, zlen_cons in Hr. lia.
Qed.

(** C15: A pool gives out its blocks one owner at a time: [rt_mp_alloc] takes the
    block that was freed last; without a free block it fails at once, setting
    the error number, when it must not wait, and otherwise the caller waits in
    front of the other waiting threads.  [rt_mp_free] puts the block back where
    it came from, found through the word in front of it, and wakes the thread
    at the front of the list.  The pool goes on counting the [late] threads whose
    wait timed out: when nobody waits and there is such a thread, the release
    takes the head of the list for a thread and fails.  Throughout, the free
    blocks and those in use are together exactly the blocks of the pool, each
    once. *)
Theorem memory_pool_refines_blocks (k : kern) mp bs free used waiting late t th time :
  pool_shows mp bs k free used waiting late → calls k t th → time < RT_TICK_MAX / 2 →
  zlen waiting + late + 1 < 2 ^ 32 →
  NoDup (free ++ used) ∧ free ++ used ≡ₚ bs ∧
  (∃ k', rt_mp_alloc mp time k =
     Ok (match free with
         | x :: _ => MpReturns (x + SIZEOF_PTR)
         | [] => if bool_decide (time = 0) then MpReturns RT_NULL else MpWaits time (start_tick time k)
         end) k' ∧
     match free with
     | x :: free => pool_shows mp bs k' free (x :: used) waiting late
     | [] => if bool_decide (time = 0)
             then pool_shows mp bs k' [] used waiting late ∧
                  th_error <$> threads k' !! t = Some (- RT_ETIMEOUT)
             else pool_shows mp bs k' [] used (t :: waiting) late
     end) ∧
  (∀ used1 x used2, used = used1 ++ x :: used2 →
     if bool_decide (waiting = [] ∧ 0 < late) then rt_mp_free (x + SIZEOF_PTR) k = Halt Hpointer
     else ∃ k', rt_mp_free (x + SIZEOF_PTR) k = Ok tt k' ∧
                pool_shows mp bs k' (x :: free) (used1 ++ used2) (tail waiting) late).
Proof.
  intros Hsh Hca Htime Hroom. pose proof Hsh as (I&p&Hmp&Hok&Ebs&Ew). pose proof Hok as [Hm Hh Hw Hla Hr].
  split; [by eapply mp_shape_nodup|]. split; [rewrite <-Ebs; apply Hm|]. split; [by eapply pool_alloc|].
  intros used1 x used2 ->. case_bool_decide as Hl; [|by eapply pool_free].
  destruct Hl as [-> Hpos]. eapply (mp_free_late k mp p); [done|by eapply mp_shape_give| |done|done].
  rewrite Hw. pose proof (zlen_nonneg (lof (thread_lists k) (QSuspend (OMemPool mp)))). lia.
Qed.

(** ** A new pool *)

Section init.
Context (start size stride : Z) (Hstart : 0 < start) (Hstride : 4 <= stride).
Context (Hsize : 0 <= size) (Hend : start + size < 2 ^ 32).

Abbreviation blk i := (start + i * stride).

#[local] Lemma blk_ok i : 0 <= i → i * stride <= size → mp_block start stride i = blk i.
Proof using All.
  intros. unfold mp_block. rewrite (u32_small (i * stride)) by (unfold in_u32; nia).
  apply u32_small. unfold in_u32. nia.
Qed.

Lemma wp_put_word a v (k : kern) (Q : unit → kern → Prop) : start <= a → a + 4 <= start + size →
  Q tt (set_pool_words (<[a := v]> (pool_words k)) k) → wp (put_word start size a v) k Q.
Proof using All. intros. unfold put_word. by rewrite bool_decide_true. Qed.

Lemma wp_link_blocks n i (k : kern) (Q : unit → kern → Prop) : 0 <= i → (i + Z.of_nat n) * stride <= size →
  (∀ w, (∀ j, i <= j < i + Z.of_nat n → w !! blk j = Some (blk (j + 1))) →
        (∀ a, a < blk i → w !! a = pool_words k !! a) → Q tt (set_pool_words w k)) →
  wp (mp_link_blocks n start size stride i) k Q.
Proof using All.
  revert i k. induction n as [|n IH]; intros i k Hi Hn HQ; cbn [mp_link_blocks].
  { apply wp_ret. replace k with (set_pool_words (pool_words k) k) by (by destruct k).
    apply HQ; [|by destruct k]. intros. lia. }
  rewrite !blk_ok by nia. apply wp_bind, wp_put_word; [nia|nia|].
  apply IH; [lia|nia|]. intros w H1 H2. simpl in H2.
  match goal with |- Q tt ?k' => replace k' with (set_pool_words w k) by (by destruct k) end.
  apply HQ.
  - intros j Hj. destruct (decide (j = i)) as [->|]; [|apply H1; lia].
    rewrite H2 by nia. apply lookup_insert_eq.
  - intros a Ha. rewrite H2 by nia. rewrite lookup_insert_ne by lia. done.
Qed.

(** Words that lead from block to block link them all. *)
Lemma linked_blocks w n i : 0 <= i →
  (∀ j, i <= j < i + Z.of_nat n → w !! blk j = Some (if bool_decide (j + 1 = i + Z.of_nat n) then RT_NULL else blk (j + 1))) →
  linked w (if bool_decide (n = 0%nat) then RT_NULL else blk i) ((λ j, blk j) <$> seqZ i (Z.of_nat n)).
Proof using All.
  revert i. induction n as [|n IH]; intros i Hi H; [done|].
  rewrite seqZ_cons by lia. replace (Z.pred (Z.of_nat (S n))) with (Z.of_nat n) by lia. simpl.
  split; [done|]. split; [unfold RT_NULL; nia|].
  eexists. split; [apply H; lia|]. specialize (IH (Z.succ i)).
  replace (if bool_decide (i + 1 = i + Z.of_nat (S n)) then RT_NULL else blk (i + 1))
    with (if bool_decide (n = 0%nat) then RT_NULL else blk (Z.succ i)).
  - apply IH; [lia|]. intros j Hj. rewrite H by lia.
    by rewrite (bool_decide_ext (j + 1 = i + Z.of_nat (S n)) (j + 1 = Z.succ i + Z.of_nat n)) by lia.
  - rewrite (bool_decide_ext (i + 1 = i + Z.of_nat (S n)) (n = 0%nat)) by lia. by replace (Z.succ i) with (i + 1) by lia.
Qed.

Lemma wp_init_blocks n (k : kern) (Q : unit → kern → Prop) : 0 < n → n * stride <= size →
  (∀ w, linked w start ((λ j, blk j) <$> seqZ 0 n) → Q tt (set_pool_words w k)) →
  wp (mp_init_blocks start size stride n) k Q.
Proof using All.
  intros Hn Hs HQ. unfold mp_init_blocks. apply wp_bind, wp_link_blocks; [lia|nia|].
  intros w H1 _. rewrite blk_ok by nia. apply wp_put_word; [nia|nia|].
  match goal with |- Q tt ?k' => replace k' with (set_pool_words (<[blk (n - 1) := RT_NULL]> w) k) by (by destruct k) end.
  apply HQ. pose proof (linked_blocks (<[blk (n - 1) := RT_NULL]> w) (Z.to_nat n) 0) as H.
  rewrite Z2Nat.id in * by lia. rewrite bool_decide_false in H by lia. replace (blk 0) with start in H by lia.
  apply H; [lia|]. intros j Hj. case_bool_decide.
  - replace j with (n - 1) by lia. apply lookup_insert_eq.
  - rewrite lookup_insert_ne by nia. apply H1. lia.
Qed.

(** Without room for a block the end mark is written outside. *)
Lemma init_blocks_none (k : kern) : size < stride → stride <= 2 ^ 31 →
  mp_init_blocks start size stride 0 k = Halt Hpointer.
Proof using All.
  intros. unfold mp_init_blocks. simpl. unfold mbind, K_bind. simpl. unfold put_word, mp_block.
  rewrite bool_decide_false; [done|]. unfold SIZEOF_PTR, u32. intros [H1 H2].
  rewrite Zplus_mod_idemp_r in H1, H2. change (0 - 1) with (-1) in *.
  destruct (decide (start < stride)).
  - replace (start + -1 * stride) with (start - stride + 2 ^ 32 + -1 * 2 ^ 32) in * by lia.
    rewrite Z.mod_add, Z.mod_small in H1, H2 by lia. lia.
  - rewrite Z.mod_small in H1, H2 by lia. lia.
Qed.

End init.

(** A new, empty list of threads. *)
Lemma kinv_new_head (k : kern) S : kinv k → becomes (thread_lists k) S (lof (thread_lists k)) →
  kinv (set_thread_lists (LS:=seq_lists) S k).
Proof.
  intros [I1 I2 I3 I4 I5 I6] Hb. split; simpl; try done.
  - eapply tinv_lists; [apply Hb|done].
  - eapply ginv_ext; [|done]. intros p. by rewrite (bc_lof _ _ _ Hb).
  - destruct I3 as [_ He Hr Hd]. split; [apply Hb| | |].
    + intros t Ht. apply (bc_elems _ _ _ Hb), He, Ht.
    + intros p Hp. apply (bc_heads _ _ _ Hb), Hr, Hp.
    + by apply (bc_heads _ _ _ Hb).
Qed.

(** What a pool of [size] bytes at [start] is cut into. *)
Definition pool_stride (block_size : Z) : Z := 4 * ((block_size + 3) / 4) + SIZEOF_PTR.
Definition pool_count (size block_size : Z) : Z := 4 * (size / 4) / pool_stride block_size.
Definition pool_blocks (start size block_size : Z) : list Z :=
  (λ i, start + i * pool_stride block_size) <$> seqZ 0 (pool_count size block_size).

Lemma pool_blocks_inside start size block_size x : 0 <= size → 0 <= block_size →
  x ∈ pool_blocks start size block_size →
  start <= x ∧ x + SIZEOF_PTR + block_size <= start + size.
Proof.
  intros Hs Hb Hx. unfold pool_blocks in Hx. apply list_elem_of_fmap in Hx as (i&->&Hi). apply elem_of_seqZ in Hi.
  unfold pool_count in *. assert (4 <= pool_stride block_size) by (unfold pool_stride, SIZEOF_PTR; mlia).
  pose proof (Z.mul_div_le (4 * (size / 4)) (pool_stride block_size) ltac:(lia)).
  assert (block_size + SIZEOF_PTR <= pool_stride block_size) by (unfold pool_stride; mlia).
  unfold SIZEOF_PTR in *. assert (4 * (size / 4) <= size) by mlia. nia.
Qed.

(** The object is initialised and the list of waiting threads is empty. *)
Lemma mp_init_start {A} (k : kern) mp name O' S (f : M A) : mp ≠ RT_NULL →
  s_insert_after (Hd RT_Object_Class_MemPool) (El (OMemPool mp)) (object_lists k) = Some O' →
  s_init (Hd (QSuspend (OMemPool mp))) (thread_lists k) = Some S →
  (RT_ASSERT (bool_decide (mp ≠ RT_NULL));;
   rt_object_init (OMemPool mp) RT_Object_Class_MemPool name;;
   on_threads (l_init (Hd (QSuspend (OMemPool mp))));; f) k =
  f (set_thread_lists (LS:=seq_lists) S (set_object_lists (LS:=seq_lists) O'
    (set_objects (<[OMemPool mp := Object (name_bytes name) (Z.lor RT_Object_Class_MemPool RT_Object_Class_Static)]>
       (objects k)) k))).
Proof.
  intros Hnull HO HS. unfold rt_object_init, put_object, on_objects, on_threads, kopt, RT_ASSERT.
  rewrite bool_decide_true by done. unfold mbind, K_bind. simpl. simpl in HO. rewrite HO. simpl.
  simpl in HS. rewrite HS. by destruct k.
Qed.

(** [rt_mp_init] cuts the memory into as many blocks of the rounded size, with
    their words, as fit into it; all are free, in the order of their addresses,
    and inside the memory.  When not even one block fits, the end mark of the
    list is written in front of the memory. *)
Theorem rt_mp_init_correct (k : kern) mp name start size block_size O' : kinv k → mp ≠ RT_NULL →
  s_insert_after (Hd RT_Object_Class_MemPool) (El (OMemPool mp)) (object_lists k) = Some O' →
  lof (thread_lists k) (QSuspend (OMemPool mp)) = [] →
  0 < start → 0 <= size → start + size < 2 ^ 32 → 0 <= block_size <= 2 ^ 30 →
  let bs := pool_blocks start size block_size in
  (∀ x, x ∈ bs → start <= x ∧ x + SIZEOF_PTR + block_size <= start + size) ∧
  if bool_decide (bs = []) then rt_mp_init mp name start size block_size k = Halt Hpointer
  else ∃ k', rt_mp_init mp name start size block_size k = Ok RT_EOK k' ∧ pool_shows mp bs k' bs [] [] 0.
Proof.
  intros I Hnull HO Hq Hst Hsz Hend Hbs bs. split; [intros x; apply pool_blocks_inside; lia|].
  assert (RT_ALIGN block_size RT_ALIGN_SIZE = pool_stride block_size - SIZEOF_PTR) as Ea.
  { rewrite RT_ALIGN_4 by lia. unfold pool_stride. lia. }
  assert (4 <= pool_stride block_size <= 2 ^ 31) as Hstr by (unfold pool_stride, SIZEOF_PTR; mlia).
  assert (u32 (RT_ALIGN block_size RT_ALIGN_SIZE + SIZEOF_PTR) = pool_stride block_size) as Es.
  { rewrite Ea. rewrite u32_small; [lia|unfold in_u32; lia]. }
  assert (0 <= pool_count size block_size) as Hc by (apply Z.div_pos; [mlia|lia]).
  assert (pool_count size block_size * pool_stride block_size <= size) as Hfit.
  { pose proof (Z.mul_div_le (4 * (size / 4)) (pool_stride block_size) ltac:(lia)) as H.
    unfold pool_count. assert (4 * (size / 4) <= size) by mlia. lia. }
  destruct (s_init_head_spec (thread_lists k) (QSuspend (OMemPool mp))) as (S&ES&Hb&Hh); [apply I|done|].
  unfold rt_mp_init. cbv zeta. rewrite RT_ALIGN_DOWN_4, Es, Ea. fold (pool_count size block_size).
  set (k2 := set_thread_lists (LS:=seq_lists) S (set_object_lists (LS:=seq_lists) O'
    (set_objects (<[OMemPool mp := Object (name_bytes name) (Z.lor RT_Object_Class_MemPool RT_Object_Class_Static)]>
       (objects k)) k))).
  rewrite (mp_init_start k mp name O' S); [|done|done|done]. fold k2.
  assert (kinv k2) as I2.
  { apply (kinv_at_irrelevant 0 (set_thread_lists (LS:=seq_lists) S k)); try done. by apply kinv_new_head. }
  assert (bs = [] ↔ pool_count size block_size = 0) as Hbs0.
  { unfold bs, pool_blocks. destruct (decide (pool_count size block_size = 0)) as [E|E]; [by rewrite E|].
    rewrite seqZ_cons by lia. done. }
  case_bool_decide as E.
  - apply Hbs0 in E. unfold mbind, K_bind. rewrite E, init_blocks_none; [done|lia..| |lia].
    unfold pool_count in E. apply Z.div_small_iff in E; [|lia]. assert (pool_stride block_size mod 4 = 0) by (unfold pool_stride, SIZEOF_PTR; mlia). mlia.
  - rewrite Hbs0 in E. apply wp_returns. apply wp_bind.
    eapply (wp_init_blocks start size (pool_stride block_size)); [lia..|]. intros w Hw. unfold put_mp. wps.
    split; [done|]. split; [by apply (kinv_at_irrelevant 0 k2)|].
    eexists. split_and!; [apply lookup_insert_eq| | |].
    + split; simpl; [|done|by rewrite (bc_lof _ _ _ Hb), Hq|done|done]. split; simpl; [done|done| | | |done| |].
      * intros y Hy. by apply elem_of_nil in Hy.
      * rewrite app_nil_r. unfold mp_blocks. simpl. by replace (pool_stride block_size - SIZEOF_PTR + SIZEOF_PTR)
          with (pool_stride block_size) by lia.
      * unfold zlen, bs, pool_blocks. rewrite length_fmap, length_seqZ. lia.
      * unfold SIZEOF_PTR. lia.
      * split; [done|]. nia.
    + unfold mp_blocks. simpl. by replace (pool_stride block_size - SIZEOF_PTR + SIZEOF_PTR)
        with (pool_stride block_size) by lia.
    + simpl. by rewrite (bc_lof _ _ _ Hb).
Qed.

Definition the_pool : Z := 0x20005600.

(** A pool with two blocks of 8 bytes. *)
Definition pool_start : sys_event := Call (CMpInit the_pool [112; 0] 0x20007000 24 8).

Definition demo_pool : rt_mempool := MemPool 0x20007000 24 8 0x2000700c 2 1 0.

Lemma memory_pool_refines_blocks_witness :
  let k := demo [pool_start; Call (CMpAlloc the_pool 0)] in
  (∃ k', rt_mp_alloc the_pool 0 k = Ok (MpReturns 0x20007010) k') ∧
  (∃ k', rt_mp_free 0x20007004 k = Ok tt k').
Proof.
  intros k. destruct (threads k !! thread_a) as [th|] eqn:E; [|vm_compute in E; discriminate E].
  destruct (memory_pool_refines_blocks k the_pool [0x20007000; 0x2000700c] [0x2000700c] [0x20007000] []
    0 thread_a th 0) as (_&_&Ha&Hf).
  - split; [apply kinv_b_sound; vm_compute; reflexivity|]. exists demo_pool.
    split; [vm_compute; reflexivity|]. split; [|split; [reflexivity|vm_compute; reflexivity]].
    split; [|vm_compute; eexists; reflexivity|vm_compute; reflexivity|discriminate|reflexivity].
    split.
    + discriminate.
    + split; [reflexivity|]. split; [discriminate|]. eexists. split; [vm_compute; reflexivity|reflexivity].
    + intros x Hx. apply list_elem_of_singleton in Hx as ->. vm_compute. reflexivity.
    + apply Permutation_swap.
    + reflexivity.
    + reflexivity.
    + discriminate.
    + split; [discriminate|reflexivity].
  - apply calls_b_sound; [vm_compute; reflexivity|exact E].
  - reflexivity.
  - reflexivity.
  - split; [destruct Ha as (k'&Hk'&_); exists k'; exact Hk'|].
    destruct (Hf [] 0x20007000 [] eq_refl) as (k'&Hk'&_). exists k'. exact Hk'.
Defined.

#[local] Lemma is_Some_true {A} (o : option A) : match o with Some _ => true | None => false end = true → ∃ a, o = Some a.
Proof. destruct o; [eauto|done]. Qed.

Lemma rt_mp_init_correct_witness :
  ∃ k', rt_mp_init the_pool [112; 0] 0x20007000 24 8 (demo []) = Ok RT_EOK k' ∧
        pool_shows the_pool [0x20007000; 0x2000700c] k' [0x20007000; 0x2000700c] [] [] 0.
Proof.
  destruct (is_Some_true (s_insert_after (Hd RT_Object_Class_MemPool) (El (OMemPool the_pool))
    (object_lists (demo [])))) as (O'&E); [vm_compute; reflexivity|].
  destruct (rt_mp_init_correct (demo []) the_pool [112; 0] 0x20007000 24 8 O') as [_ H].
  - apply kinv_b_sound. vm_compute. reflexivity.
  - discriminate.
  - exact E.
  - vm_compute. reflexivity.
  - reflexivity.
  - discriminate.
  - reflexivity.
  - split; discriminate.
  - replace (pool_blocks 0x20007000 24 8) with [0x20007000; 0x2000700c] in H by (vm_compute; reflexivity).
    rewrite bool_decide_false in H by discriminate. exact H.
Defined.

(** ** After a timeout *)

(** [thread_a] takes both blocks and waits for a third; the wait times out. *)
Definition pool_history : list sys_event :=
  [pool_start; Call (CMpAlloc the_pool 0); Call (CMpAlloc the_pool 0); Call (CMpAlloc the_pool 1); Tick; Tick].

Definition halted {S A} (r : res S A) : option halt :=
  match r with Ok _ _ => None | Halt h => Some h end.

(** A wait for a block that times out takes the thread off the pool's list but
    leaves it counted: the next release then takes the head of the empty list
    for a thread.  The first part is the release in such a state, the second a
    history that leads there. *)
Theorem rt_mp_free_after_timeout :
  (∀ (k : kern) mp p x, mempools k !! mp = Some p → pool_words k !! x = Some mp →
     0 < mp_suspend_thread_count p → is_Some (s_lists (thread_lists k) !! QSuspend (OMemPool mp)) →
     lof (thread_lists k) (QSuspend (OMemPool mp)) = [] →
     rt_mp_free (x + SIZEOF_PTR) k = Halt Hpointer) ∧
  results (run_system exit_address demo_app (demo_start :: pool_history) reset_seq) =
    Some [VInt 0; VBlock (MpReturns 0x20007004); VBlock (MpReturns 0x20007010); VBlock (MpWaits 1 0)] ∧
  halted (run_system exit_address demo_app (demo_start :: pool_history ++ [Call (CMpFree 0x20007004)]) reset_seq) =
    Some Hpointer.
Proof.
  apply conj; [exact mp_free_late|apply conj; vm_compute; reflexivity].
Qed.
