(* ===== verification/DriverProof.v ===== *)
(** * Completions and data queues are correct

    [rt_completion_wait] and [rt_completion_done] on every branch; a data queue
    is a bounded FIFO queue of items as long as its indices do not wrap, and
    what happens when they do. *)

From S2P Require Import Prelude DList ListStore SeqLemmas KString KState Scheduler ObjectSys Timer ThreadSys Ipc DriverIpc KernelWp KernelInv System KernelCheck SchedProof TimerProof ThreadProof Clock ClockProof IpcProof SemProof MailProof.

(** ** Waking the first thread of a list *)

Section wake.
Context (k : kern) (q : thread_queue) (I : kinv k) (Hq : waiting_queue q).
Context (Hh : is_Some (s_lists (thread_lists k) !! q)) (Hne : lof (thread_lists k) q ≠ []).

Lemma wp_wake_waiter (Q : unit → kern → Prop) : (∀ k', wakes_first q k k' → Q tt k') →
  wp (thread ← first_waiter q; rt_thread_resume thread;; rt_hw_interrupt_enable (primask k);; rt_schedule)
    (set_primask 1 k) Q.
Proof using All.
  intros HQ. unfold wakes_first in HQ. destruct (lof (thread_lists k) q) as [|t rest] eqn:E; [done|].
  assert (kinv_at 0 (set_primask 1 k)) as I1 by (by apply (kinv_at_irrelevant 0 k)).
  destruct (waiter 0 k I q Hq Hh t) as (th&Ht&Hs); [rewrite E; left|].
  apply wp_bind. eapply (wp_first_waiter 0 _ I1 q Hq Hh t rest); [done|].
  apply wp_bind. eapply (wp_resume 0 _ t th I1 Ht); [done|]. intros k1 Hw%(moved_primask _ _ _ _ _ k). wps.
  eapply wp_schedule_any; [apply Hw| |].
  - by eapply (woken_ready 0 k I q Hq Hh t th).
  - intros k' Hk'. apply HQ. by exists th, (set_primask (primask k) k1).
Qed.

(** The same before something else. *)
Lemma wp_wake_waiter_then {A} (f : M A) (Q : A → kern → Prop) : (∀ k', wakes_first q k k' → wp f k' Q) →
  wp (thread ← first_waiter q; rt_thread_resume thread;; rt_hw_interrupt_enable (primask k);;
      rt_schedule;; f) (set_primask 1 k) Q.
Proof using All.
  intros HQ. pose proof (wp_wake_waiter (λ _ k', wp f k' Q) HQ) as H. unfold wp, mbind, K_bind in *.
  destruct (first_waiter q _) as [t k1|]; [|done]. destruct (rt_thread_resume t k1) as [r k2|]; [|done].
  simpl in *. by destruct (rt_schedule _) as [u k3|].
Qed.

End wake.

Lemma wakes_first_driver (k : kern) q k' : wakes_first q k k' →
  completions k' = completions k ∧ dataqueues k' = dataqueues k ∧ primask k' = primask k.
Proof.
  unfold wakes_first. destruct (lof (thread_lists k) q) as [|t rest]; [by intros ->|].
  intros (th&k1&_&_&Hw&Hk'). apply scheduled_same in Hk' as Hs. pose proof (mv_rest _ _ _ _ _ _ _ Hw) as Hr.
  rewrite (sc_completions _ _ Hs), (sc_dataqueues _ _ Hs), (sc_primask _ _ Hs).
  by rewrite (sr_completions _ _ Hr), (sr_dataqueues _ _ Hr), (sr_primask _ _ Hr).
Qed.

(** ** Completions *)

Record completion_ok (k : kern) (c flag : Z) : Prop := {
  co_null : c ≠ RT_NULL;
  co_flag : completions k !! c = Some flag;
  co_head : is_Some (s_lists (thread_lists k) !! QCompletion c);
}.

Definition with_completion (c flag : Z) (k : kern) : kern :=
  set_completions (<[c := flag]> (completions k)) k.

(** The thread waits, now [th'], at the end of [q] and another one runs. *)
Definition parks (t : Z) (th' : rt_thread) (q : thread_queue) (wait : option Z) (k k' : kern) : Prop :=
  rt_current_thread k' ≠ t ∧ ∃ k1,
    blocked 0 t th' (<[q := lof (thread_lists k) q ++ [t]]> (list_del t (lof (thread_lists k)))) wait k k1 ∧
    scheduled k1 k'.

Definition queues_up (t : Z) (th : rt_thread) (q : thread_queue) (time : Z) : kern → kern → Prop :=
  parks t (set_th_stat RT_THREAD_SUSPEND (set_th_error RT_EOK th)) q (wait_time time).

Section queues_up.
Context (k : kern) (t : Z) (th : rt_thread) (Hca : calls k t th).
Context (q : thread_queue) (Hq : waiting_queue q) (Hh : is_Some (s_lists (thread_lists k) !! q)).

(** The common end of the waiting calls of this file; the context check comes
    before or after the thread is suspended. *)
Lemma wp_queue_up (check : M unit) time A (f : M A) (Q : A → kern → Prop) : time < RT_TICK_MAX / 2 →
  (∀ k1 R, rt_interrupt_nest k1 = 0 → R tt k1 → wp check k1 R) →
  (∀ k', queues_up t th q time k k' → wp f k' Q) →
  wp (mod_thread t (set_th_error RT_EOK);; rt_thread_suspend t;;
      on_threads (l_insert_before (Hd q) (El t));; check;;
      start_thread_timer t time;; rt_hw_interrupt_enable (primask k);; rt_schedule;; f)
    (set_primask 1 k) Q.
Proof using All.
  intros Htime Hcheck HQ. pose proof (calls_error k t th RT_EOK Hca) as Hca1. set (th1 := set_th_error RT_EOK th) in *.
  apply wp_bind. eapply wp_mod_thread; [apply Hca|].
  set (k0 := set_threads (<[t := th1]> (threads k)) k) in *.
  change (set_threads _ (set_primask 1 k)) with (set_primask 1 k0).
  pose proof (calls_primask _ _ _ Hca1) as [I1 Hc1 Ht1 Hs1 _ Hn1 _].
  eapply (wp_suspend_last 0 (set_primask 1 k0) t th1 I1 Ht1 Hs1 q Hq Hh). intros k1 Hm.
  apply wp_bind, Hcheck; [by rewrite (sr_nest _ _ (mv_rest _ _ _ _ _ _ _ Hm))|].
  eapply (wp_start_timer 0 (set_primask 1 k0) t th1 I1 Ht1 Hs1); [lia|done|exact Hm|].
  intros k2 Hb. eapply (wp_leave k0 t th1 Hca1); [|exact Hb|].
  { intros p. rewrite fn_lookup_insert_ne; [done|]. by intros ->. }
  intros k3 k' Hb' Hk' Hne. apply HQ. split; [done|]. exists k3. split; [|done].
  exact (blocked_set_thread 0 t th1 _ _ _ k k3 Hb').
Qed.

(** The same without a time limit, and without the error number. *)
Lemma wp_park A (f : M A) (Q : A → kern → Prop) :
  (∀ k', parks t (set_th_stat RT_THREAD_SUSPEND th) q None k k' → wp f k' Q) →
  wp (rt_thread_suspend t;; on_threads (l_insert_before (Hd q) (El t));;
      rt_hw_interrupt_enable (primask k);; rt_schedule;; f) (set_primask 1 k) Q.
Proof using All.
  intros HQ. pose proof (calls_primask _ _ _ Hca) as [I1 Hc1 Ht1 Hs1 _ Hn1 _].
  eapply (wp_suspend_last 0 (set_primask 1 k) t th I1 Ht1 Hs1 q Hq Hh). intros k1 Hm.
  eapply (wp_leave k t th Hca _ k1 None); [|by eapply moved_blocked|].
  - intros p. rewrite fn_lookup_insert_ne; [done|]. by intros ->.
  - intros k2 k' Hb' Hk' Hne. apply HQ. split; [done|]. by exists k2.
Qed.

Section parks.
Context (th' : rt_thread) (wait : option Z) (k' : kern) (Hp : parks t th' q wait k k').

Lemma parks_inv : kinv k'.
Proof using All. destruct Hp as (_&k1&Hb&Hk). eapply scheduled_inv; [apply Hb|done]. Qed.

Lemma parks_lists y : waiting_queue y →
  lof (thread_lists k') y = if decide (y = q) then lof (thread_lists k) q ++ [t] else lof (thread_lists k) y.
Proof using All.
  destruct Hp as (_&k1&Hb&Hk). intros Hy.
  rewrite (sc_lists _ _ (scheduled_same _ _ Hk)), (bl_lists _ _ _ _ _ _ _ Hb).
  case_decide as E; [subst y; apply fn_lookup_insert|]. rewrite fn_lookup_insert_ne by done.
  by apply (not_waiting k t th).
Qed.

Lemma parks_rest :
  completions k' = completions k ∧ dataqueues k' = dataqueues k ∧ primask k' = primask k ∧
  ∀ y, is_Some (s_lists (thread_lists k) !! y) → is_Some (s_lists (thread_lists k') !! y).
Proof using All.
  destruct Hp as (_&k1&Hb&Hk). apply scheduled_same in Hk as Hs. pose proof (bl_rest _ _ _ _ _ _ _ Hb) as Hr.
  rewrite (sc_completions _ _ Hs), (sc_dataqueues _ _ Hs), (sc_primask _ _ Hs), (sc_lists _ _ Hs).
  rewrite (sr_completions _ _ Hr), (sr_dataqueues _ _ Hr), (sr_primask _ _ Hr). split_and!; try done.
  apply (bl_heads _ _ _ _ _ _ _ Hb).
Qed.

End parks.

Lemma queues_up_inv time k' : queues_up t th q time k k' → kinv k'.
Proof using All. intros Hp. exact (parks_inv _ _ _ Hp). Qed.

Lemma queues_up_lists time k' y : queues_up t th q time k k' → waiting_queue y →
  lof (thread_lists k') y = if decide (y = q) then lof (thread_lists k) q ++ [t] else lof (thread_lists k) y.
Proof using All. intros Hp. exact (parks_lists _ _ _ Hp y). Qed.

Lemma queues_up_rest time k' : queues_up t th q time k k' →
  completions k' = completions k ∧ dataqueues k' = dataqueues k ∧ primask k' = primask k ∧
  ∀ y, is_Some (s_lists (thread_lists k) !! y) → is_Some (s_lists (thread_lists k') !! y).
Proof using All. intros Hp. exact (parks_rest _ _ _ Hp). Qed.

End queues_up.

Section completion.
Context (k : kern) (c flag : Z) (Hok : completion_ok k c flag).

Lemma wp_completion_wait t th timeout (Q : outcome → kern → Prop) : calls k t th →
  timeout < RT_TICK_MAX / 2 → (flag ≠ RT_COMPLETED → lof (thread_lists k) (QCompletion c) = []) →
  (flag = RT_COMPLETED → Q (Returns RT_EOK) (with_completion c RT_UNCOMPLETED k)) →
  (flag ≠ RT_COMPLETED → timeout = 0 → Q (Returns (- RT_ETIMEOUT)) k) →
  (flag ≠ RT_COMPLETED → timeout ≠ 0 → ∀ k', queues_up t th (QCompletion c) timeout k k' → Q Waits k') →
  wp (rt_completion_wait c timeout) k Q.
Proof using All.
  intros Hca Htime Hone H1 H2 H3. pose proof Hok as [Hnull Hf Hh].
  unfold rt_completion_wait, rt_thread_self, get_completion, put_completion. wps.
  rewrite (ca_current _ _ _ Hca). eapply wp_kopt; [exact Hf|].
  destruct (decide (flag = RT_COMPLETED)) as [E|E].
  { rewrite bool_decide_false by tauto. wps. specialize (H1 E). by destruct k. }
  rewrite bool_decide_true by done. apply wp_bind. eapply wp_kopt; [by apply s_isempty_spec|].
  simpl. apply wp_bind, wp_assert; [apply bool_decide_true; auto|].
  destruct (decide (timeout = 0)) as [Et|Et].
  { rewrite bool_decide_true by done. wps. specialize (H2 E Et). by destruct k. }
  rewrite bool_decide_false by done. eapply (wp_queue_up k t th Hca (QCompletion c)); [done..|intros k1 R; apply wp_not_in_interrupt|].
  intros k' Hk'. wps. rewrite bool_decide_false by apply Hk'. wps. by apply H3.
Qed.

Lemma wp_completion_done (Q : unit → kern → Prop) : kinv k →
  (flag = RT_COMPLETED → Q tt k) →
  (flag ≠ RT_COMPLETED → ∀ k',
     wakes_first (QCompletion c) (with_completion c RT_COMPLETED k) k' → Q tt k') →
  wp (rt_completion_done c) k Q.
Proof using All.
  intros I H1 H2. pose proof Hok as [Hnull Hf Hh]. unfold rt_completion_done, get_completion, put_completion.
  wps. eapply wp_kopt; [exact Hf|]. destruct (decide (flag = RT_COMPLETED)) as [E|E].
  { rewrite bool_decide_true by done. wps. auto. }
  rewrite bool_decide_false by done. wps. specialize (H2 E).
  set (k0 := with_completion c RT_COMPLETED k) in *.
  change (set_completions _ (set_primask 1 k)) with (set_primask 1 k0).
  assert (kinv k0) as I0 by (by apply (kinv_at_irrelevant 0 k)).
  eapply wp_kopt; [by apply s_isempty_spec|]. simpl. case_bool_decide as El.
  - wps. unfold wakes_first in H2. simpl in H2. rewrite El in H2. specialize (H2 k0 eq_refl). by destruct k.
  - by apply (wp_wake_waiter k0 (QCompletion c) I0 Logic.I Hh El).
Qed.

End completion.

(** A completion: [rt_completion_wait] takes a completion that was signalled
    and resets it; otherwise it fails at once or lets the caller wait, and it
    stops the system when another thread waits already.  [rt_completion_done]
    signals and wakes the waiting thread; a second signal is lost in the first. *)
Theorem rt_completion_correct (k : kern) c flag t th timeout : completion_ok k c flag → calls k t th →
  timeout < RT_TICK_MAX / 2 →
  (if bool_decide (flag = RT_COMPLETED) then
     rt_completion_wait c timeout k = Ok (Returns RT_EOK) (with_completion c RT_UNCOMPLETED k) ∧
     rt_completion_done c k = Ok tt k
   else
     (∃ k', rt_completion_done c k = Ok tt k' ∧ completion_ok k' c RT_COMPLETED ∧ kinv k' ∧
        wakes_first (QCompletion c) (with_completion c RT_COMPLETED k) k') ∧
     if bool_decide (lof (thread_lists k) (QCompletion c) ≠ []) then
       rt_completion_wait c timeout k = Halt Hassert
     else if bool_decide (timeout = 0) then
       rt_completion_wait c timeout k = Ok (Returns (- RT_ETIMEOUT)) k
     else ∃ k', rt_completion_wait c timeout k = Ok Waits k' ∧ completion_ok k' c flag ∧ kinv k' ∧
       queues_up t th (QCompletion c) timeout k k').
Proof.
  intros Hok Hca Htime. pose proof (ca_inv _ _ _ Hca) as I. pose proof Hok as [Hnull Hf Hh].
  case_bool_decide as E.
  { split.
    - assert (wp (rt_completion_wait c timeout) k (λ r k', r = Returns RT_EOK ∧
        k' = with_completion c RT_UNCOMPLETED k)) as (?&?&->&->&->)%wp_run; [|done].
      by eapply (wp_completion_wait k c flag Hok t th).
    - assert (wp (rt_completion_done c) k (λ _ k', k' = k)) as ([]&?&->&->)%wp_run; [|done].
      by eapply (wp_completion_done k c flag Hok). }
  split.
  { apply wp_returns. eapply (wp_completion_done k c flag Hok); [done|done|]. intros _ k' Hw. split; [done|].
    assert (kinv (with_completion c RT_COMPLETED k)) as I0 by (by apply (kinv_at_irrelevant 0 k)).
    split_and!; [|exact (wakes_first_inv _ (QCompletion c) I0 Logic.I Hh k' Hw)|done].
    destruct (wakes_first_driver _ (QCompletion c) k' Hw) as (Ec&_). split; [done| |].
    - rewrite Ec. apply lookup_insert_eq.
    - exact (wakes_first_heads _ (QCompletion c) I0 Logic.I Hh (QCompletion c) k' Hw Hh). }
  case_bool_decide as El.
  { unfold rt_completion_wait, RT_ASSERT, get_completion, kopt, mbind, K_bind. simpl.
    rewrite (bool_decide_true (c ≠ RT_NULL)) by done. simpl. rewrite Hf.
    rewrite bool_decide_true by done. simpl.
    pose proof (s_isempty_spec (thread_lists k) (QCompletion c) Hh) as He. simpl in He. rewrite He.
    by rewrite bool_decide_false. }
  case_bool_decide as Et.
  { assert (wp (rt_completion_wait c timeout) k (λ r k', r = Returns (- RT_ETIMEOUT) ∧ k' = k))
      as (?&?&->&->&->)%wp_run; [|done]. by eapply (wp_completion_wait k c flag Hok t th). }
  apply wp_returns. eapply (wp_completion_wait k c flag Hok t th); [done..|]. intros _ _ k' Hk'. split; [done|].
  destruct (queues_up_rest k t th Hca (QCompletion c) Logic.I Hh _ _ Hk') as (Ec&_&_&Hd).
  split_and!; [|exact (queues_up_inv k t th Hca (QCompletion c) Logic.I Hh _ _ Hk')|done].
  split; [done|by rewrite Ec|by apply Hd].
Qed.

Definition the_completion : Z := 0x20005800.

Lemma rt_completion_correct_witness :
  let k := demo [Call (CCompletionInit the_completion)] in
  ∃ k', rt_completion_wait the_completion 5 k = Ok Waits k'.
Proof.
  intros k. destruct (threads k !! thread_a) as [th|] eqn:E; [|vm_compute in E; discriminate E].
  pose proof (rt_completion_correct k the_completion RT_UNCOMPLETED thread_a th 5) as H.
  rewrite bool_decide_false in H by discriminate.
  replace (lof (thread_lists k) (QCompletion the_completion)) with (@nil Z) in H by (vm_compute; reflexivity).
  rewrite (bool_decide_false ([] ≠ []) (λ Hn, Hn eq_refl)), (bool_decide_false (5 = 0)) in H by discriminate.
  destruct H as (_&k'&Hk'&_).
  - split; [discriminate|vm_compute; reflexivity|vm_compute; eexists; reflexivity].
  - apply calls_b_sound; [vm_compute; reflexivity|exact E].
  - reflexivity.
  - exists k'. exact Hk'.
Defined.
