(* ===== verification/DataQueueProof.v ===== *)
(** * Data queues are bounded FIFO queues, until their indices wrap *)

From S2P Require Import Prelude DList ListStore SeqLemmas KString KState Scheduler ObjectSys Timer ThreadSys Ipc DriverIpc KernelWp KernelInv System KernelCheck SchedProof TimerProof ThreadProof Clock ClockProof IpcProof SemProof MailProof DriverProof.

(** ** The buffer *)

(** The size is a power of two, which the code relies on when it masks an index
    with the size less one; the indices count the items ever put and taken. *)
Record dq_shape (d : rt_data_queue) : Prop := {
  ds_size : ∃ m, 0 <= m <= 15 ∧ dq_size d = 2 ^ m;
  ds_queue : zlen (dq_queue d) = dq_size d;
  ds_get : 0 <= dq_get_index d <= dq_put_index d;
  ds_put : dq_put_index d - dq_get_index d <= dq_size d;
  ds_wrap : dq_put_index d < 2 ^ 16;
}.

(** The items, the oldest first. *)
Definition items (d : rt_data_queue) : list (Z * Z) :=
  (λ i, default (0, 0) (arr_get (i mod dq_size d) (dq_queue d)))
    <$> seqZ (dq_get_index d) (dq_put_index d - dq_get_index d).

Lemma zlen_items d : dq_shape d → zlen (items d) = dq_put_index d - dq_get_index d.
Proof. intros []. unfold zlen, items. rewrite length_fmap, length_seqZ. lia. Qed.

Lemma dq_slot_mod d i : dq_shape d → dq_slot d i = i mod dq_size d.
Proof.
  intros [(m&Hm&E) _ _ _ _]. unfold dq_slot. rewrite E.
  assert (1 <= 2 ^ m <= 2 ^ 15) by (split; [change 1 with (2 ^ 0)|]; apply Z.pow_le_mono_r; lia).
  rewrite u16_small by (unfold in_u16; lia). change (2 ^ m - 1) with (2 ^ m + -1).
  replace (2 ^ m + -1) with (Z.ones m) by (rewrite Z.ones_equiv; lia). apply Z.land_ones. lia.
Qed.

Lemma dq_size_pos d : dq_shape d → 0 < dq_size d.
Proof. intros [(m&Hm&E) _ _ _ _]. rewrite E. apply Z.pow_pos_nonneg; lia. Qed.

Definition dq_stored (arr : list (Z * Z)) (d : rt_data_queue) : rt_data_queue :=
  set_dq_put_index (u16 (dq_put_index d + 1)) (set_dq_queue arr d).

Lemma items_stored v d : dq_shape d → dq_put_index d - dq_get_index d < dq_size d →
  dq_put_index d + 1 < 2 ^ 16 →
  ∃ arr, arr_set (dq_slot d (dq_put_index d)) v (dq_queue d) = Some arr ∧
    dq_shape (dq_stored arr d) ∧ items (dq_stored arr d) = items d ++ [v].
Proof.
  intros Hsh Hlt Hw. pose proof (dq_size_pos d Hsh) as Hp. rewrite (dq_slot_mod d _ Hsh).
  pose proof Hsh as [Hsz Hq Hg Hput _]. pose proof (Z.mod_pos_bound (dq_put_index d) (dq_size d) Hp).
  set (arr := <[Z.to_nat (dq_put_index d mod dq_size d) := v]> (dq_queue d)).
  assert (arr_set (dq_put_index d mod dq_size d) v (dq_queue d) = Some arr) as Hset
    by (unfold arr_set; rewrite bool_decide_true; [done|lia]).
  assert (u16 (dq_put_index d + 1) = dq_put_index d + 1) as Eu by (apply u16_small; unfold in_u16; lia).
  exists arr. split; [done|]. split.
  - split; simpl; rewrite ?Eu; try done; try lia. unfold zlen in *. unfold arr. by rewrite length_insert.
  - unfold items. simpl. rewrite Eu.
    replace (dq_put_index d + 1 - dq_get_index d) with ((dq_put_index d - dq_get_index d) + 1) by lia.
    rewrite seqZ_app by lia. rewrite fmap_app. f_equal.
    + apply list_fmap_ext. intros n i Hi%list_elem_of_lookup_2%elem_of_seqZ. f_equal.
      erewrite arr_get_set; [|done|apply Z.mod_pos_bound; lia]. rewrite bool_decide_false; [done|]. intros E.
      apply (mod_ne (dq_get_index d) (i - dq_get_index d) (dq_put_index d - dq_get_index d) (dq_size d));
        [|lia|lia]. rewrite <-!(Zplus_comm (_ - _)), !Z.sub_add. done.
    + replace (dq_get_index d + (dq_put_index d - dq_get_index d)) with (dq_put_index d) by lia.
      simpl. f_equal. erewrite arr_get_set; [|done|apply Z.mod_pos_bound; lia]. by rewrite bool_decide_true.
Qed.

Definition dq_taken (d : rt_data_queue) : rt_data_queue := set_dq_get_index (u16 (dq_get_index d + 1)) d.

Lemma items_taken d : dq_shape d → dq_get_index d ≠ dq_put_index d →
  ∃ v, arr_get (dq_slot d (dq_get_index d)) (dq_queue d) = Some v ∧
    dq_shape (dq_taken d) ∧ items d = v :: items (dq_taken d) ∧
    dq_put_index d - dq_get_index (dq_taken d) = zlen (items (dq_taken d)).
Proof.
  intros Hsh Hne. pose proof (dq_size_pos d Hsh) as Hp. rewrite (dq_slot_mod d _ Hsh).
  pose proof Hsh as [Hsz Hq Hg Hput Hw]. pose proof (Z.mod_pos_bound (dq_get_index d) (dq_size d) Hp).
  destruct (arr_get_ok (dq_get_index d mod dq_size d) (dq_queue d)) as (v&Hv&_); [lia|].
  assert (u16 (dq_get_index d + 1) = dq_get_index d + 1) as Eu by (apply u16_small; unfold in_u16; lia).
  assert (dq_shape (dq_taken d)) as Hsh' by (split; simpl; rewrite ?Eu; try done; lia).
  exists v. split; [done|]. split; [done|]. split; [|by rewrite (zlen_items _ Hsh')].
  unfold items. simpl. rewrite Eu, seqZ_cons by lia. simpl. rewrite Hv. simpl. do 2 f_equal.
  f_equal; lia.
Qed.

Lemma shape_waiting b d : dq_shape d → dq_shape (set_dq_waiting_lwm b d).
Proof. intros []. by split. Qed.

(** ** The calls *)

Record dq_ok (k : kern) (dq : Z) (d : rt_data_queue) : Prop := {
  do_null : dq ≠ RT_NULL;
  do_shape : dq_shape d;
  do_push : is_Some (s_lists (thread_lists k) !! QPush dq);
  do_pop : is_Some (s_lists (thread_lists k) !! QPop dq);
}.

Definition with_dq (dq : Z) (d : rt_data_queue) (k : kern) : kern :=
  set_dataqueues (<[dq := d]> (dataqueues k)) k.

Lemma with_dq_dq dq d d' k : with_dq dq d' (with_dq dq d k) = with_dq dq d' k.
Proof. unfold with_dq. simpl. by rewrite insert_insert_eq. Qed.

Section dq.
Context (notify : Z → Z → Z → M unit).
Context (k : kern) (dq : Z) (d : rt_data_queue).
Context (Hdq : dataqueues k !! dq = Some d) (Hok : dq_ok k dq d).
Context (t : Z) (th : rt_thread) (Hca : calls k t th).
Context (timeout : Z) (Htime : timeout < RT_TICK_MAX / 2).

#[local] Lemma calls_with d' : calls (with_dq dq d' k) t th.
Proof using Hca. destruct Hca. split; try done. by apply (kinv_at_irrelevant 0 k). Qed.

(** The end of a call: the notify function is told the event, if there is one. *)
Definition dq_end (event : option Z) (r : dq_outcome) : M dq_outcome :=
  (match event with Some e => dq_notify notify dq e | None => mret tt end);; mret r.

#[local] Lemma wp_end_silent r (k0 : kern) (Q : dq_outcome → kern → Prop) : Q r k0 → wp (dq_end None r) k0 Q.
Proof. done. Qed.

#[local] Lemma wp_exit r event level item (k0 : kern) (Q : dq_outcome → kern → Prop) :
  wp (dq_end (if bool_decide (r = RT_EOK) then Some event else None) (DqReturns r item))
     (set_primask level k0) Q → wp (dq_exit notify dq r event level item) k0 Q.
Proof. intros HQ. unfold dq_exit. apply wp_bind, wp_enable. unfold dq_end in HQ. by case_bool_decide. Qed.

(** The wait of a push or a pop. *)
#[local] Lemma wp_dq_wait d' q A (f : M A) (Q : A → kern → Prop) : waiting_queue q →
  is_Some (s_lists (thread_lists k) !! q) →
  (∀ k', queues_up t th q timeout (with_dq dq d' k) k' → wp f k' Q) →
  wp (dq_wait q t timeout (primask k);; f) (set_primask 1 (with_dq dq d' k)) Q.
Proof using All.
  intros Hq Hh HQ. apply wp_bind. unfold dq_wait. apply wp_bind, wp_not_in_interrupt; [apply Hca|].
  refine (wp_queue_up (with_dq dq d' k) t th (calls_with d') q Hq Hh (mret tt) timeout unit (mret tt)
    (λ _ k', wp f k' Q) Htime _ _); [by intros|]. intros k' Hk'. wps. by apply HQ.
Qed.

Lemma wp_dq_push v (Q : dq_outcome → kern → Prop) : dq_put_index d + 1 < 2 ^ 16 →
  (dq_put_index d - dq_get_index d < dq_size d → ∀ arr k', dq_shape (dq_stored arr d) →
     items (dq_stored arr d) = items d ++ [v] → wakes_first (QPop dq) (with_dq dq (dq_stored arr d) k) k' →
     wp (dq_end (if bool_decide (lof (thread_lists k) (QPop dq) = []) then Some RT_DATAQUEUE_EVENT_PUSH else None)
           (DqReturns RT_EOK None)) k' Q) →
  (dq_put_index d - dq_get_index d = dq_size d → timeout = 0 →
     Q (DqReturns (- RT_ETIMEOUT) None) (with_dq dq (set_dq_waiting_lwm true d) k)) →
  (dq_put_index d - dq_get_index d = dq_size d → timeout ≠ 0 → ∀ k',
     queues_up t th (QPush dq) timeout (with_dq dq (set_dq_waiting_lwm true d) k) k' → Q DqWaits k') →
  wp (rt_data_queue_push notify dq v.1 v.2 timeout) k Q.
Proof using All.
  intros Hw H1 H2 H3. pose proof Hok as [Hnull Hsh Hpush Hpop]. pose proof (ds_put d Hsh) as Hle.
  unfold rt_data_queue_push, rt_thread_self. wps. rewrite (ca_current _ _ _ Hca). cbn [dq_push_loop].
  apply wp_bind. unfold get_dq, put_dq. eapply wp_kopt; [exact Hdq|].
  destruct (decide (dq_put_index d - dq_get_index d = dq_size d)) as [E|E].
  - rewrite bool_decide_true by done. apply wp_bind, wp_kset. set (d' := set_dq_waiting_lwm true d) in *.
    change (set_dataqueues _ (set_primask 1 k)) with (set_primask 1 (with_dq dq d' k)).
    destruct (decide (timeout = 0)) as [Et|Et].
    { rewrite bool_decide_true by done. apply wp_exit. rewrite bool_decide_false by done. apply wp_end_silent.
      specialize (H2 E Et). by destruct k. }
    rewrite bool_decide_false by done. eapply wp_dq_wait; [done|done|]. intros k' Hk'. wps.
    rewrite bool_decide_false by apply Hk'. wps. by apply H3.
  - rewrite bool_decide_false by done. unfold dq_put, get_dq, put_dq. apply wp_bind.
    eapply wp_kopt; [exact Hdq|]. destruct (items_stored v d Hsh) as (arr&Ea&Hsh'&Ei); [lia|done|].
    rewrite <-surjective_pairing. apply wp_bind. eapply wp_kopt; [exact Ea|]. apply wp_bind, wp_kset.
    specialize (H1 ltac:(lia) arr). fold (dq_stored arr d).
    change (set_dataqueues _ (set_primask 1 k)) with (set_primask 1 (with_dq dq (dq_stored arr d) k)).
    set (k0 := with_dq dq (dq_stored arr d) k) in *.
    assert (kinv k0) as I0 by apply calls_with. apply wp_bind. eapply wp_kopt; [by apply s_isempty_spec|].
    simpl. case_bool_decide as El.
    + apply wp_exit. rewrite bool_decide_true by done.
      assert (set_primask (primask k) (set_primask 1 k0) = k0) as -> by (by destruct k).
      apply H1; [done|done|]. unfold wakes_first. simpl. by rewrite El.
    + apply (wp_wake_waiter_then k0 (QPop dq) I0 Logic.I Hpop El). intros k' Hk'. wps. by apply (H1 k').
Qed.

(** Is the low water mark reached with somebody having found the queue full? *)
Definition reaches_low (d : rt_data_queue) : bool :=
  dq_waiting_lwm d && bool_decide (zlen (items (dq_taken d)) <= dq_lwm d).

Lemma wp_dq_pop (Q : dq_outcome → kern → Prop) :
  (∀ v, dq_shape (dq_taken d) → items d = v :: items (dq_taken d) → reaches_low d = false →
     wp (dq_end (Some RT_DATAQUEUE_EVENT_POP) (DqReturns RT_EOK (Some v))) (with_dq dq (dq_taken d) k) Q) →
  (∀ v k', dq_shape (dq_taken d) → items d = v :: items (dq_taken d) → reaches_low d = true →
     lof (thread_lists k) (QPush dq) ≠ [] →
     wakes_first (QPush dq) (with_dq dq (set_dq_waiting_lwm false (dq_taken d)) k) k' →
     wp (dq_end (Some RT_DATAQUEUE_EVENT_LWM) (DqReturns RT_EOK (Some v))) k' Q) →
  (∀ v, dq_shape (dq_taken d) → items d = v :: items (dq_taken d) → reaches_low d = true →
     lof (thread_lists k) (QPush dq) = [] →
     wp (dq_end (Some RT_DATAQUEUE_EVENT_LWM) (DqReturns RT_EOK (Some v)))
       (set_primask 1 (with_dq dq (set_dq_waiting_lwm false (dq_taken d)) k)) Q) →
  (items d = [] → timeout = 0 → Q (DqReturns (- RT_ETIMEOUT) None) k) →
  (items d = [] → timeout ≠ 0 → ∀ k', queues_up t th (QPop dq) timeout k k' → Q DqWaits k') →
  wp (rt_data_queue_pop notify dq timeout) k Q.
Proof using All.
  intros H1 H2 H3 H4 H5. pose proof Hok as [Hnull Hsh Hpush Hpop].
  unfold rt_data_queue_pop, rt_thread_self. wps. rewrite (ca_current _ _ _ Hca). cbn [dq_pop_loop].
  apply wp_bind. unfold get_dq. eapply wp_kopt; [exact Hdq|].
  destruct (decide (dq_get_index d = dq_put_index d)) as [E|E].
  - assert (items d = []) as Ei by (unfold items; by rewrite E, Z.sub_diag).
    rewrite bool_decide_true by done. destruct (decide (timeout = 0)) as [Et|Et].
    { rewrite bool_decide_true by done. apply wp_exit. rewrite bool_decide_false by done. apply wp_end_silent.
      specialize (H4 Ei Et). by destruct k. }
    rewrite bool_decide_false by done. specialize (H5 Ei Et).
    assert (with_dq dq d k = k) as Ek by (unfold with_dq; rewrite insert_id by done; by destruct k).
    rewrite <-Ek at 2. eapply wp_dq_wait; [done|done|]. rewrite Ek. intros k' Hk'. wps.
    rewrite bool_decide_false by apply Hk'. wps. by apply H5.
  - rewrite bool_decide_false by done. unfold dq_take, get_dq, put_dq. apply wp_bind.
    eapply wp_kopt; [exact Hdq|]. destruct (items_taken d Hsh E) as (v&Ev&Hsh'&Ei&El).
    apply wp_bind. eapply wp_kopt; [exact Ev|]. cbv zeta. fold (dq_taken d). apply wp_bind, wp_kset.
    change (dq_put_index (dq_taken d)) with (dq_put_index d). rewrite El.
    change (dq_waiting_lwm (dq_taken d) && bool_decide (zlen (items (dq_taken d)) <= dq_lwm (dq_taken d)))
      with (reaches_low d).
    change (set_dataqueues _ (set_primask 1 k)) with (set_primask 1 (with_dq dq (dq_taken d) k)).
    destruct (reaches_low d) eqn:Er.
    + apply wp_bind, wp_kset. set (d' := set_dq_waiting_lwm false (dq_taken d)) in *.
      match goal with |- wp _ ?k1 _ => replace k1 with (set_primask 1 (with_dq dq d' k)) end.
      2:{ unfold with_dq. simpl. rewrite insert_insert_eq. by destruct k. }
      apply wp_bind. eapply wp_kopt; [by apply s_isempty_spec|]. simpl. apply wp_bind.
      case_bool_decide as Ep.
      * apply wp_ret. by apply H3.
      * apply (wp_wake_waiter (with_dq dq d' k) (QPush dq) (ca_inv _ _ _ (calls_with d')) Logic.I Hpush Ep).
        intros k' Hk'. by apply H2.
    + apply wp_exit. rewrite bool_decide_true by done. specialize (H1 v Hsh' Ei eq_refl). by destruct k.
Qed.

End dq.

(** ** A data queue as a bounded queue of items with two queues of threads *)

Record dq_view : Type := DqView { v_items : list (Z * Z); v_pushers : list Z; v_poppers : list Z; v_full : bool }.

Definition view_dq (k : kern) (dq : Z) (d : rt_data_queue) : dq_view :=
  DqView (items d) (lof (thread_lists k) (QPush dq)) (lof (thread_lists k) (QPop dq)) (dq_waiting_lwm d).

(** The queue at [dq] is in order and shows [v]. *)
Definition dq_shows (dq size lwm fn : Z) (k : kern) (v : dq_view) : Prop :=
  kinv k ∧ ∃ d, dataqueues k !! dq = Some d ∧ dq_ok k dq d ∧ dq_size d = size ∧ dq_lwm d = lwm ∧
    dq_evt_notify d = fn ∧ view_dq k dq d = v.

(** The queue's notify function [fn], if it has one, is told the event in [k]
    and leaves [k']. *)
Definition tells (notify : Z → Z → Z → M unit) (fn dq : Z) (event : option Z) (k k' : kern) : Prop :=
  match event with
  | Some e => if bool_decide (fn = RT_NULL) then k' = k else notify fn dq e k = Ok tt k'
  | None => k' = k
  end.

(** The notify function returns whenever the queue is in order. *)
Definition notify_returns (notify : Z → Z → Z → M unit) (dq size lwm fn : Z) : Prop :=
  fn ≠ RT_NULL → ∀ e k v, dq_shows dq size lwm fn k v → ∃ k', notify fn dq e k = Ok tt k'.

Lemma wp_end notify dq size lwm fn event r (k : kern) v (Q : dq_outcome → kern → Prop) :
  notify_returns notify dq size lwm fn → dq_shows dq size lwm fn k v →
  (∀ k', tells notify fn dq event k k' → Q r k') → wp (dq_end notify dq event r) k Q.
Proof.
  intros Hret Hsh HQ. unfold dq_end. apply wp_bind. destruct event as [e|]; [|by apply wp_ret, HQ].
  pose proof Hsh as (_&d&Hd&_&_&_&Hfn&_). unfold dq_notify, get_dq. apply wp_bind.
  eapply wp_kopt; [exact Hd|]. rewrite Hfn. unfold tells in HQ. destruct (decide (fn = RT_NULL)) as [E|E].
  - rewrite bool_decide_true in HQ by done. rewrite bool_decide_false by tauto. by apply wp_ret, HQ.
  - rewrite bool_decide_false in HQ by done. rewrite bool_decide_true by done.
    destruct (Hret E e k v Hsh) as (k'&Hk'). eapply wp_eq; [exact Hk'|]. by apply wp_ret, HQ.
Qed.

Section shows.
Context (k : kern) (dq : Z) (d d' : rt_data_queue).
Context (Hdq : dataqueues k !! dq = Some d) (Hok : dq_ok k dq d).
Context (Hsh : dq_shape d').

#[local] Lemma kinv_with_dq : kinv k → kinv (with_dq dq d' k).
Proof using All. intros I. by apply (kinv_at_irrelevant 0 k). Qed.

(** Only the fields of the queue change. *)
#[local] Lemma shows_fields m : kinv k →
  dq_shows dq (dq_size d') (dq_lwm d') (dq_evt_notify d') (set_primask m (with_dq dq d' k)) (view_dq k dq d').
Proof using All.
  intros I. pose proof Hok as [Hnull _ Hpush Hpop]. split; [by apply (kinv_at_irrelevant 0 k)|].
  exists d'. split_and!; try done. apply lookup_insert_eq.
Qed.

(** A thread of one of the lists is woken. *)
#[local] Lemma shows_woken_dq q (k' : kern) : kinv k → q = QPush dq ∨ q = QPop dq →
  wakes_first q (with_dq dq d' k) k' →
  dq_shows dq (dq_size d') (dq_lwm d') (dq_evt_notify d') k' (DqView (items d')
    (if bool_decide (q = QPush dq) then tail (lof (thread_lists k) (QPush dq)) else lof (thread_lists k) (QPush dq))
    (if bool_decide (q = QPop dq) then tail (lof (thread_lists k) (QPop dq)) else lof (thread_lists k) (QPop dq))
    (dq_waiting_lwm d')).
Proof using All.
  intros I Hq Hw. pose proof Hok as [Hnull _ Hpush Hpop]. pose proof (kinv_with_dq I) as I'.
  assert (waiting_queue q) as Hwq by (by destruct Hq as [-> | ->]).
  assert (is_Some (s_lists (thread_lists (with_dq dq d' k)) !! q)) as Hh by (by destruct Hq as [-> | ->]).
  split; [by eapply wakes_first_inv|]. exists d'. destruct (wakes_first_driver _ _ _ Hw) as (_&->&_).
  split_and!; [apply lookup_insert_eq| |done|done|done|].
  - split; try done; by eapply (wakes_first_heads _ _ I' Hwq Hh).
  - pose proof (wakes_first_queue _ _ I' Hwq Hh _ Hw) as Eq. simpl in Eq.
    pose proof (λ y, wakes_first_other _ _ I' Hwq Hh y _ Hw) as Eo. simpl in Eo. unfold view_dq.
    destruct Hq as [-> | ->].
    + by rewrite (bool_decide_true (QPush dq = QPush dq)), (bool_decide_false (QPush dq = QPop dq)), Eq, Eo.
    + by rewrite (bool_decide_false (QPop dq = QPush dq)), (bool_decide_true (QPop dq = QPop dq)), Eq, Eo.
Qed.

(** The caller waits in one of the lists. *)
#[local] Lemma shows_queued t th time q (k' : kern) : calls k t th → q = QPush dq ∨ q = QPop dq →
  queues_up t th q time (with_dq dq d' k) k' →
  dq_shows dq (dq_size d') (dq_lwm d') (dq_evt_notify d') k' (DqView (items d')
    (if decide (QPush dq = q) then lof (thread_lists k) q ++ [t] else lof (thread_lists k) (QPush dq))
    (if decide (QPop dq = q) then lof (thread_lists k) q ++ [t] else lof (thread_lists k) (QPop dq))
    (dq_waiting_lwm d')).
Proof using All.
  intros Hca Hq Hw. pose proof Hok as [Hnull _ Hpush Hpop].
  assert (calls (with_dq dq d' k) t th) as Hca' by (eapply calls_with, Hca).
  assert (waiting_queue q) as Hwq by (by destruct Hq as [-> | ->]).
  assert (is_Some (s_lists (thread_lists (with_dq dq d' k)) !! q)) as Hh by (by destruct Hq as [-> | ->]).
  destruct (queues_up_rest _ t th Hca' q Hwq Hh _ _ Hw) as (_&Ed&_&Hd).
  split; [by eapply (queues_up_inv _ t th Hca' q Hwq Hh)|]. exists d'. rewrite Ed.
  split_and!; [apply lookup_insert_eq| |done|done|done|].
  - split; try done; by apply Hd.
  - unfold view_dq. by rewrite !(queues_up_lists _ t th Hca' q Hwq Hh _ _ _ Hw) by done.
Qed.

End shows.

(** Which of the two lists is meant. *)
Ltac simpl_lists H :=
  rewrite ?(bool_decide_false (QPop _ = QPush _)), ?(bool_decide_false (QPush _ = QPop _)),
    ?(bool_decide_true (QPop _ = QPop _)), ?(bool_decide_true (QPush _ = QPush _)),
    ?(decide_False (P:=QPop _ = QPush _)), ?(decide_False (P:=QPush _ = QPop _)),
    ?(decide_True (P:=QPop _ = QPop _)), ?(decide_True (P:=QPush _ = QPush _)) in H by done.

Section calls.
Context (notify : Z → Z → Z → M unit) (k : kern) (dq : Z) (d : rt_data_queue).
Context (Hdq : dataqueues k !! dq = Some d) (Hok : dq_ok k dq d).
Context (t : Z) (th : rt_thread) (Hca : calls k t th) (timeout : Z) (Htime : timeout < RT_TICK_MAX / 2).
Context (Hret : notify_returns notify dq (dq_size d) (dq_lwm d) (dq_evt_notify d)).

Abbreviation shows := (dq_shows dq (dq_size d) (dq_lwm d) (dq_evt_notify d)).
Abbreviation pushers := (lof (thread_lists k) (QPush dq)).
Abbreviation poppers := (lof (thread_lists k) (QPop dq)).

(** The state [k1] of the queue, after which [event] is told. *)
Definition dq_leaves (mask : Z) (v : dq_view) (event : option Z) (k' : kern) : Prop :=
  ∃ k1, primask k1 = mask ∧ shows k1 v ∧ tells notify (dq_evt_notify d) dq event k1 k'.

#[local] Lemma leaves_end mask v event r (k1 : kern) (Q : dq_outcome → kern → Prop) :
  primask k1 = mask → shows k1 v → (∀ k', dq_leaves mask v event k' → Q r k') →
  wp (dq_end notify dq event r) k1 Q.
Proof using Hret. intros Hm Hs HQ. eapply wp_end; [done..|]. intros k' Hk'. apply HQ. by exists k1. Qed.

Lemma dq_push_shows item : dq_put_index d + 1 < 2 ^ 16 →
  ∃ k', rt_data_queue_push notify dq item.1 item.2 timeout k =
       Ok (if bool_decide (zlen (items d) < dq_size d) then DqReturns RT_EOK None
           else if bool_decide (timeout = 0) then DqReturns (- RT_ETIMEOUT) None else DqWaits) k' ∧
     if bool_decide (zlen (items d) < dq_size d)
     then dq_leaves (primask k) (DqView (items d ++ [item]) pushers (tail poppers) (dq_waiting_lwm d))
            (if bool_decide (poppers = []) then Some RT_DATAQUEUE_EVENT_PUSH else None) k'
     else dq_leaves (primask k)
            (DqView (items d) (if bool_decide (timeout = 0) then pushers else pushers ++ [t]) poppers true)
            None k'.
Proof using All.
  intros Hw. pose proof (ca_inv _ _ _ Hca) as I. pose proof Hok as [Hnull Hsh Hpush Hpop].
  pose proof (zlen_items d Hsh) as El. pose proof (ds_put d Hsh) as Hput. apply wp_returns. rewrite El.
  eapply (wp_dq_push notify k dq d Hdq Hok t th Hca timeout Htime item); [done|..].
  - intros Hlt arr k' Hsh' Ei Hk'. rewrite !(bool_decide_true (dq_put_index d - dq_get_index d < dq_size d)) by lia.
    eapply leaves_end; [by destruct (wakes_first_driver _ _ _ Hk') as (_&_&->)| |done]. rewrite <-Ei.
    pose proof (shows_woken_dq k dq d (dq_stored arr d) Hdq Hok Hsh' _ k' I (or_intror eq_refl) Hk') as Hv.
    by simpl_lists Hv.
  - intros E ->. rewrite !bool_decide_false by lia. split; [done|]. eexists. split; [|split; [|done]]; [done|].
    pose proof (shows_fields k dq d (set_dq_waiting_lwm true d) Hdq Hok (shape_waiting _ _ Hsh) (primask k) I) as Hv.
    by destruct k.
  - intros E Ht k' Hk'. rewrite !bool_decide_false by lia. split; [done|]. exists k'.
    pose proof (shows_queued k dq d _ Hdq Hok (shape_waiting true _ Hsh) t th timeout _ k' Hca (or_introl eq_refl) Hk') as Hv.
    split; [|split; [by simpl_lists Hv|done]]. destruct Hk' as (_&k1&Hb&Hk1).
    by rewrite (sc_primask _ _ (scheduled_same _ _ Hk1)), (sr_primask _ _ (bl_rest _ _ _ _ _ _ _ Hb)).
Qed.

Lemma dq_pop_shows :
  ∃ k', rt_data_queue_pop notify dq timeout k =
       Ok (match items d with
           | item :: _ => DqReturns RT_EOK (Some item)
           | [] => if bool_decide (timeout = 0) then DqReturns (- RT_ETIMEOUT) None else DqWaits
           end) k' ∧
     match items d with
     | _ :: rest =>
         let low := dq_waiting_lwm d && bool_decide (zlen rest <= dq_lwm d) in
         dq_leaves (if low && bool_decide (pushers = []) then 1 else primask k)
           (DqView rest (if low then tail pushers else pushers) poppers (dq_waiting_lwm d && negb low))
           (Some (if low then RT_DATAQUEUE_EVENT_LWM else RT_DATAQUEUE_EVENT_POP)) k'
     | [] => dq_leaves (primask k)
               (DqView [] pushers (if bool_decide (timeout = 0) then poppers else poppers ++ [t])
                  (dq_waiting_lwm d)) None k'
     end.
Proof using All.
  pose proof (ca_inv _ _ _ Hca) as I. pose proof Hok as [Hnull Hsh Hpush Hpop].
  assert (with_dq dq d k = k) as Ek by (unfold with_dq; rewrite insert_id by done; by destruct k).
  apply wp_returns. eapply (wp_dq_pop notify k dq d Hdq Hok t th Hca timeout Htime).
  - intros v Hsh' Ei Er. rewrite Ei. unfold reaches_low in Er. cbv zeta. rewrite Er. simpl.
    eapply leaves_end; [| |done]; [done|]. rewrite andb_true_r.
    pose proof (shows_fields k dq d (dq_taken d) Hdq Hok Hsh' (primask k) I) as Hv. by destruct k.
  - intros v k' Hsh' Ei Er Hne Hk'. rewrite Ei. unfold reaches_low in Er. cbv zeta. rewrite Er. simpl.
    rewrite (bool_decide_false (pushers = [])) by done.
    eapply leaves_end; [by destruct (wakes_first_driver _ _ _ Hk') as (_&_&->)| |done]. rewrite andb_false_r.
    pose proof (shows_woken_dq k dq d _ Hdq Hok (shape_waiting false _ Hsh') _ k' I (or_introl eq_refl) Hk') as Hv.
    by simpl_lists Hv.
  - intros v Hsh' Ei Er Hp. rewrite Ei. unfold reaches_low in Er. cbv zeta. rewrite Er. simpl.
    rewrite (bool_decide_true (pushers = [])) by done. eapply leaves_end; [| |done]; [done|].
    rewrite andb_false_r, Hp. simpl. rewrite <-Hp.
    exact (shows_fields k dq d _ Hdq Hok (shape_waiting false _ Hsh') 1 I).
  - intros Ei ->. rewrite Ei. split; [done|]. exists k. split; [done|]. rewrite <-Ei. split; [|done].
    split; [done|]. by exists d.
  - intros Ei Ht k' Hk'. rewrite Ei, !bool_decide_false by done. split; [done|]. rewrite <-Ek in Hk'.
    pose proof (shows_queued k dq d d Hdq Hok Hsh t th timeout _ k' Hca (or_intror eq_refl) Hk') as Hv.
    rewrite Ei in Hv. exists k'. split; [|split; [by simpl_lists Hv|done]]. destruct Hk' as (_&k1&Hb&Hk1).
    by rewrite (sc_primask _ _ (scheduled_same _ _ Hk1)), (sr_primask _ _ (bl_rest _ _ _ _ _ _ _ Hb)).
Qed.

End calls.

(** C16: A data queue whose size is a power of two, and whose put index has not
    reached the end of its 16 bits, is a bounded FIFO queue of items: a push
    appends and wakes the first thread that waits to pop, or fails or waits when
    the queue is full; a pop takes the oldest item, and wakes the first thread
    that waits to push once the queue was full and has fallen to its low water
    mark.  In that last case and with nobody waiting to push, the call leaves the
    interrupts disabled; otherwise their state is restored.  The notify function,
    if the queue has one and as long as it returns, is told last: of a pop, of
    the low water mark instead, or of a push that woke nobody. *)
Theorem data_queue_refines_fifo notify (k : kern) dq d t th timeout : dataqueues k !! dq = Some d →
  dq_ok k dq d → calls k t th → timeout < RT_TICK_MAX / 2 → dq_put_index d + 1 < 2 ^ 16 →
  notify_returns notify dq (dq_size d) (dq_lwm d) (dq_evt_notify d) →
  let leaves := dq_leaves notify dq d in
  let pushers := lof (thread_lists k) (QPush dq) in
  let poppers := lof (thread_lists k) (QPop dq) in
  (∀ item, ∃ k', rt_data_queue_push notify dq item.1 item.2 timeout k =
       Ok (if bool_decide (zlen (items d) < dq_size d) then DqReturns RT_EOK None
           else if bool_decide (timeout = 0) then DqReturns (- RT_ETIMEOUT) None else DqWaits) k' ∧
     if bool_decide (zlen (items d) < dq_size d)
     then leaves (primask k) (DqView (items d ++ [item]) pushers (tail poppers) (dq_waiting_lwm d))
            (if bool_decide (poppers = []) then Some RT_DATAQUEUE_EVENT_PUSH else None) k'
     else leaves (primask k)
            (DqView (items d) (if bool_decide (timeout = 0) then pushers else pushers ++ [t]) poppers true)
            None k') ∧
  (∃ k', rt_data_queue_pop notify dq timeout k =
       Ok (match items d with
           | item :: _ => DqReturns RT_EOK (Some item)
           | [] => if bool_decide (timeout = 0) then DqReturns (- RT_ETIMEOUT) None else DqWaits
           end) k' ∧
     match items d with
     | _ :: rest =>
         let low := dq_waiting_lwm d && bool_decide (zlen rest <= dq_lwm d) in
         leaves (if low && bool_decide (pushers = []) then 1 else primask k)
           (DqView rest (if low then tail pushers else pushers) poppers (dq_waiting_lwm d && negb low))
           (Some (if low then RT_DATAQUEUE_EVENT_LWM else RT_DATAQUEUE_EVENT_POP)) k'
     | [] => leaves (primask k)
               (DqView [] pushers (if bool_decide (timeout = 0) then poppers else poppers ++ [t])
                  (dq_waiting_lwm d)) None k'
     end).
Proof.
  intros Hdq Hok Hca Htime Hw Hret. split.
  - intros item. by eapply dq_push_shows.
  - by eapply dq_pop_shows.
Qed.

(** ** When the indices wrap *)

(** The full test subtracts the 16-bit indices without reducing the
    difference: once the put index has wrapped, a queue that is full does not
    look full, and a push overwrites the oldest item. *)
Theorem data_queue_wraps notify (k : kern) dq d m item timeout : dataqueues k !! dq = Some d → dq ≠ RT_NULL →
  0 <= m <= 15 → dq_size d = 2 ^ m → zlen (dq_queue d) = dq_size d →
  dq_put_index d = 0 → dq_get_index d = 2 ^ 16 - dq_size d → dq_evt_notify d = RT_NULL →
  is_Some (s_lists (thread_lists k) !! QPop dq) → lof (thread_lists k) (QPop dq) = [] →
  u16 (dq_put_index d - dq_get_index d) = dq_size d ∧
  ∃ arr, arr_set 0 item (dq_queue d) = Some arr ∧
    rt_data_queue_push notify dq item.1 item.2 timeout k =
      Ok (DqReturns RT_EOK None) (with_dq dq (set_dq_put_index 1 (set_dq_queue arr d)) k) ∧
    arr_get (dq_slot d (dq_get_index d)) arr = Some item.
Proof.
  intros Hdq Hnull Hm Esz Hq Hp Hg Hn Hh El.
  assert (1 <= 2 ^ m <= 2 ^ 15) as Hpow by (split; [change 1 with (2 ^ 0)|]; apply Z.pow_le_mono_r; lia).
  assert (u16 (dq_size d - 1) = Z.ones m) as Emask.
  { rewrite Esz, u16_small by (unfold in_u16; lia). rewrite Z.ones_equiv. lia. }
  assert (dq_slot d (dq_put_index d) = 0) as Eput by (unfold dq_slot; by rewrite Hp).
  assert (dq_slot d (dq_get_index d) = 0) as Eget.
  { unfold dq_slot. rewrite Emask, Z.land_ones, Hg, Esz by lia.
    replace (2 ^ 16 - 2 ^ m) with ((2 ^ (16 - m) - 1) * 2 ^ m).
    - by rewrite Z.mod_mul by lia.
    - rewrite Z.mul_sub_distr_r, <-Z.pow_add_r by lia. f_equal; [f_equal|]; lia. }
  split. { rewrite Hp, Hg. unfold u16. replace (0 - (2 ^ 16 - dq_size d)) with (dq_size d + -1 * 2 ^ 16) by lia.
    rewrite Z.mod_add, Z.mod_small by lia. done. }
  assert (arr_set 0 item (dq_queue d) = Some (<[0%nat := item]> (dq_queue d))) as Hset.
  { unfold arr_set. rewrite bool_decide_true; [done|lia]. }
  eexists. split; [done|]. split.
  - assert (wp (rt_data_queue_push notify dq item.1 item.2 timeout) k (λ r k', r = DqReturns RT_EOK None ∧
      k' = with_dq dq (set_dq_put_index 1 (set_dq_queue (<[0%nat := item]> (dq_queue d)) d)) k))
      as (?&?&->&->&->)%wp_run; [|done].
    unfold rt_data_queue_push, rt_thread_self. wps. cbn [dq_push_loop]. unfold get_dq, dq_put, put_dq.
    apply wp_bind. eapply wp_kopt; [exact Hdq|]. rewrite bool_decide_false by lia. apply wp_bind.
    unfold get_dq. eapply wp_kopt; [exact Hdq|]. rewrite Eput, <-surjective_pairing. apply wp_bind.
    eapply wp_kopt; [exact Hset|]. rewrite Hp. change (u16 (0 + 1)) with 1. apply wp_bind, wp_kset, wp_bind.
    eapply wp_kopt; [by apply s_isempty_spec|]. simpl. rewrite El, bool_decide_true by done.
    apply wp_exit. rewrite bool_decide_true by done. unfold dq_end, dq_notify, get_dq. apply wp_bind, wp_bind.
    eapply wp_kopt; [apply lookup_insert_eq|]. simpl. rewrite Hn, bool_decide_false by tauto. wps.
    split; [done|]. by destruct k.
  - rewrite Eget. erewrite arr_get_set; [|exact Hset|lia]. by rewrite bool_decide_true.
Qed.

Definition the_dq : Z := 0x20005700.

Definition dq_start : sys_event := Driver (DInit the_dq 4 0 9 (Some [(0, 0); (0, 0); (0, 0); (0, 0)])).

(** A notify function that keeps the event it was told. *)
Definition note_event : Z → Z → Z → M unit := λ _ _ e, kset (set__errno e).

Lemma data_queue_refines_fifo_witness :
  let k := demo [dq_start; Driver (DPush the_dq 7 8 0)] in
  (∃ k', rt_data_queue_push note_event the_dq 5 6 0 k = Ok (DqReturns RT_EOK None) k') ∧
  (∃ k', rt_data_queue_pop note_event the_dq 0 k = Ok (DqReturns RT_EOK (Some (7, 8))) k').
Proof.
  intros k. destruct (threads k !! thread_a) as [th|] eqn:E; [|vm_compute in E; discriminate E].
  destruct (data_queue_refines_fifo note_event k the_dq
    (DataQueue 4 0 false 0 1 [(7, 8); (0, 0); (0, 0); (0, 0)] 9) thread_a th 0) as [Hp Hq].
  - vm_compute. reflexivity.
  - split; [discriminate| |vm_compute; eexists; reflexivity|vm_compute; eexists; reflexivity].
    split; [exists 2; split; [lia|reflexivity]|reflexivity|simpl; lia|simpl; lia|simpl; lia].
  - apply calls_b_sound; [vm_compute; reflexivity|exact E].
  - reflexivity.
  - reflexivity.
  - intros _ e k1 v _. eexists. reflexivity.
  - split.
    + destruct (Hp (5, 6)) as (k'&Hk'&_). exists k'. exact Hk'.
    + destruct Hq as (k'&Hk'&_). exists k'. exact Hk'.
Defined.

Lemma data_queue_wraps_witness :
  let d := DataQueue 4 0 false 65532 0 [(1, 1); (2, 2); (3, 3); (4, 4)] 0 in
  let k := with_dq the_dq d (demo [dq_start]) in
  ∃ k', rt_data_queue_push (λ _ _ _, mret tt) the_dq 9 9 0 k = Ok (DqReturns RT_EOK None) k'.
Proof.
  intros d k.
  destruct (data_queue_wraps (λ _ _ _, mret tt) k the_dq d 2 (9, 9) 0) as (_&arr&_&Hk'&_);
    [apply lookup_insert_eq|discriminate|lia|reflexivity|reflexivity|reflexivity|reflexivity|reflexivity
    |vm_compute; eexists; reflexivity|vm_compute; reflexivity|].
  eexists. exact Hk'.
Defined.
