(* ===== verification/DeviceProof.v ===== *)
(** * Devices are correct

    What is asked of the functions of a driver, and reference counting of opened
    devices over any sequence of calls. *)

From S2P Require Import Prelude DList ListStore SeqLemmas KString KPrint KPrintSpec KPrintProof KPrintFormat KState Scheduler ObjectSys Timer ThreadSys Ipc MemPool Device KernelWp KernelInv System KernelCheck SchedProof.

Abbreviation sys := (system seq_lists).
Abbreviation DM := (D seq_lists).

(** ** Weakest preconditions *)

Definition dwp {A} (c : DM A) (s : sys) (Q : A → sys → Prop) : Prop :=
  match c s with Ok a s' => Q a s' | Halt _ => False end.

Section wp.
Context {A B : Type}.

Lemma dwp_mono (c : DM A) s (Q Q' : A → sys → Prop) :
  dwp c s Q → (∀ a s', Q a s' → Q' a s') → dwp c s Q'.
Proof. unfold dwp. destruct (c s); auto. Qed.
Lemma dwp_bind (c : DM A) (f : A → DM B) s Q :
  dwp c s (λ a s', dwp (f a) s' Q) → dwp (c ≫= f) s Q.
Proof. unfold dwp, mbind, D_bind. by destruct (c s). Qed.
Lemma dwp_ok (c : DM A) s (Q : A → sys → Prop) :
  dwp c s Q → ∃ a s', c s = Ok a s' ∧ Q a s'.
Proof. unfold dwp. destruct (c s) as [a s'|]; [|done]. eauto. Qed.
Lemma dwp_kernel (c : M A) s (Q : A → sys → Prop) :
  wp c (kern_of s) (λ a k, Q a (set_kern k s)) → dwp (kernel_call c) s Q.
Proof. unfold wp, dwp, kernel_call. by destruct (c (kern_of s)). Qed.
Lemma dwp_returns (c : DM A) s r s' (Q : A → sys → Prop) : c s = Ok r s' → Q r s' → dwp c s Q.
Proof. intros E HQ. unfold dwp. by rewrite E. Qed.

End wp.

Lemma dwp_get dev d s (Q : rt_device → sys → Prop) :
  devices s !! dev = Some d → Q d s → dwp (get_device dev) s Q.
Proof. intros Hd HQ. unfold dwp, get_device, mbind, D_bind, dgets, dopt. by rewrite Hd. Qed.

Lemma dwp_mod dev f d s (Q : unit → sys → Prop) : devices s !! dev = Some d →
  Q tt (set_devices (<[dev := f d]> (devices s)) s) → dwp (mod_device dev f) s Q.
Proof. intros Hd HQ. unfold mod_device. apply dwp_bind. by eapply dwp_get. Qed.

Lemma dwp_assert b s (Q : unit → sys → Prop) : b = true → Q tt s → dwp (DEV_ASSERT b) s Q.
Proof. by intros ->. Qed.

Ltac dbind := apply dwp_bind.

(** ** Where calls return *)

(** The format "To initialize device:%s failed. The error code is %d\n". *)
Definition init_failed_text : list directive :=
  (Lit <$> [84; 111; 32; 105; 110; 105; 116; 105; 97; 108; 105; 122; 101; 32; 100; 101; 118; 105;
            99; 101; 58]) ++
  [Conv [] WNone PNone QNone CString] ++
  (Lit <$> [32; 102; 97; 105; 108; 101; 100; 46; 32; 84; 104; 101; 32; 101; 114; 114; 111; 114;
            32; 99; 111; 100; 101; 32; 105; 115; 32]) ++
  [Conv [] WNone PNone QNone CDecimal; Lit 10].

(** The message about a device can be printed: its text, the name of the device
    and the log buffer are in memory, apart from each other. *)
Record message_ok (lay : layout) (m : mem) (dev : Z) : Prop := {
  ms_buf : 0 <= rt_log_buf lay < 2 ^ 31;
  ms_input : ∃ name, zlen name <= 255 ∧
    printf_input m (rt_log_buf lay) 255 (init_failed lay) init_failed_text
      [AText (name_of lay dev) name; ANum 0];
}.

(** The error number can be set. *)
Definition errno_ok (k : kern) : Prop :=
  rt_interrupt_nest k ≠ 0 ∨ rt_current_thread k = RT_NULL ∨
  is_Some (threads k !! rt_current_thread k).

(** ** What the device layer changes *)

Definition activated (d : rt_device) : bool := has (dv_flag d) RT_DEVICE_FLAG_ACTIVATED.
Definition exclusive (d : rt_device) : bool := has (dv_flag d) RT_DEVICE_FLAG_STANDALONE.
Definition is_open (d : rt_device) : bool := has (dv_open_flag d) RT_DEVICE_OFLAG_OPEN.

(** The functions of the device are the same. *)
Definition same_driver (d d' : rt_device) : Prop :=
  dv_rx_indicate d' = dv_rx_indicate d ∧ dv_tx_complete d' = dv_tx_complete d ∧ dv_init d' = dv_init d ∧
  dv_open d' = dv_open d ∧ dv_close d' = dv_close d ∧ dv_read d' = dv_read d ∧ dv_write d' = dv_write d ∧
  dv_control d' = dv_control d.

(** A step of the device layer itself: the error number, the log buffer, and the flags
    and reference counts of the devices. *)
Record layer_step (lay : layout) (s s' : sys) : Prop := {
  ly_kern : kern_of s' = kern_of s ∨ ∃ e, rt_set_errno e (kern_of s) = Ok tt (kern_of s');
  ly_memory x : ¬ (rt_log_buf lay <= x < rt_log_buf lay + RT_CONSOLEBUF_SIZE) → memory s' !! x = memory s !! x;
  ly_devices x : option_Forall2 same_driver (devices s !! x) (devices s' !! x);
  ly_console : _console_device s' = _console_device s;
}.

(** The system can go on: the error number can be set, the message can be printed for
    every device, the console exists, and what the drivers need holds ([App]). *)
Record usable (lay : layout) (App : sys → Prop) (s : sys) : Prop := {
  us_errno : errno_ok (kern_of s);
  us_message dev : is_Some (devices s !! dev) → message_ok lay (memory s) dev;
  us_console : _console_device s = RT_NULL ∨ is_Some (devices s !! _console_device s);
  us_app : App s;
}.

(** ** What is asked of the drivers *)

(** What a driver function may do to the structure of a device: anything but change its
    reference count, whether it is standalone, or its [init]; a device that is in use
    stays initialised and marked open.  An [open] that succeeds ([opening]) may overwrite
    the open flag, which [rt_device_open] sets afterwards, and leaves the device
    initialised. *)
Record tame_but (opening : bool) (d d' : rt_device) : Prop := {
  tm_ref : dv_ref_count d' = dv_ref_count d;
  tm_exclusive : exclusive d' = exclusive d;
  tm_init : dv_init d' = dv_init d;
  tm_activated : opening = true ∨ 0 < dv_ref_count d → activated d = true → activated d' = true;
  tm_open : opening = false → 0 < dv_ref_count d → is_open d = true → is_open d' = true;
}.
Abbreviation tame := (tame_but false).

Record harmless_but (opening : Z → bool) (lay : layout) (App : sys → Prop) (s s' : sys) : Prop := {
  hl_devices x : option_Forall2 (tame_but (opening x)) (devices s !! x) (devices s' !! x);
  hl_console : _console_device s' = _console_device s;
  hl_usable : usable lay App s';
}.
Abbreviation harmless := (harmless_but (λ _, false)).

(** The contract of the driver functions: called while the system can go on they return,
    and it still can; [close] is called when no reference is left.  They may do anything to the kernel, to memory and to the devices
    that this allows; what they need for it, [App], is kept by the steps of the device
    layer. *)
Class WellBehaved (dr : drivers seq_lists) (lay : layout) (App : sys → Prop) : Prop := {
  wb_app s s' : App s → layer_step lay s s' → App s';
  wb_init fn dev s : usable lay App s → ∃ r s', run_init dr fn dev s = Ok r s' ∧ harmless lay App s s';
  wb_open fn dev oflag s : usable lay App s → ∃ r s', run_open dr fn dev oflag s = Ok r s' ∧
    harmless_but (λ x, bool_decide (x = dev) && accepted r) lay App s s';
  wb_close fn dev d s : usable lay App s → devices s !! dev = Some d → dv_ref_count d = 0 →
    ∃ r s', run_close dr fn dev s = Ok r s' ∧ harmless lay App s s';
  wb_read fn dev pos buf size s : usable lay App s →
    ∃ r s', run_read dr fn dev pos buf size s = Ok r s' ∧ harmless lay App s s';
  wb_write fn dev pos buf size s : usable lay App s →
    ∃ r s', run_write dr fn dev pos buf size s = Ok r s' ∧ harmless lay App s s';
  wb_control fn dev cmd arg s : usable lay App s →
    ∃ r s', run_control dr fn dev cmd arg s = Ok r s' ∧ harmless lay App s s';
  wb_output str s : usable lay App s → ∃ s', rt_hw_console_output dr str s = Ok tt s' ∧ harmless lay App s s';
}.

Lemma tame_refl b d : tame_but b d d.
Proof. by split. Qed.
Lemma tame_trans d1 d2 d3 : tame d1 d2 → tame d2 d3 → tame d1 d3.
Proof.
  intros [r1 e1 i1 a1 o1] [r2 e2 i2 a2 o2]. split; try congruence.
  - intros [?|H] Ha; [done|]. apply a2; [right; lia|]. apply a1; [by right|done].
  - intros _ H Ho. apply o2; [done|lia|]. by apply o1.
Qed.
Lemma same_driver_refl d : same_driver d d.
Proof. by split_and!. Qed.

Lemma forall2_refl {A} (R : A → A → Prop) (o : option A) : (∀ x, R x x) → option_Forall2 R o o.
Proof. intros H. destruct o; constructor. apply H. Qed.
Lemma forall2_trans {A} (R : A → A → Prop) (o1 o2 o3 : option A) : (∀ x y z, R x y → R y z → R x z) →
  option_Forall2 R o1 o2 → option_Forall2 R o2 o3 → option_Forall2 R o1 o3.
Proof. intros H H1 H2. destruct H1; inversion H2; constructor. by eapply H. Qed.

(** ** Calls of the kernel *)

Lemma wp_set_errno e (k : kern) (Q : unit → kern → Prop) : errno_ok k →
  (∀ k', errno_ok k' → Q tt k') → wp (rt_set_errno e) k Q.
Proof.
  intros Hk HQ. unfold rt_set_errno, errno_thread, rt_thread_self. wps.
  destruct (decide (rt_interrupt_nest k = 0)) as [Hn|Hn].
  - rewrite bool_decide_false by tauto. wps. case_bool_decide as Hc; wps.
    + apply HQ. right. left. done.
    + destruct Hk as [Hk|[Hk|[th Hk]]]; [done..|]. eapply wp_mod_thread; [done|].
      apply HQ. right. right. cbn. rewrite lookup_insert_eq. eauto.
  - rewrite bool_decide_true by done. wps. rewrite bool_decide_true by done. wps.
    apply HQ. by left.
Qed.

(** A step of the device layer keeps the system usable, given the error number and the
    messages. *)
Lemma usable_layer dr lay App {WB : WellBehaved dr lay App} s s' : usable lay App s → layer_step lay s s' →
  errno_ok (kern_of s') → (∀ dev, message_ok lay (memory s) dev → message_ok lay (memory s') dev) → usable lay App s'.
Proof.
  intros [He Hm Hc Ha] Hs He' Hm'. pose proof (wb_app s s' Ha Hs) as Ha'. destruct Hs as [_ _ Hd Hcon]. split; [done| | |done].
  - intros dev [d' Hd']. specialize (Hd dev). rewrite Hd' in Hd. inversion Hd as [? ? ? E|]. apply Hm', Hm. eauto.
  - rewrite Hcon. destruct Hc as [Hc|[d Hd']]; [by left|right]. specialize (Hd (_console_device s)). rewrite Hd' in Hd.
    inversion Hd. eauto.
Qed.

Lemma dwp_set_errno dr lay App {WB : WellBehaved dr lay App} e (s : sys) (Q : unit → sys → Prop) : usable lay App s →
  (∀ s', harmless lay App s s' → devices s' = devices s → Q tt s') → dwp (set_errno e) s Q.
Proof.
  intros Hu HQ. apply dwp_kernel. destruct (wp_run (rt_set_errno e) (kern_of s) (λ _, errno_ok)) as ([]&k'&E&Hk');
    [by apply wp_set_errno; [apply Hu|]|]. unfold wp. rewrite E. apply HQ; [|done]. split; [|done|].
  - intros x. apply forall2_refl. apply tame_refl.
  - eapply usable_layer; [done|exact Hu| |done|done]. split; [right; by exists e|done| |done].
    intros x. apply forall2_refl, same_driver_refl.
Qed.

(** ** The message of a failed initialisation *)

(** What is apart from the log buffer is not changed by printing. *)
Lemma message_written lay m m' t dev : written m m' (rt_log_buf lay) t → zlen t <= 255 →
  message_ok lay m dev → message_ok lay m' dev.
Proof.
  intros Hw Ht [Hb (name&Hn&[Hwf Hf Ha Hargs Hmap])]. split; [done|]. exists name. split; [done|].
  assert (∀ p u, cstr m p u → p + zlen u + 1 <= rt_log_buf lay ∨ rt_log_buf lay + 255 <= p →
    cstr m' p u) as Hframe.
  { intros p u Hu Hp. apply (cstr_frame m); [|done]. intros x Hx. rewrite Hw.
    rewrite bool_decide_false; [done|]. lia. }
  split; [done| |done| |].
  - apply Hframe; done.
  - apply Forall_cons in Hargs as [(Hp&Hu&Hc&Hd) _]. constructor; [|by repeat constructor].
    split_and!; [done..| |done]. apply Hframe; [done|]. lia.
  - intros i Hi. rewrite Hw. case_bool_decide; [|by apply Hmap].
    unfold arr_get. rewrite bool_decide_true by lia. apply lookup_lt_is_Some. unfold zlen in *. lia.
Qed.

Lemma render_lits cs ds args : render ((Lit <$> cs) ++ ds) args = (t ← render ds args; Some (cs ++ t)).
Proof.
  induction cs as [|c cs IH]; cbn [fmap list_fmap app render render1 mbind option_bind].
  - by destruct (render ds args).
  - fold (render ((Lit <$> cs) ++ ds) args). rewrite IH. by destruct (render ds args).
Qed.

Lemma zlen_number_text f radix upper signed v : zlen (number_text f radix upper signed v) =
  Z.max (width f) (zlen (sign_text f signed v) +
    Z.max (default 0 (f_prec f)) (zlen (digits radix (Z.abs v)))).
Proof.
  rewrite number_text_layout, zlen_layout, zlen_pad_left. do 3 f_equal.
  unfold zlen. by rewrite length_fmap.
Qed.

Definition plain_field : field := Field false false false false None None.

Lemma render_init_failed p name r : ∃ t,
  render init_failed_text [AText p name; ANum r] = Some t ∧ zlen t <= zlen name + 61.
Proof.
  unfold init_failed_text. rewrite render_lits.
  cbn [app render render1 width_of prec_of mbind option_bind conv_text]. rewrite render_lits.
  cbn [app render render1 width_of prec_of mbind option_bind conv_text].
  eexists. split; [reflexivity|]. repeat first [rewrite zlen_cons|rewrite zlen_app].
  rewrite zlen_number_text. change (string_text _ name) with (pad_left 0 32 name).
  rewrite pad_left_0. cbn [width f_width f_prec default from_option].
  match goal with |- context [sign_text ?f ?b ?v] =>
    assert (zlen (sign_text f b v) <= 1) by (unfold sign_text; repeat case_match; done) end.
  destruct (digits_length 10 (Z.abs (integer_value true QNone (arg_word (ANum r)))) 9) as [_ Hd];
    [done|cbn [integer_value arg_word]; change (10 ^ Z.of_nat 10) with 10000000000; mlia|].
  assert (zlen (digits 10 (Z.abs (integer_value true QNone (arg_word (ANum r))))) <= 10)
    by (unfold zlen; lia).
  change (zlen []) with 0. lia.
Qed.

(** Printing the message returns and keeps all messages printable. *)
Lemma print_message lay m dev r : message_ok lay m dev → ∃ m' len,
  kprintf_fill m (rt_log_buf lay) (init_failed lay) [name_of lay dev; r] = Some (m', len) ∧
  (∀ d, message_ok lay m d → message_ok lay m' d) ∧
  ∀ x, ¬ (rt_log_buf lay <= x < rt_log_buf lay + RT_CONSOLEBUF_SIZE) → m' !! x = m !! x.
Proof.
  intros [Hb (name&Hn&Hin)]. destruct (render_init_failed (name_of lay dev) name r) as (t&Ht&Hlen).
  pose proof (zlen_nonneg t).
  destruct (vsnprintf_bounded m (rt_log_buf lay) (RT_CONSOLEBUF_SIZE - 1) (init_failed lay)
    init_failed_text [AText (name_of lay dev) name; ANum r] t) as (m'&n&Hv&Hw&_);
    change (zlen init_failed_text) with 51; change (RT_CONSOLEBUF_SIZE - 1) with 255;
    try done; try lia.
  { destruct Hin as [Hwf Hf Ha Hargs Hmap]. split; [done|done|lia| |].
    - apply Forall_cons in Hargs as [(?&?&?&?) _]. constructor; [|by repeat constructor].
      split_and!; [done..|lia].
    - eapply mapped_sub; [done|lia..]. }
  unfold kprintf_fill. cbn [fmap list_fmap arg_word] in Hv. rewrite Hv. obind.
  match type of Hw with written _ _ _ ?l => assert (zlen l <= 255) as Hl end.
  { rewrite zlen_app. unfold zlen at 1. rewrite length_take. change (zlen [0]) with 1.
    change (Z.to_nat (RT_CONSOLEBUF_SIZE - 1 - 1)) with 254%nat. lia. }
  do 2 eexists. split_and!; [done| |].
  - intros d Hd. by eapply message_written.
  - intros x Hx. rewrite Hw. rewrite bool_decide_false; [done|]. change RT_CONSOLEBUF_SIZE with 256 in Hx. lia.
Qed.

Section calls.
Context (dr : drivers seq_lists) (lay : layout) (App : sys → Prop) {WB : WellBehaved dr lay App}.
Implicit Types (s : sys) (d : rt_device).

Lemma usable_put s dev d d' : usable lay App s → devices s !! dev = Some d → same_driver d d' →
  usable lay App (set_devices (<[dev := d']> (devices s)) s).
Proof using WB.
  intros Hu Hd Hs. eapply usable_layer; [done|exact Hu| |apply Hu|done]. split; [by left|done| |done].
  intros x. cbn. destruct (decide (x = dev)) as [->|Hx]; [rewrite Hd, lookup_insert_eq; by constructor|].
  rewrite lookup_insert_ne by done. apply forall2_refl, same_driver_refl.
Qed.

Lemma harmless_refl s : usable lay App s → harmless lay App s s.
Proof using Type. intros Hu. split; [|done|done]. intros x. apply forall2_refl, tame_refl. Qed.

(** The device behind a driver function. *)
Lemma harmless_device P dev d s s' : harmless_but P lay App s s' → devices s !! dev = Some d →
  ∃ d', devices s' !! dev = Some d' ∧ tame_but (P dev) d d'.
Proof using Type. intros [H _ _] Hd. specialize (H dev). rewrite Hd in H. inversion H. eauto. Qed.

(** The result of the driver's function [f] if there is one and the device is
    open, else 0 and the error number set. *)
Lemma dwp_transfer (run : Z → DM Z) fn d s (Q : Z → sys → Prop) :
  (∀ s, usable lay App s → ∃ r s', run fn s = Ok r s' ∧ harmless lay App s s') → usable lay App s →
  (∀ r s', harmless lay App s s' → (dv_ref_count d = 0 → r = 0 ∧ devices s' = devices s) → Q r s') →
  dwp (if bool_decide (dv_ref_count d = 0) then set_errno (- RT_ERROR);; mret 0 else
       if bool_decide (fn ≠ RT_NULL) then run fn else set_errno (- RT_ENOSYS);; mret 0) s Q.
Proof using WB.
  intros Hrun Hu HQ. repeat case_bool_decide.
  - dbind. eapply dwp_set_errno; [done|done|]. intros s' Hs' Hds. by apply HQ.
  - destruct (Hrun s Hu) as (r&s'&E&Hs'). eapply dwp_returns; [done|]. by apply HQ.
  - dbind. eapply dwp_set_errno; [done|done|]. intros s' Hs' Hds. by apply HQ.
Qed.

Lemma dwp_device_write dev pos buf size s d (Q : Z → sys → Prop) : dev ≠ RT_NULL →
  devices s !! dev = Some d → usable lay App s →
  (∀ r s', harmless lay App s s' → (dv_ref_count d = 0 → r = 0 ∧ devices s' = devices s) → Q r s') →
  dwp (rt_device_write dr dev pos buf size) s Q.
Proof using WB.
  intros Hn Hd Hu HQ. unfold rt_device_write. dbind. apply dwp_assert; [by apply bool_decide_true|].
  dbind. eapply dwp_get; [done|].
  apply (dwp_transfer (λ fn, run_write dr fn dev pos buf size)); [|done..]. intros. by apply wb_write.
Qed.

Lemma dwp_device_read dev pos buf size s d (Q : Z → sys → Prop) : dev ≠ RT_NULL →
  devices s !! dev = Some d → usable lay App s →
  (∀ r s', harmless lay App s s' → (dv_ref_count d = 0 → r = 0 ∧ devices s' = devices s) → Q r s') →
  dwp (rt_device_read dr dev pos buf size) s Q.
Proof using WB.
  intros Hn Hd Hu HQ. unfold rt_device_read. dbind. apply dwp_assert; [by apply bool_decide_true|].
  dbind. eapply dwp_get; [done|].
  apply (dwp_transfer (λ fn, run_read dr fn dev pos buf size)); [|done..]. intros. by apply wb_read.
Qed.

(** The console is written to as a stream, and gets its flag back. *)
Lemma dwp_to_console c d len s (Q : unit → sys → Prop) : c ≠ RT_NULL → devices s !! c = Some d → usable lay App s →
  (∀ s', harmless lay App s s' → Q tt s') →
  dwp (put_device c (set_dv_open_flag (Z.lor (dv_open_flag d) RT_DEVICE_FLAG_STREAM) d);;
       rt_device_write dr c 0 (rt_log_buf lay) len;;
       mod_device c (set_dv_open_flag (dv_open_flag d))) s Q.
Proof using WB.
  intros Hn Hd Hu HQ. set (d1 := set_dv_open_flag _ d). dbind. eapply dwp_returns; [reflexivity|].
  set (s1 := set_devices _ s). assert (usable lay App s1) as Hu1 by (by apply (usable_put s c d)).
  assert (devices s1 !! c = Some d1) as Hd1 by apply lookup_insert_eq.
  dbind. eapply dwp_device_write; [done|exact Hd1|done|]. intros r s2 H2 _.
  destruct (harmless_device _ c d1 s1 s2 H2 Hd1) as (d2&Hd2&Ht). eapply dwp_mod; [exact Hd2|].
  apply HQ. split; cbn; [|apply H2|by apply (usable_put s2 c d2); [apply H2|..]].
  intros x. destruct (decide (x = c)) as [->|Hx].
  - rewrite Hd, lookup_insert_eq. constructor. destruct Ht as [r1 e1 i1 a1 _]. by split.
  - rewrite lookup_insert_ne by done. pose proof (hl_devices _ _ _ _ _ H2 x) as H. cbn in H. by rewrite lookup_insert_ne in H.
Qed.

(** Printing about a device is harmless. *)
Lemma dwp_print_message dev r s (Q : unit → sys → Prop) : is_Some (devices s !! dev) →
  usable lay App s → (∀ s', harmless lay App s s' → Q tt s') →
  dwp (rt_kprintf dr lay (init_failed lay) [name_of lay dev; r]) s Q.
Proof using WB.
  intros Hdev Hu HQ. pose proof Hu as [He Hm Hc Ha].
  destruct (print_message lay (memory s) dev r (Hm dev Hdev)) as (m'&len&Hfill&Hkeep&Hmem).
  unfold rt_kprintf. dbind. apply (dwp_returns _ _ (memory s) s); [done|].
  dbind. eapply dwp_returns; [unfold dopt; by rewrite Hfill|]. dbind.
  apply (dwp_returns _ _ tt (set_memory m' s)); [done|].
  assert (usable lay App (set_memory m' s)) as Hu1.
  { eapply usable_layer; [done|exact Hu| |done|exact Hkeep]. split; [by left|done| |done].
    intros x. apply forall2_refl, same_driver_refl. }
  assert (∀ s', harmless lay App (set_memory m' s) s' → Q tt s') as HQ' by (intros s' [H1 H2 H3]; by apply HQ).
  dbind. apply (dwp_returns _ _ (_console_device s) (set_memory m' s)); [done|].
  case_bool_decide as Hcon.
  - destruct (wb_output (rt_log_buf lay) _ Hu1) as (s2&E&Hs2). eapply dwp_returns; [done|]. by apply HQ'.
  - destruct Hc as [|[d Hd]]; [done|]. dbind. eapply (dwp_get _ d); [done|]. by apply dwp_to_console.
Qed.

(** *** Calls of a client *)

Inductive dev_call : Type :=
| Open (oflag : Z)
| Close
| Read (pos buf size : Z)
| Write (pos buf size : Z)
| Control (cmd arg : Z).

Definition run_dev_call (dev : Z) (c : dev_call) : DM Z :=
  match c with
  | Open oflag => rt_device_open dr lay dev oflag
  | Close => rt_device_close dr dev
  | Read pos buf size => rt_device_read dr dev pos buf size
  | Write pos buf size => rt_device_write dr dev pos buf size
  | Control cmd arg => rt_device_control dr dev cmd arg
  end.

Fixpoint run_dev_calls (dev : Z) (cs : list dev_call) : DM (list Z) :=
  match cs with
  | [] => mret []
  | c :: cs => r ← run_dev_call dev c; rs ← run_dev_calls dev cs; mret (r :: rs)
  end.

(** *** The life of a device *)

(** The device as [rt_device_open] finds it behind the initialisation. *)
Definition starts d d1 : Prop :=
  if activated d then d1 = d
  else ∃ d0, tame d d0 ∧ d1 = set_dv_flag (Z.lor (dv_flag d0) RT_DEVICE_FLAG_ACTIVATED) d0.
Definition opened (oflag : Z) d : rt_device :=
  set_dv_ref_count (dv_ref_count d + 1)
    (set_dv_open_flag (u16 (Z.lor oflag RT_DEVICE_OFLAG_OPEN)) d).
Definition released d : rt_device := set_dv_ref_count (dv_ref_count d - 1) d.

Lemma has_lor f b c : has (Z.lor f b) c = has f c || has b c.
Proof using Type. apply flag_lor_l. Qed.

Lemma starts_ok d d1 : starts d d1 → dv_ref_count d1 = dv_ref_count d ∧ exclusive d1 = exclusive d ∧
  dv_init d1 = dv_init d ∧ activated d1 = true ∧ (activated d = true → d1 = d).
Proof using Type.
  unfold starts. destruct (activated d) eqn:Ha; [by intros ->|]. intros (d0&[r e i _ _]&->). split_and!; try done.
  - rewrite <- e. unfold exclusive. cbn. rewrite has_lor. apply orb_false_r.
  - unfold activated. cbn. rewrite has_lor. apply orb_true_r.
Qed.

(** What a call may answer and leave; the answers of the driver are its own, and so is
    what it does to the rest of its device. *)
Inductive life_step (dev : Z) d : dev_call → Z → rt_device → Prop :=
| ls_open_init o r d' s s' : activated d = false → run_init dr (dv_init d) dev s = Ok r s' → r ≠ RT_EOK → tame d d' →
    life_step dev d (Open o) r d'
| ls_open_busy o d1 : starts d d1 → exclusive d = true → is_open d1 = true →
    life_step dev d (Open o) (- RT_EBUSY) d1
| ls_open_ok o r d1 d2 : starts d d1 → exclusive d && is_open d1 = false → accepted r = true → tame_but true d1 d2 →
    life_step dev d (Open o) r (opened o d2)
| ls_open_refused o r d1 d2 : starts d d1 → exclusive d && is_open d1 = false → accepted r = false → tame d1 d2 →
    life_step dev d (Open o) r d2
| ls_close_closed : dv_ref_count d = 0 → life_step dev d Close (- RT_ERROR) d
| ls_close_shared : 1 < dv_ref_count d → life_step dev d Close RT_EOK (released d)
| ls_close_last r d1 : dv_ref_count d = 1 → accepted r = true → tame (released d) d1 →
    life_step dev d Close r (set_dv_open_flag RT_DEVICE_OFLAG_CLOSE d1)
| ls_close_failed r d1 : dv_ref_count d = 1 → accepted r = false → tame (released d) d1 → life_step dev d Close r d1
| ls_read pos buf size r d' : tame d d' → (dv_ref_count d = 0 → r = 0 ∧ d' = d) → life_step dev d (Read pos buf size) r d'
| ls_write pos buf size r d' : tame d d' → (dv_ref_count d = 0 → r = 0 ∧ d' = d) → life_step dev d (Write pos buf size) r d'
| ls_control cmd arg r d' : tame d d' → life_step dev d (Control cmd arg) r d'.

(** After a call: the one device, and the others as their drivers may change them. *)
Record becomes_device (dev : Z) (d' : rt_device) s s' : Prop := {
  bd_device : devices s' !! dev = Some d';
  bd_others x : x ≠ dev → option_Forall2 tame (devices s !! x) (devices s' !! x);
  bd_console : _console_device s' = _console_device s;
  bd_usable : usable lay App s';
}.

Lemma becomes_same dev d s : usable lay App s → devices s !! dev = Some d → becomes_device dev d s s.
Proof using Type. intros Hu Hd. split; try done. intros x _. apply forall2_refl, tame_refl. Qed.

Lemma becomes_trans' dev d1 d2 s s1 s2 : becomes_device dev d1 s s1 →
  becomes_device dev d2 s1 s2 → becomes_device dev d2 s s2.
Proof using Type.
  intros [_ H1 C1 _] [D2 H2 C2 U2]. split; [done| |congruence|done]. intros x Hx.
  eapply forall2_trans; [apply tame_trans|by apply H1|by apply H2].
Qed.

Lemma harmless_becomes P dev d s s' : harmless_but P lay App s s' → (∀ x, x ≠ dev → P x = false) → devices s !! dev = Some d →
  ∃ d', tame_but (P dev) d d' ∧ becomes_device dev d' s s'.
Proof using Type.
  intros H HP Hd. destruct (harmless_device _ _ _ _ _ H Hd) as (d'&Hd'&Ht). exists d'. split; [done|].
  destruct H as [H1 H2 H3]. split; try done. intros x Hx. specialize (H1 x). by rewrite (HP x Hx) in H1.
Qed.

Lemma dwp_mod_becomes dev f d s0 s (Q : unit → sys → Prop) : becomes_device dev d s0 s → same_driver d (f d) →
  (∀ s', becomes_device dev (f d) s0 s' → Q tt s') → dwp (mod_device dev f) s Q.
Proof using WB.
  intros [Hd Ho Hc Hu] Hf HQ. eapply dwp_mod; [done|]. apply HQ. split; cbn; [apply lookup_insert_eq| |done|by eapply usable_put].
  intros x Hx. rewrite lookup_insert_ne by done. by apply Ho.
Qed.

(** A driver function between two states of the device. *)
Lemma dwp_driver {A} (P : A → Z → bool) (c : DM A) dev d s0 s (Q : A → sys → Prop) : (∀ r x, x ≠ dev → P r x = false) →
  (∃ r s', c s = Ok r s' ∧ harmless_but (P r) lay App s s') → becomes_device dev d s0 s →
  (∀ r s' d', c s = Ok r s' → tame_but (P r dev) d d' → becomes_device dev d' s0 s' → Q r s') → dwp c s Q.
Proof using Type.
  intros HP (r&s'&E&Hs') Hb HQ. eapply dwp_returns; [done|].
  destruct (harmless_becomes _ dev d s s' Hs' (HP r) (bd_device _ _ _ _ Hb)) as (d'&Ht&Hb').
  apply (HQ r s' d'); [done|done|]. by eapply becomes_trans'.
Qed.

Section one.
Context (dev : Z) (d : rt_device) (s0 : sys).
Hypothesis (Hnull : dev ≠ RT_NULL) (Hd : devices s0 !! dev = Some d) (Hu : usable lay App s0).
Hypothesis (Href : 0 <= dv_ref_count d <= 255).

Lemma dwp_open_init (Q : bool * Z → sys → Prop) :
  (∀ d1 s', starts d d1 → becomes_device dev d1 s0 s' → Q (true, RT_EOK) s') →
  (∀ r d1 s' s1 s2, activated d = false → run_init dr (dv_init d) dev s1 = Ok r s2 → r ≠ RT_EOK → tame d d1 →
    becomes_device dev d1 s0 s' → Q (false, r) s') →
  dwp (open_init dr lay dev) s0 Q.
Proof using All.
  intros HQ1 HQ2. pose proof (becomes_same dev d s0 Hu Hd) as Hb.
  unfold open_init. dbind. eapply dwp_get; [done|]. unfold starts, activated in *.
  destruct (has (dv_flag d) RT_DEVICE_FLAG_ACTIVATED) eqn:Ha; [by apply (HQ1 d)|]. dbind.
  assert (∀ d0 s', tame d d0 → becomes_device dev d0 s0 s' →
    dwp (mod_device dev (λ d, set_dv_flag (Z.lor (dv_flag d) RT_DEVICE_FLAG_ACTIVATED) d);;
         mret (true, RT_EOK)) s' Q) as Hact.
  { intros d0 s' Ht Hs'. dbind. eapply dwp_mod_becomes; [done|by split_and!|]. intros s2 Hs2. eapply HQ1; [|exact Hs2]. eauto. }
  case_bool_decide.
  - eapply (dwp_driver (λ _ _, false)); [done|by apply wb_init|done|]. intros r s' d0 E Ht Hs'.
    case_bool_decide as Hr; [|subst r; by eapply Hact]. dbind.
    apply dwp_print_message; [exists d0; apply Hs'|apply Hs'|]. intros s2 Hs2.
    destruct (harmless_becomes _ dev d0 s' s2 Hs2) as (d1&Ht1&Hb1); [done|apply Hs'|].
    apply (HQ2 r d1 s2 s0 s'); [done|done|done|by eapply tame_trans|]. by eapply becomes_trans'.
  - apply (dwp_returns _ _ RT_EOK s0); [done|]. rewrite bool_decide_false by tauto. by eapply Hact; [apply tame_refl|].
Qed.

Lemma dwp_device_open o : dv_ref_count d < 255 →
  dwp (rt_device_open dr lay dev o) s0 (λ r s',
    ∃ d', life_step dev d (Open o) r d' ∧ becomes_device dev d' s0 s').
Proof using All.
  intros Hlim. unfold rt_device_open. dbind. apply dwp_assert; [by apply bool_decide_true|].
  dbind. apply dwp_open_init; [|intros r d1 s' s1 s2 Ha E Hr Ht Hs'; exists d1; split; [by eapply ls_open_init|done]].
  intros d1 s1 Hst Hs1. cbn [negb]. dbind. eapply dwp_get; [apply Hs1|].
  pose proof (starts_ok d d1 Hst) as (Hr1&He1&_). fold (exclusive d1) (is_open d1). rewrite He1.
  destruct (exclusive d && is_open d1) eqn:Hbusy.
  { apply andb_true_iff in Hbusy as [??]. exists d1. split; [by constructor|done]. }
  dbind. assert (∀ r d2 s', tame_but (accepted r) d1 d2 → becomes_device dev d2 s0 s' →
    dwp ((if accepted r then
       mod_device dev (λ d, set_dv_ref_count (u8 (dv_ref_count d + 1))
         (set_dv_open_flag (u16 (Z.lor o RT_DEVICE_OFLAG_OPEN)) d));;
       d ← get_device dev; DEV_ASSERT (bool_decide (dv_ref_count d ≠ 0))
      else mret tt);; mret r) s' (λ r s', ∃ d', life_step dev d (Open o) r d' ∧
        becomes_device dev d' s0 s')) as Hend.
  { intros r d2 s' Ht Hs'. dbind. destruct (accepted r) eqn:Hr.
    2: { exists d2. split; [by eapply ls_open_refused|done]. }
    dbind. eapply dwp_mod_becomes; [done|by split_and!|]. intros s2 Hs2. cbv beta in Hs2.
    pose proof (tm_ref _ _ _ Ht) as Hr2. rewrite u8_small in Hs2 by (unfold in_u8; lia).
    fold (opened o d2) in Hs2. dbind. eapply dwp_get; [apply Hs2|].
    apply dwp_assert; [apply bool_decide_true; cbn; lia|].
    exists (opened o d2). split; [by eapply ls_open_ok|done]. }
  case_bool_decide.
  - eapply (dwp_driver (λ r x, bool_decide (x = dev) && accepted r)); [|apply wb_open, Hs1|done|].
    + intros r x Hx. by rewrite bool_decide_false.
    + intros r s' d2 _ Ht Hs'. rewrite bool_decide_true in Ht by done. by eapply Hend.
  - apply (dwp_returns _ _ RT_EOK s1); [done|]. by eapply Hend; [apply tame_refl|].
Qed.

Lemma dwp_device_close :
  dwp (rt_device_close dr dev) s0 (λ r s', ∃ d', life_step dev d Close r d' ∧ becomes_device dev d' s0 s').
Proof using All.
  pose proof (becomes_same dev d s0 Hu Hd) as Hb.
  unfold rt_device_close. dbind. apply dwp_assert; [by apply bool_decide_true|].
  dbind. eapply dwp_get; [done|]. case_bool_decide as Hz; [exists d; by split; [constructor|]|].
  dbind. eapply dwp_mod_becomes; [done|by split_and!|]. intros s1 Hs1. cbv beta in Hs1. rewrite u8_small in Hs1 by (unfold in_u8; lia).
  fold (released d) in Hs1. dbind. eapply dwp_get; [apply Hs1|].
  change (dv_ref_count (released d)) with (dv_ref_count d - 1). case_bool_decide.
  { exists (released d). split; [constructor; lia|done]. }
  dbind. assert (∀ r d1 s', tame (released d) d1 → becomes_device dev d1 s0 s' →
    dwp ((if accepted r then mod_device dev (set_dv_open_flag RT_DEVICE_OFLAG_CLOSE)
          else mret tt);; mret r) s' (λ r s', ∃ d', life_step dev d Close r d' ∧ becomes_device dev d' s0 s')) as Hend.
  { intros r d1 s' Ht Hs'. dbind. destruct (accepted r) eqn:Hr.
    - eapply dwp_mod_becomes; [done|by split_and!|]. intros s2 Hs2.
      eexists. split; [apply ls_close_last; [lia|done|exact Ht]|exact Hs2].
    - exists d1. split; [apply ls_close_failed; [lia|done|done]|done]. }
  change (dv_close (released d)) with (dv_close d). case_bool_decide.
  - eapply (dwp_driver (λ _ _, false)); [done|eapply wb_close; [apply Hs1|apply Hs1|cbn; lia]|done|]. intros r s' d1 E Ht Hs'. by eapply Hend.
  - apply (dwp_returns _ _ RT_EOK s1); [done|]. by eapply Hend; [apply tame_refl|].
Qed.

(** A transfer leaves the device to its driver. *)
Lemma transfer_becomes r s' : harmless lay App s0 s' → (dv_ref_count d = 0 → r = 0 ∧ devices s' = devices s0) →
  ∃ d', tame d d' ∧ (dv_ref_count d = 0 → r = 0 ∧ d' = d) ∧ becomes_device dev d' s0 s'.
Proof using Hd.
  intros Hs' Hr. destruct (harmless_becomes _ dev d s0 s' Hs') as (d'&Ht&Hb); [done|done|].
  exists d'. split_and!; [done| |done]. intros Hz. destruct (Hr Hz) as [-> E]. split; [done|].
  pose proof (bd_device _ _ _ _ Hb) as Hd'. rewrite E in Hd'. congruence.
Qed.

Lemma dwp_dev_call c : (∀ o, c = Open o → dv_ref_count d < 255) →
  dwp (run_dev_call dev c) s0 (λ r s', ∃ d', life_step dev d c r d' ∧ becomes_device dev d' s0 s').
Proof using All.
  intros Hlim. destruct c as [o| |pos buf size|pos buf size|cmd arg]; cbn [run_dev_call].
  - apply dwp_device_open. by eapply Hlim.
  - apply dwp_device_close.
  - eapply dwp_device_read; [done..|]. intros r s' Hs' Hr. destruct (transfer_becomes r s' Hs' Hr) as (d'&Ht&Hz&Hb).
    exists d'. split; [by constructor|done].
  - eapply dwp_device_write; [done..|]. intros r s' Hs' Hr. destruct (transfer_becomes r s' Hs' Hr) as (d'&Ht&Hz&Hb).
    exists d'. split; [by constructor|done].
  - pose proof (becomes_same dev d s0 Hu Hd) as Hb. unfold rt_device_control. dbind. apply dwp_assert; [by apply bool_decide_true|].
    dbind. eapply dwp_get; [done|]. case_bool_decide.
    + eapply (dwp_driver (λ _ _, false)); [done|by apply wb_control|done|]. intros r s' d' _ Ht Hs'.
      exists d'. split; [by constructor|done].
    + exists d. split; [constructor; apply tame_refl|done].
Qed.

End one.

(** *** Reference counting *)

(** An open device is marked open and initialised; a device that is not shared is
    open once at most. *)
Record dev_inv d : Prop := {
  di_ref : 0 <= dv_ref_count d <= 255;
  di_open : 0 < dv_ref_count d → is_open d = true ∧ activated d = true;
  di_exclusive : exclusive d = true → dv_ref_count d <= 1;
}.

(** The references a client holds after a call, from its answer. *)
Definition refs_step (n : Z) (cr : dev_call * Z) : Z :=
  match cr.1 with
  | Open _ => if accepted cr.2 then n + 1 else n
  | Close => Z.max 0 (n - 1)
  | _ => n
  end.

Lemma opened_is_open o d : is_open (opened o d) = true.
Proof using Type.
  unfold is_open, opened. cbn. change RT_DEVICE_OFLAG_OPEN with (Z.shiftl 1 3).
  change (flag (u16 (Z.lor o (Z.shiftl 1 3))) (Z.shiftl 1 3) = true).
  rewrite flag_testbit by lia. unfold u16. rewrite Z.mod_pow2_bits_low by lia.
  rewrite Z.lor_spec. apply orb_true_r.
Qed.

Lemma tame_inv d d' : tame d d' → dev_inv d → dev_inv d'.
Proof using Type.
  intros [r e i a o] [Hr Ho He]. split; rewrite ?r, ?e; [done| |done]. intros Hp. destruct (Ho Hp).
  split; [by apply o|apply a; [by right|done]].
Qed.

Lemma starts_inv d d1 : starts d d1 → dev_inv d → dev_inv d1.
Proof using Type.
  intros Hs HI. destruct (starts_ok d d1 Hs) as (Hr&He&_&Ha&Hsame). destruct (activated d) eqn:Hd; [by rewrite Hsame|].
  destruct HI as [H1 H2 H3]. split; rewrite ?Hr, ?He; [done| |done]. intros Hp. destruct (H2 Hp). congruence.
Qed.

(** A standalone device that can be opened is not open. *)
Lemma starts_free d d1 : starts d d1 → dev_inv d → exclusive d && is_open d1 = false → exclusive d = true → dv_ref_count d = 0.
Proof using Type.
  intros Hs HI Hb He. rewrite He in Hb. cbn in Hb. destruct (starts_ok d d1 Hs) as (_&_&_&_&Hsame).
  pose proof (di_ref _ HI). destruct (decide (0 < dv_ref_count d)) as [Hp|]; [|lia]. destruct (di_open _ HI Hp) as [Ho Ha].
  rewrite (Hsame Ha) in Hb. congruence.
Qed.

(** An initialisation of the device that fails does not answer with the code that
    [rt_device_open] takes for success. *)
Definition init_fails_plainly (dev : Z) d : Prop := ∀ s r s', run_init dr (dv_init d) dev s = Ok r s' → r ≠ - RT_ENOSYS.

Lemma life_step_inv dev d c r d' : dev_inv d → life_step dev d c r d' →
  (∀ o, c = Open o → dv_ref_count d < 255) →
  dev_inv d' ∧ dv_init d' = dv_init d ∧ exclusive d' = exclusive d ∧
  dv_ref_count d' <= Z.max (dv_ref_count d) (refs_step (dv_ref_count d) (c, r)) ∧
  (init_fails_plainly dev d → dv_ref_count d' = refs_step (dv_ref_count d) (c, r)).
Proof using Type.
  intros HI Hs Hlim. pose proof (di_ref _ HI) as Href. unfold refs_step.
  destruct Hs as [o r d' s s' Ha Hrun Hr Ht|o d1 Hst Hex Hop|o r d1 d2 Hst Hb Hacc Ht|o r d1 d2 Hst Hb Hacc Ht|Hz|Hz
    |r d1 Hz Hacc Ht|r d1 Hz Hacc Ht|pos buf size r d' Ht _|pos buf size r d' Ht _|cmd arg r d' Ht];
    cbn [fst snd]; rewrite ?Hacc.
  - pose proof Ht as [r1 e1 i1 _ _]. split_and!; [by eapply tame_inv|done|done|rewrite r1; case_match; lia|].
    intros Hno. apply Hno in Hrun. rewrite r1. replace (accepted r) with false; [done|].
    symmetry. apply bool_decide_false. tauto.
  - destruct (starts_ok d d1 Hst) as (r1&e1&i1&_). split_and!; [by eapply starts_inv|done|done|rewrite r1; cbn; lia|by intros _].
  - specialize (Hlim o eq_refl). destruct (starts_ok d d1 Hst) as (r1&e1&i1&a1&_). pose proof Ht as [r2 e2 i2 a2 _].
    pose proof (starts_free d d1 Hst HI Hb) as Hfree. split_and!; cbn; [|congruence| |lia|lia].
    + split; cbn; [lia| |].
      * intros _. split; [apply opened_is_open|]. change (activated d2 = true). apply a2; [by left|done].
      * intros Hex. change (exclusive d2 = true) in Hex. rewrite e2, e1 in Hex. specialize (Hfree Hex). lia.
    + change (exclusive d2 = exclusive d). congruence.
  - destruct (starts_ok d d1 Hst) as (r1&e1&i1&a1&_). pose proof Ht as [r2 e2 i2 _ _].
    split_and!; [eapply tame_inv; [done|by eapply starts_inv]|congruence|congruence|lia|by intros _; lia].
  - split_and!; [done|done|done|lia|lia].
  - destruct HI as [H1 H2 H3]. split_and!; cbn; [|done|done|lia|lia]. split; cbn; [lia| |].
    + intros _. apply H2. lia.
    + intros Hex. specialize (H3 Hex). lia.
  - pose proof Ht as [r1 e1 i1 _ _]. cbn in r1. split_and!; cbn; [|done| |lia|lia].
    + split; cbn; lia.
    + exact e1.
  - pose proof Ht as [r1 e1 i1 _ _]. cbn in r1. split_and!; [|done|exact e1|lia|lia]. split; lia.
  - pose proof Ht as [r1 e1 i1 _ _]. split_and!; [by eapply tame_inv|done|done|lia|lia].
  - pose proof Ht as [r1 e1 i1 _ _]. split_and!; [by eapply tame_inv|done|done|lia|lia].
  - pose proof Ht as [r1 e1 i1 _ _]. split_and!; [by eapply tame_inv|done|done|lia|lia].
Qed.

Definition opens (cs : list dev_call) : Z :=
  zlen (List.filter (λ c, match c with Open _ => true | _ => false end) cs).

Inductive history (dev : Z) : rt_device → list (dev_call * Z) → rt_device → Prop :=
| hi_nil d : history dev d [] d
| hi_cons d c r d' crs d'' : life_step dev d c r d' → history dev d' crs d'' →
    history dev d ((c, r) :: crs) d''.

Lemma dwp_dev_calls dev cs d s : dev ≠ RT_NULL → devices s !! dev = Some d → usable lay App s →
  dev_inv d → dv_ref_count d + opens cs <= 255 →
  dwp (run_dev_calls dev cs) s (λ rs s', ∃ d', length rs = length cs ∧
    history dev d (zip cs rs) d' ∧ dev_inv d' ∧ exclusive d' = exclusive d ∧
    (init_fails_plainly dev d → dv_ref_count d' = foldl refs_step (dv_ref_count d) (zip cs rs)) ∧ becomes_device dev d' s s').
Proof using All.
  revert d s. induction cs as [|c cs IH]; intros d s Hn Hd Hu HI Hlim; cbn [run_dev_calls].
  { exists d. split_and!; [done|constructor|done|done|done|by apply becomes_same]. }
  assert (0 <= opens cs) as Hpos by apply zlen_nonneg.
  assert (∀ o, c = Open o → dv_ref_count d < 255) as Hc.
  { intros o ->. unfold opens in Hlim. cbn in Hlim. rewrite zlen_cons in Hlim. fold (opens cs) in Hlim. lia. }
  dbind. eapply dwp_mono; [by apply (dwp_dev_call dev d s); [| | |apply HI|]|].
  intros r s1 (d1&Hs&Hb). destruct (life_step_inv _ _ _ _ _ HI Hs Hc) as (HI1&Hi1&He1&Hle&Href).
  dbind. eapply dwp_mono; [apply (IH d1); [done|apply Hb|apply Hb|done|]|].
  { unfold refs_step, opens in *. destruct c; cbn in *; rewrite ?zlen_cons in Hlim;
      try case_match; pose proof (di_ref _ HI); lia. }
  intros rs s2 (d2&Hlen&Hh&HI2&He2&Hr2&Hb2). exists d2. split_and!; cbn; [lia| |done|congruence| |].
  - by econstructor.
  - intros Hno. rewrite Hr2 by (unfold init_fails_plainly; by rewrite Hi1). by rewrite Href.
  - by eapply becomes_trans'.
Qed.

End calls.

(** ** The theorem *)

(** C21: Whatever a client calls and whatever the driver answers, with less than 256
    references, every call returns, each answer and each change of the device is
    one the life of a device allows, an open device is marked open and
    initialised, a standalone device is open at most once, and the reference counts
    of the other devices stay.  If a failing [init] does not answer [-RT_ENOSYS], the
    reference count is the number of opens that were accepted less the closes.  The
    driver functions are any that keep to [WellBehaved]: they return, and change
    neither the reference count of a device nor whether it is standalone, nor mark
    a device that is in use as closed or not initialised; flags and everything else
    they may change. *)
Theorem device_reference_count (dr : drivers seq_lists) (lay : layout) (App : sys → Prop) {WB : WellBehaved dr lay App}
    (dev : Z) (d : rt_device) (s : sys) cs :
  dev ≠ RT_NULL → devices s !! dev = Some d → usable lay App s → dev_inv d → dv_ref_count d + opens cs <= 255 →
  ∃ rs s' d', run_dev_calls dr lay dev cs s = Ok rs s' ∧ devices s' !! dev = Some d' ∧ history dr dev d (zip cs rs) d' ∧
    length rs = length cs ∧ dev_inv d' ∧ exclusive d' = exclusive d ∧
    (init_fails_plainly dr dev d → dv_ref_count d' = foldl refs_step (dv_ref_count d) (zip cs rs)) ∧
    ∀ x, x ≠ dev → option_Forall2 tame (devices s !! x) (devices s' !! x).
Proof.
  intros Hnull Hd Hu HI Hlim. destruct (dwp_ok _ _ _ (dwp_dev_calls dr lay App dev cs d s Hnull Hd Hu HI Hlim))
    as (rs&s'&E&d'&Hl&Hh&HI'&He&Hr&[Hd' Ho _ _]).
  exists rs, s', d'. by split_and!.
Qed.
