(* ===== verification/DeviceNames.v ===== *)
(** * Device names and the console are correct

    [rt_device_register] makes a device the one its name finds,
    [rt_device_unregister] undoes it, and [rt_kprintf] hands the formatted text to
    the console device. *)

From S2P Require Import Prelude DList ListStore SeqLemmas KString KPrint KPrintSpec KPrintProof KPrintFormat KState Scheduler ObjectSys Timer ThreadSys Ipc MemPool Device KernelWp KernelInv System KernelCheck SchedProof ObjectProof DeviceProof.

(** ** Names *)

(** The class of devices is set up, holds devices only, and they can be searched. *)
Record device_class (k : kern) : Prop := {
  dc_class : class_ok k RT_Object_Class_Device;
  dc_devices o : o ∈ lof (object_lists k) RT_Object_Class_Device →
    ∃ a, o = ODevice a ∧ a ≠ RT_NULL;
  dc_lock : can_lock k;
}.

(** The device a name finds, or null. *)
Definition found_device (k : kern) (name : list Z) : Z :=
  match search k name (lof (object_lists k) RT_Object_Class_Device) with
  | Some (ODevice dev) => dev
  | _ => RT_NULL
  end.

Lemma device_class_same k k' : device_class k → same_but_current k k' → can_lock k' →
  device_class k'.
Proof.
  intros [[??] ? _] Hs Hl. split; [|by rewrite (sc_object_lists _ _ Hs)|done].
  by split; rewrite (sc_object_lists _ _ Hs), ?(sc_objects _ _ Hs).
Qed.

Lemma found_device_same k k' name : same_but_current k k' →
  found_device k' name = found_device k name.
Proof.
  intros Hs. unfold found_device, search, named.
  by rewrite (sc_object_lists _ _ Hs), (sc_objects _ _ Hs).
Qed.

Lemma dwp_device_find name (s : sys) (Q : Z → sys → Prop) : device_class (kern_of s) →
  (∀ k', same_but_current (kern_of s) k' → device_class k' →
     (errno_ok (kern_of s) → errno_ok k') → Q (found_device (kern_of s) name) (set_kern k' s)) →
  dwp (rt_device_find name) s Q.
Proof.
  intros Hc HQ. unfold rt_device_find. dbind. apply dwp_kernel.
  apply wp_find_object; [apply Hc..|]. intros k' Hs Hl Hrun.
  apply HQ; [done|by eapply device_class_same|].
  unfold errno_ok, running in *. rewrite (sc_nest _ _ Hs). tauto.
Qed.

(** The device can be found by every name that finds it. *)
Definition finds (s : sys) (f : list Z → Z) : Prop :=
  ∀ name, ∃ s', rt_device_find name s = Ok (f name) s'.

Lemma finds_found (s : sys) f : device_class (kern_of s) →
  (∀ name, found_device (kern_of s) name = f name) → finds s f.
Proof.
  intros Hc Hf name. destruct (dwp_ok (rt_device_find name) s (λ r _, r = f name))
    as (r&s'&E&->); [|by exists s'].
  by apply dwp_device_find.
Qed.

(** A new device in its class. *)
Lemma enlisted_device_class dev name k k' : dev ≠ RT_NULL → device_class k →
  enlisted (ODevice dev) RT_Object_Class_Device name k k' → device_class k'.
Proof.
  intros Hn [Hc Hd Hl] He. split; [by eapply enlisted_class| |by eapply enlisted_can_lock].
  intros o. rewrite (bc_lof _ _ _ (en_lists _ _ _ _ _ He)), fn_lookup_insert.
  intros [->|Ho]%elem_of_cons; [by exists dev|by apply Hd].
Qed.

Lemma found_enlisted dev name name' (k k' : kern) :
  detached (lof (object_lists k)) (ODevice dev) →
  enlisted (ODevice dev) RT_Object_Class_Device name k k' →
  found_device k' name' =
    if bool_decide (name_bytes name = name_bytes name') then dev else found_device k name'.
Proof.
  intros Hdet He. unfold found_device. rewrite (enlisted_search _ _ _ _ _ _ He) by apply Hdet.
  by case_bool_decide.
Qed.

(** Taking it out again. *)
Lemma wp_object_detach o (k : kern) (Q : unit → kern → Prop) : is_null o = false →
  swf (object_lists k) → o ∈ s_elems (object_lists k) →
  (∀ s', becomes (object_lists k) s' (list_del o (lof (object_lists k))) →
     Q tt (set_object_lists (LS:=seq_lists) s' k)) →
  wp (rt_object_detach o) k Q.
Proof.
  intros Hn Hwf Ho HQ. unfold rt_object_detach. rewrite Hn. apply wp_bind, wp_assert; [done|]. wps.
  destruct (s_remove_spec (object_lists k) o) as (s'&E&Hb); [done..|].
  eapply wp_on_objects; [exact E|]. wps.
  match goal with |- Q tt ?k' => replace k' with (set_object_lists (LS:=seq_lists) s' k)
    by (by destruct k) end.
  by apply HQ.
Qed.

Lemma list_del_insert o (L : Z → list obj_ref) x : detached L o →
  list_del o (<[x := o :: L x]> L) x = L x.
Proof.
  intros Hd. apply (list_del_split _ _ _ []); [apply fn_lookup_insert|set_solver|apply Hd].
Qed.

(** Registering and taking out again leaves the same devices to be found. *)
Lemma found_undone dev name (k k1 : kern) S2 : device_class k →
  detached (lof (object_lists k)) (ODevice dev) →
  enlisted (ODevice dev) RT_Object_Class_Device name k k1 → device_class k1 →
  becomes (object_lists k1) S2 (list_del (ODevice dev) (lof (object_lists k1))) →
  let k2 := set_object_lists (LS:=seq_lists) S2 k1 in
  device_class k2 ∧ ∀ name', found_device k2 name' = found_device k name'.
Proof.
  intros Hc Hdet He [[Hw1 Hh1 Ho1] Hd1 Hl1] Hb2 k2.
  assert (lof S2 RT_Object_Class_Device = lof (object_lists k) RT_Object_Class_Device) as HL.
  { rewrite (bc_lof _ _ _ Hb2). pose proof (bc_lof _ _ _ (en_lists _ _ _ _ _ He)) as HL1.
    unfold list_del. rewrite HL1. by apply (list_del_insert _ _ _ Hdet). }
  assert (∀ o, o ∈ lof (object_lists k) RT_Object_Class_Device →
    objects k1 !! o = objects k !! o) as Hob.
  { intros o Ho. rewrite (en_objects _ _ _ _ _ He), lookup_insert_ne; [done|].
    intros <-. by apply (Hdet RT_Object_Class_Device). }
  split.
  - split; [split; cbn; [apply Hb2|by apply (bc_heads _ _ _ Hb2)|]| |].
    + intros o. rewrite HL. intros Ho. rewrite Hob by done. by apply Hc.
    + cbn. intros o. rewrite HL. apply Hc.
    + destruct Hl1 as [|(HI&?&?)]; [by left|right].
      split; [by apply (kinv_at_irrelevant 0 k1)|done].
  - intros name'. unfold found_device. cbn [object_lists set_object_lists k2]. rewrite HL.
    assert (∀ l, (∀ o, o ∈ l → objects k1 !! o = objects k !! o) →
      search k2 name' l = search k name' l) as ->; [|done|done].
    intros l Hl. unfold search. induction l as [|o l IH]; [done|].
    cbn [List.find]. rewrite IH by (intros; apply Hl; set_solver). unfold named.
    change (objects k2) with (objects k1). by rewrite Hl by set_solver.
Qed.

(** What [rt_device_register] does to the device and to the kernel. *)
Definition registered (flags : Z) (d : rt_device) : rt_device :=
  set_dv_open_flag 0 (set_dv_ref_count 0 (set_dv_flag flags d)).

Lemma dwp_device_register dev name flags d (s : sys) (Q : Z → sys → Prop) : dev ≠ RT_NULL →
  devices s !! dev = Some d → device_class (kern_of s) →
  detached (lof (object_lists (kern_of s))) (ODevice dev) →
  (∀ k1, found_device (kern_of s) name ≠ RT_NULL → same_but_current (kern_of s) k1 →
     device_class k1 → Q (- RT_ERROR) (set_kern k1 s)) →
  (∀ k1 k2, found_device (kern_of s) name = RT_NULL → same_but_current (kern_of s) k1 →
     device_class k1 → enlisted (ODevice dev) RT_Object_Class_Device name k1 k2 →
     Q RT_EOK (set_devices (<[dev := registered flags d]> (devices s)) (set_kern k2 s))) →
  dwp (rt_device_register dev name flags) s Q.
Proof.
  intros Hn Hd Hc Hdet H1 H2. unfold rt_device_register. rewrite bool_decide_false by done.
  dbind. apply dwp_device_find; [done|]. intros k1 Hs1 Hc1 _. case_bool_decide as Hf; [by apply H1|].
  dbind. apply dwp_kernel, wp_object_init; [apply Hc1| |].
  { cbn. by rewrite (sc_object_lists _ _ Hs1). }
  intros k2 He. cbn [kern_of set_kern] in He. dbind. eapply dwp_mod; [exact Hd|].
  apply (H2 k1); [|done..]. by destruct (decide (found_device (kern_of s) name = RT_NULL)).
Qed.

(** Registering a device under a name that is taken answers an error and changes
    nothing.  Otherwise the device is closed, with the flags given, its name finds
    it, every other name finds what it found before, and unregistering it makes
    every name find again what it found at first. *)
Theorem rt_device_register_correct dev name flags d (s : sys) : dev ≠ RT_NULL →
  devices s !! dev = Some d → device_class (kern_of s) →
  detached (lof (object_lists (kern_of s))) (ODevice dev) →
  ∃ r s', rt_device_register dev name flags s = Ok r s' ∧
    (found_device (kern_of s) name ≠ RT_NULL ∧ r = - RT_ERROR ∧ devices s' = devices s ∧
       finds s' (found_device (kern_of s)) ∨
     found_device (kern_of s) name = RT_NULL ∧ r = RT_EOK ∧
       devices s' = <[dev := registered flags d]> (devices s) ∧
       finds s' (λ name', if bool_decide (name_bytes name = name_bytes name') then dev
                          else found_device (kern_of s) name') ∧
       ∃ s2, rt_device_unregister dev s' = Ok RT_EOK s2 ∧
         finds s2 (found_device (kern_of s))).
Proof.
  intros Hn Hd Hc Hdet. apply dwp_ok. eapply dwp_device_register; [done..| |].
  { intros k1 Hf Hs1 Hc1. left. split_and!; [done..|]. apply finds_found; [done|].
    intros. by apply found_device_same. }
  intros k1 k2 Hf Hs1 Hc1 He. right.
  assert (detached (lof (object_lists k1)) (ODevice dev)) as Hdet1
    by (by rewrite (sc_object_lists _ _ Hs1)).
  assert (device_class k2) as Hc2 by (by eapply enlisted_device_class).
  set (s2 := set_devices _ _). split_and!; [done..| |].
  - apply finds_found; [done|]. intros name'. change (kern_of s2) with k2.
    rewrite (found_enlisted _ _ _ _ _ Hdet1 He). by rewrite (found_device_same _ _ _ Hs1).
  - destruct (dwp_ok (rt_device_unregister dev) s2
      (λ r s', r = RT_EOK ∧ finds s' (found_device (kern_of s)))) as (r&s3&E&->&Hfin); [|by exists s3].
    unfold rt_device_unregister. dbind. apply dwp_assert; [by apply bool_decide_true|]. dbind.
    apply dwp_kernel, wp_object_detach; change (kern_of s2) with k2;
      [by apply bool_decide_false|apply Hc2| |].
    { eapply (swf_elems _ (cl_swf _ _ (dc_class _ Hc2)) RT_Object_Class_Device).
      rewrite (bc_lof _ _ _ (en_lists _ _ _ _ _ He)), fn_lookup_insert. set_solver. }
    intros S3 Hb3. destruct (found_undone _ _ _ _ _ Hc1 Hdet1 He Hc2 Hb3) as [Hc3 Hf3].
    split; [done|]. apply finds_found; [done|]. intros name'. cbn [kern_of set_kern].
    by rewrite Hf3, (found_device_same _ _ _ Hs1).
Qed.

(** ** The console *)

(** The device while [rt_kprintf] writes to it. *)
Definition streaming (d : rt_device) : rt_device :=
  set_dv_open_flag (Z.lor (dv_open_flag d) RT_DEVICE_FLAG_STREAM) d.

(** Equations of the calls that a write consists of. *)
Lemma D_bind_ok {A B} (c : DM A) (f : A → DM B) s a s' : c s = Ok a s' → (c ≫= f) s = f a s'.
Proof. intros E. unfold mbind, D_bind. by rewrite E. Qed.

Lemma get_device_ok dev d (s : sys) : devices s !! dev = Some d → get_device dev s = Ok d s.
Proof. intros E. unfold get_device, mbind, D_bind, dgets, dopt. by rewrite E. Qed.

Lemma mod_device_ok dev f d (s : sys) : devices s !! dev = Some d →
  mod_device dev f s = Ok tt (set_devices (<[dev := f d]> (devices s)) s).
Proof. intros E. unfold mod_device. by rewrite (D_bind_ok _ _ _ _ _ (get_device_ok _ _ _ E)). Qed.

Lemma device_write_eq (dr : drivers seq_lists) dev d pos buf size (s : sys) : dev ≠ RT_NULL →
  devices s !! dev = Some d → dv_write d ≠ RT_NULL →
  rt_device_write dr dev pos buf size s =
    (if bool_decide (dv_ref_count d = 0) then set_errno (- RT_ERROR);; mret 0
     else run_write dr (dv_write d) dev pos buf size) s.
Proof.
  intros Hn Hd Hw. unfold rt_device_write. rewrite bool_decide_true by done.
  rewrite (D_bind_ok _ _ s tt s) by done. rewrite (D_bind_ok _ _ _ _ _ (get_device_ok _ _ _ Hd)).
  by rewrite (bool_decide_true (dv_write d ≠ RT_NULL)).
Qed.

Lemma kprintf_console (dr : drivers seq_lists) lay fmt args (s : sys) m' len d :
  let c := _console_device s in
  kprintf_fill (memory s) (rt_log_buf lay) fmt args = Some (m', len) →
  c ≠ RT_NULL → devices s !! c = Some d →
  rt_kprintf dr lay fmt args s =
    (rt_device_write dr c 0 (rt_log_buf lay) len;;
     mod_device c (set_dv_open_flag (dv_open_flag d)))
    (set_devices (<[c := streaming d]> (devices s)) (set_memory m' s)).
Proof.
  intros c Hfill Hc Hd. unfold rt_kprintf. rewrite (D_bind_ok _ _ s (memory s) s) by done.
  rewrite (D_bind_ok _ _ s (m', len) s) by (unfold dopt; by rewrite Hfill).
  rewrite (D_bind_ok _ _ s tt (set_memory m' s)) by done.
  rewrite (D_bind_ok _ _ _ c (set_memory m' s)) by done. rewrite bool_decide_false by done.
  by rewrite (D_bind_ok _ _ _ d (set_memory m' s)) by (by apply get_device_ok).
Qed.

(** [rt_kprintf] formats into the log buffer and hands it to the board when there
    is no console, else to the driver of the console, marked as a stream for the
    time of the write: the text when it has less than 255 bytes; of a longer one
    the first 254 bytes, and behind them the terminating null of the buffer.  A
    console that is not open gets nothing. *)
Theorem rt_kprintf_correct (dr : drivers seq_lists) lay fmt ds args t (s : sys) :
  0 <= rt_log_buf lay → rt_log_buf lay + zlen t + zlen ds < 2 ^ 32 - 1 →
  rt_log_buf lay + 255 <= 2 ^ 32 → zlen t + zlen ds < 2 ^ 31 →
  printf_input (memory s) (rt_log_buf lay) (Z.min 255 (zlen t + 1)) fmt ds args →
  render ds args = Some t →
  let c := _console_device s in
  ∃ m' len, written (memory s) m' (rt_log_buf lay) (take 254 t ++ [0]) ∧
    bytes m' (rt_log_buf lay) len =
      (if bool_decide (zlen t < 255) then t else take 254 t ++ [0]) ∧
    (c = RT_NULL → rt_kprintf dr lay fmt (arg_word <$> args) s =
       rt_hw_console_output dr (rt_log_buf lay) (set_memory m' s)) ∧
    ∀ d, c ≠ RT_NULL → devices s !! c = Some d → dv_write d ≠ RT_NULL →
      (dv_ref_count d ≠ 0 → ∀ r s1 d1,
         run_write dr (dv_write d) c 0 (rt_log_buf lay) len
           (set_devices (<[c := streaming d]> (devices s)) (set_memory m' s)) = Ok r s1 →
         devices s1 !! c = Some d1 →
         rt_kprintf dr lay fmt (arg_word <$> args) s =
           Ok tt (set_devices (<[c := set_dv_open_flag (dv_open_flag d) d1]> (devices s1)) s1)) ∧
      (dv_ref_count d = 0 → errno_ok (kern_of s) → ∃ k',
         rt_kprintf dr lay fmt (arg_word <$> args) s = Ok tt (set_kern k' (set_memory m' s))).
Proof.
  intros H1 H2 H3 H4 Hin Ht c.
  destruct (kprintf_filled _ _ _ _ _ _ H1 H2 H3 H4 Hin Ht) as (m'&len&Hfill&Hw&Hb&_).
  exists m', len. split_and!; [done|done| |].
  - intros Hc. unfold rt_kprintf. rewrite (D_bind_ok _ _ s (memory s) s) by done.
    rewrite (D_bind_ok _ _ s (m', len) s) by (unfold dopt; by rewrite Hfill).
    rewrite (D_bind_ok _ _ s tt (set_memory m' s)) by done.
    rewrite (D_bind_ok _ _ _ c (set_memory m' s)) by done. by rewrite bool_decide_true.
  - intros d Hc Hd Hwr. rewrite (kprintf_console _ _ _ _ _ _ _ _ Hfill Hc Hd). fold c.
    set (s1 := set_devices _ _).
    assert (devices s1 !! c = Some (streaming d)) as Hd1 by apply lookup_insert_eq.
    pose proof (device_write_eq dr c _ 0 (rt_log_buf lay) len s1 Hc Hd1 Hwr) as Hwrite.
    change (dv_ref_count (streaming d)) with (dv_ref_count d) in Hwrite. split.
    + intros Href r s2 d2 Hrun Hd2. rewrite bool_decide_false in Hwrite by done.
      rewrite (D_bind_ok _ _ s1 r s2) by (by rewrite Hwrite). by apply mod_device_ok.
    + intros Href He. rewrite bool_decide_true in Hwrite by done.
      destruct (wp_run (rt_set_errno (- RT_ERROR)) (kern_of s) (λ _ _, True)) as ([]&k'&Ek&_);
        [by apply wp_set_errno|].
      exists k'. rewrite (D_bind_ok _ _ s1 0 (set_kern k' s1)).
      * rewrite (mod_device_ok _ _ (streaming d)) by done. unfold set_devices, set_kern. cbn.
        rewrite insert_insert_eq, insert_id; [done|]. rewrite Hd. by destruct d.
      * rewrite Hwrite. unfold set_errno, kernel_call, mbind, D_bind. cbn [kern_of s1 set_devices set_memory].
        by rewrite Ek.
Qed.

(** ** A board with one device *)

(** Drivers that answer constants.  Opening writes the open flag of the device, as the
    serial driver does, and closing takes back its initialisation, as the hardware timer
    does. *)
Definition answer {A} (a : A) : DM A := λ s, Ok a s.
Definition touch {A} (dev : Z) (f : rt_device → rt_device) (a : A) : DM A := λ s,
  Ok a (match devices s !! dev with Some d => set_devices (<[dev := f d]> (devices s)) s | None => s end).
Definition demo_drivers : drivers seq_lists :=
  Drivers (λ _ _, answer RT_EOK) (λ _ dev oflag, touch dev (set_dv_open_flag (Z.land oflag 0xff)) RT_EOK)
    (λ _ dev, touch dev (λ d, set_dv_flag (Z.land (dv_flag d) (Z.lnot RT_DEVICE_FLAG_ACTIVATED)) d) RT_EOK)
    (λ _ _ _ _ size, answer size) (λ _ _ _ _ size, answer size) (λ _ _ _ _, answer RT_EOK)
    (λ _, answer tt).
Definition demo_layout : layout := Layout 0x200 0x100 (λ _, 0x180).

(** The drivers need nothing of the rest of the system. *)
Definition no_need (s : sys) : Prop := True.

Lemma answer_harmless {A} (a : A) lay s : usable lay no_need s → ∃ s', answer a s = Ok a s' ∧ harmless lay no_need s s'.
Proof. intros Hu. exists s. split; [done|]. split; [|done|done]. intros x. apply forall2_refl, tame_refl. Qed.

Lemma touch_harmless {A} (a : A) (opening : Z → bool) dev f lay s : usable lay no_need s →
  (∀ d, devices s !! dev = Some d → tame_but (opening dev) d (f d)) →
  ∃ s', touch dev f a s = Ok a s' ∧ harmless_but opening lay no_need s s'.
Proof.
  intros Hu Hf. unfold touch. eexists. split; [done|].
  assert (∀ x, option_Forall2 (tame_but (opening x)) (devices s !! x) (devices s !! x)) as Hrefl by (intros; apply forall2_refl, tame_refl).
  destruct (devices s !! dev) as [d|] eqn:Hd; [|by split].
  assert (∀ x, is_Some (<[dev := f d]> (devices s) !! x) ↔ is_Some (devices s !! x)) as Hdom.
  { intros x. destruct (decide (x = dev)) as [->|Hx]; [rewrite lookup_insert_eq, Hd; split; eauto|].
    by rewrite lookup_insert_ne. }
  split; cbn; [|done|].
  - intros x. destruct (decide (x = dev)) as [->|Hx]; [rewrite Hd, lookup_insert_eq; constructor; auto|].
    by rewrite lookup_insert_ne.
  - destruct Hu as [He Hm Hc _]. split; cbn; [done| | |done].
    + intros x Hx. apply Hm, Hdom, Hx.
    + destruct Hc; [by left|right; by apply Hdom].
Qed.

#[global] Instance demo_well_behaved : WellBehaved demo_drivers demo_layout no_need.
Proof.
  split; [done|..]; intros; try (eexists; by apply answer_harmless); try by apply answer_harmless.
  - eexists. apply (touch_harmless RT_EOK); [done|]. intros d _. rewrite bool_decide_true by done. by split.
  - eexists. apply (touch_harmless RT_EOK (λ _, false)); [done|]. intros d' Hd'. assert (d' = d) as -> by congruence.
    split; try done; [|intros [?|?]; [done|lia]]. unfold exclusive, has. cbn. rewrite <- Z.land_assoc. done.
Qed.

Definition uart_name : list Z := [117; 97; 114; 116; 49].

(** 260 characters: more than the console buffer holds. *)
Definition long_format : list directive := [Conv [] (WNum [2; 6; 0]) PNone QNone CChar].
Definition long_text : list Z := replicate 259 32 ++ [65].

Definition demo_device_memory : mem :=
  mem_of 0x100 (format init_failed_text ++ [0]) ∪ mem_of 0x180 (uart_name ++ [0]) ∪
  mem_of 0x1c0 (format long_format ++ [0]) ∪ mem_of 0x200 (replicate 300 0xaa).

(** The device 8, standalone and opened once; its functions are all there. *)
Definition uart : rt_device := Device 0x18 0xb 1 0 0 1 1 1 1 1 1.
Definition demo_system : sys := Sys (demo []) {[8 := uart]} demo_device_memory 8.

Lemma demo_message dev : message_ok demo_layout demo_device_memory dev.
Proof.
  split; [vm_compute; split; congruence|]. exists uart_name.
  split; [vm_compute; congruence|]. split.
  - apply (bool_decide_unpack (Forall wf init_failed_text)). vm_compute. reflexivity.
  - repeat split; vm_compute; congruence.
  - left. vm_compute. congruence.
  - constructor; [|by constructor]. split_and!.
    + vm_compute. congruence.
    + apply (bool_decide_unpack (Forall in_u8 uart_name)). vm_compute. reflexivity.
    + repeat split; vm_compute; congruence.
    + left. vm_compute. congruence.
  - apply (mappedb_mapped _ _ 255). vm_compute. reflexivity.
Qed.

Lemma demo_usable : usable demo_layout no_need demo_system.
Proof.
  split.
  - right. right. apply (bool_decide_unpack (is_Some _)). vm_compute. reflexivity.
  - intros dev _. apply demo_message.
  - right. apply (bool_decide_unpack (is_Some _)). vm_compute. reflexivity.
  - exact I.
Qed.

Lemma uart_inv : dev_inv uart.
Proof. split; [vm_compute; split; congruence|by vm_compute|vm_compute; congruence]. Qed.

Lemma uart_there : devices demo_system !! 8 = Some uart.
Proof. apply lookup_singleton_eq. Qed.

Lemma uart_init : init_fails_plainly demo_drivers 8 uart.
Proof. intros s r s' [= <- _]. vm_compute. congruence. Qed.

(** The standalone device 8 is closed and opened again: it is initialised again. *)
Lemma device_reference_count_witness : ∃ rs s' d',
  run_dev_calls demo_drivers demo_layout 8 [Open 3; Close; Open 3; Write 0 0 4] demo_system =
    Ok rs s' ∧ dev_inv d' ∧
  dv_ref_count d' = foldl refs_step 1 (zip [Open 3; Close; Open 3; Write 0 0 4] rs).
Proof.
  destruct (device_reference_count demo_drivers demo_layout no_need 8 uart demo_system [Open 3; Close; Open 3; Write 0 0 4]
    ltac:(discriminate) uart_there demo_usable uart_inv ltac:(vm_compute; congruence)) as (rs&s'&d'&E&_&_&_&HI&_&Hr&_).
  exists rs, s', d'. exact (conj E (conj HI (Hr uart_init))).
Defined.

(** Registration beside a device that has a name already. *)
Definition uart2_name : list Z := [117; 97; 114; 116; 50].

Definition named_system : sys :=
  match rt_device_register 8 uart_name 0x18
    (Sys (demo []) {[8 := uart; 16 := uart]} demo_device_memory RT_NULL) with
  | Ok _ s => s
  | Halt _ => demo_system
  end.

Definition device_class_b (k : kern) : bool :=
  swf_b (object_lists k) &&
  bool_decide (is_Some (s_lists (object_lists k) !! RT_Object_Class_Device)) &&
  forallb (λ o, bool_decide (is_Some (objects k !! o)) &&
                match o with ODevice a => bool_decide (a ≠ RT_NULL) | _ => false end)
    (lof (object_lists k) RT_Object_Class_Device) &&
  kinv_b 0 k && bool_decide (lof (thread_lists k) (QReady 5) ≠ []) &&
  bool_decide (0 <= rt_scheduler_lock_nest k < 2 ^ 15 - 1).

Lemma device_class_b_sound k : device_class_b k = true → device_class k.
Proof.
  unfold device_class_b. rewrite !andb_true_iff, !bool_decide_eq_true, forallb_forall.
  intros [[[[[Hs Hh] Ho] HI] Hr] Hl].
  assert (∀ o, o ∈ lof (object_lists k) RT_Object_Class_Device → is_Some (objects k !! o) ∧
    ∃ a, o = ODevice a ∧ a ≠ RT_NULL) as Ho'.
  { intros o Hin. specialize (Ho o (proj1 (list_elem_of_In _ _) Hin)).
    apply andb_true_iff in Ho as [H1 H2]. apply bool_decide_eq_true in H1. split; [done|].
    destruct o; try discriminate. apply bool_decide_eq_true in H2. eauto. }
  split; [split; [by apply swf_b_sound|done|by intros; apply Ho']|by intros; apply Ho'|].
  right. split; [by apply kinv_b_sound|]. split; [|done]. exists 5. split; [vm_compute; split; congruence|done].
Qed.

Lemma named_class : device_class (kern_of named_system).
Proof. apply device_class_b_sound. vm_compute. reflexivity. Qed.

Definition not_listed (o : obj_ref) (S : seqs Z obj_ref) : bool :=
  forallb (λ p : Z * list obj_ref, negb (bool_decide (o ∈ p.2))) (map_to_list (s_lists S)).

Lemma not_listed_detached o (S : seqs Z obj_ref) : not_listed o S = true → detached (lof S) o.
Proof.
  unfold not_listed. rewrite forallb_forall. intros H x Hx. unfold lof in Hx.
  destruct (s_lists S !! x) as [l|] eqn:E; [|by apply not_elem_of_nil in Hx].
  specialize (H (x, l)). rewrite <-list_elem_of_In, elem_of_map_to_list in H. specialize (H E).
  cbn in H. by rewrite bool_decide_true in H.
Qed.

Lemma rt_device_register_correct_witness : ∃ r s',
  rt_device_register 16 uart2_name 0x3 named_system = Ok r s' ∧ r = RT_EOK ∧
  finds s' (λ name', if bool_decide (name_bytes uart2_name = name_bytes name') then 16
                     else found_device (kern_of named_system) name').
Proof.
  destruct (rt_device_register_correct 16 uart2_name 0x3 uart named_system) as (r&s'&E&Hr).
  - discriminate.
  - vm_compute. reflexivity.
  - exact named_class.
  - apply not_listed_detached. vm_compute. reflexivity.
  - exists r, s'. destruct Hr as [[Hf _]|(_&Hr&_&Hfin&_)]; [|exact (conj E (conj Hr Hfin))].
    exfalso. apply Hf. vm_compute. reflexivity.
Defined.

Lemma rt_kprintf_correct_witness : ∃ m' len,
  bytes m' 0x200 len = replicate 254 32 ++ [0] ∧
  rt_kprintf demo_drivers demo_layout 0x1c0 [65] demo_system =
    Ok tt (set_devices {[8 := uart]} (set_memory m' demo_system)).
Proof.
  destruct (rt_kprintf_correct demo_drivers demo_layout 0x1c0 long_format [ANum 65] long_text
    demo_system) as (m'&len&_&Hb&_&H).
  - vm_compute. congruence.
  - vm_compute. reflexivity.
  - vm_compute. congruence.
  - vm_compute. reflexivity.
  - split.
    + apply (bool_decide_unpack (Forall wf long_format)). vm_compute. reflexivity.
    + repeat split; vm_compute; congruence.
    + left. vm_compute. congruence.
    + constructor; [exact I|constructor].
    + apply (mappedb_mapped _ _ 255). vm_compute. reflexivity.
  - vm_compute. reflexivity.
  - exists m', len. split; [exact Hb|].
    destruct (H uart ltac:(discriminate) uart_there ltac:(discriminate)) as [Hrun _].
    exact (Hrun ltac:(discriminate) _ _ _ eq_refl eq_refl).
Defined.
