(* ===== verification/PipeProof.v ===== *)
(** * Pipes are bounded byte queues

    [rt_pipe_read] and [rt_pipe_write] against a bounded FIFO queue of bytes with a
    queue of readers and a queue of writers: the ring buffer of [RingBuffer]
    composed with the scheduling of the kernel. *)

From S2P Require Import Prelude DList ListStore SeqLemmas KString RingBuffer KState Scheduler ObjectSys Timer ThreadSys Ipc DriverIpc Device Pipe KernelWp KernelInv System KernelCheck SchedProof TimerProof ThreadProof Clock ClockProof IpcProof SemProof MailProof PoolProof DriverProof ObjectProof DeviceProof DeviceNames.

Abbreviation PM := (P seq_lists).
Abbreviation wld := (world seq_lists).

(** ** Weakest preconditions *)

Definition pwp {A} (c : PM A) (w : wld) (Q : A → wld → Prop) : Prop :=
  match c w with Ok a w' => Q a w' | Halt _ => False end.

Definition kern_in (w : wld) : kern := kern_of (sys_of w).
Definition with_kern (k : kern) (w : wld) : wld := World (set_kern k (sys_of w)) (pipes w).

Lemma with_kern_same w : with_kern (kern_in w) w = w.
Proof. by destruct w as [[] ?]. Qed.

Section wp.
Context {A B : Type}.

Lemma pwp_bind (c : PM A) (f : A → PM B) w Q :
  pwp c w (λ a w', pwp (f a) w' Q) → pwp (c ≫= f) w Q.
Proof. unfold pwp, mbind, P_bind. by destruct (c w). Qed.
Lemma pwp_ok (c : PM A) w (Q : A → wld → Prop) : pwp c w Q → ∃ a w', c w = Ok a w' ∧ Q a w'.
Proof. unfold pwp. destruct (c w) as [a w'|]; [|done]. eauto. Qed.
Lemma pwp_answer (c : PM A) w a (R : wld → Prop) : pwp c w (λ b w', b = a ∧ R w') →
  ∃ w', c w = Ok a w' ∧ R w'.
Proof. intros (b&w'&?&->&?)%pwp_ok. eauto. Qed.

Lemma pwp_kern (c : M A) w (Q : A → wld → Prop) :
  wp c (kern_in w) (λ a k, Q a (with_kern k w)) → pwp (krun c) w Q.
Proof.
  unfold wp, pwp, krun, sys_call, kernel_call, kern_in. by destruct (c (kern_of (sys_of w))).
Qed.

Lemma P_bind_ok (c : PM A) (f : A → PM B) w a w' : c w = Ok a w' → (c ≫= f) w = f a w'.
Proof. intros E. unfold mbind, P_bind. by rewrite E. Qed.
Lemma krun_ok (c : M A) a w k : c (kern_in w) = Ok a k → krun c w = Ok a (with_kern k w).
Proof. intros E. unfold krun, sys_call, kernel_call. change (kern_of (sys_of w)) with (kern_in w). by rewrite E. Qed.
Lemma pwp_sys (c : DM A) w (Q : A → wld → Prop) :
  dwp c (sys_of w) (λ a s, Q a (World s (pipes w))) → pwp (sys_call c) w Q.
Proof. unfold dwp, pwp, sys_call. by destruct (c (sys_of w)). Qed.

End wp.

Lemma pwp_get pipe p w (Q : rt_pipe_device → wld → Prop) :
  pipes w !! pipe = Some p → Q p w → pwp (get_pipe pipe) w Q.
Proof. intros Hp HQ. unfold pwp, get_pipe. by rewrite Hp. Qed.
Lemma pwp_get_device dev d w (Q : rt_device → wld → Prop) :
  devices (sys_of w) !! dev = Some d → Q d w → pwp (sys_call (get_device dev)) w Q.
Proof.
  intros Hd HQ. unfold pwp, sys_call, get_device, mbind, D_bind, dgets, dopt. rewrite Hd.
  by destruct w.
Qed.
Lemma pwp_assert b w (Q : unit → wld → Prop) : b = true → Q tt w → pwp (PIPE_ASSERT b) w Q.
Proof. by intros ->. Qed.

(** ** Waking and waiting *)

(** A thread is woken while the interrupts are disabled. *)
Lemma wp_resume_first (k : kern) q (Q : unit → kern → Prop) : kinv k → waiting_queue q →
  is_Some (s_lists (thread_lists k) !! q) → lof (thread_lists k) q ≠ [] →
  (∀ k', wakes_first q k k' → Q tt k') →
  wp (thread ← first_waiter q; rt_thread_resume thread;; rt_schedule) k Q.
Proof.
  intros I Hq Hh Hne HQ. unfold wakes_first in HQ. destruct (lof (thread_lists k) q) as [|t rest] eqn:E; [done|].
  destruct (waiter 0 k I q Hq Hh t) as (th&Ht&Hs); [rewrite E; left|].
  apply wp_bind. eapply (wp_first_waiter 0 _ I q Hq Hh t rest); [done|].
  apply wp_bind. eapply (wp_resume 0 _ t th I Ht); [done|]. intros k1 Hw.
  eapply wp_schedule_any; [apply Hw|by eapply (woken_ready 0 k I q Hq Hh t th)|].
  intros k' Hk'. apply HQ. by exists th, k1.
Qed.

(** ** A pipe in order *)

Definition blocks (bit : Z) (p : rt_pipe_device) : bool := has (pp_flag p) bit.

(** Only the readers of a pipe that blocks readers wait, and so the writers. *)
Record pipe_ok (w : wld) (pipe : Z) (p : rt_pipe_device) (cap : Z) (q : list Z) : Prop := {
  po_null : pipe ≠ RT_NULL;
  po_inv : kinv (kern_in w);
  po_pipe : pipes w !! pipe = Some p;
  po_ring : rb_repr cap (pp_ringbuffer p) q;
  po_device : is_Some (devices (sys_of w) !! pipe);
  po_readers : is_Some (s_lists (thread_lists (kern_in w)) !! QPop pipe);
  po_writers : is_Some (s_lists (thread_lists (kern_in w)) !! QPush pipe);
  po_block_rd : lof (thread_lists (kern_in w)) (QPop pipe) ≠ [] → blocks RT_PIPE_FLAG_BLOCK_RD p = true;
  po_block_wr : lof (thread_lists (kern_in w)) (QPush pipe) ≠ [] → blocks RT_PIPE_FLAG_BLOCK_WR p = true;
}.

(** A pipe as its clients see it: the bytes in it and the waiting threads. *)
Record pipe_view : Type := PipeView {
  v_bytes : list Z;
  v_readers : list Z;
  v_writers : list Z;
}.

Definition pipe_shows (pipe cap flag : Z) (w : wld) (v : pipe_view) : Prop :=
  ∃ p, pipe_ok w pipe p cap (v_bytes v) ∧ pp_flag p = flag ∧
    lof (thread_lists (kern_in w)) (QPop pipe) = v_readers v ∧
    lof (thread_lists (kern_in w)) (QPush pipe) = v_writers v.

(** The function the client set with [rt_device_set_rx_indicate], or null. *)
Definition rx_indicate_of (w : wld) (pipe : Z) : Z :=
  match devices (sys_of w) !! pipe with Some d => dv_rx_indicate d | None => RT_NULL end.

(** [fn] is told, with interrupts disabled, that [n] bytes can be read. *)
Definition indicated (indicate : Z → Z → Z → PM unit) (fn pipe n : Z) (w w' : wld) : Prop :=
  if bool_decide (fn = RT_NULL) then w' = w else indicate fn pipe n w = Ok tt w'.

(** What the client's function has to do: it returns, leaves the pipe in order,
    and the interrupts disabled; it may read from the pipe. *)
Definition indicate_ok (indicate : Z → Z → Z → PM unit) (fn pipe cap flag : Z) : Prop :=
  fn ≠ RT_NULL → ∀ n w v, pipe_shows pipe cap flag w v →
    ∃ w' v', indicate fn pipe n w = Ok tt w' ∧ pipe_shows pipe cap flag w' v' ∧
             primask (kern_in w') = primask (kern_in w).

(** The fields of a pipe change. *)
Definition with_pipe (pipe : Z) (p : rt_pipe_device) (w : wld) : wld :=
  World (sys_of w) (<[pipe := p]> (pipes w)).

Section pipe.
Context (w : wld) (pipe : Z) (p : rt_pipe_device) (cap : Z) (q : list Z).
Context (Hok : pipe_ok w pipe p cap q).

Lemma pipe_ok_with rb q' : rb_repr cap rb q' →
  pipe_ok (with_pipe pipe (PipeDevice rb (pp_flag p)) w) pipe (PipeDevice rb (pp_flag p)) cap q'.
Proof using All. intros Hr. destruct Hok. split; try done. apply lookup_insert_eq. Qed.

(** The kernel changes, the lists of the pipe as given. *)
Lemma pipe_ok_kern k' : kinv k' →
  is_Some (s_lists (thread_lists k') !! QPop pipe) → is_Some (s_lists (thread_lists k') !! QPush pipe) →
  (lof (thread_lists k') (QPop pipe) ≠ [] → blocks RT_PIPE_FLAG_BLOCK_RD p = true) →
  (lof (thread_lists k') (QPush pipe) ≠ [] → blocks RT_PIPE_FLAG_BLOCK_WR p = true) →
  pipe_ok (with_kern k' w) pipe p cap q.
Proof using All. intros. destruct Hok. by split. Qed.

Lemma pwp_pipe_get buffer size (Q : Z * list Z → wld → Prop) : in_u16 size → size <= zlen buffer →
  let d := (fifo_get size q).1 in
  (∀ rb, rb_repr cap rb (fifo_get size q).2 →
     Q (zlen d, d ++ seg (zlen d) (zlen buffer) buffer)
       (with_pipe pipe (PipeDevice rb (pp_flag p)) w)) →
  pwp (pipe_get pipe buffer size) w Q.
Proof using All.
  intros Hs Hb d HQ. destruct (get_refines _ _ _ buffer size (po_ring _ _ _ _ _ Hok) Hs Hb) as (rb&E&Hr).
  unfold pipe_get. apply pwp_bind. eapply pwp_get; [apply Hok|]. apply pwp_bind.
  rewrite u16_small, E by done. by apply HQ.
Qed.

Lemma pwp_pipe_put buffer size (Q : Z → wld → Prop) : in_u16 size → size <= zlen buffer →
  (∀ rb, rb_repr cap rb (fifo_put cap buffer size q).2 →
     Q (fifo_put cap buffer size q).1 (with_pipe pipe (PipeDevice rb (pp_flag p)) w)) →
  pwp (pipe_put pipe buffer size) w Q.
Proof using All.
  intros Hs Hb HQ. destruct (put_refines _ _ _ buffer size (po_ring _ _ _ _ _ Hok) Hs Hb) as (rb&E&Hr).
  unfold pipe_put. apply pwp_bind. eapply pwp_get; [apply Hok|]. apply pwp_bind.
  rewrite u16_small, E by done. by apply HQ.
Qed.

Lemma pwp_list_empty y (Q : bool → wld → Prop) : is_Some (s_lists (thread_lists (kern_in w)) !! y) →
  Q (bool_decide (lof (thread_lists (kern_in w)) y = [])) w → pwp (list_empty y) w Q.
Proof using All.
  intros Hy HQ. apply pwp_kern. eapply wp_kopt; [by apply s_isempty_spec|]. by destruct w as [[] ?].
Qed.

(** The first thread of a list is woken, if there is one. *)
Lemma pwp_resume y bit (Q : unit → wld → Prop) : waiting_queue y →
  is_Some (s_lists (thread_lists (kern_in w)) !! y) →
  (lof (thread_lists (kern_in w)) y ≠ [] → blocks bit p = true) →
  (∀ k', wakes_first y (kern_in w) k' → Q tt (with_kern k' w)) →
  pwp (empty ← list_empty y;
       if (empty : bool) then mret tt else
       p ← get_pipe pipe; PIPE_ASSERT (has (pp_flag p) bit);; resume_first y) w Q.
Proof using All.
  intros Hy Hh Hb HQ. apply pwp_bind, pwp_list_empty; [done|]. case_bool_decide as E.
  - specialize (HQ (kern_in w)). unfold wakes_first in HQ. rewrite E in HQ. specialize (HQ eq_refl).
    by destruct w as [[] ?].
  - apply pwp_bind. eapply pwp_get; [apply Hok|]. apply pwp_bind, pwp_assert; [by apply Hb|].
    apply pwp_kern. apply wp_resume_first; [apply Hok|done..].
Qed.

End pipe.

Lemma pipe_ok_primask w pipe p cap q m : pipe_ok w pipe p cap q →
  pipe_ok (with_kern (set_primask m (kern_in w)) w) pipe p cap q.
Proof.
  intros Hok. pose proof Hok as []. apply pipe_ok_kern; try done.
  by apply (kinv_at_irrelevant 0 (kern_in w)).
Qed.

Lemma zlen_0 {A} (l : list A) : zlen l = 0 ↔ l = [].
Proof. unfold zlen. destruct l; cbn; split; first [done|lia]. Qed.

Lemma tail_nonempty {A} (l : list A) : tail l ≠ [] → l ≠ [].
Proof. by destruct l. Qed.

(** The pipe after the first thread of one of its lists is woken. *)
Lemma woken_shows w pipe p cap q y k' m : pipe_ok w pipe p cap q →
  y = QPush pipe ∨ y = QPop pipe → wakes_first y (kern_in w) k' →
  let L := lof (thread_lists (kern_in w)) in
  pipe_shows pipe cap (pp_flag p) (with_kern (set_primask m k') w)
    (PipeView q (if decide (y = QPop pipe) then tail (L (QPop pipe)) else L (QPop pipe))
                (if decide (y = QPush pipe) then tail (L (QPush pipe)) else L (QPush pipe))).
Proof.
  intros Hok Hy Hw L. pose proof Hok as [? I ???? ? Hrd Hwr].
  assert (waiting_queue y) as Hwy by (by destruct Hy as [-> | ->]).
  assert (is_Some (s_lists (thread_lists (kern_in w)) !! y)) as Hh by (by destruct Hy as [-> | ->]).
  pose proof (wakes_first_queue _ _ I Hwy Hh _ Hw) as Eq.
  pose proof (λ x, wakes_first_other _ _ I Hwy Hh x _ Hw) as Eo.
  pose proof (λ x, wakes_first_heads _ _ I Hwy Hh x _ Hw) as Eh.
  pose proof (wakes_first_inv _ _ I Hwy Hh _ Hw) as I'.
  assert (lof (thread_lists k') (QPop pipe) =
    (if decide (y = QPop pipe) then tail (L (QPop pipe)) else L (QPop pipe))) as E1.
  { case_decide as E; [subst y; exact Eq|by apply Eo]. }
  assert (lof (thread_lists k') (QPush pipe) =
    (if decide (y = QPush pipe) then tail (L (QPush pipe)) else L (QPush pipe))) as E2.
  { clear E1. case_decide as E; [subst y; exact Eq|by apply Eo]. }
  exists p. split_and!; [|done|exact E1|exact E2].
  apply pipe_ok_kern; cbn; [done|by apply (kinv_at_irrelevant 0 k')|by apply Eh|by apply Eh|..].
  - rewrite E1. destruct (decide (y = QPop pipe)); [intros Ht%tail_nonempty; by apply Hrd|exact Hrd].
  - rewrite E2. destruct (decide (y = QPush pipe)); [intros Ht%tail_nonempty; by apply Hwr|exact Hwr].
Qed.

(** The pipe after the caller has gone to the end of one of its lists. *)
Lemma parked_shows w pipe p cap q y t th th' k' : pipe_ok w pipe p cap q →
  calls (kern_in w) t th → y = QPush pipe ∨ y = QPop pipe →
  blocks (if decide (y = QPop pipe) then RT_PIPE_FLAG_BLOCK_RD else RT_PIPE_FLAG_BLOCK_WR) p = true →
  parks t th' y None (kern_in w) k' →
  let L := lof (thread_lists (kern_in w)) in
  pipe_shows pipe cap (pp_flag p) (with_kern k' w)
    (PipeView q (if decide (y = QPop pipe) then L (QPop pipe) ++ [t] else L (QPop pipe))
                (if decide (y = QPush pipe) then L (QPush pipe) ++ [t] else L (QPush pipe))).
Proof.
  intros Hok Hca Hy Hbl Hp L. pose proof Hok as [? I ???? ? Hrd Hwr].
  assert (waiting_queue y) as Hwy by (by destruct Hy as [-> | ->]).
  assert (is_Some (s_lists (thread_lists (kern_in w)) !! y)) as Hh by (by destruct Hy as [-> | ->]).
  pose proof (parks_inv _ t th Hca y Hwy Hh _ _ _ Hp) as I'.
  destruct (parks_rest _ t th Hca y Hwy Hh _ _ _ Hp) as (_&_&_&Eh).
  pose proof (parks_lists _ t th Hca y Hwy Hh _ _ _ Hp) as El.
  assert (∀ x, waiting_queue x → lof (thread_lists k') x = if decide (y = x) then L x ++ [t] else L x) as El'.
  { intros x Hx. rewrite El by done. destruct (decide (x = y)) as [->|]; [by rewrite decide_True|].
    by rewrite decide_False. }
  exists p. split_and!; [|done|by apply El'|by apply El'].
  apply pipe_ok_kern; [done|done|by apply Eh|by apply Eh|..].
  - rewrite El' by done. destruct (decide (y = QPop pipe)); [done|exact Hrd].
  - rewrite El' by done. destruct Hy as [-> | ->]; [|exact Hwr].
    rewrite decide_False in Hbl by done. by rewrite decide_True.
Qed.

(** The caller goes to the end of one of the lists. *)
Lemma pwp_pipe_wait w pipe p cap q y t th (Q : Z → wld → Prop) : pipe_ok w pipe p cap q →
  calls (kern_in w) t th → y = QPush pipe ∨ y = QPop pipe →
  blocks (if decide (y = QPop pipe) then RT_PIPE_FLAG_BLOCK_RD else RT_PIPE_FLAG_BLOCK_WR) p = true →
  let L := lof (thread_lists (kern_in w)) in
  (∀ c w', c ≠ t → primask (kern_in w') = primask (kern_in w) →
     pipe_shows pipe cap (pp_flag p) w'
       (PipeView q (if decide (y = QPop pipe) then L (QPop pipe) ++ [t] else L (QPop pipe))
                   (if decide (y = QPush pipe) then L (QPush pipe) ++ [t] else L (QPush pipe))) →
     Q c w') →
  pwp (pipe_wait y t (primask (kern_in w))) (with_kern (set_primask 1 (kern_in w)) w) Q.
Proof.
  intros Hok Hca Hy Hbl L HQ.
  assert (waiting_queue y) as Hwy by (by destruct Hy as [-> | ->]).
  assert (is_Some (s_lists (thread_lists (kern_in w)) !! y)) as Hh by (by destruct Hy as [-> | ->]; apply Hok).
  apply pwp_kern. eapply (wp_park (kern_in w) t th Hca y Hwy Hh). intros k' Hk'. wps.
  apply HQ; [apply Hk'| |by eapply (parked_shows w)].
  by destruct (parks_rest _ t th Hca y Hwy Hh _ _ _ Hk') as (_&_&?&_).
Qed.

(** Which of the two lists is meant. *)
Ltac which_list H :=
  cbv zeta in H; rewrite ?(decide_False (P:=QPop _ = QPush _)), ?(decide_False (P:=QPush _ = QPop _)),
    ?(decide_True (P:=QPop _ = QPop _)), ?(decide_True (P:=QPush _ = QPush _)) in H by done; exact H.

(** ** Reading *)

Section read.
Context (w : wld) (pipe : Z) (p : rt_pipe_device) (cap : Z) (q : list Z).
Context (Hok : pipe_ok w pipe p cap q) (buffer : list Z) (size : Z).
Context (Hsize : in_u16 size) (Hbuf : size <= zlen buffer).

Let k := kern_in w.
Let d := (fifo_get size q).1.
Let readers := lof (thread_lists k) (QPop pipe).
Let writers := lof (thread_lists k) (QPush pipe).

Definition read_answer : pipe_outcome := PipeReturns (zlen d) (d ++ seg (zlen d) (zlen buffer) buffer).

(** The world when the ring buffer was read, with the interrupts disabled. *)
Let w1 rb := with_pipe pipe (PipeDevice rb (pp_flag p)) (with_kern (set_primask 1 k) w).

Lemma read_ok rb : rb_repr cap rb (fifo_get size q).2 →
  pipe_ok (w1 rb) pipe (PipeDevice rb (pp_flag p)) cap (fifo_get size q).2.
Proof using All. intros Hr. by eapply pipe_ok_with; [apply pipe_ok_primask|]. Qed.

Lemma pwp_read_wake rb (Q : pipe_outcome → wld → Prop) : rb_repr cap rb (fifo_get size q).2 →
  (∀ w', primask (kern_in w') = primask k →
     pipe_shows pipe cap (pp_flag p) w' (PipeView (fifo_get size q).2 readers (tail writers)) →
     Q read_answer w') →
  pwp (_rt_pipe_resume_writer pipe;; krun (rt_hw_interrupt_enable (primask k));; mret read_answer)
    (w1 rb) Q.
Proof using All.
  intros Hr HQ. pose proof (read_ok rb Hr) as Hok1. apply pwp_bind.
  eapply (pwp_resume _ _ _ _ _ Hok1); [done|apply Hok1|apply Hok1|]. intros k' Hk'.
  apply pwp_bind, pwp_kern. wps. apply HQ; [done|].
  pose proof (woken_shows _ _ _ _ _ (QPush pipe) k' (primask k) Hok1 (or_introl eq_refl) Hk') as Hv.
  which_list Hv.
Qed.

Lemma pwp_pipe_read t th (Q : pipe_outcome → wld → Prop) : calls k t th →
  (∀ w', primask (kern_in w') = primask k → d ≠ [] →
     pipe_shows pipe cap (pp_flag p) w' (PipeView (fifo_get size q).2 readers (tail writers)) →
     Q read_answer w') →
  (∀ w', primask (kern_in w') = primask k → d = [] → blocks RT_PIPE_FLAG_BLOCK_RD p = false →
     pipe_shows pipe cap (pp_flag p) w' (PipeView (fifo_get size q).2 readers writers) →
     Q read_answer w') →
  (∀ w', primask (kern_in w') = primask k → d = [] → blocks RT_PIPE_FLAG_BLOCK_RD p = true →
     pipe_shows pipe cap (pp_flag p) w' (PipeView (fifo_get size q).2 (readers ++ [t]) writers) →
     Q PipeWaits w') →
  pwp (rt_pipe_read pipe buffer size) w Q.
Proof using All.
  intros Hca H1 H2 H3. unfold rt_pipe_read.
  apply pwp_bind, pwp_assert; [apply bool_decide_true, Hok|].
  apply pwp_bind. eapply pwp_get; [apply Hok|].
  pose proof (zlen_0 d) as Hz.
  pose proof (pipe_ok_primask _ _ _ _ _ 1 Hok) as Hok0. fold k in Hok0.
  destruct (has (pp_flag p) RT_PIPE_FLAG_BLOCK_RD) eqn:Hb; cbn [negb].
  - apply pwp_bind, pwp_kern. unfold rt_thread_self. wps.
    replace (rt_current_thread (kern_in w)) with t by (symmetry; apply Hca).
    apply pwp_bind, pwp_kern. apply wp_not_in_interrupt; [apply Hca|].
    replace (with_kern (kern_in _) _) with w by (by destruct w as [[] ?]).
    cbn [pipe_read_loop]. apply pwp_bind, pwp_kern. wps. apply pwp_bind.
    eapply (pwp_pipe_get _ _ _ _ _ Hok0); [done..|]. intros rb Hr. fold d.
    case_bool_decide as E.
    + apply Hz in E. apply pwp_bind.
      apply (pwp_pipe_wait (with_pipe pipe (PipeDevice rb (pp_flag p)) w) pipe
        (PipeDevice rb (pp_flag p)) cap (fifo_get size q).2 (QPop pipe) t th);
        [by eapply pipe_ok_with|done|by right|by rewrite decide_True|].
      intros c w' Hc Hm Hv. rewrite bool_decide_false by done. apply H3; [done..|]. which_list Hv.
    + apply (pwp_read_wake rb); [done|]. intros w' Hm Hv. apply H1; [done|tauto|done].
  - apply pwp_bind, pwp_kern. wps. apply pwp_bind.
    eapply (pwp_pipe_get _ _ _ _ _ Hok0); [done..|]. intros rb Hr. fold d.
    destruct (decide (zlen d = 0)) as [E|E].
    + rewrite bool_decide_false by tauto. apply pwp_bind, pwp_bind, pwp_kern. wps.
      apply H2; [done|tauto|done|]. exists (PipeDevice rb (pp_flag p)).
      split_and!; [|done..]. by apply (pipe_ok_with _ _ _ _ _ (pipe_ok_primask _ _ _ _ _ (primask k) Hok)).
    + rewrite bool_decide_true by done. apply (pwp_read_wake rb); [done|].
      intros w' Hm Hv. apply H1; [done|tauto|done].
Qed.

End read.

(** ** Writing *)

Section write.
Context (indicate : Z → Z → Z → PM unit).
Context (w : wld) (pipe : Z) (p : rt_pipe_device) (cap : Z) (q : list Z).
Context (Hok : pipe_ok w pipe p cap q) (buffer : list Z) (size : Z).
Context (Hsize : in_u16 size) (Hbuf : size <= zlen buffer).

Let k := kern_in w.
Let n := (fifo_put cap buffer size q).1.
Let q' := (fifo_put cap buffer size q).2.
Let readers := lof (thread_lists k) (QPop pipe).
Let writers := lof (thread_lists k) (QPush pipe).

Context (Hin : indicate_ok indicate (rx_indicate_of w pipe) pipe cap (pp_flag p)).

(** After the bytes are in the pipe the client is told, and then the first of the
    readers is woken. *)
Definition written (w' : wld) : Prop :=
  ∃ w1 w2 v, pipe_shows pipe cap (pp_flag p) w1 (PipeView q' readers writers) ∧
    indicated indicate (rx_indicate_of w pipe) pipe (zlen q') w1 w2 ∧
    pipe_shows pipe cap (pp_flag p) w2 v ∧
    pipe_shows pipe cap (pp_flag p) w' (PipeView (v_bytes v) (tail (v_readers v)) (v_writers v)).

#[local] Lemma pwp_indicate fn flag w1 v nbytes (Q : unit → wld → Prop) :
  indicate_ok indicate fn pipe cap flag → pipe_shows pipe cap flag w1 v →
  (∀ w2 v2, indicated indicate fn pipe nbytes w1 w2 → pipe_shows pipe cap flag w2 v2 → Q tt w2) →
  pwp (if bool_decide (fn ≠ RT_NULL) then indicate fn pipe nbytes else mret tt) w1 Q.
Proof.
  intros Hi Hv HQ. unfold indicated in HQ. destruct (decide (fn = RT_NULL)) as [E|E].
  - rewrite bool_decide_false by tauto. rewrite bool_decide_true in HQ by done. by eapply HQ.
  - rewrite bool_decide_true by done. rewrite bool_decide_false in HQ by done.
    destruct (Hi E nbytes w1 v Hv) as (w2&v2&E2&Hv2&_). unfold pwp. rewrite E2. by eapply HQ.
Qed.

Lemma pwp_write_wake rb (Q : pipe_outcome → wld → Prop) : rb_repr cap rb q' →
  (∀ w', primask (kern_in w') = primask k → written w' → Q (PipeReturns n buffer) w') →
  pwp (_rt_pipe_resume_reader indicate pipe;; krun (rt_hw_interrupt_enable (primask k));;
       mret (PipeReturns n buffer))
    (with_pipe pipe (PipeDevice rb (pp_flag p)) (with_kern (set_primask 1 k) w)) Q.
Proof using All.
  intros Hr HQ. pose proof (pipe_ok_with _ _ _ _ _ (pipe_ok_primask _ _ _ _ _ 1 Hok) rb _ Hr) as Hok1.
  fold k in Hok1. set (w1 := with_pipe _ _ _) in *. destruct (po_device _ _ _ _ _ Hok) as (d&Hd).
  assert (pipe_shows pipe cap (pp_flag p) w1 (PipeView q' readers writers)) as Hv1 by (by eexists).
  assert (dv_rx_indicate d = rx_indicate_of w pipe) as Efn by (unfold rx_indicate_of; by rewrite Hd).
  assert (rt_ringbuffer_data_len rb = zlen q') as Elen.
  { destruct Hr as (Hwf&_&<-). apply (data_len_contents rb Hwf). }
  apply pwp_bind. unfold _rt_pipe_resume_reader. apply pwp_bind.
  eapply pwp_get_device; [exact Hd|]. apply pwp_bind. eapply pwp_get; [apply Hok1|]. apply pwp_bind.
  cbn [pp_ringbuffer]. rewrite Efn, Elen. eapply pwp_indicate; [exact Hin|exact Hv1|].
  intros w2 v2 Hi Hv2. pose proof Hv2 as (p2&Hok2&Hf2&Er2&Ew2).
  eapply (pwp_resume _ _ _ _ _ Hok2); [done|apply Hok2|apply Hok2|]. intros k' Hk'.
  apply pwp_bind, pwp_kern. wps. apply HQ; [done|]. exists w1, w2, v2. split_and!; [done..|].
  pose proof (woken_shows _ _ _ _ _ (QPop pipe) k' (primask k) Hok2 (or_intror eq_refl) Hk') as Hv.
  cbv zeta in Hv. rewrite Er2, Ew2, Hf2 in Hv. which_list Hv.
Qed.

Lemma pwp_pipe_write t th (Q : pipe_outcome → wld → Prop) : calls k t th →
  blocks RT_PIPE_FLAG_FORCE_WR p = false →
  (∀ w', primask (kern_in w') = primask k → n ≠ 0 ∨ blocks RT_PIPE_FLAG_BLOCK_WR p = false →
     written w' → Q (PipeReturns n buffer) w') →
  (∀ w', primask (kern_in w') = primask k → n = 0 → blocks RT_PIPE_FLAG_BLOCK_WR p = true →
     pipe_shows pipe cap (pp_flag p) w' (PipeView q' readers (writers ++ [t])) →
     Q PipeWaits w') →
  pwp (rt_pipe_write indicate pipe buffer size) w Q.
Proof using All.
  intros Hca Hforce H1 H2. unfold rt_pipe_write.
  apply pwp_bind, pwp_assert; [apply bool_decide_true, Hok|].
  apply pwp_bind. eapply pwp_get; [apply Hok|]. unfold blocks in *. rewrite Hforce. cbn [orb].
  pose proof (pipe_ok_primask _ _ _ _ _ 1 Hok) as Hok0. fold k in Hok0.
  destruct (has (pp_flag p) RT_PIPE_FLAG_BLOCK_WR) eqn:Hb; cbn [negb].
  - apply pwp_bind, pwp_kern. unfold rt_thread_self. wps.
    replace (rt_current_thread (kern_in w)) with t by (symmetry; apply Hca).
    apply pwp_bind, pwp_kern. apply wp_not_in_interrupt; [apply Hca|].
    rewrite with_kern_same.
    cbn [pipe_write_loop]. apply pwp_bind, pwp_kern. wps. apply pwp_bind.
    eapply (pwp_pipe_put _ _ _ _ _ Hok0); [done..|]. intros rb Hr. fold n.
    case_bool_decide as E.
    + apply pwp_bind.
      apply (pwp_pipe_wait (with_pipe pipe (PipeDevice rb (pp_flag p)) w) pipe
        (PipeDevice rb (pp_flag p)) cap q' (QPush pipe) t th);
        [by eapply pipe_ok_with|done|by left|by rewrite decide_False|].
      intros c w' Hc Hm Hv. rewrite bool_decide_false by done. apply H2; [done..|]. which_list Hv.
    + apply (pwp_write_wake rb); [done|]. intros w' Hm Hv. apply H1; [done|by left|done].
  - apply pwp_bind, pwp_kern. wps. apply pwp_bind.
    eapply (pwp_pipe_put _ _ _ _ _ Hok0); [done..|]. intros rb Hr. fold n.
    apply (pwp_write_wake rb); [done|]. intros w' Hm Hv. apply H1; [done|by right|done].
Qed.

End write.

(** ** Refinement *)

(** C17: A pipe is a bounded FIFO queue of bytes with a queue of readers and a queue of
    writers.  A read takes the oldest bytes, as many as there are and asked for,
    and wakes the first writer; a write to a pipe that does not force writes
    appends the bytes for which there is space, tells the client's [rx_indicate]
    function, if there is one, how many bytes the pipe holds, and then wakes the
    first reader.  When not a byte can be moved, the call lets the caller wait if
    the pipe blocks it, and else returns 0.  The interrupt state is restored.  The
    client's function has to return, with the pipe in order. *)
Theorem pipe_refines_fifo indicate (w : wld) pipe p cap q t th buffer size :
  pipe_ok w pipe p cap q → calls (kern_in w) t th → in_u16 size → size <= zlen buffer →
  indicate_ok indicate (rx_indicate_of w pipe) pipe cap (pp_flag p) →
  let shows := pipe_shows pipe cap (pp_flag p) in
  let readers := lof (thread_lists (kern_in w)) (QPop pipe) in
  let writers := lof (thread_lists (kern_in w)) (QPush pipe) in
  (let '(d, rest) := fifo_get size q in
   let waits := bool_decide (d = []) && blocks RT_PIPE_FLAG_BLOCK_RD p in
   ∃ w', rt_pipe_read pipe buffer size w =
       Ok (if waits then PipeWaits
           else PipeReturns (zlen d) (d ++ seg (zlen d) (zlen buffer) buffer)) w' ∧
     primask (kern_in w') = primask (kern_in w) ∧
     shows w' (PipeView rest (if waits then readers ++ [t] else readers)
                 (if bool_decide (d = []) then writers else tail writers))) ∧
  (blocks RT_PIPE_FLAG_FORCE_WR p = false →
   let '(n, q') := fifo_put cap buffer size q in
   let waits := bool_decide (n = 0) && blocks RT_PIPE_FLAG_BLOCK_WR p in
   ∃ w', rt_pipe_write indicate pipe buffer size w =
       Ok (if waits then PipeWaits else PipeReturns n buffer) w' ∧
     primask (kern_in w') = primask (kern_in w) ∧
     if waits then shows w' (PipeView q' readers (writers ++ [t]))
     else ∃ w1 w2 v, shows w1 (PipeView q' readers writers) ∧
       indicated indicate (rx_indicate_of w pipe) pipe (zlen q') w1 w2 ∧ shows w2 v ∧
       shows w' (PipeView (v_bytes v) (tail (v_readers v)) (v_writers v))).
Proof.
  intros Hok Hca Hs Hb Hin shows readers writers. split.
  - destruct (fifo_get size q) as [d rest] eqn:Eg.
    destruct (pwp_ok (rt_pipe_read pipe buffer size) w (λ a w',
      a = (if bool_decide (d = []) && blocks RT_PIPE_FLAG_BLOCK_RD p then PipeWaits
           else PipeReturns (zlen d) (d ++ seg (zlen d) (zlen buffer) buffer)) ∧
      primask (kern_in w') = primask (kern_in w) ∧
      shows w' (PipeView rest
        (if bool_decide (d = []) && blocks RT_PIPE_FLAG_BLOCK_RD p then readers ++ [t] else readers)
        (if bool_decide (d = []) then writers else tail writers)))) as (a&w'&E&->&?); [|by exists w'].
    eapply (pwp_pipe_read w pipe p cap q Hok buffer size Hs Hb t th); [done|..];
      unfold read_answer; rewrite Eg; cbn [fst snd].
    + intros w' Hm Hd Hv. rewrite !bool_decide_false by done. by split_and!.
    + intros w' Hm Hd Hbl Hv. rewrite !bool_decide_true, Hbl by done. by split_and!.
    + intros w' Hm Hd Hbl Hv. rewrite !bool_decide_true, Hbl by done. by split_and!.
  - intros Hf. destruct (fifo_put cap buffer size q) as [n q'] eqn:Ep. cbv zeta.
    apply (pwp_answer (rt_pipe_write indicate pipe buffer size) w).
    eapply (pwp_pipe_write indicate w pipe p cap q Hok buffer size Hs Hb Hin t th); [done|done|..];
      unfold written; rewrite Ep; cbn [fst snd].
    + intros w' Hm Hn Hv. replace (bool_decide (n = 0) && blocks RT_PIPE_FLAG_BLOCK_WR p) with false.
      * by split_and!.
      * destruct Hn as [Hn|Hn]; [by rewrite bool_decide_false|by rewrite Hn, andb_false_r].
    + intros w' Hm Hn Hbl Hv. rewrite !bool_decide_true, Hbl by done. by split_and!.
Qed.

(** ** Creation *)

(** The device of a pipe after its initialisation. *)
Definition pipe_device (fr fw fc : Z) (d : rt_device) : rt_device :=
  Device RT_DEVICE_FLAG_RDWR 0 0 (dv_rx_indicate d) (dv_tx_complete d) RT_NULL RT_NULL RT_NULL fr fw fc.

(** An empty list of threads that was not there before. *)
Lemma wp_new_list (k : kern) y (Q : unit → kern → Prop) : kinv k → lof (thread_lists k) y = [] →
  (∀ S, becomes (thread_lists k) S (lof (thread_lists k)) → is_Some (s_lists S !! y) →
     kinv (set_thread_lists (LS:=seq_lists) S k) → Q tt (set_thread_lists (LS:=seq_lists) S k)) →
  wp (on_threads (l_init (Hd y))) k Q.
Proof.
  intros I Hy HQ. destruct (s_init_head_spec (thread_lists k) y) as (S&ES&Hb&Hh); [apply I|done|].
  eapply wp_on_threads; [exact ES|]. apply HQ; [done|done|by apply kinv_new_head].
Qed.

Lemma device_class_lists (k : kern) S : device_class k → rt_current_thread k = RT_NULL ∨
    (kinv (set_thread_lists (LS:=seq_lists) S k) ∧ some_ready (lof S)) →
  device_class (set_thread_lists (LS:=seq_lists) S k).
Proof.
  intros [[???] Hd Hl] Hk. split; [by split|done|]. destruct Hl as [|(_&_&?)]; [by left|].
  destruct Hk as [|[??]]; [by left|right]. split; [done|]. split; done.
Qed.

Section init.
Context (fr fw fc : Z) (w : wld) (pipe : Z) (name : list Z) (flag : Z) (buf : list Z) (size : Z).
Context (d : rt_device) (Hnull : pipe ≠ RT_NULL) (Hdev : devices (sys_of w) !! pipe = Some d).
Context (I : kinv (kern_in w)) (Hc : device_class (kern_in w)).
Context (Hr : some_ready (lof (thread_lists (kern_in w)))).
Context (Hdet : detached (lof (object_lists (kern_in w))) (ODevice pipe)).
Context (Hpop : lof (thread_lists (kern_in w)) (QPop pipe) = []).
Context (Hpush : lof (thread_lists (kern_in w)) (QPush pipe) = []).

(** [rt_pipe_init] with a free name and a buffer of less than 32768 bytes makes an
    empty pipe and registers its device; a larger size, which the ring buffer takes
    as a negative one, fails an assertion. *)
Theorem rt_pipe_init_correct :
  (4 <= size < 2 ^ 15 → size <= zlen buf → found_device (kern_in w) name = RT_NULL →
   ∃ w', rt_pipe_init fr fw fc pipe name flag (Some buf) size w = Ok RT_EOK w' ∧
     pipe_shows pipe (size / 4 * 4) flag w' (PipeView [] [] []) ∧
     devices (sys_of w') = <[pipe := pipe_device fr fw fc d]> (devices (sys_of w))) ∧
  (2 ^ 15 <= size < 2 ^ 16 →
   rt_pipe_init fr fw fc pipe name flag (Some buf) size w = Halt Hassert).
Proof using All.
  split.
  - intros Hs Hb Hf.
    destruct (init_refines buf size Hs Hb) as (rb&Erb&Hrb).
    destruct (pwp_ok (rt_pipe_init fr fw fc pipe name flag (Some buf) size) w (λ r w', r = RT_EOK ∧
      pipe_shows pipe (size / 4 * 4) flag w' (PipeView [] [] []) ∧
      devices (sys_of w') = <[pipe := pipe_device fr fw fc d]> (devices (sys_of w))))
      as (r&w'&E&->&?&?); [|by exists w'].
    unfold rt_pipe_init. apply pwp_bind, pwp_assert; [by apply bool_decide_true|].
    apply pwp_bind. cbn [popt]. apply pwp_bind, pwp_kern.
    apply wp_new_list; [done|done|]. intros S1 Hb1 Hh1 I1.
    apply pwp_bind, pwp_kern. apply wp_new_list; [done|cbn; by rewrite (bc_lof _ _ _ Hb1)|].
    intros S2 Hb2 Hh2 I2. cbn in Hb2, I2. apply pwp_bind. rewrite s16_small, Erb by lia.
    apply pwp_bind, pwp_bind.
    set (k2 := set_thread_lists (LS:=seq_lists) S2 (kern_in w)).
    set (w2 := World (set_kern k2 (sys_of w)) (<[pipe := PipeDevice rb flag]> (pipes w))).
    match goal with |- pwp ?c _ ?Q => change (pwp c w2 Q) end.
    assert (∀ y, lof S2 y = lof (thread_lists (kern_in w)) y) as EL.
    { intros y. by rewrite (bc_lof _ _ _ Hb2), (bc_lof _ _ _ Hb1). }
    assert (device_class k2) as Hc2.
    { apply device_class_lists; [done|right]. split; [done|]. by eapply some_ready_ext. }
    apply pwp_sys. eapply dwp_mod; [exact Hdev|]. apply pwp_sys.
    eapply dwp_device_register; [exact Hnull|apply lookup_insert_eq|exact Hc2|exact Hdet| |].
    { by intros k3 []. }
    intros k3 k4 _ Hs3 Hc3 He. split; [done|]. split; cbn; [|by rewrite insert_insert_eq].
    assert (thread_lists k4 = S2) as E4.
    { rewrite (en_rest _ _ _ _ _ He). cbn. by rewrite (sc_lists _ _ Hs3). }
    assert (kinv k4) as I4.
    { rewrite (en_rest _ _ _ _ _ He). apply (kinv_at_irrelevant 0 k2); try done; by destruct Hs3. }
    exists (PipeDevice rb flag). split_and!; cbn; [|done|by rewrite E4, EL..].
    split; cbn; rewrite ?E4, ?EL; try done.
    + apply lookup_insert_eq.
    + by rewrite lookup_insert_eq.
    + by apply (bc_heads _ _ _ Hb2).
  - intros Hs. unfold rt_pipe_init. rewrite bool_decide_true by done.
    destruct (wp_run (on_threads (l_init (Hd (QPop pipe)))) (kern_in w)
      (λ _ k, kinv k ∧ lof (thread_lists k) (QPush pipe) = [])) as ([]&k1&E1&I1&Ep).
    { apply wp_new_list; [done|done|]. intros S Hb _ IS. split; [done|]. cbn. by rewrite (bc_lof _ _ _ Hb). }
    destruct (wp_run (on_threads (l_init (Hd (QPush pipe)))) k1 (λ _ _, True)) as ([]&k2&E2&_).
    { by apply wp_new_list. }
    rewrite (P_bind_ok _ _ w tt w), (P_bind_ok _ _ w buf w) by done.
    rewrite (P_bind_ok _ _ _ _ _ (krun_ok _ _ _ _ E1)), (P_bind_ok _ _ _ _ _ (krun_ok _ _ (with_kern k1 w) _ E2)).
    replace (s16 size) with (size - 2 ^ 16) by mlia.
    unfold rt_ringbuffer_init. by rewrite bool_decide_false by lia.
Qed.

End init.

(** ** Sizes beyond 16 bits *)

(** The length is cut to 16 bits on its way to the ring buffer. *)
Lemma pipe_get_u16 pipe buffer size (w : wld) :
  pipe_get pipe buffer size w = pipe_get pipe buffer (u16 size) w.
Proof. unfold pipe_get. by rewrite (u16_small (u16 size)) by apply u16_range. Qed.

Lemma P_bind_ext {A B} (c c' : PM A) (f f' : A → PM B) w : c w = c' w → (∀ a w', f a w' = f' a w') →
  (c ≫= f) w = (c' ≫= f') w.
Proof. intros E Ef. unfold mbind, P_bind. rewrite E. destruct (c' w); [apply Ef|done]. Qed.

Lemma read_loop_u16 fuel pipe t buffer size (w : wld) :
  pipe_read_loop fuel pipe t buffer size w = pipe_read_loop fuel pipe t buffer (u16 size) w.
Proof.
  revert buffer w. induction fuel as [|fuel IH]; intros buffer w; [done|]. cbn [pipe_read_loop].
  apply P_bind_ext; [done|]. intros level w1. apply P_bind_ext; [apply pipe_get_u16|].
  intros [n b] w2. case_bool_decide; [|done]. apply P_bind_ext; [done|]. intros c w3.
  case_bool_decide; [apply IH|done].
Qed.

Lemma pipe_read_u16 pipe buffer size (w : wld) :
  rt_pipe_read pipe buffer size w = rt_pipe_read pipe buffer (u16 size) w.
Proof.
  unfold rt_pipe_read. apply P_bind_ext; [done|]. intros _ w1. apply P_bind_ext; [done|]. intros p w2.
  destruct (negb _).
  - apply P_bind_ext; [done|]. intros level w3. apply P_bind_ext; [apply pipe_get_u16|]. done.
  - apply P_bind_ext; [done|]. intros t w3. apply P_bind_ext; [done|]. intros _ w4. apply read_loop_u16.
Qed.

(** A read of no bytes, or of a multiple of 65536, from a pipe that blocks readers
    lets the caller wait although there is data, and changes nothing else. *)
Theorem rt_pipe_read_zero_waits (w : wld) pipe p cap q t th buffer size :
  pipe_ok w pipe p cap q → calls (kern_in w) t th → blocks RT_PIPE_FLAG_BLOCK_RD p = true →
  0 <= size → size mod 2 ^ 16 = 0 →
  ∃ w', rt_pipe_read pipe buffer size w = Ok PipeWaits w' ∧
    pipe_shows pipe cap (pp_flag p) w' (PipeView q
      (lof (thread_lists (kern_in w)) (QPop pipe) ++ [t]) (lof (thread_lists (kern_in w)) (QPush pipe))).
Proof.
  intros Hok Hca Hbl Hs0 Hs. assert (u16 size = 0) as Hu by exact Hs.
  assert (fifo_get 0 q = ([], q)) as Eg.
  { pose proof (zlen_nonneg q). apply fifo_get_app; [done|]. change (zlen []) with 0. lia. }
  destruct (pwp_ok (rt_pipe_read pipe buffer 0) w (λ a w', a = PipeWaits ∧
    pipe_shows pipe cap (pp_flag p) w' (PipeView q
      (lof (thread_lists (kern_in w)) (QPop pipe) ++ [t]) (lof (thread_lists (kern_in w)) (QPush pipe)))))
    as (a&w'&E&->&Hv); [|exists w'; by rewrite pipe_read_u16, Hu].
  pose proof (zlen_nonneg buffer).
  eapply (pwp_pipe_read w pipe p cap q Hok buffer 0 ltac:(done) ltac:(done) t th _ Hca); rewrite Eg; cbn [fst snd].
  - done.
  - by rewrite Hbl.
  - done.
Qed.

(** ** A pipe of eight bytes *)

Definition the_pipe : Z := 0x20005900.
Definition pipe_name : list Z := [112; 105; 112; 101].

Definition empty_device : rt_device := Device 0 0 0 0 0 0 0 0 0 0 0.
Definition board : wld := World (Sys (demo []) {[the_pipe := empty_device]} ∅ RT_NULL) ∅.

(** It blocks readers and writers, holds three bytes, and its client wants to
    know of new ones. *)
Definition demo_pipe : wld :=
  match (rt_pipe_init 1 2 3 the_pipe pipe_name 3 (Some (replicate 8 0)) 8;;
         rt_pipe_write (λ _ _ _, mret tt) the_pipe [7; 8; 9] 3;;
         sys_call (rt_device_set_rx_indicate the_pipe 5)) board with
  | Ok _ w => w
  | Halt _ => board
  end.
Definition demo_pipe_device : rt_pipe_device :=
  PipeDevice (RingBuffer [7; 8; 9; 0; 0; 0; 0; 0] false 0 false 3 8) 3.

Lemma demo_pipe_ok : pipe_ok demo_pipe the_pipe demo_pipe_device 8 [7; 8; 9].
Proof.
  split.
  - discriminate.
  - apply kinv_b_sound. vm_compute. reflexivity.
  - vm_compute. reflexivity.
  - split_and!; [|reflexivity|vm_compute; reflexivity]. split; vm_compute; try congruence; split; congruence.
  - apply (bool_decide_unpack (is_Some _)). vm_compute. reflexivity.
  - apply (bool_decide_unpack (is_Some _)). vm_compute. reflexivity.
  - apply (bool_decide_unpack (is_Some _)). vm_compute. reflexivity.
  - intros _. vm_compute. reflexivity.
  - intros _. vm_compute. reflexivity.
Qed.

Lemma demo_pipe_calls th : threads (kern_in demo_pipe) !! thread_a = Some th →
  calls (kern_in demo_pipe) thread_a th.
Proof. apply calls_b_sound. vm_compute. reflexivity. Qed.

(** Its client keeps the number of bytes. *)
Definition note_bytes : Z → Z → Z → PM unit := λ _ _ n, krun (kset (set__errno n)).

Lemma note_bytes_ok fn pipe cap flag : indicate_ok note_bytes fn pipe cap flag.
Proof.
  intros _ n w v (p&Hok&Hf&Er&Ew). exists (with_kern (set__errno n (kern_in w)) w), v.
  split_and!; [done| |done]. exists p. split_and!; try done.
  apply pipe_ok_kern; [done|..]; try apply Hok.
  apply (kinv_at_irrelevant 0 (kern_in w)); [apply Hok|done..].
Qed.

Lemma pipe_refines_fifo_witness :
  (∃ w', rt_pipe_read the_pipe [0; 0] 2 demo_pipe = Ok (PipeReturns 2 [7; 8]) w') ∧
  ∃ w', rt_pipe_write note_bytes the_pipe [1; 2] 2 demo_pipe = Ok (PipeReturns 2 [1; 2]) w'.
Proof.
  destruct (threads (kern_in demo_pipe) !! thread_a) as [th|] eqn:E; [|vm_compute in E; discriminate E].
  split.
  - destruct (proj1 (pipe_refines_fifo note_bytes demo_pipe the_pipe demo_pipe_device 8 [7; 8; 9]
      thread_a th [0; 0] 2 demo_pipe_ok (demo_pipe_calls th E)
      ltac:(vm_compute; split; congruence) ltac:(vm_compute; congruence) (note_bytes_ok _ _ _ _)))
      as (w'&H&_).
    exists w'. exact H.
  - destruct (proj2 (pipe_refines_fifo note_bytes demo_pipe the_pipe demo_pipe_device 8 [7; 8; 9]
      thread_a th [1; 2] 2 demo_pipe_ok (demo_pipe_calls th E)
      ltac:(vm_compute; split; congruence) ltac:(vm_compute; congruence) (note_bytes_ok _ _ _ _)) eq_refl)
      as (w'&H&_).
    exists w'. exact H.
Defined.

Lemma rt_pipe_read_zero_waits_witness : ∃ w',
  rt_pipe_read the_pipe [] 65536 demo_pipe = Ok PipeWaits w' ∧
  pipe_shows the_pipe 8 3 w' (PipeView [7; 8; 9] [thread_a] []).
Proof.
  destruct (threads (kern_in demo_pipe) !! thread_a) as [th|] eqn:E; [|vm_compute in E; discriminate E].
  destruct (rt_pipe_read_zero_waits demo_pipe the_pipe demo_pipe_device 8 [7; 8; 9] thread_a th [] 65536
    demo_pipe_ok (demo_pipe_calls th E) eq_refl ltac:(vm_compute; congruence) eq_refl) as (w'&H&Hv).
  exists w'. split; [exact H|].
  assert (lof (thread_lists (kern_in demo_pipe)) (QPop the_pipe) = []) as E1 by (vm_compute; reflexivity).
  assert (lof (thread_lists (kern_in demo_pipe)) (QPush the_pipe) = []) as E2 by (vm_compute; reflexivity).
  rewrite E1, E2 in Hv. exact Hv.
Defined.

Lemma rt_pipe_init_correct_witness : ∃ w',
  rt_pipe_init 1 2 3 the_pipe pipe_name 3 (Some (replicate 8 0)) 8 board = Ok RT_EOK w' ∧
  pipe_shows the_pipe 8 3 w' (PipeView [] [] []).
Proof.
  destruct (rt_pipe_init_correct 1 2 3 board the_pipe pipe_name 3 (replicate 8 0) 8 empty_device)
    as [H _].
  - discriminate.
  - vm_compute. reflexivity.
  - apply kinv_b_sound. vm_compute. reflexivity.
  - apply device_class_b_sound. vm_compute. reflexivity.
  - exists 5. split; [vm_compute; split; congruence|vm_compute; congruence].
  - apply not_listed_detached. vm_compute. reflexivity.
  - vm_compute. reflexivity.
  - vm_compute. reflexivity.
  - destruct H as (w'&E&Hv&_).
    + lia.
    + vm_compute. congruence.
    + vm_compute. reflexivity.
    + exists w'. exact (conj E Hv).
Defined.
