(* ===== verification/WorkQueueProof.v ===== *)
(** * Work queues run works in order

    Submitting, cancelling and taking works against a sequence of works, and two
    ways in which the code fails: a work that is cancelled after the thread was
    resumed for it, and a work that is submitted while the thread waits inside the
    function of another. *)

From S2P Require Import Prelude DList ListStore SeqLemmas KString KState Scheduler ObjectSys Timer ThreadSys Ipc WorkQueue KernelWp KernelInv System KernelCheck SchedProof TimerProof ThreadProof Clock ClockProof IpcProof SemProof ObjectProof.

Abbreviation off := (office seq_lists (seqs Z Z)).
Abbreviation WM := (W seq_lists (seqs Z Z)).

Definition owp {A} (c : WM A) (w : off) (Q : A → off → Prop) : Prop :=
  match c w with Ok a w' => Q a w' | Halt _ => False end.

Definition with_okern (k : kern) (w : off) : off :=
  Office k (work_lists w) (works w) (work_threads w).
Definition with_lists (S : seqs Z Z) (w : off) : off :=
  Office (office_kern w) S (works w) (work_threads w).

Section wp.
Context {A B : Type}.

Lemma owp_bind (c : WM A) (f : A → WM B) w Q :
  owp c w (λ a w', owp (f a) w' Q) → owp (c ≫= f) w Q.
Proof. unfold owp, mbind, W_bind. by destruct (c w). Qed.
Lemma owp_run (c : WM A) w (Q : A → off → Prop) : owp c w Q → ∃ a w', c w = Ok a w' ∧ Q a w'.
Proof. unfold owp. destruct (c w) as [a w'|]; [|done]. eauto. Qed.
Lemma owp_kern (c : M A) w (Q : A → off → Prop) :
  wp c (office_kern w) (λ a k, Q a (with_okern k w)) → owp (wkern c) w Q.
Proof. unfold wp, owp, wkern. by destruct (c (office_kern w)). Qed.
Lemma owp_opt (f : off → option A) a w (Q : A → off → Prop) : f w = Some a → Q a w → owp (wopt f) w Q.
Proof. intros E HQ. unfold owp, wopt. by rewrite E. Qed.

End wp.

Lemma owp_on_works (f : seqs Z Z → option (seqs Z Z)) S w (Q : unit → off → Prop) :
  f (work_lists w) = Some S → Q tt (with_lists S w) → owp (on_works f) w Q.
Proof. intros E HQ. unfold owp, on_works. by rewrite E. Qed.
Lemma owp_assert b w (Q : unit → off → Prop) : b = true → Q tt w → owp (W_ASSERT b) w Q.
Proof. by intros ->. Qed.

(** ** A queue in order *)

Record wq_ok (w : off) (queue t : Z) : Prop := {
  wo_null : queue ≠ RT_NULL;
  wo_inv : kinv (office_kern w);
  wo_ready : some_ready (lof (thread_lists (office_kern w)));
  wo_lock : 0 <= rt_scheduler_lock_nest (office_kern w) < 2 ^ 15 - 1;
  wo_lists : swf (work_lists w);
  wo_head : is_Some (s_lists (work_lists w) !! queue);
  wo_thread : work_threads w !! queue = Some t;
}.

(** The works that wait in the queue. *)
Definition pending (w : off) (queue : Z) : list Z := lof (work_lists w) queue.

(** A critical section around a change of the lists of works. *)
Definition locked (k : kern) : kern :=
  set_rt_scheduler_lock_nest (rt_scheduler_lock_nest k + 1) k.

Lemma wp_enter_critical (k : kern) (Q : unit → kern → Prop) :
  0 <= rt_scheduler_lock_nest k < 2 ^ 15 - 1 → Q tt (locked k) → wp rt_enter_critical k Q.
Proof.
  intros Hl HQ. unfold rt_enter_critical. wps. rewrite s16_small by (cbn; lia).
  unfold locked in HQ. by destruct k.
Qed.

(** A work at the end of a list it is not in. *)
Lemma s_add_last (s : seqs Z Z) x e : swf s → is_Some (s_lists s !! x) → detached (lof s) e →
  ∃ n s', s_prev (DList.Hd x) s = Some n ∧ s_insert_after n (El e) s = Some s' ∧
    becomes s s' (<[x := lof s x ++ [e]]> (lof s)).
Proof.
  intros Hwf Hx Hdet. rewrite s_prev_head by done.
  destruct (lof s x) as [|y l _] eqn:E using rev_ind; cbn.
  - destruct (s_prepend_spec s x e) as (s'&E'&Hb); [done..|]. exists (DList.Hd x), s'.
    rewrite E in Hb. by split_and!.
  - rewrite last_snoc. destruct (s_insert_after_spec s x e l y []) as (s'&E'&Hb); [done..|].
    exists (El y), s'. split_and!; [done..|]. by rewrite <-(assoc_L (++)).
Qed.

(** The lists when [work] goes to the end of [queue]. *)
Definition submitted (w : off) (queue work : Z) : Z → list Z :=
  <[queue := list_del work (lof (work_lists w)) queue ++ [work]]> (list_del work (lof (work_lists w))).

Lemma s_move_last (s : seqs Z Z) x e : swf s → is_Some (s_lists s !! x) → e ∈ s_elems s →
  ∃ s1 n s', s_remove (El e) s = Some s1 ∧ s_prev (DList.Hd x) s1 = Some n ∧
    s_insert_after n (El e) s1 = Some s' ∧
    becomes s s' (<[x := list_del e (lof s) x ++ [e]]> (list_del e (lof s))).
Proof.
  intros Hwf Hx He. destruct (s_remove_spec s e Hwf He) as (s1&E1&Hb1).
  destruct (s_add_last s1 x e) as (n&s'&En&E2&Hb2);
    [apply Hb1|by apply (bc_heads _ _ _ Hb1)| |].
  { intros y. rewrite (bc_lof _ _ _ Hb1). apply list_del_detached. }
  exists s1, n, s'. split_and!; [done..|]. split.
  - apply Hb2.
  - intros y. rewrite (bc_lof _ _ _ Hb2), (bc_lof _ _ _ Hb1). destruct (decide (y = x)) as [->|].
    + by rewrite !fn_lookup_insert.
    + rewrite !fn_lookup_insert_ne by done. apply (bc_lof _ _ _ Hb1).
  - intros y Hy. by apply (bc_elems _ _ _ Hb2), (bc_elems _ _ _ Hb1).
  - intros y Hy. by apply (bc_heads _ _ _ Hb2), (bc_heads _ _ _ Hb1).
Qed.

Lemma same_kinv (k k' : kern) : kinv k → same_but_current k k' → kinv k'.
Proof. intros HI Hs. destruct Hs. by apply (kinv_at_irrelevant 0 k). Qed.

Section calls.
Context (w : off) (queue t : Z) (th : rt_thread) (Hok : wq_ok w queue t).
Context (Ht : threads (office_kern w) !! t = Some th).
Context (work : Z) (Hwork : work ≠ RT_NULL) (Hinit : work ∈ s_elems (work_lists w)).

Let k := office_kern w.

Lemma owp_dowork (Q : Z → off → Prop) :
  (th_stat th = RT_THREAD_READY → ∀ k' S, same_but_current k k' →
     becomes (work_lists w) S (submitted w queue work) → Q RT_EOK (with_lists S (with_okern k' w))) →
  (th_stat th = RT_THREAD_SUSPEND → ∀ k1 k2 k' S, same_but_current k k1 → woken 0 k1 t th k2 →
     scheduled k2 k' →
     becomes (work_lists w) S (submitted w queue work) → Q RT_EOK (with_lists S (with_okern k' w))) →
  th_stat th = RT_THREAD_READY ∨ th_stat th = RT_THREAD_SUSPEND →
  owp (rt_workqueue_dowork queue work) w Q.
Proof using All.
  intros H1 H2 Hst. pose proof Hok as [Hn I Hr Hl Hwf Hh Hth].
  destruct (s_move_last (work_lists w) queue work Hwf Hh Hinit) as (S1&n&S&E1&En&E2&Hb).
  unfold rt_workqueue_dowork. apply owp_bind, owp_assert; [by apply bool_decide_true|].
  apply owp_bind, owp_assert; [by apply bool_decide_true|].
  apply owp_bind, owp_kern, wp_enter_critical; [done|].
  apply owp_bind. eapply owp_on_works; [exact E1|].
  apply owp_bind. eapply owp_opt; [exact En|]. apply owp_bind. eapply owp_on_works; [exact E2|].
  apply owp_bind. eapply owp_opt; [exact Hth|]. apply owp_bind, owp_kern. eapply wp_get_thread; [exact Ht|].
  apply owp_bind. case_bool_decide as Hs.
  - destruct Hst as [|Hst]; [done|]. apply owp_bind, owp_kern.
    apply (wp_exit_critical k); [done|done|done|]. intros k1 Hk1 _.
    apply owp_bind, owp_kern.
    eapply (wp_resume 0 k1 t th (same_kinv _ _ I Hk1)); [by rewrite (sc_threads _ _ Hk1)|done|].
    intros k2 Hk2. apply owp_kern. eapply wp_schedule_any; [apply Hk2| |].
    { eapply some_ready_ext; [apply Hk2|]. apply some_ready_enqueue.
      by apply (thread_ok 0 k t th I Ht). }
    intros k' Hk'. by eapply H2.
  - apply owp_kern. apply (wp_exit_critical k); [done|done|done|]. intros k' Hk' _.
    apply H1; [by destruct (decide (th_stat th = RT_THREAD_READY))|done|done].
Qed.

Lemma owp_cancel (Q : Z → off → Prop) :
  (∀ k' S, same_but_current k k' → becomes (work_lists w) S (list_del work (lof (work_lists w))) →
     Q RT_EOK (with_lists S (with_okern k' w))) →
  owp (rt_workqueue_cancel_work queue work) w Q.
Proof using Hok Hwork Hinit.
  intros HQ. pose proof Hok as [Hn I Hr Hl Hwf Hh Hth].
  destruct (s_remove_spec (work_lists w) work Hwf Hinit) as (S&E&Hb).
  unfold rt_workqueue_cancel_work. apply owp_bind, owp_assert; [by apply bool_decide_true|].
  apply owp_bind, owp_assert; [by apply bool_decide_true|].
  apply owp_bind, owp_kern, wp_enter_critical; [done|].
  apply owp_bind. eapply owp_on_works; [exact E|].
  apply owp_bind, owp_kern. apply (wp_exit_critical k); [done|done|done|]. intros k' Hk' _. by apply HQ.
Qed.

End calls.

(** ** The queue in order after a call *)

Lemma wq_ok_same (w : off) queue t k' S L : wq_ok w queue t → same_but_current (office_kern w) k' →
  becomes (work_lists w) S L → wq_ok (with_lists S (with_okern k' w)) queue t.
Proof.
  intros [Hn I Hr Hl Hwf Hh Hth] Hs Hb. split; cbn; [done|by eapply same_kinv| | |apply Hb| |done].
  - by rewrite (sc_lists _ _ Hs).
  - by rewrite (sc_lock _ _ Hs).
  - by apply (bc_heads _ _ _ Hb).
Qed.

Lemma wq_ok_woken (w : off) queue t th k1 k2 k' S L : wq_ok w queue t →
  threads (office_kern w) !! t = Some th → same_but_current (office_kern w) k1 →
  woken 0 k1 t th k2 → scheduled k2 k' → becomes (work_lists w) S L →
  wq_ok (with_lists S (with_okern k' w)) queue t ∧
  threads k' !! t = Some (set_th_stat RT_THREAD_READY th) ∧ sems k' = sems (office_kern w) ∧
  ∀ y, waiting_queue y → t ∉ lof (thread_lists k') y.
Proof.
  intros [Hn I Hr Hl Hwf Hh Hth] Ht Hs1 Hw Hs2 Hb. pose proof (scheduled_same _ _ Hs2) as Hs2'.
  pose proof (mv_rest _ _ _ _ _ _ _ Hw) as Hrest. split_and!.
  - split; cbn; [done|by eapply scheduled_inv; [apply Hw|]| | |apply Hb|by apply (bc_heads _ _ _ Hb)|done].
    + rewrite (sc_lists _ _ Hs2'). eapply some_ready_ext; [apply Hw|]. apply some_ready_enqueue.
      by apply (thread_ok 0 (office_kern w) t th I Ht).
    + by rewrite (sc_lock _ _ Hs2'), (sr_lock _ _ Hrest), (sc_lock _ _ Hs1).
  - rewrite (sc_threads _ _ Hs2'), (mv_threads _ _ _ _ _ _ _ Hw). apply lookup_insert_eq.
  - by rewrite (sc_sems _ _ Hs2'), (sr_sems _ _ Hrest), (sc_sems _ _ Hs1).
  - intros y Hy. rewrite (sc_lists _ _ Hs2'), (mv_lists _ _ _ _ _ _ _ Hw). unfold enqueue.
    rewrite fn_lookup_insert_ne by (by intros <-). apply list_del_detached.
Qed.

Lemma submitted_pending w queue work :
  submitted w queue work queue = filter (λ x, x ≠ work) (pending w queue) ++ [work].
Proof. unfold submitted. by rewrite fn_lookup_insert. Qed.

Lemma owp_dowork_ok (w : off) queue t th work : wq_ok w queue t →
  threads (office_kern w) !! t = Some th →
  th_stat th = RT_THREAD_READY ∨ th_stat th = RT_THREAD_SUSPEND →
  work ≠ RT_NULL → work ∈ s_elems (work_lists w) →
  owp (rt_workqueue_dowork queue work) w (λ r w', r = RT_EOK ∧ wq_ok w' queue t ∧
    pending w' queue = filter (λ x, x ≠ work) (pending w queue) ++ [work] ∧
    threads (office_kern w') !! t = Some (set_th_stat RT_THREAD_READY th) ∧
    work ∈ s_elems (work_lists w') ∧ works w' = works w ∧
    sems (office_kern w') = sems (office_kern w) ∧
    (th_stat th = RT_THREAD_SUSPEND → ∀ y, waiting_queue y → t ∉ lof (thread_lists (office_kern w')) y)).
Proof.
  intros Hok Ht Hst Hn Hin. eapply owp_dowork; [done..| | |done].
  - intros Hs k' S Hs' Hb. split_and!; cbn; [done|by eapply wq_ok_same|..].
    + unfold pending at 1. cbn. by rewrite (bc_lof _ _ _ Hb), submitted_pending.
    + rewrite (sc_threads _ _ Hs'), Ht. f_equal. rewrite <-Hs. by destruct th.
    + by apply (bc_elems _ _ _ Hb).
    + done.
    + apply (sc_sems _ _ Hs').
    + by rewrite Hs.
  - intros Hs k1 k2 k' S Hs1 Hw Hs2 Hb.
    destruct (wq_ok_woken w queue t th k1 k2 k' S _ Hok Ht Hs1 Hw Hs2 Hb) as (Hok'&Ht'&Hsem&Hout).
    split_and!; cbn; [done|done| |done| |done|done|done].
    + unfold pending at 1. cbn. by rewrite (bc_lof _ _ _ Hb), submitted_pending.
    + by apply (bc_elems _ _ _ Hb).
Qed.

Lemma owp_cancel_ok (w : off) queue t work : wq_ok w queue t → work ≠ RT_NULL →
  work ∈ s_elems (work_lists w) →
  owp (rt_workqueue_cancel_work queue work) w (λ r w', r = RT_EOK ∧ wq_ok w' queue t ∧
    pending w' queue = filter (λ x, x ≠ work) (pending w queue) ∧
    threads (office_kern w') = threads (office_kern w)).
Proof.
  intros Hok Hn Hin. eapply owp_cancel; [done..|]. intros k' S Hs Hb.
  split_and!; cbn; [done|by eapply wq_ok_same| |apply (sc_threads _ _ Hs)].
  unfold pending at 1. cbn. by rewrite (bc_lof _ _ _ Hb).
Qed.

(** The thread takes the first work. *)
Lemma take_first run (w : off) queue t work rest wk : wq_ok w queue t →
  pending w queue = work :: rest → works w !! work = Some wk →
  ∃ k' S, same_but_current (office_kern w) k' ∧
    becomes (work_lists w) S (list_del work (lof (work_lists w))) ∧
    workqueue_take run queue w =
      run (work_func wk) work (work_data wk) (with_lists S (with_okern k' w)).
Proof.
  intros [Hn I Hr Hl Hwf Hh Hth] Hp Hwk. unfold pending in Hp.
  destruct (s_remove_spec (work_lists w) work Hwf) as (S&E&Hb).
  { apply (swf_elems _ Hwf queue). rewrite Hp. left. }
  destruct (wp_run rt_enter_critical (office_kern w) (λ _ k, k = locked (office_kern w)))
    as ([]&k1&E1&->); [by apply wp_enter_critical|].
  destruct (wp_run rt_exit_critical (locked (office_kern w)) (λ _ k, same_but_current (office_kern w) k))
    as ([]&k'&E2&Hs); [by apply wp_exit_critical|].
  exists k', S. split_and!; [done..|].
  pose proof (s_next_head _ _ Hh) as En. rewrite Hp in En.
  unfold workqueue_take, mbind, W_bind, wkern, wopt, on_works. rewrite E1. cbn in En |- *. rewrite En.
  cbn in E |- *. rewrite E. cbn. rewrite E2. cbn. by rewrite Hwk.
Qed.

(** The thread takes the head of an empty list for a work. *)
Lemma take_empty run (w : off) queue t : wq_ok w queue t → pending w queue = [] →
  workqueue_take run queue w = Halt Hpointer.
Proof.
  intros [Hn I Hr Hl Hwf Hh Hth] Hp.
  destruct (wp_run rt_enter_critical (office_kern w) (λ _ k, k = locked (office_kern w)))
    as ([]&k1&E&->); [by apply wp_enter_critical|].
  unfold workqueue_take, mbind, W_bind, wkern, wopt. rewrite E. cbn.
  pose proof (s_next_head _ _ Hh) as En. unfold pending in Hp. rewrite Hp in En. cbn in En.
  by rewrite En.
Qed.

(** C18: A work queue is a sequence of works: a work that is submitted goes to its end,
    also when it was in it already, and the thread is made ready; one that is
    cancelled leaves it; the thread takes the first and runs its function.  When
    there is none the thread follows a pointer that is not to a work. *)
Theorem workqueue_refines_sequence run (w : off) queue t th work : wq_ok w queue t →
  threads (office_kern w) !! t = Some th →
  th_stat th = RT_THREAD_READY ∨ th_stat th = RT_THREAD_SUSPEND →
  work ≠ RT_NULL → work ∈ s_elems (work_lists w) →
  (∃ w', rt_workqueue_dowork queue work w = Ok RT_EOK w' ∧ wq_ok w' queue t ∧
     pending w' queue = filter (λ x, x ≠ work) (pending w queue) ++ [work] ∧
     threads (office_kern w') !! t = Some (set_th_stat RT_THREAD_READY th)) ∧
  (∃ w', rt_workqueue_cancel_work queue work w = Ok RT_EOK w' ∧ wq_ok w' queue t ∧
     pending w' queue = filter (λ x, x ≠ work) (pending w queue)) ∧
  match pending w queue with
  | [] => workqueue_take run queue w = Halt Hpointer
  | first :: rest => ∀ wk, works w !! first = Some wk → ∃ w',
      workqueue_take run queue w = run (work_func wk) first (work_data wk) w' ∧
      wq_ok w' queue t ∧ pending w' queue = rest
  end.
Proof.
  intros Hok Ht Hst Hn Hin. split_and!.
  - destruct (owp_run _ _ _ (owp_dowork_ok w queue t th work Hok Ht Hst Hn Hin))
      as (r&w'&E&->&?&?&?&_). by exists w'.
  - destruct (owp_run _ _ _ (owp_cancel_ok w queue t work Hok Hn Hin)) as (r&w'&E&->&?&?&_).
    by exists w'.
  - destruct (pending w queue) as [|first rest] eqn:Ep; [by eapply take_empty|]. intros wk Hwk.
    destruct (take_first run w queue t first rest wk Hok Ep Hwk) as (k'&S&Hs&Hb&E).
    eexists. split_and!; [exact E|by eapply wq_ok_same|].
    unfold pending in *. cbn. rewrite (bc_lof _ _ _ Hb).
    pose proof (swf_nodup _ (wo_lists _ _ _ Hok) queue) as Hnd. rewrite Ep in Hnd.
    apply (list_del_split _ _ _ []); [exact Ep|apply not_elem_of_nil|]. by apply NoDup_cons in Hnd as [? _].
Qed.

(** A work that is submitted to a waiting thread and cancelled before the thread
    runs leaves the thread ready with no work: it follows a bad pointer. *)
Theorem cancelled_work_crashes run (w : off) queue t th work : wq_ok w queue t →
  threads (office_kern w) !! t = Some th → th_stat th = RT_THREAD_SUSPEND →
  work ≠ RT_NULL → work ∈ s_elems (work_lists w) → pending w queue = [] →
  ∃ w1 w2, rt_workqueue_dowork queue work w = Ok RT_EOK w1 ∧
    rt_workqueue_cancel_work queue work w1 = Ok RT_EOK w2 ∧
    threads (office_kern w2) !! t = Some (set_th_stat RT_THREAD_READY th) ∧
    workqueue_take run queue w2 = Halt Hpointer.
Proof.
  intros Hok Ht Hst Hn Hin Hp.
  destruct (owp_run _ _ _ (owp_dowork_ok w queue t th work Hok Ht (or_intror Hst) Hn Hin))
    as (r&w1&E1&->&Hok1&Hp1&Ht1&Hin1&_).
  destruct (owp_run _ _ _ (owp_cancel_ok w1 queue t work Hok1 Hn Hin1)) as (r&w2&E2&->&Hok2&Hp2&Ht2).
  exists w1, w2. split_and!; [done|done|by rewrite Ht2|]. eapply take_empty; [done|].
  rewrite Hp2, Hp1, Hp. cbn. rewrite decide_False; [done|]. tauto.
Qed.

(** A work that is submitted while the thread waits for a semaphore inside the
    function of another work ends that wait: the thread is ready, and the call of
    [rt_sem_take] returns success, although the semaphore was not released. *)
Theorem submitted_work_breaks_wait (w : off) queue t th work sem : wq_ok w queue t →
  threads (office_kern w) !! t = Some th → th_stat th = RT_THREAD_SUSPEND → th_error th = RT_EOK →
  t ∈ lof (thread_lists (office_kern w)) (QSuspend (OSem sem)) →
  work ≠ RT_NULL → work ∈ s_elems (work_lists w) →
  ∃ w', rt_workqueue_dowork queue work w = Ok RT_EOK w' ∧
    sems (office_kern w') = sems (office_kern w) ∧
    (t ∉ lof (thread_lists (office_kern w')) (QSuspend (OSem sem))) ∧
    rt_sem_take_resumed t (office_kern w') = Ok RT_EOK (office_kern w').
Proof.
  intros Hok Ht Hst He Hwait Hn Hin.
  destruct (owp_run _ _ _ (owp_dowork_ok w queue t th work Hok Ht (or_intror Hst) Hn Hin))
    as (r&w'&E&->&_&_&Ht'&_&_&Hsem&Hout).
  exists w'. split_and!; [done|done|by apply Hout|].
  destruct (wp_run (rt_sem_take_resumed t) (office_kern w') (λ r k, (r = RT_EOK) ∧ (k = office_kern w')))
    as (r&k&Ek&->&->); [|done].
  unfold rt_sem_take_resumed. apply wp_bind. eapply wp_get_thread; [exact Ht'|]. cbn. rewrite He.
  by rewrite bool_decide_false by tauto.
Qed.

(** ** A thread that waits inside of a work *)

Definition work_queue : Z := 0x20005a00.
Definition the_work : Z := 0x20005a20.

(** The thread of the queue waits for a semaphore; one work is initialised. *)
Definition demo_office : off :=
  Office (demo [Call (CSemTake the_sem (-1))])
    (Seqs {[work_queue := []]} {[the_work]}) {[the_work := Work 1 2]} {[work_queue := thread_a]}.

Lemma demo_office_ok : wq_ok demo_office work_queue thread_a.
Proof.
  split.
  - discriminate.
  - apply kinv_b_sound. vm_compute. reflexivity.
  - exists 5. split; vm_compute; [split; congruence|congruence].
  - vm_compute. split; congruence.
  - apply swf_b_sound. vm_compute. reflexivity.
  - apply (bool_decide_unpack (is_Some _)). vm_compute. reflexivity.
  - vm_compute. reflexivity.
Qed.

Lemma the_work_there : the_work ∈ s_elems (work_lists demo_office).
Proof. apply (bool_decide_unpack (the_work ∈ _)). vm_compute. reflexivity. Qed.

Lemma demo_worker : ∃ th, threads (office_kern demo_office) !! thread_a = Some th ∧
  th_stat th = RT_THREAD_SUSPEND ∧ th_error th = RT_EOK.
Proof.
  destruct (threads (office_kern demo_office) !! thread_a) as [th|] eqn:E; [|vm_compute in E; discriminate E].
  exists th. vm_compute in E. injection E as <-. split; [reflexivity|]. split; reflexivity.
Qed.

Lemma workqueue_refines_sequence_witness : ∃ w',
  rt_workqueue_dowork work_queue the_work demo_office = Ok RT_EOK w' ∧
  pending w' work_queue = [the_work].
Proof.
  destruct demo_worker as (th&Ht&Hs&_).
  destruct (workqueue_refines_sequence (λ _ _ _, mret tt) demo_office work_queue thread_a th the_work
    demo_office_ok Ht (or_intror Hs) ltac:(discriminate) the_work_there) as ((w'&E&_&Hp&_)&_).
  exists w'. exact (conj E Hp).
Defined.

Lemma cancelled_work_crashes_witness : ∃ w1 w2,
  rt_workqueue_dowork work_queue the_work demo_office = Ok RT_EOK w1 ∧
  rt_workqueue_cancel_work work_queue the_work w1 = Ok RT_EOK w2 ∧
  workqueue_take (λ _ _ _, mret tt) work_queue w2 = Halt Hpointer.
Proof.
  destruct demo_worker as (th&Ht&Hs&_).
  destruct (cancelled_work_crashes (λ _ _ _, mret tt) demo_office work_queue thread_a th the_work
    demo_office_ok Ht Hs ltac:(discriminate) the_work_there eq_refl) as (w1&w2&E1&E2&_&E3).
  exists w1, w2. exact (conj E1 (conj E2 E3)).
Defined.

Lemma submitted_work_breaks_wait_witness : ∃ w',
  rt_workqueue_dowork work_queue the_work demo_office = Ok RT_EOK w' ∧
  sems (office_kern w') = sems (office_kern demo_office) ∧
  rt_sem_take_resumed thread_a (office_kern w') = Ok RT_EOK (office_kern w').
Proof.
  destruct demo_worker as (th&Ht&Hs&He).
  destruct (submitted_work_breaks_wait demo_office work_queue thread_a th the_work the_sem
    demo_office_ok Ht Hs He) as (w'&E&Hsem&_&Hr).
  - apply (bool_decide_unpack (thread_a ∈ _)). vm_compute. reflexivity.
  - discriminate.
  - exact the_work_there.
  - exists w'. exact (conj E (conj Hsem Hr)).
Defined.
