(* ===== verification/FinshNode.v ===== *)
(** * The syntax trees of the shell (components/finsh)

    The types of finsh.h and finsh_node.h, and the compiler state.  A node is given
    with its child and its sibling, the two pointers of [struct finsh_node]. *)

From S2P Require Import Prelude.

(** ** Types and nodes *)

Inductive finsh_type : Type :=
| finsh_type_unknown | finsh_type_void | finsh_type_voidp
| finsh_type_char | finsh_type_uchar | finsh_type_charp
| finsh_type_short | finsh_type_ushort | finsh_type_shortp
| finsh_type_int | finsh_type_uint | finsh_type_intp
| finsh_type_long | finsh_type_ulong | finsh_type_longp.

#[global] Instance finsh_type_eq_dec : EqDecision finsh_type.
Proof. solve_decision. Defined.

(** The number of a type, as a byte. *)
Definition type_code (t : finsh_type) : Z :=
  match t with
  | finsh_type_unknown => 0 | finsh_type_void => 1 | finsh_type_voidp => 2
  | finsh_type_char => 3 | finsh_type_uchar => 4 | finsh_type_charp => 5
  | finsh_type_short => 6 | finsh_type_ushort => 7 | finsh_type_shortp => 8
  | finsh_type_int => 9 | finsh_type_uint => 10 | finsh_type_intp => 11
  | finsh_type_long => 12 | finsh_type_ulong => 13 | finsh_type_longp => 14
  end.

Inductive node_kind : Type :=
| FINSH_NODE_ID
| FINSH_NODE_VALUE_CHAR | FINSH_NODE_VALUE_INT | FINSH_NODE_VALUE_LONG
| FINSH_NODE_VALUE_STRING | FINSH_NODE_VALUE_NULL
| FINSH_NODE_SYS_ADD | FINSH_NODE_SYS_SUB | FINSH_NODE_SYS_MUL | FINSH_NODE_SYS_DIV
| FINSH_NODE_SYS_MOD | FINSH_NODE_SYS_AND | FINSH_NODE_SYS_OR | FINSH_NODE_SYS_XOR
| FINSH_NODE_SYS_BITWISE | FINSH_NODE_SYS_SHL | FINSH_NODE_SYS_SHR
| FINSH_NODE_SYS_FUNC | FINSH_NODE_SYS_ASSIGN | FINSH_NODE_SYS_CAST
| FINSH_NODE_SYS_PREINC | FINSH_NODE_SYS_PREDEC | FINSH_NODE_SYS_INC | FINSH_NODE_SYS_DEC
| FINSH_NODE_SYS_GETVALUE | FINSH_NODE_SYS_GETADDR | FINSH_NODE_SYS_NULL.

#[global] Instance node_kind_eq_dec : EqDecision node_kind.
Proof. solve_decision. Defined.

Definition FINSH_DATA_TYPE_VOID : Z := 0.
Definition FINSH_DATA_TYPE_BYTE : Z := 1.
Definition FINSH_DATA_TYPE_WORD : Z := 2.
Definition FINSH_DATA_TYPE_DWORD : Z := 3.

Definition FINSH_NODE_VALUE : Z := 0.

Definition FINSH_IDTYPE_VAR : Z := 1.
Definition FINSH_IDTYPE_SYSVAR : Z := 2.
Definition FINSH_IDTYPE_SYSCALL : Z := 4.
Definition FINSH_IDTYPE_ADDRESS : Z := 8.

(** What the pointer [id] of a node points to: a variable of the shell, at an
    address and with a type; a system variable, whose entry has an address, a type
    and the address of the variable; or a function, whose entry has an address and
    the address of the function.  The entries do not change while a line is
    processed. *)
Inductive ident : Type :=
| IdNull
| IdVar (var : Z) (type : finsh_type)
| IdSysvar (entry : Z) (type : finsh_type) (var : Z)
| IdSyscall (entry : Z) (func : Z).

#[global] Instance ident_eq_dec : EqDecision ident.
Proof. solve_decision. Defined.

(** [struct finsh_node] without its links; [value] holds the union as a word. *)
Record finsh_node : Type := FNode {
  node_type : node_kind;
  data_type : Z;
  idtype : Z;
  value : Z;
  id : ident;
}.

Definition set_data_type v n := FNode (node_type n) v (idtype n) (value n) (id n).
Definition set_idtype v n := FNode (node_type n) (data_type n) v (value n) (id n).

Inductive tree : Type :=
| Null
| Tree (n : finsh_node) (child sibling : tree).

Definition finsh_node_child (t : tree) : tree :=
  match t with Null => Null | Tree _ c _ => c end.
Definition finsh_node_sibling (t : tree) : tree :=
  match t with Null => Null | Tree _ _ s => s end.
Definition set_sibling (t s : tree) : tree :=
  match t with Null => Null | Tree n c _ => Tree n c s end.

(** ** Errors *)

Definition FINSH_ERROR_OK : Z := 0.
Definition FINSH_ERROR_INVALID_TOKEN : Z := 1.
Definition FINSH_ERROR_EXPECT_TYPE : Z := 2.
Definition FINSH_ERROR_UNKNOWN_TYPE : Z := 3.
Definition FINSH_ERROR_VARIABLE_EXIST : Z := 4.
Definition FINSH_ERROR_EXPECT_OPERATOR : Z := 5.
Definition FINSH_ERROR_MEMORY_FULL : Z := 6.
Definition FINSH_ERROR_UNKNOWN_NODE : Z := 8.
Definition FINSH_ERROR_EXPECT_CHAR : Z := 9.
Definition FINSH_ERROR_UNEXPECT_END : Z := 10.
Definition FINSH_ERROR_UNKNOWN_TOKEN : Z := 11.
Definition FINSH_ERROR_UNKNOWN_SYMBOL : Z := 13.
Definition FINSH_ERROR_NULL_NODE : Z := 14.
