(* ===== verification/FinshVm.v ===== *)
(** * The virtual machine of the shell (components/finsh)

    [finsh_vm_run] of finsh_vm.c and the operations of finsh_ops.c.  The stack is
    an array of words, the text segment one of bytes; both are separate from the
    memory in which the variables are.  An access outside the stack, the text or
    the memory, an opcode without an operation, and what C leaves undefined
    (division by zero, shifts by less than 0 or more than 31) are [None]; signed
    arithmetic that overflows wraps.

    The functions the shell can call are the parameter [call]: the function at an
    address, given its arguments and the memory, returns a value and a memory. *)

From S2P Require Import Prelude KString.

(** ** Values *)

Definition FINSH_STACK_MAX : Z := 64.
Definition FINSH_TEXT_MAX : Z := 128.

(** The suffixes _byte, _word and _dword of the operations. *)
Inductive width : Type := BYTE | WORD | DWORD.

#[global] Instance width_eq_dec : EqDecision width.
Proof. solve_decision. Defined.

(** [union finsh_value]: a word, of which [char_value] is the low byte and
    [short_value] the low half; a [char] is unsigned on this processor. *)
Definition get_value (w : width) (x : Z) : Z :=
  match w with BYTE => u8 x | WORD => s16 x | DWORD => s32 x end.
Definition set_value (w : width) (x v : Z) : Z :=
  match w with BYTE => x - u8 x + u8 v | WORD => x - u16 x + u16 v | DWORD => u32 v end.

(** What the pointer [a] to a [char], a [short] or a [long] points to. *)
Definition load_value (w : width) (m : mem) (a : Z) : option Z :=
  match w with
  | BYTE => v ← load m a; Some (u8 v)
  | WORD => v ← load16 m a; Some (s16 v)
  | DWORD => v ← load32 m a; Some (s32 v)
  end.
Definition store_value (w : width) (m : mem) (a v : Z) : option mem :=
  match w with
  | BYTE => store m a v
  | WORD => store16 m a v
  | DWORD => store32 m a v
  end.

(** ** State *)

Record vm : Type := Vm {
  vmem : mem;
  finsh_vm_stack : list Z;
  text_segment : list Z;
  finsh_sp : Z;
  finsh_pc : Z;
}.

Definition set_vmem v s := Vm v (finsh_vm_stack s) (text_segment s) (finsh_sp s) (finsh_pc s).
Definition set_stack v s := Vm (vmem s) v (text_segment s) (finsh_sp s) (finsh_pc s).
Definition set_sp v s := Vm (vmem s) (finsh_vm_stack s) (text_segment s) v (finsh_pc s).
Definition set_pc v s := Vm (vmem s) (finsh_vm_stack s) (text_segment s) (finsh_sp s) v.

Definition VM (A : Type) : Type := vm → option (A * vm).

#[global] Instance V_ret : MRet VM := λ A a s, Some (a, s).
#[global] Instance V_bind : MBind VM := λ A B f c s,
  match c s with Some (a, s') => f a s' | None => None end.

Definition vget {A} (f : vm → A) : VM A := λ s, Some (f s, s).
Definition vset (f : vm → vm) : VM unit := λ s, Some (tt, f s).
Definition vlift {A} (o : option A) : VM A := λ s,
  match o with Some a => Some (a, s) | None => None end.
Definition vread {A} (f : mem → option A) : VM A := λ s,
  match f (vmem s) with Some a => Some (a, s) | None => None end.
Definition vwrite (f : mem → option mem) : VM unit := λ s,
  match f (vmem s) with Some m => Some (tt, set_vmem m s) | None => None end.

(** [finsh_sp[i]]. *)
Definition slot (i : Z) : VM Z := λ s,
  match arr_get (finsh_sp s + i) (finsh_vm_stack s) with Some x => Some (x, s) | None => None end.
Definition put_slot (i x : Z) : VM unit := λ s,
  match arr_set (finsh_sp s + i) x (finsh_vm_stack s) with
  | Some l => Some (tt, set_stack l s)
  | None => None
  end.
Definition move_sp (d : Z) : VM unit := vset (λ s, set_sp (finsh_sp s + d) s).
Definition move_pc (d : Z) : VM unit := vset (λ s, set_pc (finsh_pc s + d) s).

(** [finsh_pc[i]], [FINSH_GET16(finsh_pc)] and [FINSH_GET32(finsh_pc)]. *)
Definition code_byte (i : Z) : VM Z := λ s,
  match arr_get (finsh_pc s + i) (text_segment s) with Some x => Some (x, s) | None => None end.
Definition FINSH_GET16 : VM Z :=
  b0 ← code_byte 0; b1 ← code_byte 1; mret (Z.lor b0 (Z.shiftl b1 8)).
Definition FINSH_GET32 : VM Z :=
  b0 ← code_byte 0; b1 ← code_byte 1; b2 ← code_byte 2; b3 ← code_byte 3;
  mret (Z.lor (Z.lor (Z.lor b0 (Z.shiftl b1 8)) (Z.shiftl b2 16)) (Z.shiftl b3 24)).

(** ** Operations *)

Inductive binop : Type := Add | Sub | Div | Mod | Mul | And | Or | Xor | Shl | Shr.

#[global] Instance binop_eq_dec : EqDecision binop.
Proof. solve_decision. Defined.

(** The operators on [int] and [long], to which the operands are promoted. *)
Definition arith (op : binop) (a b : Z) : option Z :=
  match op with
  | Add => Some (s32 (a + b))
  | Sub => Some (s32 (a - b))
  | Mul => Some (s32 (a * b))
  | Div => if bool_decide (b = 0 ∨ a = - 2 ^ 31 ∧ b = -1) then None else Some (Z.quot a b)
  | Mod => if bool_decide (b = 0 ∨ a = - 2 ^ 31 ∧ b = -1) then None else Some (Z.rem a b)
  | And => Some (Z.land a b)
  | Or => Some (Z.lor a b)
  | Xor => Some (Z.lxor a b)
  | Shl => if bool_decide (0 <= b < 32) then Some (s32 (Z.shiftl a b)) else None
  | Shr => if bool_decide (0 <= b < 32) then Some (Z.shiftr a b) else None
  end.

(** [OP_BIN_BYTE], [OP_BIN_WORD] and [OP_BIN_DWORD]. *)
Definition OP_BIN (w : width) (op : binop) : VM unit :=
  x ← slot (-2); y ← slot (-1);
  v ← vlift (arith op (get_value w x) (get_value w y));
  put_slot (-2) (set_value w x v);;
  move_sp (-1).

Definition OP_no_op : VM unit := mret tt.

Definition OP_bw (w : width) : VM unit :=
  x ← slot (-1); put_slot (-1) (set_value w x (Z.lnot (get_value w x))).

Definition OP_ld (w : width) : VM unit :=
  x ← slot 0;
  v ← match w with BYTE => code_byte 0 | WORD => FINSH_GET16 | DWORD => FINSH_GET32 end;
  put_slot 0 (set_value w x v);;
  move_sp 1;;
  move_pc (match w with BYTE => 1 | WORD => 2 | DWORD => 4 end).

Definition OP_ld_value (w : width) : VM unit :=
  a ← FINSH_GET32;
  v ← vread (λ m, load_value w m a);
  x ← slot 0;
  put_slot 0 (set_value w x v);;
  move_sp 1;;
  move_pc 4.

Definition OP_ld_value_stack (w : width) : VM unit :=
  x ← slot (-1);
  v ← vread (λ m, load_value w m (u32 x));
  put_slot (-1) (set_value w x v).

Definition OP_st (w : width) : VM unit :=
  x ← slot (-2); y ← slot (-1);
  vwrite (λ m, store_value w m (u32 x) (get_value w y));;
  move_sp (-1).

Definition OP_pop : VM unit := move_sp (-1).

(** The loop that takes the arguments from the stack, the last one first;
    [parameterv] has room for 16. *)
Fixpoint take_parameters (n : nat) (args : list Z) : VM (list Z) :=
  match n with
  | O => mret args
  | S n => x ← slot 0; move_sp (-1);; take_parameters n (s32 x :: args)
  end.

Section call.
Context (call : Z → list Z → mem → option (Z * mem)).

Definition OP_call : VM unit :=
  n ← code_byte 0; move_pc 1;;
  move_sp (-1);;
  (if bool_decide (n <= 16) then mret tt else vlift None);;
  args ← take_parameters (Z.to_nat n) [];
  f ← slot 0;
  m ← vget vmem;
  '(r, m) ← vlift (call (u32 f) (if bool_decide (n = 0) then [0] else args) m);
  vset (set_vmem m);;
  put_slot 0 (u32 r);;
  move_sp 1.

(** [op_table]. *)
Definition op_table (op : Z) : VM unit :=
  match op with
  | 0 => OP_no_op
  | 1 => OP_BIN BYTE Add | 2 => OP_BIN WORD Add | 3 => OP_BIN DWORD Add
  | 4 => OP_BIN BYTE Sub | 5 => OP_BIN WORD Sub | 6 => OP_BIN DWORD Sub
  | 7 => OP_BIN BYTE Div | 8 => OP_BIN WORD Div | 9 => OP_BIN DWORD Div
  | 10 => OP_BIN BYTE Mod | 11 => OP_BIN WORD Mod | 12 => OP_BIN DWORD Mod
  | 13 => OP_BIN BYTE Mul | 14 => OP_BIN WORD Mul | 15 => OP_BIN DWORD Mul
  | 16 => OP_BIN BYTE And | 17 => OP_BIN WORD And | 18 => OP_BIN DWORD And
  | 19 => OP_BIN BYTE Or | 20 => OP_BIN WORD Or | 21 => OP_BIN DWORD Or
  | 22 => OP_BIN BYTE Xor | 23 => OP_BIN WORD Xor | 24 => OP_BIN DWORD Xor
  | 25 => OP_bw BYTE | 26 => OP_bw WORD | 27 => OP_bw DWORD
  | 28 => OP_BIN BYTE Shl | 29 => OP_BIN WORD Shl | 30 => OP_BIN DWORD Shl
  | 31 => OP_BIN BYTE Shr | 32 => OP_BIN WORD Shr | 33 => OP_BIN DWORD Shr
  | 34 => OP_ld BYTE | 35 => OP_ld WORD | 36 => OP_ld DWORD
  | 37 => OP_ld_value BYTE | 38 => OP_ld_value WORD | 39 => OP_ld_value DWORD
  | 40 => OP_st BYTE | 41 => OP_st WORD | 42 => OP_st DWORD
  | 43 => OP_pop
  | 44 => OP_call
  | 45 => OP_ld_value_stack BYTE | 46 => OP_ld_value_stack WORD | 47 => OP_ld_value_stack DWORD
  | _ => vlift None
  end.

(** ** The machine *)

(** The loop of [finsh_vm_run].  No operation moves [finsh_pc] back, so a round per
    byte of the text is enough. *)
Fixpoint vm_loop (fuel : nat) : VM unit :=
  match fuel with
  | O => vlift None
  | S fuel =>
      pc ← vget finsh_pc;
      if bool_decide (0 <= pc < FINSH_TEXT_MAX) then
        op ← code_byte 0;
        move_pc 1;;
        op_table op;;
        vm_loop fuel
      else mret tt
  end.

Definition finsh_vm_run : VM unit :=
  vset (set_sp 0);;
  vset (set_pc 0);;
  vm_loop (S (Z.to_nat FINSH_TEXT_MAX)).

End call.

Definition finsh_stack_bottom (s : vm) : option Z :=
  x ← arr_get 0 (finsh_vm_stack s); Some (s32 x).
