(* ===== verification/FinshCompiler.v ===== *)
(** * The compiler of the shell (components/finsh/finsh_compiler.c)

    [finsh_type_check] and [finsh_compile] as written, over the trees of
    [FinshNode].  The code is written into the text segment without a check of its
    size: a write beyond its end is [None]. *)

From S2P Require Import Prelude FinshNode FinshVm.

(** ** State *)

Record cstate : Type := CState {
  ctext : list Z;
  finsh_compile_pc : Z;
  global_errno : Z;
}.

Definition C (A : Type) : Type := cstate → option (A * cstate).

#[global] Instance C_ret : MRet C := λ A a s, Some (a, s).
#[global] Instance C_bind : MBind C := λ A B f c s,
  match c s with Some (a, s') => f a s' | None => None end.

Definition cfail {A} : C A := λ _, None.
Definition finsh_error_set (e : Z) : C unit := λ s,
  Some (tt, CState (ctext s) (finsh_compile_pc s) e).

Definition finsh_code_byte (x : Z) : C unit := λ s,
  match arr_set (finsh_compile_pc s) (u8 x) (ctext s) with
  | Some l => Some (tt, CState l (finsh_compile_pc s + 1) (global_errno s))
  | None => None
  end.
(** [FINSH_SET16] and [FINSH_SET32]. *)
Definition finsh_code_word (x : Z) : C unit :=
  finsh_code_byte (Z.land x 0xff);; finsh_code_byte (Z.shiftr x 8).
Definition finsh_code_dword (x : Z) : C unit :=
  let x := u32 x in
  finsh_code_byte (Z.land x 0xff);; finsh_code_byte (Z.land (Z.shiftr x 8) 0xff);;
  finsh_code_byte (Z.land (Z.shiftr x 16) 0xff);; finsh_code_byte (Z.shiftr x 24).

(** ** Opcodes (finsh_ops.h) *)

(** The opcodes of an operation for the three widths follow each other. *)
Definition nth_width (w : width) : Z := match w with BYTE => 0 | WORD => 1 | DWORD => 2 end.
Definition FINSH_OP_BIN (op : binop) (w : width) : Z :=
  nth_width w +
  match op with
  | Add => 0x01 | Sub => 0x04 | Div => 0x07 | Mod => 0x0A | Mul => 0x0D
  | And => 0x10 | Or => 0x13 | Xor => 0x16 | Shl => 0x1C | Shr => 0x1F
  end.
Definition FINSH_OP_BITWISE (w : width) : Z := nth_width w + 0x19.
Definition FINSH_OP_LD (w : width) : Z := nth_width w + 0x22.
Definition FINSH_OP_LD_VALUE (w : width) : Z := nth_width w + 0x25.
Definition FINSH_OP_ST (w : width) : Z := nth_width w + 0x28.
Definition FINSH_OP_POP : Z := 0x2B.
Definition FINSH_OP_SYSCALL : Z := 0x2C.
Definition FINSH_OP_LD_VALUE_STACK (w : width) : Z := nth_width w + 0x2D.

(** ** Types *)

(** The type of the value of a variable; [None]: the default case. *)
Definition data_type_of (t : finsh_type) : option Z :=
  match t with
  | finsh_type_void => Some FINSH_DATA_TYPE_VOID
  | finsh_type_char | finsh_type_uchar => Some FINSH_DATA_TYPE_BYTE
  | finsh_type_short | finsh_type_ushort => Some FINSH_DATA_TYPE_WORD
  | finsh_type_int | finsh_type_uint | finsh_type_long | finsh_type_ulong => Some FINSH_DATA_TYPE_DWORD
  | finsh_type_charp | finsh_type_voidp | finsh_type_shortp | finsh_type_intp
  | finsh_type_longp => Some FINSH_DATA_TYPE_DWORD
  | finsh_type_unknown => None
  end.

Definition set_var_type (n : finsh_node) (t : finsh_type) : C finsh_node :=
  match data_type_of t with
  | Some d => mret (set_data_type d n)
  | None => finsh_error_set FINSH_ERROR_UNKNOWN_TYPE;; mret n
  end.

(** A node without a child. *)
Definition check_leaf (n : finsh_node) : C finsh_node :=
  match node_type n with
  | FINSH_NODE_ID =>
      if bool_decide (Z.land (idtype n) FINSH_IDTYPE_VAR ≠ 0) then
        match id n with
        | IdVar _ t => set_var_type n t
        | IdNull => mret n
        | _ => cfail
        end
      else if bool_decide (Z.land (idtype n) FINSH_IDTYPE_SYSVAR ≠ 0) then
        match id n with
        | IdSysvar _ t _ => set_var_type n t
        | IdNull => mret n
        | _ => cfail
        end
      else mret n
  | FINSH_NODE_VALUE_CHAR => mret (set_data_type FINSH_DATA_TYPE_BYTE n)
  | FINSH_NODE_VALUE_INT | FINSH_NODE_VALUE_LONG | FINSH_NODE_VALUE_STRING
  | FINSH_NODE_VALUE_NULL => mret (set_data_type FINSH_DATA_TYPE_DWORD n)
  | _ => mret n
  end.

(** What the child of a node is told about itself. *)
Definition child_addr (k : node_kind) (is_addr : Z) : Z :=
  match k with
  | FINSH_NODE_SYS_ASSIGN | FINSH_NODE_SYS_PREINC | FINSH_NODE_SYS_PREDEC
  | FINSH_NODE_SYS_GETADDR => FINSH_IDTYPE_ADDRESS
  | FINSH_NODE_SYS_GETVALUE => if bool_decide (is_addr ≠ 0) then 0 else is_addr
  | _ => is_addr
  end.

Fixpoint finsh_type_check (t : tree) (is_addr : Z) : C tree :=
  match t with
  | Null => mret Null
  | Tree n child sibling =>
      child ← finsh_type_check child (child_addr (node_type n) is_addr);
      sibling ← finsh_type_check sibling FINSH_NODE_VALUE;
      let n := if bool_decide (idtype n ≠ FINSH_IDTYPE_SYSCALL)
               then set_idtype (Z.lor (idtype n) is_addr) n else n in
      match child with
      | Tree c _ _ => mret (Tree (set_data_type (data_type c) n) child sibling)
      | Null => n ← check_leaf n; mret (Tree n Null sibling)
      end
  end.

(** ** Code generation *)

(** Code for one of the three data types, nothing for another. *)
Definition with_width (d : Z) (c : width → C unit) (otherwise : C unit) : C unit :=
  if bool_decide (d = FINSH_DATA_TYPE_BYTE) then c BYTE
  else if bool_decide (d = FINSH_DATA_TYPE_WORD) then c WORD
  else if bool_decide (d = FINSH_DATA_TYPE_DWORD) then c DWORD
  else otherwise.

(** The width of the load of a variable; there is none of a [void] pointer. *)
Definition load_width (t : finsh_type) : option width :=
  match t with
  | finsh_type_char | finsh_type_uchar => Some BYTE
  | finsh_type_short | finsh_type_ushort => Some WORD
  | finsh_type_int | finsh_type_uint | finsh_type_long | finsh_type_ulong
  | finsh_type_charp | finsh_type_shortp | finsh_type_intp | finsh_type_longp => Some DWORD
  | finsh_type_unknown | finsh_type_void | finsh_type_voidp => None
  end.

(** [offsetof(struct finsh_var, value)]. *)
Definition VALUE_OFFSET : Z := 20.

Definition compile_load (t : finsh_type) (idtype a : Z) : C unit :=
  match load_width t with
  | Some w =>
      finsh_code_byte (if bool_decide (Z.land idtype FINSH_IDTYPE_ADDRESS ≠ 0)
                       then FINSH_OP_LD DWORD else FINSH_OP_LD_VALUE w);;
      finsh_code_dword a
  | None => mret tt
  end.

Definition compile_id (n : finsh_node) : C unit :=
  if bool_decide (Z.land (idtype n) FINSH_IDTYPE_SYSCALL ≠ 0) then
    match id n with
    | IdSyscall _ f => finsh_code_byte (FINSH_OP_LD DWORD);; finsh_code_dword f
    | _ => cfail
    end
  else if bool_decide (Z.land (idtype n) FINSH_IDTYPE_SYSVAR ≠ 0) then
    match id n with
    | IdSysvar _ t a => compile_load t (idtype n) a
    | IdNull => mret tt
    | _ => cfail
    end
  else
    match id n with
    | IdVar p t => compile_load t (idtype n) (p + VALUE_OFFSET)
    | IdNull => mret tt
    | _ => cfail
    end.

Definition compile_bin (op : binop) (n : finsh_node) : C unit :=
  with_width (data_type n) (λ w, finsh_code_byte (FINSH_OP_BIN op w)) (mret tt).

(** [node->id.var], whatever the entry is. *)
Definition id_pointer (i : ident) : option Z :=
  match i with
  | IdNull => None
  | IdVar p _ => Some p
  | IdSysvar p _ _ => Some p
  | IdSyscall p _ => Some p
  end.

Definition is_kind (k : node_kind) (t : tree) : option finsh_node :=
  match t with
  | Tree n _ _ => if bool_decide (node_type n = k) then Some n else None
  | Null => None
  end.

(** Stores a value and loads it again. *)
Definition compile_store (w : width) : C unit :=
  finsh_code_byte (FINSH_OP_ST w);; finsh_code_byte (FINSH_OP_LD_VALUE_STACK w).

Definition compile_assign (child : tree) : C unit :=
  match child with
  | Null => cfail
  | Tree c _ _ =>
      match node_type c with
      | FINSH_NODE_ID =>
          with_width (data_type c) compile_store (finsh_error_set FINSH_ERROR_UNKNOWN_TYPE)
      | FINSH_NODE_SYS_GETVALUE =>
          with_width (Z.land (data_type c) 0x0F) compile_store
            (finsh_error_set FINSH_ERROR_UNKNOWN_TYPE)
      | _ => mret tt
      end
  end.

(** The value at [a] with one added or subtracted. *)
Definition compile_step (op : binop) (a : Z) (w : width) : C unit :=
  finsh_code_byte (FINSH_OP_LD_VALUE w);; finsh_code_dword a;;
  finsh_code_byte (FINSH_OP_LD w);;
  match w with BYTE => finsh_code_byte 1 | WORD => finsh_code_word 1 | DWORD => finsh_code_dword 1 end;;
  finsh_code_byte (FINSH_OP_BIN op w);;
  finsh_code_byte (FINSH_OP_ST w).

(** PREINC and PREDEC: the address is on the stack. *)
Definition compile_pre (op : binop) (n : finsh_node) (child : tree) : C unit :=
  match is_kind FINSH_NODE_ID child with
  | Some c =>
      match id_pointer (id c) with
      | Some p =>
          with_width (data_type n) (λ w,
            compile_step op (p + VALUE_OFFSET) w;; finsh_code_byte (FINSH_OP_LD_VALUE_STACK DWORD))
            (mret tt)
      | None => cfail
      end
  | None => mret tt
  end.

(** INC and DEC: the value is on the stack. *)
Definition compile_post (op : binop) (n : finsh_node) (child : tree) : C unit :=
  match is_kind FINSH_NODE_ID child with
  | Some c =>
      match id_pointer (id c) with
      | Some p =>
          with_width (data_type n) (λ w,
            finsh_code_byte (FINSH_OP_LD DWORD);; finsh_code_dword (p + VALUE_OFFSET);;
            compile_step op (p + VALUE_OFFSET) w;; finsh_code_byte FINSH_OP_POP)
            (mret tt)
      | None => cfail
      end
  | None => mret tt
  end.

Fixpoint count_siblings (t : tree) : Z :=
  match t with Null => 0 | Tree _ _ s => 1 + count_siblings s end.

Definition compile_func (child : tree) : C unit :=
  match child with
  | Null => mret tt
  | Tree _ _ s => finsh_code_byte FINSH_OP_SYSCALL;; finsh_code_byte (count_siblings s)
  end.

Definition compile_getvalue (n : finsh_node) : C unit :=
  if bool_decide (Z.land (idtype n) FINSH_IDTYPE_ADDRESS ≠ 0) then mret tt
  else with_width (data_type n) (λ w, finsh_code_byte (FINSH_OP_LD_VALUE_STACK w)) (mret tt).

(** The switch of [finsh_compile]. *)
Definition compile_node (n : finsh_node) (child : tree) : C unit :=
  match node_type n with
  | FINSH_NODE_ID => compile_id n
  | FINSH_NODE_VALUE_CHAR => finsh_code_byte (FINSH_OP_LD BYTE);; finsh_code_byte (value n)
  | FINSH_NODE_VALUE_INT | FINSH_NODE_VALUE_LONG | FINSH_NODE_VALUE_NULL
  | FINSH_NODE_VALUE_STRING => finsh_code_byte (FINSH_OP_LD DWORD);; finsh_code_dword (value n)
  | FINSH_NODE_SYS_ADD => compile_bin Add n
  | FINSH_NODE_SYS_SUB => compile_bin Sub n
  | FINSH_NODE_SYS_MUL => compile_bin Mul n
  | FINSH_NODE_SYS_DIV => compile_bin Div n
  | FINSH_NODE_SYS_MOD => compile_bin Mod n
  | FINSH_NODE_SYS_AND => compile_bin And n
  | FINSH_NODE_SYS_OR => compile_bin Or n
  | FINSH_NODE_SYS_XOR => compile_bin Xor n
  | FINSH_NODE_SYS_BITWISE =>
      with_width (data_type n) (λ w, finsh_code_byte (FINSH_OP_BITWISE w)) (mret tt)
  | FINSH_NODE_SYS_SHL => compile_bin Shl n
  | FINSH_NODE_SYS_SHR => compile_bin Shr n
  | FINSH_NODE_SYS_FUNC => compile_func child
  | FINSH_NODE_SYS_ASSIGN => compile_assign child
  | FINSH_NODE_SYS_PREINC => compile_pre Add n child
  | FINSH_NODE_SYS_PREDEC => compile_pre Sub n child
  | FINSH_NODE_SYS_INC => compile_post Add n child
  | FINSH_NODE_SYS_DEC => compile_post Sub n child
  | FINSH_NODE_SYS_NULL => finsh_code_dword 0
  | FINSH_NODE_SYS_GETVALUE => compile_getvalue n
  | FINSH_NODE_SYS_GETADDR => mret tt
  | FINSH_NODE_SYS_CAST => finsh_error_set FINSH_ERROR_UNKNOWN_NODE
  end.

Fixpoint finsh_compile (t : tree) : C unit :=
  match t with
  | Null => mret tt
  | Tree n child sibling => finsh_compile child;; compile_node n child;; finsh_compile sibling
  end.

(** The loop of [finsh_compiler_run] over the statements. *)
Fixpoint compile_statements (t : tree) : C unit :=
  match t with
  | Null => mret tt
  | Tree n child sibling =>
      finsh_compile (Tree n child Null);;
      match sibling with Null => mret tt | _ => finsh_code_byte FINSH_OP_POP end;;
      compile_statements sibling
  end.

(** The text and the first word of the stack are cleared; returns the stack. *)
Definition finsh_compiler_run (t : tree) (stack : list Z) : C (list Z) :=
  t ← finsh_type_check t FINSH_NODE_VALUE;
  (λ s, Some (tt, CState (replicate (Z.to_nat FINSH_TEXT_MAX) 0) 0 (global_errno s)));;
  match arr_set 0 0 stack with
  | Some stack => compile_statements t;; mret stack
  | None => cfail
  end.
