(* ===== verification/FinshToken.v ===== *)
(** * The tokens of the shell (components/finsh/finsh_token.c)

    The tokeniser as written: a line is the bytes before its terminator; the
    buffer [string] has [FINSH_STRING_MAX] bytes, the buffers of
    [token_proc_number] and [token_proc_char] 128 and 4, and a write beyond their
    end is [None].  A [char] is unsigned on this processor. *)

From Stdlib Require String Ascii.
From S2P Require Import Prelude KString FinshNode FinshVm.
Import String.StringSyntax.
#[local] Open Scope string_scope.
#[local] Open Scope Z_scope.

Definition FINSH_NAME_MAX : Z := 16.
Definition FINSH_STRING_MAX : Z := 128.

(** ** State *)

Inductive token_type : Type :=
| finsh_token_type_none
| finsh_token_type_left_paren | finsh_token_type_right_paren | finsh_token_type_comma
| finsh_token_type_semicolon | finsh_token_type_mul | finsh_token_type_add
| finsh_token_type_inc | finsh_token_type_sub | finsh_token_type_dec | finsh_token_type_div
| finsh_token_type_mod | finsh_token_type_assign | finsh_token_type_and | finsh_token_type_or
| finsh_token_type_xor | finsh_token_type_bitwise | finsh_token_type_shl | finsh_token_type_shr
| finsh_token_type_void | finsh_token_type_char | finsh_token_type_short | finsh_token_type_int
| finsh_token_type_long | finsh_token_type_unsigned
| finsh_token_type_value_char | finsh_token_type_value_int | finsh_token_type_value_long
| finsh_token_type_value_string | finsh_token_type_value_null
| finsh_token_type_identifier | finsh_token_type_bad | finsh_token_type_eof.

#[global] Instance token_type_eq_dec : EqDecision token_type.
Proof. solve_decision. Defined.

(** [struct finsh_token]; the union [value] is a word. *)
Record finsh_token : Type := FToken {
  eof : bool;
  replay : bool;
  position : Z;
  current_token : token_type;
  tvalue : Z;
  tstring : list Z;
  line : list Z;
}.

Definition set_eof v t := FToken v (replay t) (position t) (current_token t) (tvalue t) (tstring t) (line t).
Definition set_replay v t := FToken (eof t) v (position t) (current_token t) (tvalue t) (tstring t) (line t).
Definition set_position v t := FToken (eof t) (replay t) v (current_token t) (tvalue t) (tstring t) (line t).
Definition set_current v t := FToken (eof t) (replay t) (position t) v (tvalue t) (tstring t) (line t).
Definition set_tvalue v t := FToken (eof t) (replay t) (position t) (current_token t) v (tstring t) (line t).
Definition set_string v t := FToken (eof t) (replay t) (position t) (current_token t) (tvalue t) v (line t).

(** A variable of the shell: [name] without its terminator.  The values of the
    variables are in the memory. *)
Record finsh_var : Type := FVar { vname : list Z; vtype : finsh_type }.

(** What the parser works on: the token and the error number; how many entries of
    the node table are in use (they are taken in order and given back together);
    the table of variables; the memory, with the heap of the shell and its lists. *)
Record pstate : Type := PState {
  tok : finsh_token;
  perrno : Z;
  pnodes : Z;
  global_variable : list finsh_var;
  pmem : mem;
  free_list : Z;
  allocate_list : Z;
}.

Definition set_tok v s := PState v (perrno s) (pnodes s) (global_variable s) (pmem s) (free_list s) (allocate_list s).
Definition set_perrno v s := PState (tok s) v (pnodes s) (global_variable s) (pmem s) (free_list s) (allocate_list s).
Definition set_pnodes v s := PState (tok s) (perrno s) v (global_variable s) (pmem s) (free_list s) (allocate_list s).
Definition set_vars v s := PState (tok s) (perrno s) (pnodes s) v (pmem s) (free_list s) (allocate_list s).
Definition set_pmem v s := PState (tok s) (perrno s) (pnodes s) (global_variable s) v (free_list s) (allocate_list s).
Definition set_free v s := PState (tok s) (perrno s) (pnodes s) (global_variable s) (pmem s) v (allocate_list s).
Definition set_alloc v s := PState (tok s) (perrno s) (pnodes s) (global_variable s) (pmem s) (free_list s) v.

Definition P (A : Type) : Type := pstate → option (A * pstate).

#[global] Instance P_ret : MRet P := λ A a s, Some (a, s).
#[global] Instance P_bind : MBind P := λ A B f c s,
  match c s with Some (a, s') => f a s' | None => None end.

Definition pfail {A} : P A := λ _, None.
Definition pget {A} (f : pstate → A) : P A := λ s, Some (f s, s).
Definition pset (f : pstate → pstate) : P unit := λ s, Some (tt, f s).
Definition tget {A} (f : finsh_token → A) : P A := λ s, Some (f (tok s), s).
Definition tset (f : finsh_token → finsh_token) : P unit := λ s, Some (tt, set_tok (f (tok s)) s).
Definition plift {A} (o : option A) : P A := λ s,
  match o with Some a => Some (a, s) | None => None end.
Definition error_set (e : Z) : P unit := pset (set_perrno e).

(** [self->string[i] = c]. *)
Definition put_string (i c : Z) : P unit :=
  l ← tget tstring; l ← plift (arr_set i c l); tset (set_string l).

(** ** Characters *)

(** Bounds on the unsigned difference to a character. *)
Definition is_alpha (ch : Z) : bool := bool_decide (u32 (Z.lor ch 0x20 - 97) < 26).
(** [is_digit] of finsh_token.c; kservice.c has one of its own. *)
Definition finsh_is_digit (ch : Z) : bool := bool_decide (48 <= ch <= 57).
Definition is_xdigit (ch : Z) : bool := finsh_is_digit ch || bool_decide (u32 (Z.lor ch 0x20 - 97) < 6).
Definition is_octal (ch : Z) : bool := bool_decide (u32 (ch - 48) < 8).
Definition is_separator (ch : Z) : bool :=
  negb (bool_decide (97 <= ch <= 122) || bool_decide (65 <= ch <= 90) || bool_decide (48 <= ch <= 57)
        || bool_decide (ch = 95)).

Definition token_next_char : P Z :=
  e ← tget eof;
  if e : bool then mret 0
  else
    pos ← tget position;
    l ← tget line;
    if bool_decide (pos = zlen l) then
      tset (set_eof true);; tset (set_position 0);; mret 0
    else
      ch ← plift (arr_get pos l);
      if bool_decide (ch = 10) then
        tset (set_eof true);; tset (set_position 0);; mret 0
      else
        tset (set_position (pos + 1));; mret ch.

Definition token_prev_char : P unit :=
  e ← tget eof;
  if e : bool then mret tt
  else
    pos ← tget position;
    if bool_decide (pos = 0) then mret tt else tset (set_position (pos - 1)).

(** Every loop over characters takes one per round, and stops at the end. *)
Definition line_fuel : P nat := l ← tget line; mret (S (S (length l))).

(** ** Names *)

Fixpoint trim_loop (fuel : nat) : P unit :=
  match fuel with
  | O => pfail
  | S fuel =>
      ch ← token_next_char;
      if bool_decide (ch = 32 ∨ ch = 9 ∨ ch = 13) then trim_loop fuel else mret tt
  end.

Definition token_trim_space : P unit :=
  n ← line_fuel; trim_loop n;; token_prev_char.

Fixpoint get_string_loop (fuel : nat) (i ch : Z) : P Z :=
  match fuel with
  | O => pfail
  | S fuel =>
      e ← tget eof;
      if negb (is_separator ch) && negb e then
        put_string i ch;;
        ch ← token_next_char;
        get_string_loop fuel (i + 1) ch
      else mret i
  end.

(** The result, -1 or 0, is not used. *)
Definition token_get_string : P unit :=
  ch ← token_next_char;
  e ← tget eof;
  if e : bool then mret tt
  else
    put_string 0 0;;
    if finsh_is_digit ch then token_prev_char
    else
      n ← line_fuel;
      i ← get_string_loop n 0 ch;
      tset (set_eof false);;
      token_prev_char;;
      put_string i 0.

Definition chars (s : String.string) : list Z :=
  (λ a, Z.of_nat (Ascii.nat_of_ascii a)) <$> String.list_ascii_of_string s.

Definition finsh_name_table : list (list Z * token_type) :=
  [(chars "void", finsh_token_type_void);
   (chars "char", finsh_token_type_char);
   (chars "short", finsh_token_type_short);
   (chars "int", finsh_token_type_int);
   (chars "long", finsh_token_type_long);
   (chars "unsigned", finsh_token_type_unsigned);
   (chars "NULL", finsh_token_type_value_null);
   (chars "null", finsh_token_type_value_null)].

Fixpoint match_name (table : list (list Z * token_type)) (str : list Z) : option token_type :=
  match table with
  | [] => None
  | (name, t) :: table => if bool_decide (name = str) then Some t else match_name table str
  end.

Definition token_match_name : P bool :=
  l ← tget tstring; str ← plift (cstring l);
  match match_name finsh_name_table str with
  | Some t => tset (set_current t);; mret true
  | None => mret false
  end.

(** ** Characters and strings *)

Fixpoint proc_char_loop (fuel : nat) (p ch : Z) : P Z :=
  match fuel with
  | O => pfail
  | S fuel =>
      if finsh_is_digit ch then
        ch ← token_next_char;
        (if bool_decide (p < 4) then mret tt else pfail);;
        proc_char_loop fuel (p + 1) ch
      else mret p
  end.

(** The number of [atoi] starts at the terminator of the buffer. *)
Definition token_proc_char : P Z :=
  ch ← token_next_char;
  ch ← (if bool_decide (ch = 92) then
          ch ← token_next_char;
          match ch with
          | 110 => mret 10
          | 116 => mret 9
          | 118 => mret 11
          | 98 => mret 8
          | 114 => mret 13
          | 92 => mret 92
          | 39 => mret 39
          | _ =>
              n ← line_fuel;
              p ← proc_char_loop n 0 ch;
              token_prev_char;;
              (if bool_decide (p < 4) then mret tt else pfail);;
              mret 0
          end
        else mret ch);
  next ← token_next_char;
  if bool_decide (next ≠ 39) then
    token_prev_char;; error_set FINSH_ERROR_EXPECT_CHAR;; mret ch
  else mret ch.

Fixpoint hex_loop (fuel : nat) (result ch : Z) : P Z :=
  match fuel with
  | O => pfail
  | S fuel =>
      if is_xdigit ch then
        let result := result * 16 + (if bool_decide (ch < 65) then ch - 48 else Z.lor ch 0x20 - 97 + 10) in
        ch ← token_next_char; hex_loop fuel result ch
      else mret result
  end.

Fixpoint octal_loop (fuel : nat) (result ch : Z) : P Z :=
  match fuel with
  | O => pfail
  | S fuel =>
      if is_octal ch then
        let result := result * 8 + ch - 48 in
        ch ← token_next_char; octal_loop fuel result ch
      else mret result
  end.

(** The result is used as a [char]. *)
Definition token_proc_escape : P Z :=
  ch ← token_next_char;
  match ch with
  | 110 => mret 10
  | 116 => mret 9
  | 118 => mret 11
  | 98 => mret 8
  | 114 => mret 13
  | 102 => mret 12
  | 97 => mret 7
  | 34 => mret 34
  | 120 | 88 =>
      ch ← token_next_char;
      n ← line_fuel; r ← hex_loop n 0 ch; token_prev_char;; mret (u8 r)
  | _ =>
      if is_octal ch then n ← line_fuel; r ← octal_loop n 0 ch; token_prev_char;; mret (u8 r)
      else mret 0
  end.

(** The loop of [token_proc_string], with a round per byte of the buffer. *)
Fixpoint proc_string_loop (fuel : nat) (p : Z) : P unit :=
  match fuel with
  | O => mret tt
  | S fuel =>
      ch ← token_next_char;
      e ← tget eof;
      if e : bool then error_set FINSH_ERROR_UNEXPECT_END
      else if bool_decide (ch = 34) then put_string p 0
      else
        ch ← (if bool_decide (ch = 92) then token_proc_escape else mret ch);
        put_string p ch;;
        proc_string_loop fuel (p + 1)
  end.
Definition token_proc_string : P unit := proc_string_loop (Z.to_nat FINSH_STRING_MAX) 0.

(** ** Numbers *)

(** Collects characters into [buf]; returns what follows them too. *)
Fixpoint collect (fuel : nat) (ok : Z → bool) (buf : list Z) (ch : Z) : P (list Z * Z) :=
  match fuel with
  | O => pfail
  | S fuel =>
      if ok ch then
        (if bool_decide (zlen buf < 128) then mret tt else pfail);;
        c ← token_next_char; collect fuel ok (buf ++ [ch]) c
      else
        (if bool_decide (zlen buf < 128) then mret tt else pfail);; mret (buf, ch)
  end.

Definition BN_SIZE : nat := 2.

(** The inner loop: shifts the digit [t] into the words from the lowest one. *)
Fixpoint bn_shift (shift t : Z) (bn : list Z) : list Z :=
  match bn with
  | [] => []
  | v :: bn => Z.lor (u32 (Z.shiftl v shift)) (u32 t) :: bn_shift shift (Z.shiftr v (32 - shift)) bn
  end.

Definition digit_value (t : Z) : Z :=
  if bool_decide (97 <= t <= 102) then t - 97 + 10
  else if bool_decide (65 <= t <= 70) then t - 65 + 10
  else t - 48.

Definition token_spec_number (buf : list Z) (b : Z) : Z :=
  let shift := match b with 16 => 4 | 8 => 3 | _ => 1 end in
  let bn := fold_left (λ bn t, bn_shift shift (digit_value t) bn) buf (replicate BN_SIZE 0) in
  s32 (default 0 (head bn)).

Fixpoint decimal_loop (fuel : nat) (value ch : Z) : P (Z * Z) :=
  match fuel with
  | O => pfail
  | S fuel =>
      if finsh_is_digit ch then
        let value := s32 (value * 10 + (ch - 48)) in
        ch ← token_next_char; decimal_loop fuel value ch
      else mret (value, ch)
  end.

Definition set_int (v : Z) : P unit :=
  tset (set_tvalue (u32 v));; tset (set_current finsh_token_type_value_int).

(** What may follow the digits. *)
Definition number_suffix (ch : Z) : P unit :=
  if bool_decide (ch = 108 ∨ ch = 76) then tset (set_current finsh_token_type_value_long)
  else token_prev_char.

Definition token_proc_number : P unit :=
  n ← line_fuel;
  ch ← token_next_char;
  if bool_decide (ch = 48) then
    ch ← token_next_char;
    if bool_decide (ch = 120 ∨ ch = 88) then
      ch ← token_next_char;
      '(buf, ch) ← collect n (λ c, finsh_is_digit c || is_alpha c) [] ch;
      set_int (token_spec_number buf 16);; number_suffix ch
    else if bool_decide (ch = 98 ∨ ch = 66) then
      ch ← token_next_char;
      '(buf, ch) ← collect n (λ c, bool_decide (c = 48 ∨ c = 49)) [] ch;
      set_int (token_spec_number buf 2);; number_suffix ch
    else if bool_decide (48 <= ch <= 55) then
      '(buf, ch) ← collect n (λ c, bool_decide (48 <= c <= 55)) [] ch;
      set_int (token_spec_number buf 8);; number_suffix ch
    else token_prev_char;; set_int 0
  else
    '(value, ch) ← decimal_loop n 0 ch;
    set_int value;; number_suffix ch.

(** ** Tokens *)

(** An operator of one character or of two. *)
Definition two_chars (second : Z) (double single : token_type) : P unit :=
  ch ← token_next_char;
  if bool_decide (ch = second) then tset (set_current double)
  else token_prev_char;; tset (set_current single).

Definition token_operator : P unit :=
  ch ← token_next_char;
  match ch with
  | 40 => tset (set_current finsh_token_type_left_paren)
  | 41 => tset (set_current finsh_token_type_right_paren)
  | 44 => tset (set_current finsh_token_type_comma)
  | 59 => tset (set_current finsh_token_type_semicolon)
  | 38 => tset (set_current finsh_token_type_and)
  | 42 => tset (set_current finsh_token_type_mul)
  | 43 => two_chars 43 finsh_token_type_inc finsh_token_type_add
  | 45 => two_chars 45 finsh_token_type_dec finsh_token_type_sub
  | 47 => two_chars 47 finsh_token_type_eof finsh_token_type_div
  | 60 => two_chars 60 finsh_token_type_shl finsh_token_type_bad
  | 62 => two_chars 62 finsh_token_type_shr finsh_token_type_bad
  | 124 => tset (set_current finsh_token_type_or)
  | 37 => tset (set_current finsh_token_type_mod)
  | 126 => tset (set_current finsh_token_type_bitwise)
  | 94 => tset (set_current finsh_token_type_xor)
  | 61 => tset (set_current finsh_token_type_assign)
  | 39 =>
      c ← token_proc_char;
      tset (λ t, set_tvalue (set_value BYTE (tvalue t) c) t);;
      tset (set_current finsh_token_type_value_char)
  | 34 => token_proc_string;; tset (set_current finsh_token_type_value_string)
  | _ =>
      if finsh_is_digit ch then token_prev_char;; token_proc_number
      else error_set FINSH_ERROR_UNKNOWN_TOKEN;; tset (set_current finsh_token_type_bad)
  end.

Definition token_run : P unit :=
  token_trim_space;;
  token_get_string;;
  e ← tget eof;
  if e : bool then tset (set_current finsh_token_type_eof)
  else
    l ← tget tstring;
    c ← plift (arr_get 0 l);
    if bool_decide (c ≠ 0) then
      b ← token_match_name;
      if b : bool then mret tt else tset (set_current finsh_token_type_identifier)
    else token_operator.

Definition finsh_token_init (l : list Z) : finsh_token :=
  FToken false false 0 finsh_token_type_none 0 (replicate (Z.to_nat FINSH_STRING_MAX) 0) l.

Definition finsh_token_token : P token_type :=
  r ← tget replay;
  (if r : bool then tset (set_replay false) else token_run);;
  tget current_token.

Definition finsh_token_replay : P unit := tset (set_replay true).

(** The bytes [strncpy] copies of the string, up to its terminator. *)
Definition finsh_token_get_token : P (list Z) :=
  l ← tget tstring;
  match cstring (take (Z.to_nat FINSH_NAME_MAX) l) with
  | Some s => mret s
  | None => mret (take (Z.to_nat FINSH_NAME_MAX) l)
  end.
