(* ===== verification/FinshHeap.v ===== *)
(** * The heap and the tables of the shell (components/finsh)

    finsh_heap.c, finsh_var.c, finsh_node.c and [finsh_syscall_lookup] of
    finsh_vm.c.  The heap is [FINSH_HEAP_MAX] bytes of the memory; a block has a
    header of eight bytes with its length and the next block of its list.  A
    variable is 24 bytes, of which the last four, its value, are in the memory; the
    names and types are in the table of the state instead.  The tables that are made when the program
    is linked, the entries added to them later and the addresses of the arrays are
    parameters. *)

From S2P Require Import Prelude KString FinshNode FinshVm FinshCompiler FinshToken.

Definition FINSH_HEAP_MAX : Z := 128.
Definition FINSH_NODE_MAX : Z := 16.
Definition FINSH_VARIABLE_MAX : Z := 8.
Definition HEAP_ALIGNMENT : Z := 4.
Definition HEADER_SIZE : Z := 8.
Definition VAR_SIZE : Z := 24.

(** [struct finsh_sysvar] and [struct finsh_syscall], with their addresses. *)
Record sysvar : Type := Sysvar { sv_entry : Z; sv_name : list Z; sv_type : finsh_type; sv_var : Z }.
Record syscall : Type := Syscall { sc_entry : Z; sc_name : list Z; sc_func : Z }.

Record symbols : Type := Symbols {
  finsh_heap : Z;
  variable_base : Z;
  sysvar_table : list sysvar;
  global_sysvar_list : list sysvar;
  syscall_table : list syscall;
  global_syscall_list : list syscall;
}.

Section tables.
Context (syms : symbols).

(** ** Blocks *)

Definition pload32 (a : Z) : P Z := m ← pget pmem; plift (load32 m a).
Definition pstore32 (a v : Z) : P unit := m ← pget pmem; m ← plift (store32 m a v); pset (set_pmem m).

Definition block_length (h : Z) : P Z := pload32 h.
Definition block_next (h : Z) : P Z := pload32 (h + 4).
Definition set_block_length (h v : Z) : P unit := pstore32 h (u32 v).
Definition set_block_next (h v : Z) : P unit := pstore32 (h + 4) v.

(** A list of blocks by the variable that holds its head. *)
Inductive block_list : Type := FREE | ALLOCATED.
Definition list_head (l : block_list) : P Z :=
  match l with FREE => pget free_list | ALLOCATED => pget allocate_list end.
Definition set_list_head (l : block_list) (v : Z) : P unit :=
  match l with FREE => pset (set_free v) | ALLOCATED => pset (set_alloc v) end.

(** A list has at most as many blocks as the heap has headers. *)
Definition block_fuel : nat := S (Z.to_nat (FINSH_HEAP_MAX `div` HEADER_SIZE)).

Definition HEAP_ALIGN_SIZE (size : Z) : Z :=
  Z.land (u32 (size + HEAP_ALIGNMENT - 1)) (u32 (Z.lnot (HEAP_ALIGNMENT - 1))).

(** The loop for the insertion point. *)
Fixpoint insert_point (fuel : nat) (node header : Z) : P Z :=
  match fuel with
  | O => pfail
  | S fuel =>
      next ← block_next node;
      if bool_decide (next > header ∨ next = 0) then mret node else insert_point fuel next header
  end.

Definition finsh_block_insert (l : block_list) (header : Z) : P unit :=
  node ← list_head l;
  if bool_decide (node = 0) then set_list_head l header
  else if bool_decide (node > header) then
    set_block_next header node;; set_list_head l header
  else
    node ← insert_point block_fuel node header;
    next ← block_next node;
    (if bool_decide (next ≠ 0) then set_block_next header next else mret tt);;
    set_block_next node header.

(** The block before [header]; 0: there is none. *)
Fixpoint previous_block (fuel : nat) (node header : Z) : P Z :=
  match fuel with
  | O => pfail
  | S fuel =>
      if bool_decide (node = 0) then mret 0
      else
        next ← block_next node;
        if bool_decide (next = header) then mret node else previous_block fuel next header
  end.

Definition finsh_block_remove (l : block_list) (header : Z) : P unit :=
  node ← list_head l;
  if bool_decide (node = header) then
    next ← block_next header; set_list_head l next;; set_block_next header 0
  else
    node ← previous_block block_fuel node header;
    if bool_decide (node ≠ 0) then next ← block_next header; set_block_next node next else mret tt.

Definition finsh_block_split (header size : Z) : P unit :=
  let next := header + HEADER_SIZE + size in
  n ← block_length header;
  set_block_length next (n - HEADER_SIZE - size);;
  set_block_length header size;;
  after ← block_next header;
  set_block_next next after;;
  set_block_next header next.

Definition finsh_block_merge (l : block_list) (header : Z) : P unit :=
  next_node ← block_next header;
  first ← list_head l;
  prev_node ← (if bool_decide (first = header) then mret 0 else previous_block block_fuel first header);
  len ← block_length header;
  let next_close := bool_decide (next_node ≠ 0 ∧ header + len + HEADER_SIZE = next_node) in
  prev_len ← (if bool_decide (prev_node ≠ 0) then block_length prev_node else mret 0);
  if bool_decide (prev_node ≠ 0 ∧ prev_node + prev_len + HEADER_SIZE = header) then
    if next_close then
      next_len ← block_length next_node;
      set_block_length prev_node (prev_len + (len + next_len + 2 * HEADER_SIZE));;
      after ← block_next next_node;
      set_block_next prev_node after
    else
      set_block_length prev_node (prev_len + (len + HEADER_SIZE));;
      after ← block_next header;
      set_block_next prev_node after
  else if next_close then
    next_len ← block_length next_node;
    set_block_length header (len + (next_len + HEADER_SIZE));;
    after ← block_next next_node;
    set_block_next header after
  else mret tt.

(** ** Heap *)

Definition finsh_heap_init : P unit :=
  m ← pget pmem;
  m ← plift (set_bytes (Z.to_nat FINSH_HEAP_MAX) m (finsh_heap syms) 0);
  pset (set_pmem m);;
  set_list_head FREE (finsh_heap syms);;
  set_block_length (finsh_heap syms) (FINSH_HEAP_MAX - HEADER_SIZE);;
  set_block_next (finsh_heap syms) 0;;
  set_list_head ALLOCATED 0.

Definition finsh_heap_free (ptr : Z) : P unit :=
  let header := ptr - HEADER_SIZE in
  finsh_block_remove ALLOCATED header;;
  finsh_block_insert FREE header;;
  finsh_block_merge FREE header.

Definition variable_address (i : nat) : Z := variable_base syms + VAR_SIZE * Z.of_nat i.

(** Whether the value of a variable is the address [data]. *)
Fixpoint variable_points (vars : list finsh_var) (i : nat) (data : Z) : P bool :=
  match vars with
  | [] => mret false
  | v :: vars =>
      if bool_decide (vtype v ≠ finsh_type_unknown) then
        p ← pload32 (variable_address i + VALUE_OFFSET);
        if bool_decide (p = data) then mret true else variable_points vars (S i) data
      else variable_points vars (S i) data
  end.

Fixpoint gc_loop (fuel : nat) (header : Z) : P unit :=
  match fuel with
  | O => pfail
  | S fuel =>
      if bool_decide (header = 0) then mret tt
      else
        vars ← pget global_variable;
        used ← variable_points vars 0 (header + HEADER_SIZE);
        next ← block_next header;
        (if used : bool then mret tt else finsh_heap_free (header + HEADER_SIZE));;
        gc_loop fuel next
  end.
Definition finsh_heap_gc : P unit := h ← list_head ALLOCATED; gc_loop block_fuel h.

(** The first block whose length is at least a bound; 0: none. *)
Fixpoint first_fit (fuel : nat) (header bound : Z) : P Z :=
  match fuel with
  | O => pfail
  | S fuel =>
      if bool_decide (header = 0) then mret 0
      else
        n ← block_length header;
        if bool_decide (n < bound) then next ← block_next header; first_fit fuel next bound
        else mret header
  end.

Definition finsh_heap_allocate (size : Z) : P Z :=
  let size := HEAP_ALIGN_SIZE size in
  h ← list_head FREE;
  header ← first_fit block_fuel h (size + HEADER_SIZE + 1);
  header ← (if bool_decide (header = 0) then
              finsh_heap_gc;; h ← list_head FREE; first_fit block_fuel h (size + HEADER_SIZE)
            else mret header);
  if bool_decide (header = 0) then mret 0
  else
    finsh_block_split header size;;
    finsh_block_remove FREE header;;
    set_block_next header 0;;
    finsh_block_insert ALLOCATED header;;
    m ← pget pmem;
    m ← plift (set_bytes (Z.to_nat size) m (header + HEADER_SIZE) 0);
    pset (set_pmem m);;
    mret (header + HEADER_SIZE).

(** ** Variables *)

Fixpoint clear_values (n : nat) : P unit :=
  match n with
  | O => mret tt
  | S n => clear_values n;; pstore32 (variable_address n + VALUE_OFFSET) 0
  end.

Definition finsh_var_init : P unit :=
  clear_values (Z.to_nat FINSH_VARIABLE_MAX);;
  pset (set_vars (replicate (Z.to_nat FINSH_VARIABLE_MAX) (FVar [] finsh_type_unknown))).

(** [strncmp(a, b, FINSH_NAME_MAX) == 0]. *)
Definition same_name (a b : list Z) : bool :=
  bool_decide (take (Z.to_nat FINSH_NAME_MAX) a = take (Z.to_nat FINSH_NAME_MAX) b).

(** The first entry that satisfies [f]. *)
Fixpoint find_index {A} (f : A → bool) (l : list A) (i : nat) : option nat :=
  match l with
  | [] => None
  | a :: l => if f a then Some i else find_index f l (S i)
  end.

Definition finsh_var_insert (name : list Z) (type : finsh_type) : P Z :=
  vars ← pget global_variable;
  if bool_decide (is_Some (find_index (λ v, same_name (vname v) name) vars 0)) then mret (-1)
  else
    match find_index (λ v, bool_decide (vtype v = finsh_type_unknown)) vars 0 with
    | None => mret (-1)
    | Some i =>
        pset (set_vars (<[i := FVar (take (Z.to_nat FINSH_NAME_MAX) name) type]> vars));;
        mret (Z.of_nat i)
    end.

Definition finsh_var_delete (name : list Z) : P Z :=
  vars ← pget global_variable;
  match find_index (λ v, same_name (vname v) name) vars 0 with
  | None => mret (-1)
  | Some i =>
      pstore32 (variable_address i + VALUE_OFFSET) 0;;
      pset (set_vars (<[i := FVar [] finsh_type_unknown]> vars));;
      mret 0
  end.

(** The entry of a variable, as a node refers to it. *)
Definition finsh_var_lookup (name : list Z) : P ident :=
  vars ← pget global_variable;
  match find_index (λ v, same_name (vname v) name) vars 0 with
  | None => mret IdNull
  | Some i =>
      match vars !! i with
      | Some v => mret (IdVar (variable_address i) (vtype v))
      | None => mret IdNull
      end
  end.

(** [strncmp(a, name, strlen(name)) == 0]: [name] is the beginning of [a]. *)
Definition has_prefix (name a : list Z) : bool := bool_decide (take (length name) a = name).

Definition finsh_sysvar_lookup (name : list Z) : ident :=
  match find (λ v, bool_decide (sv_name v = name)) (sysvar_table syms) with
  | Some v => IdSysvar (sv_entry v) (sv_type v) (sv_var v)
  | None =>
      match find (λ v, has_prefix name (sv_name v)) (global_sysvar_list syms) with
      | Some v => IdSysvar (sv_entry v) (sv_type v) (sv_var v)
      | None => IdNull
      end
  end.

Definition finsh_syscall_lookup (name : list Z) : ident :=
  match find (λ c, bool_decide (sc_name c = name)) (syscall_table syms) with
  | Some c => IdSyscall (sc_entry c) (sc_func c)
  | None =>
      match find (λ c, has_prefix name (sc_name c)) (global_syscall_list syms) with
      | Some c => IdSyscall (sc_entry c) (sc_func c)
      | None => IdNull
      end
  end.

(** ** Nodes *)

Definition finsh_node_init : P unit := pset (set_pnodes 0).

(** Whether there is an entry left. *)
Definition finsh_node_allocate : P bool :=
  n ← pget pnodes;
  if bool_decide (n < FINSH_NODE_MAX) then pset (set_pnodes (n + 1));; mret true else mret false.

(** A leaf, or [Null] when the table is full. *)
Definition new_leaf (n : finsh_node) : P tree :=
  ok ← finsh_node_allocate;
  if ok : bool then mret (Tree n Null Null)
  else error_set FINSH_ERROR_MEMORY_FULL;; mret Null.

Definition FNode0 (k : node_kind) : finsh_node := FNode k 0 0 0 IdNull.

(** The buffer of the name has no terminator when the name fills it: what the
    comparison with the names of the tables reads then is not defined. *)
Definition finsh_node_new_id (name : list Z) : P tree :=
  v ← finsh_var_lookup name;
  symbol ←
    match v with
    | IdNull =>
        if bool_decide (zlen name < FINSH_NAME_MAX) then
          match finsh_sysvar_lookup name with
          | IdNull => mret (finsh_syscall_lookup name)
          | i => mret i
          end
        else pfail
    | i => mret i
    end;
  match symbol with
  | IdNull => error_set FINSH_ERROR_UNKNOWN_SYMBOL;; mret Null
  | i =>
      let type := match i with
                  | IdVar _ _ => FINSH_IDTYPE_VAR
                  | IdSysvar _ _ _ => FINSH_IDTYPE_SYSVAR
                  | _ => FINSH_IDTYPE_SYSCALL
                  end in
      new_leaf (FNode FINSH_NODE_ID 0 type 0 i)
  end.

Definition finsh_node_new_char (c : Z) : P tree := new_leaf (FNode FINSH_NODE_VALUE_CHAR 0 0 c IdNull).
Definition finsh_node_new_int (i : Z) : P tree := new_leaf (FNode FINSH_NODE_VALUE_INT 0 0 i IdNull).
Definition finsh_node_new_long (l : Z) : P tree := new_leaf (FNode FINSH_NODE_VALUE_LONG 0 0 l IdNull).
Definition finsh_node_new_ptr (p : Z) : P tree := new_leaf (FNode FINSH_NODE_VALUE_NULL 0 0 p IdNull).

(** The result of the allocation is not checked: the address 0 is outside the
    memory. *)
Fixpoint write_string (p : Z) (s : list Z) : P unit :=
  m ← pget pmem;
  match s with
  | [] => m ← plift (store m p 0); pset (set_pmem m)
  | c :: s => m ← plift (store m p c); pset (set_pmem m);; write_string (p + 1) s
  end.

Definition finsh_node_new_string (s : list Z) : P tree :=
  ok ← finsh_node_allocate;
  if ok : bool then
    p ← finsh_heap_allocate (zlen s + 1);
    write_string p s;;
    mret (Tree (FNode FINSH_NODE_VALUE_STRING 0 0 p IdNull) Null Null)
  else error_set FINSH_ERROR_MEMORY_FULL;; mret Null.

End tables.
