(* ===== verification/FinshParser.v ===== *)
(** * The parser of the shell (components/finsh/finsh_parser.c)

    The functions of the parser as written.  A pointer to a node is given by its
    tree: every node the parser makes is linked into one place.  [n] bounds the
    depth of the recursion and the rounds of the loops. *)

From S2P Require Import Prelude KString FinshNode FinshVm FinshCompiler FinshToken FinshHeap.

(** ** Trees *)

Definition with_sibling (t sib : tree) : tree :=
  match t with Null => Null | Tree n c _ => Tree n c sib end.

(** Trees linked by their siblings. *)
Definition chain (l : list tree) : tree := foldr with_sibling Null l.

Definition is_null (t : tree) : bool := match t with Null => true | _ => false end.

Section parser.
Context (syms : symbols).

Definition make_sys_node (kind : node_kind) (node1 node2 : tree) : P tree :=
  ok ← finsh_node_allocate;
  if ok && negb (is_null node1) then
    mret (Tree (FNode0 kind) (with_sibling node1 node2) Null)
  else
    error_set FINSH_ERROR_NULL_NODE;;
    mret (if ok : bool then Tree (FNode0 kind) Null Null else Null).

(** ** Tokens *)

Definition check_token (token type : token_type) : P unit :=
  if bool_decide (token ≠ type) then
    error_set FINSH_ERROR_INVALID_TOKEN;; finsh_token_replay
  else mret tt.

Definition is_base_type (token : token_type) : bool :=
  match token with
  | finsh_token_type_void | finsh_token_type_char | finsh_token_type_short
  | finsh_token_type_int | finsh_token_type_long => true
  | _ => false
  end.

Definition match_token (type : token_type) : P unit :=
  token ← finsh_token_token; check_token token type.

(** ** Types *)

Definition pointer_type (t : finsh_type) : finsh_type :=
  match t with
  | finsh_type_void => finsh_type_voidp
  | finsh_type_char | finsh_type_uchar => finsh_type_charp
  | finsh_type_short | finsh_type_ushort => finsh_type_shortp
  | finsh_type_int | finsh_type_uint => finsh_type_intp
  | finsh_type_long | finsh_type_ulong => finsh_type_longp
  | _ => finsh_type_voidp
  end.

(** [__return]. *)
Definition type_error (t : finsh_type) : P finsh_type :=
  finsh_token_replay;; error_set FINSH_ERROR_UNKNOWN_TYPE;; mret t.

Definition type_pointer (t : finsh_type) : P finsh_type :=
  token ← finsh_token_token;
  if bool_decide (token = finsh_token_type_mul) then mret (pointer_type t)
  else finsh_token_replay;; mret t.

Definition proc_type : P finsh_type :=
  token ← finsh_token_token;
  match token with
  | finsh_token_type_void => type_pointer finsh_type_void
  | finsh_token_type_char => type_pointer finsh_type_char
  | finsh_token_type_short => type_pointer finsh_type_short
  | finsh_token_type_int => type_pointer finsh_type_int
  | finsh_token_type_long => type_pointer finsh_type_long
  | finsh_token_type_unsigned =>
      token ← finsh_token_token;
      match token with
      | finsh_token_type_char => type_pointer finsh_type_uchar
      | finsh_token_type_short => type_pointer finsh_type_ushort
      | finsh_token_type_int => type_pointer finsh_type_uint
      | finsh_token_type_long => type_pointer finsh_type_ulong
      | finsh_token_type_void => type_error finsh_type_unknown
      | _ =>
          finsh_token_replay;; error_set FINSH_ERROR_EXPECT_TYPE;;
          type_pointer finsh_type_unknown
      end
  | _ => type_error finsh_type_unknown
  end.

(** The name, as far as [strncpy] copies it. *)
Definition proc_identifier : P (list Z) :=
  match_token finsh_token_type_identifier;; finsh_token_get_token.

(** ** Binary operators *)

(** A loop of the functions for the binary operators: [kind] gives the node of the
    operators of the level, [sub] is the function of the level below. *)
Fixpoint level_loop (n : nat) (sub : P tree) (kind : token_type → option node_kind) (acc : tree) : P tree :=
  match n with
  | O => pfail
  | S n =>
      token ← finsh_token_token;
      match kind token with
      | Some k =>
          new ← sub;
          acc ← (if is_null new then error_set FINSH_ERROR_EXPECT_OPERATOR;; mret acc
                 else make_sys_node k acc new);
          level_loop n sub kind acc
      | None => finsh_token_replay;; mret acc
      end
  end.

Definition level (n : nat) (sub : P tree) (kind : token_type → option node_kind) : P tree :=
  acc ← sub; level_loop n sub kind acc.

Definition mul_kinds (t : token_type) : option node_kind :=
  match t with
  | finsh_token_type_mul => Some FINSH_NODE_SYS_MUL
  | finsh_token_type_div => Some FINSH_NODE_SYS_DIV
  | finsh_token_type_mod => Some FINSH_NODE_SYS_MOD
  | _ => None
  end.
Definition add_kinds (t : token_type) : option node_kind :=
  match t with
  | finsh_token_type_sub => Some FINSH_NODE_SYS_SUB
  | finsh_token_type_add => Some FINSH_NODE_SYS_ADD
  | _ => None
  end.
Definition shift_kinds (t : token_type) : option node_kind :=
  match t with
  | finsh_token_type_shl => Some FINSH_NODE_SYS_SHL
  | finsh_token_type_shr => Some FINSH_NODE_SYS_SHR
  | _ => None
  end.
Definition and_kinds (t : token_type) : option node_kind :=
  match t with finsh_token_type_and => Some FINSH_NODE_SYS_AND | _ => None end.
Definition xor_kinds (t : token_type) : option node_kind :=
  match t with finsh_token_type_xor => Some FINSH_NODE_SYS_XOR | _ => None end.
Definition or_kinds (t : token_type) : option node_kind :=
  match t with finsh_token_type_or => Some FINSH_NODE_SYS_OR | _ => None end.

Definition proc_multiplicative_expr (n : nat) (cast : P tree) : P tree := level n cast mul_kinds.
Definition proc_additive_expr (n : nat) (cast : P tree) : P tree :=
  level n (proc_multiplicative_expr n cast) add_kinds.
Definition proc_shift_expr (n : nat) (cast : P tree) : P tree :=
  level n (proc_additive_expr n cast) shift_kinds.
Definition proc_and_expr (n : nat) (cast : P tree) : P tree :=
  level n (proc_shift_expr n cast) and_kinds.
Definition proc_exclusive_or_expr (n : nat) (cast : P tree) : P tree :=
  level n (proc_and_expr n cast) xor_kinds.
Definition proc_inclusive_or_expr (n : nat) (cast : P tree) : P tree :=
  level n (proc_exclusive_or_expr n cast) or_kinds.

(** ** Operands *)

Definition proc_primary_expr (expr : P tree) : P tree :=
  token ← finsh_token_token;
  match token with
  | finsh_token_type_identifier =>
      finsh_token_replay;; name ← proc_identifier; finsh_node_new_id syms name
  | finsh_token_type_left_paren =>
      e ← expr; match_token finsh_token_type_right_paren;; mret e
  | finsh_token_type_value_int => v ← tget tvalue; finsh_node_new_int v
  | finsh_token_type_value_long => v ← tget tvalue; finsh_node_new_long v
  | finsh_token_type_value_char => v ← tget tvalue; finsh_node_new_char (u8 v)
  | finsh_token_type_value_string =>
      l ← tget tstring; s ← plift (cstring l); finsh_node_new_string syms s
  | finsh_token_type_value_null => finsh_node_new_ptr 0
  | _ => error_set FINSH_ERROR_INVALID_TOKEN;; mret Null
  end.

(** The arguments after the first. *)
Fixpoint param_loop (n : nat) (assign : P tree) (acc : list tree) : P (list tree) :=
  match n with
  | O => pfail
  | S n =>
      token ← finsh_token_token;
      if bool_decide (token = finsh_token_type_comma) then
        next ← assign;
        if is_null next then error_set FINSH_ERROR_EXPECT_OPERATOR;; param_loop n assign acc
        else param_loop n assign (acc ++ [next])
      else finsh_token_replay;; mret acc
  end.

Definition proc_param_list (n : nat) (assign : P tree) : P tree :=
  first ← assign;
  if is_null first then mret Null
  else l ← param_loop n assign [first]; mret (chain l).

Fixpoint postfix_loop (n : nat) (assign : P tree) (postfix : tree) : P tree :=
  match n with
  | O => pfail
  | S n =>
      token ← finsh_token_token;
      match token with
      | finsh_token_type_inc =>
          t ← make_sys_node FINSH_NODE_SYS_INC postfix Null; postfix_loop n assign t
      | finsh_token_type_dec =>
          t ← make_sys_node FINSH_NODE_SYS_DEC postfix Null; postfix_loop n assign t
      | finsh_token_type_left_paren =>
          token ← finsh_token_token;
          params ← (if bool_decide (token ≠ finsh_token_type_right_paren) then
                      finsh_token_replay;;
                      l ← proc_param_list n assign;
                      match_token finsh_token_type_right_paren;;
                      mret l
                    else mret Null);
          t ← make_sys_node FINSH_NODE_SYS_FUNC postfix params;
          postfix_loop n assign t
      | _ => finsh_token_replay;; mret postfix
      end
  end.

Definition proc_postfix_expr (n : nat) (assign : P tree) : P tree :=
  postfix ← proc_primary_expr assign; postfix_loop n assign postfix.

Definition proc_unary_expr (n : nat) (cast assign : P tree) : P tree :=
  token ← finsh_token_token;
  match token with
  | finsh_token_type_add => cast
  | finsh_token_type_inc => t ← cast; make_sys_node FINSH_NODE_SYS_PREINC t Null
  | finsh_token_type_sub =>
      t ← cast; zero ← finsh_node_new_long 0; make_sys_node FINSH_NODE_SYS_SUB zero t
  | finsh_token_type_dec => t ← cast; make_sys_node FINSH_NODE_SYS_PREDEC t Null
  | finsh_token_type_bitwise => t ← cast; make_sys_node FINSH_NODE_SYS_BITWISE t Null
  | finsh_token_type_mul => t ← cast; make_sys_node FINSH_NODE_SYS_GETVALUE t Null
  | finsh_token_type_and => t ← cast; make_sys_node FINSH_NODE_SYS_GETADDR t Null
  | _ => finsh_token_replay;; proc_postfix_expr n assign
  end.

Definition set_root_type (d : Z) (t : tree) : tree :=
  match t with Null => Null | Tree n c s => Tree (set_data_type d n) c s end.

Fixpoint proc_cast_expr (n : nat) : P tree :=
  match n with
  | O => pfail
  | S n =>
      token ← finsh_token_token;
      if bool_decide (token = finsh_token_type_left_paren) then
        type ← proc_type;
        match_token finsh_token_type_right_paren;;
        cast ← proc_cast_expr n;
        if is_null cast then
          finsh_token_replay;; proc_unary_expr n (proc_cast_expr n) (proc_assign_expr n)
        else mret (set_root_type (type_code type) cast)
      else finsh_token_replay;; proc_unary_expr n (proc_cast_expr n) (proc_assign_expr n)
  end
with proc_assign_expr (n : nat) : P tree :=
  match n with
  | O => pfail
  | S n =>
      or ← proc_inclusive_or_expr n (proc_cast_expr n);
      token ← finsh_token_token;
      if bool_decide (token = finsh_token_type_assign) then
        assign ← proc_assign_expr n; make_sys_node FINSH_NODE_SYS_ASSIGN or assign
      else finsh_token_replay;; mret or
  end.

(** ** Statements *)

Definition proc_expr (n : nat) : P tree := proc_assign_expr n.

Definition proc_expr_statement (n : nat) : P tree :=
  token ← finsh_token_token;
  if bool_decide (token ≠ finsh_token_type_semicolon) then
    finsh_token_replay;;
    expr ← proc_expr n;
    match_token finsh_token_type_semicolon;;
    mret expr
  else mret Null.

(** The assignments of a declaration: [node] and the last of its siblings, [end],
    which is [NULL] when the table of nodes was full. *)
Record decl : Type := Decl { decl_nodes : list tree; decl_end : bool }.

Definition add_assign (d : decl) (t : tree) : P decl :=
  if bool_decide (decl_nodes d = []) then
    mret (if is_null t then d else Decl [t] true)
  else if decl_end d then
    mret (if is_null t then Decl (decl_nodes d) false else Decl (decl_nodes d ++ [t]) true)
  else pfail.

Definition declare (type : finsh_type) : P (list Z) :=
  id ← proc_identifier;
  i ← finsh_var_insert id type;
  (if bool_decide (i < 0) then error_set FINSH_ERROR_VARIABLE_EXIST else mret tt);;
  mret id.

(** What follows an [=]; returns the token after it. *)
Definition initialise (n : nat) (id : list Z) (d : decl) : P (decl * token_type) :=
  assign ← proc_assign_expr n;
  if is_null assign then mret (d, finsh_token_type_assign)
  else
    idnode ← finsh_node_new_id syms id;
    t ← make_sys_node FINSH_NODE_SYS_ASSIGN idnode assign;
    d ← add_assign d t;
    token ← finsh_token_token;
    mret (d, token).

(** One more variable, after a comma. *)
Definition declare_next (n : nat) (type : finsh_type) (d : decl) : P (decl * token_type) :=
  id ← declare type;
  token ← finsh_token_token;
  if bool_decide (token = finsh_token_type_assign) then initialise n id d else mret (d, token).

Fixpoint decl_loop (n k : nat) (type : finsh_type) (d : decl) (token : token_type) : P (list tree) :=
  match k with
  | O => pfail
  | S k =>
      if bool_decide (token = finsh_token_type_comma) then
        '(d, token) ← declare_next n type d; decl_loop n k type d token
      else
        check_token token finsh_token_type_semicolon;; mret (decl_nodes d)
  end.

Definition proc_variable_decl (n : nat) : P (list tree) :=
  type ← proc_type;
  id ← declare type;
  token ← finsh_token_token;
  let d := Decl [] true in
  match token with
  | finsh_token_type_comma => decl_loop n n type d token
  | finsh_token_type_assign =>
      '(d, token) ← initialise n id d; decl_loop n n type d token
  | finsh_token_type_semicolon => mret []
  | _ => error_set FINSH_ERROR_EXPECT_TYPE;; mret []
  end.

(** ** Lines *)

Definition trees (t : tree) : list tree := if is_null t then [] else [t].

(** The trees from [root] on, and the number of [node] among them: the next
    statement becomes its sibling. *)
Fixpoint parser_loop (n k : nat) (roots : list tree) (node : nat) (token : token_type) : P (list tree) :=
  match k with
  | O => pfail
  | S k =>
      if bool_decide (token = finsh_token_type_eof ∨ token = finsh_token_type_bad) then mret roots
      else
        finsh_token_replay;;
        new ← (if is_base_type token || bool_decide (token = finsh_token_type_unsigned)
               then proc_variable_decl n else t ← proc_expr_statement n; mret (trees t));
        if bool_decide (roots = []) then
          if bool_decide (new = []) then mret []
          else token ← finsh_token_token; parser_loop n k new 0 token
        else
          (if bool_decide (new = []) &&
              negb (is_base_type token || bool_decide (token = finsh_token_type_unsigned)
                    || bool_decide (token = finsh_token_type_identifier))
           then finsh_token_token;; mret tt else mret tt);;
          token ← finsh_token_token;
          parser_loop n k (take (S node) roots ++ new) (if bool_decide (new = []) then node else S node) token
  end.

(** [parser->root] is [NULL] before. *)
Definition finsh_parser_run (l : list Z) : P tree :=
  pset (set_tok (finsh_token_init l));;
  let n := (4 * length l + 8)%nat in
  token ← finsh_token_token;
  roots ← parser_loop n n [] 0 token;
  mret (chain roots).

End parser.
