(* ===== verification/FinshLine.v ===== *)
(** * Running a line of the shell

    finsh_init.c and [finsh_run_line] of shell.c: a line is parsed, compiled and
    run.  What is printed is given by the arguments of [rt_kprintf]; the functions
    a line calls change the memory only. *)

From S2P Require Import Prelude KString FinshNode FinshVm FinshCompiler FinshToken FinshHeap FinshParser.

(** The state of the shell: that of the parser, and the stack of the machine. *)
Record fstate : Type := FState { fparse : pstate; fstack : list Z }.

(** What a line prints: the string of an error, or a value, with the character
    that is its low byte if that can be shown. *)
Inductive output : Type :=
| OutError (errno : Z)
| OutValue (char : option Z) (v : Z).

Section line.
Context (call : Z → list Z → mem → option (Z * mem)) (syms : symbols).

(** [finsh_parser_init] and [finsh_error_init] are part of both. *)
Definition finsh_parser_init : P unit :=
  pset (set_tok (FToken false false 0 finsh_token_type_none 0 (replicate (Z.to_nat FINSH_STRING_MAX) 0) [])).
Definition finsh_init : P unit :=
  finsh_parser_init;; finsh_node_init;; finsh_var_init syms;; error_set FINSH_ERROR_OK;; finsh_heap_init syms.
Definition finsh_flush : P unit :=
  finsh_parser_init;; finsh_node_init;; error_set FINSH_ERROR_OK.
Definition finsh_reset : P unit :=
  finsh_node_init;; finsh_var_init syms;; error_set FINSH_ERROR_OK;; finsh_heap_init syms.

Definition finsh_errno : P Z := pget perrno.

Definition shown (v : Z) : output :=
  let ch := u8 v in OutValue (if bool_decide (0x20 < ch < 0x7e) then Some ch else None) v.

(** The compiler writes its errors to the same variable as the parser. *)
Definition finsh_run_line (l : list Z) (s : fstate) : option (list output * fstate) :=
  '(root, p) ← finsh_parser_run syms l (fparse s);
  '(out, p, stack) ←
    (if bool_decide (perrno p = FINSH_ERROR_OK) then
       '(stack, c) ← finsh_compiler_run root (fstack s) (CState [] 0 (perrno p));
       if bool_decide (global_errno c = FINSH_ERROR_OK) then
         '(_, v) ← finsh_vm_run call (Vm (pmem p) stack (ctext c) 0 0);
         b ← finsh_stack_bottom v;
         Some ([shown b], set_pmem (vmem v) p, finsh_vm_stack v)
       else Some ([], set_perrno (global_errno c) p, stack)
     else Some ([OutError (perrno p)], p, fstack s));
  '(_, p) ← finsh_flush p;
  Some (out, FState p stack).

End line.
