(* ===== verification/FinshShell.v ===== *)
(** * The line editor of the shell (components/finsh/shell.c)

    The loop of [finsh_thread_entry] over the characters the device has, the
    history, and the completion of names ([list_prefix] of cmd.c).  What is echoed
    is not modelled.  An access outside the arrays of [struct finsh_shell] is [None];
    the line is followed by [line_position] and [line_curpos], which a string that
    is not terminated runs into. *)

From S2P Require Import Prelude KString FinshNode FinshVm FinshToken FinshHeap FinshParser FinshLine.

Definition FINSH_CMD_SIZE : Z := 80.
Definition FINSH_HISTORY_LINES : Z := 5.

(** ** State *)

Inductive input_stat : Type := WAIT_NORMAL | WAIT_SPEC_KEY | WAIT_FUNC_KEY.

(** [struct finsh_shell] without its semaphore, its device and the parser; the two
    positions are 8 bits wide, the counters of the history 16. *)
Record editor : Type := Editor {
  stat : input_stat;
  current_history : Z;
  history_count : Z;
  cmd_history : list (list Z);
  eline : list Z;
  line_position : Z;
  line_curpos : Z;
}.

Definition set_stat v e := Editor v (current_history e) (history_count e) (cmd_history e) (eline e) (line_position e) (line_curpos e).
Definition set_current_history v e := Editor (stat e) v (history_count e) (cmd_history e) (eline e) (line_position e) (line_curpos e).
Definition set_history n h e := Editor (stat e) (current_history e) n h (eline e) (line_position e) (line_curpos e).
Definition set_eline v e := Editor (stat e) (current_history e) (history_count e) (cmd_history e) v (line_position e) (line_curpos e).
Definition set_positions p c e := Editor (stat e) (current_history e) (history_count e) (cmd_history e) (eline e) (u8 p) (u8 c).

Definition empty_line : list Z := replicate (Z.to_nat FINSH_CMD_SIZE) 0.

(** The shell after [finsh_system_init]. *)
Definition editor_init : editor :=
  Editor WAIT_NORMAL 0 0 (replicate (Z.to_nat FINSH_HISTORY_LINES) empty_line) empty_line 0 0.

(** The line as a string. *)
Definition line_string (e : editor) : option (list Z) :=
  cstring (eline e ++ [line_position e; line_curpos e]).

(** ** History *)

Definition shell_push_history (e : editor) : option editor :=
  e ← (if bool_decide (line_position e ≠ 0) then
         text ← arr_read 0 (line_position e) (eline e);
         new ← arr_write 0 text empty_line;
         if bool_decide (FINSH_HISTORY_LINES <= history_count e) then
           Some (set_history FINSH_HISTORY_LINES (drop 1 (cmd_history e) ++ [new]) e)
         else
           h ← arr_set (history_count e) new (cmd_history e);
           Some (set_history (history_count e + 1) h e)
       else Some e);
  Some (set_current_history (history_count e) e).

(** The line becomes the current line of the history. *)
Definition recall (e : editor) : option editor :=
  l ← arr_get (current_history e) (cmd_history e);
  let e := set_eline l e in
  s ← line_string e;
  Some (set_positions (zlen s) (zlen s) e).

Definition key_up (e : editor) : option editor :=
  if bool_decide (current_history e > 0) then recall (set_current_history (current_history e - 1) e)
  else Some (set_current_history 0 e).

Definition key_down (e : editor) : option editor :=
  if bool_decide (current_history e < history_count e - 1) then
    recall (set_current_history (current_history e + 1) e)
  else if bool_decide (history_count e ≠ 0) then
    recall (set_current_history (history_count e - 1) e)
  else Some e.

Definition key_left (e : editor) : editor :=
  if bool_decide (line_curpos e ≠ 0) then set_positions (line_position e) (line_curpos e - 1) e else e.

Definition key_right (e : editor) : editor :=
  if bool_decide (line_curpos e < line_position e) then set_positions (line_position e) (line_curpos e + 1) e
  else e.

(** ** Completion *)

Fixpoint str_is_prefix (prefix str : list Z) : bool :=
  match prefix, str with
  | [], _ => true
  | c :: prefix, d :: str => bool_decide (c = d) && str_is_prefix prefix str
  | _, [] => false
  end.

Fixpoint str_common (str1 str2 : list Z) : Z :=
  match str1, str2 with
  | c :: str1, d :: str2 => if bool_decide (c = d) then 1 + str_common str1 str2 else 0
  | _, _ => 0
  end.

(** The names of the tables, in the order in which they are looked at. *)
Definition candidates (syms : symbols) : list (list Z) :=
  filter (λ n, str_is_prefix [95; 95] n = false) (sc_name <$> syscall_table syms) ++
  (sc_name <$> global_syscall_list syms) ++ (sv_name <$> sysvar_table syms) ++
  (sv_name <$> global_sysvar_list syms).

(** One name: the first that matches is kept, with the number of its characters
    that all the matching names share. *)
Definition list_prefix_step (prefix : list Z) (acc : option (list Z * Z)) (name : list Z) : option (list Z * Z) :=
  if str_is_prefix prefix name && bool_decide (prefix ≠ []) then
    let '(name_ptr, min_length) := default (name, zlen name) acc in
    Some (name_ptr, Z.min (str_common name_ptr name) min_length)
  else acc.

(** What is written over the beginning of the line. *)
Definition list_prefix (syms : symbols) (prefix : list Z) : list Z :=
  match fold_left (list_prefix_step prefix) (candidates syms) None with
  | Some (name_ptr, min_length) => take (Z.to_nat min_length) name_ptr
  | None => []
  end.

Definition key_tab (syms : symbols) (e : editor) : option editor :=
  prefix ← line_string e;
  l ← arr_write 0 (list_prefix syms prefix) (eline e);
  let e := set_eline l e in
  s ← line_string e;
  Some (set_positions (zlen s) (zlen s) e).

(** ** Characters *)

Definition key_backspace (e : editor) : option editor :=
  if bool_decide (line_curpos e = 0) then Some e
  else
    let e := set_positions (line_position e - 1) (line_curpos e - 1) e in
    l ← (if bool_decide (line_position e > line_curpos e) then
           memcpy (eline e) (line_curpos e) (eline e) (line_curpos e + 1) (line_position e - line_curpos e)
         else Some (eline e));
    l ← arr_set (line_position e) 0 l;
    Some (set_eline l e).

Definition key_char (ch : Z) (e : editor) : option editor :=
  let e := if bool_decide (FINSH_CMD_SIZE <= line_position e) then set_positions 0 (line_curpos e) e else e in
  l ← (if bool_decide (line_curpos e < line_position e) then
         l ← memcpy (eline e) (line_curpos e + 1) (eline e) (line_curpos e) (line_position e - line_curpos e);
         arr_set (line_curpos e) ch l
       else arr_set (line_position e) ch (eline e));
  let e := set_positions (line_position e + 1) (line_curpos e + 1) (set_eline l e) in
  Some (if bool_decide (FINSH_CMD_SIZE <= line_position e) then set_positions 0 0 e else e).

(** ** The loop *)

Section shell.
Context (call : Z → list Z → mem → option (Z * mem)) (syms : symbols).

(** The end of a line: the line is run, unless it is empty. *)
Definition key_enter (e : editor) (f : fstate) : option (list output * editor * fstate) :=
  e ← shell_push_history e;
  l ← arr_set (line_position e) 59 (eline e);
  let e := set_eline l e in
  '(out, f) ← (if bool_decide (line_position e ≠ 0) then s ← line_string e; finsh_run_line call syms s f
               else Some ([], f));
  Some (out, set_positions 0 0 (set_eline empty_line e), f).

(** What a character leads to: the next character, or the end of the loop. *)
Inductive outcome : Type :=
| Next (e : editor) (input : list Z)
| Done (out : list output) (e : editor) (f : fstate) (input : list Z).

(** A carriage return takes the character behind it with it. *)
Definition after_return (ch : Z) (input : list Z) : Z * list Z :=
  if bool_decide (ch = 13) then
    match input with
    | next :: input => (if bool_decide (next = 0) then 13 else next, input)
    | [] => (13, [])
    end
  else (ch, input).

(** A character that is not part of a control sequence. *)
Definition plain_char (ch : Z) (input : list Z) (e : editor) (f : fstate) : option outcome :=
  if bool_decide (ch = 9) then e ← key_tab syms e; Some (Next e input)
  else if bool_decide (ch = 127 ∨ ch = 8) then e ← key_backspace e; Some (Next e input)
  else
    let '(ch, input) := after_return ch input in
    if bool_decide (ch = 13 ∨ ch = 10) then
      '(out, e, f) ← key_enter e f; Some (Done out e f input)
    else e ← key_char ch e; Some (Next e input).

Definition handle_char (ch : Z) (input : list Z) (e : editor) (f : fstate) : option outcome :=
  if bool_decide (ch = 0x1b) then Some (Next (set_stat WAIT_SPEC_KEY e) input)
  else
    match stat e with
    | WAIT_SPEC_KEY =>
        if bool_decide (ch = 0x5b) then Some (Next (set_stat WAIT_FUNC_KEY e) input)
        else plain_char ch input (set_stat WAIT_NORMAL e) f
    | WAIT_FUNC_KEY =>
        let e := set_stat WAIT_NORMAL e in
        match ch with
        | 0x41 => e ← key_up e; Some (Next e input)
        | 0x42 => e ← key_down e; Some (Next e input)
        | 0x44 => Some (Next (key_left e) input)
        | 0x43 => Some (Next (key_right e) input)
        | _ => plain_char ch input e f
        end
    | WAIT_NORMAL => plain_char ch input e f
    end.

(** The characters the device has, until there are none or a line has ended. *)
Fixpoint shell_input (fuel : nat) (input : list Z) (e : editor) (f : fstate) :
    option (list output * editor * fstate * list Z) :=
  match fuel, input with
  | O, _ => None
  | _, [] => Some ([], e, f, [])
  | S fuel, ch :: input =>
      o ← handle_char ch input e f;
      match o with
      | Next e input => shell_input fuel input e f
      | Done out e f input => Some (out, e, f, input)
      end
  end.

(** The rounds of the loop: every one takes a character. *)
Definition shell_read (input : list Z) (e : editor) (f : fstate) :=
  shell_input (S (length input)) input e f.

End shell.
