(* ===== verification/FinshSem.v ===== *)
(** * The expressions of the shell

    What the expressions the shell accepts mean, independently of its trees and of
    its machine; the trees the parser makes of them; the code expected for them.

    The meaning follows the rules of the shell, which are not those of C: an
    operation is done at the width of its left operand, [*p] has the width of the
    expression [p], and a cast changes nothing. *)

From S2P Require Import Prelude KString FinshNode FinshVm FinshCompiler.

(** ** Syntax *)

Inductive expr : Type :=
| EInt (z : Z)
| ELong (z : Z)
| EChar (c : Z)
| ENull
| EVar (i : ident)
| EBin (op : binop) (e1 e2 : expr)
| ENot (e : expr)
| ENeg (e : expr)
| EAssign (l e : expr)
| EPre (op : binop) (i : ident)
| EPost (op : binop) (i : ident)
| EDeref (e : expr)
| EAddr (l : expr)
| ECall (entry func : Z) (args : list expr)
| ECast (t : finsh_type) (e : expr).

(** Induction with a hypothesis for every argument of a call. *)
Fixpoint expr_ind' (P : expr → Prop)
    (HInt : ∀ z, P (EInt z)) (HLong : ∀ z, P (ELong z)) (HChar : ∀ c, P (EChar c)) (HNull : P ENull)
    (HVar : ∀ i, P (EVar i)) (HBin : ∀ op e1 e2, P e1 → P e2 → P (EBin op e1 e2))
    (HNot : ∀ e, P e → P (ENot e)) (HNeg : ∀ e, P e → P (ENeg e))
    (HAssign : ∀ l e, P l → P e → P (EAssign l e))
    (HPre : ∀ op i, P (EPre op i)) (HPost : ∀ op i, P (EPost op i))
    (HDeref : ∀ e, P e → P (EDeref e)) (HAddr : ∀ l, P l → P (EAddr l))
    (HCall : ∀ entry func args, Forall P args → P (ECall entry func args))
    (HCast : ∀ t e, P e → P (ECast t e)) (e : expr) {struct e} : P e :=
  let rec := expr_ind' P HInt HLong HChar HNull HVar HBin HNot HNeg HAssign HPre HPost HDeref HAddr
               HCall HCast in
  match e with
  | EInt z => HInt z
  | ELong z => HLong z
  | EChar c => HChar c
  | ENull => HNull
  | EVar i => HVar i
  | EBin op e1 e2 => HBin op e1 e2 (rec e1) (rec e2)
  | ENot e => HNot e (rec e)
  | ENeg e => HNeg e (rec e)
  | EAssign l e => HAssign l e (rec l) (rec e)
  | EPre op i => HPre op i
  | EPost op i => HPost op i
  | EDeref e => HDeref e (rec e)
  | EAddr l => HAddr l (rec l)
  | ECall n f args =>
      HCall n f args ((fix all (l : list expr) : Forall P l :=
                         match l with [] => Forall_nil_2 P | e :: l => Forall_cons_2 P e l (rec e) (all l) end)
                        args)
  | ECast t e => HCast t e (rec e)
  end.

(** ** Widths *)

Definition var_width (i : ident) : option width :=
  match i with
  | IdVar _ t => load_width t
  | IdSysvar _ t _ => load_width t
  | _ => None
  end.
Definition var_addr (i : ident) : Z :=
  match i with IdVar p _ => p + VALUE_OFFSET | IdSysvar _ _ a => a | _ => 0 end.

(** The width at which an operation on the expression is done; a call has none. *)
Fixpoint width_of (e : expr) : option width :=
  match e with
  | EInt _ | ELong _ | ENull | ENeg _ => Some DWORD
  | EChar _ => Some BYTE
  | EVar i | EPre _ i | EPost _ i => var_width i
  | EBin _ e _ | ENot e | EAssign e _ | EDeref e | EAddr e | ECast _ e => width_of e
  | ECall _ _ _ => None
  end.

(** How much of the word on the stack is the value; the rest is left over from
    what was there before. *)
Fixpoint precision (e : expr) : width :=
  match e with
  | EChar _ => BYTE
  | EAddr (EDeref e) | ECast _ e => precision e
  | EAddr _ | ECall _ _ _ => DWORD
  | _ => default DWORD (width_of e)
  end.

Definition bits (w : width) : Z := match w with BYTE => 8 | WORD => 16 | DWORD => 32 end.
Definition covers (p : width) (w : width) : bool := bool_decide (bits w <= bits p).

(** The expressions the compiler treats correctly: an operation needs a width,
    which the other operand covers; addresses, arguments and the operand of a minus
    are whole words; only variables of the shell are counted up and down. *)
Fixpoint wt (e : expr) : bool :=
  let lval l :=
    match l with
    | EVar i => bool_decide (is_Some (var_width i))
    | EDeref e => wt e && covers (precision e) DWORD && bool_decide (is_Some (width_of e))
    | _ => false
    end in
  match e with
  | EInt _ | ELong _ | EChar _ | ENull => true
  | EVar i => bool_decide (is_Some (var_width i))
  | EBin _ e1 e2 =>
      wt e1 && wt e2 && match width_of e1 with Some w => covers (precision e2) w | None => false end
  | ENot e => wt e && bool_decide (is_Some (width_of e))
  | ENeg e => wt e && covers (precision e) DWORD
  | EAssign l e =>
      lval l && wt e && match width_of l with Some w => covers (precision e) w | None => false end
  | EPre op i | EPost op i =>
      match op, i with
      | Add, IdVar _ t | Sub, IdVar _ t => bool_decide (is_Some (load_width t))
      | _, _ => false
      end
  | EDeref e => wt e && covers (precision e) DWORD && bool_decide (is_Some (width_of e))
  | EAddr l => lval l
  | ECall _ _ args =>
      forallb (λ e, wt e && covers (precision e) DWORD) args && bool_decide (zlen args <= 16)
  | ECast _ e => wt e
  end.

(** ** Meaning *)

Section eval.
Context (call : Z → list Z → mem → option (Z * mem)).

(** The value and the memory afterwards.  [None]: the meaning is undefined. *)
Fixpoint eval (e : expr) (m : mem) : option (Z * mem) :=
  let address l m :=
    match l with
    | EVar i => Some (var_addr i, m)
    | EDeref e => eval e m
    | _ => None
    end in
  match e with
  | EInt z | ELong z => Some (s32 z, m)
  | EChar c => Some (u8 c, m)
  | ENull => Some (0, m)
  | EVar i => w ← var_width i; v ← load_value w m (u32 (var_addr i)); Some (v, m)
  | EBin op e1 e2 =>
      w ← width_of e1;
      '(a, m) ← eval e1 m; '(b, m) ← eval e2 m;
      v ← arith op (get_value w a) (get_value w b);
      Some (get_value w v, m)
  | ENot e => w ← width_of e; '(a, m) ← eval e m; Some (get_value w (Z.lnot (get_value w a)), m)
  | ENeg e => '(a, m) ← eval e m; Some (s32 (- a), m)
  | EAssign l e =>
      w ← width_of l;
      '(a, m) ← address l m; '(v, m) ← eval e m;
      m ← store_value w m (u32 a) (get_value w v);
      v ← load_value w m (u32 a);
      Some (v, m)
  | EPre op i =>
      w ← var_width i;
      let a := u32 (var_addr i) in
      v ← load_value w m a; v ← arith op v 1;
      m ← store_value w m a (get_value w v);
      v ← load_value DWORD m a;
      Some (get_value w v, m)
  | EPost op i =>
      w ← var_width i;
      let a := u32 (var_addr i) in
      v ← load_value w m a; v' ← arith op v 1;
      m ← store_value w m a (get_value w v');
      Some (v, m)
  | EDeref e =>
      w ← width_of e; '(a, m) ← eval e m; v ← load_value w m (u32 a); Some (v, m)
  | EAddr l => '(a, m) ← address l m; Some (s32 a, m)
  | ECall _ f args =>
      '(vs, m) ← (fix evals (args : list expr) (m : mem) : option (list Z * mem) :=
                    match args with
                    | [] => Some ([], m)
                    | e :: args => '(v, m) ← eval e m; '(vs, m) ← evals args m; Some (v :: vs, m)
                    end) args m;
      '(r, m) ← call (u32 f) (if bool_decide (args = []) then [0] else vs) m;
      Some (s32 r, m)
  | ECast _ e => eval e m
  end.

Fixpoint evals (args : list expr) (m : mem) : option (list Z * mem) :=
  match args with
  | [] => Some ([], m)
  | e :: args => '(v, m) ← eval e m; '(vs, m) ← evals args m; Some (v :: vs, m)
  end.

End eval.

(** ** Trees *)

Definition id_node (i : ident) : finsh_node :=
  FNode FINSH_NODE_ID 0
    (match i with IdNull => 0 | IdVar _ _ => FINSH_IDTYPE_VAR | IdSysvar _ _ _ => FINSH_IDTYPE_SYSVAR
     | IdSyscall _ _ => FINSH_IDTYPE_SYSCALL end) 0 i.
Definition value_node (k : node_kind) (v : Z) : finsh_node := FNode k 0 0 v IdNull.
Definition sys_node (k : node_kind) : finsh_node := FNode k 0 0 0 IdNull.

Definition bin_kind (op : binop) : node_kind :=
  match op with
  | Add => FINSH_NODE_SYS_ADD | Sub => FINSH_NODE_SYS_SUB | Mul => FINSH_NODE_SYS_MUL
  | Div => FINSH_NODE_SYS_DIV | Mod => FINSH_NODE_SYS_MOD | And => FINSH_NODE_SYS_AND
  | Or => FINSH_NODE_SYS_OR | Xor => FINSH_NODE_SYS_XOR | Shl => FINSH_NODE_SYS_SHL
  | Shr => FINSH_NODE_SYS_SHR
  end.
Definition pre_kind (op : binop) : node_kind :=
  match op with Add => FINSH_NODE_SYS_PREINC | _ => FINSH_NODE_SYS_PREDEC end.
Definition post_kind (op : binop) : node_kind :=
  match op with Add => FINSH_NODE_SYS_INC | _ => FINSH_NODE_SYS_DEC end.

Definition cast_root (t : finsh_type) (r : tree) : tree :=
  match r with Null => Null | Tree n c s => Tree (set_data_type (type_code t) n) c s end.

(** The tree of an expression, with a sibling. *)
Fixpoint tree_of (e : expr) (sib : tree) : tree :=
  match e with
  | EInt z => Tree (value_node FINSH_NODE_VALUE_INT z) Null sib
  | ELong z => Tree (value_node FINSH_NODE_VALUE_LONG z) Null sib
  | EChar c => Tree (value_node FINSH_NODE_VALUE_CHAR c) Null sib
  | ENull => Tree (value_node FINSH_NODE_VALUE_NULL 0) Null sib
  | EVar i => Tree (id_node i) Null sib
  | EBin op e1 e2 => Tree (sys_node (bin_kind op)) (tree_of e1 (tree_of e2 Null)) sib
  | ENot e => Tree (sys_node FINSH_NODE_SYS_BITWISE) (tree_of e Null) sib
  | ENeg e =>
      Tree (sys_node FINSH_NODE_SYS_SUB)
        (Tree (value_node FINSH_NODE_VALUE_LONG 0) Null (tree_of e Null)) sib
  | EAssign l e => Tree (sys_node FINSH_NODE_SYS_ASSIGN) (tree_of l (tree_of e Null)) sib
  | EPre op i => Tree (sys_node (pre_kind op)) (Tree (id_node i) Null Null) sib
  | EPost op i => Tree (sys_node (post_kind op)) (Tree (id_node i) Null Null) sib
  | EDeref e => Tree (sys_node FINSH_NODE_SYS_GETVALUE) (tree_of e Null) sib
  | EAddr l => Tree (sys_node FINSH_NODE_SYS_GETADDR) (tree_of l Null) sib
  | ECall n f args =>
      Tree (sys_node FINSH_NODE_SYS_FUNC)
        (Tree (id_node (IdSyscall n f)) Null (foldr tree_of Null args)) sib
  | ECast t e => cast_root t (tree_of e sib)
  end.

(** ** Code *)

Definition le16 (x : Z) : list Z := [u8 x; u8 (Z.shiftr x 8)].
Definition le32 (x : Z) : list Z :=
  [u8 (u32 x); u8 (Z.shiftr (u32 x) 8); u8 (Z.shiftr (u32 x) 16); u8 (Z.shiftr (u32 x) 24)].
Definition le (w : width) (x : Z) : list Z :=
  match w with BYTE => [u8 x] | WORD => le16 x | DWORD => le32 x end.

Definition for_width (o : option width) (f : width → list Z) : list Z :=
  match o with Some w => f w | None => [] end.

Definition step_code (op : binop) (a : Z) (w : width) : list Z :=
  (FINSH_OP_LD_VALUE w :: le32 a) ++ (FINSH_OP_LD w :: le w 1) ++ [FINSH_OP_BIN op w] ++ [FINSH_OP_ST w].

Fixpoint code (e : expr) : list Z :=
  let address l :=
    match l with
    | EVar i => FINSH_OP_LD DWORD :: le32 (var_addr i)
    | EDeref e => code e
    | _ => []
    end in
  match e with
  | EInt z | ELong z => FINSH_OP_LD DWORD :: le32 z
  | EChar c => [FINSH_OP_LD BYTE; u8 c]
  | ENull => FINSH_OP_LD DWORD :: le32 0
  | EVar i => for_width (var_width i) (λ w, FINSH_OP_LD_VALUE w :: le32 (var_addr i))
  | EBin op e1 e2 => code e1 ++ code e2 ++ for_width (width_of e1) (λ w, [FINSH_OP_BIN op w])
  | ENot e => code e ++ for_width (width_of e) (λ w, [FINSH_OP_BITWISE w])
  | ENeg e => (FINSH_OP_LD DWORD :: le32 0) ++ code e ++ [FINSH_OP_BIN Sub DWORD]
  | EAssign l e =>
      address l ++ code e ++
      for_width (width_of l) (λ w, [FINSH_OP_ST w] ++ [FINSH_OP_LD_VALUE_STACK w])
  | EPre op i =>
      (FINSH_OP_LD DWORD :: le32 (var_addr i)) ++
      for_width (var_width i) (λ w, step_code op (var_addr i) w ++ [FINSH_OP_LD_VALUE_STACK DWORD])
  | EPost op i =>
      for_width (var_width i) (λ w,
        (FINSH_OP_LD_VALUE w :: le32 (var_addr i)) ++ (FINSH_OP_LD DWORD :: le32 (var_addr i)) ++
        step_code op (var_addr i) w ++ [FINSH_OP_POP])
  | EDeref e => code e ++ for_width (width_of e) (λ w, [FINSH_OP_LD_VALUE_STACK w])
  | EAddr l => address l
  | ECall _ f args =>
      (FINSH_OP_LD DWORD :: le32 f) ++ concat (code <$> args) ++ [FINSH_OP_SYSCALL; u8 (zlen args)]
  | ECast _ e => code e
  end.

(** The words of the stack the code needs. *)
Fixpoint depth (e : expr) : Z :=
  let address l := match l with EDeref e => depth e | _ => 1 end in
  match e with
  | EInt _ | ELong _ | EChar _ | ENull | EVar _ => 1
  | EBin _ e1 e2 => Z.max (depth e1) (1 + depth e2)
  | ENeg e => 1 + depth e
  | ENot e | EDeref e | ECast _ e => depth e
  | EAssign l e => Z.max (address l) (1 + depth e)
  | EPre _ _ => 3
  | EPost _ _ => 4
  | EAddr l => address l
  | ECall _ _ args => 1 + foldr (λ e d, Z.max (depth e) (1 + d)) 0 args
  end.

(** The pieces for a place instead of a value. *)
Definition lvalue (l : expr) : bool :=
  match l with
  | EVar i => bool_decide (is_Some (var_width i))
  | EDeref e => wt e && covers (precision e) DWORD && bool_decide (is_Some (width_of e))
  | _ => false
  end.
Definition address_code (l : expr) : list Z :=
  match l with
  | EVar i => FINSH_OP_LD DWORD :: le32 (var_addr i)
  | EDeref e => code e
  | _ => []
  end.
Definition address_depth (l : expr) : Z := match l with EDeref e => depth e | _ => 1 end.
