(* ===== verification/FinshCodegen.v ===== *)
(** * The code the compiler of the shell generates


    The type check and the code generation on the trees of the expressions. *)

From S2P Require Import Prelude KString HeapWp FinshNode FinshVm FinshCompiler FinshSem.

(** ** Values *)

Lemma get_value_idem w v : get_value w (get_value w v) = get_value w v.
Proof. destruct w; cbn [get_value]; mlia. Qed.
Lemma get_set_value w x v : get_value w (set_value w x v) = get_value w v.
Proof. destruct w; cbn [get_value set_value]; mlia. Qed.
Lemma get_value_covers p w x v : covers p w = true → get_value p x = v → get_value w x = get_value w v.
Proof.
  unfold covers. rewrite bool_decide_eq_true. intros Hb <-.
  destruct p, w; cbn [bits get_value] in *; lia || mlia.
Qed.
Lemma load_value_canon w m a v : load_value w m a = Some v → get_value w v = v.
Proof.
  destruct w; cbn [load_value get_value]; [destruct (load m a)|destruct (load16 m a)|destruct (load32 m a)];
    intros [= <-]; mlia.
Qed.
Lemma u32_s32 x v : s32 x = v → u32 x = u32 v.
Proof. intros <-. mlia. Qed.

Lemma lor_shiftl b c k : 0 <= k → 0 <= b < 2 ^ k → Z.lor b (Z.shiftl c k) = b + c * 2 ^ k.
Proof.
  intros Hk Hb. rewrite <- Z.shiftl_mul_pow2 by done.
  assert (Z.land b (Z.shiftl c k) = 0) as E.
  { apply Z.bits_inj'. intros i Hi. rewrite Z.land_spec, Z.bits_0, Z.shiftl_spec by done.
    destruct (decide (i < k)).
    - rewrite (Z.testbit_neg_r c) by lia. apply andb_false_r.
    - destruct (decide (b = 0)) as [->|]; [by rewrite Z.bits_0|].
      rewrite (Z.bits_above_log2 b); [done|lia|]. apply Z.log2_lt_pow2; [lia|]. apply Z.lt_le_trans with (2 ^ k); [lia|].
      apply Z.pow_le_mono_r; lia. }
  by rewrite Z.add_nocarry_lxor, Z.lxor_lor by done.
Qed.

Lemma forallb_Forall {A} (f : A → bool) l : forallb f l = true → Forall (λ x, f x = true) l.
Proof. induction l; cbn; [constructor|]. intros [? ?]%andb_true_iff. constructor; auto. Qed.
Lemma Forall_impl_2 {A} (P Q R : A → Prop) l : Forall P l → (∀ x, P x → Q x → R x) →
  Forall Q l → Forall R l.
Proof. induction 1; intros HP HQ; inversion_clear HQ; constructor; auto. Qed.

(** ** Emission *)

(** [c] writes the bytes [l], when they fit, and does nothing else. *)
Definition emits (c : C unit) (l : list Z) : Prop := ∀ pre post e,
  c (CState (pre ++ post) (zlen pre) e) =
  if bool_decide (zlen l <= zlen post)
  then Some (tt, CState (pre ++ l ++ drop (length l) post) (zlen pre + zlen l) e) else None.

Lemma emits_nil : emits (mret tt) [].
Proof.
  intros pre post e. rewrite bool_decide_true by (pose proof (zlen_nonneg post); done).
  unfold mret, C_ret. cbn. change (zlen (@nil Z)) with 0. by rewrite Z.add_0_r, drop_0.
Qed.

Lemma emits_byte x : emits (finsh_code_byte x) [u8 x].
Proof.
  intros pre post e. unfold finsh_code_byte. cbn [ctext finsh_compile_pc global_errno].
  rewrite arr_set_write. unfold arr_write. rewrite zlen_app. change (zlen [u8 x]) with 1.
  case_bool_decide; case_bool_decide; pose proof (zlen_nonneg pre); try lia; [|done].
  destruct post as [|p post]; [change (zlen (@nil Z)) with 0 in *; lia|].
  unfold zlen in *. rewrite take_app_length' by lia.
  rewrite drop_app_ge by lia. replace (Z.to_nat _ - length pre)%nat with 1%nat by lia. done.
Qed.

Lemma emits_seq c d l k : emits c l → emits d k → emits (c;; d) (l ++ k).
Proof.
  intros Hc Hd pre post e. unfold mbind, C_bind. rewrite Hc, zlen_app.
  pose proof (zlen_nonneg l). pose proof (zlen_nonneg k). case_bool_decide as H1.
  - replace (pre ++ l ++ drop (length l) post) with ((pre ++ l) ++ drop (length l) post)
      by (by rewrite <- app_assoc).
    replace (zlen pre + zlen l) with (zlen (pre ++ l)) by (by rewrite zlen_app). rewrite Hd.
    assert (zlen (drop (length l) post) = zlen post - zlen l) as -> by (unfold zlen in *; rewrite length_drop; lia).
    case_bool_decide; case_bool_decide; try lia; [|done].
    rewrite drop_drop, length_app, zlen_app, <- !app_assoc. do 3 f_equal. lia.
  - rewrite bool_decide_false by lia. done.
Qed.

Lemma emits_dword x : emits (finsh_code_dword x) (le32 x).
Proof.
  unfold finsh_code_dword, le32.
  assert (∀ y, u8 (Z.land y 0xff) = u8 y) as E.
  { intros y. change 0xff with (Z.ones 8). rewrite Z.land_ones by done. mlia. }
  rewrite <- (E (u32 x)), <- (E (Z.shiftr (u32 x) 8)), <- (E (Z.shiftr (u32 x) 16)).
  eapply (emits_seq _ _ [_] [_; _; _]); [apply emits_byte|].
  eapply (emits_seq _ _ [_] [_; _]); [apply emits_byte|].
  eapply (emits_seq _ _ [_] [_]); apply emits_byte.
Qed.

Lemma emits_word x : emits (finsh_code_word x) (le16 x).
Proof.
  unfold finsh_code_word, le16.
  assert (u8 (Z.land x 0xff) = u8 x) as <-.
  { change 0xff with (Z.ones 8). rewrite Z.land_ones by done. mlia. }
  eapply (emits_seq _ _ [_] [_]); apply emits_byte.
Qed.

(** ** Checked trees *)

Definition width_code (o : option width) : Z :=
  match o with
  | None => FINSH_DATA_TYPE_VOID
  | Some BYTE => FINSH_DATA_TYPE_BYTE
  | Some WORD => FINSH_DATA_TYPE_WORD
  | Some DWORD => FINSH_DATA_TYPE_DWORD
  end.

Definition typed (n : finsh_node) (o : option width) (a : Z) : finsh_node :=
  set_data_type (width_code o) (set_idtype (Z.lor (idtype n) a) n).

(** The tree of an expression after [finsh_type_check] with [a]. *)
Fixpoint checked (e : expr) (a : Z) (sib : tree) : tree :=
  match e with
  | EInt z => Tree (typed (value_node FINSH_NODE_VALUE_INT z) (Some DWORD) a) Null sib
  | ELong z => Tree (typed (value_node FINSH_NODE_VALUE_LONG z) (Some DWORD) a) Null sib
  | EChar c => Tree (typed (value_node FINSH_NODE_VALUE_CHAR c) (Some BYTE) a) Null sib
  | ENull => Tree (typed (value_node FINSH_NODE_VALUE_NULL 0) (Some DWORD) a) Null sib
  | EVar i => Tree (typed (id_node i) (var_width i) a) Null sib
  | EBin op e1 e2 =>
      Tree (typed (sys_node (bin_kind op)) (width_of e1) a) (checked e1 a (checked e2 0 Null)) sib
  | ENot e => Tree (typed (sys_node FINSH_NODE_SYS_BITWISE) (width_of e) a) (checked e a Null) sib
  | ENeg e =>
      Tree (typed (sys_node FINSH_NODE_SYS_SUB) (Some DWORD) a)
        (Tree (typed (value_node FINSH_NODE_VALUE_LONG 0) (Some DWORD) a) Null (checked e 0 Null)) sib
  | EAssign l e =>
      Tree (typed (sys_node FINSH_NODE_SYS_ASSIGN) (width_of l) a)
        (checked l FINSH_IDTYPE_ADDRESS (checked e 0 Null)) sib
  | EPre op i =>
      Tree (typed (sys_node (pre_kind op)) (var_width i) a)
        (Tree (typed (id_node i) (var_width i) FINSH_IDTYPE_ADDRESS) Null Null) sib
  | EPost op i =>
      Tree (typed (sys_node (post_kind op)) (var_width i) a)
        (Tree (typed (id_node i) (var_width i) a) Null Null) sib
  | EDeref e => Tree (typed (sys_node FINSH_NODE_SYS_GETVALUE) (width_of e) a) (checked e 0 Null) sib
  | EAddr l =>
      Tree (typed (sys_node FINSH_NODE_SYS_GETADDR) (width_of l) a)
        (checked l FINSH_IDTYPE_ADDRESS Null) sib
  | ECall n f args =>
      Tree (typed (sys_node FINSH_NODE_SYS_FUNC) None a)
        (Tree (id_node (IdSyscall n f)) Null (foldr (λ e t, checked e 0 t) Null args)) sib
  | ECast _ e => checked e a sib
  end.

(** The root of a checked tree has the width of the expression. *)
Lemma checked_root e a sib : ∃ n c, checked e a sib = Tree n c sib ∧ data_type n = width_code (width_of e).
Proof. induction e using expr_ind'; cbn [checked width_of]; eauto. Qed.

Definition address_mode (a : Z) : Prop := a = 0 ∨ a = FINSH_IDTYPE_ADDRESS.

Definition then_sibling (r : option (tree * cstate)) (f : tree → tree) : option (tree * cstate) :=
  match r with Some (sib, s) => Some (f sib, s) | None => None end.

(** [finsh_type_check] makes the checked tree, whatever type the root had. *)
Definition checks (e : expr) : Prop := ∀ a sib s, address_mode a →
  finsh_type_check (tree_of e sib) a s = then_sibling (finsh_type_check sib 0 s) (checked e a) ∧
  ∀ t, finsh_type_check (cast_root t (tree_of e sib)) a s =
       then_sibling (finsh_type_check sib 0 s) (checked e a).

Lemma cast_cast t t' r : cast_root t (cast_root t' r) = cast_root t r.
Proof. by destruct r. Qed.

Lemma load_width_data t w : load_width t = Some w → data_type_of t = Some (width_code (Some w)).
Proof. destruct t; cbn; intros [= <-]; done. Qed.

Lemma set_var_type_known n t w s : load_width t = Some w →
  set_var_type n t s = Some (set_data_type (width_code (Some w)) n, s).
Proof. intros E. unfold set_var_type. by rewrite (load_width_data _ _ E). Qed.

Lemma check_var i a d sib s : is_Some (var_width i) → address_mode a →
  finsh_type_check (Tree (set_data_type d (id_node i)) Null sib) a s =
  then_sibling (finsh_type_check sib 0 s) (Tree (typed (id_node i) (var_width i) a) Null).
Proof.
  intros [w Hw] Ha. cbn [finsh_type_check]. unfold mbind, C_bind. change FINSH_NODE_VALUE with 0.
  unfold mret at 1, C_ret at 1. destruct (finsh_type_check sib 0 s) as [[sib' s']|]; [|done].
  destruct i as [|p t|p t v|]; cbn [var_width] in Hw; try done; destruct Ha as [-> | ->];
    destruct t; try discriminate Hw; reflexivity.
Qed.

(** A node with a child takes the type of the child. *)
Lemma check_inner n d c sib a s cn cc cs : idtype n = 0 → address_mode a →
  finsh_type_check c (child_addr (node_type n) a) s = Some (Tree cn cc cs, s) →
  finsh_type_check (Tree (set_data_type d n) c sib) a s =
  then_sibling (finsh_type_check sib 0 s)
    (Tree (set_data_type (data_type cn) (set_idtype a n)) (Tree cn cc cs)).
Proof.
  intros Hi Ha Hc. cbn [finsh_type_check]. unfold mbind, C_bind. cbn [node_type set_data_type]. rewrite Hc.
  change FINSH_NODE_VALUE with 0. destruct (finsh_type_check sib 0 s) as [[sib' s']|]; [|done].
  cbn [idtype set_data_type]. rewrite Hi. destruct Ha as [-> | ->]; done.
Qed.

Lemma checks_inner e k child n cc cs w :
  (∀ sib, tree_of e sib = Tree (sys_node k) child sib) →
  (∀ a sib, checked e a sib = Tree (typed (sys_node k) w a) (Tree (n a) (cc a) (cs a)) sib) →
  (∀ a s, address_mode a →
     finsh_type_check child (child_addr k a) s = Some (Tree (n a) (cc a) (cs a), s)) →
  (∀ a, data_type (n a) = width_code w) →
  checks e.
Proof.
  intros Ht Hk Hc Hw a sib s Ha. rewrite Ht.
  assert (∀ d, finsh_type_check (Tree (set_data_type d (sys_node k)) child sib) a s =
    then_sibling (finsh_type_check sib 0 s) (checked e a)) as H.
  { intros d. rewrite (check_inner (sys_node k) d child sib a s (n a) (cc a) (cs a) eq_refl Ha (Hc a s Ha)), Hw.
    destruct (finsh_type_check sib 0 s) as [[]|]; [|done]. cbn. by rewrite Hk. }
  split; [apply (H 0)|]. intros t. apply H.
Qed.

Lemma wt_lval l : lvalue l = true → wt l = true.
Proof. by destruct l. Qed.

Lemma checks_args args s : Forall checks args →
  finsh_type_check (foldr tree_of Null args) 0 s = Some (foldr (λ e t, checked e 0 t) Null args, s).
Proof.
  induction 1 as [|e args He _ IH]; [done|]. cbn [foldr].
  destruct (He 0 (foldr tree_of Null args) s) as [-> _]; [by left|]. by rewrite IH.
Qed.

Lemma check_pair e1 e2 a s : checks e1 → checks e2 → address_mode a →
  finsh_type_check (tree_of e1 (tree_of e2 Null)) a s = Some (checked e1 a (checked e2 0 Null), s).
Proof.
  intros H1 H2 Ha. destruct (H1 a (tree_of e2 Null) s Ha) as [-> _].
  destruct (H2 0 Null s) as [-> _]; [by left|]. done.
Qed.
Lemma check_one e a s : checks e → address_mode a →
  finsh_type_check (tree_of e Null) a s = Some (checked e a Null, s).
Proof. intros H Ha. by destruct (H a Null s Ha) as [-> _]. Qed.

Ltac wt_split := repeat match goal with H : _ && _ = true |- _ => apply andb_true_iff in H as [? ?] end.

(** The checked child as a function of the mode. *)
Lemma checked_rootf e (f : Z → Z) sib : ∃ n c : Z → _, ∀ a,
  checked e (f a) sib = Tree (n a) (c a) sib ∧ data_type (n a) = width_code (width_of e).
Proof.
  exists (λ a, match checked e (f a) sib with Tree n _ _ => n | _ => sys_node FINSH_NODE_ID end),
    (λ a, match checked e (f a) sib with Tree _ c _ => c | _ => Null end).
  intros a. destruct (checked_root e (f a) sib) as (?&?&->&?). done.
Qed.

Lemma checks_const_long z a sib s sib' : address_mode a → finsh_type_check sib 0 s = Some (sib', s) →
  finsh_type_check (Tree (value_node FINSH_NODE_VALUE_LONG z) Null sib) a s =
  Some (Tree (typed (value_node FINSH_NODE_VALUE_LONG z) (Some DWORD) a) Null sib', s).
Proof.
  intros Ha Hs. cbn [finsh_type_check]. unfold mbind, C_bind, mret, C_ret. change FINSH_NODE_VALUE with 0.
  rewrite Hs. done.
Qed.

Lemma checks_wt e : wt e = true → checks e.
Proof.
  induction e using expr_ind'; cbn [wt]; intros Hwt; wt_split.
  1-4: intros a sib s Ha; split; [|intros t]; cbn [tree_of cast_root finsh_type_check checked];
    unfold mbind, C_bind, mret, C_ret; cbn [idtype set_data_type value_node];
    change FINSH_NODE_VALUE with 0; destruct (finsh_type_check sib 0 s) as [[]|]; done.
  - intros a sib s Ha. split; [apply (check_var i a 0)|intros t; apply check_var]; try done;
      by eapply bool_decide_eq_true.
  - (* EBin *)
    destruct (checked_rootf e1 (λ a, a) (checked e2 0 Null)) as (n&c&Hn).
    eapply (checks_inner _ (bin_kind op) _ n c (λ _, checked e2 0 Null) (width_of e1));
      [done|intros; cbn; by rewrite <- (proj1 (Hn a))| |intros a; apply Hn].
    intros a s Ha. rewrite <- (proj1 (Hn a)). replace (child_addr (bin_kind op) a) with a by (by destruct op).
    apply check_pair; auto.
  - (* ENot *)
    destruct (checked_rootf e (λ a, a) Null) as (n&c&Hn).
    eapply (checks_inner _ FINSH_NODE_SYS_BITWISE _ n c (λ _, Null) (width_of e));
      [done|intros; cbn; by rewrite <- (proj1 (Hn a))| |intros a; apply Hn].
    intros a s Ha. rewrite <- (proj1 (Hn a)). apply check_one; auto.
  - (* ENeg *)
    eapply (checks_inner _ FINSH_NODE_SYS_SUB _ (typed (value_node FINSH_NODE_VALUE_LONG 0) (Some DWORD))
              (λ _, Null) (λ _, checked e 0 Null) (Some DWORD)); [done|done| |done].
    intros a s Ha. cbn [child_addr]. apply (checks_const_long 0 a (tree_of e Null) s); [done|].
    apply check_one; [auto|by left].
  - (* EAssign *)
    destruct (checked_rootf e1 (λ _, FINSH_IDTYPE_ADDRESS) (checked e2 0 Null)) as (n&c&Hn).
    eapply (checks_inner _ FINSH_NODE_SYS_ASSIGN _ n c (λ _, checked e2 0 Null) (width_of e1));
      [done|intros; cbn; by rewrite <- (proj1 (Hn a))| |intros a; apply Hn].
    intros a s Ha. rewrite <- (proj1 (Hn a)). apply check_pair; auto using wt_lval. by right.
  - (* EPre *)
    assert (is_Some (var_width i)) as Hi by (by destruct op, i; try done; eapply bool_decide_eq_true).
    eapply (checks_inner _ (pre_kind op) _ (λ _, typed (id_node i) (var_width i) FINSH_IDTYPE_ADDRESS)
              (λ _, Null) (λ _, Null) (var_width i)); [done|done| |done].
    intros a s Ha. replace (child_addr (pre_kind op) a) with FINSH_IDTYPE_ADDRESS by (by destruct op).
    apply (check_var i _ 0 Null s Hi). by right.
  - (* EPost *)
    assert (is_Some (var_width i)) as Hi by (by destruct op, i; try done; eapply bool_decide_eq_true).
    eapply (checks_inner _ (post_kind op) _ (typed (id_node i) (var_width i))
              (λ _, Null) (λ _, Null) (var_width i)); [done|done| |done].
    intros a s Ha. replace (child_addr (post_kind op) a) with a by (by destruct op).
    apply (check_var i _ 0 Null s Hi Ha).
  - (* EDeref *)
    destruct (checked_rootf e (λ _, 0) Null) as (n&c&Hn).
    eapply (checks_inner _ FINSH_NODE_SYS_GETVALUE _ n c (λ _, Null) (width_of e));
      [done|intros; cbn; by rewrite <- (proj1 (Hn a))| |intros a; apply Hn].
    intros a s Ha. rewrite <- (proj1 (Hn a)).
    replace (child_addr _ a) with 0 by (by destruct Ha as [-> | ->]). apply check_one; [auto|by left].
  - (* EAddr *)
    destruct (checked_rootf e (λ _, FINSH_IDTYPE_ADDRESS) Null) as (n&c&Hn).
    eapply (checks_inner _ FINSH_NODE_SYS_GETADDR _ n c (λ _, Null) (width_of e));
      [done|intros; cbn; by rewrite <- (proj1 (Hn a))| |intros a; apply Hn].
    intros a s Ha. rewrite <- (proj1 (Hn a)). apply check_one; [auto using wt_lval|by right].
  - (* ECall *)
    eapply (checks_inner _ FINSH_NODE_SYS_FUNC
              (Tree (id_node (IdSyscall entry func)) Null (foldr tree_of Null args))
              (λ _, id_node (IdSyscall entry func)) (λ _, Null)
              (λ _, foldr (λ e t, checked e 0 t) Null args) None); [done|done| |done].
    intros a s Ha. assert (Forall checks args) as Hargs.
    { match goal with H : forallb _ _ = true |- _ => apply forallb_Forall in H; revert H end.
      apply (Forall_impl_2 _ _ _ _ H). intros x Hx [? _]%andb_true_iff. auto. }
    cbn [child_addr finsh_type_check]. unfold mbind, C_bind, mret, C_ret. change FINSH_NODE_VALUE with 0.
    rewrite (checks_args args s Hargs). destruct Ha as [-> | ->]; done.
  - (* ECast *)
    intros a sib s Ha. destruct (IHe Hwt a sib s Ha) as [H1 H2]. cbn [tree_of checked].
    split; [apply H2|]. intros t'. rewrite cast_cast. apply H2.
Qed.

(** ** The code of an expression *)

Lemma with_width_some w f g : with_width (width_code (Some w)) f g = f w.
Proof. by destruct w. Qed.

Lemma emits_for o f l : is_Some o → (∀ w, emits (f w) (l w)) →
  emits (with_width (width_code o) f (mret tt)) (for_width o l).
Proof. intros [w ->] Hf. rewrite with_width_some. apply Hf. Qed.

Lemma opcode_byte op : in_u8 op → emits (finsh_code_byte op) [op].
Proof. intros H. rewrite <- (u8_small op H) at 2. apply emits_byte. Qed.

Lemma emits_op x l c : in_u8 x → emits c l → emits (finsh_code_byte x;; c) (x :: l).
Proof. intros Hx Hc. apply (emits_seq _ _ [x]); [by apply opcode_byte|done]. Qed.

Ltac op_range := unfold in_u8, FINSH_OP_BIN, FINSH_OP_BITWISE, FINSH_OP_LD, FINSH_OP_LD_VALUE, FINSH_OP_ST,
  FINSH_OP_LD_VALUE_STACK, FINSH_OP_POP, FINSH_OP_SYSCALL;
  repeat match goal with w : width |- _ => destruct w | op : binop |- _ => destruct op end; cbn; lia.

Lemma emits_step op a w : emits (compile_step op a w) (step_code op a w).
Proof.
  unfold compile_step, step_code. cbn [app]. apply emits_op; [op_range|].
  apply (emits_seq _ _ (le32 a)); [apply emits_dword|]. apply emits_op; [op_range|].
  apply emits_seq; [destruct w; [apply emits_byte|apply emits_word|apply emits_dword]|].
  apply emits_op; [op_range|]. apply opcode_byte. op_range.
Qed.

(** The address of a variable is loaded in one mode and its value in the other. *)
Lemma emits_var i w : var_width i = Some w →
  emits (compile_id (typed (id_node i) (Some w) 0)) (FINSH_OP_LD_VALUE w :: le32 (var_addr i)) ∧
  emits (compile_id (typed (id_node i) (Some w) FINSH_IDTYPE_ADDRESS))
    (FINSH_OP_LD DWORD :: le32 (var_addr i)).
Proof.
  intros Hw. destruct i as [|p t|p t v|]; try discriminate Hw; cbn in Hw; unfold compile_id, compile_load;
    cbn -[finsh_code_byte finsh_code_dword]; rewrite Hw; cbn -[finsh_code_byte finsh_code_dword];
    split; (apply emits_op; [op_range|apply emits_dword]).
Qed.

(** The code of a checked tree is the code of the expression and then that of the
    sibling; likewise for a place. *)
Definition compiles (e : expr) : Prop := ∀ sib k, emits (finsh_compile sib) k →
  (wt e = true → emits (finsh_compile (checked e 0 sib)) (code e ++ k)) ∧
  (lvalue e = true → emits (finsh_compile (checked e FINSH_IDTYPE_ADDRESS sib)) (address_code e ++ k)).

Lemma emits_tree n c sib lc ln ls : emits (finsh_compile c) lc → emits (compile_node n c) ln →
  emits (finsh_compile sib) ls → emits (finsh_compile (Tree n c sib)) ((lc ++ ln) ++ ls).
Proof. intros. rewrite <- app_assoc. cbn [finsh_compile]. by apply emits_seq, emits_seq. Qed.

Lemma emits_leaf n sib ln ls : emits (compile_node n Null) ln → emits (finsh_compile sib) ls →
  emits (finsh_compile (Tree n Null sib)) (ln ++ ls).
Proof. apply (emits_tree n Null sib []), emits_nil. Qed.

Lemma compiles_args args : Forall compiles args → forallb (λ e, wt e && covers (precision e) DWORD) args = true →
  emits (finsh_compile (foldr (λ e t, checked e 0 t) Null args)) (concat (code <$> args)).
Proof.
  induction 1 as [|e args He _ IH]; [intros; apply emits_nil|]. cbn [forallb]. intros Hwt. wt_split.
  cbn. apply He; auto.
Qed.

(** The children of a node and its operation. *)
Lemma emits_tree_eq n c sib lc ln ls l : emits (finsh_compile c) lc → emits (compile_node n c) ln →
  emits (finsh_compile sib) ls → (lc ++ ln) ++ ls = l → emits (finsh_compile (Tree n c sib)) l.
Proof. intros ??? <-. by apply emits_tree. Qed.

Lemma compiles_pair e1 e2 a l : compiles e1 → compiles e2 → wt e2 = true →
  (wt e1 = true ∧ a = 0 ∧ l = code e1 ∨
   lvalue e1 = true ∧ a = FINSH_IDTYPE_ADDRESS ∧ l = address_code e1) →
  emits (finsh_compile (checked e1 a (checked e2 0 Null))) (l ++ code e2).
Proof.
  intros H1 H2 Hw H. destruct (H1 (checked e2 0 Null) (code e2)) as [Ha Hb].
  { rewrite <- (app_nil_r (code e2)). apply H2; [apply emits_nil|done]. }
  destruct H as [(?&->&->)|(?&->&->)]; auto.
Qed.
Lemma compiles_one e a l : compiles e →
  (wt e = true ∧ a = 0 ∧ l = code e ∨ lvalue e = true ∧ a = FINSH_IDTYPE_ADDRESS ∧ l = address_code e) →
  emits (finsh_compile (checked e a Null)) l.
Proof.
  intros H1 H. destruct (H1 Null []) as [Ha Hb]; [apply emits_nil|]. rewrite app_nil_r in *.
  destruct H as [(?&->&->)|(?&->&->)]; auto.
Qed.

Lemma width_of_some e (P : width → bool) :
  match width_of e with Some w => P w | None => false end = true → is_Some (width_of e).
Proof. by destruct (width_of e). Qed.

Ltac emit_ops := repeat (apply emits_op; [op_range|]); first [apply opcode_byte; op_range|apply emits_dword|apply emits_byte].

Lemma count_args args : count_siblings (foldr (λ e t, checked e 0 t) Null args) = zlen args.
Proof.
  induction args as [|e args IH]; [done|]. cbn [foldr]. destruct (checked_root e 0 (foldr (λ e t, checked e 0 t) Null args))
    as (?&?&->&_). cbn [count_siblings]. rewrite IH, zlen_cons. lia.
Qed.

Lemma emits_store w : emits (compile_store w) ([FINSH_OP_ST w] ++ [FINSH_OP_LD_VALUE_STACK w]).
Proof. apply emits_seq; apply opcode_byte; op_range. Qed.

Lemma emits_assign l a n sib : lvalue l = true → is_Some (width_of l) → n = typed (sys_node FINSH_NODE_SYS_ASSIGN) (width_of l) a →
  emits (compile_node n (checked l FINSH_IDTYPE_ADDRESS sib))
    (for_width (width_of l) (λ w, [FINSH_OP_ST w] ++ [FINSH_OP_LD_VALUE_STACK w])).
Proof.
  intros Hl [w Hw] ->. rewrite Hw. destruct l; try done; cbn [width_of] in Hw; cbn; rewrite Hw;
    destruct w; apply emits_store.
Qed.

Lemma compiles_wt e : compiles e.
Proof.
  induction e using expr_ind'; intros sib k Hk; (split; [cbn [wt]; intros Hwt; wt_split|try done]).
  1-4: cbn [checked code]; apply (emits_leaf _ _ _ _); [|done]; emit_ops.
  - (* EVar *)
    apply bool_decide_eq_true in Hwt as [w Hw]. cbn [checked code]. rewrite Hw.
    apply emits_leaf; [apply (emits_var i w Hw)|done].
  - intros [w Hw]%bool_decide_eq_true. cbn [checked address_code]. rewrite Hw.
    apply (emits_leaf _ _ (_ :: _)); [apply (emits_var i w Hw)|done].
  - (* EBin *)
    cbn [checked code]. eapply emits_tree_eq; [apply compiles_pair; auto| |exact Hk|].
    + replace (compile_node _ _) with (compile_bin op (typed (sys_node (bin_kind op)) (width_of e1) 0))
        by (by destruct op). apply emits_for; [by eapply width_of_some|]. intros w.
      apply (opcode_byte (FINSH_OP_BIN op w)). op_range.
    + by rewrite <- !app_assoc.
  - (* ENot *)
    cbn [checked code]. apply emits_tree; [apply compiles_one; auto| |exact Hk].
    apply emits_for; [by eapply bool_decide_eq_true|intros w; emit_ops].
  - (* ENeg *)
    cbn [checked code]. eapply emits_tree_eq; [| |exact Hk|].
    + apply (emits_leaf _ _ (FINSH_OP_LD DWORD :: le32 0) (code e));
        [apply emits_op; [op_range|apply emits_dword]|]. apply compiles_one; auto.
    + apply (emits_for (Some DWORD) _ (λ w, [FINSH_OP_BIN Sub w])); [done|intros w; emit_ops].
    + by rewrite <- !app_assoc.
  - (* EAssign *)
    match goal with H : _ = true |- _ => change (lvalue e1 = true) in H end.
    change (code (EAssign e1 e2)) with (address_code e1 ++ code e2 ++
      for_width (width_of e1) (λ w, [FINSH_OP_ST w] ++ [FINSH_OP_LD_VALUE_STACK w])).
    cbn [checked]. eapply emits_tree_eq; [apply compiles_pair; auto| |exact Hk|].
    + eapply emits_assign; [done|by eapply width_of_some|done].
    + by rewrite <- !app_assoc.
  - (* EPre *)
    assert (∃ w, var_width i = Some w ∧ (op = Add ∨ op = Sub) ∧ ∃ p t, i = IdVar p t)
      as (w&Hw&Hop&p&t&->) by (destruct op, i; try done; apply bool_decide_eq_true in Hwt as [w ?]; eauto 10).
    cbn [checked code]. rewrite Hw. eapply emits_tree_eq; [| |exact Hk|].
    + apply (emits_leaf _ _ (FINSH_OP_LD DWORD :: le32 (var_addr (IdVar p t))) []);
        [apply (emits_var _ w Hw)|apply emits_nil].
    + replace (compile_node _ _) with (with_width (width_code (Some w)) (λ w,
        compile_step op (p + VALUE_OFFSET) w;; finsh_code_byte (FINSH_OP_LD_VALUE_STACK DWORD)) (mret tt))
        by (by destruct Hop as [-> | ->]).
      rewrite with_width_some. apply emits_seq; [apply emits_step|apply opcode_byte; op_range].
    + by rewrite app_nil_r.
  - (* EPost *)
    assert (∃ w, var_width i = Some w ∧ (op = Add ∨ op = Sub) ∧ ∃ p t, i = IdVar p t)
      as (w&Hw&Hop&p&t&->) by (destruct op, i; try done; apply bool_decide_eq_true in Hwt as [w ?]; eauto 10).
    cbn [checked code]. rewrite Hw. eapply emits_tree_eq; [| |exact Hk|].
    + apply (emits_leaf _ _ (FINSH_OP_LD_VALUE w :: le32 (var_addr (IdVar p t))) []);
        [apply (emits_var _ w Hw)|apply emits_nil].
    + replace (compile_node _ _) with (with_width (width_code (Some w)) (λ w,
        finsh_code_byte (FINSH_OP_LD DWORD);; finsh_code_dword (p + VALUE_OFFSET);;
        compile_step op (p + VALUE_OFFSET) w;; finsh_code_byte FINSH_OP_POP) (mret tt))
        by (by destruct Hop as [-> | ->]).
      rewrite with_width_some. apply emits_op; [op_range|]. apply emits_seq; [apply emits_dword|].
      apply emits_seq; [apply emits_step|apply opcode_byte; op_range].
    + rewrite app_nil_r. cbn [for_width app]. by rewrite <- !app_assoc.
  - (* EDeref *)
    cbn [checked code]. apply emits_tree; [apply compiles_one; auto| |exact Hk].
    apply (emits_for _ _ (λ w, [FINSH_OP_LD_VALUE_STACK w])); [by eapply bool_decide_eq_true|].
    intros w; emit_ops.
  - cbn [lvalue]. intros Hl. wt_split. cbn [checked address_code].
    rewrite <- (app_nil_r (code e)). apply emits_tree; [apply compiles_one; auto|apply emits_nil|exact Hk].
  - (* EAddr *)
    change (lvalue e = true) in Hwt. change (code (EAddr e)) with (address_code e).
    rewrite <- (app_nil_r (address_code e)). cbn [checked].
    apply emits_tree; [apply compiles_one; auto|apply emits_nil|exact Hk].
  - (* ECall *)
    cbn [checked code]. eapply emits_tree_eq; [| |exact Hk|].
    + apply (emits_leaf _ _ (FINSH_OP_LD DWORD :: le32 func) (concat (code <$> args)));
        [apply emits_op; [op_range|apply emits_dword]|by apply compiles_args].
    + change (compile_node _ _) with (finsh_code_byte FINSH_OP_SYSCALL;;
        finsh_code_byte (count_siblings (foldr (λ e t, checked e 0 t) Null args))).
      rewrite count_args. apply (emits_op _ [u8 (zlen args)]); [op_range|apply emits_byte].
    + by rewrite <- !app_assoc.
  - (* ECast *)
    cbn [checked code]. by apply IHe.
Qed.
