(* ===== verification/FinshExec.v ===== *)
(** * Running the code of an expression

    The machine of the shell on a piece of code: the operations one by one, and
    that the code of an expression computes its value. *)

From S2P Require Import Prelude KString HeapWp FinshNode FinshVm FinshCompiler FinshSem FinshCodegen.

Section exec.
Context (call : Z → list Z → mem → option (Z * mem)).
Implicit Types (m : mem) (base rest text pre post : list Z).

(** ** Configurations *)

(** The words in use, the rest of the stack, the text and the program counter. *)
Definition conf m base rest text (pc : Z) : vm := Vm m (base ++ rest) text (zlen base) pc.

(** Wherever the code [c] is in the text, the machine comes from its start to its
    end in at most as many rounds as it has bytes. *)
Definition runs (c : list Z) m base rest m' base' rest' : Prop := ∀ pre post text,
  text = pre ++ c ++ post → zlen text = FINSH_TEXT_MAX →
  ∃ n : nat, Z.of_nat n <= zlen c ∧ ∀ fuel,
    vm_loop call (n + fuel) (conf m base rest text (zlen pre)) =
    vm_loop call fuel (conf m' base' rest' text (zlen pre + zlen c)).

Lemma runs_nil m base rest : runs [] m base rest m base rest.
Proof.
  intros pre post text -> Hl. exists O. change (zlen (@nil Z)) with 0. split; [done|].
  intros fuel. by rewrite Z.add_0_r.
Qed.

Lemma runs_app c d m base rest m1 base1 rest1 m2 base2 rest2 :
  runs c m base rest m1 base1 rest1 → runs d m1 base1 rest1 m2 base2 rest2 →
  runs (c ++ d) m base rest m2 base2 rest2.
Proof.
  intros Hc Hd pre post text Ht Hl.
  destruct (Hc pre (d ++ post) text) as (n&Hn&Hc'); [by rewrite Ht, <- app_assoc|done|].
  destruct (Hd (pre ++ c) post text) as (k&Hk&Hd'); [by rewrite Ht, <- !app_assoc|done|].
  exists (n + k)%nat. rewrite (zlen_app c d). split; [lia|]. intros fuel.
  rewrite <- Nat.add_assoc, Hc'. rewrite zlen_app in Hd'. rewrite Hd', Z.add_assoc. done.
Qed.

(** One operation with its operand. *)
Lemma runs_op op args m base rest m' base' rest' :
  (∀ pre post, op_table call op (conf m base rest (pre ++ args ++ post) (zlen pre)) =
     Some (tt, conf m' base' rest' (pre ++ args ++ post) (zlen pre + zlen args))) →
  runs (op :: args) m base rest m' base' rest'.
Proof.
  intros Hop pre post text -> Hl. exists 1%nat. rewrite zlen_cons. pose proof (zlen_nonneg args).
  split; [lia|]. intros fuel. pose proof (zlen_nonneg pre). pose proof (zlen_nonneg post).
  rewrite !zlen_app, zlen_cons in Hl. cbn [Nat.add vm_loop]. unfold mbind, V_bind, vget.
  cbn [finsh_pc conf]. rewrite bool_decide_true by lia. unfold code_byte. cbn [finsh_pc text_segment conf].
  rewrite Z.add_0_r. unfold arr_get. rewrite bool_decide_true by lia.
  rewrite lookup_app_r by (unfold zlen; lia). replace (Z.to_nat _ - _)%nat with O by (unfold zlen; lia).
  cbn [app lookup list_lookup]. unfold move_pc, vset, set_pc. cbn [vmem finsh_vm_stack text_segment finsh_sp finsh_pc conf].
  specialize (Hop (pre ++ [op]) post). unfold conf in Hop. rewrite zlen_app, <- app_assoc in Hop. cbn [app] in Hop.
  change (zlen [op]) with 1 in Hop. unfold conf. rewrite Hop. f_equal. f_equal. lia.
Qed.

(** ** Words of the stack *)


Lemma slot_0 m base x rest text pc :
  slot 0 (conf m base (x :: rest) text pc) = Some (x, conf m base (x :: rest) text pc).
Proof. unfold slot, conf. cbn. rewrite Z.add_0_r. by rewrite arr_get_mid. Qed.
Lemma slot_1 m base x rest text pc :
  slot (-1) (conf m (base ++ [x]) rest text pc) = Some (x, conf m (base ++ [x]) rest text pc).
Proof.
  unfold slot, conf. cbn. rewrite zlen_app, <- app_assoc. change (zlen [x]) with 1.
  replace (zlen base + 1 + -1) with (zlen base) by lia. cbn. by rewrite arr_get_mid.
Qed.
Lemma slot_2 m base x y rest text pc :
  slot (-2) (conf m (base ++ [x; y]) rest text pc) = Some (x, conf m (base ++ [x; y]) rest text pc).
Proof.
  unfold slot, conf. cbn. rewrite zlen_app, <- app_assoc. change (zlen [x; y]) with 2.
  replace (zlen base + 2 + -2) with (zlen base) by lia. cbn. by rewrite arr_get_mid.
Qed.
Lemma put_slot_0 m base x v rest text pc :
  put_slot 0 v (conf m base (x :: rest) text pc) = Some (tt, conf m base (v :: rest) text pc).
Proof. unfold put_slot, conf. cbn. rewrite Z.add_0_r. by rewrite arr_set_mid. Qed.
Lemma put_slot_1 m base x v rest text pc :
  put_slot (-1) v (conf m (base ++ [x]) rest text pc) = Some (tt, conf m (base ++ [v]) rest text pc).
Proof.
  unfold put_slot, conf, set_stack. cbn. rewrite !zlen_app, <- !app_assoc. change (zlen [_]) with 1.
  replace (zlen base + 1 + -1) with (zlen base) by lia. cbn. by rewrite arr_set_mid.
Qed.
Lemma put_slot_2 m base x y v rest text pc :
  put_slot (-2) v (conf m (base ++ [x; y]) rest text pc) = Some (tt, conf m (base ++ [v; y]) rest text pc).
Proof.
  unfold put_slot, conf, set_stack. cbn. rewrite !zlen_app, <- !app_assoc. change (zlen [_; _]) with 2.
  replace (zlen base + 2 + -2) with (zlen base) by lia. cbn. by rewrite arr_set_mid.
Qed.
Lemma push m base x rest text pc :
  move_sp 1 (conf m base (x :: rest) text pc) = Some (tt, conf m (base ++ [x]) rest text pc).
Proof. unfold move_sp, vset, set_sp, conf. cbn. by rewrite zlen_app, <- app_assoc. Qed.
Lemma drop_top m base x rest text pc :
  move_sp (-1) (conf m (base ++ [x]) rest text pc) = Some (tt, conf m base (x :: rest) text pc).
Proof.
  unfold move_sp, vset, set_sp, conf. cbn. rewrite zlen_app, <- app_assoc. change (zlen [x]) with 1.
  by replace (zlen base + 1 + -1) with (zlen base) by lia.
Qed.
Lemma advance m base rest text pc d :
  move_pc d (conf m base rest text pc) = Some (tt, conf m base rest text (pc + d)).
Proof. done. Qed.

(** ** Operands *)

Lemma text_byte_at i b l m base rest pre r text : text = pre ++ l ++ b :: r → zlen l = i →
  code_byte i (conf m base rest text (zlen pre)) = Some (b, conf m base rest text (zlen pre)).
Proof.
  intros -> <-. unfold code_byte. cbn [conf finsh_pc text_segment]. rewrite <- zlen_app, app_assoc.
  by rewrite arr_get_mid.
Qed.

Lemma get16 x m base rest pre post :
  FINSH_GET16 (conf m base rest (pre ++ le16 x ++ post) (zlen pre)) =
  Some (u16 x, conf m base rest (pre ++ le16 x ++ post) (zlen pre)).
Proof.
  unfold FINSH_GET16, mbind, V_bind, le16.
  rewrite (text_byte_at 0 (u8 x) [] m base rest pre (u8 (Z.shiftr x 8) :: post)) by done.
  rewrite (text_byte_at 1 (u8 (Z.shiftr x 8)) [u8 x] m base rest pre post) by done. unfold mret, V_ret. do 2 f_equal.
  rewrite lor_shiftl, Z.shiftr_div_pow2 by (done || apply u8_range). mlia.
Qed.

Lemma get32 x m base rest pre post :
  FINSH_GET32 (conf m base rest (pre ++ le32 x ++ post) (zlen pre)) =
  Some (u32 x, conf m base rest (pre ++ le32 x ++ post) (zlen pre)).
Proof.
  unfold FINSH_GET32, mbind, V_bind, le32. set (y := u32 x).
  set (b0 := u8 y). set (b1 := u8 (Z.shiftr y 8)). set (b2 := u8 (Z.shiftr y 16)).
  set (b3 := u8 (Z.shiftr y 24)).
  rewrite (text_byte_at 0 b0 [] m base rest pre (b1 :: b2 :: b3 :: post)) by done.
  rewrite (text_byte_at 1 b1 [b0] m base rest pre (b2 :: b3 :: post)) by done.
  rewrite (text_byte_at 2 b2 [b0; b1] m base rest pre (b3 :: post)) by done.
  rewrite (text_byte_at 3 b3 [b0; b1; b2] m base rest pre post) by done. subst b0 b1 b2 b3.
  unfold mret, V_ret. do 2 f_equal. rewrite !Z.shiftr_div_pow2 by done.
  rewrite (lor_shiftl (u8 y)) by (done || apply u8_range).
  rewrite (lor_shiftl (u8 y + _)) by (done || mlia). rewrite lor_shiftl by (done || mlia).
  assert (in_u32 y) by apply u32_range. change (2 ^ 24) with (2 ^ 8 * 2 ^ 8 * 2 ^ 8).
  change (2 ^ 16) with (2 ^ 8 * 2 ^ 8). rewrite <- !Z.div_div by lia. mlia.
Qed.

(** ** Operations *)

Lemma u32_s32_eq x v : s32 x = s32 v → u32 x = u32 v.
Proof. mlia. Qed.

Lemma snoc2 base x y : base ++ [x; y] = (base ++ [x]) ++ [y].
Proof. by rewrite <- app_assoc. Qed.

Lemma op_table_bin op w : op_table call (FINSH_OP_BIN op w) = OP_BIN w op.
Proof. by destruct op, w. Qed.

Lemma run_ld w z m base r rest :
  ∃ x, get_value w x = get_value w z ∧
    runs (FINSH_OP_LD w :: le w z) m base (r :: rest) m (base ++ [x]) rest.
Proof.
  exists (set_value w r (match w with BYTE => u8 z | WORD => u16 z | DWORD => u32 z end)). split.
  - rewrite get_set_value. destruct w; cbn [get_value]; mlia.
  - apply runs_op. intros pre post.
    replace (op_table call (FINSH_OP_LD w)) with (OP_ld w) by (by destruct w).
    unfold OP_ld, mbind, V_bind. rewrite slot_0. destruct w; cbn [le].
    + rewrite (text_byte_at 0 (u8 z) [] m base _ pre post) by done. rewrite put_slot_0, push. done.
    + rewrite get16, put_slot_0, push. done.
    + rewrite get32, put_slot_0, push. done.
Qed.

Lemma run_ld_value w a v m base r rest : load_value w m (u32 a) = Some v →
  ∃ x, get_value w x = v ∧
    runs (FINSH_OP_LD_VALUE w :: le32 a) m base (r :: rest) m (base ++ [x]) rest.
Proof.
  intros Hv. exists (set_value w r v). split.
  - rewrite get_set_value. by eapply load_value_canon.
  - apply runs_op. intros pre post.
    replace (op_table call (FINSH_OP_LD_VALUE w)) with (OP_ld_value w) by (by destruct w).
    unfold OP_ld_value, mbind, V_bind. rewrite get32. unfold vread. cbn [conf vmem]. rewrite Hv.
    fold (conf m base (r :: rest) (pre ++ le32 a ++ post) (zlen pre)).
    rewrite slot_0, put_slot_0, push. done.
Qed.

Lemma run_bin w op x y v m base rest : arith op (get_value w x) (get_value w y) = Some v →
  ∃ x', get_value w x' = get_value w v ∧
    runs [FINSH_OP_BIN op w] m (base ++ [x; y]) rest m (base ++ [x']) (y :: rest).
Proof.
  intros Hv. exists (set_value w x v). split; [apply get_set_value|]. apply runs_op. intros pre post.
  rewrite op_table_bin. unfold OP_BIN, mbind, V_bind. rewrite slot_2.
  rewrite snoc2, slot_1. unfold vlift. rewrite Hv.
  rewrite <- snoc2, put_slot_2.
  rewrite snoc2, drop_top. by rewrite Z.add_0_r.
Qed.

Lemma run_bw w x m base rest :
  ∃ x', get_value w x' = get_value w (Z.lnot (get_value w x)) ∧
    runs [FINSH_OP_BITWISE w] m (base ++ [x]) rest m (base ++ [x']) rest.
Proof.
  exists (set_value w x (Z.lnot (get_value w x))). split; [apply get_set_value|].
  apply runs_op. intros pre post.
  replace (op_table call (FINSH_OP_BITWISE w)) with (OP_bw w) by (by destruct w).
  unfold OP_bw, mbind, V_bind. rewrite slot_1, put_slot_1. by rewrite Z.add_0_r.
Qed.

Lemma run_ld_stack w x v m base rest : load_value w m (u32 x) = Some v →
  ∃ x', get_value w x' = v ∧
    runs [FINSH_OP_LD_VALUE_STACK w] m (base ++ [x]) rest m (base ++ [x']) rest.
Proof.
  intros Hv. exists (set_value w x v). split; [rewrite get_set_value; by eapply load_value_canon|].
  apply runs_op. intros pre post.
  replace (op_table call (FINSH_OP_LD_VALUE_STACK w)) with (OP_ld_value_stack w) by (by destruct w).
  unfold OP_ld_value_stack, mbind, V_bind. rewrite slot_1. unfold vread. cbn [conf vmem]. rewrite Hv.
  fold (conf m (base ++ [x]) rest (pre ++ [] ++ post) (zlen pre)). rewrite put_slot_1. by rewrite Z.add_0_r.
Qed.

Lemma run_st w x y m m' base rest : store_value w m (u32 x) (get_value w y) = Some m' →
  runs [FINSH_OP_ST w] m (base ++ [x; y]) rest m' (base ++ [x]) (y :: rest).
Proof.
  intros Hm. apply runs_op. intros pre post.
  replace (op_table call (FINSH_OP_ST w)) with (OP_st w) by (by destruct w).
  unfold OP_st, mbind, V_bind. rewrite slot_2. rewrite snoc2, slot_1.
  unfold vwrite. cbn [conf vmem]. rewrite Hm. unfold set_vmem. cbn [conf vmem finsh_vm_stack text_segment finsh_sp finsh_pc].
  fold (conf m' ((base ++ [x]) ++ [y]) rest (pre ++ [] ++ post) (zlen pre)). rewrite drop_top.
  by rewrite Z.add_0_r.
Qed.

Lemma run_pop x m base rest : runs [FINSH_OP_POP] m (base ++ [x]) rest m base (x :: rest).
Proof.
  apply runs_op. intros pre post. change (op_table call FINSH_OP_POP) with OP_pop. unfold OP_pop.
  rewrite drop_top. by rewrite Z.add_0_r.
Qed.

(** ** Calls *)

Lemma take_parameters_spec m base f text pc xs : ∀ rest acc,
  take_parameters (length xs) acc (Vm m (base ++ f :: xs ++ rest) text (zlen base + zlen xs) pc) =
  Some ((s32 <$> xs) ++ acc, Vm m (base ++ f :: xs ++ rest) text (zlen base) pc).
Proof.
  induction xs as [|y ys IH] using rev_ind; intros rest acc.
  { cbn. change (zlen (@nil Z)) with 0. by rewrite Z.add_0_r. }
  rewrite length_app, Nat.add_comm. cbn [length Nat.add take_parameters]. unfold mbind, V_bind, slot.
  cbn [finsh_sp finsh_vm_stack]. rewrite Z.add_0_r.
  replace (zlen base + zlen (ys ++ [y])) with (zlen (base ++ f :: ys))
    by (rewrite !zlen_app, zlen_cons; change (zlen [y]) with 1; lia).
  replace (base ++ f :: (ys ++ [y]) ++ rest) with ((base ++ f :: ys) ++ y :: rest)
    by (by rewrite <- !app_assoc; cbn [app]; rewrite <- ?app_assoc).
  rewrite arr_get_mid. unfold move_sp, vset, set_sp. cbn [vmem finsh_vm_stack text_segment finsh_sp finsh_pc].
  replace (zlen (base ++ f :: ys) + -1) with (zlen base + zlen ys)
    by (rewrite zlen_app, zlen_cons; lia).
  rewrite <- app_assoc. cbn [app]. rewrite (IH (y :: rest)). rewrite fmap_app, <- app_assoc. done.
Qed.

Lemma run_call f xs r m m' base rest :
  call (u32 f) (if bool_decide (xs = []) then [0] else s32 <$> xs) m = Some (r, m') → zlen xs <= 16 →
  runs [FINSH_OP_SYSCALL; u8 (zlen xs)] m (base ++ f :: xs) rest m' (base ++ [u32 r]) (xs ++ rest).
Proof.
  intros Hc Hn. apply runs_op. intros pre post. change (op_table call FINSH_OP_SYSCALL) with (OP_call call).
  pose proof (zlen_nonneg xs). unfold OP_call, mbind, V_bind. rewrite (u8_small (zlen xs)) by mlia.
  rewrite (text_byte_at 0 (zlen xs) [] m _ _ pre post) by done. rewrite advance.
  unfold move_sp at 1, vset. unfold set_sp, conf at 1. cbn [vmem finsh_vm_stack text_segment finsh_sp finsh_pc conf].
  rewrite bool_decide_true by lia. unfold mret, V_ret. rewrite zlen_app, zlen_cons, <- app_assoc. cbn [app].
  replace (zlen base + (zlen xs + 1) + -1) with (zlen base + zlen xs) by lia.
  replace (Z.to_nat (zlen xs)) with (length xs) by (unfold zlen; lia).
  rewrite take_parameters_spec, app_nil_r. unfold slot. cbn [finsh_sp finsh_vm_stack]. rewrite Z.add_0_r, arr_get_mid.
  unfold vget. cbn [vmem]. replace (bool_decide (zlen xs = 0)) with (bool_decide (xs = [])).
  2: { apply bool_decide_ext. destruct xs; [done|]. rewrite zlen_cons. pose proof (zlen_nonneg xs). split; [done|lia]. }
  rewrite Hc. unfold vlift, set_vmem, put_slot. cbn [vmem finsh_vm_stack text_segment finsh_sp finsh_pc].
  rewrite Z.add_0_r, arr_set_mid. unfold set_stack, conf, move_sp, vset, set_sp.
  cbn [vmem finsh_vm_stack text_segment finsh_sp finsh_pc]. rewrite zlen_app, <- app_assoc. done.
Qed.

(** ** Expressions *)

Definition eval_address (l : expr) (m : mem) : option (Z * mem) :=
  match l with
  | EVar i => Some (var_addr i, m)
  | EDeref e => eval call e m
  | _ => None
  end.

(** The code of an expression pushes a word whose significant part is the value;
    that of a place pushes its address. *)
Definition values (e : expr) : Prop := ∀ m v m' base rest,
  wt e = true → eval call e m = Some (v, m') → depth e <= zlen rest →
  ∃ x rest', get_value (precision e) x = v ∧ zlen rest' = zlen rest - 1 ∧
    runs (code e) m base rest m' (base ++ [x]) rest'.
Definition places (e : expr) : Prop := ∀ m v m' base rest,
  lvalue e = true → eval_address e m = Some (v, m') → address_depth e <= zlen rest →
  ∃ x rest', s32 x = s32 v ∧ zlen rest' = zlen rest - 1 ∧
    runs (address_code e) m base rest m' (base ++ [x]) rest'.

Lemma args_depth_nonneg args : 0 <= foldr (λ e d, Z.max (depth e) (1 + d)) 0 args.
Proof. induction args as [|e args IH]; cbn [foldr]; lia. Qed.

Lemma depth_pos e : 1 <= depth e.
Proof.
  induction e using expr_ind'; cbn [depth]; try lia.
  - destruct e; cbn [depth] in *; lia.
  - pose proof (args_depth_nonneg args). lia.
Qed.

Lemma split_rest (rest : list Z) n : n <= zlen rest → 1 <= n → ∃ r rest', rest = r :: rest'.
Proof. destruct rest; [change (zlen (@nil Z)) with 0; lia|eauto]. Qed.

Lemma width_precision_bits e :
  (∀ w, width_of e = Some w → bits w <= bits (precision e)) ∧
  match e with EDeref e => ∀ w, width_of e = Some w → bits w <= bits (precision e) | _ => True end.
Proof.
  induction e using expr_ind'; cbn [width_of precision]; split; try done; try (by apply IHe);
    intros w Hw; try rewrite Hw; cbn; simplify_eq; try done.
  destruct e; cbn [width_of precision] in *; try (destruct w; cbn; lia). by apply IHe.
Qed.
Lemma width_precision e w : width_of e = Some w → covers (precision e) w = true.
Proof. intros H. apply bool_decide_true. by apply width_precision_bits. Qed.

(** Pushing a word and going on. *)
Lemma runs_then c d m base rest m1 x rest1 m2 x2 rest2 :
  runs c m base rest m1 (base ++ [x]) rest1 → runs d m1 (base ++ [x]) rest1 m2 (base ++ [x2]) rest2 →
  runs (c ++ d) m base rest m2 (base ++ [x2]) rest2.
Proof. apply runs_app. Qed.

Lemma computes_const w z m base rest : 1 <= zlen rest →
  ∃ x rest', get_value w x = get_value w z ∧ zlen rest' = zlen rest - 1 ∧
    runs (FINSH_OP_LD w :: le w z) m base rest m (base ++ [x]) rest'.
Proof.
  intros Hr. destruct (split_rest rest 1) as (r&rest'&->); [done|done|].
  destruct (run_ld w z m base r rest') as (x&Hx&H). exists x, rest'. rewrite zlen_cons. split_and!; [done|lia|done].
Qed.

Lemma computes_var w i v m base rest : load_value w m (u32 (var_addr i)) = Some v → 1 <= zlen rest →
  ∃ x rest', get_value w x = v ∧ zlen rest' = zlen rest - 1 ∧
    runs (FINSH_OP_LD_VALUE w :: le32 (var_addr i)) m base rest m (base ++ [x]) rest'.
Proof.
  intros Hv Hr. destruct (split_rest rest 1) as (r&rest'&->); [done|done|].
  destruct (run_ld_value w _ v m base r rest' Hv) as (x&Hx&H). exists x, rest'. rewrite zlen_cons.
  split_and!; [done|lia|done].
Qed.

(** An operator on two words. *)
Lemma computes_op w op x y a b v m base rest p1 p2 :
  get_value p1 x = a → get_value p2 y = b → covers p1 w = true → covers p2 w = true →
  arith op (get_value w a) (get_value w b) = Some v →
  ∃ x', get_value w x' = get_value w v ∧
    runs [FINSH_OP_BIN op w] m ((base ++ [x]) ++ [y]) rest m (base ++ [x']) (y :: rest).
Proof.
  intros Hx Hy H1 H2 Hv. rewrite <- snoc2. apply run_bin.
  by rewrite (get_value_covers p1 w x a), (get_value_covers p2 w y b).
Qed.

(** Adding one to a variable whose address is on the stack. *)
Lemma computes_step w op i v v' m m' base x rest : s32 x = s32 (var_addr i) →
  load_value w m (u32 (var_addr i)) = Some v → arith op v 1 = Some v' →
  store_value w m (u32 (var_addr i)) (get_value w v') = Some m' → 2 <= zlen rest →
  ∃ rest', zlen rest' = zlen rest ∧
    runs (step_code op (var_addr i) w) m (base ++ [x]) rest m' (base ++ [x]) rest'.
Proof.
  intros Hx Hv Ha Hm Hr. unfold step_code.
  destruct (computes_var w i v m (base ++ [x]) rest Hv) as (y&rest1&Hy&Hl1&R1); [lia|].
  destruct (computes_const w 1 m ((base ++ [x]) ++ [y]) rest1) as (z&rest2&Hz&Hl2&R2); [lia|].
  destruct (computes_op w op y z v (get_value w 1) v' m (base ++ [x]) rest2 w w) as (u&Hu&R3);
    [done|done|apply bool_decide_true; done|apply bool_decide_true; done| |].
  { rewrite <- Hy, !get_value_idem, Hy. by destruct w. }
  exists (u :: z :: rest2). rewrite !zlen_cons. split; [lia|].
  eapply runs_app; [exact R1|]. eapply runs_app; [exact R2|]. eapply runs_app; [exact R3|].
  rewrite <- snoc2. apply run_st. rewrite Hu, (u32_s32_eq x (var_addr i) Hx). done.
Qed.

Lemma computes_args args : Forall values args →
  forallb (λ e, wt e && covers (precision e) DWORD) args = true → ∀ m vs m' base rest,
  evals call args m = Some (vs, m') → foldr (λ e d, Z.max (depth e) (1 + d)) 0 args <= zlen rest →
  ∃ xs rest', s32 <$> xs = vs ∧ length xs = length args ∧ zlen rest' = zlen rest - zlen args ∧
    runs (concat (code <$> args)) m base rest m' (base ++ xs) rest'.
Proof.
  induction 1 as [|e args He _ IH]; cbn [forallb evals foldr]; intros Hwt m vs m' base rest Hev Hd.
  { injection Hev as <- <-. exists [], rest. rewrite app_nil_r. split_and!; try done.
    - change (zlen (@nil expr)) with 0. lia.
    - apply runs_nil. }
  apply andb_true_iff in Hwt as [[Hwe Hc]%andb_true_iff Hwt].
  destruct (eval call e m) as [[v m1]|] eqn:E1; [cbn in Hev|done].
  destruct (evals call args m1) as [[vs' m2]|] eqn:E2; [cbn in Hev|done]. injection Hev as <- <-.
  destruct (He m v m1 base rest Hwe E1) as (x&rest1&Hx&Hl1&R1); [lia|].
  destruct (IH Hwt m1 vs' m2 (base ++ [x]) rest1 E2) as (xs&rest2&Hxs&Hlen&Hl2&R2); [lia|].
  exists (x :: xs), rest2. split_and!.
  - cbn. rewrite Hxs. f_equal. by rewrite <- Hx; destruct (precision e).
  - cbn. lia.
  - rewrite zlen_cons. lia.
  - cbn. replace (base ++ x :: xs) with ((base ++ [x]) ++ xs) by (by rewrite <- app_assoc). by eapply runs_app.
Qed.

Lemma values_bin op e1 e2 : values e1 → values e2 → values (EBin op e1 e2).
Proof.
  intros V1 V2 m v m' base rest. cbn [wt depth code precision width_of]. intros Hwt Hev Hd. cbn [eval] in Hev. wt_split.
  destruct (width_of e1) as [w|] eqn:Hw; [|done]. cbn in Hev.
  destruct (eval call e1 m) as [[a m1]|] eqn:E1; [|done]. cbn in Hev.
  destruct (eval call e2 m1) as [[b m2]|] eqn:E2; [|done]. cbn in Hev.
  destruct (arith op _ _) as [u|] eqn:Ea; [|done]. injection Hev as <- <-.
  destruct (V1 m a m1 base rest) as (x&r1&Hx&Hl1&R1); [done|done|lia|].
  destruct (V2 m1 b m2 (base ++ [x]) r1) as (y&r2&Hy&Hl2&R2); [done|done|lia|].
  destruct (computes_op w op x y a b u m2 base r2 _ _ Hx Hy) as (z&Hz&R3);
    [by apply width_precision|done|done|].
  exists z, (y :: r2). split_and!; [done|rewrite zlen_cons; lia|].
  eapply runs_app; [exact R1|]. by eapply runs_app.
Qed.

Lemma values_not e : values e → values (ENot e).
Proof.
  intros V m v m' base rest. cbn [wt depth code precision width_of]. intros Hwt Hev Hd. cbn [eval] in Hev. wt_split.
  destruct (width_of e) as [w|] eqn:Hw; [|done]. cbn in Hev.
  destruct (eval call e m) as [[a m1]|] eqn:E; [|done]. injection Hev as <- <-.
  destruct (V m a m1 base rest) as (x&r1&Hx&Hl&R1); [done|done|done|].
  destruct (run_bw w x m1 base r1) as (y&Hy&R2). exists y, r1. split_and!; [|done|by eapply runs_app].
  change (get_value w y = get_value w (Z.lnot (get_value w a))).
  rewrite Hy. by rewrite (get_value_covers _ w x a) by (done || by apply width_precision).
Qed.

Lemma values_neg e : values e → values (ENeg e).
Proof.
  intros V m v m' base rest. cbn [wt depth code precision width_of]. intros Hwt Hev Hd. cbn [eval] in Hev. wt_split.
  destruct (eval call e m) as [[a m1]|] eqn:E; [|done]. injection Hev as <- <-.
  pose proof (depth_pos e). destruct (computes_const DWORD 0 m base rest) as (z&r1&Hz&Hl1&R1); [lia|].
  destruct (V m a m1 (base ++ [z]) r1) as (x&r2&Hx&Hl2&R2); [done|done|lia|].
  destruct (computes_op DWORD Sub z x 0 a (s32 (0 - s32 a)) m1 base r2 DWORD _ Hz Hx) as (y&Hy&R3); [done|done|done|].
  exists y, (x :: r2). split_and!; [|rewrite zlen_cons; lia|].
  - change (get_value DWORD y = s32 (- a)). rewrite Hy. cbn [get_value]. mlia.
  - eapply runs_app; [exact R1|]. by eapply runs_app.
Qed.

Lemma values_deref e : values e → values (EDeref e).
Proof.
  intros V m v m' base rest. cbn [wt depth code precision width_of]. intros Hwt Hev Hd. cbn [eval] in Hev. wt_split.
  destruct (width_of e) as [w|] eqn:Hw; [|done]. cbn in Hev.
  destruct (eval call e m) as [[a m1]|] eqn:E; [|done]. cbn in Hev.
  destruct (load_value w m1 (u32 a)) as [u|] eqn:Hu; [|done]. injection Hev as <- <-.
  destruct (V m a m1 base rest) as (x&r1&Hx&Hl&R1); [done|done|done|].
  destruct (run_ld_stack w x u m1 base r1) as (y&Hy&R2).
  { rewrite (u32_s32_eq x a); [done|]. by apply (get_value_covers (precision e) DWORD x a). }
  exists y, r1. split_and!; [done|done|by eapply runs_app].
Qed.

Lemma places_var i : places (EVar i).
Proof. intros m v m' base rest _ [= <- <-] Hd. by apply (computes_const DWORD). Qed.

Lemma places_deref e : values e → places (EDeref e).
Proof.
  intros V m v m' base rest. cbn [lvalue address_depth address_code eval_address]. intros Hwt Hev Hd. wt_split.
  destruct (V m v m' base rest) as (x&r1&Hx&Hl&R1); [done|done|done|]. exists x, r1. split_and!; [|done|done].
  by apply (get_value_covers (precision e) DWORD x v).
Qed.

Lemma values_addr l : places l → values (EAddr l).
Proof.
  intros P m v m' base rest. change (wt (EAddr l)) with (lvalue l). change (code (EAddr l)) with (address_code l).
  change (depth (EAddr l)) with (address_depth l).
  change (eval call (EAddr l) m) with ('(a, m) ← eval_address l m; Some (s32 a, m)). intros Hwt Hev Hd.
  destruct (eval_address l m) as [[a m1]|] eqn:E; [|done]. injection Hev as <- <-.
  destruct (P m a m1 base rest Hwt E Hd) as (x&r1&Hx&Hl&R1). exists x, r1. split_and!; [|done|done].
  destruct l as [| | | |i| | | | | | |e| | |]; try done. cbn [precision]. cbn in Hwt. wt_split.
  destruct (precision e); try done.
Qed.

Lemma values_assign l e : places l → values e → values (EAssign l e).
Proof.
  intros P V m v m' base rest. change (wt (EAssign l e)) with
    (lvalue l && wt e && match width_of l with Some w => covers (precision e) w | None => false end).
  change (depth (EAssign l e)) with (Z.max (address_depth l) (1 + depth e)).
  change (code (EAssign l e)) with (address_code l ++ code e ++
    for_width (width_of l) (λ w, [FINSH_OP_ST w] ++ [FINSH_OP_LD_VALUE_STACK w])).
  change (eval call (EAssign l e) m) with (w ← width_of l; '(a, m) ← eval_address l m; '(v, m) ← eval call e m;
    m ← store_value w m (u32 a) (get_value w v); v ← load_value w m (u32 a); Some (v, m)).
  cbn [precision width_of]. intros Hwt Hev Hd. wt_split. destruct (width_of l) as [w|] eqn:Hw; [|done]. cbn in Hev.
  destruct (eval_address l m) as [[a m1]|] eqn:E1; [|done]. cbn in Hev.
  destruct (eval call e m1) as [[b m2]|] eqn:E2; [|done]. cbn in Hev.
  destruct (store_value w m2 _ _) as [m3|] eqn:Es; [|done]. cbn in Hev.
  destruct (load_value w m3 _) as [u|] eqn:El; [|done]. injection Hev as <- <-.
  destruct (P m a m1 base rest) as (x&r1&Hx&Hl1&R1); [done|done|lia|].
  destruct (V m1 b m2 (base ++ [x]) r1) as (y&r2&Hy&Hl2&R2); [done|done|lia|].
  assert (runs [FINSH_OP_ST w] m2 ((base ++ [x]) ++ [y]) r2 m3 (base ++ [x]) (y :: r2)) as R3.
  { rewrite <- snoc2. apply run_st. rewrite (u32_s32_eq x a Hx). by rewrite (get_value_covers (precision e) w y b). }
  destruct (run_ld_stack w x u m3 base (y :: r2)) as (z&Hz&R4); [by rewrite (u32_s32_eq x a Hx)|].
  exists z, (y :: r2). split_and!; [done|rewrite zlen_cons; lia|].
  eapply runs_app; [exact R1|]. eapply runs_app; [exact R2|]. by eapply runs_app.
Qed.

Lemma step_op op i : wt (EPre op i) = true → ∃ w, var_width i = Some w.
Proof. cbn [wt]. destruct op, i; try done; intros [w Hw]%bool_decide_eq_true; by exists w. Qed.

Lemma values_pre op i : values (EPre op i).
Proof.
  intros m v m' base rest Hwt. destruct (step_op op i Hwt) as [w Hw]. cbn [eval code depth precision width_of].
  rewrite Hw. intros Hev Hd. cbn -[load_value] in Hev.
  destruct (load_value w m _) as [u|] eqn:E1; [|done]. cbn -[load_value] in Hev.
  destruct (arith op u 1) as [u'|] eqn:E2; [|done]. cbn -[load_value] in Hev.
  destruct (store_value w m _ _) as [m1|] eqn:E3; [|done]. cbn -[load_value] in Hev.
  destruct (load_value DWORD m1 _) as [z|] eqn:E4; [|done]. injection Hev as <- <-.
  destruct (computes_const DWORD (var_addr i) m base rest) as (x&r1&Hx&Hl1&R1); [lia|].
  destruct (computes_step w op i u u' m m1 base x r1) as (r2&Hl2&R2); [done..|lia|].
  destruct (run_ld_stack DWORD x z m1 base r2) as (y&Hy&R3); [by rewrite (u32_s32_eq x _ Hx)|].
  exists y, r2. split_and!; [|lia|].
  - change (get_value w y = get_value w z). apply (get_value_covers DWORD); [by destruct w|done].
  - eapply runs_app; [exact R1|]. by eapply runs_app.
Qed.

Lemma values_post op i : values (EPost op i).
Proof.
  intros m v m' base rest Hwt. destruct (step_op op i Hwt) as [w Hw]. cbn [eval code depth precision width_of].
  rewrite Hw. intros Hev Hd. cbn in Hev.
  destruct (load_value w m _) as [u|] eqn:E1; [|done]. cbn in Hev.
  destruct (arith op u 1) as [u'|] eqn:E2; [|done]. cbn in Hev.
  destruct (store_value w m _ _) as [m1|] eqn:E3; [|done]. injection Hev as <- <-.
  destruct (computes_var w i u m base rest E1) as (z&r0&Hz&Hl0&R0); [lia|].
  destruct (computes_const DWORD (var_addr i) m (base ++ [z]) r0) as (x&r1&Hx&Hl1&R1); [lia|].
  destruct (computes_step w op i u u' m m1 (base ++ [z]) x r1) as (r2&Hl2&R2); [done..|lia|].
  exists z, (x :: r2). rewrite zlen_cons. split_and!; [done|lia|].
  eapply runs_app; [exact R0|]. eapply runs_app; [exact R1|]. eapply runs_app; [exact R2|]. apply run_pop.
Qed.

Lemma values_call entry f args : Forall values args → values (ECall entry f args).
Proof.
  intros V m v m' base rest. cbn [wt code depth precision].
  change (eval call (ECall entry f args) m) with ('(vs, m) ← evals call args m;
    '(r, m) ← call (u32 f) (if bool_decide (args = []) then [0] else vs) m; Some (s32 r, m)).
  intros Hwt Hev Hd. apply andb_true_iff in Hwt as [Hwt Hn%bool_decide_eq_true].
  destruct (evals call args m) as [[vs m1]|] eqn:E1; [cbn in Hev|done].
  destruct (call _ _ m1) as [[r m2]|] eqn:E2; [cbn in Hev|done]. injection Hev as <- <-.
  pose proof (args_depth_nonneg args).
  destruct (computes_const DWORD f m base rest) as (x&r1&Hx&Hl1&R1); [lia|].
  destruct (computes_args args V Hwt m vs m1 (base ++ [x]) r1 E1) as (xs&r2&Hxs&Hlen&Hl2&R2); [lia|].
  assert (zlen xs = zlen args) as Hz by (unfold zlen; by rewrite Hlen).
  assert (bool_decide (xs = []) = bool_decide (args = [])) as Hb
    by (apply bool_decide_ext; by destruct xs, args).
  exists (u32 r), (xs ++ r2). rewrite zlen_app. split_and!; [cbn [get_value]; mlia|lia|].
  eapply runs_app; [exact R1|]. eapply runs_app; [exact R2|]. rewrite <- Hz, <- app_assoc.
  apply run_call; [|lia]. by rewrite (u32_s32_eq x f Hx), Hb, Hxs.
Qed.

(** The code of every expression computes its value. *)
Lemma computes_wt e : values e ∧ places e.
Proof.
  induction e using expr_ind'; split; try (by intros ? ? ? ? ?); try naive_solver eauto using
    values_bin, values_not, values_neg, values_deref, values_addr, values_assign, places_var, places_deref.
  - intros m v m' base rest _ [= <- <-] Hd. by apply (computes_const DWORD).
  - intros m v m' base rest _ [= <- <-] Hd. by apply (computes_const DWORD).
  - intros m v m' base rest _ [= <- <-] Hd. by apply (computes_const BYTE).
  - intros m v m' base rest _ [= <- <-] Hd. by apply (computes_const DWORD 0).
  - intros m v m' base rest [w Hw]%bool_decide_eq_true Hev Hd. cbn in Hev. cbn [code precision width_of].
    rewrite Hw in *. cbn in *. destruct (load_value w m _) as [v'|] eqn:E; [|done]. injection Hev as <- <-.
    by apply computes_var.
  - apply values_pre.
  - apply values_post.
  - apply values_call. by eapply Forall_impl; [eassumption|intros ? []].
Qed.
End exec.
