(* ===== verification/FinshLex.v ===== *)
(** * Reading the tokens of a line

    The words of a line with the white space before them, and that the tokeniser
    reads one after the other. *)

From S2P Require Import Prelude KString KPrintSpec FinshNode FinshVm FinshToken.

(** ** Lexemes *)

(** Operators, decimal numbers, characters, names and keywords. *)
Inductive lexeme : Type :=
| LSym (t : token_type)
| LInt (z : Z)
| LLong (z : Z)
| LChar (c : Z)
| LName (name : list Z).

Definition decimal (z : Z) : list Z := Z.add 48 <$> digits 10 z.

Definition sym_text (t : token_type) : list Z :=
  match t with
  | finsh_token_type_left_paren => [40]
  | finsh_token_type_right_paren => [41]
  | finsh_token_type_comma => [44]
  | finsh_token_type_semicolon => [59]
  | finsh_token_type_mul => [42]
  | finsh_token_type_add => [43]
  | finsh_token_type_inc => [43; 43]
  | finsh_token_type_sub => [45]
  | finsh_token_type_dec => [45; 45]
  | finsh_token_type_div => [47]
  | finsh_token_type_mod => [37]
  | finsh_token_type_assign => [61]
  | finsh_token_type_and => [38]
  | finsh_token_type_or => [124]
  | finsh_token_type_xor => [94]
  | finsh_token_type_bitwise => [126]
  | finsh_token_type_shl => [60; 60]
  | finsh_token_type_shr => [62; 62]
  | _ => []
  end.

Definition text (x : lexeme) : list Z :=
  match x with
  | LSym t => sym_text t
  | LInt z => decimal z
  | LLong z => decimal z ++ [108]
  | LChar c => [39; c; 39]
  | LName name => name
  end.

Definition lex_type (x : lexeme) : token_type :=
  match x with
  | LSym t => t
  | LInt _ => finsh_token_type_value_int
  | LLong _ => finsh_token_type_value_long
  | LChar _ => finsh_token_type_value_char
  | LName name => default finsh_token_type_identifier (match_name finsh_name_table name)
  end.

Definition name_ok (name : list Z) : bool :=
  forallb (λ c, negb (is_separator c)) name && bool_decide (zlen name < FINSH_STRING_MAX) &&
  match name with c :: _ => negb (finsh_is_digit c) | [] => false end.

Definition lex_ok (x : lexeme) : bool :=
  match x with
  | LSym t => bool_decide (sym_text t ≠ [])
  | LInt z => bool_decide (0 <= z < 2 ^ 31)
  | LLong z => bool_decide (0 < z < 2 ^ 31)
  | LChar c => bool_decide (0 < c < 256 ∧ c ≠ 10 ∧ c ≠ 92)
  | LName name => name_ok name
  end.

(** What may follow a lexeme without a space. *)
Definition follow_ok (x : lexeme) (after : list Z) : bool :=
  match x with
  | LSym t =>
      let other c := match after with c' :: _ => bool_decide (c' ≠ c ∧ c' ≠ 10) | [] => false end in
      match t with
      | finsh_token_type_add => other 43
      | finsh_token_type_sub => other 45
      | finsh_token_type_div => other 47
      | _ => true
      end
  | LInt _ | LName _ => match after with c :: _ => is_separator c && bool_decide (c ≠ 10) | [] => false end
  | LLong _ | LChar _ => true
  end.

Definition is_white (c : Z) : bool := bool_decide (c = 32 ∨ c = 9 ∨ c = 13).

(** ** Lines *)

Definition render (items : list (list Z * lexeme)) (tail : list Z) : list Z :=
  foldr (λ '(ws, x) l, ws ++ text x ++ l) tail items.

Fixpoint lexes (items : list (list Z * lexeme)) (tail : list Z) : bool :=
  match items with
  | [] => forallb is_white tail
  | (ws, x) :: items =>
      forallb is_white ws && lex_ok x && follow_ok x (render items tail) && lexes items tail
  end.

(** The lexemes that the tokeniser has not read yet. *)
Definition rest_of (t : finsh_token) (ts : list lexeme) : Prop :=
  eof t = false ∧ zlen (tstring t) = FINSH_STRING_MAX ∧
  ∃ (k : nat) items tail, position t = Z.of_nat k ∧ (k <= length (line t))%nat ∧ drop k (line t) = render items tail ∧
    lexes items tail = true ∧ items.*2 = ts.

(** The token is that of the lexeme. *)
Definition holds (t : finsh_token) (x : lexeme) : Prop :=
  current_token t = lex_type x ∧
  match x with
  | LInt z | LLong z => tvalue t = z
  | LChar c => u8 (tvalue t) = c
  | LName name => cstring (tstring t) = Some name
  | LSym _ => True
  end.

Definition loaded (t : finsh_token) (x : lexeme) (ts : list lexeme) : Prop :=
  replay t = false ∧ holds t x ∧ rest_of t ts.

(** The lexemes that the parser has not been given yet. *)
Definition reads (t : finsh_token) (ts : list lexeme) : Prop :=
  replay t = false ∧ rest_of t ts ∨
  ∃ x ts', ts = x :: ts' ∧ replay t = true ∧ holds t x ∧ rest_of t ts'.

(** ** Characters *)

Lemma P_bind_some {A B} (c : P A) (f : A → P B) s a s' : c s = Some (a, s') → (c ≫= f) s = f a s'.
Proof. intros H. unfold mbind, P_bind. by rewrite H. Qed.
Ltac pstep H := rewrite (P_bind_some _ _ _ _ _ H).
Ltac pstep_by H := erewrite P_bind_some; [|apply H; try done].

Lemma digits_head z : 0 < z → ∃ d ds, digits 10 z = d :: ds ∧ d ≠ 0.
Proof.
  intros Hz. revert Hz. induction z as [z IH] using (well_founded_induction (Z.lt_wf 0)). intros Hz.
  destruct (decide (z < 10)) as [Hs|Hs].
  - exists z, []. split; [by apply digits_small|lia].
  - assert (0 < z / 10 < z) as Hq by (split; [apply Z.div_str_pos|apply Z.div_lt]; lia).
    destruct (IH (z / 10)) as (d&ds&E&Hd); [lia|lia|]. exists d, (ds ++ [z `mod` 10]).
    rewrite digits_step, E by lia. done.
Qed.

Lemma digits_mono ds : ∀ acc, 0 <= acc → Forall (λ d, 0 <= d < 10) ds → acc <= foldl (λ v d, v * 10 + d) acc ds.
Proof.
  induction ds as [|d ds IH]; intros acc Ha Hds; cbn [foldl]; [lia|]. inversion_clear Hds as [|? ? Hd Hds'].
  specialize (IH (acc * 10 + d) ltac:(lia) Hds'). lia.
Qed.

Lemma separator_not_alnum c : is_separator c = true → ¬ 97 <= c <= 122 ∧ ¬ 65 <= c <= 90 ∧ ¬ 48 <= c <= 57.
Proof.
  unfold is_separator. rewrite negb_true_iff, !orb_false_iff, !bool_decide_eq_false. lia.
Qed.

Section lex.
Context (e n : Z) (vs : list finsh_var) (m : mem) (fl al : Z).
Implicit Types (k : nat) (ct : token_type) (v : Z) (str L : list Z).

Definition at_pos k ct v str L : pstate :=
  PState (FToken false false (Z.of_nat k) ct v str L) e n vs m fl al.

Lemma drop_next k L c (rest : list Z) : drop k L = c :: rest → L !! k = Some c ∧ drop (S k) L = rest.
Proof.
  intros H. split.
  - rewrite <- (Nat.add_0_r k), <- lookup_drop, H. done.
  - replace (S k) with (k + 1)%nat by lia. rewrite <- drop_drop, H. done.
Qed.

Lemma next_char k ct v str L c rest : drop k L = c :: rest → c ≠ 10 →
  token_next_char (at_pos k ct v str L) = Some (c, at_pos (S k) ct v str L).
Proof.
  intros [Hk _]%drop_next Hc. unfold token_next_char, mbind, P_bind, tget, at_pos. cbn [tok eof position line].
  apply lookup_lt_Some in Hk as Hlt. rewrite bool_decide_false by (unfold zlen; lia).
  unfold plift, arr_get. rewrite bool_decide_true by lia. rewrite Nat2Z.id, Hk, bool_decide_false by done.
  unfold tset, set_tok, set_position, mret, P_ret. cbn. do 3 f_equal. f_equal. lia.
Qed.

Lemma next_char_end k ct v str L : drop k L = [] → (k <= length L)%nat →
  token_next_char (at_pos k ct v str L) = Some (0, PState (FToken true false 0 ct v str L) e n vs m fl al).
Proof.
  intros H Hk. apply (f_equal length) in H. rewrite length_drop in H. cbn in H.
  unfold token_next_char, mbind, P_bind, tget, at_pos. cbn [tok eof position line].
  by rewrite bool_decide_true by (unfold zlen; lia).
Qed.

Lemma prev_char k ct v str L :
  token_prev_char (at_pos (S k) ct v str L) = Some (tt, at_pos k ct v str L).
Proof.
  unfold token_prev_char, mbind, P_bind, tget, at_pos. cbn [tok eof position]. rewrite bool_decide_false by lia.
  unfold tset, set_tok, set_position. cbn. do 3 f_equal. f_equal. lia.
Qed.

Lemma put_string_ok k ct v str L i c : 0 <= i < zlen str →
  put_string i c (at_pos k ct v str L) = Some (tt, at_pos k ct v (<[Z.to_nat i := c]> str) L).
Proof.
  intros Hi. unfold put_string, mbind, P_bind, tget, plift, arr_set, at_pos. cbn [tok tstring].
  by rewrite bool_decide_true by done.
Qed.

(** ** White space *)

Lemma trim_spaces ws : ∀ k ct v str L c rest fuel, drop k L = ws ++ c :: rest → forallb is_white ws = true →
  is_white c = false → c ≠ 10 → (length ws < fuel)%nat →
  trim_loop fuel (at_pos k ct v str L) = Some (tt, at_pos (S (k + length ws)) ct v str L).
Proof.
  induction ws as [|w ws IH]; intros k ct v str L c rest fuel Hd Hws Hc Hn Hf;
    (destruct fuel as [|fuel]; [cbn in Hf; lia|]); cbn [trim_loop].
  - pstep (next_char k ct v str L c rest Hd Hn). unfold is_white in Hc. rewrite Hc. by rewrite Nat.add_0_r.
  - cbn [forallb] in Hws. apply andb_true_iff in Hws as [Hw Hws].
    assert (w ≠ 10) as Hw' by (intros ->; done).
    pstep (next_char k ct v str L w (ws ++ c :: rest) Hd Hw'). unfold is_white in Hw. rewrite Hw.
    apply drop_next in Hd as [_ Hd]. rewrite (IH (S k) ct v str L c rest) by (done || cbn in Hf; lia).
    do 3 f_equal. cbn. lia.
Qed.

Lemma trim_end ws : ∀ k ct v str L fuel, drop k L = ws → (k <= length L)%nat → forallb is_white ws = true →
  (length ws < fuel)%nat →
  trim_loop fuel (at_pos k ct v str L) = Some (tt, PState (FToken true false 0 ct v str L) e n vs m fl al).
Proof.
  induction ws as [|w ws IH]; intros k ct v str L fuel Hd Hk Hws Hf;
    (destruct fuel as [|fuel]; [cbn in Hf; lia|]); cbn [trim_loop].
  - by pstep (next_char_end k ct v str L Hd Hk).
  - cbn [forallb] in Hws. apply andb_true_iff in Hws as [Hw Hws].
    assert (w ≠ 10) as Hw' by (intros ->; done).
    pstep (next_char k ct v str L w ws Hd Hw'). unfold is_white in Hw. rewrite Hw.
    apply drop_next in Hd as [Hl Hd]. apply lookup_lt_Some in Hl. apply IH; [done|lia|done|cbn in Hf; lia].
Qed.

Lemma line_fuel_at k ct v str L :
  line_fuel (at_pos k ct v str L) = Some (S (S (length L)), at_pos k ct v str L).
Proof. done. Qed.

Lemma drop_length_le k L (l : list Z) : drop k L = l → (length l <= length L)%nat.
Proof. intros <-. rewrite length_drop. lia. Qed.

Lemma trim_space ws k ct v str L c rest : drop k L = ws ++ c :: rest → forallb is_white ws = true →
  is_white c = false → c ≠ 10 →
  token_trim_space (at_pos k ct v str L) = Some (tt, at_pos (k + length ws) ct v str L).
Proof.
  intros Hd Hws Hc Hn. unfold token_trim_space. pstep (line_fuel_at k ct v str L).
  apply drop_length_le in Hd as Hl. rewrite length_app in Hl. cbn in Hl.
  pstep (trim_spaces ws k ct v str L c rest (S (S (length L))) Hd Hws Hc Hn ltac:(lia)). apply prev_char.
Qed.

(** ** Names *)

Lemma eof_at k ct v str L : tget eof (at_pos k ct v str L) = Some (false, at_pos k ct v str L).
Proof. done. Qed.

Lemma name_char c : negb (is_separator c) = true → c ≠ 10 ∧ c ≠ 0 ∧ is_white c = false.
Proof.
  unfold is_separator, is_white. rewrite negb_involutive, !orb_true_iff, !bool_decide_eq_true.
  intros H. split_and!; [lia|lia|]. apply bool_decide_false. lia.
Qed.

(** The characters that are left of a name, the first one read already. *)
Lemma get_name cs : ∀ k ct v done_ old L c rest ch fuel,
  drop k L = cs ++ c :: rest → forallb (λ c, negb (is_separator c)) (ch :: cs) = true →
  is_separator c = true → c ≠ 10 → (S (length cs) < fuel)%nat → (S (length cs) < length old)%nat →
  get_string_loop fuel (zlen done_) ch (at_pos k ct v (done_ ++ old) L) =
  Some (zlen done_ + zlen (ch :: cs), at_pos (S (k + length cs)) ct v
          ((done_ ++ ch :: cs) ++ drop (S (length cs)) old) L).
Proof.
  induction cs as [|c' cs IH]; intros k ct v done_ old L c rest ch fuel Hd Hcs Hsep Hn Hf Ho;
    (destruct fuel as [|fuel]; [cbn in Hf; lia|]); (destruct old as [|o old]; [cbn in Ho; lia|]);
    cbn [get_string_loop forallb] in *; apply andb_true_iff in Hcs as [Hch Hcs]; pstep (eof_at k ct v (done_ ++ o :: old) L);
    rewrite Hch; cbn [negb andb].
  all: pstep (put_string_ok k ct v (done_ ++ o :: old) L (zlen done_) ch
                ltac:(rewrite zlen_app, zlen_cons; pose proof (zlen_nonneg old); pose proof (zlen_nonneg done_); lia)).
  all: replace (<[Z.to_nat (zlen done_):=ch]> (done_ ++ o :: old)) with ((done_ ++ [ch]) ++ old)
    by (unfold zlen; rewrite Nat2Z.id, insert_app_r_alt, Nat.sub_diag by done; cbn; by rewrite <- app_assoc).
  - pstep (next_char k ct v ((done_ ++ [ch]) ++ old) L c rest Hd Hn).
    destruct fuel as [|fuel]; [cbn in Hf; lia|]. cbn [get_string_loop]. pstep (eof_at (S k) ct v ((done_ ++ [ch]) ++ old) L).
    rewrite Hsep. cbn [negb andb]. unfold mret, P_ret. cbn [length drop]. rewrite Nat.add_0_r. done.
  - cbn [app] in Hd. assert (c' ≠ 10) as Hc' by (apply andb_true_iff in Hcs as [? _]; by apply name_char).
    pstep (next_char k ct v ((done_ ++ [ch]) ++ old) L c' (cs ++ c :: rest) Hd Hc').
    apply drop_next in Hd as [_ Hd].
    replace (zlen done_ + 1) with (zlen (done_ ++ [ch])) by (rewrite zlen_app; done).
    rewrite (IH (S k) ct v (done_ ++ [ch]) old L c rest c' fuel Hd Hcs Hsep Hn) by (cbn in Hf, Ho; lia).
    rewrite zlen_app, !zlen_cons. change (zlen (@nil Z)) with 0. cbn [length drop]. rewrite <- !app_assoc.
    cbn [app]. replace (S (S k + length cs)) with (S (k + S (length cs))) by lia. do 2 f_equal. lia.
Qed.

(** Before anything but a name, only the buffer is emptied. *)
Lemma get_string_other k ct v str L c rest : drop k L = c :: rest → is_separator c = true ∨ finsh_is_digit c = true →
  c ≠ 10 → 0 < zlen str →
  token_get_string (at_pos k ct v str L) = Some (tt, at_pos k ct v (<[O := 0]> str) L).
Proof.
  intros Hd Hc Hn Hs. unfold token_get_string. pstep (next_char k ct v str L c rest Hd Hn).
  pstep (eof_at (S k) ct v str L). pstep (put_string_ok (S k) ct v str L 0 0 ltac:(lia)).
  change (Z.to_nat 0) with O. destruct (finsh_is_digit c) eqn:E; [apply prev_char|].
  destruct Hc as [Hc|]; [|done]. pstep (line_fuel_at (S k) ct v (<[O := 0]> str) L).
  cbn [get_string_loop]. rewrite (P_bind_some _ _ _ 0 (at_pos (S k) ct v (<[O := 0]> str) L)).
  2: { pstep (eof_at (S k) ct v (<[O := 0]> str) L). by rewrite Hc. }
  change (tset (set_eof false)) with (tset (set_eof false)).
  rewrite (P_bind_some _ _ _ tt (at_pos (S k) ct v (<[O := 0]> str) L)) by done.
  pstep (prev_char k ct v (<[O := 0]> str) L). rewrite put_string_ok.
  - by rewrite list_insert_insert_eq.
  - unfold zlen in *. rewrite length_insert. lia.
Qed.

Lemma cstring_app name l : forallb (λ c, negb (is_separator c)) name = true → cstring (name ++ 0 :: l) = Some name.
Proof.
  induction name as [|c name IH]; [done|]. cbn [forallb app cstring]. intros [(?&?&?)%name_char Hn]%andb_true_iff.
  rewrite bool_decide_false by done. by rewrite IH.
Qed.

Lemma get_string_name k ct v str L name c rest : drop k L = name ++ c :: rest → name_ok name = true →
  is_separator c = true → c ≠ 10 → zlen str = FINSH_STRING_MAX →
  ∃ str', zlen str' = FINSH_STRING_MAX ∧ cstring str' = Some name ∧ head str' = head name ∧
    token_get_string (at_pos k ct v str L) = Some (tt, at_pos (k + length name) ct v str' L).
Proof.
  intros Hd Hok Hsep Hn Hs. unfold name_ok in Hok. apply andb_true_iff in Hok as [[Hcs Hl%bool_decide_eq_true]%andb_true_iff H0].
  destruct name as [|ch cs]; [done|]. apply negb_true_iff in H0. cbn [app] in Hd. change FINSH_STRING_MAX with 128 in *.
  destruct str as [|o old]; [done|]. rewrite zlen_cons in *.
  assert (length cs < length old)%nat as Hlen by (unfold zlen in *; lia).
  exists (((ch :: cs) ++ [0]) ++ drop (S (length cs)) old). split_and!.
  { rewrite !zlen_app, zlen_cons. unfold zlen in *. rewrite length_drop. cbn. lia. }
  { rewrite <- app_assoc. by apply cstring_app. }
  { done. }
  unfold token_get_string. apply andb_true_iff in Hcs as Hcs'. destruct Hcs' as [(?&?&?)%name_char _].
  pstep (next_char k ct v (o :: old) L ch (cs ++ c :: rest) Hd ltac:(done)). apply drop_next in Hd as [_ Hd].
  pstep (eof_at (S k) ct v (o :: old) L).
  pstep (put_string_ok (S k) ct v (o :: old) L 0 0 ltac:(rewrite zlen_cons; lia)). rewrite H0.
  change (<[Z.to_nat 0 := 0]> (o :: old)) with (0 :: old).
  pstep (line_fuel_at (S k) ct v (0 :: old) L).
  apply drop_length_le in Hd as HL. rewrite length_app in HL. cbn in HL.
  pstep (get_name cs (S k) ct v [] (0 :: old) L c rest ch (S (S (length L))) Hd Hcs Hsep Hn ltac:(lia) ltac:(cbn; lia)).
  change (zlen (@nil Z) + zlen (ch :: cs)) with (zlen (ch :: cs)). cbn [app drop].
  set (str1 := (ch :: cs) ++ drop (length cs) old).
  change (ch :: cs ++ drop (length cs) old) with str1.
  rewrite (P_bind_some _ _ _ tt (at_pos (S (S k + length cs)) ct v str1 L)) by done.
  pstep (prev_char (S k + length cs) ct v str1 L). rewrite put_string_ok.
  2: { subst str1. rewrite zlen_app, zlen_cons. unfold zlen. rewrite length_drop. lia. }
  do 3 f_equal; [cbn; lia|]. subst str1. unfold zlen. rewrite Nat2Z.id, insert_app_r_alt, Nat.sub_diag by done.
  destruct (drop (length cs) old) as [|d ds] eqn:E.
  { apply (f_equal length) in E. rewrite length_drop in E. cbn in E. lia. }
  apply drop_next in E as [_ E]. cbn. by rewrite E, <- app_assoc.
Qed.

(** ** Numbers *)

Lemma read_digits ds : ∀ k ct v str L d c rest acc fuel,
  drop k L = (Z.add 48 <$> ds) ++ c :: rest → Forall (λ d, 0 <= d < 10) (d :: ds) → 0 <= acc →
  foldl (λ v d, v * 10 + d) acc (d :: ds) < 2 ^ 31 → finsh_is_digit c = false → c ≠ 10 → (S (length ds) < fuel)%nat →
  decimal_loop fuel acc (48 + d) (at_pos k ct v str L) =
  Some ((foldl (λ v d, v * 10 + d) acc (d :: ds), c), at_pos (S (k + length ds)) ct v str L).
Proof.
  induction ds as [|d' ds IH]; intros k ct v str L d c rest acc fuel Hd Hds Ha Hv Hc Hn Hf;
    (destruct fuel as [|fuel]; [cbn in Hf; lia|]); inversion_clear Hds as [|? ? Hd0 Hds'];
    cbn [decimal_loop]; unfold finsh_is_digit at 1; rewrite bool_decide_true by lia; cbn [foldl] in Hv |- *;
    pose proof (digits_mono _ (acc * 10 + d) ltac:(lia) Hds') as Hm; cbn [foldl] in Hm;
    replace (48 + d - 48) with d by lia; rewrite s32_small by lia.
  - pstep (next_char k ct v str L c rest Hd Hn). destruct fuel as [|fuel]; [cbn in Hf; lia|].
    cbn [decimal_loop]. rewrite Hc, Nat.add_0_r. done.
  - cbn [fmap list_fmap app] in Hd. assert (48 + d' ≠ 10) as Hc' by (inversion_clear Hds'; lia).
    pstep (next_char k ct v str L (48 + d') _ Hd Hc'). apply drop_next in Hd as [_ Hd].
    rewrite (IH (S k) ct v str L d' c rest) by (done || lia || cbn in Hf; lia). cbn [foldl length].
    do 2 f_equal. by replace (S (S k + length ds)) with (S (k + S (length ds))) by lia.
Qed.

Lemma set_int_at k ct v str L z : in_u32 z →
  set_int z (at_pos k ct v str L) = Some (tt, at_pos k finsh_token_type_value_int z str L).
Proof. intros Hz. unfold set_int, mbind, P_bind, tset, at_pos. cbn. by rewrite u32_small. Qed.

(** A number that is not 0, up to the character behind it. *)
Lemma proc_number k ct v str L z c rest :
  0 < z < 2 ^ 31 → drop k L = decimal z ++ c :: rest → finsh_is_digit c = false → c ≠ 10 →
  token_proc_number (at_pos k ct v str L) =
  number_suffix c (at_pos (S (k + length (decimal z))) finsh_token_type_value_int z str L).
Proof.
  intros Hz Hd Hc Hn. unfold token_proc_number. pstep (line_fuel_at k ct v str L).
  destruct (digits_head z) as (d&ds&E&Hd0); [lia|]. destruct (digits_value 10 z) as [Hds Hv]; [lia|lia|].
  apply drop_length_le in Hd as HL. rewrite length_app in HL.
  unfold decimal in *. rewrite E in *. cbn [fmap list_fmap app] in Hd. cbn [length fmap list_fmap] in HL |- *. rewrite length_fmap in HL.
  pstep (next_char k ct v str L (48 + d) _ Hd ltac:(inversion_clear Hds; lia)).
  rewrite bool_decide_false by lia. apply drop_next in Hd as [_ Hd].
  rewrite (P_bind_some _ _ _ (z, c) (at_pos (S (S k + length ds)) ct v str L)).
  2: { rewrite <- Hv. apply (read_digits ds (S k) ct v str L d c rest 0); try done; [|lia].
       change (foldl (λ v d, v * 10 + d) 0 (d :: ds)) with (KPrintSpec.value 10 (d :: ds)). rewrite Hv. lia. }
  pstep (set_int_at (S (S k + length ds)) ct v str L z ltac:(unfold in_u32; lia)).
  f_equal. f_equal. rewrite length_fmap. lia.
Qed.

(** ** Tokens *)

Lemma current_at k ct v str L t :
  tset (set_current t) (at_pos k ct v str L) = Some (tt, at_pos k t v str L).
Proof. done. Qed.

(** The first character of a lexeme that is not a name. *)
Definition sym_head (c : Z) : Prop := (is_separator c = true ∨ finsh_is_digit c = true) ∧ c ≠ 10 ∧ is_white c = false.

Lemma run_symbol ws k ct v str L c rest : drop k L = ws ++ c :: rest → forallb is_white ws = true →
  sym_head c → zlen str = FINSH_STRING_MAX →
  token_run (at_pos k ct v str L) =
  token_operator (at_pos (k + length ws) ct v (<[O := 0]> str) L).
Proof.
  intros Hd Hws (Hc&Hn&Hsp) Hs. unfold token_run. pstep (trim_space ws k ct v str L c rest Hd Hws Hsp Hn).
  assert (drop (k + length ws) L = c :: rest) as Hd'.
  { by rewrite <- drop_drop, Hd, drop_app_length. }
  destruct str as [|o old]; [done|].
  pstep (get_string_other (k + length ws) ct v (o :: old) L c rest Hd' Hc Hn ltac:(rewrite zlen_cons; pose proof (zlen_nonneg old); lia)).
  pstep (eof_at (k + length ws) ct v (0 :: old) L). done.
Qed.

(** After an operator of one character, or of two. *)
Lemma operator_text k ct v str L t rest : drop k L = sym_text t ++ rest → follow_ok (LSym t) rest = true →
  lex_ok (LSym t) = true →
  token_operator (at_pos k ct v str L) = Some (tt, at_pos (k + length (sym_text t)) t v str L).
Proof.
  intros Hd Hf Hok. unfold token_operator.
  assert (∃ c l, sym_text t = c :: l ∧ c ≠ 10) as (c&l&E&Hc) by (by destruct t; try done; eexists _, _).
  rewrite E in Hd. pstep (next_char k ct v str L c (l ++ rest) Hd Hc). apply drop_next in Hd as [_ Hd].
  rewrite E, Nat.add_comm. destruct t; try done; cbn in E; injection E as <- <-; try done;
    unfold two_chars; cbn [app] in Hd.
  all: try (pstep (next_char (S k) ct v str L _ _ Hd ltac:(done)); done).
  all: cbn [follow_ok] in Hf; (destruct rest as [|c' rest]; [done|]); apply bool_decide_eq_true in Hf as [Hf1 Hf2];
    pstep (next_char (S k) ct v str L c' rest Hd Hf2); rewrite bool_decide_false by done;
    pstep (prev_char (S k) ct v str L); done.
Qed.

Lemma operator_char k ct v str L c rest : drop k L = [39; c; 39] ++ rest → lex_ok (LChar c) = true →
  ∃ v', u8 v' = c ∧
  token_operator (at_pos k ct v str L) = Some (tt, at_pos (k + 3) finsh_token_type_value_char v' str L).
Proof.
  intros Hd Hok. apply bool_decide_eq_true in Hok as (Hc&Hc1&Hc2). unfold token_operator.
  cbn [app] in Hd. exists (set_value BYTE v c). split.
  { change (get_value BYTE (set_value BYTE v c) = c). cbn [get_value set_value]. mlia. }
  pstep (next_char k ct v str L 39 _ Hd ltac:(done)). apply drop_next in Hd as [_ Hd].
  rewrite (P_bind_some _ _ _ c (at_pos (3 + k) ct v str L)).
  2: { unfold token_proc_char. pstep (next_char (S k) ct v str L c _ Hd Hc1). apply drop_next in Hd as [_ Hd].
       rewrite bool_decide_false by done. rewrite (P_bind_some _ _ _ c (at_pos (S (S k)) ct v str L)) by done.
       pstep (next_char (S (S k)) ct v str L 39 _ Hd ltac:(done)). done. }
  rewrite Nat.add_comm. done.
Qed.

Lemma number_zero k ct v str L c rest : drop k L = 48 :: c :: rest → is_separator c = true → c ≠ 10 →
  token_proc_number (at_pos k ct v str L) = Some (tt, at_pos (S k) finsh_token_type_value_int 0 str L).
Proof.
  intros Hd Hc Hn. unfold token_proc_number. pstep (line_fuel_at k ct v str L).
  pstep (next_char k ct v str L 48 _ Hd ltac:(done)). apply drop_next in Hd as [_ Hd].
  rewrite bool_decide_true by done. pstep (next_char (S k) ct v str L c rest Hd Hn).
  apply separator_not_alnum in Hc as (?&?&?). rewrite !bool_decide_false by lia.
  by pstep (prev_char (S k) ct v str L).
Qed.

(** The digits of a number lead to [token_proc_number]. *)
Lemma operator_digit k ct v str L d rest : drop k L = (48 + d) :: rest → 0 <= d < 10 →
  token_operator (at_pos k ct v str L) = token_proc_number (at_pos k ct v str L).
Proof.
  intros Hd H. unfold token_operator. pstep (next_char k ct v str L (48 + d) rest Hd ltac:(lia)).
  assert (d = 0 ∨ d = 1 ∨ d = 2 ∨ d = 3 ∨ d = 4 ∨ d = 5 ∨ d = 6 ∨ d = 7 ∨ d = 8 ∨ d = 9) as Hc by lia.
  repeat destruct Hc as [->|Hc]; try subst d;
    match goal with |- context [match ?c with _ => _ end] =>
      let c' := eval vm_compute in c in change c with c'; change (finsh_is_digit c') with true end;
    cbv iota beta; by pstep (prev_char k ct v str L).
Qed.

Lemma decimal_head z : 0 <= z → ∃ d ds, decimal z = (48 + d) :: ds ∧ 0 <= d < 10.
Proof.
  intros Hz. destruct (digits_value 10 z) as [Hds _]; [lia|lia|]. destruct (decide (z = 0)) as [->|Hn].
  - by exists 0, [].
  - destruct (digits_head z) as (d&ds&E&_); [lia|]. unfold decimal. rewrite E in *. inversion_clear Hds. eexists _, _. done.
Qed.

Lemma digit_head d : 0 <= d < 10 → sym_head (48 + d).
Proof.
  intros Hd. split_and!; [right; apply bool_decide_true; lia|lia|apply bool_decide_false; lia].
Qed.

Lemma run_int k ct v str L z after : 0 <= z < 2 ^ 31 → drop k L = decimal z ++ after →
  follow_ok (LInt z) after = true →
  token_operator (at_pos k ct v str L) =
  Some (tt, at_pos (k + length (decimal z)) finsh_token_type_value_int z str L).
Proof.
  intros Hz Hd Hf. cbn in Hf. destruct after as [|c rest]; [done|].
  apply andb_true_iff in Hf as [Hsep Hn%bool_decide_eq_true].
  destruct (decimal_head z) as (d&ds&E&Hd0); [lia|].
  rewrite (operator_digit k ct v str L d (ds ++ c :: rest)) by (done || by rewrite Hd, E).
  destruct (decide (z = 0)) as [->|Hz0].
  - rewrite (number_zero k ct v str L c rest) by done. by rewrite Nat.add_comm.
  - apply separator_not_alnum in Hsep as (?&?&?).
    rewrite (proc_number k ct v str L z c rest) by (done || lia || by apply bool_decide_false; lia).
    unfold number_suffix. rewrite bool_decide_false by lia. apply prev_char.
Qed.

Lemma run_long k ct v str L z after : 0 < z < 2 ^ 31 → drop k L = (decimal z ++ [108]) ++ after →
  token_operator (at_pos k ct v str L) =
  Some (tt, at_pos (k + length (decimal z ++ [108])) finsh_token_type_value_long z str L).
Proof.
  intros Hz Hd. rewrite <- app_assoc in Hd. destruct (decimal_head z) as (d&ds&E&Hd0); [lia|].
  rewrite (operator_digit k ct v str L d (ds ++ 108 :: after)) by (done || by rewrite Hd, E).
  rewrite (proc_number k ct v str L z 108 after) by (done || lia).
  unfold number_suffix. rewrite bool_decide_true by lia. rewrite length_app, Nat.add_assoc, (Nat.add_comm _ 1). done.
Qed.

Lemma sym_text_head t : lex_ok (LSym t) = true → ∃ c l, sym_text t = c :: l ∧ sym_head c.
Proof.
  intros Hok. assert (∃ c l, sym_text t = c :: l ∧ (is_separator c && bool_decide (c ≠ 10) && negb (is_white c)) = true)
    as (c&l&E&H) by (by destruct t; try done; eexists _, _).
  exists c, l. split; [done|]. apply andb_true_iff in H as [[? ?%bool_decide_eq_true]%andb_true_iff ?%negb_true_iff].
  split_and!; auto.
Qed.

(** Every lexeme, after white space. *)
Lemma run_lexeme ws x k ct v str L after : (k <= length L)%nat → drop k L = ws ++ text x ++ after → forallb is_white ws = true →
  lex_ok x = true → follow_ok x after = true → zlen str = FINSH_STRING_MAX →
  ∃ k' v' str', token_run (at_pos k ct v str L) = Some (tt, at_pos k' (lex_type x) v' str' L) ∧
    (k' <= length L)%nat ∧ drop k' L = after ∧ zlen str' = FINSH_STRING_MAX ∧
    holds (FToken false false (Z.of_nat k') (lex_type x) v' str' L) x.
Proof.
  intros Hk Hd Hws Hok Hf Hs.
  assert (∀ j, j = length (text x) → k + length ws + j <= length L)%nat as Hk'.
  { intros j ->. apply (f_equal length) in Hd. rewrite length_drop, !length_app in Hd. lia. }
  assert (drop (k + length ws) L = text x ++ after) as Hd' by (by rewrite <- drop_drop, Hd, drop_app_length).
  assert (∀ j, j = length (text x) → drop (k + length ws + j) L = after) as Hd''.
  { intros j ->. by rewrite <- drop_drop, Hd', drop_app_length. }
  assert (zlen (<[O := 0]> str) = FINSH_STRING_MAX) as Hs' by (unfold zlen in *; by rewrite length_insert).
  destruct x as [t|z|z|c|name]; cbn [text lex_type holds] in *.
  - destruct (sym_text_head t Hok) as (c&l&E&Hc). eexists _, _, _. split.
    + rewrite (run_symbol ws k ct v str L c (l ++ after)) by (done || by rewrite Hd, E). by eapply operator_text.
    + (split_and!; [auto|auto|auto|done]).
  - apply bool_decide_eq_true in Hok. destruct (decimal_head z) as (d&ds&E&Hd0); [lia|]. eexists _, _, _. split.
    + rewrite (run_symbol ws k ct v str L (48 + d) (ds ++ after)) by (done || by rewrite Hd, E || by apply digit_head).
      by eapply run_int.
    + (split_and!; [auto|auto|auto|done]).
  - apply bool_decide_eq_true in Hok. destruct (decimal_head z) as (d&ds&E&Hd0); [lia|]. eexists _, _, _. split.
    + rewrite (run_symbol ws k ct v str L (48 + d) (ds ++ 108 :: after))
        by (done || (by rewrite Hd, E; cbn; rewrite <- app_assoc) || by apply digit_head).
      by eapply run_long.
    + (split_and!; [auto|auto|auto|done]).
  - destruct (operator_char (k + length ws) ct v (<[O := 0]> str) L c after Hd' Hok) as (v'&Hv&H).
    eexists _, v', _. split; [rewrite (run_symbol ws k ct v str L 39 ([c; 39] ++ after)) by (done || split_and!; auto); exact H|].
    (split_and!; [auto|auto|auto|done]).
  - destruct after as [|c rest]; [done|]. cbn in Hf. apply andb_true_iff in Hf as [Hsep Hn%bool_decide_eq_true].
    destruct (get_string_name (k + length ws) ct v str L name c rest Hd' Hok Hsep Hn Hs) as (str'&Hl&Hc&Hh&H).
    exists (k + length ws + length name)%nat, v, str'. split; [|split_and!; [auto|auto|auto|done]].
    assert (∃ ch cs, name = ch :: cs ∧ ch ≠ 10 ∧ ch ≠ 0 ∧ is_white ch = false) as (ch&cs&->&?&?&?).
    { unfold name_ok in Hok. apply andb_true_iff in Hok as [[Hcs _]%andb_true_iff ?]. destruct name as [|ch cs]; [done|].
      apply andb_true_iff in Hcs as [?%name_char _]. eauto. }
    unfold token_run. pstep (trim_space ws k ct v str L ch (cs ++ c :: rest) Hd Hws ltac:(done) ltac:(done)).
    pstep H. pstep (eof_at (k + length ws + length (ch :: cs)) ct v str' L).
    destruct str' as [|ch' str']; [done|]. cbn in Hh. injection Hh as ->.
    rewrite (P_bind_some _ _ _ (ch :: str') _) by done. rewrite (P_bind_some _ _ _ ch _) by done.
    rewrite bool_decide_true by done. unfold token_match_name, mbind, P_bind, tget, plift. cbn [tok tstring at_pos].
    rewrite Hc. by destruct (match_name finsh_name_table (ch :: cs)).
Qed.

(** At the end of the line. *)
Lemma run_end ws k ct v str L : drop k L = ws → (k <= length L)%nat → forallb is_white ws = true →
  token_run (at_pos k ct v str L) =
  Some (tt, PState (FToken true false 0 finsh_token_type_eof v str L) e n vs m fl al).
Proof.
  intros Hd Hk Hws. unfold token_run, token_trim_space.
  rewrite (P_bind_some _ _ _ tt (PState (FToken true false 0 ct v str L) e n vs m fl al)); [done|].
  pstep (line_fuel_at k ct v str L). apply drop_length_le in Hd as HL.
  by pstep (trim_end ws k ct v str L (S (S (length L))) Hd Hk Hws ltac:(lia)).
Qed.
End lex.

(** ** The parser's view *)

(** The next token. *)
Lemma next_token s x ts : reads (tok s) (x :: ts) →
  ∃ t', finsh_token_token s = Some (lex_type x, set_tok t' s) ∧ loaded t' x ts.
Proof.
  destruct s as [[b r p ct v str L] e n vs m fl al]. cbn [tok].
  intros [[Hr (He&Hs&k&items&tail&Hp&Hk&Hd&Hl&Hi)]|(x'&ts'&[= <- <-]&Hr&Hh&Hrest)]; cbn in *; subst.
  - destruct items as [|[ws x'] items]; [done|]. cbn in Hi. injection Hi as -> <-. cbn in Hd, Hl.
    apply andb_true_iff in Hl as [[[Hws Hok]%andb_true_iff Hf]%andb_true_iff Hl].
    destruct (run_lexeme e n vs m fl al ws x k ct v str L (render items tail) Hk Hd Hws Hok Hf Hs)
      as (k'&v'&str'&H&Hk'&Hd'&Hs'&Hh).
    exists (FToken false false (Z.of_nat k') (lex_type x) v' str' L). split.
    + unfold finsh_token_token. rewrite (P_bind_some _ _ _ false _) by done.
      rewrite (P_bind_some _ _ _ _ _ H). done.
    + split_and!; [done|done|]. split_and!; [done|done|]. by exists k', items, tail.
  - exists (FToken b false p ct v str L). split.
    + unfold finsh_token_token, mbind, P_bind, tget, tset. destruct Hh as [Hc _]. cbn in *. by rewrite Hc.
    + split_and!; [done|done|done].
Qed.

(** A token that was given back. *)
Lemma replay_token s x ts : loaded (tok s) x ts →
  ∃ t', finsh_token_replay s = Some (tt, set_tok t' s) ∧ reads t' (x :: ts).
Proof.
  intros (Hr&Hh&Hrest). eexists. split; [done|]. right. by exists x, ts.
Qed.

(** After the last token. *)
Lemma next_token_end s : reads (tok s) [] →
  ∃ t', finsh_token_token s = Some (finsh_token_type_eof, set_tok t' s).
Proof.
  destruct s as [[b r p ct v str L] e n vs m fl al]. cbn [tok].
  intros [[Hr (He&Hs&k&items&tail&Hp&Hk&Hd&Hl&Hi)]|(x'&ts'&?&_)]; [|done]. cbn in *; subst.
  destruct items as [|? items]; [|done]. cbn in Hd, Hl.
  exists (FToken true false 0 finsh_token_type_eof v str L). unfold finsh_token_token.
  rewrite (P_bind_some _ _ _ false _) by done.
  by rewrite (P_bind_some _ _ _ _ _ (run_end e n vs m fl al tail k ct v str L Hd Hk Hl)).
Qed.

(** The line as it is before its first token. *)
Lemma init_reads items tail : lexes items tail = true →
  reads (finsh_token_init (render items tail)) (items.*2).
Proof.
  intros Hl. left. split; [done|]. split_and!; [done|done|]. exists O, items, tail. split_and!; [done|cbn; lia|done..].
Qed.
