(* ===== verification/FinshPrint.v ===== *)
(** * Expressions as they are typed

    The lexemes of an expression, without parentheses (the parser takes every
    parenthesis before an operand for a cast): those expressions whose structure is
    that of the precedence of the operators; and the trees the parser makes. *)

From S2P Require Import Prelude KString FinshNode FinshVm FinshCompiler FinshToken FinshHeap FinshParser.
From S2P Require Import FinshSem FinshLex.

(** ** Lexemes of an expression *)

Definition bin_token (op : binop) : token_type :=
  match op with
  | Add => finsh_token_type_add | Sub => finsh_token_type_sub | Mul => finsh_token_type_mul
  | Div => finsh_token_type_div | Mod => finsh_token_type_mod | And => finsh_token_type_and
  | Or => finsh_token_type_or | Xor => finsh_token_type_xor | Shl => finsh_token_type_shl
  | Shr => finsh_token_type_shr
  end.
Definition step_token (op : binop) : token_type :=
  match op with Add => finsh_token_type_inc | _ => finsh_token_type_dec end.

Definition keyword (t : token_type) : list Z :=
  default [] (head (fst <$> filter (λ p, p.2 = t) finsh_name_table)).

Definition type_lexemes (t : finsh_type) : list lexeme :=
  let word t := LName (keyword t) in
  let unsigned := word finsh_token_type_unsigned in
  let star := LSym finsh_token_type_mul in
  match t with
  | finsh_type_unknown => []
  | finsh_type_void => [word finsh_token_type_void]
  | finsh_type_voidp => [word finsh_token_type_void; star]
  | finsh_type_char => [word finsh_token_type_char]
  | finsh_type_uchar => [unsigned; word finsh_token_type_char]
  | finsh_type_charp => [word finsh_token_type_char; star]
  | finsh_type_short => [word finsh_token_type_short]
  | finsh_type_ushort => [unsigned; word finsh_token_type_short]
  | finsh_type_shortp => [word finsh_token_type_short; star]
  | finsh_type_int => [word finsh_token_type_int]
  | finsh_type_uint => [unsigned; word finsh_token_type_int]
  | finsh_type_intp => [word finsh_token_type_int; star]
  | finsh_type_long => [word finsh_token_type_long]
  | finsh_type_ulong => [unsigned; word finsh_token_type_long]
  | finsh_type_longp => [word finsh_token_type_long; star]
  end.

Section print.
(** The names of the variables and functions. *)
Context (nm : ident → list Z).

Fixpoint lexemes (e : expr) : list lexeme :=
  match e with
  | EInt z => [LInt z]
  | ELong z => [LLong z]
  | EChar c => [LChar c]
  | ENull => [LName (keyword finsh_token_type_value_null)]
  | EVar i => [LName (nm i)]
  | EBin op e1 e2 => lexemes e1 ++ LSym (bin_token op) :: lexemes e2
  | ENot e => LSym finsh_token_type_bitwise :: lexemes e
  | ENeg e => LSym finsh_token_type_sub :: lexemes e
  | EAssign l e => lexemes l ++ LSym finsh_token_type_assign :: lexemes e
  | EPre op i => [LSym (step_token op); LName (nm i)]
  | EPost op i => [LName (nm i); LSym (step_token op)]
  | EDeref e => LSym finsh_token_type_mul :: lexemes e
  | EAddr l => LSym finsh_token_type_and :: lexemes l
  | ECall n f args =>
      LName (nm (IdSyscall n f)) :: LSym finsh_token_type_left_paren ::
      match args with
      | [] => []
      | a :: args => lexemes a ++ concat ((λ a, LSym finsh_token_type_comma :: lexemes a) <$> args)
      end ++ [LSym finsh_token_type_right_paren]
  | ECast t e =>
      LSym finsh_token_type_left_paren :: type_lexemes t ++
      LSym finsh_token_type_right_paren :: lexemes e
  end.

(** ** Precedence *)

(** How loosely an expression binds: 0 for an operand. *)
Definition op_level (op : binop) : nat :=
  match op with
  | Mul | Div | Mod => 1 | Add | Sub => 2 | Shl | Shr => 3 | And => 4 | Xor => 5 | Or => 6
  end.
Definition elevel (e : expr) : nat :=
  match e with EBin op _ _ => op_level op | EAssign _ _ => 7 | _ => 0 end.

(** The expressions that need no parentheses. *)
Fixpoint plain (e : expr) : bool :=
  match e with
  | EInt _ | ELong _ | EChar _ | ENull | EVar _ => true
  | EBin op e1 e2 =>
      plain e1 && plain e2 && bool_decide (elevel e1 <= op_level op)%nat &&
      bool_decide (elevel e2 < op_level op)%nat
  | ENot e | ENeg e | EDeref e | EAddr e => plain e && bool_decide (elevel e = 0%nat)
  | ECast t e =>
      plain e && bool_decide (elevel e = 0%nat) && bool_decide (t ≠ finsh_type_unknown)
  | EAssign l e => plain l && plain e && bool_decide (elevel l <= 6)%nat
  | EPre op _ | EPost op _ => bool_decide (op = Add ∨ op = Sub)
  | ECall _ _ args => forallb plain args
  end.

(** The nodes of the tree. *)
Fixpoint nodes (e : expr) : Z :=
  match e with
  | EInt _ | ELong _ | EChar _ | ENull | EVar _ => 1
  | EBin _ e1 e2 | EAssign e1 e2 => nodes e1 + nodes e2 + 1
  | ENot e | EDeref e | EAddr e => nodes e + 1
  | ENeg e => nodes e + 2
  | EPre _ _ | EPost _ _ => 2
  | ECall _ _ args => foldr (λ e k, nodes e + k) 0 args + 2
  | ECast _ e => nodes e
  end.

(** ** Names *)

Context (syms : symbols).

(** What a name stands for. *)
Definition resolve (vars : list finsh_var) (name : list Z) : ident :=
  let var :=
    match find_index (λ v, same_name (vname v) name) vars 0 with
    | Some i => match vars !! i with Some v => IdVar (variable_address syms i) (vtype v) | None => IdNull end
    | None => IdNull
    end in
  match var with
  | IdNull => match finsh_sysvar_lookup syms name with IdNull => finsh_syscall_lookup syms name | i => i end
  | i => i
  end.

Definition named (vars : list finsh_var) (i : ident) : bool :=
  bool_decide (zlen (nm i) < FINSH_NAME_MAX) && bool_decide (match_name finsh_name_table (nm i) = None) &&
  bool_decide (resolve vars (nm i) = i) && bool_decide (i ≠ IdNull).

Fixpoint all_named (vars : list finsh_var) (e : expr) : bool :=
  match e with
  | EInt _ | ELong _ | EChar _ | ENull => true
  | EVar i | EPre _ i | EPost _ i => named vars i
  | EBin _ e1 e2 | EAssign e1 e2 => all_named vars e1 && all_named vars e2
  | ENot e | ENeg e | EDeref e | EAddr e | ECast _ e => all_named vars e
  | ECall n f args => named vars (IdSyscall n f) && forallb (all_named vars) args
  end.

End print.
