(* ===== verification/FinshParseProof.v ===== *)
(** * Parsing an expression

    The parser makes the tree of an expression from its lexemes. *)

From S2P Require Import Prelude KString FinshNode FinshVm FinshCompiler FinshToken FinshHeap FinshParser.
From S2P Require Import FinshSem FinshLex FinshPrint.

(** ** States *)

(** What the parser of an expression changes: the token and the number of nodes. *)
Definition upd (t : finsh_token) (k : Z) (s : pstate) : pstate :=
  PState t (perrno s) (pnodes s + k) (global_variable s) (pmem s) (free_list s) (allocate_list s).

Lemma upd_upd t1 t2 k1 k2 s : upd t2 k2 (upd t1 k1 s) = upd t2 (k1 + k2) s.
Proof. unfold upd. cbn. by rewrite Z.add_assoc. Qed.

Lemma next_tok s x ts : reads (tok s) (x :: ts) →
  ∃ t', finsh_token_token s = Some (lex_type x, upd t' 0 s) ∧ loaded t' x ts.
Proof.
  intros H. destruct (next_token s x ts H) as (t'&E&Hl). exists t'. split; [|done].
  rewrite E. unfold upd. by rewrite Z.add_0_r.
Qed.

Lemma replay_tok s x ts : loaded (tok s) x ts →
  ∃ t', finsh_token_replay s = Some (tt, upd t' 0 s) ∧ reads t' (x :: ts).
Proof.
  intros H. destruct (replay_token s x ts H) as (t'&E&Hl). exists t'. split; [|done].
  rewrite E. unfold upd. by rewrite Z.add_0_r.
Qed.

Lemma loaded_reads t x ts : loaded t x ts → reads t ts.
Proof. intros (Hr&_&Hrest). by left. Qed.

(** Looking at a token. *)
Lemma peek s x ts {A} (f : token_type → P A) : reads (tok s) (x :: ts) →
  ∃ t', reads t' (x :: ts) ∧
    (finsh_token_token ≫= λ token, finsh_token_replay;; f token) s = f (lex_type x) (upd t' 0 s).
Proof.
  intros H. destruct (next_tok s x ts H) as (t1&E1&L1). destruct (replay_tok (upd t1 0 s) x ts L1) as (t2&E2&R2).
  exists t2. split; [done|]. pstep E1. pstep E2. by rewrite upd_upd.
Qed.

(** ** Nodes *)

Lemma make_node kind t1 t2 s : t1 ≠ Null → pnodes s < FINSH_NODE_MAX →
  make_sys_node kind t1 t2 s = Some (Tree (sys_node kind) (with_sibling t1 t2) Null, upd (tok s) 1 s).
Proof.
  intros Ht Hn. unfold make_sys_node, finsh_node_allocate, mbind, P_bind, pget. rewrite bool_decide_true by done.
  destruct t1; [done|]. done.
Qed.

Lemma make_leaf nd s : pnodes s < FINSH_NODE_MAX → new_leaf nd s = Some (Tree nd Null Null, upd (tok s) 1 s).
Proof.
  intros Hn. unfold new_leaf, finsh_node_allocate, mbind, P_bind, pget. by rewrite bool_decide_true.
Qed.

Lemma with_sibling_tree e sib sib' : with_sibling (tree_of e sib) sib' = tree_of e sib'.
Proof.
  induction e using expr_ind'; cbn [tree_of with_sibling]; try done.
  rewrite <- IHe. by destruct (tree_of e sib).
Qed.
Lemma tree_not_null e sib : tree_of e sib ≠ Null.
Proof. induction e using expr_ind'; cbn [tree_of]; try done. by destruct (tree_of e sib). Qed.
Lemma chain_trees args : chain ((λ a, tree_of a Null) <$> args) = foldr tree_of Null args.
Proof. induction args as [|a args IH]; [done|]. cbn. by rewrite with_sibling_tree, <- IH. Qed.

Lemma nodes_pos e : 1 <= nodes e.
Proof.
  induction e using expr_ind'; cbn [nodes]; try lia.
  assert (0 <= foldr (λ e k, nodes e + k) 0 args); [|lia].
  induction H; cbn [foldr]; lia.
Qed.

Section parse.
Context (nm : ident → list Z) (syms : symbols).

(** ** Levels *)

(** The level of the operator of a token; 8: none. *)
Definition tok_level (t : token_type) : nat :=
  match t with
  | finsh_token_type_left_paren | finsh_token_type_inc | finsh_token_type_dec => 0
  | finsh_token_type_mul | finsh_token_type_div | finsh_token_type_mod => 1
  | finsh_token_type_add | finsh_token_type_sub => 2
  | finsh_token_type_shl | finsh_token_type_shr => 3
  | finsh_token_type_and => 4
  | finsh_token_type_xor => 5
  | finsh_token_type_or => 6
  | finsh_token_type_assign => 7
  | _ => 8
  end.

Definition kinds (j : nat) : token_type → option node_kind :=
  match j with
  | 1 => mul_kinds | 2 => add_kinds | 3 => shift_kinds | 4 => and_kinds | 5 => xor_kinds
  | _ => or_kinds
  end%nat.

Fixpoint proc_level (j n : nat) (cast : P tree) : P tree :=
  match j with O => cast | S j => level n (proc_level j n cast) (kinds (S j)) end.

Lemma kinds_above j t : (1 <= j <= 6)%nat → (j < tok_level t)%nat → kinds j t = None.
Proof. intros Hj Ht. destruct j as [|[|[|[|[|[|[|j]]]]]]]; try lia; destruct t; cbn in Ht; lia || done. Qed.
Lemma kinds_op op : kinds (op_level op) (bin_token op) = Some (bin_kind op).
Proof. by destruct op. Qed.
Lemma op_level_range op : (1 <= op_level op <= 6)%nat.
Proof. destruct op; cbn; lia. Qed.
Lemma tok_level_op op : tok_level (bin_token op) = op_level op.
Proof. by destruct op. Qed.

(** ** What it means to parse an expression *)

(** [p] reads the lexemes of [e] up to one that does not continue it at the level
    [j], and makes its tree. *)
Definition ready (e : expr) (x : lexeme) (ts : list lexeme) (s : pstate) : Prop :=
  reads (tok s) (lexemes nm e ++ x :: ts) ∧ pnodes s + nodes e <= FINSH_NODE_MAX ∧
  all_named nm syms (global_variable s) e = true.

Definition parses (j : nat) (p : P tree) (e : expr) : Prop := ∀ s x ts,
  ready e x ts s → (j < tok_level (lex_type x))%nat →
  ∃ t', p s = Some (tree_of e Null, upd t' (nodes e) s) ∧ reads t' (x :: ts).

(** As far as the loop of the level [S j]. *)
Definition starts (j n : nat) (cast : P tree) (e : expr) : Prop := ∀ s x ts,
  ready e x ts s → (j < tok_level (lex_type x))%nat →
  ∃ t' k, (k < length (lexemes nm e))%nat ∧ reads t' (x :: ts) ∧
    proc_level (S j) n cast s =
    level_loop (n - k) (proc_level j n cast) (kinds (S j)) (tree_of e Null) (upd t' (nodes e) s).

Lemma lexemes_pos e : plain e = true → (1 <= length (lexemes nm e))%nat.
Proof. destruct e; cbn [lexemes]; intros; rewrite ?length_app; cbn; lia. Qed.

Lemma starts_parses j n cast e : (S j <= 6)%nat → (length (lexemes nm e) < n)%nat → starts j n cast e →
  parses (S j) (proc_level (S j) n cast) e.
Proof.
  intros Hj Hn H s x ts Hr Hx. destruct (H s x ts Hr) as (t1&k&Hk&R1&E); [lia|]. rewrite E.
  destruct (n - k)%nat as [|n'] eqn:En; [lia|]. cbn [level_loop].
  destruct (next_tok (upd t1 (nodes e) s) x ts R1) as (t2&E2&L2). pstep E2.
  rewrite kinds_above by lia. destruct (replay_tok (upd t2 0 (upd t1 (nodes e) s)) x ts L2) as (t3&E3&R3). pstep E3.
  exists t3. split; [|done]. rewrite !upd_upd. unfold mret, P_ret. do 3 f_equal. lia.
Qed.

Lemma parses_starts j n cast e : plain e = true → parses j (proc_level j n cast) e → starts j n cast e.
Proof.
  intros Hp H s x ts Hr Hx. destruct (H s x ts Hr Hx) as (t1&E&R). exists t1, O.
  split; [by apply lexemes_pos|]. split; [done|]. cbn [proc_level]. unfold level. pstep E. by rewrite Nat.sub_0_r.
Qed.

(** From one level to all those above it. *)
Lemma starts_up j n cast e : plain e = true → (length (lexemes nm e) < n)%nat → starts j n cast e →
  ∀ i, (j <= i)%nat → (i <= 5)%nat → starts i n cast e.
Proof.
  intros Hp Hn H i Hji Hi. induction Hji as [|i Hji IH]; [done|].
  apply parses_starts, starts_parses; [done|lia|done|]. apply IH. lia.
Qed.

(** ** Binary operators *)

Lemma ready_app e1 e2 op x ts s : ready (EBin op e1 e2) x ts s →
  ready e1 (LSym (bin_token op)) (lexemes nm e2 ++ x :: ts) s ∧
  pnodes s + nodes e1 + nodes e2 < FINSH_NODE_MAX ∧
  all_named nm syms (global_variable s) e2 = true.
Proof.
  intros (Hr&Hn&Ha). cbn [lexemes nodes all_named] in *. apply andb_true_iff in Ha as [Ha1 Ha2].
  pose proof (nodes_pos e2). rewrite <- app_assoc in Hr. unfold ready. split_and!; [done|lia|done|lia|done].
Qed.

Lemma starts_bin op e1 e2 n cast j : op_level op = S j → starts j n cast e1 →
  parses j (proc_level j n cast) e2 → (length (lexemes nm (EBin op e1 e2)) < n)%nat → starts j n cast (EBin op e1 e2).
Proof.
  intros Hop H1 H2 Hn s x ts Hr Hx. apply ready_app in Hr as (Hr1&Hroom&Hnames).
  destruct (H1 s _ _ Hr1) as (t1&k&Hk&R1&E1); [cbn [lex_type]; rewrite tok_level_op; lia|].
  cbn [lexemes] in Hn. rewrite length_app in Hn. cbn [length] in Hn.
  destruct (n - k)%nat as [|n'] eqn:En; [lia|].
  destruct (next_tok (upd t1 (nodes e1) s) _ _ R1) as (t2&E2&L2).
  set (s2 := upd t2 0 (upd t1 (nodes e1) s)) in *.
  destruct (H2 s2 x ts) as (t3&E3&R3); [|done|].
  { unfold ready. split_and!; [by eapply loaded_reads|cbn; lia|done]. }
  exists t3, (S k). split_and!; [cbn [lexemes]; rewrite length_app; cbn; lia|done|].
  rewrite E1. cbn [level_loop]. pstep E2. fold s2. cbn [lex_type]. rewrite <- Hop, kinds_op. pstep E3.
  replace (is_null (tree_of e2 Null)) with false by (pose proof (tree_not_null e2 Null); by destruct (tree_of e2 Null)).
  pstep (make_node (bin_kind op) (tree_of e1 Null) (tree_of e2 Null) (upd t3 (nodes e2) s2) (tree_not_null _ _) ltac:(cbn; lia)).
  rewrite with_sibling_tree. replace (n - S k)%nat with n' by lia. cbn [tok upd nodes tree_of].
  unfold s2. rewrite !upd_upd. rewrite Hop. do 2 f_equal. lia.
Qed.

(** ** Assignments *)

(** An expression without an assignment. *)
Lemma assign_none n e : parses 6 (proc_level 6 n (proc_cast_expr syms n)) e →
  parses 7 (proc_assign_expr syms (S n)) e.
Proof.
  intros H s x ts Hr Hx. destruct (H s x ts Hr) as (t1&E1&R1); [lia|]. cbn [proc_assign_expr].
  change (proc_inclusive_or_expr n (proc_cast_expr syms n)) with (proc_level 6 n (proc_cast_expr syms n)). pstep E1.
  destruct (next_tok (upd t1 (nodes e) s) x ts R1) as (t2&E2&L2). pstep E2.
  rewrite bool_decide_false by (intros E; rewrite E in Hx; cbn in Hx; lia).
  destruct (replay_tok (upd t2 0 (upd t1 (nodes e) s)) x ts L2) as (t3&E3&R3). pstep E3.
  exists t3. split; [|done]. rewrite !upd_upd. unfold mret, P_ret. do 3 f_equal. lia.
Qed.

Lemma parses_assign n l e : parses 6 (proc_level 6 n (proc_cast_expr syms n)) l →
  parses 7 (proc_assign_expr syms n) e → parses 7 (proc_assign_expr syms (S n)) (EAssign l e).
Proof.
  intros H1 H2 s x ts (Hr&Hroom&Hnames) Hx. cbn [lexemes nodes all_named] in *. rewrite <- app_assoc in Hr.
  apply andb_true_iff in Hnames as [Hn1 Hn2]. pose proof (nodes_pos e).
  destruct (H1 s (LSym finsh_token_type_assign) (lexemes nm e ++ x :: ts)) as (t1&E1&R1);
    [unfold ready; split_and!; [done|lia|done]|cbn; lia|].
  cbn [proc_assign_expr].
  change (proc_inclusive_or_expr n (proc_cast_expr syms n)) with (proc_level 6 n (proc_cast_expr syms n)). pstep E1.
  destruct (next_tok (upd t1 (nodes l) s) _ _ R1) as (t2&E2&L2). pstep E2. cbn [lex_type]. rewrite bool_decide_true by done.
  set (s2 := upd t2 0 (upd t1 (nodes l) s)).
  destruct (H2 s2 x ts) as (t3&E3&R3); [|done|].
  { unfold ready. split_and!; [by eapply loaded_reads|cbn; lia|done]. }
  pstep E3. rewrite (make_node _ (tree_of l Null) (tree_of e Null) (upd t3 (nodes e) s2)) by (apply tree_not_null || cbn; lia).
  rewrite with_sibling_tree. exists t3. split; [|done]. unfold s2. cbn [tok upd tree_of]. rewrite !upd_upd. do 3 f_equal. lia.
Qed.

(** ** Operands *)

(** A token that does not begin a cast, and one that is no operator before an
    operand either. *)
Definition begins (t : token_type) : bool :=
  match t with
  | finsh_token_type_left_paren | finsh_token_type_add | finsh_token_type_inc | finsh_token_type_sub
  | finsh_token_type_dec | finsh_token_type_bitwise | finsh_token_type_mul | finsh_token_type_and => false
  | _ => true
  end.

Lemma cast_unary n s x ts : reads (tok s) (x :: ts) → lex_type x ≠ finsh_token_type_left_paren →
  ∃ t', reads t' (x :: ts) ∧ proc_cast_expr syms (S n) s =
    proc_unary_expr syms n (proc_cast_expr syms n) (proc_assign_expr syms n) (upd t' 0 s).
Proof.
  intros H Hx. destruct (next_tok s x ts H) as (t1&E1&L1). destruct (replay_tok (upd t1 0 s) x ts L1) as (t2&E2&R2).
  exists t2. split; [done|]. cbn [proc_cast_expr]. pstep E1. rewrite bool_decide_false by done. pstep E2. by rewrite upd_upd.
Qed.

Lemma unary_postfix n cast assign s x ts : reads (tok s) (x :: ts) → begins (lex_type x) = true →
  ∃ t', reads t' (x :: ts) ∧ proc_unary_expr syms n cast assign s = proc_postfix_expr syms n assign (upd t' 0 s).
Proof.
  intros H Hx. destruct (next_tok s x ts H) as (t1&E1&L1). destruct (replay_tok (upd t1 0 s) x ts L1) as (t2&E2&R2).
  exists t2. split; [done|]. unfold proc_unary_expr. pstep E1.
  replace (match lex_type x with finsh_token_type_add => cast | _ => _ end)
    with (finsh_token_replay;; proc_postfix_expr syms n assign) by (by destruct (lex_type x)).
  pstep E2. by rewrite upd_upd.
Qed.

(** The loop after an operand stops at a token that does not belong to it. *)
Lemma postfix_stop n assign t s x ts : reads (tok s) (x :: ts) → (0 < tok_level (lex_type x))%nat →
  ∃ t', reads t' (x :: ts) ∧ postfix_loop (S n) assign t s = Some (t, upd t' 0 s).
Proof.
  intros H Hx. destruct (next_tok s x ts H) as (t1&E1&L1). destruct (replay_tok (upd t1 0 s) x ts L1) as (t2&E2&R2).
  exists t2. split; [done|]. cbn [postfix_loop]. pstep E1.
  assert ((finsh_token_replay;; mret t) (upd t1 0 s) = Some (t, upd t2 0 s)) as E by (pstep E2; by rewrite upd_upd).
  destruct (lex_type x); cbn in Hx; lia || exact E.
Qed.

(** ** Names *)

Lemma new_id name s i : resolve syms (global_variable s) name = i → i ≠ IdNull → zlen name < FINSH_NAME_MAX →
  pnodes s < FINSH_NODE_MAX → finsh_node_new_id syms name s = Some (Tree (id_node i) Null Null, upd (tok s) 1 s).
Proof.
  intros Hres Hi Hl Hn. unfold finsh_node_new_id, finsh_var_lookup.
  unfold resolve in Hres.
  assert (∀ v : ident, v ≠ IdNull → (match v with
    | IdNull => error_set FINSH_ERROR_UNKNOWN_SYMBOL;; mret Null
    | i => new_leaf (FNode FINSH_NODE_ID 0 (match i with IdVar _ _ => FINSH_IDTYPE_VAR
        | IdSysvar _ _ _ => FINSH_IDTYPE_SYSVAR | _ => FINSH_IDTYPE_SYSCALL end) 0 i) end) s =
    Some (Tree (id_node v) Null Null, upd (tok s) 1 s)) as Hleaf.
  { intros v Hv. destruct v; try done; by rewrite make_leaf. }
  unfold mbind, P_bind, pget.
  destruct (find_index _ (global_variable s) 0) as [j|]; [destruct (global_variable s !! j) as [v|]|].
  all: cbn in Hres |- *; try (rewrite <- Hres; by rewrite make_leaf).
  all: rewrite bool_decide_true by done; destruct (finsh_sysvar_lookup syms name) eqn:E; cbn in Hres |- *.
  all: first [rewrite Hres; by apply Hleaf|rewrite <- Hres; by rewrite make_leaf].
Qed.

Lemma name_lexeme vars i : named nm syms vars i = true →
  lex_type (LName (nm i)) = finsh_token_type_identifier ∧ zlen (nm i) < FINSH_NAME_MAX ∧
  resolve syms vars (nm i) = i ∧ i ≠ IdNull.
Proof.
  unfold named. rewrite !andb_true_iff, !bool_decide_eq_true. intros [[[Hl Hm] Hr] Hi]. cbn [lex_type].
  by rewrite Hm.
Qed.

Lemma get_token_name t s : cstring (tstring (tok s)) = Some t → zlen t < FINSH_NAME_MAX →
  finsh_token_get_token s = Some (t, s).
Proof.
  intros Hc Hl. unfold finsh_token_get_token, mbind, P_bind, tget.
  assert (∀ l k, cstring l = Some t → (length t < k)%nat → cstring (take k l) = Some t) as Ht.
  { clear. induction t as [|c t IH]; intros l k Hc Hk; (destruct l as [|c' l]; [done|]); (destruct k as [|k]; [cbn in Hk; lia|]);
      cbn in Hc |- *; case_bool_decide; try done; destruct (cstring l) as [t'|] eqn:E; try done; cbn in Hc.
    injection Hc as -> ->. rewrite (IH l k); [done|done|cbn in Hk; lia]. }
  rewrite (Ht _ _ Hc); [done|]. unfold zlen, FINSH_NAME_MAX in *. lia.
Qed.

(** A name as an operand. *)
Lemma primary_name expr s i ts : reads (tok s) (LName (nm i) :: ts) →
  named nm syms (global_variable s) i = true → pnodes s < FINSH_NODE_MAX →
  ∃ t', proc_primary_expr syms expr s = Some (Tree (id_node i) Null Null, upd t' 1 s) ∧ reads t' ts.
Proof.
  intros H (Hty&Hl&Hres&Hi)%name_lexeme Hn. destruct (next_tok s _ ts H) as (t1&E1&L1).
  destruct (replay_tok (upd t1 0 s) _ ts L1) as (t2&E2&R2).
  destruct (next_tok (upd t2 0 (upd t1 0 s)) _ ts R2) as (t3&E3&L3).
  unfold proc_primary_expr. pstep E1. rewrite Hty. pstep E2.
  set (s2 := upd t2 0 (upd t1 0 s)) in *. exists t3. split; [|by eapply loaded_reads].
  rewrite (P_bind_some _ _ _ (nm i) (upd t3 0 s2)).
  2: { unfold proc_identifier, match_token. rewrite (P_bind_some _ _ _ tt (upd t3 0 s2)).
       - apply get_token_name; [|done]. by destruct L3 as (_&[_ Hc]&_).
       - pstep E3. rewrite Hty. unfold check_token. by rewrite bool_decide_false by (by intros []). }
  rewrite (new_id (nm i) (upd t3 0 s2) i) by (done || cbn; lia). unfold s2. cbn [tok upd]. by rewrite !upd_upd.
Qed.

(** The operands that are one lexeme. *)
Definition atom (e : expr) : bool :=
  match e with EInt _ | ELong _ | EChar _ | ENull | EVar _ => true | _ => false end.

Lemma atom_lexeme e : atom e = true → ∃ y, lexemes nm e = [y].
Proof. destruct e; cbn; try done; eauto. Qed.

Lemma primary_atom expr e s ts : atom e = true → reads (tok s) (lexemes nm e ++ ts) →
  all_named nm syms (global_variable s) e = true → pnodes s < FINSH_NODE_MAX →
  ∃ t', proc_primary_expr syms expr s = Some (tree_of e Null, upd t' 1 s) ∧ reads t' ts.
Proof.
  intros Ha H Hnames Hn. destruct e; try done; cbn [lexemes app] in H; [| | | |by apply primary_name].
  all: destruct (next_tok s _ ts H) as (t1&E1&L1); exists t1; (split; [|by eapply loaded_reads]);
    unfold proc_primary_expr; pstep E1; destruct L1 as (_&[_ Hh]&_).
  - cbn [lex_type]. rewrite (P_bind_some _ _ _ (tvalue t1) (upd t1 0 s)) by done. rewrite Hh.
    unfold finsh_node_new_int. rewrite make_leaf by (cbn; lia). cbn [tok upd]. by rewrite !upd_upd.
  - cbn [lex_type]. rewrite (P_bind_some _ _ _ (tvalue t1) (upd t1 0 s)) by done. rewrite Hh.
    unfold finsh_node_new_long. rewrite make_leaf by (cbn; lia). cbn [tok upd]. by rewrite !upd_upd.
  - cbn [lex_type]. rewrite (P_bind_some _ _ _ (tvalue t1) (upd t1 0 s)) by done. rewrite Hh.
    unfold finsh_node_new_char. rewrite make_leaf by (cbn; lia). cbn [tok upd]. by rewrite !upd_upd.
  - change (lex_type (LName (keyword finsh_token_type_value_null))) with finsh_token_type_value_null. cbv iota.
    unfold finsh_node_new_ptr. rewrite make_leaf by (cbn; lia). cbn [tok upd]. by rewrite !upd_upd.
Qed.

Lemma atom_begins e y : atom e = true → lexemes nm e = [y] →
  (∀ i, e = EVar i → lex_type (LName (nm i)) = finsh_token_type_identifier) → begins (lex_type y) = true.
Proof. intros Ha Hy Hi. destruct e; try done; cbn in Hy; injection Hy as <-; try done. by rewrite (Hi i). Qed.

Lemma begins_not_paren t : begins t = true → t ≠ finsh_token_type_left_paren.
Proof. by intros H ->. Qed.

(** From [proc_cast_expr] to the operand and the loop behind it. *)
Lemma cast_postfix n s y ts : reads (tok s) (y :: ts) → begins (lex_type y) = true →
  ∃ t', reads t' (y :: ts) ∧ proc_cast_expr syms (S n) s = proc_postfix_expr syms n (proc_assign_expr syms n) (upd t' 0 s).
Proof.
  intros H Hy. destruct (cast_unary n s y ts H (begins_not_paren _ Hy)) as (t1&R1&E1).
  destruct (unary_postfix n (proc_cast_expr syms n) (proc_assign_expr syms n) (upd t1 0 s) y ts R1 Hy) as (t2&R2&E2).
  exists t2. split; [done|]. by rewrite E1, E2, upd_upd.
Qed.

Lemma parses_atom n e : atom e = true → parses 0 (proc_cast_expr syms (S (S n))) e.
Proof.
  intros Ha s x ts (Hr&Hroom&Hnames) Hx. destruct (atom_lexeme e Ha) as [y Hy]. rewrite Hy in Hr. cbn [app] in Hr.
  assert (nodes e = 1) as Hn1 by (by destruct e). rewrite Hn1 in *.
  assert (begins (lex_type y) = true) as Hb.
  { apply (atom_begins e y Ha Hy). intros i ->. by eapply name_lexeme. }
  destruct (cast_postfix (S n) s y (x :: ts) Hr Hb) as (t1&R1&E1). rewrite E1. unfold proc_postfix_expr.
  destruct (primary_atom (proc_assign_expr syms (S n)) e (upd t1 0 s) (x :: ts)) as (t2&E2&R2);
    [done|by rewrite Hy|done|cbn; lia|]. pstep E2.
  destruct (postfix_stop n (proc_assign_expr syms (S n)) (tree_of e Null) (upd t2 1 (upd t1 0 s)) x ts R2 Hx) as (t3&R3&E3).
  exists t3. split; [|done]. rewrite E3, !upd_upd. done.
Qed.

Lemma parses_post n op i : op = Add ∨ op = Sub → parses 0 (proc_cast_expr syms (S (S (S n)))) (EPost op i).
Proof.
  remember (S n) as m eqn:Em. intros Hop s x ts (Hr&Hroom&Hnames) Hx. cbn [lexemes app nodes all_named] in *.
  destruct (name_lexeme _ i Hnames) as (Hty&_).
  destruct (cast_postfix (S m) s _ _ Hr ltac:(by rewrite Hty)) as (t1&R1&E1). rewrite E1. unfold proc_postfix_expr.
  destruct (primary_name (proc_assign_expr syms (S m)) (upd t1 0 s) i _ R1 Hnames ltac:(cbn; lia)) as (t2&E2&R2). pstep E2.
  set (s2 := upd t2 1 (upd t1 0 s)) in *. destruct (next_tok s2 _ _ R2) as (t3&E3&L3).
  assert (make_sys_node (post_kind op) (Tree (id_node i) Null Null) Null (upd t3 0 s2) =
    Some (tree_of (EPost op i) Null, upd t3 1 (upd t3 0 s2))) as E4 by (apply make_node; [done|cbn; lia]).
  destruct (postfix_stop n (proc_assign_expr syms (S m)) (tree_of (EPost op i) Null) (upd t3 1 (upd t3 0 s2)) x ts
    (loaded_reads _ _ _ L3) Hx) as (t5&R5&E5). rewrite <- Em in E5.
  exists t5. split; [|done]. 
  destruct Hop as [-> | ->]; cbn [post_kind postfix_loop] in E4 |- *; pstep E3; cbn [lex_type step_token]; pstep E4;
    rewrite E5; unfold s2; by rewrite !upd_upd.
Qed.

(** ** Operators before an operand *)

Lemma parses_prefix n e e' tk k :
  lexemes nm e' = LSym tk :: lexemes nm e → nodes e' = nodes e + 1 →
  (∀ vars, all_named nm syms vars e' = all_named nm syms vars e) →
  tree_of e' Null = Tree (sys_node k) (tree_of e Null) Null →
  tk ≠ finsh_token_type_left_paren →
  (∀ n cast assign s t1, finsh_token_token s = Some (tk, t1) →
     proc_unary_expr syms n cast assign s = (t ← cast; make_sys_node k t Null) t1) →
  parses 0 (proc_cast_expr syms n) e → parses 0 (proc_cast_expr syms (S n)) e'.
Proof.
  intros Hlex Hnodes Hnamed Htree Htk Hun H s x ts (Hr&Hroom&Hnames) Hx. rewrite Hlex, Hnodes, Hnamed in *. cbn [app] in Hr.
  destruct (cast_unary n s _ _ Hr Htk) as (t1&R1&E1). rewrite E1.
  destruct (next_tok (upd t1 0 s) _ _ R1) as (t2&E2&L2). rewrite (Hun n _ _ _ _ E2).
  set (s2 := upd t2 0 (upd t1 0 s)). pose proof (nodes_pos e).
  destruct (H s2 x ts) as (t3&E3&R3); [|done|].
  { unfold ready. split_and!; [by eapply loaded_reads|cbn; lia|done]. }
  pstep E3. rewrite make_node by (apply tree_not_null || cbn; lia). rewrite with_sibling_tree, Htree.
  exists t3. split; [|done]. unfold s2. cbn [tok upd]. rewrite !upd_upd. do 3 f_equal.
Qed.

Lemma parses_neg n e : parses 0 (proc_cast_expr syms n) e → parses 0 (proc_cast_expr syms (S n)) (ENeg e).
Proof.
  intros H s x ts (Hr&Hroom&Hnames) Hx. cbn [lexemes nodes all_named app] in *.
  destruct (cast_unary n s _ _ Hr ltac:(done)) as (t1&R1&E1). rewrite E1.
  destruct (next_tok (upd t1 0 s) _ _ R1) as (t2&E2&L2). unfold proc_unary_expr. pstep E2. cbn [lex_type].
  set (s2 := upd t2 0 (upd t1 0 s)). pose proof (nodes_pos e).
  destruct (H s2 x ts) as (t3&E3&R3); [|done|].
  { unfold ready. split_and!; [by eapply loaded_reads|cbn; lia|done]. }
  pstep E3. unfold finsh_node_new_long.
  pstep (make_leaf (FNode FINSH_NODE_VALUE_LONG 0 0 0 IdNull) (upd t3 (nodes e) s2) ltac:(cbn; lia)).
  rewrite make_node by (done || cbn; lia). exists t3. split; [|done].
  unfold s2. cbn [tok upd with_sibling tree_of]. rewrite !upd_upd. done.
Qed.

(** ** Casts *)

Lemma type_tail s x ts t : reads (tok s) (x :: ts) → lex_type x = finsh_token_type_right_paren →
  ∃ t', type_pointer t s = Some (t, upd t' 0 s) ∧ reads t' (x :: ts).
Proof.
  intros H Hx. destruct (next_tok s x ts H) as (t1&E1&L1). destruct (replay_tok (upd t1 0 s) x ts L1) as (t2&E2&R2).
  exists t2. split; [|done]. unfold type_pointer. pstep E1. rewrite Hx, bool_decide_false by done. pstep E2.
  by rewrite upd_upd.
Qed.
Lemma type_star s ts t : reads (tok s) (LSym finsh_token_type_mul :: ts) →
  ∃ t', type_pointer t s = Some (pointer_type t, upd t' 0 s) ∧ reads t' ts.
Proof.
  intros H. destruct (next_tok s _ ts H) as (t1&E1&L1). exists t1. split; [|by eapply loaded_reads].
  unfold type_pointer. pstep E1. done.
Qed.

Lemma parses_type s t x ts : t ≠ finsh_type_unknown → reads (tok s) (type_lexemes t ++ x :: ts) →
  lex_type x = finsh_token_type_right_paren →
  ∃ t', proc_type s = Some (t, upd t' 0 s) ∧ reads t' (x :: ts).
Proof.
  intros Ht H Hx. unfold proc_type.
  assert (∀ s y, reads (tok s) (y :: x :: ts) → ∃ t1, finsh_token_token s = Some (lex_type y, upd t1 0 s) ∧
    ∀ ty, ∃ t2, type_pointer ty (upd t1 0 s) = Some (ty, upd t2 0 s) ∧ reads t2 (x :: ts)) as Hbase.
  { clear s H. intros s y H. destruct (next_tok s y _ H) as (t1&E1&L1). exists t1. split; [done|]. intros ty.
    destruct (type_tail (upd t1 0 s) x ts ty (loaded_reads _ _ _ L1) Hx) as (t2&E2&R2). exists t2.
    by rewrite E2, upd_upd. }
  assert (∀ y, reads (tok s) (y :: LSym finsh_token_type_mul :: x :: ts) →
    ∃ t1, finsh_token_token s = Some (lex_type y, upd t1 0 s) ∧
    ∀ ty, ∃ t2, type_pointer ty (upd t1 0 s) = Some (pointer_type ty, upd t2 0 s) ∧ reads t2 (x :: ts)) as Hstar.
  { intros y Hy. destruct (next_tok s y _ Hy) as (t1&E1&L1). exists t1. split; [done|]. intros ty.
    destruct (type_star (upd t1 0 s) (x :: ts) ty (loaded_reads _ _ _ L1)) as (t2&E2&R2). exists t2.
    by rewrite E2, upd_upd. }
  destruct t; try done; cbn [type_lexemes app] in H.
  all: first
    [destruct (Hbase s _ H) as (t1&E1&H2); pstep E1; apply H2
    |destruct (Hstar _ H) as (t1&E1&H2); pstep E1; apply H2
    |destruct (next_tok s _ _ H) as (t1&E1&L1); pstep E1;
     destruct (Hbase (upd t1 0 s) _ (loaded_reads _ _ _ L1)) as (t2&E2&H2);
     change (lex_type (LName (keyword finsh_token_type_unsigned))) with finsh_token_type_unsigned; cbv iota; pstep E2;
     rewrite !upd_upd in *; setoid_rewrite upd_upd in H2; apply H2].
Qed.

(** A token that is what was expected. *)
Lemma match_ok s x ts : reads (tok s) (x :: ts) →
  ∃ t', match_token (lex_type x) s = Some (tt, upd t' 0 s) ∧ reads t' ts.
Proof.
  intros H. destruct (next_tok s x ts H) as (t1&E1&L1). exists t1. split; [|by eapply loaded_reads].
  unfold match_token. pstep E1. unfold check_token. by rewrite bool_decide_false by (by intros []).
Qed.

Lemma parses_cast n t e : t ≠ finsh_type_unknown → parses 0 (proc_cast_expr syms n) e →
  parses 0 (proc_cast_expr syms (S n)) (ECast t e).
Proof.
  intros Ht H s x ts (Hr&Hroom&Hnames) Hx. cbn [lexemes nodes all_named app] in *.
  rewrite <- app_assoc in Hr. cbn [app] in Hr.
  destruct (next_tok s _ _ Hr) as (t1&E1&L1). cbn [proc_cast_expr]. pstep E1. cbn [lex_type]. rewrite bool_decide_true by done.
  destruct (parses_type (upd t1 0 s) t _ _ Ht (loaded_reads _ _ _ L1) ltac:(done)) as (t2&E2&R2). pstep E2.
  destruct (match_ok (upd t2 0 (upd t1 0 s)) _ _ R2) as (t3&E3&R3). pstep E3.
  set (s3 := upd t3 0 (upd t2 0 (upd t1 0 s))).
  destruct (H s3 x ts) as (t4&E4&R4); [unfold ready; split_and!; [done|cbn; lia|done]|done|]. pstep E4.
  exists t4. split; [|done]. unfold s3. rewrite !upd_upd. cbn [tree_of].
  pose proof (tree_not_null e Null). by destruct (tree_of e Null).
Qed.

(** The tokens with which an expression can begin. *)
Definition opens (t : token_type) : bool :=
  match t with
  | finsh_token_type_right_paren | finsh_token_type_semicolon | finsh_token_type_unsigned
  | finsh_token_type_eof | finsh_token_type_bad => false
  | t => negb (is_base_type t)
  end.

Lemma first_lexeme e vars : plain e = true → all_named nm syms vars e = true →
  ∃ y l, lexemes nm e = y :: l ∧ opens (lex_type y) = true.
Proof.
  induction e using expr_ind'; cbn [plain all_named lexemes]; intros Hp Ha;
    try (eexists _, _; split; [done|]; first [done|by destruct op]);
    try (destruct (name_lexeme vars _ Ha) as (Hty&_); eexists _, _; split; [done|by rewrite Hty]).
  - apply andb_true_iff in Ha as [Ha _]. apply andb_true_iff in Hp as [[[Hp _]%andb_true_iff _]%andb_true_iff _].
    destruct (IHe1 Hp Ha) as (y&l&->&Hy). eexists _, _. split; [done|done].
  - apply andb_true_iff in Ha as [Ha _]. apply andb_true_iff in Hp as [[Hp _]%andb_true_iff _].
    destruct (IHe1 Hp Ha) as (y&l&->&Hy). eexists _, _. split; [done|done].
  - apply andb_true_iff in Ha as [Ha _]. destruct (name_lexeme vars _ Ha) as (Hty&_). eexists _, _. split; [done|by rewrite Hty].
Qed.

(** ** Calls *)

Definition more_args (args : list expr) : list lexeme :=
  concat ((λ a, LSym finsh_token_type_comma :: lexemes nm a) <$> args).
Definition args_nodes (args : list expr) : Z := foldr (λ e k, nodes e + k) 0 args.

Lemma args_nodes_nonneg args : 0 <= args_nodes args.
Proof. induction args as [|a args IH]; [done|]. unfold args_nodes in *. cbn. pose proof (nodes_pos a). lia. Qed.

(** After an argument comes a comma or the parenthesis. *)
Lemma more_args_head args ts : ∃ y ts',
  more_args args ++ LSym finsh_token_type_right_paren :: ts = y :: ts' ∧ (7 < tok_level (lex_type y))%nat.
Proof. destruct args; (eexists _, _; split; [done|cbn; lia]). Qed.

Lemma parses_args args assign : Forall (parses 7 assign) args → ∀ acc n s ts, (length args < n)%nat →
  reads (tok s) (more_args args ++ LSym finsh_token_type_right_paren :: ts) →
  pnodes s + args_nodes args <= FINSH_NODE_MAX → forallb (all_named nm syms (global_variable s)) args = true →
  ∃ t', param_loop n assign acc s =
      Some (acc ++ ((λ a, tree_of a Null) <$> args), upd t' (args_nodes args) s) ∧
    reads t' (LSym finsh_token_type_right_paren :: ts).
Proof.
  induction 1 as [|a args Ha _ IH]; intros acc n s ts Hn Hr Hroom Hnames; (destruct n as [|n]; [lia|]); cbn [param_loop].
  - destruct (next_tok s _ _ Hr) as (t1&E1&L1). pstep E1. destruct (replay_tok (upd t1 0 s) _ _ L1) as (t2&E2&R2).
    cbn [lex_type]. rewrite bool_decide_false by done. pstep E2. exists t2. rewrite upd_upd. split; [|done].
    unfold mret, P_ret. by rewrite app_nil_r.
  - unfold args_nodes, more_args in *. cbn [fmap list_fmap concat app foldr forallb] in *. rewrite <- app_assoc in Hr.
    apply andb_true_iff in Hnames as [Hna Hnames]. pose proof (args_nodes_nonneg args) as Hpos. unfold args_nodes in Hpos.
    destruct (next_tok s _ _ Hr) as (t1&E1&L1). pstep E1. cbn [lex_type]. rewrite bool_decide_true by done.
    apply loaded_reads in L1. destruct (more_args_head args ts) as (y&ts'&Ey&Hy). unfold more_args in Ey. rewrite Ey in L1.
    destruct (Ha (upd t1 0 s) y ts') as (t2&E2&R2); [unfold ready; split_and!; [done|cbn; lia|done]|done|]. pstep E2.
    replace (is_null (tree_of a Null)) with false by (pose proof (tree_not_null a Null); by destruct (tree_of a Null)).
    rewrite <- Ey in R2.
    destruct (IH (acc ++ [tree_of a Null]) n (upd t2 (nodes a) (upd t1 0 s)) ts) as (t3&E3&R3);
      [cbn in Hn; lia|done|cbn; lia|done|].
    exists t3. split; [|done]. rewrite E3, !upd_upd, <- app_assoc. done.
Qed.

Lemma parses_params args n assign s ts : args ≠ [] → Forall (parses 7 assign) args → (length args <= n)%nat →
  reads (tok s) (match args with [] => [] | a :: args => lexemes nm a ++ more_args args end
                 ++ LSym finsh_token_type_right_paren :: ts) →
  pnodes s + args_nodes args <= FINSH_NODE_MAX → forallb (all_named nm syms (global_variable s)) args = true →
  ∃ t', proc_param_list n assign s = Some (foldr tree_of Null args, upd t' (args_nodes args) s) ∧
    reads t' (LSym finsh_token_type_right_paren :: ts).
Proof.
  intros Hne Hall Hn Hr Hroom Hnames. destruct args as [|a args]; [done|]. inversion_clear Hall as [|? ? Ha Hargs].
  rewrite <- app_assoc in Hr. destruct (more_args_head args ts) as (y&ts'&Ey&Hy). rewrite Ey in Hr.
  unfold args_nodes in *. cbn [foldr forallb] in *. apply andb_true_iff in Hnames as [Hna Hnames].
  pose proof (args_nodes_nonneg args) as Hpos. unfold args_nodes in Hpos.
  destruct (Ha s y ts') as (t1&E1&R1); [unfold ready; split_and!; [done|lia|done]|done|]. unfold proc_param_list. pstep E1.
  replace (is_null (tree_of a Null)) with false by (pose proof (tree_not_null a Null); by destruct (tree_of a Null)).
  rewrite <- Ey in R1.
  destruct (parses_args args assign Hargs [tree_of a Null] n (upd t1 (nodes a) s) ts) as (t2&E2&R2);
    [cbn in Hn; lia|done|unfold args_nodes; cbn; lia|done|]. pstep E2.
  exists t2. split; [|done]. rewrite upd_upd. unfold mret, P_ret.
  change ([tree_of a Null] ++ ((λ a, tree_of a Null) <$> args)) with ((λ a, tree_of a Null) <$> (a :: args)).
  by rewrite chain_trees.
Qed.

(** The parenthesis, the arguments and the parenthesis. *)
Lemma parses_brackets args n assign s ts : Forall (parses 7 assign) args → (length args <= n)%nat →
  reads (tok s) (match args with [] => [] | a :: args => lexemes nm a ++ more_args args end
                 ++ LSym finsh_token_type_right_paren :: ts) →
  pnodes s + args_nodes args <= FINSH_NODE_MAX → forallb (all_named nm syms (global_variable s)) args = true →
  (∀ a, a ∈ args → plain a = true ∧ all_named nm syms (global_variable s) a = true) →
  ∃ t', (token ← finsh_token_token;
         if bool_decide (token ≠ finsh_token_type_right_paren) then
           finsh_token_replay;;
           l ← proc_param_list n assign;
           match_token finsh_token_type_right_paren;;
           mret l
         else mret Null) s = Some (foldr tree_of Null args, upd t' (args_nodes args) s) ∧ reads t' ts.
Proof.
  intros Hall Hn Hr Hroom Hnames Hplain. destruct args as [|a args].
  - destruct (next_tok s _ _ Hr) as (t1&E1&L1). exists t1. split; [|by eapply loaded_reads]. by pstep E1.
  - assert (∃ y ts', lexemes nm a ++ more_args args ++ LSym finsh_token_type_right_paren :: ts = y :: ts' ∧
      lex_type y ≠ finsh_token_type_right_paren) as (y&ts'&Ey&Hy).
    { assert (∀ t, opens t = true → t ≠ finsh_token_type_right_paren) as Hopen by (by intros ? ? ->).
      destruct (Hplain a ltac:(left)) as [Hp Hna]. destruct (first_lexeme a (global_variable s) Hp Hna) as (y&l&->&Hy). eexists _, _. split; [done|auto]. }
    rewrite <- app_assoc, Ey in Hr. destruct (next_tok s _ _ Hr) as (t1&E1&L1). pstep E1. rewrite bool_decide_true by done.
    destruct (replay_tok (upd t1 0 s) _ _ L1) as (t2&E2&R2). pstep E2. rewrite <- Ey in R2.
    destruct (parses_params (a :: args) n assign (upd t2 0 (upd t1 0 s)) ts) as (t3&E3&R3);
      [done|done|done|by rewrite <- app_assoc|cbn [upd pnodes]; lia|done|]. pstep E3.
    destruct (match_ok (upd t3 (args_nodes (a :: args)) (upd t2 0 (upd t1 0 s))) _ _ R3) as (t4&E4&R4). pstep E4.
    exists t4. split; [|done]. rewrite !upd_upd. unfold mret, P_ret. do 3 f_equal. lia.
Qed.

Lemma parses_call n entry f args : Forall (parses 7 (proc_assign_expr syms (S (S n)))) args → (length args <= S n)%nat →
  forallb plain args = true → parses 0 (proc_cast_expr syms (S (S (S n)))) (ECall entry f args).
Proof.
  remember (S n) as m eqn:Em. intros Hall Hn Hplain s x ts (Hr&Hroom&Hnames) Hx. cbn [lexemes app nodes all_named] in *.
  change (foldr (λ e k, nodes e + k) 0 args) with (args_nodes args) in *. rewrite <- app_assoc in Hr. cbn [app] in Hr.
  apply andb_true_iff in Hnames as [Hname Hargs]. destruct (name_lexeme _ _ Hname) as (Hty&_).
  pose proof (args_nodes_nonneg args) as Hpos.
  destruct (cast_postfix (S m) s _ _ Hr ltac:(by rewrite Hty)) as (t1&R1&E1). rewrite E1. unfold proc_postfix_expr.
  destruct (primary_name (proc_assign_expr syms (S m)) (upd t1 0 s) _ _ R1 Hname ltac:(cbn; lia)) as (t2&E2&R2). pstep E2.
  set (s2 := upd t2 1 (upd t1 0 s)) in *. destruct (next_tok s2 _ _ R2) as (t3&E3&L3).
  destruct (parses_brackets args m (proc_assign_expr syms (S m)) (upd t3 0 s2) (x :: ts)) as (t4&E4&R4);
    [done|done|by apply loaded_reads in L3|unfold s2; cbn [upd pnodes]; lia|done| |].
  { intros a Ha. split; eapply forallb_forall; eauto; by apply list_elem_of_In. }
  set (s4 := upd t4 (args_nodes args) (upd t3 0 s2)) in *.
  assert (make_sys_node FINSH_NODE_SYS_FUNC (Tree (id_node (IdSyscall entry f)) Null Null) (foldr tree_of Null args) s4 =
    Some (tree_of (ECall entry f args) Null, upd t4 1 s4)) as E5 by (apply make_node; [done|unfold s4, s2; cbn [upd pnodes]; lia]).
  destruct (postfix_stop n (proc_assign_expr syms (S m)) (tree_of (ECall entry f args) Null) (upd t4 1 s4) x ts R4 Hx)
    as (t6&R6&E6). rewrite <- Em in E6.
  exists t6. split; [|done]. cbn [postfix_loop]. pstep E3. cbn [lex_type].
  unfold mbind, P_bind in E4 |- *. destruct (finsh_token_token (upd t3 0 s2)) as [[token s']|]; [|done].
  rewrite E4, E5, E6. unfold s4, s2. rewrite !upd_upd. do 3 f_equal. lia.
Qed.

(** ** All expressions *)

Definition parsed (e : expr) : Prop := plain e = true → ∀ n,
  ((length (lexemes nm e) + 2 <= n)%nat → elevel e = 0%nat → parses 0 (proc_cast_expr syms n) e) ∧
  ((length (lexemes nm e) + 2 <= n)%nat → ∀ j, (elevel e <= S j)%nat → (j <= 5)%nat →
     starts j n (proc_cast_expr syms n) e) ∧
  ((length (lexemes nm e) + 3 <= n)%nat → parses 7 (proc_assign_expr syms n) e).

(** The assignment level, from the others. *)
Lemma parsed_none e : plain e = true → (elevel e <= 6)%nat →
  (∀ n, (length (lexemes nm e) + 2 <= n)%nat → starts 5 n (proc_cast_expr syms n) e) →
  ∀ n, (length (lexemes nm e) + 3 <= n)%nat → parses 7 (proc_assign_expr syms n) e.
Proof.
  intros Hp Hl H n Hn. destruct n as [|n]; [lia|]. apply assign_none, starts_parses; [lia|lia|]. apply H. lia.
Qed.

Lemma parsed_operand e : elevel e = 0%nat →
  (plain e = true → ∀ n, (length (lexemes nm e) + 2 <= n)%nat → parses 0 (proc_cast_expr syms n) e) → parsed e.
Proof.
  intros Hl H Hp. specialize (H Hp).
  assert (∀ n, (length (lexemes nm e) + 2 <= n)%nat → ∀ j, (j <= 5)%nat → starts j n (proc_cast_expr syms n) e) as Hs.
  { intros n Hn j Hj. apply (starts_up 0); [done|lia| |lia|done]. apply parses_starts; [done|]. by apply H. }
  intros n. split_and!; [auto|auto|]. apply parsed_none; [done|lia|auto].
Qed.

(** The second operand of a binary operator is parsed one level below. *)
Lemma parsed_below e n j : parsed e → plain e = true → (length (lexemes nm e) + 2 <= n)%nat → (elevel e <= j)%nat →
  (j <= 6)%nat → parses j (proc_level j n (proc_cast_expr syms n)) e.
Proof.
  intros H Hp Hn Hl Hj. destruct (H Hp n) as (H0&H1&_). destruct j as [|j]; [apply H0; lia|].
  apply starts_parses; [lia|lia|]. apply H1; lia.
Qed.

Lemma parsed_bin op e1 e2 : parsed e1 → parsed e2 → parsed (EBin op e1 e2).
Proof.
  intros H1 H2 Hp. pose proof (op_level_range op) as Hop. cbn [plain] in Hp. apply andb_true_iff in Hp as Hp'.
  destruct Hp' as [[[Hp1 Hp2]%andb_true_iff Hl1%bool_decide_eq_true]%andb_true_iff Hl2%bool_decide_eq_true].
  destruct (op_level op) as [|j0] eqn:Ej; [lia|].
  assert (∀ n, (length (lexemes nm (EBin op e1 e2)) + 2 <= n)%nat → ∀ j, (S j0 <= S j)%nat → (j <= 5)%nat →
    starts j n (proc_cast_expr syms n) (EBin op e1 e2)) as Hs.
  { intros n Hn j Hj Hj'. assert (length (lexemes nm (EBin op e1 e2)) = length (lexemes nm e1) + S (length (lexemes nm e2)))%nat
      as El by (cbn [lexemes]; by rewrite length_app).
    apply (starts_up j0); [cbn [plain]; rewrite Ej; exact Hp|lia| |lia|done]. apply starts_bin; [done| | |lia].
    - destruct (H1 Hp1 n) as (_&H&_). apply H; lia.
    - apply parsed_below; [done|done|lia|lia|lia]. }
  intros n. cbn [elevel]. rewrite Ej. split_and!; [done|auto|].
  apply parsed_none; [cbn [plain]; by rewrite Ej|cbn [elevel]; lia|]. intros k Hk. apply Hs; lia.
Qed.

Lemma parsed_assign l e : parsed l → parsed e → parsed (EAssign l e).
Proof.
  intros H1 H2 Hp n. cbn [plain elevel] in *. apply andb_true_iff in Hp as [[Hp1 Hp2]%andb_true_iff Hl%bool_decide_eq_true].
  split_and!; [done|intros; lia|]. intros Hn. cbn [lexemes] in Hn. rewrite length_app in Hn. cbn [length] in Hn.
  destruct n as [|n]; [lia|]. apply parses_assign.
  - apply parsed_below; [done|done|lia|done|lia].
  - destruct (H2 Hp2 n) as (_&_&H). apply H. lia.
Qed.

Lemma args_length args :
  let l := length (match args with [] => [] | a :: args => lexemes nm a ++ more_args args end) in
  forallb plain args = true → (length args <= l)%nat ∧ ∀ a, a ∈ args → (length (lexemes nm a) <= l)%nat.
Proof.
  assert (∀ args, forallb plain args = true → (length args <= length (more_args args))%nat ∧
    ∀ a, a ∈ args → (length (lexemes nm a) <= length (more_args args))%nat) as Hmore.
  { clear args. induction args as [|b args IH]; cbn [forallb]; [split; [done|by intros a ?%elem_of_nil]|].
    intros [Hb Hargs]%andb_true_iff. destruct (IH Hargs) as [IH1 IH2]. unfold more_args in *.
    cbn [fmap list_fmap concat app length]. rewrite length_app. split; [lia|].
    intros a [->|Ha]%elem_of_cons; [lia|]. specialize (IH2 a Ha). lia. }
  destruct args as [|b args]; cbn [forallb]; [split; [done|by intros a ?%elem_of_nil]|].
  intros [Hb Hargs]%andb_true_iff. destruct (Hmore args Hargs) as [H1 H2]. rewrite length_app.
  pose proof (lexemes_pos b Hb). split; [cbn; lia|]. intros a [->|Ha]%elem_of_cons; [lia|]. specialize (H2 a Ha). lia.
Qed.

Lemma parsed_call entry f args : Forall parsed args → parsed (ECall entry f args).
Proof.
  intros H. apply parsed_operand; [done|]. cbn [plain]. intros Hp n Hn.
  destruct (args_length args Hp) as [Hlen Hle]. cbn [lexemes] in Hn. fold (more_args) in Hn.
  cbn [length] in Hn. rewrite length_app in Hn. cbn [length] in Hn.
  destruct n as [|[|[|n]]]; [lia..|]. unfold more_args in *. apply parses_call; [|lia|done].
  apply Forall_forall. intros a Ha. rewrite Forall_forall in H.
  assert (plain a = true) as Hpa by (eapply forallb_forall; [exact Hp|by apply list_elem_of_In]).
  destruct (H a Ha Hpa (S (S n))) as (_&_&H3). apply H3. specialize (Hle a Ha). lia.
Qed.

Lemma parsed_prefix e e' tk k :
  lexemes nm e' = LSym tk :: lexemes nm e → nodes e' = nodes e + 1 →
  (∀ vars, all_named nm syms vars e' = all_named nm syms vars e) →
  tree_of e' Null = Tree (sys_node k) (tree_of e Null) Null → tk ≠ finsh_token_type_left_paren →
  (∀ n cast assign s t1, finsh_token_token s = Some (tk, t1) →
     proc_unary_expr syms n cast assign s = (t ← cast; make_sys_node k t Null) t1) →
  elevel e' = 0%nat → (plain e' = true → plain e = true ∧ elevel e = 0%nat) → parsed e → parsed e'.
Proof.
  intros Hlex Hnodes Hnamed Htree Htk Hun Hl Hp H. apply parsed_operand; [done|]. intros Hp' n Hn.
  destruct (Hp Hp') as [Hpe He]. rewrite Hlex in Hn. cbn [length] in Hn. destruct n as [|n]; [lia|].
  eapply parses_prefix; try done. destruct (H Hpe n) as (H0&_&_). apply H0; [lia|done].
Qed.

Lemma unary_token tk k n cast assign s t1 :
  (∀ cast assign, match tk with
     | finsh_token_type_add => cast
     | finsh_token_type_inc => t ← cast; make_sys_node FINSH_NODE_SYS_PREINC t Null
     | finsh_token_type_sub => t ← cast; zero ← finsh_node_new_long 0; make_sys_node FINSH_NODE_SYS_SUB zero t
     | finsh_token_type_dec => t ← cast; make_sys_node FINSH_NODE_SYS_PREDEC t Null
     | finsh_token_type_bitwise => t ← cast; make_sys_node FINSH_NODE_SYS_BITWISE t Null
     | finsh_token_type_mul => t ← cast; make_sys_node FINSH_NODE_SYS_GETVALUE t Null
     | finsh_token_type_and => t ← cast; make_sys_node FINSH_NODE_SYS_GETADDR t Null
     | _ => finsh_token_replay;; proc_postfix_expr syms n assign
     end = (t ← cast; make_sys_node k t Null)) →
  finsh_token_token s = Some (tk, t1) →
  proc_unary_expr syms n cast assign s = (t ← cast; make_sys_node k t Null) t1.
Proof. intros H E. unfold proc_unary_expr. pstep E. by rewrite H. Qed.

(** Every expression that needs no parentheses is parsed to its tree. *)
Lemma parsed_all e : parsed e.
Proof.
  induction e using expr_ind'; try (apply parsed_operand; [done|]; intros _ [|[|n]] Hn; [cbn in Hn; lia..|by apply parses_atom]).
  - by apply parsed_bin.
  - apply (parsed_prefix e (ENot e) finsh_token_type_bitwise FINSH_NODE_SYS_BITWISE); try done; [intros; by eapply (unary_token finsh_token_type_bitwise)|].
    cbn. intros [? ?%bool_decide_eq_true]%andb_true_iff. done.
  - apply parsed_operand; [done|]. cbn [plain]. intros [Hp Hl%bool_decide_eq_true]%andb_true_iff [|n] Hn; [cbn in Hn; lia|].
    apply parses_neg. destruct (IHe Hp n) as (H0&_&_). apply H0; [cbn in Hn; lia|done].
  - by apply parsed_assign.
  - apply (parsed_prefix (EVar i) (EPre op i) (step_token op) (pre_kind op)).
    all: try done.
    + by destruct op.
    + intros. eapply (unary_token (step_token op) (pre_kind op)); [|done]. by destruct op.
    + apply parsed_operand; [done|]. intros _ [|[|n]] Hn; [cbn in Hn; lia..|by apply parses_atom].
  - apply parsed_operand; [done|]. cbn [plain]. intros Hop%bool_decide_eq_true [|[|[|n]]] Hn; [cbn in Hn; lia..|].
    by apply parses_post.
  - apply (parsed_prefix e (EDeref e) finsh_token_type_mul FINSH_NODE_SYS_GETVALUE); try done; [intros; by eapply (unary_token finsh_token_type_mul)|].
    cbn. intros [? ?%bool_decide_eq_true]%andb_true_iff. done.
  - apply (parsed_prefix e (EAddr e) finsh_token_type_and FINSH_NODE_SYS_GETADDR); try done; [intros; by eapply (unary_token finsh_token_type_and)|].
    cbn. intros [? ?%bool_decide_eq_true]%andb_true_iff. done.
  - by apply parsed_call.
  - apply parsed_operand; [done|]. cbn [plain].
    intros [[Hp Hl%bool_decide_eq_true]%andb_true_iff Ht%bool_decide_eq_true]%andb_true_iff [|n] Hn; [cbn in Hn; lia|].
    apply parses_cast; [done|]. destruct (IHe Hp n) as (H0&_&_). apply H0; [|done].
    cbn [lexemes length] in Hn. rewrite length_app in Hn. cbn in Hn. lia.
Qed.

(** ** Lines *)

Definition line_lexemes (es : list expr) : list lexeme :=
  concat ((λ e, lexemes nm e ++ [LSym finsh_token_type_semicolon]) <$> es).

Definition line_ok (vars : list finsh_var) (es : list expr) : bool :=
  forallb (λ e, plain e && all_named nm syms vars e) es.

Lemma parses_statement n e s ts : plain e = true → all_named nm syms (global_variable s) e = true →
  (length (lexemes nm e) + 3 <= n)%nat → pnodes s + nodes e <= FINSH_NODE_MAX →
  reads (tok s) (lexemes nm e ++ LSym finsh_token_type_semicolon :: ts) →
  ∃ t', proc_expr_statement syms n s = Some (tree_of e Null, upd t' (nodes e) s) ∧ reads t' ts.
Proof.
  intros Hp Ha Hn Hroom Hr. destruct (first_lexeme e _ Hp Ha) as (y&l&Ey&Hy). rewrite Ey in Hr. cbn [app] in Hr.
  unfold proc_expr_statement. destruct (next_tok s _ _ Hr) as (t1&E1&L1). pstep E1.
  rewrite bool_decide_true by (intros E; by rewrite E in Hy).
  destruct (replay_tok (upd t1 0 s) _ _ L1) as (t2&E2&R2). pstep E2.
  set (s2 := upd t2 0 (upd t1 0 s)) in *. destruct (parsed_all e Hp n) as (_&_&H).
  destruct (H Hn s2 (LSym finsh_token_type_semicolon) ts) as (t3&E3&R3); [|cbn; lia|].
  { unfold ready. split_and!; [by rewrite Ey|cbn; lia|done]. }
  unfold proc_expr. pstep E3.
  destruct (match_ok (upd t3 (nodes e) s2) _ _ R3) as (t4&E4&R4). cbn [lex_type] in E4. pstep E4.
  exists t4. split; [|done]. unfold s2. rewrite !upd_upd. unfold mret, P_ret. do 3 f_equal. lia.
Qed.

(** The token of a statement leads to it. *)
Lemma statement_token {A} (t : token_type) (a b : A) : opens t = true →
  (if bool_decide (t = finsh_token_type_eof ∨ t = finsh_token_type_bad) then a else b) = b ∧
  is_base_type t || bool_decide (t = finsh_token_type_unsigned) = false.
Proof. by destruct t. Qed.

(** The state before a statement, whose first token has been read. *)
Definition before (es : list expr) (token : token_type) (s : pstate) : Prop :=
  match es with
  | [] => token = finsh_token_type_eof
  | _ => ∃ y ts, line_lexemes es = y :: ts ∧ token = lex_type y ∧ loaded (tok s) y ts
  end.

Lemma before_next es s : line_ok (global_variable s) es = true → reads (tok s) (line_lexemes es) →
  ∃ t' token, finsh_token_token s = Some (token, upd t' 0 s) ∧ before es token (upd t' 0 s).
Proof.
  intros Hok Hr. destruct es as [|e es].
  - destruct (next_token_end s Hr) as (t'&E). exists t', finsh_token_type_eof. split; [|done].
    rewrite E. unfold upd. by rewrite Z.add_0_r.
  - cbn [line_ok forallb] in Hok. apply andb_true_iff in Hok as [[Hp Ha]%andb_true_iff _].
    destruct (first_lexeme e _ Hp Ha) as (y&l&Ey&Hy). unfold before.
    assert (line_lexemes (e :: es) = y :: (l ++ [LSym finsh_token_type_semicolon]) ++ line_lexemes es) as El
      by (unfold line_lexemes; cbn; by rewrite Ey, <- !app_assoc).
    rewrite El in *. destruct (next_tok s _ _ Hr) as (t1&E1&L1). exists t1, (lex_type y). split; [done|]. eauto.
Qed.

Lemma parses_line es : ∀ n k roots node token s,
  before es token s → line_ok (global_variable s) es = true → (length es < k)%nat →
  (∀ e, e ∈ es → length (lexemes nm e) + 3 <= n)%nat → pnodes s + args_nodes es <= FINSH_NODE_MAX →
  (roots = [] ∧ es ≠ [] ∨ length roots = S node) →
  ∃ t', parser_loop syms n k roots node token s =
    Some (roots ++ ((λ e, tree_of e Null) <$> es), upd t' (args_nodes es) s).
Proof.
  induction es as [|e es IH]; intros n k roots node token s Hb Hok Hk Hn Hroom Hroots; (destruct k as [|k]; [cbn in Hk; lia|]).
  { cbn in Hb. subst token. exists (tok s). cbn. rewrite app_nil_r. unfold mret, P_ret. do 3 f_equal.
    unfold upd, args_nodes. destruct s. cbn. by rewrite Z.add_0_r. }
  destruct Hb as (y&ts&Ey&->&Hl). cbn [line_ok forallb] in Hok. apply andb_true_iff in Hok as [[Hp Ha]%andb_true_iff Hok].
  destruct (first_lexeme e _ Hp Ha) as (y'&l&Ey'&Hy). pose proof (args_nodes_nonneg es) as Hpos.
  unfold args_nodes in *. cbn [foldr] in Hroom.
  assert (y' :: l ++ LSym finsh_token_type_semicolon :: line_lexemes es = y :: ts) as Els
    by (rewrite <- Ey; unfold line_lexemes; cbn; by rewrite Ey', <- !app_assoc).
  injection Els as -> <-. destruct (replay_tok s _ _ Hl) as (t1&E1&R1).
  destruct (parses_statement n e (upd t1 0 s) (line_lexemes es)) as (t2&E2&R2);
    [done|done|apply Hn; left|cbn; lia|by rewrite Ey'|].
  set (s2 := upd t2 (nodes e) (upd t1 0 s)) in *.
  destruct (before_next es s2 Hok R2) as (t3&token&E3&Hb3).
  destruct (statement_token (lex_type y) (mret roots : P (list tree)) (finsh_token_replay ≫= λ _, pfail) Hy) as [_ Hty].
  cbn [parser_loop]. rewrite (proj1 (statement_token _ _ _ Hy)), Hty. pstep E1. cbn [orb].
  rewrite (P_bind_some _ _ _ [tree_of e Null] s2).
  2: { pstep E2. unfold trees. pose proof (tree_not_null e Null). by destruct (tree_of e Null). }
  destruct (IH n k (roots ++ [tree_of e Null]) (length roots) token (upd t3 0 s2)) as (t4&E4);
    [done|done|cbn in Hk; lia|intros; apply Hn; by right|cbn; unfold args_nodes; lia| |].
  { right. rewrite length_app. cbn. lia. }
  exists t4. rewrite <- app_assoc in E4. cbn [app] in E4. unfold s2 in E4. rewrite !upd_upd in E4. unfold args_nodes in E4.
  destruct roots as [|r roots].
  - rewrite bool_decide_true by done. rewrite bool_decide_false by done. pstep E3.
    unfold s2. rewrite !upd_upd. cbn [app length] in E4. rewrite E4. cbn [foldr fmap list_fmap app]. do 3 f_equal; lia.
  - destruct Hroots as [[? _]|Hroots]; [done|]. rewrite !bool_decide_false by done. cbn [andb].
    rewrite (P_bind_some _ _ _ tt s2) by done. pstep E3. rewrite take_ge by lia.
    unfold s2. rewrite !upd_upd, <- Hroots, E4. cbn [foldr fmap list_fmap app]. do 3 f_equal; lia.
Qed.

Lemma render_length items tail : lexes items tail = true → (length items <= length (render items tail))%nat.
Proof.
  induction items as [|[ws x] items IH]; cbn [lexes render foldr]; [cbn; lia|].
  intros [[[_ Hok]%andb_true_iff _]%andb_true_iff Hl]%andb_true_iff. specialize (IH Hl).
  assert (1 <= length (text x))%nat.
  { destruct x as [t|z|z|c|name]; cbn [text].
    - apply bool_decide_eq_true in Hok. destruct (sym_text t); [done|cbn; lia].
    - apply bool_decide_eq_true in Hok. destruct (decimal_head z) as (?&?&->&_); [lia|cbn; lia].
    - rewrite length_app. cbn. lia.
    - cbn. lia.
    - unfold lex_ok, name_ok in Hok. destruct name; [by rewrite andb_false_r in Hok|cbn; lia]. }
  unfold render in IH. rewrite !length_app. cbn [length]. lia.
Qed.

Lemma line_lexemes_length es e : e ∈ es → (length (lexemes nm e) < length (line_lexemes es))%nat.
Proof.
  induction es as [|e' es IH]; [by intros ?%elem_of_nil|]. unfold line_lexemes in *. cbn [fmap list_fmap concat].
  rewrite !length_app. cbn [length]. intros [->|H]%elem_of_cons; [lia|]. specialize (IH H). lia.
Qed.
Lemma line_lexemes_count es : (length es <= length (line_lexemes es))%nat.
Proof.
  induction es as [|e' es IH]; [done|]. unfold line_lexemes in *. cbn [fmap list_fmap concat].
  rewrite !length_app. cbn [length]. lia.
Qed.

(** A whole line. *)
Lemma parser_run_line e es items tail s : lexes items tail = true → items.*2 = line_lexemes (e :: es) →
  line_ok (global_variable s) (e :: es) = true → pnodes s + args_nodes (e :: es) <= FINSH_NODE_MAX →
  ∃ t', finsh_parser_run syms (render items tail) s =
    Some (foldr tree_of Null (e :: es), upd t' (args_nodes (e :: es)) s).
Proof.
  intros Hl Hi Hok Hroom. unfold finsh_parser_run. set (L := render items tail).
  rewrite (P_bind_some _ _ _ tt (set_tok (finsh_token_init L) s)) by done.
  pose proof (init_reads items tail Hl) as Hr. rewrite Hi in Hr.
  destruct (before_next (e :: es) (set_tok (finsh_token_init L) s) Hok Hr) as (t1&token&E1&Hb). pstep E1.
  pose proof (render_length items tail Hl) as Hlen. fold L in Hlen.
  assert (length items = length (line_lexemes (e :: es))) as Hlen' by (by rewrite <- Hi, length_fmap).
  destruct (parses_line (e :: es) (4 * length L + 8) (4 * length L + 8) [] 0 token (upd t1 0 (set_tok (finsh_token_init L) s)))
    as (t2&E2); [done|done| | |cbn [upd pnodes set_tok]; lia|by left|].
  - pose proof (line_lexemes_count (e :: es)). lia.
  - intros a Ha. pose proof (line_lexemes_length (e :: es) a Ha). lia.
  - pstep E2. exists t2. rewrite app_nil_l, chain_trees. unfold upd, mret, P_ret. cbn. by rewrite Z.add_0_r.
Qed.
End parse.
