(* ===== verification/FinshCorrect.v ===== *)
(** * A line of the shell

    The statements of a line, parsed, compiled and run: what the machine leaves is
    what the expressions mean. *)

From Stdlib Require String.
From S2P Require Import Prelude KString HeapWp FinshNode FinshVm FinshCompiler FinshSem FinshCodegen FinshExec.
From S2P Require Import FinshToken FinshHeap FinshParser FinshLine FinshLex FinshPrint FinshParseProof.
Import String.StringSyntax.
#[local] Open Scope string_scope.
#[local] Open Scope Z_scope.

(** ** Lines *)

(** A line is a statement and those after it. *)
Definition line_tree (e : expr) (es : list expr) : tree := foldr tree_of Null (e :: es).

Fixpoint line_code (e : expr) (es : list expr) : list Z :=
  match es with
  | [] => code e
  | e' :: es => code e ++ [FINSH_OP_POP] ++ line_code e' es
  end.

Fixpoint line_last (e : expr) (es : list expr) : expr :=
  match es with [] => e | e' :: es => line_last e' es end.

Definition line_wt (es : list expr) : bool := forallb (λ e, wt e && bool_decide (depth e <= FINSH_STACK_MAX)) es.

Section line.
Context (call : Z → list Z → mem → option (Z * mem)).

(** The value of the last statement. *)
Fixpoint eval_line (e : expr) (es : list expr) (m : mem) : option (Z * mem) :=
  match es with
  | [] => eval call e m
  | e' :: es => '(_, m) ← eval call e m; eval_line e' es m
  end.

(** ** Compiling a line *)

Lemma check_line es s : Forall (λ e, wt e = true) es →
  finsh_type_check (foldr tree_of Null es) 0 s = Some (foldr (λ e t, checked e 0 t) Null es, s).
Proof. intros H. apply checks_args. eapply Forall_impl; [exact H|]. intros e. apply checks_wt. Qed.

(** The sibling does not matter to the rest of a checked tree. *)
Lemma checked_sibling e a : ∃ n c, ∀ sib, checked e a sib = Tree n c sib.
Proof. induction e using expr_ind'; cbn [checked]; eauto. Qed.

Lemma emits_statements es : ∀ e, Forall (λ e, wt e = true) (e :: es) →
  emits (compile_statements (foldr (λ e t, checked e 0 t) Null (e :: es))) (line_code e es).
Proof.
  induction es as [|e' es IH]; intros e Hwt; inversion_clear Hwt as [|? ? He Hes]; cbn [foldr].
  - destruct (compiles_wt e Null [] emits_nil) as [Hc _]. specialize (Hc He). rewrite app_nil_r in Hc. revert Hc.
    destruct (checked_sibling e 0) as (n&c&E). rewrite E. intros Hc. cbn [compile_statements line_code].
    rewrite <- (app_nil_r (code e)). apply emits_seq; [done|]. apply (emits_seq _ _ [] []); apply emits_nil.
  - specialize (IH e' Hes). cbn [foldr] in IH. revert IH.
    destruct (compiles_wt e Null [] emits_nil) as [Hc _]. specialize (Hc He). rewrite app_nil_r in Hc. revert Hc.
    destruct (checked_sibling e' 0) as (n'&c'&->), (checked_sibling e 0) as (n&c&E). rewrite !E. intros Hc IH.
    cbn [line_code]. change (emits (finsh_compile (Tree n c Null);; finsh_code_byte FINSH_OP_POP;;
      compile_statements (Tree n' c' (foldr (λ e t, checked e 0 t) Null es)))
      (code e ++ FINSH_OP_POP :: line_code e' es)).
    apply emits_seq; [done|]. by apply emits_op.
Qed.

Lemma line_wt_all es : line_wt es = true → Forall (λ e, wt e = true) es.
Proof. intros H%forallb_Forall. eapply Forall_impl; [exact H|]. by intros e [? _]%andb_true_iff. Qed.

Definition cleared (stack : list Z) : list Z := match stack with [] => [] | _ :: l => 0 :: l end.

(** The text is the code of the line and zeros, when it fits; otherwise the
    compiler writes beyond the end of the text segment. *)
Lemma compiles_line e es stack s : line_wt (e :: es) = true → stack ≠ [] →
  finsh_compiler_run (line_tree e es) stack s =
  if bool_decide (zlen (line_code e es) <= FINSH_TEXT_MAX)
  then Some (cleared stack, CState (line_code e es ++
         replicate (Z.to_nat (FINSH_TEXT_MAX - zlen (line_code e es))) 0) (zlen (line_code e es)) (global_errno s))
  else None.
Proof.
  intros Hwt Hs. unfold finsh_compiler_run, line_tree, mbind, C_bind.
  rewrite check_line by (by apply line_wt_all).
  replace (arr_set 0 0 stack) with (Some (cleared stack)) by (by destruct stack).
  pose proof (emits_statements es e (line_wt_all _ Hwt) [] (replicate (Z.to_nat FINSH_TEXT_MAX) 0) (global_errno s)) as H.
  change (zlen (@nil Z)) with 0 in H. cbn [app] in H. unfold mbind, C_bind. rewrite H.
  change (zlen (replicate (Z.to_nat FINSH_TEXT_MAX) 0)) with FINSH_TEXT_MAX.
  destruct (bool_decide _); [|done]. rewrite drop_replicate. unfold mret, C_ret.
  do 4 f_equal. f_equal. unfold zlen. lia.
Qed.

(** ** Running a line *)

Lemma runs_line es : ∀ e m v m' rest, line_wt (e :: es) = true → eval_line e es m = Some (v, m') →
  zlen rest = FINSH_STACK_MAX →
  ∃ x rest', get_value (precision (line_last e es)) x = v ∧ zlen rest' = FINSH_STACK_MAX - 1 ∧
    runs call (line_code e es) m [] rest m' [x] rest'.
Proof.
  induction es as [|e' es IH]; intros e m v m' rest Hwt Hev Hr; cbn [line_code line_last].
  - cbn in Hwt. wt_split. match goal with H : bool_decide _ = true |- _ => apply bool_decide_eq_true in H end.
    destruct (proj1 (computes_wt call e) m v m' [] rest) as (x&rest'&Hx&Hl&R); [done|done|lia|].
    exists x, rest'. split_and!; [done|lia|done].
  - cbn [line_wt forallb] in Hwt. apply andb_true_iff in Hwt as [[He Hd%bool_decide_eq_true]%andb_true_iff Hwt].
    cbn [eval_line] in Hev. destruct (eval call e m) as [[u m1]|] eqn:E; [|done]. cbn in Hev.
    destruct (proj1 (computes_wt call e) m u m1 [] rest) as (x&rest1&Hx&Hl&R); [done|done|lia|].
    destruct (IH e' m1 v m' (x :: rest1) Hwt Hev) as (y&rest2&Hy&Hl2&R2); [rewrite zlen_cons; lia|].
    exists y, rest2. split_and!; [done|done|]. eapply runs_app; [exact R|]. eapply runs_app; [|exact R2].
    apply (run_pop call x m1 [] rest1).
Qed.

Lemma runs_zeros n m base rest : runs call (replicate n 0) m base rest m base rest.
Proof.
  induction n as [|n IH]; [apply runs_nil|]. cbn [replicate]. change (0 :: replicate n 0) with ([0] ++ replicate n 0).
  eapply runs_app; [|exact IH]. apply runs_op. intros pre post. by rewrite Z.add_0_r.
Qed.

(** A text that is run from its start to its end. *)
Lemma vm_run_text text m rest m' base' rest' sp pc : runs call text m [] rest m' base' rest' → zlen text = FINSH_TEXT_MAX →
  finsh_vm_run call (Vm m rest text sp pc) = Some (tt, conf m' base' rest' text FINSH_TEXT_MAX).
Proof.
  intros R Hl. destruct (R [] [] text) as (n&Hn&H); [by rewrite app_nil_r|done|].
  unfold finsh_vm_run, vset, mbind, V_bind, set_sp, set_pc. cbn [vmem finsh_vm_stack text_segment finsh_sp finsh_pc].
  replace (S (Z.to_nat FINSH_TEXT_MAX)) with (n + S (Z.to_nat FINSH_TEXT_MAX - n))%nat
    by (rewrite Hl in Hn; change FINSH_TEXT_MAX with 128 in *; lia).
  specialize (H (S (Z.to_nat FINSH_TEXT_MAX - n))). unfold conf at 1 in H. change (zlen (@nil Z)) with 0 in H.
  cbn [app] in H. rewrite H, Hl. done.
Qed.

Lemma stack_bottom m x rest text pc : finsh_stack_bottom (conf m [x] rest text pc) = Some (s32 x).
Proof. done. Qed.

(** The statements of a line, compiled and run. *)
Lemma line_runs e es m v m' stack s sp pc :
  line_wt (e :: es) = true → zlen (line_code e es) <= FINSH_TEXT_MAX → zlen stack = FINSH_STACK_MAX →
  eval_line e es m = Some (v, m') →
  ∃ stack' s' vm' x,
    finsh_compiler_run (line_tree e es) stack s = Some (stack', s') ∧ global_errno s' = global_errno s ∧
    finsh_vm_run call (Vm m stack' (ctext s') sp pc) = Some (tt, vm') ∧ vmem vm' = m' ∧
    zlen (finsh_vm_stack vm') = FINSH_STACK_MAX ∧
    finsh_stack_bottom vm' = Some x ∧ get_value (precision (line_last e es)) x = v.
Proof.
  intros Hwt Hfit Hst Hev. set (c := line_code e es).
  set (text := c ++ replicate (Z.to_nat (FINSH_TEXT_MAX - zlen c)) 0).
  destruct (runs_line es e m v m' (cleared stack) Hwt Hev) as (x&rest&Hx&Hl&R); [by destruct stack|].
  exists (cleared stack), (CState text (zlen c) (global_errno s)), (conf m' [x] rest text FINSH_TEXT_MAX), (s32 x).
  rewrite compiles_line, bool_decide_true by (done || by destruct stack). split_and!; try done.
  - apply vm_run_text; [by eapply runs_app, runs_zeros|]. unfold text. rewrite zlen_app. unfold zlen at 2.
    rewrite length_replicate. fold c in Hfit. lia.
  - cbn [finsh_vm_stack conf app]. rewrite zlen_cons. lia.
  - rewrite <- Hx. destruct (precision _); cbn [get_value]; mlia.
Qed.

(** C33: Nothing keeps the code of a line within the text segment: a line of
    expressions that the compiler treats correctly is compiled if its code has at
    most [FINSH_TEXT_MAX] bytes, and otherwise the compiler writes beyond the end
    of the segment. *)
Theorem shell_text_overflow e es stack s :
  line_wt (e :: es) = true → stack ≠ [] →
  is_Some (finsh_compiler_run (line_tree e es) stack s) ↔ zlen (line_code e es) <= FINSH_TEXT_MAX.
Proof.
  intros Hwt Hs. rewrite compiles_line by done. case_bool_decide as H; [by eauto|].
  split; [intros [? ?]; done|done].
Qed.

(** C32: The type check types the whole line.  For every line of expressions that the
    compiler treats correctly ([wt]), [finsh_type_check] reports no error and gives the
    tree [checked]: the same nodes with the same children and siblings, where every
    node has the width of its expression ([width_of]: that of the left operand, of the
    variable or of the constant, [void] for a call), and where exactly the targets of
    assignments, of prefix increments and decrements and of [&] are marked as
    addresses, and not what they or their siblings compute. *)
Theorem shell_type_check es s : forallb wt es = true →
  finsh_type_check (foldr tree_of Null es) FINSH_NODE_VALUE s = Some (foldr (λ e t, checked e FINSH_NODE_VALUE t) Null es, s) ∧
  Forall (λ e, ∀ a sib, ∃ n c, checked e a sib = Tree n c sib ∧ data_type n = width_code (width_of e)) es.
Proof.
  intros Hwt. split.
  - change FINSH_NODE_VALUE with 0. by apply check_line, forallb_Forall.
  - apply Forall_true. intros e a sib. apply checked_root.
Qed.

End line.

(** ** From the characters to the value *)

Section shell.
Context (call : Z → list Z → mem → option (Z * mem)) (syms : symbols) (nm : ident → list Z).

(** The shell between two lines: no error, no nodes in use, a whole stack. *)
Definition idle (s : fstate) : Prop :=
  perrno (fparse s) = FINSH_ERROR_OK ∧ pnodes (fparse s) = 0 ∧ zlen (fstack s) = FINSH_STACK_MAX.

(** The characters of a line of expressions, with any white space between them. *)
Definition typed_line (l : list Z) (es : list expr) : Prop :=
  ∃ items tail, l = render items tail ∧ lexes items tail = true ∧ items.*2 = line_lexemes nm es.

(** C24: What is typed is what is parsed: the characters of a line of expressions,
    with any white space, are parsed without an error to the trees of these
    expressions, with the precedence and associativity of C, as long as the table
    of nodes holds them and the names stand for the variables and functions meant. *)
Theorem shell_parse_print l e es s :
  typed_line l (e :: es) → line_ok nm syms (global_variable s) (e :: es) = true →
  pnodes s + args_nodes (e :: es) <= FINSH_NODE_MAX →
  ∃ s', finsh_parser_run syms l s = Some (line_tree e es, s') ∧ perrno s' = perrno s ∧
    global_variable s' = global_variable s ∧ pmem s' = pmem s.
Proof.
  intros (items&tail&->&Hl&Hi) Hok Hroom.
  destruct (parser_run_line nm syms e es items tail s Hl Hi Hok Hroom) as (t&E). by exists (upd t (args_nodes (e :: es)) s).
Qed.

(** C22: A line typed into the shell is evaluated.  The characters of a line of
    expressions are parsed, compiled and run; when the expressions are ones that
    the compiler treats correctly, their nodes and their code fit, and their meaning
    is defined, the shell prints a value that is that of the last expression as far
    as its width goes, leaves the memory that the expressions mean, and is ready for
    the next line with the same variables. *)
Theorem shell_evaluates l e es s v m' :
  idle s → typed_line l (e :: es) → line_ok nm syms (global_variable (fparse s)) (e :: es) = true →
  args_nodes (e :: es) <= FINSH_NODE_MAX → line_wt (e :: es) = true →
  zlen (line_code e es) <= FINSH_TEXT_MAX → eval_line call e es (pmem (fparse s)) = Some (v, m') →
  ∃ x s', finsh_run_line call syms l s = Some ([shown x], s') ∧
    get_value (precision (line_last e es)) x = v ∧ pmem (fparse s') = m' ∧
    global_variable (fparse s') = global_variable (fparse s) ∧ idle s'.
Proof.
  intros (He&Hn&Hst) (items&tail&->&Hl&Hi) Hok Hroom Hwt Hfit Hev.
  destruct (parser_run_line nm syms e es items tail (fparse s) Hl Hi Hok) as (t&E1); [lia|].
  destruct (line_runs call e es (pmem (fparse s)) v m' (fstack s) (CState [] 0 FINSH_ERROR_OK) 0 0 Hwt Hfit Hst Hev)
    as (stack'&c&vm'&x&E2&E3&E4&<-&E5&E6&E7).
  eexists x, _. split.
  - unfold finsh_run_line. rewrite E1. cbn [mbind option_bind upd perrno]. rewrite He, bool_decide_true by done.
    change (foldr tree_of Null (e :: es)) with (line_tree e es). rewrite E2. cbn [mbind option_bind]. rewrite E3.
    rewrite bool_decide_true by done. cbn [upd pmem]. rewrite E4. cbn [mbind option_bind]. rewrite E6. done.
  - done.
Qed.

End shell.

(** ** Examples *)

Definition demo_a : ident := IdVar 0x20000100 finsh_type_int.
Definition demo_c : ident := IdVar 0x20000118 finsh_type_uchar.
(** A function that adds up its arguments and stores the sum in the variable [a]. *)
Definition demo_call (f : Z) (args : list Z) (m : mem) : option (Z * mem) :=
  let r := s32 (foldr Z.add 0 args) in
  if bool_decide (f = 0x08001000) then m ← store_value DWORD m 0x20000114 r; Some (r, m) else None.
Definition demo_mem : mem := list_to_map ((λ i, (0x20000100 + Z.of_nat i, 0)) <$> seq 0 64).

Definition demo_f : ident := IdSyscall 0x08002000 0x08001000.
Definition demo_syms : symbols :=
  Symbols 0x20001000 0x20000100 [] [] [Syscall 0x08002000 (chars "f") 0x08001000] [].
Definition demo_state : fstate :=
  FState (PState (finsh_token_init []) 0 0
    ([FVar (chars "a") finsh_type_int; FVar (chars "c") finsh_type_uchar] ++ replicate 6 (FVar [] finsh_type_unknown))
    demo_mem 0 0) (replicate 64 0xffffffff).
Definition demo_name (i : ident) : list Z :=
  if bool_decide (i = demo_a) then chars "a" else if bool_decide (i = demo_c) then chars "c" else chars "f".

(** An assignment, a decrement, and a call whose arguments have effects. *)
Definition demo_first : expr := EAssign (EVar demo_a) (EInt 5).
Definition demo_more : list expr :=
  [EPre Sub demo_c;
   EBin Add (EInt 1000) (ECall 0x08002000 0x08001000 [EPost Add demo_a; ENeg (EVar demo_a); ELong 100])].
Definition demo_items : list (list Z * lexeme) :=
  [([], LName (chars "a")); ([], LSym finsh_token_type_assign); ([], LInt 5); ([], LSym finsh_token_type_semicolon);
   ([32], LSym finsh_token_type_dec); ([], LName (chars "c")); ([], LSym finsh_token_type_semicolon);
   ([], LInt 1000); ([32], LSym finsh_token_type_add); ([32], LName (chars "f")); ([], LSym finsh_token_type_left_paren);
   ([], LName (chars "a")); ([], LSym finsh_token_type_inc); ([], LSym finsh_token_type_comma);
   ([], LSym finsh_token_type_sub); ([], LName (chars "a")); ([], LSym finsh_token_type_comma);
   ([], LLong 100); ([], LSym finsh_token_type_right_paren); ([], LSym finsh_token_type_semicolon)].
Definition demo_result : Z * mem :=
  default (0, demo_mem) (eval_line demo_call demo_first demo_more demo_mem).

Lemma shell_parse_print_witness :
  ∃ s', finsh_parser_run demo_syms (chars "a=5; --c;1000 + f(a++,-a,100l);") (fparse demo_state) =
      Some (line_tree demo_first demo_more, s') ∧
    perrno s' = perrno (fparse demo_state) ∧
    global_variable s' = global_variable (fparse demo_state) ∧ pmem s' = pmem (fparse demo_state).
Proof.
  apply (shell_parse_print demo_syms demo_name).
  - exists demo_items, []. split_and!; vm_compute; reflexivity.
  - vm_compute. reflexivity.
  - vm_compute. discriminate.
Defined.

Lemma shell_evaluates_witness :
  ∃ x s', finsh_run_line demo_call demo_syms (chars "a=5; --c;1000 + f(a++,-a,100l);") demo_state = Some ([shown x], s') ∧
    get_value DWORD x = 1099 ∧ pmem (fparse s') = demo_result.2 ∧
    global_variable (fparse s') = global_variable (fparse demo_state) ∧ idle s'.
Proof.
  apply (shell_evaluates demo_call demo_syms demo_name _ demo_first demo_more demo_state 1099 demo_result.2).
  - split_and!; vm_compute; reflexivity.
  - exists demo_items, []. split_and!; vm_compute; reflexivity.
  - vm_compute. reflexivity.
  - vm_compute. discriminate.
  - vm_compute. reflexivity.
  - vm_compute. discriminate.
  - vm_compute. reflexivity.
Defined.

(** Five increments of an [int] fill 119 bytes of the text; six do not fit. *)
Lemma shell_text_overflow_witness :
  (is_Some (finsh_compiler_run (line_tree (EPost Add demo_a) (replicate 4 (EPost Add demo_a))) [0] (CState [] 0 0))
   ↔ 119 <= FINSH_TEXT_MAX) ∧
  (is_Some (finsh_compiler_run (line_tree (EPost Add demo_a) (replicate 5 (EPost Add demo_a))) [0] (CState [] 0 0))
   ↔ 143 <= FINSH_TEXT_MAX).
Proof.
  split.
  - apply (shell_text_overflow (EPost Add demo_a) (replicate 4 (EPost Add demo_a))); [vm_compute; reflexivity|discriminate].
  - apply (shell_text_overflow (EPost Add demo_a) (replicate 5 (EPost Add demo_a))); [vm_compute; reflexivity|discriminate].
Defined.

(** In [c = c + 5] only the [c] that is assigned to is marked as an address. *)
Lemma shell_type_check_witness :
  finsh_type_check (tree_of (EAssign (EVar demo_c) (EBin Add (EVar demo_c) (EInt 5))) Null) FINSH_NODE_VALUE (CState [] 0 0) =
    Some (Tree (FNode FINSH_NODE_SYS_ASSIGN FINSH_DATA_TYPE_BYTE 0 0 IdNull)
      (Tree (FNode FINSH_NODE_ID FINSH_DATA_TYPE_BYTE (Z.lor FINSH_IDTYPE_VAR FINSH_IDTYPE_ADDRESS) 0 demo_c) Null
        (Tree (FNode FINSH_NODE_SYS_ADD FINSH_DATA_TYPE_BYTE 0 0 IdNull)
          (Tree (FNode FINSH_NODE_ID FINSH_DATA_TYPE_BYTE FINSH_IDTYPE_VAR 0 demo_c) Null
            (Tree (FNode FINSH_NODE_VALUE_INT FINSH_DATA_TYPE_DWORD 0 5 IdNull) Null Null)) Null)) Null, CState [] 0 0).
Proof.
  destruct (shell_type_check [EAssign (EVar demo_c) (EBin Add (EVar demo_c) (EInt 5))] (CState [] 0 0)) as [E _]; [vm_compute; reflexivity|].
  exact E.
Defined.
