(* ===== verification/FinshEdit.v ===== *)
(** * Editing a line

    The line editor of the shell against an editor of a list of characters with a
    cursor and a list of former lines. *)

From S2P Require Import Prelude KString FinshNode FinshVm FinshToken FinshHeap FinshParser FinshLine FinshShell.

(** ** Specification *)

(** A line holds up to 78 characters: the semicolon and the terminator follow. *)
Definition LINE_MAX : Z := FINSH_CMD_SIZE - 2.

(** The text before and after the cursor, the former lines and which of them is
    looked at. *)
Record session : Type := Session {
  before_cursor : list Z;
  after_cursor : list Z;
  former : list (list Z);
  looked_at : nat;
}.
Definition contents (a : session) : list Z := before_cursor a ++ after_cursor a.

Inductive key : Type := KUp | KDown | KLeft | KRight | KTab | KBack | KChar (c : Z).

Definition key_bytes (k : key) : list Z :=
  match k with
  | KUp => [0x1b; 0x5b; 0x41]
  | KDown => [0x1b; 0x5b; 0x42]
  | KRight => [0x1b; 0x5b; 0x43]
  | KLeft => [0x1b; 0x5b; 0x44]
  | KTab => [9]
  | KBack => [8]
  | KChar c => [c]
  end.

(** The characters that stand for themselves. *)
Definition ordinary (c : Z) : bool :=
  bool_decide (0 < c < 256 ∧ c ≠ 8 ∧ c ≠ 9 ∧ c ≠ 10 ∧ c ≠ 13 ∧ c ≠ 27 ∧ c ≠ 127).

Definition look_at (i : nat) (a : session) : option session :=
  l ← former a !! i; Some (Session l [] (former a) i).

(** The names all of whose completions agree. *)
Definition complete (syms : symbols) (l : list Z) : list Z :=
  let new := list_prefix syms l in new ++ drop (length new) l.

(** What a key does; [None]: the line would become too long. *)
Definition press (syms : symbols) (k : key) (a : session) : option session :=
  match k with
  | KUp => match looked_at a with O => Some a | S i => look_at i a end
  | KDown =>
      if bool_decide (S (looked_at a) < length (former a))%nat then look_at (S (looked_at a)) a
      else match length (former a) with O => Some a | S i => look_at i a end
  | KLeft =>
      match last (before_cursor a) with
      | Some c => Some (Session (removelast (before_cursor a)) (c :: after_cursor a) (former a) (looked_at a))
      | None => Some a
      end
  | KRight =>
      match after_cursor a with
      | c :: l => Some (Session (before_cursor a ++ [c]) l (former a) (looked_at a))
      | [] => Some a
      end
  | KTab =>
      let l := complete syms (contents a) in
      if bool_decide (zlen l <= LINE_MAX) then Some (Session l [] (former a) (looked_at a)) else None
  | KBack => Some (Session (removelast (before_cursor a)) (after_cursor a) (former a) (looked_at a))
  | KChar c =>
      if ordinary c && bool_decide (zlen (contents a) < LINE_MAX) then
        Some (Session (before_cursor a ++ [c]) (after_cursor a) (former a) (looked_at a))
      else None
  end.

Fixpoint press_all (syms : symbols) (ks : list key) (a : session) : option session :=
  match ks with [] => Some a | k :: ks => a ← press syms k a; press_all syms ks a end.

(** The line is put behind the former ones, of which the last five are kept. *)
Definition entered (a : session) : session :=
  let h := if bool_decide (contents a = []) then former a
           else drop (S (length (former a)) - Z.to_nat FINSH_HISTORY_LINES) (former a ++ [contents a]) in
  Session [] [] h (length h).

(** ** Representation *)

Definition pad (l : list Z) : list Z := l ++ replicate (Z.to_nat FINSH_CMD_SIZE - length l) 0.

(** A text a line can hold. *)
Definition fits (l : list Z) : Prop := zlen l <= LINE_MAX ∧ Forall (λ c, 0 < c < 256) l.

Definition shows (e : editor) (a : session) : Prop :=
  stat e = WAIT_NORMAL ∧
  eline e = pad (contents a) ∧ line_position e = zlen (contents a) ∧
  line_curpos e = zlen (before_cursor a) ∧ fits (contents a) ∧
  Forall fits (former a) ∧ zlen (former a) <= FINSH_HISTORY_LINES ∧
  history_count e = zlen (former a) ∧ current_history e = Z.of_nat (looked_at a) ∧
  (looked_at a <= length (former a))%nat ∧
  zlen (cmd_history e) = FINSH_HISTORY_LINES ∧
  ∀ i l, former a !! i = Some l → cmd_history e !! i = Some (pad l).

(** ** Strings *)

Lemma pad_length l : zlen l <= FINSH_CMD_SIZE → zlen (pad l) = FINSH_CMD_SIZE.
Proof. unfold pad, zlen, FINSH_CMD_SIZE. rewrite length_app, length_replicate. lia. Qed.

Lemma cstring_nonzero l r : Forall (λ c, 0 < c < 256) l → cstring (l ++ 0 :: r) = Some l.
Proof.
  induction 1 as [|c l Hc _ IH]; [done|]. cbn [app cstring]. rewrite bool_decide_false by lia. by rewrite IH.
Qed.

Lemma pad_split l : zlen l < FINSH_CMD_SIZE →
  pad l = l ++ 0 :: replicate (Z.to_nat FINSH_CMD_SIZE - S (length l)) 0.
Proof.
  intros Hl. unfold pad. f_equal. unfold zlen, FINSH_CMD_SIZE in *.
  replace (Z.to_nat 80 - length l)%nat with (S (Z.to_nat 80 - S (length l))) by lia. done.
Qed.

Lemma fits_size l : fits l → zlen l < FINSH_CMD_SIZE - 1.
Proof. intros [Hl _]. unfold LINE_MAX in Hl. lia. Qed.

Lemma line_string_pad l e : fits l → eline e = pad l → line_string e = Some l.
Proof.
  intros Hl He. unfold line_string. rewrite He, pad_split by (apply fits_size in Hl; lia).
  rewrite <- app_assoc. cbn [app]. by apply cstring_nonzero, Hl.
Qed.

Lemma u8_pos l : fits l → u8 (zlen l) = zlen l.
Proof. intros Hl%fits_size. pose proof (zlen_nonneg l). apply u8_small. unfold in_u8, FINSH_CMD_SIZE in *. lia. Qed.

(** ** Arrays *)

Lemma arr_set_app {A} (a : list A) x y r : arr_set (zlen a) y (a ++ x :: r) = Some (a ++ y :: r).
Proof.
  unfold arr_set. rewrite zlen_app, zlen_cons. pose proof (zlen_nonneg a). pose proof (zlen_nonneg r).
  rewrite bool_decide_true by lia. f_equal. rewrite insert_app_r_alt by (unfold zlen; lia).
  by replace (Z.to_nat _ - _)%nat with O by (unfold zlen; lia).
Qed.

Lemma arr_read_mid (a b c : list Z) : arr_read (zlen a) (zlen b) (a ++ b ++ c) = Some b.
Proof.
  pose proof (zlen_nonneg a). pose proof (zlen_nonneg b). pose proof (zlen_nonneg c).
  rewrite arr_read_ok by (rewrite ?zlen_app; lia). f_equal. unfold seg, zlen.
  rewrite Nat2Z.id, drop_app_length. replace (Z.to_nat _) with (length b) by lia. by rewrite take_app_length.
Qed.

Lemma arr_write_mid (a b b' c : list Z) : length b = length b' → arr_write (zlen a) b' (a ++ b ++ c) = Some (a ++ b' ++ c).
Proof.
  intros Hl. unfold arr_write. rewrite !zlen_app. pose proof (zlen_nonneg a). pose proof (zlen_nonneg c).
  assert (zlen b = zlen b') as Hz by (unfold zlen; by rewrite Hl).
  rewrite bool_decide_true by lia. f_equal. unfold zlen. rewrite Nat2Z.id, take_app_length. do 2 f_equal.
  replace (Z.to_nat _) with (length a + length b)%nat by lia.
  by rewrite <- drop_drop, drop_app_length, drop_app_length.
Qed.

(** Moving a piece up and down by one place. *)
Lemma move_up (a b : list Z) x r :
  ∃ y, memcpy (a ++ b ++ x :: r) (zlen a + 1) (a ++ b ++ x :: r) (zlen a) (zlen b) = Some (a ++ y :: b ++ r).
Proof.
  unfold memcpy. rewrite arr_read_mid. cbn [mbind option_bind]. 
  assert (∃ y b', b ++ [x] = y :: b' ∧ length b' = length b) as (y&b'&E&Hl).
  { destruct b as [|y b]; [by exists x, []|]. exists y, (b ++ [x]). split; [done|]. rewrite length_app. cbn. lia. }
  exists y. replace (a ++ b ++ x :: r) with ((a ++ [y]) ++ b' ++ r).
  2: { rewrite <- app_assoc. f_equal. cbn [app]. change (y :: b' ++ r) with ((y :: b') ++ r). by rewrite <- E, <- app_assoc. }
  replace (zlen a + 1) with (zlen (a ++ [y])) by (rewrite zlen_app; done).
  rewrite arr_write_mid by done. by rewrite <- app_assoc.
Qed.

Lemma move_down (a b : list Z) x r :
  ∃ y, memcpy (a ++ x :: b ++ r) (zlen a) (a ++ x :: b ++ r) (zlen a + 1) (zlen b) = Some (a ++ b ++ y :: r).
Proof.
  assert (∃ y b', x :: b = b' ++ [y] ∧ length b' = length b) as (y&b'&E&Hl).
  { destruct (exists_last (l := x :: b)) as (b'&y&E); [done|]. exists y, b'. split; [done|].
    apply (f_equal length) in E. rewrite length_app in E. cbn in E. lia. }
  exists y. unfold memcpy.
  replace (a ++ x :: b ++ r) with ((a ++ [x]) ++ b ++ r) at 1 by (by rewrite <- app_assoc).
  replace (zlen a + 1) with (zlen (a ++ [x])) by (rewrite zlen_app; done). rewrite arr_read_mid. cbn [mbind option_bind].
  replace (a ++ x :: b ++ r) with (a ++ b' ++ y :: r).
  2: { f_equal. change (x :: b ++ r) with ((x :: b) ++ r). by rewrite E, <- app_assoc. }
  by apply arr_write_mid.
Qed.

(** ** Keys *)

Lemma pad_eq l k r : length l = k → zlen l <= FINSH_CMD_SIZE → r = replicate (Z.to_nat FINSH_CMD_SIZE - k) 0 → pad l = l ++ r.
Proof. intros <- _ ->. done. Qed.

Lemma fits_length l l' : fits l → zlen l' <= LINE_MAX → Forall (λ c, 0 < c < 256) l' → fits l'.
Proof. by intros _ ? ?. Qed.

Lemma shows_line e a b c : shows e a → fits (b ++ c) →
  shows (set_positions (zlen (b ++ c)) (zlen b) (set_eline (pad (b ++ c)) e))
    (Session b c (former a) (looked_at a)).
Proof.
  intros (Hst&Hl&Hp&Hc&Hf&Hfs&Hh&Hcnt&Hcur&Hle&Hlen&Hlines) Hfit.
  assert (0 <= zlen b <= zlen (b ++ c)) as Hb
    by (rewrite zlen_app; pose proof (zlen_nonneg b); pose proof (zlen_nonneg c); lia).
  unfold shows, contents. cbn [stat eline line_position line_curpos before_cursor after_cursor former looked_at
    set_positions set_eline history_count current_history cmd_history].
  rewrite u8_pos by done. split_and!; try done. apply u8_small. apply fits_size in Hfit. unfold in_u8, FINSH_CMD_SIZE in *. lia.
Qed.

Lemma press_char c e a : shows e a → ordinary c = true → zlen (contents a) < LINE_MAX →
  ∃ e', key_char c e = Some e' ∧ shows e' (Session (before_cursor a ++ [c]) (after_cursor a) (former a) (looked_at a)).
Proof.
  intros H Hc%bool_decide_eq_true Hlt. destruct a as [b r fs i]. cbn [before_cursor after_cursor contents former looked_at] in *.
  pose proof H as (Hst&Hl&Hp&Hcp&Hf&Hrest). cbn [contents before_cursor after_cursor] in Hl, Hp, Hcp, Hf.
  unfold contents in *. cbn [before_cursor after_cursor] in *.
  assert (fits ((b ++ [c]) ++ r)) as Hf'.
  { destruct Hf as [_ Hf]. split; [rewrite !zlen_app; change (zlen [c]) with 1; rewrite zlen_app in Hlt; lia|].
    apply Forall_app in Hf as [Hfb Hfr]. rewrite !Forall_app. split_and!; [done|constructor; [lia|constructor]|done]. }
  pose proof (fits_size _ Hf). pose proof (fits_size _ Hf'). pose proof (zlen_nonneg b). pose proof (zlen_nonneg r).
  rewrite zlen_app in Hp. assert (zlen ((b ++ [c]) ++ r) = zlen b + zlen r + 1) as Hz
    by (rewrite !zlen_app; change (zlen [c]) with 1; lia).
  unfold key_char. rewrite (bool_decide_false (FINSH_CMD_SIZE <= line_position e)) by lia. cbv zeta. rewrite Hp, Hcp.
  assert (∃ z, pad (b ++ r) = b ++ r ++ 0 :: z ∧ pad ((b ++ [c]) ++ r) = b ++ c :: r ++ z) as (z&Ez&Ez').
  { exists (replicate (Z.to_nat FINSH_CMD_SIZE - S (length (b ++ r))) 0). split.
    - rewrite pad_split by (rewrite zlen_app; lia). by rewrite <- app_assoc.
    - unfold pad. rewrite <- !app_assoc. cbn [app]. do 3 f_equal. f_equal. rewrite !length_app. cbn. lia. }
  rewrite Hl, Ez.
  assert ((if bool_decide (zlen b < zlen b + zlen r) then
      l ← memcpy (b ++ r ++ 0 :: z) (zlen b + 1) (b ++ r ++ 0 :: z) (zlen b) (zlen b + zlen r - zlen b);
      arr_set (zlen b) c l else arr_set (zlen b + zlen r) c (b ++ r ++ 0 :: z)) = Some (pad ((b ++ [c]) ++ r))) as ->.
  { rewrite Ez'. case_bool_decide as Hbr.
    - replace (zlen b + zlen r - zlen b) with (zlen r) by lia. destruct (move_up b r 0 z) as [y Ey]. rewrite Ey.
      cbn [mbind option_bind]. by rewrite arr_set_app.
    - assert (r = []) as -> by (destruct r; [done|]; rewrite zlen_cons in *; pose proof (zlen_nonneg r); lia).
      change (zlen (@nil Z)) with 0. rewrite Z.add_0_r. apply arr_set_app. }
  eexists. split; [done|].
  assert (u8 (zlen b + zlen r + 1) = zlen ((b ++ [c]) ++ r)) as Eu by (rewrite <- Hz; by apply u8_pos).
  cbn [line_position set_positions set_eline]. rewrite bool_decide_false by (rewrite Eu; lia).
  pose proof (shows_line e (Session b r fs i) (b ++ [c]) r H Hf') as Hs. unfold set_positions, set_eline in *. cbn in *.
  rewrite Eu. rewrite (u8_pos _ Hf') in Hs. by rewrite (zlen_app b [c]) in Hs.
Qed.

Lemma press_back e a : shows e a →
  ∃ e', key_backspace e = Some e' ∧
    shows e' (Session (removelast (before_cursor a)) (after_cursor a) (former a) (looked_at a)).
Proof.
  intros H. destruct a as [b r fs i]. pose proof H as (Hst&Hl&Hp&Hcp&Hf&Hrest).
  unfold contents in *. cbn [before_cursor after_cursor former looked_at] in *. unfold key_backspace.
  destruct (decide (b = [])) as [->|Hb].
  { rewrite bool_decide_true by (by rewrite Hcp). by exists e. }
  destruct (exists_last Hb) as (b'&c&->). rewrite removelast_last.
  assert (fits (b' ++ r)) as Hf'.
  { destruct Hf as [Hlen Hf]. rewrite !Forall_app in Hf. destruct Hf as [[? _] ?]. split; [|by apply Forall_app].
    rewrite !zlen_app in *. pose proof (zlen_nonneg [c]). lia. }
  pose proof (fits_size _ Hf) as Hs. pose proof (fits_size _ Hf') as Hs'. pose proof (zlen_nonneg b'). pose proof (zlen_nonneg r).
  assert (zlen ((b' ++ [c]) ++ r) = zlen (b' ++ r) + 1) as Hz by (rewrite !zlen_app; change (zlen [c]) with 1; lia).
  assert (zlen (b' ++ [c]) = zlen b' + 1) as Hz' by (by rewrite zlen_app).
  rewrite bool_decide_false by lia. cbv zeta. cbn [line_position line_curpos eline set_positions].
  assert (u8 (line_position e - 1) = zlen (b' ++ r)) as Eu.
  { rewrite Hp, Hz. replace (zlen (b' ++ r) + 1 - 1) with (zlen (b' ++ r)) by lia. by apply u8_pos. }
  assert (u8 (line_curpos e - 1) = zlen b') as Ec.
  { rewrite Hcp, Hz'. replace (zlen b' + 1 - 1) with (zlen b') by lia. rewrite zlen_app in Hs'. apply u8_small.
    unfold in_u8, FINSH_CMD_SIZE in *. lia. }
  rewrite Eu, Ec, Hl.
  assert (∃ z, pad ((b' ++ [c]) ++ r) = b' ++ c :: r ++ 0 :: z ∧ pad (b' ++ r) = b' ++ r ++ 0 :: 0 :: z) as (z&Ez&Ez').
  { exists (replicate (Z.to_nat FINSH_CMD_SIZE - S (S (length (b' ++ r)))) 0). split.
    - rewrite pad_split by lia. rewrite <- !app_assoc. cbn [app]. rewrite !length_app. cbn. rewrite Nat.add_succ_r. done.
    - rewrite pad_split by lia. rewrite <- !app_assoc. do 3 f_equal. rewrite zlen_app in Hs'. unfold zlen, FINSH_CMD_SIZE in *.
      rewrite length_app. replace (Z.to_nat 80 - S (length b' + length r))%nat with (S (Z.to_nat 80 - S (S (length b' + length r)))) by lia.
      done. }
  assert (∃ y, (if bool_decide (zlen (b' ++ r) > zlen b') then
      memcpy (pad ((b' ++ [c]) ++ r)) (zlen b') (pad ((b' ++ [c]) ++ r)) (zlen b' + 1) (zlen (b' ++ r) - zlen b')
      else Some (pad ((b' ++ [c]) ++ r))) = Some ((b' ++ r) ++ y :: 0 :: z)) as [y ->].
  { rewrite Ez, zlen_app. case_bool_decide as Hbr.
    - replace (zlen b' + zlen r - zlen b') with (zlen r) by lia. destruct (move_down b' r c (0 :: z)) as [y Ey].
      exists y. by rewrite Ey, <- app_assoc.
    - assert (r = []) as -> by (destruct r; [done|]; rewrite zlen_cons in *; pose proof (zlen_nonneg r); lia).
      exists c. by rewrite app_nil_r. }
  cbn [mbind option_bind]. rewrite arr_set_app. cbn [mbind option_bind].
  eexists. split; [done|].
  pose proof (shows_line e (Session (b' ++ [c]) r fs i) b' r H Hf') as Hsh. unfold set_positions, set_eline in *. cbn in *.
  rewrite Eu, Ec. rewrite (u8_pos _ Hf'), Ez' in Hsh. rewrite <- app_assoc.
  rewrite (u8_small (zlen b')) in Hsh; [done|]. rewrite zlen_app in Hs'. unfold in_u8, FINSH_CMD_SIZE in *. lia.
Qed.

Lemma press_left syms e a : shows e a → ∃ a', press syms KLeft a = Some a' ∧ shows (key_left e) a'.
Proof.
  intros H. destruct a as [b r fs i]. pose proof H as (Hst&Hl&Hp&Hcp&Hf&Hrest).
  unfold contents in *. cbn [press before_cursor after_cursor former looked_at] in *. unfold key_left.
  destruct (decide (b = [])) as [->|Hb].
  { rewrite bool_decide_false by (rewrite Hcp; by intros []). by eexists. }
  destruct (exists_last Hb) as (b'&c&->). rewrite last_snoc, removelast_last. eexists. split; [done|].
  assert (zlen (b' ++ [c]) = zlen b' + 1) as Hz' by (by rewrite zlen_app). pose proof (zlen_nonneg b').
  rewrite bool_decide_true by lia. assert ((b' ++ [c]) ++ r = b' ++ c :: r) as E by (by rewrite <- app_assoc).
  rewrite E in *. pose proof (shows_line e _ b' (c :: r) H Hf) as Hs. cbn [former looked_at] in Hs.
  rewrite <- Hp in Hs. rewrite Hcp, Hz'. replace (zlen b' + 1 - 1) with (zlen b') by lia.
  unfold set_positions, set_eline in *. cbn in *. by rewrite <- Hl in Hs.
Qed.

Lemma press_right syms e a : shows e a → ∃ a', press syms KRight a = Some a' ∧ shows (key_right e) a'.
Proof.
  intros H. destruct a as [b r fs i]. pose proof H as (Hst&Hl&Hp&Hcp&Hf&Hrest).
  unfold contents in *. cbn [press before_cursor after_cursor former looked_at] in *. unfold key_right.
  pose proof (zlen_nonneg b). rewrite Hp, Hcp. destruct r as [|c r].
  { rewrite app_nil_r, bool_decide_false by lia. by eexists. }
  rewrite bool_decide_true by (rewrite zlen_app, zlen_cons; pose proof (zlen_nonneg r); lia). eexists. split; [done|].
  assert (b ++ c :: r = (b ++ [c]) ++ r) as E by (by rewrite <- app_assoc). rewrite E in *.
  pose proof (shows_line e _ (b ++ [c]) r H Hf) as Hs. cbn [former looked_at] in Hs.
  replace (zlen b + 1) with (zlen (b ++ [c])) by (by rewrite zlen_app).
  unfold set_positions, set_eline in *. cbn in *. by rewrite <- Hl in Hs.
Qed.

(** A former line. *)
Lemma press_look i l e a : shows e a → former a !! i = Some l →
  ∃ e', recall (set_current_history (Z.of_nat i) e) = Some e' ∧ shows e' (Session l [] (former a) i).
Proof.
  intros H Hi. pose proof H as (Hst&Hl&Hp&Hc&Hf&Hfs&Hh&Hcnt&Hcur&Hle&Hlen&Hlines).
  unfold recall. cbn [current_history cmd_history set_current_history]. unfold arr_get. rewrite bool_decide_true by lia.
  rewrite Nat2Z.id, (Hlines i l Hi). cbn [mbind option_bind].
  assert (fits l) as Hfl by (eapply Forall_lookup_1; done).
  rewrite (line_string_pad l) by done. cbn [mbind option_bind]. eexists. split; [done|].
  pose proof (shows_line e a l [] H) as Hs. rewrite app_nil_r in Hs. specialize (Hs Hfl).
  destruct Hs as (?&?&?&?&?&?&?&?&?&?&?&?). unfold shows, contents in *. cbn in *. rewrite app_nil_r in *.
  apply lookup_lt_Some in Hi. split_and!; try done. lia.
Qed.

Lemma key_up_ok syms e a a' : shows e a → press syms KUp a = Some a' → ∃ e', key_up e = Some e' ∧ shows e' a'.
Proof.
  intros H Ha. pose proof H as (Hst&Hl&Hp&Hc&Hf&Hfs&Hh&Hcnt&Hcur&Hle&Hlen&Hlines).
  cbn [press] in Ha. unfold key_up. rewrite Hcur. destruct (looked_at a) as [|i] eqn:Ei.
  - injection Ha as <-. rewrite bool_decide_false by lia. eexists. split; [done|].
    unfold shows, set_current_history. cbn. rewrite Ei. split_and!; done.
  - rewrite bool_decide_true by lia. replace (Z.of_nat (S i) - 1) with (Z.of_nat i) by lia.
    unfold look_at in Ha. destruct (former a !! i) as [l|] eqn:El; [|done]. injection Ha as <-. by apply press_look.
Qed.

Lemma key_down_ok syms e a a' : shows e a → press syms KDown a = Some a' → ∃ e', key_down e = Some e' ∧ shows e' a'.
Proof.
  intros H Ha. pose proof H as (Hst&Hl&Hp&Hc&Hf&Hfs&Hh&Hcnt&Hcur&Hle&Hlen&Hlines).
  cbn [press] in Ha. unfold key_down. rewrite Hcur, Hcnt. unfold zlen at 1 2. unfold look_at in Ha.
  case_bool_decide as Hd.
  - rewrite bool_decide_true by lia. destruct (former a !! S (looked_at a)) as [l|] eqn:El; [|done]. injection Ha as <-.
    replace (Z.of_nat (looked_at a) + 1) with (Z.of_nat (S (looked_at a))) by lia. by apply press_look.
  - rewrite bool_decide_false by lia. unfold zlen. destruct (length (former a)) as [|i] eqn:El.
    + injection Ha as <-. by exists e.
    + rewrite bool_decide_true by lia. destruct (former a !! i) as [l|] eqn:Ei; [|done]. injection Ha as <-.
      replace (Z.of_nat (S i) - 1) with (Z.of_nat i) by lia. by apply press_look.
Qed.

(** ** Completion *)

Lemma str_is_prefix_spec p s : str_is_prefix p s = true ↔ p `prefix_of` s.
Proof.
  revert s. induction p as [|c p IH]; intros s; cbn [str_is_prefix].
  - split; [intros _; apply prefix_nil|done].
  - destruct s as [|d s]; [split; [done|]; intros [? ?]; done|].
    rewrite andb_true_iff, bool_decide_eq_true, IH. split.
    + intros [-> ?]. by apply prefix_cons.
    + intros H. split; [by eapply prefix_cons_inv_1|by eapply prefix_cons_inv_2].
Qed.

(** The number of characters two names share. *)
Lemma str_common_spec s1 : ∀ s2,
  0 <= str_common s1 s2 <= zlen s1 ∧ take (Z.to_nat (str_common s1 s2)) s1 `prefix_of` s2 ∧
  ∀ q, q `prefix_of` s1 → q `prefix_of` s2 → zlen q <= str_common s1 s2.
Proof.
  induction s1 as [|c s1 IH]; intros s2; cbn [str_common].
  - split_and!; [done|done|apply prefix_nil|]. intros q Hq%prefix_nil_inv _. by subst.
  - pose proof (zlen_nonneg s1). destruct s2 as [|d s2].
    { split_and!; [done|rewrite zlen_cons; lia|apply prefix_nil|]. intros q _ Hq%prefix_nil_inv. by subst. }
    destruct (IH s2) as ([H1 H2]&H3&H4). case_bool_decide as Hcd.
    + subst d. rewrite zlen_cons. replace (Z.to_nat (1 + str_common s1 s2)) with (S (Z.to_nat (str_common s1 s2))) by lia.
      cbn [take]. split_and!; [lia|lia|by apply prefix_cons|]. intros [|x q] Hq1 Hq2; [change (zlen (@nil Z)) with 0; lia|].
      rewrite zlen_cons. apply prefix_cons_inv_2 in Hq1, Hq2. specialize (H4 q Hq1 Hq2). lia.
    + rewrite zlen_cons. split_and!; [lia|lia|apply prefix_nil|]. intros [|x q] Hq1 Hq2; [done|].
      apply prefix_cons_inv_1 in Hq1, Hq2. congruence.
Qed.

Lemma take_prefix {A} k (l : list A) : take k l `prefix_of` l.
Proof. exists (drop k l). by rewrite take_drop. Qed.
Lemma prefix_take {A} (q l : list A) : q `prefix_of` l → q = take (length q) l.
Proof. intros [r ->]. by rewrite take_app_length. Qed.

(** The longest beginning of [n] that all of [ns] begin with too. *)
Definition longest (n : list Z) (k : Z) (ns : list (list Z)) : Prop :=
  0 <= k <= zlen n ∧ (∀ x, x ∈ ns → take (Z.to_nat k) n `prefix_of` x) ∧
  ∀ q, (∀ x, x ∈ ns → q `prefix_of` x) → zlen q <= k.

Lemma longest_more n k ns x : n ∈ ns → longest n k ns → longest n (Z.min (str_common n x) k) (ns ++ [x]).
Proof.
  intros Hn (H1&H2&H3). destruct (str_common_spec n x) as (C1&C2&C3). split_and!; [lia|lia| |].
  - assert (∀ j k, 0 <= j <= k → take (Z.to_nat j) n `prefix_of` take (Z.to_nat k) n) as Hjk.
    { intros j k' Hj. replace (Z.to_nat j) with (Z.to_nat j `min` Z.to_nat k')%nat by lia. rewrite <- take_take. apply take_prefix. }
    intros y [Hy|Hy%list_elem_of_singleton]%elem_of_app.
    + etrans; [apply (Hjk _ k); lia|auto].
    + subst y. etrans; [apply (Hjk _ (str_common n x)); lia|done].
  - intros q Hq. apply Z.min_glb.
    + apply C3; [apply Hq, elem_of_app; by left|apply Hq, elem_of_app; right; by apply list_elem_of_singleton].
    + apply H3. intros y Hy. apply Hq, elem_of_app. by left.
Qed.

Definition matching (prefix : list Z) (names : list (list Z)) : list (list Z) :=
  filter (λ n, prefix `prefix_of` n) names.

(** The names looked at so far. *)
Lemma list_prefix_fold prefix names : prefix ≠ [] → ∀ ns acc,
  match acc with None => ns = [] | Some (n, k) => n ∈ ns ∧ longest n k ns end →
  match fold_left (list_prefix_step prefix) names acc with
  | None => ns ++ matching prefix names = []
  | Some (n, k) => n ∈ ns ++ matching prefix names ∧ longest n k (ns ++ matching prefix names)
  end.
Proof.
  intros Hp. induction names as [|x names IH]; intros ns acc Hacc; cbn [fold_left].
  { unfold matching. rewrite filter_nil, app_nil_r. done. }
  unfold matching. rewrite filter_cons. unfold list_prefix_step at 2.
  destruct (decide (prefix `prefix_of` x)) as [Hx|Hx].
  - rewrite (proj2 (str_is_prefix_spec prefix x) Hx), bool_decide_true by done. cbn [andb].
    replace (ns ++ x :: filter (λ n, prefix `prefix_of` n) names) with ((ns ++ [x]) ++ matching prefix names)
      by (by rewrite <- app_assoc).
    destruct acc as [[n k]|]; cbn [default].
    + destruct Hacc as [Hn Hk]. apply (IH (ns ++ [x]) (Some (n, Z.min (str_common n x) k))). split.
      * apply elem_of_app. by left.
      * by apply longest_more.
    + subst ns. apply (IH [x] (Some (x, Z.min (str_common x x) (zlen x)))). split; [by apply list_elem_of_singleton|].
      destruct (str_common_spec x x) as (C1&C2&C3). split_and!; [lia|lia| |].
      * intros y Hy%list_elem_of_singleton. subst y. apply take_prefix.
      * intros q Hq. assert (q `prefix_of` x) as Hqx by (by apply Hq, list_elem_of_singleton).
        specialize (C3 q Hqx Hqx). apply prefix_length in Hqx. unfold zlen in *. lia.
  - replace (str_is_prefix prefix x) with false; [by apply IH|].
    symmetry. apply not_true_iff_false. by rewrite str_is_prefix_spec.
Qed.

Lemma list_prefix_spec syms prefix : prefix ≠ [] →
  (matching prefix (candidates syms) = [] → list_prefix syms prefix = []) ∧
  (matching prefix (candidates syms) ≠ [] →
   (∀ n, n ∈ matching prefix (candidates syms) → list_prefix syms prefix `prefix_of` n) ∧
   ∀ q, (∀ n, n ∈ matching prefix (candidates syms) → q `prefix_of` n) → q `prefix_of` list_prefix syms prefix).
Proof.
  intros Hp. pose proof (list_prefix_fold prefix (candidates syms) Hp [] None eq_refl) as H. cbn [app] in H.
  unfold list_prefix. destruct (fold_left _ _ _) as [[n k]|]; [|by rewrite H].
  destruct H as [Hn (Hk&H1&H2)]. split; [intros E; rewrite E in Hn; by apply elem_of_nil in Hn|]. intros _. split; [done|].
  intros q Hq. specialize (H2 q Hq). specialize (Hq n Hn). rewrite (prefix_take q n Hq).
  replace (length q) with (length q `min` Z.to_nat k)%nat by (unfold zlen in *; lia). rewrite <- take_take. apply take_prefix.
Qed.

(** The names of the tables are strings. *)
Definition good_names (syms : symbols) : Prop := Forall (Forall (λ c, 0 < c < 256)) (candidates syms).

Lemma list_prefix_chars syms prefix : good_names syms → Forall (λ c, 0 < c < 256) (list_prefix syms prefix).
Proof.
  intros Hg. destruct (decide (prefix = [])) as [->|Hp].
  - assert (∀ ns acc, fold_left (list_prefix_step []) ns acc = acc) as E.
    { induction ns as [|n ns IH]; intros acc; [done|]. cbn [fold_left]. by rewrite IH. }
    unfold list_prefix. rewrite E. constructor.
  - destruct (list_prefix_spec syms prefix Hp) as [H1 H2].
    destruct (matching prefix (candidates syms)) as [|n ns] eqn:Em; [rewrite H1 by done; constructor|].
    destruct (H2 ltac:(done)) as [H3 _]. destruct (H3 n ltac:(left)) as [r Er].
    assert (n ∈ matching prefix (candidates syms)) as Hn by (rewrite Em; left).
    apply list_elem_of_filter in Hn as [_ Hn]. unfold good_names in Hg. rewrite Forall_forall in Hg. specialize (Hg n Hn).
    rewrite Er in Hg. by apply Forall_app in Hg as [? _].
Qed.

Lemma write_pad l new : zlen l <= LINE_MAX → zlen new <= LINE_MAX →
  arr_write 0 new (pad l) = Some (pad (new ++ drop (length new) l)).
Proof.
  intros Hl Hn. assert (zlen (pad l) = FINSH_CMD_SIZE) as Hp by (apply pad_length; unfold LINE_MAX in Hl; lia).
  unfold arr_write. rewrite Hp. unfold LINE_MAX in *. rewrite bool_decide_true by lia. cbn [Z.to_nat take app]. f_equal.
  unfold pad, zlen, FINSH_CMD_SIZE in *. replace (Z.to_nat (0 + Z.of_nat (length new))) with (length new) by lia.
  rewrite drop_app, drop_replicate, <- app_assoc, length_app, length_drop. change (Z.to_nat 0) with O.
  rewrite take_0. cbn [app]. do 3 f_equal. lia.
Qed.

Lemma key_tab_ok syms e a a' : good_names syms → shows e a → press syms KTab a = Some a' →
  ∃ e', key_tab syms e = Some e' ∧ shows e' a'.
Proof.
  intros Hg H Ha. pose proof H as (Hst&Hl&Hp&Hc&Hf&Hrest). cbn [press] in Ha. case_bool_decide as Hfit; [|done].
  injection Ha as <-. set (new := list_prefix syms (contents a)) in *.
  assert (zlen new <= LINE_MAX) as Hnew.
  { unfold complete in Hfit. fold new in Hfit. rewrite zlen_app in Hfit.
    pose proof (zlen_nonneg (drop (length new) (contents a))). lia. }
  assert (fits (complete syms (contents a))) as Hfc.
  { split; [done|]. apply Forall_app. split; [by apply list_prefix_chars|]. apply Forall_drop, Hf. }
  unfold key_tab. rewrite (line_string_pad _ _ Hf Hl). cbn [mbind option_bind]. fold new.
  rewrite Hl, write_pad by (done || apply Hf). fold (complete syms (contents a)) in *.
  change (new ++ drop (length new) (contents a)) with (complete syms (contents a)). cbn [mbind option_bind].
  rewrite (line_string_pad (complete syms (contents a))) by done. cbn [mbind option_bind]. eexists. split; [done|].
  pose proof (shows_line e a (complete syms (contents a)) [] H) as Hs. rewrite app_nil_r in Hs. by apply Hs.
Qed.

(** ** The end of a line *)

Lemma read_pad l : zlen l <= FINSH_CMD_SIZE → arr_read 0 (zlen l) (pad l) = Some l.
Proof. intros Hl. exact (arr_read_mid [] l (replicate (Z.to_nat FINSH_CMD_SIZE - length l) 0)). Qed.

Lemma write_empty l : zlen l <= LINE_MAX → arr_write 0 l empty_line = Some (pad l).
Proof.
  intros Hl. change empty_line with (pad []). rewrite write_pad by done. by rewrite drop_nil, app_nil_r.
Qed.

Lemma push_history e a : shows e a →
  ∃ e', shell_push_history e = Some e' ∧ shows (set_positions 0 0 (set_eline empty_line e')) (entered a) ∧
    eline e' = eline e ∧ line_position e' = line_position e ∧ line_curpos e' = line_curpos e.
Proof.
  intros (Hst&Hl&Hp&Hc&Hf&Hfs&Hh&Hcnt&Hcur&Hle&Hlen&Hlines). pose proof (zlen_nonneg (contents a)).
  unfold shell_push_history, entered. rewrite Hp. change (pad []) with empty_line.
  destruct (decide (contents a = [])) as [E|E].
  { rewrite E, bool_decide_false by (change (zlen (@nil Z)) with 0; lia). cbn [mbind option_bind].
    eexists. split; [done|]. rewrite bool_decide_true by done. split; [|split_and!; [done|cbn; congruence|done]].
    unfold shows, contents, set_positions, set_eline, set_current_history. cbn. rewrite Hcnt.
    split_and!; done. }
  assert (zlen (contents a) ≠ 0) as Hz by (destruct (contents a); [done|]; rewrite zlen_cons; pose proof (zlen_nonneg l); lia).
  rewrite bool_decide_true by done. apply fits_size in Hf as Hsize.
  rewrite Hl, read_pad by lia. cbn [mbind option_bind]. rewrite write_empty by apply Hf. cbn [mbind option_bind].
  rewrite (bool_decide_false (contents a = [])) by done. rewrite Hcnt.
  assert (Forall fits (former a ++ [contents a])) as Hfs' by (apply Forall_app; split; [done|by constructor]).
  unfold FINSH_HISTORY_LINES in *. unfold zlen in Hh, Hlen. case_bool_decide as Hfull.
  - assert (length (former a) = 5)%nat as E5 by (unfold zlen in Hfull; lia). rewrite E5. cbn [mbind option_bind].
    replace (drop (6 - Z.to_nat 5) (former a ++ [contents a])) with (drop 1 (former a) ++ [contents a])
      by (rewrite drop_app_le by (rewrite E5; lia); done).
    assert (length (drop 1 (former a) ++ [contents a]) = 5)%nat as El by (rewrite length_app, length_drop, E5; done).
    set (h := drop 1 (former a) ++ [contents a]) in *.
    eexists. split; [done|]. split; [|split_and!; [by rewrite <- Hl|cbn; congruence|done]].
    unfold shows, contents, set_positions, set_eline, set_current_history, set_history. cbn.
    unfold zlen. rewrite El, length_app, length_drop. subst h. split_and!; try done; [|unfold FINSH_HISTORY_LINES; cbn [length]; lia|].
    + apply Forall_app. split; [by apply Forall_drop|by constructor].
    + intros i l Hi. destruct (decide (i < 4)%nat) as [Hi4|Hi4].
      * rewrite lookup_app_l in Hi by (rewrite length_drop; lia). rewrite lookup_app_l by (rewrite length_drop; lia).
        rewrite lookup_drop in *. by apply Hlines.
      * apply lookup_lt_Some in Hi as Hlt. rewrite El in Hlt. assert (i = 4%nat) as -> by lia.
        rewrite lookup_app_r in * by (rewrite length_drop; lia). rewrite length_drop in *. rewrite E5 in Hi. cbn in Hi.
        injection Hi as <-. replace (4 - (length (cmd_history e) - 1))%nat with O by lia. done.
  - unfold zlen in Hfull.
    replace (drop (S (length (former a)) - Z.to_nat 5) (former a ++ [contents a])) with (former a ++ [contents a])
      by (replace (S (length (former a)) - Z.to_nat 5)%nat with O by lia; by rewrite drop_0).
    set (h := former a ++ [contents a]) in *. unfold arr_set, zlen. rewrite bool_decide_true by lia.
    cbn [mbind option_bind]. eexists. split; [done|]. split; [|split_and!; [by rewrite <- Hl|exact Hp|done]].
    unfold shows, contents, set_positions, set_eline, set_current_history, set_history, FINSH_HISTORY_LINES. cbn.
    assert (length h = S (length (former a))) as El by (unfold h; rewrite length_app; cbn; lia).
    unfold zlen. rewrite Nat2Z.id, length_insert, El. split_and!; try done; try lia. subst h.
    intros i l Hi. destruct (decide (i = length (former a))) as [->|Hi'].
    + rewrite lookup_app_r, Nat.sub_diag in Hi by lia. cbn in Hi. injection Hi as <-. apply list_lookup_insert_eq. lia.
    + apply lookup_lt_Some in Hi as Hlt. rewrite length_app in Hlt. cbn in Hlt.
      rewrite lookup_app_l in Hi by lia. rewrite list_lookup_insert_ne by lia. by apply Hlines.
Qed.

(** ** Sequences of keys *)

Section keys.
Context (call : Z → list Z → mem → option (Z * mem)) (syms : symbols).

Lemma key_enter_ok e a f out f' : shows e a → contents a ≠ [] →
  finsh_run_line call syms (contents a ++ [59]) f = Some (out, f') →
  ∃ e', key_enter call syms e f = Some (out, e', f') ∧ shows e' (entered a).
Proof.
  intros H Hne Hrun. destruct (push_history e a H) as (e1&E1&Hs&El&Ep&Ec). destruct H as (Hst&Hl&Hp&Hc&Hf&_).
  unfold key_enter. rewrite E1. cbn [mbind option_bind]. rewrite Ep, El, Hl, Hp.
  pose proof (fits_size _ Hf) as Hsize. rewrite pad_split by lia. rewrite arr_set_app. cbn [mbind option_bind].
  cbn [line_position set_eline]. rewrite Ep, Hp.
  rewrite bool_decide_true by (destruct (contents a); [done|]; rewrite zlen_cons; pose proof (zlen_nonneg l); lia).
  unfold line_string. cbn [eline set_eline line_position line_curpos].
  replace (replicate (Z.to_nat FINSH_CMD_SIZE - S (length (contents a))) 0)
    with (0 :: replicate (Z.to_nat FINSH_CMD_SIZE - S (S (length (contents a)))) 0).
  2: { unfold zlen, FINSH_CMD_SIZE in *. replace (Z.to_nat 80 - S (length (contents a)))%nat with
         (S (Z.to_nat 80 - S (S (length (contents a))))) by lia. done. }
  replace ((contents a ++ 59 :: 0 :: replicate (Z.to_nat FINSH_CMD_SIZE - S (S (length (contents a)))) 0) ++ [line_position e1; line_curpos e1])
    with ((contents a ++ [59]) ++ 0 :: (replicate (Z.to_nat FINSH_CMD_SIZE - S (S (length (contents a)))) 0 ++ [line_position e1; line_curpos e1]))
    by (by rewrite <- !app_assoc; cbn [app]; rewrite <- ?app_assoc).
  rewrite cstring_nonzero by (apply Forall_app; split; [apply Hf|by repeat constructor]).
  cbn [mbind option_bind]. rewrite Hrun. cbn [mbind option_bind]. eexists. split; [done|done].
Qed.

(** A key, and the loop goes on behind its bytes. *)
Lemma key_step k e a a' f rest fuel : good_names syms → shows e a → press syms k a = Some a' →
  ∃ e', shows e' a' ∧
    shell_input call syms (length (key_bytes k) + fuel) (key_bytes k ++ rest) e f = shell_input call syms fuel rest e' f.
Proof.
  intros Hg H Ha. pose proof H as (Hst&_). destruct k as [| | | | | |c]; cbn [key_bytes length Nat.add app shell_input].
  1-4: unfold handle_char; cbn [bool_decide decide_rel mbind option_bind stat set_stat];
    repeat (first [rewrite bool_decide_true by done|rewrite bool_decide_false by done]; cbn [mbind option_bind stat set_stat shell_input]).
  - destruct (key_up_ok syms (set_stat WAIT_NORMAL (set_stat WAIT_FUNC_KEY (set_stat WAIT_SPEC_KEY e))) a a') as (e'&E&Hs);
      [destruct e; cbn in *; by subst|done|]. exists e'. split; [done|]. by rewrite E.
  - destruct (key_down_ok syms (set_stat WAIT_NORMAL (set_stat WAIT_FUNC_KEY (set_stat WAIT_SPEC_KEY e))) a a') as (e'&E&Hs);
      [destruct e; cbn in *; by subst|done|]. exists e'. split; [done|]. by rewrite E.
  - destruct (press_left syms (set_stat WAIT_NORMAL (set_stat WAIT_FUNC_KEY (set_stat WAIT_SPEC_KEY e))) a) as (a1&E&Hs);
      [destruct e; cbn in *; by subst|]. rewrite E in Ha. injection Ha as <-. by eexists.
  - destruct (press_right syms (set_stat WAIT_NORMAL (set_stat WAIT_FUNC_KEY (set_stat WAIT_SPEC_KEY e))) a) as (a1&E&Hs);
      [destruct e; cbn in *; by subst|]. rewrite E in Ha. injection Ha as <-. by eexists.
  - destruct (key_tab_ok syms e a a' Hg H Ha) as (e'&E&Hs). exists e'. split; [done|].
    unfold handle_char. rewrite Hst. unfold plain_char. cbn. by rewrite E.
  - cbn in Ha. injection Ha as <-. destruct (press_back e a H) as (e'&E&Hs). exists e'. split; [done|].
    unfold handle_char. rewrite Hst. unfold plain_char. cbn. by rewrite E.
  - cbn [press] in Ha. destruct (ordinary c) eqn:Ho; [|done]. cbn [andb] in Ha. case_bool_decide as Hlt; [|done]. injection Ha as <-.
    destruct (press_char c e a H Ho Hlt) as (e'&E&Hs). exists e'. split; [done|].
    apply bool_decide_eq_true in Ho. unfold handle_char. rewrite Hst, bool_decide_false by lia. unfold plain_char, after_return.
    rewrite !bool_decide_false by lia. by rewrite E.
Qed.

Definition typed_bytes (ks : list key) : list Z := concat (key_bytes <$> ks).

Lemma keys_run ks : ∀ e a a' f rest fuel, good_names syms → shows e a → press_all syms ks a = Some a' →
  ∃ e', shows e' a' ∧ shell_input call syms (length (typed_bytes ks) + fuel) (typed_bytes ks ++ rest) e f =
    shell_input call syms fuel rest e' f.
Proof.
  induction ks as [|k ks IH]; intros e a a' f rest fuel Hg H Ha.
  - injection Ha as <-. by exists e.
  - cbn [press_all] in Ha. destruct (press syms k a) as [a1|] eqn:E1; [|done]. cbn in Ha.
    unfold typed_bytes. cbn [fmap list_fmap concat]. fold (typed_bytes ks).
    destruct (key_step k e a a1 f (typed_bytes ks ++ rest) (length (typed_bytes ks) + fuel) Hg H E1) as (e1&H1&R1).
    destruct (IH e1 a1 a' f rest fuel Hg H1 Ha) as (e2&H2&R2). exists e2. split; [done|].
    rewrite length_app, <- app_assoc, <- Nat.add_assoc. by rewrite R1.
Qed.

(** C23: The line editor.  Whatever keys are pressed, arrows, completion and
    backspace among them, as long as the line stays within the 78 characters that
    fit, the buffer and its two positions hold the text before and after the cursor
    and the history the former lines; a return runs the text with a semicolon behind
    it, puts it into the history, of which the last five lines are kept, and leaves
    an empty line.  No access is outside the buffer. *)
Theorem shell_edits_lines ks e a a' f out f' :
  good_names syms → shows e a → press_all syms ks a = Some a' → contents a' ≠ [] →
  finsh_run_line call syms (contents a' ++ [59]) f = Some (out, f') →
  ∃ e', shell_read call syms (typed_bytes ks ++ [13]) e f = Some (out, e', f', []) ∧ shows e' (entered a').
Proof.
  intros Hg H Ha Hne Hrun. destruct (keys_run ks e a a' f [13] 2 Hg H Ha) as (e1&H1&R1).
  destruct (key_enter_ok e1 a' f out f' H1 Hne Hrun) as (e2&E2&H2). exists e2. split; [|done].
  unfold shell_read. rewrite length_app. replace (S (length (typed_bytes ks) + length [13]))
    with (length (typed_bytes ks) + 2)%nat by (cbn; lia). rewrite R1. cbn [shell_input].
  unfold handle_char. destruct H1 as (Hst&_). rewrite Hst. unfold plain_char. cbn. by rewrite E2.
Qed.

(** ** Lines that are too long *)

Definition holding (l : list Z) (e : editor) : Prop :=
  stat e = WAIT_NORMAL ∧ eline e = pad l ∧ line_position e = zlen l ∧ line_curpos e = zlen l ∧
  history_count e = 0 ∧ zlen (cmd_history e) = FINSH_HISTORY_LINES.

(** A character behind the last one. *)
Lemma type_end c l e : holding l e → zlen l < FINSH_CMD_SIZE →
  key_char c e = Some (let e' := set_positions (zlen l + 1) (zlen l + 1) (set_eline (pad (l ++ [c])) e) in
                       if bool_decide (FINSH_CMD_SIZE <= zlen l + 1) then set_positions 0 0 e' else e').
Proof.
  intros (Hst&Hl&Hp&Hc&_) Hlt. pose proof (zlen_nonneg l). unfold key_char.
  rewrite (bool_decide_false (FINSH_CMD_SIZE <= line_position e)) by lia. cbv zeta.
  rewrite Hp, Hc, (bool_decide_false (zlen l < zlen l)) by lia. rewrite Hl, pad_split, arr_set_app by done.
  cbn [mbind option_bind]. replace (pad (l ++ [c])) with (l ++ c :: replicate (Z.to_nat FINSH_CMD_SIZE - S (length l)) 0).
  2: { unfold pad. rewrite <- app_assoc, length_app. cbn [app length]. do 3 f_equal. lia. }
  cbn [line_position set_positions set_eline]. rewrite u8_small by (unfold in_u8, FINSH_CMD_SIZE in *; lia). done.
Qed.

Lemma holding_more c l e : holding l e → zlen l < FINSH_CMD_SIZE - 1 →
  holding (l ++ [c]) (set_positions (zlen l + 1) (zlen l + 1) (set_eline (pad (l ++ [c])) e)).
Proof.
  intros (Hst&Hl&Hp&Hc&Hh&Hn) Hlt. pose proof (zlen_nonneg l). unfold holding. cbn.
  rewrite u8_small by (unfold in_u8, FINSH_CMD_SIZE in *; lia). by rewrite zlen_app.
Qed.

Lemma type_step c l e rest fuel f : ordinary c = true → holding l e → zlen l < FINSH_CMD_SIZE →
  shell_input call syms (S fuel) (c :: rest) e f =
  (e' ← key_char c e; shell_input call syms fuel rest e' f).
Proof.
  intros Ho%bool_decide_eq_true (Hst&_) Hlt. cbn [shell_input]. unfold handle_char.
  rewrite Hst, bool_decide_false by lia. unfold plain_char, after_return. rewrite !bool_decide_false by lia.
  by destruct (key_char c e).
Qed.

Lemma type_all cs : ∀ l e f, forallb ordinary cs = true → holding l e → zlen l + zlen cs < FINSH_CMD_SIZE →
  ∃ e', holding (l ++ cs) e' ∧
    ∀ rest fuel, shell_input call syms (length cs + fuel) (cs ++ rest) e f = shell_input call syms fuel rest e' f.
Proof.
  induction cs as [|c cs IH]; intros l e f Ho H Hlt; [by exists e; rewrite app_nil_r|].
  cbn [forallb] in Ho. apply andb_true_iff in Ho as [Hc Ho]. rewrite zlen_cons in Hlt. pose proof (zlen_nonneg cs).
  pose proof (holding_more c l e H ltac:(lia)) as H1.
  destruct (IH (l ++ [c]) _ f Ho H1) as (e'&He'&R); [rewrite zlen_app; change (zlen [c]) with 1; lia|].
  exists e'. rewrite <- app_assoc in He'. split; [done|]. intros rest fuel. cbn [length Nat.add app].
  rewrite (type_step c l e) by (done || lia). rewrite (type_end c l e) by (done || lia). cbn [mbind option_bind].
  rewrite bool_decide_false by lia. apply R.
Qed.

Lemma ordinary_chars cs : forallb ordinary cs = true → Forall (λ c, 0 < c < 256) cs.
Proof.
  induction cs as [|c cs IH]; cbn [forallb]; [constructor|]. intros [Hc%bool_decide_eq_true H]%andb_true_iff.
  constructor; [lia|auto].
Qed.

Lemma holding_init : holding [] editor_init.
Proof. done. Qed.

Lemma cstring_none l : Forall (λ c, 0 < c < 256) l → cstring l = None.
Proof. induction 1 as [|c l Hc _ IH]; [done|]. cbn [cstring]. rewrite bool_decide_false by lia. by rewrite IH. Qed.

(** A line of 79 characters: the semicolon takes the place of the terminator. *)
Lemma enter_full l e f : holding l e → zlen l = FINSH_CMD_SIZE - 1 → Forall (λ c, 0 < c < 256) l →
  arr_set (line_position e) 59 (eline e) = Some (l ++ [59]) ∧ line_string (set_eline (l ++ [59]) e) = None ∧
  key_enter call syms e f = None.
Proof.
  intros (Hst&Hl&Hp&Hc&Hh&Hn) Hlen Hch.
  assert (arr_set (line_position e) 59 (eline e) = Some (l ++ [59])) as Eset.
  { rewrite Hp, Hl, pad_split, arr_set_app by lia.
    by replace (Z.to_nat FINSH_CMD_SIZE - S (length l))%nat with O by (unfold zlen, FINSH_CMD_SIZE in *; lia). }
  assert (cstring ((l ++ [59]) ++ [line_position e; line_curpos e]) = None) as Estr.
  { apply cstring_none. rewrite Hp, Hc, <- app_assoc. apply Forall_app. split; [done|]. rewrite Hlen. by repeat constructor. }
  split_and!; [done|exact Estr|]. unfold key_enter, shell_push_history.
  rewrite Hp, Hlen, Hl. rewrite bool_decide_true by done. rewrite <- Hlen, read_pad by lia. cbn [mbind option_bind].
  replace (arr_write 0 l empty_line) with (Some (pad l)).
  2: { unfold arr_write. rewrite bool_decide_true by (change (zlen empty_line) with FINSH_CMD_SIZE; lia).
       change (Z.to_nat 0) with O. rewrite take_0. cbn [app]. unfold pad, empty_line. rewrite drop_replicate.
       do 3 f_equal. unfold zlen. lia. }
  cbn [mbind option_bind]. rewrite Hh, bool_decide_false by (unfold FINSH_HISTORY_LINES; lia).
  assert (∃ h, arr_set 0 (pad l) (cmd_history e) = Some h) as [h ->].
  { unfold arr_set. rewrite bool_decide_true by (rewrite Hn; unfold FINSH_HISTORY_LINES; lia). eauto. }
  cbn [mbind option_bind line_position eline set_history set_current_history]. rewrite Eset.
  cbn [mbind option_bind line_position set_eline set_history set_current_history].
  rewrite bool_decide_true by (unfold FINSH_CMD_SIZE in *; lia).
  unfold line_string. cbn [eline set_eline line_position line_curpos set_history set_current_history]. by rewrite Estr.
Qed.

(** The line after 80 characters: the positions are at its beginning again. *)
Lemma type_full c l e rest fuel f : ordinary c = true → holding l e → zlen l = FINSH_CMD_SIZE - 1 →
  shell_input call syms (S fuel) (c :: rest) e f =
  shell_input call syms fuel rest (set_positions 0 0 (set_eline (l ++ [c]) e)) f.
Proof.
  intros Ho H Hlen. rewrite (type_step c l e) by (done || lia). rewrite (type_end c l e) by (done || lia).
  cbn [mbind option_bind]. rewrite bool_decide_true by lia.
  replace (pad (l ++ [c])) with (l ++ [c]); [done|]. unfold pad. rewrite length_app.
  replace (Z.to_nat FINSH_CMD_SIZE - _)%nat with O by (unfold zlen, FINSH_CMD_SIZE in *; cbn; lia). by rewrite app_nil_r.
Qed.

(** No name is as long as the line. *)
Lemma list_prefix_long l : zlen l = FINSH_CMD_SIZE → Forall (λ n, zlen n < FINSH_CMD_SIZE) (candidates syms) →
  list_prefix syms l = [].
Proof.
  intros Hl Hn. assert (l ≠ []) as Hne by (by intros ->). apply (list_prefix_spec syms l Hne).
  unfold matching. destruct (filter _ _) as [|n ns] eqn:E; [done|].
  assert (n ∈ filter (λ n, l `prefix_of` n) (candidates syms)) as Hin by (rewrite E; left).
  apply list_elem_of_filter in Hin as [Hp Hin]. rewrite Forall_forall in Hn. specialize (Hn n Hin).
  apply prefix_length in Hp. unfold zlen in *. lia.
Qed.

(** A tab then moves both positions behind the end of the line; after one more
    character and a backspace the positions are 0 and 80. *)
Lemma tab_full l c e rest fuel f : zlen l = FINSH_CMD_SIZE → Forall (λ c, 0 < c < 256) l → stat e = WAIT_NORMAL →
  Forall (λ n, zlen n < FINSH_CMD_SIZE) (candidates syms) → ordinary c = true →
  ∃ e', shell_input call syms (S (S (S fuel))) ([9; c; 8] ++ rest) (set_positions 0 0 (set_eline l e)) f = shell_input call syms fuel rest e' f ∧
    stat e' = WAIT_NORMAL ∧ zlen (eline e') = FINSH_CMD_SIZE ∧ line_position e' = 0 ∧ line_curpos e' = FINSH_CMD_SIZE.
Proof.
  intros Hl Hch Hst Hn Ho. set (e0 := set_positions 0 0 (set_eline l e)).
  assert (key_tab syms e0 = Some (set_positions 80 80 (set_eline l e))) as E1.
  { assert (line_string (set_eline l e0) = Some l) as Hs by (by apply cstring_nonzero).
    unfold key_tab. change (line_string e0) with (line_string (set_eline l e0)). rewrite Hs. cbn [mbind option_bind].
    rewrite list_prefix_long by done. change (eline e0) with l.
    replace (arr_write 0 [] l) with (Some l).
    2: { unfold arr_write. rewrite Hl, bool_decide_true by done. done. }
    cbn [mbind option_bind]. rewrite Hs. cbn [mbind option_bind]. by rewrite Hl. }
  destruct l as [|x l']; [done|]. set (E p q l := Editor (stat e) (current_history e) (history_count e) (cmd_history e) l p q).
  assert (∀ y z, arr_set 0 z (y :: l') = Some (z :: l')) as Hset by (intros y z; exact (arr_set_app [] y z l')).
  assert (key_char c (E 80 80 (x :: l')) = Some (E 1 81 (c :: l'))) as E2.
  { unfold key_char. change (FINSH_CMD_SIZE <= line_position (E 80 80 (x :: l'))) with (80 <= 80).
    rewrite bool_decide_true by done. cbv zeta. change (line_curpos _ < line_position _) with (80 < 0).
    rewrite bool_decide_false by done. change (arr_set _ c _) with (arr_set 0 c (x :: l')). by rewrite Hset. }
  assert (key_backspace (E 1 81 (c :: l')) = Some (E 0 80 (0 :: l'))) as E3.
  { unfold key_backspace. change (line_curpos (E 1 81 (c :: l'))) with 81. rewrite bool_decide_false by done. cbv zeta.
    change (line_position _ > line_curpos _) with (0 > 80). rewrite bool_decide_false by done. cbn [mbind option_bind].
    change (arr_set _ 0 _) with (arr_set 0 0 (c :: l')). by rewrite Hset. }
  assert (∀ ch input e', stat e' = WAIT_NORMAL → ch ≠ 27 → handle_char call syms ch input e' f = plain_char call syms ch input e' f)
    as Hplain by (intros ch input e' He' Hc; unfold handle_char; by rewrite bool_decide_false, He').
  exists (E 0 80 (0 :: l')). split_and!; [|done|change (zlen (0 :: l') = FINSH_CMD_SIZE); by rewrite zlen_cons in Hl |- *|done|done].
  apply bool_decide_eq_true in Ho. cbn [shell_input app].
  rewrite Hplain by done. unfold plain_char at 1. rewrite bool_decide_true by done. rewrite E1. cbn [mbind option_bind shell_input].
  change (set_positions 80 80 (set_eline (x :: l') e)) with (E 80 80 (x :: l')).
  rewrite Hplain by (done || lia). unfold plain_char at 1, after_return. rewrite !bool_decide_false by lia. rewrite E2.
  cbn [mbind option_bind shell_input]. rewrite Hplain by done. unfold plain_char at 1.
  rewrite bool_decide_false, bool_decide_true by (done || lia). by rewrite E3.
Qed.

(** The next backspace: 176 bytes behind the line are moved. *)
Lemma backspace_behind e : zlen (eline e) = FINSH_CMD_SIZE → line_position e = 0 → line_curpos e = FINSH_CMD_SIZE →
  memcpy (eline e) 79 (eline e) 80 176 = None ∧ key_backspace e = None.
Proof.
  intros Hl Hp Hc. assert (memcpy (eline e) 79 (eline e) 80 176 = None) as E.
  { unfold memcpy, arr_read. rewrite bool_decide_false; [done|]. unfold FINSH_CMD_SIZE in Hl. lia. }
  split; [done|]. unfold key_backspace. rewrite Hc, Hp. rewrite bool_decide_false by done. cbv zeta.
  change (line_position _ > line_curpos _) with (255 > 79). rewrite bool_decide_true by done.
  change (memcpy _ _ _ _ _) with (memcpy (eline e) 79 (eline e) 80 176). by rewrite E.
Qed.

(** C34: Long lines overrun the buffer.  With 79 characters the line is full but for
    its terminator: a return puts the semicolon into the last byte, and what is run is
    not a string any more.  With 80 characters the positions start again but the old
    characters stay, so that a tab puts both positions behind the buffer; after one
    more character and a backspace the position is 0 and the cursor 80, and the next
    backspace moves 176 bytes from behind the buffer to its last byte and beyond. *)
Theorem shell_long_line_overruns cs c f :
  forallb ordinary cs = true → zlen cs = FINSH_CMD_SIZE - 1 → ordinary c = true →
  Forall (λ n, zlen n < FINSH_CMD_SIZE) (candidates syms) →
  (∃ e, shell_read call syms cs editor_init f = Some ([], e, f, []) ∧ line_position e = FINSH_CMD_SIZE - 1 ∧
     arr_set (line_position e) 59 (eline e) = Some (cs ++ [59]) ∧ line_string (set_eline (cs ++ [59]) e) = None ∧
     shell_read call syms (cs ++ [13]) editor_init f = None) ∧
  ∃ e, shell_read call syms (cs ++ [c; 9; c; 8]) editor_init f = Some ([], e, f, []) ∧ zlen (eline e) = FINSH_CMD_SIZE ∧
     line_position e = 0 ∧ line_curpos e = FINSH_CMD_SIZE ∧ memcpy (eline e) 79 (eline e) 80 176 = None ∧
     shell_read call syms (cs ++ [c; 9; c; 8; 8]) editor_init f = None.
Proof.
  intros Hcs Hlen Hc Hn. pose proof (ordinary_chars cs Hcs) as Hch. unfold shell_read. rewrite !length_app.
  destruct (type_all cs [] editor_init f Hcs holding_init) as (e&He&R); [change (zlen (@nil Z)) with 0; lia|]. cbn [app] in He.
  pose proof (enter_full cs e f He Hlen Hch) as [E1 [E2 E3]]. pose proof He as (Hst&Hl&Hp&_). split.
  - exists e. split_and!; [|lia|done|done|].
    + rewrite <- (app_nil_r cs) at 2. rewrite <- Nat.add_1_r. by rewrite R.
    + replace (S (length cs + length [13])) with (length cs + 2)%nat by (cbn; lia). rewrite R.
      cbn [shell_input]. unfold handle_char. rewrite Hst. unfold plain_char. cbn. by rewrite E3.
  - assert (Forall (λ c, 0 < c < 256) (cs ++ [c])) as Hch'.
    { apply Forall_app. split; [done|]. apply (ordinary_chars [c]). cbn. by rewrite Hc. }
    assert (zlen (cs ++ [c]) = FINSH_CMD_SIZE) as Hlen' by (rewrite zlen_app; change (zlen [c]) with 1; lia).
    destruct (tab_full (cs ++ [c]) c e [] 1 f Hlen' Hch' Hst Hn Hc) as (e1&R1&_&H1&H2&H3).
    destruct (tab_full (cs ++ [c]) c e [8] 2 f Hlen' Hch' Hst Hn Hc) as (e2&R2&Hs2&H4&H5&H6).
    destruct (backspace_behind e1 H1 H2 H3) as [Hm _]. destruct (backspace_behind e2 H4 H5 H6) as [_ Hb].
    exists e1. split_and!; try done.
    + replace (S (length cs + length [c; 9; c; 8])) with (length cs + 5)%nat by (cbn; lia). rewrite R, (type_full c cs e) by done.
      exact R1.
    + replace (S (length cs + length [c; 9; c; 8; 8])) with (length cs + 6)%nat by (cbn; lia). rewrite R, (type_full c cs e) by done.
      cbn [app] in R2. rewrite R2. cbn [shell_input]. unfold handle_char. rewrite Hs2. rewrite bool_decide_false by done.
      unfold plain_char. rewrite bool_decide_false, bool_decide_true by (done || lia). by rewrite Hb.
Qed.

(** The completion of names.  When something is typed and names begin with it,
    the line becomes the longest text with which all of these names begin;
    otherwise nothing is written. *)
Theorem shell_completes_names prefix :
  prefix ≠ [] →
  (matching prefix (candidates syms) = [] → list_prefix syms prefix = []) ∧
  (matching prefix (candidates syms) ≠ [] →
   prefix `prefix_of` list_prefix syms prefix ∧
   (∀ n, n ∈ matching prefix (candidates syms) → list_prefix syms prefix `prefix_of` n) ∧
   ∀ q, (∀ n, n ∈ matching prefix (candidates syms) → q `prefix_of` n) → q `prefix_of` list_prefix syms prefix).
Proof.
  intros Hp. destruct (list_prefix_spec syms prefix Hp) as [H1 H2]. split; [done|]. intros Hm. destruct (H2 Hm) as [H3 H4].
  split; [|done]. apply H4. intros n [? _]%list_elem_of_filter. done.
Qed.
End keys.

(** ** Examples *)

Definition edit_syms : symbols :=
  Symbols 0x20001000 0x20000100 [] []
    [Syscall 0 [108; 105; 115; 116; 95; 109; 98] 0; Syscall 0 [108; 105; 115; 116; 95; 109; 113] 0] [].
Definition edit_state : fstate :=
  FState (PState (finsh_token_init []) 0 0 (replicate 8 (FVar [] finsh_type_unknown)) ∅ 0 0) (replicate 64 0).

Definition edit_after : fstate := FState (fparse edit_state) ([1; 4] ++ replicate 62 0).

(** [12-4], then the cursor two to the left and the 1 and the 2 replaced by 5. *)
Definition edit_keys : list key :=
  [KChar 49; KChar 50; KChar 45; KChar 52; KLeft; KLeft; KBack; KBack; KChar 53].

Lemma shell_edits_lines_witness :
  ∃ e', shell_read (λ _ _ _, None) edit_syms (typed_bytes edit_keys ++ [13]) editor_init edit_state =
      Some ([shown 1], e', edit_after, []) ∧
    shows e' (Session [] [] [[53; 45; 52]] 1).
Proof.
  apply (shell_edits_lines (λ _ _ _, None) edit_syms edit_keys editor_init (Session [] [] [] 0)
           (Session [53] [45; 52] [] 0) edit_state [shown 1] edit_after).
  - repeat constructor.
  - split_and!; try done.
  - vm_compute. reflexivity.
  - discriminate.
  - vm_compute. reflexivity.
Defined.

Lemma shell_long_line_overruns_witness :
  (∃ e, shell_read (λ _ _ _, None) edit_syms (replicate 79 49) editor_init edit_state = Some ([], e, edit_state, []) ∧
    line_string (set_eline (replicate 79 49 ++ [59]) e) = None) ∧
  shell_read (λ _ _ _, None) edit_syms (replicate 79 49 ++ [13]) editor_init edit_state = None ∧
  shell_read (λ _ _ _, None) edit_syms (replicate 79 49 ++ [49; 9; 49; 8; 8]) editor_init edit_state = None.
Proof.
  destruct (shell_long_line_overruns (λ _ _ _, None) edit_syms (replicate 79 49) 49 edit_state)
    as [(e&R&_&_&Hs&H1) (e'&_&_&_&_&_&H2)].
  - vm_compute. reflexivity.
  - vm_compute. reflexivity.
  - vm_compute. reflexivity.
  - repeat constructor.
  - exact (conj (ex_intro _ e (conj R Hs)) (conj H1 H2)).
Defined.

Lemma shell_completes_names_witness :
  list_prefix edit_syms [108; 105] = [108; 105; 115; 116; 95; 109] ∧
  [108; 105] `prefix_of` list_prefix edit_syms [108; 105].
Proof.
  split; [vm_compute; reflexivity|].
  apply (proj1 (proj2 (shell_completes_names edit_syms [108; 105] ltac:(discriminate)) ltac:(vm_compute; discriminate))).
Defined.
