(* ===== verification/DfsPath.v ===== *)
(** * Paths of the device file systems

    The loop of [dfs_normalize_path] of components/dfs/src/dfs.c, which works in
    place on the buffer of the path, and [dfs_subdir]. *)

From S2P Require Import Prelude.

(** The characters [/] and [.]. *)
Definition SLASH : Z := 47.
Definition DOT : Z := 46.

(** [while ( *src == '/' ) src ++;] *)
Fixpoint skip_slashes (fuel : nat) (buf : list Z) (src : Z) : option Z :=
  match fuel with
  | O => None
  | S fuel =>
      c ← arr_get src buf;
      if bool_decide (c = SLASH) then skip_slashes fuel buf (src + 1) else Some src
  end.

(** [while ((c = *src++) != '\0' && c != '/') *dst ++ = c;] *)
Fixpoint copy_component (fuel : nat) (buf : list Z) (src dst : Z) : option (list Z * Z * Z * Z) :=
  match fuel with
  | O => None
  | S fuel =>
      c ← arr_get src buf;
      if bool_decide (c = 0 ∨ c = SLASH) then Some (buf, src + 1, dst, c)
      else buf ← arr_set dst c buf; copy_component fuel buf (src + 1) (dst + 1)
  end.

(** [while (dst0 < dst && dst[-1] != '/') dst --;] *)
Fixpoint up_loop (fuel : nat) (buf : list Z) (dst : Z) : option Z :=
  match fuel with
  | O => None
  | S fuel =>
      if bool_decide (0 < dst) then
        c ← arr_get (dst - 1) buf;
        if bool_decide (c ≠ SLASH) then up_loop fuel buf (dst - 1) else Some dst
      else Some dst
  end.

(** What the characters at [src] ask for. *)
Inductive action : Type :=
| Stay (src : Z)
| Copy (src : Z)
| Up (src : Z).

Definition look (buf : list Z) (src : Z) : option action :=
  let fuel := S (length buf) in
  c ← arr_get src buf;
  if bool_decide (c = DOT) then
    c1 ← arr_get (src + 1) buf;
    if bool_decide (c1 = 0) then Some (Copy (src + 1))
    else if bool_decide (c1 = SLASH) then src ← skip_slashes fuel buf (src + 2); Some (Stay src)
    else if bool_decide (c1 = DOT) then
      c2 ← arr_get (src + 2) buf;
      if bool_decide (c2 = 0) then Some (Up (src + 2))
      else if bool_decide (c2 = SLASH) then src ← skip_slashes fuel buf (src + 3); Some (Up src)
      else Some (Copy src)
    else Some (Copy src)
  else Some (Copy src).

(** One round; the buffer and [dst] at the end of the path, or nothing when it goes
    above its start.  The outer [None]: an access outside the buffer. *)
Definition loop_copy (next : list Z → Z → Z → option (option (list Z * Z))) (buf : list Z) (src dst : Z) :
    option (option (list Z * Z)) :=
  let k := S (length buf) in
  '(buf, src, dst, c) ← copy_component k buf src dst;
  if bool_decide (c = SLASH) then
    buf ← arr_set dst SLASH buf;
    src ← skip_slashes k buf src;
    next buf src (dst + 1)
  else Some (Some (buf, dst)).

Definition loop_up (next : list Z → Z → Z → option (option (list Z * Z))) (buf : list Z) (src dst : Z) :
    option (option (list Z * Z)) :=
  if bool_decide (dst - 1 < 0) then Some None
  else dst ← up_loop (S (length buf)) buf (dst - 1); next buf src dst.

Fixpoint normalize_loop (fuel : nat) (buf : list Z) (src dst : Z) : option (option (list Z * Z)) :=
  match fuel with
  | O => None
  | S fuel =>
      a ← look buf src;
      match a with
      | Stay src => normalize_loop fuel buf src dst
      | Copy src => loop_copy (normalize_loop fuel) buf src dst
      | Up src => loop_up (normalize_loop fuel) buf src dst
      end
  end.

(** The buffer is ended behind [dst], without a slash at the end. *)
Definition normalize_end (buf : list Z) (dst : Z) : option (list Z) :=
  buf ← arr_set dst 0 buf;
  let dst := dst - 1 in
  if bool_decide (dst ≠ 0) then
    c ← arr_get dst buf;
    if bool_decide (c = SLASH) then arr_set dst 0 buf else Some buf
  else Some buf.

(** The whole rewriting of the buffer [fullpath]. *)
Definition normalize_buffer (buf : list Z) : option (option (list Z)) :=
  r ← normalize_loop (S (length buf)) buf 0 0;
  match r with
  | None => Some None
  | Some (buf, dst) => buf ← normalize_end buf dst; Some (Some buf)
  end.

(** [dfs_subdir]: what of [filename] is below [directory], [Some None] for the same
    length; a longer directory leads behind the end of the name. *)
Definition dfs_subdir (directory filename : list Z) : option (option (list Z)) :=
  let n := length directory in
  if bool_decide (n = length filename) then Some None
  else
    c ← filename !! n;
    Some (Some (if bool_decide (c ≠ SLASH ∧ n ≠ 0%nat) then drop (n - 1) filename else drop n filename)).

(** ** Components *)

(** The parts between slashes. *)
Fixpoint split (l : list Z) : list (list Z) :=
  match l with
  | [] => [[]]
  | c :: l =>
      if bool_decide (c = SLASH) then [] :: split l
      else match split l with p :: ps => (c :: p) :: ps | [] => [[c]] end
  end.

Definition names (l : list Z) : list (list Z) := filter (λ p, p ≠ []) (split l).

(** The parts of a path: the empty one in front of its first slash is kept. *)
Definition parts (path : list Z) : list (list Z) :=
  match path with
  | c :: l => if bool_decide (c = SLASH) then [] :: names l else names path
  | [] => []
  end.

(** Going down and up; [None] when there is nothing left to go up from. *)
Fixpoint resolve (ps cs : list (list Z)) : option (list (list Z)) :=
  match cs with
  | [] => Some ps
  | c :: cs =>
      if bool_decide (c = [DOT]) then resolve ps cs
      else if bool_decide (c = [DOT; DOT]) then
        match ps with [] => None | _ => resolve (removelast ps) cs end
      else resolve (ps ++ [c]) cs
  end.

Fixpoint join (ps : list (list Z)) : list Z :=
  match ps with
  | [] => []
  | [p] => p
  | p :: ps => p ++ SLASH :: join ps
  end.

(** The root alone keeps its slash. *)
Definition render (ps : list (list Z)) : list Z :=
  if bool_decide (ps = [[]]) then [SLASH] else join ps.

(** ** The loops on lists *)

Definition no_slash (l : list Z) : Prop := Forall (λ c, c ≠ SLASH) l.
Definition chars_ok (l : list Z) : Prop := Forall (λ c, c ≠ 0) l.

Fixpoint drop_slashes (l : list Z) : list Z :=
  match l with [] => [] | c :: l' => if bool_decide (c = SLASH) then drop_slashes l' else l end.

Lemma arr_get_at (pre : list Z) c post i : i = zlen pre → arr_get i (pre ++ c :: post) = Some c.
Proof. intros ->. apply arr_get_mid. Qed.
Lemma arr_set_at (pre : list Z) c d post i : i = zlen pre → arr_set i d (pre ++ c :: post) = Some (pre ++ d :: post).
Proof. intros ->. apply arr_set_mid. Qed.

Lemma skip_ok rest : ∀ fuel pre post src, src = zlen pre → (length rest < fuel)%nat →
  skip_slashes fuel (pre ++ rest ++ 0 :: post) src =
    Some (src + zlen rest - zlen (drop_slashes rest)).
Proof.
  induction rest as [|c rest IH]; intros [|fuel] pre post src -> Hf; cbn in Hf; try lia; cbn [skip_slashes app].
  - rewrite arr_get_at by done. cbn. f_equal. change (zlen (@nil Z)) with 0. lia.
  - rewrite arr_get_at by done. cbn [mbind option_bind drop_slashes]. case_bool_decide.
    + change (pre ++ c :: rest ++ 0 :: post) with (pre ++ [c] ++ rest ++ 0 :: post). rewrite app_assoc.
      rewrite IH by (rewrite ?zlen_app; unfold zlen; cbn; lia). f_equal. rewrite zlen_cons. lia.
    + f_equal. lia.
Qed.

(** A component is moved down; what lies between keeps its length. *)
Lemma copy_ok comp : ∀ fuel out mid e post src dst, src = zlen out + zlen mid → dst = zlen out →
  no_slash comp → chars_ok comp → (e = 0 ∨ e = SLASH) → (length comp < fuel)%nat →
  ∃ mid', zlen mid' = zlen mid ∧
    copy_component fuel (out ++ mid ++ comp ++ e :: post) src dst =
      Some (out ++ comp ++ mid' ++ e :: post, src + zlen comp + 1, dst + zlen comp, e).
Proof.
  induction comp as [|c comp IH]; intros [|fuel] out mid e post src dst -> -> Hns Hok He Hf; cbn in Hf; try lia;
    cbn [copy_component app].
  - exists mid. split; [done|]. rewrite app_assoc, arr_get_at by (rewrite zlen_app; lia). cbn.
    rewrite bool_decide_true by (done || tauto). rewrite <- app_assoc. change (zlen (@nil Z)) with 0. by rewrite !Z.add_0_r.
  - inversion_clear Hns. inversion_clear Hok.
    assert (∃ x mid1, mid ++ [c] = x :: mid1 ∧ zlen mid1 = zlen mid) as (x&mid1&E&Hl).
    { destruct mid as [|x mid]; [by exists c, []|]. exists x, (mid ++ [c]). split; [done|].
      unfold zlen. rewrite length_app. cbn. lia. }
    destruct (IH fuel (out ++ [c]) mid1 e post (zlen out + zlen mid + 1) (zlen out + 1)) as (mid'&Hl'&R);
      try (rewrite ?zlen_app; unfold zlen in *; cbn; lia); try done.
    exists mid'. split; [lia|]. rewrite app_assoc, arr_get_at by (rewrite zlen_app; lia). cbn [mbind option_bind].
    rewrite bool_decide_false by (intros [?|?]; done). rewrite <- app_assoc.
    change (mid ++ c :: comp ++ e :: post) with (mid ++ [c] ++ comp ++ e :: post). rewrite (app_assoc mid), E.
    cbn [app]. rewrite arr_set_at by done. cbn [mbind option_bind].
    replace (out ++ c :: mid1 ++ comp ++ e :: post) with ((out ++ [c]) ++ mid1 ++ comp ++ e :: post)
      by (by rewrite <- !app_assoc). rewrite R, <- !app_assoc. cbn [app]. rewrite zlen_cons. do 3 f_equal; [f_equal|]; lia.
Qed.

(** The components written so far, each with a slash behind it. *)
Definition flat (ps : list (list Z)) : list Z := concat (map (λ p, p ++ [SLASH]) ps).

Lemma flat_app ps p : flat (ps ++ [p]) = flat ps ++ p ++ [SLASH].
Proof. unfold flat. rewrite map_app, concat_app. cbn. by rewrite app_nil_r. Qed.

Lemma up_ok p : ∀ fuel ps post dst, dst = zlen (flat ps) + zlen p → no_slash p → (length p < fuel)%nat →
  up_loop fuel (flat ps ++ p ++ post) dst = Some (zlen (flat ps)).
Proof.
  induction p as [|c p IH] using rev_ind; intros [|fuel] ps post dst -> Hns Hf; rewrite ?length_app in Hf; cbn in Hf;
    try lia; cbn [up_loop].
  - change (zlen (@nil Z)) with 0. rewrite Z.add_0_r. case_bool_decide as H0; [|done].
    destruct ps as [|q ps _] using rev_ind; [done|]. rewrite flat_app. rewrite <- !app_assoc, (app_assoc _ q). cbn [app].
    rewrite arr_get_at by (rewrite !zlen_app; unfold zlen; cbn; lia). done.
  - apply Forall_app in Hns as [Hp [Hc _]%Forall_cons]. rewrite zlen_app. change (zlen [c]) with 1.
    pose proof (zlen_nonneg (flat ps)). pose proof (zlen_nonneg p). rewrite bool_decide_true by lia.
    rewrite <- app_assoc. cbn [app]. rewrite (app_assoc (flat ps)), arr_get_at by (rewrite zlen_app; lia). cbn.
    rewrite bool_decide_true by done. rewrite <- app_assoc. apply IH; [lia|done|lia].
Qed.

(** ** Components of the rest *)

Lemma drop_slashes_suffix l : ∃ sl, l = sl ++ drop_slashes l ∧ names l = names (drop_slashes l).
Proof.
  induction l as [|c l (sl&E&En)]; [by exists []|]. cbn [drop_slashes]. case_bool_decide as Hc; [|by exists []].
  exists (c :: sl). split; [by rewrite E at 1|]. rewrite <- En. unfold names. cbn [split]. by rewrite bool_decide_true.
Qed.
Lemma drop_slashes_head l : head (drop_slashes l) ≠ Some SLASH.
Proof. induction l as [|c l IH]; [done|]. cbn [drop_slashes]. case_bool_decide; [done|]. cbn. congruence. Qed.

Lemma split_not_nil l : split l ≠ [].
Proof. destruct l as [|c l]; [done|]. cbn. case_bool_decide; [done|]. by destruct (split l). Qed.
Lemma split_comp comp : no_slash comp → split comp = [comp].
Proof. induction 1 as [|c l Hc _ IH]; [done|]. cbn. by rewrite bool_decide_false, IH. Qed.
Lemma split_slash comp t : no_slash comp → split (comp ++ SLASH :: t) = comp :: split t.
Proof. induction 1 as [|c l Hc _ IH]; [done|]. cbn. by rewrite bool_decide_false, IH. Qed.

Lemma names_comp comp : no_slash comp → comp ≠ [] → names comp = [comp].
Proof. intros H Hn. unfold names. by rewrite split_comp, filter_cons_True. Qed.
Lemma names_slash comp t : no_slash comp → comp ≠ [] → names (comp ++ SLASH :: t) = comp :: names t.
Proof. intros H Hn. unfold names. by rewrite split_slash, filter_cons_True. Qed.

(** The first component and what follows. *)
Lemma first_component l : ∃ comp, no_slash comp ∧ (l = comp ∨ ∃ t, l = comp ++ SLASH :: t).
Proof.
  induction l as [|c l (comp&Hns&Hl)]; [exists []; split; [constructor|by left]|].
  destruct (decide (c = SLASH)) as [->|Hc]; [exists []; split; [constructor|right; by exists l]|].
  exists (c :: comp). split; [by constructor|]. destruct Hl as [->|(t&->)]; [by left|right; by exists t].
Qed.

(** What is done at a component: [s] is where the next one starts. *)
Definition looked (comp : list Z) (e src s : Z) : action :=
  if bool_decide (comp = [DOT]) then if bool_decide (e = 0) then Copy (src + 1) else Stay s
  else if bool_decide (comp = [DOT; DOT]) then if bool_decide (e = 0) then Up (src + 2) else Up s
  else Copy src.

Lemma look_ok pre comp e post src : src = zlen pre → no_slash comp → chars_ok comp →
  (e = 0 ∨ e = SLASH ∧ ∃ t, post = t ++ [0]) →
  look (pre ++ comp ++ e :: post) src =
    Some (looked comp e src (src + zlen comp + zlen post - zlen (drop_slashes (removelast post)))).
Proof.
  intros -> Hns Hok He. unfold look, looked.
  assert (∀ k, e = SLASH → (k + 1 = zlen pre + zlen comp + 1) →
    skip_slashes (S (length (pre ++ comp ++ e :: post))) (pre ++ comp ++ e :: post) (k + 1) =
      Some (zlen pre + zlen comp + zlen post - zlen (drop_slashes (removelast post)))) as Hskip.
  { intros k -> Hk. destruct He as [?|(_&t&->)]; [done|]. rewrite removelast_last.
    replace (pre ++ comp ++ SLASH :: t ++ [0]) with ((pre ++ comp ++ [SLASH]) ++ t ++ 0 :: []) by (by rewrite <- !app_assoc).
    rewrite skip_ok by (rewrite ?zlen_app, ?length_app; cbn; change (zlen [SLASH]) with 1; lia).
    f_equal. rewrite zlen_app. change (zlen [0]) with 1. lia. }
  assert (e ≠ DOT) as Hed by (destruct He as [->|[-> _]]; done).
  destruct comp as [|c comp]; [cbn [app]; rewrite (arr_get_at pre _ _ (zlen pre)) by done; cbn [mbind option_bind]; by rewrite !bool_decide_false|].
  cbn [app]. rewrite (arr_get_at pre _ _ (zlen pre)) by done. cbn [mbind option_bind]. inversion_clear Hns as [|? ? Hcs Hns'].
  inversion_clear Hok as [|? ? Hc0 Hok']. destruct (decide (c = DOT)) as [->|Hc];
    [rewrite (bool_decide_true (DOT = DOT)) by done|by rewrite !bool_decide_false by congruence].
  change (pre ++ DOT :: comp ++ e :: post) with (pre ++ [DOT] ++ comp ++ e :: post) in *. rewrite app_assoc in *.
  destruct comp as [|c1 comp]; cbn [app] in *.
  - rewrite (arr_get_at (pre ++ [DOT]) _ _ (zlen pre + 1)) by (rewrite zlen_app; done). cbn [mbind option_bind]. rewrite (bool_decide_true ([DOT] = [DOT])) by done.
    destruct (decide (e = 0)) as [->|He0]; [done|]. rewrite !(bool_decide_false (e = 0)) by done.
    destruct He as [?|[-> _]]; [done|]. rewrite bool_decide_true by done.
    replace (zlen pre + 2) with (zlen pre + 1 + 1) by lia. rewrite Hskip; [done|done|]. change (zlen [DOT]) with 1. lia.
  - rewrite (arr_get_at (pre ++ [DOT]) _ _ (zlen pre + 1)) by (rewrite zlen_app; done). cbn [mbind option_bind]. inversion_clear Hns' as [|? ? Hc1s Hns].
    inversion_clear Hok' as [|? ? Hc10 Hok]. rewrite (bool_decide_false (c1 = 0)), (bool_decide_false (c1 = SLASH)) by done.
    rewrite (bool_decide_false (DOT :: c1 :: comp = [DOT])) by done.
    destruct (decide (c1 = DOT)) as [->|Hc1]; [rewrite (bool_decide_true (DOT = DOT)) by done|by rewrite !bool_decide_false by congruence].
    change ((pre ++ [DOT]) ++ DOT :: comp ++ e :: post) with ((pre ++ [DOT]) ++ [DOT] ++ comp ++ e :: post) in *.
    rewrite app_assoc in *. destruct comp as [|c2 comp]; cbn [app] in *.
    + rewrite (arr_get_at ((pre ++ [DOT]) ++ [DOT]) _ _ (zlen pre + 2)) by (rewrite !zlen_app; change (zlen [DOT]) with 1; lia). cbn [mbind option_bind].
      rewrite (bool_decide_true ([DOT; DOT] = _)) by done.
      destruct (decide (e = 0)) as [->|He0]; [done|]. rewrite !(bool_decide_false (e = 0)) by done.
      destruct He as [?|[-> _]]; [done|]. rewrite bool_decide_true by done.
      replace (zlen pre + 3) with (zlen pre + 2 + 1) by lia.
      replace ((pre ++ [DOT]) ++ [DOT]) with (pre ++ [DOT; DOT]) by (by rewrite <- app_assoc). rewrite Hskip; [done|done|]. change (zlen [DOT; DOT]) with 2. lia.
    + rewrite (arr_get_at ((pre ++ [DOT]) ++ [DOT]) _ _ (zlen pre + 2)) by (rewrite !zlen_app; change (zlen [DOT]) with 1; lia). cbn [mbind option_bind].
      inversion_clear Hns. inversion_clear Hok. by rewrite !bool_decide_false.
Qed.

(** ** The loop *)

(** The text written for the components [ps]: complete, or without the last slash. *)
Definition ends (ps : list (list Z)) (out : list Z) : Prop :=
  out = flat ps ∨ ∃ ps0 l, ps = ps0 ++ [l] ∧ l ≠ [] ∧ no_slash l ∧ out = flat ps0 ++ l.

(** What the loop gives for the resolved components. *)
Definition loop_gives (r : option (option (list Z * Z))) (o : option (list (list Z))) : Prop :=
  match o with
  | None => r = Some None
  | Some ps => ∃ out post, r = Some (Some (out ++ post, zlen out)) ∧ post ≠ [] ∧ ends ps out
  end.

Lemma resolve_cons ps c cs : resolve ps (c :: cs) =
  if bool_decide (c = [DOT]) then resolve ps cs
  else if bool_decide (c = [DOT; DOT]) then match ps with [] => None | _ => resolve (removelast ps) cs end
  else resolve (ps ++ [c]) cs.
Proof. done. Qed.

(** Going up one component removes the last one. *)
Lemma up_one ps mid k : Forall no_slash ps → ps ≠ [] → (length (flat ps) < k)%nat →
  up_loop k (flat ps ++ mid) (zlen (flat ps) - 1) = Some (zlen (flat (removelast ps))) ∧ 0 < zlen (flat ps).
Proof.
  intros Hns Hne Hk. destruct ps as [|p ps _] using rev_ind; [done|]. rewrite removelast_last.
  apply Forall_app in Hns as [_ [Hp _]%Forall_cons]. rewrite flat_app, !length_app in Hk. cbn in Hk. split.
  - rewrite flat_app, <- !app_assoc. apply up_ok; [|done|lia]. rewrite !zlen_app. change (zlen [SLASH]) with 1. lia.
  - rewrite flat_app, !zlen_app. change (zlen [SLASH]) with 1.
    pose proof (zlen_nonneg (flat ps)). pose proof (zlen_nonneg p). lia.
Qed.

Lemma flat_prefix ps : ∃ post, flat ps = flat (removelast ps) ++ post.
Proof.
  destruct ps as [|p ps _] using rev_ind; [by exists []|]. rewrite removelast_last, flat_app. eauto.
Qed.
Lemma Forall_removelast {A} (P : A → Prop) l : Forall P l → Forall P (removelast l).
Proof. destruct l as [|a l _] using rev_ind; [done|]. rewrite removelast_last. by intros [? _]%Forall_app. Qed.

Lemma copy_end next comp ps mid src dst : src = zlen (flat ps) + zlen mid → dst = zlen (flat ps) →
  no_slash comp → chars_ok comp →
  ∃ post, post ≠ [] ∧ loop_copy next (flat ps ++ mid ++ comp ++ [0]) src dst =
    Some (Some ((flat ps ++ comp) ++ post, zlen (flat ps ++ comp))).
Proof.
  intros -> -> Hns Hok. unfold loop_copy.
  destruct (copy_ok comp (S (length (flat ps ++ mid ++ comp ++ [0]))) (flat ps) mid 0 []
    (zlen (flat ps) + zlen mid) (zlen (flat ps))) as (mid'&Hl&->); try done; [by left|rewrite !length_app; lia|].
  exists (mid' ++ [0]). split; [by destruct mid'|]. cbn. by rewrite zlen_app, <- !app_assoc.
Qed.

(** Where the next component starts, behind a slash and those that follow. *)
Lemma copy_slash next comp ps mid t src dst : src = zlen (flat ps) + zlen mid → dst = zlen (flat ps) →
  no_slash comp → chars_ok comp →
  ∃ mid', loop_copy next (flat ps ++ mid ++ comp ++ SLASH :: t ++ [0]) src dst =
    next (flat (ps ++ [comp]) ++ mid' ++ t ++ [0])
      (zlen (flat (ps ++ [comp])) + zlen mid' + zlen t - zlen (drop_slashes t)) (zlen (flat (ps ++ [comp]))).
Proof.
  intros -> -> Hns Hok. unfold loop_copy.
  destruct (copy_ok comp (S (length (flat ps ++ mid ++ comp ++ SLASH :: t ++ [0]))) (flat ps) mid SLASH (t ++ [0])
    (zlen (flat ps) + zlen mid) (zlen (flat ps))) as (mid'&Hl&->); try done; [by right|rewrite !length_app; lia|].
  cbn [mbind option_bind]. rewrite bool_decide_true by done.
  assert (∃ x mid1, mid' ++ [SLASH] = x :: mid1 ∧ zlen mid1 = zlen mid) as (x&mid1&E&Hl').
  { destruct mid' as [|x mid']; [by exists SLASH, []|]. exists x, (mid' ++ [SLASH]). split; [done|].
    rewrite <- Hl. unfold zlen. rewrite length_app. cbn. lia. }
  replace (flat ps ++ comp ++ mid' ++ SLASH :: t ++ [0]) with ((flat ps ++ comp) ++ x :: mid1 ++ t ++ [0])
    by (rewrite <- app_assoc, !app_comm_cons, <- E, <- !app_assoc; done).
  rewrite arr_set_at by (by rewrite zlen_app). cbn [mbind option_bind]. exists mid1.
  replace ((flat ps ++ comp) ++ SLASH :: mid1 ++ t ++ [0]) with ((flat (ps ++ [comp]) ++ mid1) ++ t ++ 0 :: [])
    by (rewrite flat_app, <- !app_assoc; done).
  rewrite skip_ok
    by (rewrite ?flat_app, ?zlen_app, ?length_app; cbn [length]; rewrite ?length_app; change (zlen [SLASH]) with 1; lia).
  cbn [mbind option_bind]. rewrite <- app_assoc. f_equal; rewrite flat_app, !zlen_app; change (zlen [SLASH]) with 1; lia.
Qed.

Lemma go_up next ps mid src dst : dst = zlen (flat ps) → Forall no_slash ps →
  loop_up next (flat ps ++ mid) src dst =
    match ps with
    | [] => Some None
    | _ => next (flat ps ++ mid) src (zlen (flat (removelast ps)))
    end.
Proof.
  intros -> Hps. unfold loop_up. destruct (decide (ps = [])) as [->|Hne]; [by rewrite bool_decide_true by (unfold zlen; cbn; lia)|].
  destruct (up_one ps mid (S (length (flat ps ++ mid)))) as [-> Hpos]; [done|done|rewrite length_app; lia|].
  rewrite bool_decide_false by lia. by destruct ps.
Qed.

Lemma loop_ok n : ∀ rest ps mid src dst,
  src = zlen (flat ps) + zlen mid → dst = zlen (flat ps) →
  (length rest < n)%nat → chars_ok rest → head rest ≠ Some SLASH → Forall no_slash ps →
  loop_gives (normalize_loop n (flat ps ++ mid ++ rest ++ [0]) src dst) (resolve ps (names rest)).
Proof.
  induction n as [|n IH]; intros rest ps mid src dst -> -> Hn Hok Hhd Hps; [lia|]. cbn [normalize_loop].
  destruct (first_component rest) as (comp&Hns&Hrest).
  (* the next component, behind the slashes *)
  assert (∀ ps' mid' t s, (length t < length rest)%nat → chars_ok t → Forall no_slash ps' →
    s = zlen (flat ps') + zlen mid' + zlen t - zlen (drop_slashes t) →
    loop_gives (normalize_loop n (flat ps' ++ mid' ++ t ++ [0]) s (zlen (flat ps'))) (resolve ps' (names t))) as Hnext.
  { intros ps' mid' t s Hlt Ht Hps' ->. destruct (drop_slashes_suffix t) as (sl&E&->).
    pose proof (drop_slashes_head t). revert E. generalize dependent (drop_slashes t). intros t' Hd ->.
    apply Forall_app in Ht as [_ Ht]. rewrite length_app in Hlt.
    replace (mid' ++ (sl ++ t') ++ [0]) with ((mid' ++ sl) ++ t' ++ [0]) by (by rewrite <- !app_assoc).
    apply IH; try done; [rewrite !zlen_app; lia|lia]. }
  assert (∀ mid' t s, (length t < length rest)%nat → chars_ok t →
    s = zlen (flat ps) + zlen mid' + zlen t - zlen (drop_slashes t) →
    loop_gives (loop_up (normalize_loop n) (flat ps ++ mid' ++ t ++ [0]) s (zlen (flat ps)))
      match ps with [] => None | _ => resolve (removelast ps) (names t) end) as Hup.
  { intros mid' t s Hlt Ht Hs. rewrite go_up by done. destruct (flat_prefix ps) as (post&Ep).
    destruct ps as [|p ps]; [done|]. revert Hs. set (q := removelast (p :: ps)) in *. rewrite Ep, zlen_app. intros Hs.
    rewrite <- app_assoc, (app_assoc post). apply Hnext; [done|done|by apply Forall_removelast|rewrite zlen_app; lia]. }
  rewrite app_assoc. destruct Hrest as [->|(t&->)].
  - (* the last component *)
    rewrite (look_ok (flat ps ++ mid) comp 0 []) by (rewrite ?zlen_app; auto). cbn [mbind option_bind]. unfold looked.
    rewrite !(bool_decide_true (0 = 0)) by done. rewrite <- app_assoc. case_bool_decide as Hd; [|case_bool_decide as Hdd].
    + subst comp. cbn [names]. destruct (copy_end (normalize_loop n) [] ps (mid ++ [DOT]) (zlen (flat ps) + zlen mid + 1)
        (zlen (flat ps))) as (post&Hp&R); [rewrite zlen_app; change (zlen [DOT]) with 1; lia|done|constructor|constructor|].
      replace (flat ps ++ mid ++ [DOT] ++ [0]) with (flat ps ++ (mid ++ [DOT]) ++ [] ++ [0]) by (by rewrite <- !app_assoc).
      rewrite R.
      exists (flat ps), post. rewrite app_nil_r. split_and!; [done|done|by left].
    + subst comp. rewrite (app_assoc mid). apply (Hup (mid ++ [DOT; DOT]) []); [cbn; lia|constructor|].
      rewrite zlen_app. change (zlen [DOT; DOT]) with 2. change (zlen (@nil Z)) with 0. change (zlen (drop_slashes [])) with 0. lia.
    + destruct (copy_end (normalize_loop n) comp ps mid (zlen (flat ps) + zlen mid) (zlen (flat ps))) as (post&Hp&->);
        [done..|]. destruct (decide (comp = [])) as [->|Hne].
      { exists (flat ps), post. rewrite app_nil_r. split_and!; [done|done|by left]. }
      rewrite names_comp, resolve_cons, !bool_decide_false by done. exists (flat ps ++ comp), post.
      split_and!; [done|done|]. right. by exists ps, comp.
  - apply Forall_app in Hok as [Hc [_ Ht]%Forall_cons]. rewrite length_app in Hnext, Hup. cbn [length] in Hnext, Hup.
    assert (comp ≠ []) as Hne by (intros ->; done). rewrite names_slash, resolve_cons by done.
    rewrite <- (app_assoc comp). cbn [app].
    rewrite (look_ok (flat ps ++ mid) comp SLASH (t ++ [0])) by (rewrite ?zlen_app; eauto). cbn [mbind option_bind].
    unfold looked. rewrite !(bool_decide_false (SLASH = 0)), removelast_last by done.
    case_bool_decide as Hd; [|case_bool_decide as Hdd].
    + replace ((flat ps ++ mid) ++ comp ++ SLASH :: t ++ [0]) with (flat ps ++ (mid ++ comp ++ [SLASH]) ++ t ++ [0])
        by (rewrite <- !app_assoc; done). apply Hnext; [lia|done|done|]. rewrite !zlen_app.
      change (zlen [SLASH]) with 1. change (zlen [0]) with 1. lia.
    + replace ((flat ps ++ mid) ++ comp ++ SLASH :: t ++ [0]) with (flat ps ++ (mid ++ comp ++ [SLASH]) ++ t ++ [0])
        by (rewrite <- !app_assoc; done). apply Hup; [lia|done|]. rewrite !zlen_app.
      change (zlen [SLASH]) with 1. change (zlen [0]) with 1. lia.
    + rewrite <- app_assoc. destruct (copy_slash (normalize_loop n) comp ps mid t (zlen (flat ps) + zlen mid) (zlen (flat ps)))
        as (mid'&->); [done..|]. apply Hnext; [lia|done| |done]. apply Forall_app. split; [done|by constructor].
Qed.

(** The rest of a path, with the slashes in front of it. *)
Lemma loop_next n ps mid t s : (length t < n)%nat → chars_ok t → Forall no_slash ps →
  s = zlen (flat ps) + zlen mid + zlen t - zlen (drop_slashes t) →
  loop_gives (normalize_loop n (flat ps ++ mid ++ t ++ [0]) s (zlen (flat ps))) (resolve ps (names t)).
Proof.
  intros Hlt Ht Hps ->. destruct (drop_slashes_suffix t) as (sl&E&->).
  pose proof (drop_slashes_head t). revert E. generalize dependent (drop_slashes t). intros t' Hd ->.
  apply Forall_app in Ht as [_ Ht]. rewrite length_app in Hlt.
  replace (mid ++ (sl ++ t') ++ [0]) with ((mid ++ sl) ++ t' ++ [0]) by (by rewrite <- !app_assoc).
  apply loop_ok; try done; [rewrite !zlen_app; lia|lia].
Qed.

Lemma loop_path n path : (length path < n)%nat → chars_ok path → path ≠ [] →
  loop_gives (normalize_loop (S n) (path ++ [0]) 0 0) (resolve [] (parts path)).
Proof.
  intros Hn Hok Hne. destruct path as [|c l]; [done|]. cbn [parts]. case_bool_decide as Hc.
  - subst c. inversion_clear Hok as [|? ? _ Hl]. cbn [normalize_loop length] in *.
    rewrite (look_ok [] [] SLASH (l ++ [0])) by (try constructor; eauto; right; eauto). cbn [mbind option_bind looked].
    destruct (copy_slash (normalize_loop n) [] [] [] l 0 0) as (mid'&R); [done|done|constructor|constructor|].
    cbn [app flat map concat] in *. change (looked [] SLASH 0 _) with (Copy 0). cbv iota beta.
    cbn [app]. rewrite R. change (resolve [] ([] :: names l)) with (resolve [[]] (names l)).
    apply (loop_next n [[]]); [lia|done|repeat constructor|done].
  - apply (loop_ok (S n) (c :: l) [] []); try done; [lia|by cbn; congruence].
Qed.

(** ** The components of the result *)

(** Components without slashes and nulls, of which only the first may be empty. *)
Definition tidy (ps : list (list Z)) : Prop :=
  Forall (λ p, no_slash p ∧ chars_ok p) ps ∧ Forall (λ p, p ≠ []) (tail ps).
(** None is a dot or two. *)
Definition plain_name (p : list Z) : Prop := p ≠ [DOT] ∧ p ≠ [DOT; DOT].

Lemma tidy_snoc ps p : tidy ps → no_slash p → chars_ok p → p ≠ [] → tidy (ps ++ [p]).
Proof.
  intros [H1 H2] Hp Hc Hne. split; [apply Forall_app; split; [done|by repeat constructor]|].
  destruct ps; [constructor|]. cbn. apply Forall_app. split; [done|by constructor].
Qed.
Lemma tidy_removelast ps : tidy ps → tidy (removelast ps).
Proof.
  intros [H1 H2]. split; [by apply Forall_removelast|]. destruct ps as [|p [|q ps]]; [done|done|].
  by apply Forall_removelast in H2.
Qed.

Definition proper_names (cs : list (list Z)) : Prop := Forall (λ p, no_slash p ∧ chars_ok p ∧ p ≠ []) cs.

Lemma resolve_tidy cs : ∀ ps ps', proper_names cs → tidy ps → Forall plain_name ps → resolve ps cs = Some ps' →
  tidy ps' ∧ Forall plain_name ps'.
Proof.
  induction cs as [|c cs IH]; intros ps ps' Hcs Ht Hp; [by intros [= <-]|]. rewrite resolve_cons.
  inversion_clear Hcs as [|? ? (Hs&Hc&Hne) Hcs']. case_bool_decide; [by apply IH|]. case_bool_decide.
  - intros E. assert (resolve (removelast ps) cs = Some ps') by (by destruct ps).
    eapply IH; [done|by apply tidy_removelast|by apply Forall_removelast|done].
  - apply IH; [done|by apply tidy_snoc|]. apply Forall_app. split; [done|]. by repeat constructor.
Qed.

Lemma split_proper l : chars_ok l → Forall (λ p, no_slash p ∧ chars_ok p) (split l).
Proof.
  induction 1 as [|c l Hc _ IH]; [repeat constructor|]. cbn. case_bool_decide; [constructor; [repeat constructor|done]|].
  destruct (split l) as [|p ps]; [repeat constructor; done|]. apply Forall_cons in IH as [[? ?] ?].
  repeat constructor; done.
Qed.
Lemma names_proper l : chars_ok l → proper_names (names l).
Proof.
  intros H%split_proper. unfold proper_names, names. rewrite Forall_forall in *. intros p [? ?]%list_elem_of_filter.
  destruct (H p); done.
Qed.

Lemma resolve_parts path ps : chars_ok path → resolve [] (parts path) = Some ps → tidy ps ∧ Forall plain_name ps.
Proof.
  intros Hok. destruct path as [|c l]; [cbn; intros [= <-]; by repeat constructor|]. cbn [parts]. case_bool_decide as Hc.
  - change (resolve [] ([] :: names l)) with (resolve [[]] (names l)). apply resolve_tidy.
    + apply names_proper. by inversion Hok.
    + repeat constructor.
    + by repeat constructor.
  - apply resolve_tidy; [by apply names_proper|by repeat constructor|constructor].
Qed.

(** ** The end of the buffer *)

Lemma join_last ps l : join (ps ++ [l]) = flat ps ++ l.
Proof.
  induction ps as [|p ps IH]; [done|]. transitivity (p ++ SLASH :: join (ps ++ [l])); [by destruct ps|].
  rewrite IH. unfold flat. cbn. by rewrite <- !app_assoc.
Qed.

Lemma flat_nil_inv ps : flat ps = [] → ps = [].
Proof. destruct ps as [|p ps _] using rev_ind; [done|]. rewrite flat_app. intros [_ [_ ?]%app_eq_nil]%app_eq_nil. done. Qed.

Lemma end_ok ps out post : tidy ps → ps ≠ [] → ends ps out → post ≠ [] →
  ∃ post', normalize_end (out ++ post) (zlen out) = Some (render ps ++ 0 :: post') ∧
    zlen (render ps ++ 0 :: post') = zlen (out ++ post).
Proof.
  intros Ht Hne He Hp. destruct post as [|x post]; [done|]. unfold normalize_end. rewrite arr_set_at by done.
  cbn [mbind option_bind]. unfold render. destruct He as [->|(ps0&l&->&Hl&Hns&->)].
  - destruct ps as [|l ps0 _] using rev_ind; [done|]. rewrite flat_app, join_last. case_bool_decide as Hd.
    + rewrite bool_decide_false by (intros E; apply (f_equal (flat)) in E; rewrite flat_app in E; by rewrite E in Hd).
      assert (zlen (flat ps0 ++ l ++ [SLASH]) - 1 = zlen (flat ps0 ++ l)) as ->
        by (rewrite !zlen_app; change (zlen [SLASH]) with 1; lia).
      rewrite (app_assoc (flat ps0)), <- (app_assoc _ [SLASH]). cbn [app].
      rewrite arr_get_at by done. cbn [mbind option_bind]. rewrite bool_decide_true by done. rewrite arr_set_at by done.
      exists (0 :: post). split; [done|]. unfold zlen. rewrite !length_app. cbn. rewrite ?length_app. lia.
    + assert (flat ps0 ++ l = []) as [Ef ->]%app_eq_nil.
      { assert (zlen (flat ps0 ++ l ++ [SLASH]) - 1 = 0) as Hz by lia. rewrite !zlen_app in Hz. change (zlen [SLASH]) with 1 in Hz.
        apply length_zero_iff_nil. rewrite length_app. unfold zlen in Hz. lia. }
      apply flat_nil_inv in Ef. subst ps0. rewrite bool_decide_true by done. exists post. split; [done|]. cbn. done.
  - rewrite (bool_decide_false (ps0 ++ [l] = [[]])), join_last by (intros E; apply (f_equal last) in E; rewrite last_snoc in E; cbn in E; congruence).
    exists post.
    split; [|by unfold zlen; rewrite !length_app]. destruct l as [|c l _] using rev_ind; [done|].
    apply Forall_app in Hns as [_ [Hc _]%Forall_cons]. case_bool_decide; [|done].
    rewrite app_assoc, <- (app_assoc _ [c]). cbn [app].
    rewrite arr_get_at by (rewrite zlen_app; change (zlen [c]) with 1; lia). cbn [mbind option_bind].
    by rewrite bool_decide_false.
Qed.

Lemma cstring_ok s post : chars_ok s → cstring (s ++ 0 :: post) = Some s.
Proof. induction 1 as [|c s Hc _ IH]; [done|]. cbn. by rewrite bool_decide_false, IH. Qed.

Lemma render_chars ps : tidy ps → chars_ok (render ps).
Proof.
  intros [H _]. unfold render. case_bool_decide; [by repeat constructor|].
  destruct ps as [|l ps _] using rev_ind; [constructor|]. rewrite join_last. apply Forall_app in H as [H [[_ Hl] _]%Forall_cons].
  apply Forall_app. split; [|done]. unfold flat. apply Forall_concat, Forall_fmap. eapply Forall_impl; [exact H|].
  intros p [_ Hp]. apply Forall_app. split; [done|by repeat constructor].
Qed.

(** The rewriting of the buffer of a path. *)
Lemma normalize_ok path : chars_ok path → path ≠ [] →
  match resolve [] (parts path) with
  | None => normalize_buffer (path ++ [0]) = Some None
  | Some [] => normalize_buffer (path ++ [0]) = None
  | Some ps => ∃ buf, normalize_buffer (path ++ [0]) = Some (Some buf) ∧ cstring buf = Some (render ps)
  end.
Proof.
  intros Hok Hne. unfold normalize_buffer. rewrite length_app. cbn [length]. rewrite Nat.add_1_r.
  pose proof (loop_path (S (length path)) path ltac:(lia) Hok Hne) as H. unfold loop_gives in H.
  destruct (resolve [] (parts path)) as [ps|] eqn:E; [|by rewrite H]. destruct H as (out&post&->&Hp&He).
  apply resolve_parts in E as [Ht _]; [|done]. cbn [mbind option_bind]. destruct ps as [|p ps].
  - destruct He as [->|(ps0&l&E'&_)]; [|by destruct ps0]. destruct post; done.
  - destruct (end_ok (p :: ps) out post) as (post'&->&_); [done..|]. cbn [mbind option_bind].
    eexists. split; [done|]. apply cstring_ok, render_chars, Ht.
Qed.

(** ** Absolute paths *)

(** The path of the names [ns] below the root. *)
Definition absolute (ns : list (list Z)) : list Z := SLASH :: join ns.

Lemma render_absolute ns : render ([] :: ns) = absolute ns.
Proof. unfold render, absolute. by destruct ns. Qed.

(** The empty component of the root stays at the bottom. *)
Lemma resolve_root cs : ∀ p ns ns', resolve ns cs = Some ns' → resolve (p :: ns) cs = Some (p :: ns').
Proof.
  induction cs as [|c cs IH]; intros p ns ns'; [by intros [= ->]|]. rewrite !resolve_cons. case_bool_decide; [apply IH|].
  case_bool_decide; [|apply (IH p (ns ++ [c]))]. destruct ns as [|n ns]; [done|].
  change (removelast (p :: n :: ns)) with (p :: removelast (n :: ns)). apply IH.
Qed.

(** A path that goes above the root loses it. *)
Lemma resolve_above cs : ∀ ns ps, proper_names cs → Forall (λ p, p ≠ []) ns → resolve ns cs = None →
  resolve ([] :: ns) cs = Some ps → Forall (λ p, p ≠ []) ps.
Proof.
  assert (∀ cs ns ps, proper_names cs → Forall (λ p, p ≠ []) ns → resolve ns cs = Some ps → Forall (λ p, p ≠ []) ps) as Hs.
  { clear cs. induction cs as [|c cs IH]; intros ns ps Hcs Hn; [by intros [= <-]|]. rewrite resolve_cons.
    inversion_clear Hcs as [|? ? (_&_&Hne) Hcs']. case_bool_decide; [by apply IH|]. case_bool_decide.
    - intros E. eapply (IH (removelast ns)); [done|by apply Forall_removelast|by destruct ns].
    - apply IH; [done|]. apply Forall_app. split; [done|by constructor]. }
  induction cs as [|c cs IH]; intros ns ps Hcs Hn; [done|]. rewrite !resolve_cons.
  inversion_clear Hcs as [|? ? (_&_&Hne) Hcs']. case_bool_decide; [by apply IH|]. case_bool_decide.
  - destruct ns as [|n ns]; [intros _; by apply Hs|]. change (removelast ([] :: n :: ns)) with ([] :: removelast (n :: ns)).
    apply IH; [done|by apply Forall_removelast].
  - apply (IH (ns ++ [c])); [done|]. apply Forall_app. split; [done|by constructor].
Qed.

Lemma names_join ns : Forall (λ p, no_slash p ∧ p ≠ []) ns → names (join ns) = ns.
Proof.
  induction ns as [|n ns IH]; [done|]. intros [[Hn Hne] Hns]%Forall_cons. destruct ns as [|m ns].
  - by apply names_comp.
  - change (join (n :: m :: ns)) with (n ++ SLASH :: join (m :: ns)). rewrite names_slash by done. by rewrite IH.
Qed.

Lemma resolve_plain ns : ∀ ps, Forall plain_name ns → resolve ps ns = Some (ps ++ ns).
Proof.
  induction ns as [|n ns IH]; intros ps H; [by rewrite app_nil_r|]. inversion_clear H as [|? ? [? ?] ?].
  rewrite resolve_cons, !bool_decide_false by done. rewrite IH by done. by rewrite <- app_assoc.
Qed.

(** A canonical path is one of plain names. *)
Definition canonical (ns : list (list Z)) : Prop :=
  Forall (λ p, no_slash p ∧ chars_ok p ∧ p ≠ [] ∧ plain_name p) ns.

Lemma resolve_canonical l ns : chars_ok l → resolve [] (names l) = Some ns → canonical ns.
Proof.
  intros Hl E. pose proof (resolve_root _ [] _ _ E) as E'.
  destruct (resolve_parts (SLASH :: l) ([] :: ns)) as [[H1 H2] H3]; [by constructor|done|].
  apply Forall_cons in H1 as [_ H1], H3 as [_ H3]. cbn in H2. unfold canonical.
  rewrite !Forall_forall in *. intros p Hp. specialize (H1 p Hp) as [? ?]. split_and!; [done|done|by apply H2|by apply H3].
Qed.

Lemma canonical_fixed ns : canonical ns → parts (absolute ns) = [] :: ns ∧ resolve [] (names (join ns)) = Some ns ∧
  chars_ok (absolute ns).
Proof.
  intros H. assert (Forall (λ p, no_slash p ∧ p ≠ []) ns) as H1 by (eapply Forall_impl; [exact H|]; cbv beta; tauto).
  assert (Forall plain_name ns) as H2 by (eapply Forall_impl; [exact H|]; cbv beta; tauto).
  unfold absolute. cbn [parts]. rewrite bool_decide_true, names_join by done. split_and!; [done|by rewrite resolve_plain|].
  change (SLASH :: join ns) with (absolute ns). rewrite <- render_absolute. apply render_chars. split.
  - constructor; [by repeat constructor|]. eapply Forall_impl; [exact H|]. cbv beta. tauto.
  - cbn. eapply Forall_impl; [exact H|]. cbv beta. tauto.
Qed.
