(* ===== verification/Dfs.v ===== *)
(** * Device file systems: descriptors and mounted file systems

    components/dfs/src/dfs.c and dfs_fs.c.  The file systems themselves and the
    devices below them are the parameter [FileEnv]: each operation of a file system
    is a function on the world [W] in which these keep their data, and may change the
    size, the position and the data of the descriptor it is given.  Paths that the
    code allocates are blocks of the heap, so that every block is seen to be freed.
    The lock of the file systems is counted; how a thread waits for it is the business
    of the mutex. *)

From stdpp Require Import gmap.
From S2P Require Import Prelude DfsPath.

(** ** Constants *)

Definition DFS_FILESYSTEM_TYPES_MAX : nat := 4.
Definition DFS_FILESYSTEMS_MAX : nat := 2.
Definition DFS_FD_MAX : nat := 4.
Definition DFS_FD_MAGIC : Z := 0xfdfd.

Definition DFS_STATUS_ENOENT : Z := 2.
Definition DFS_STATUS_EBADF : Z := 9.
Definition DFS_STATUS_ENOMEM : Z := 12.
Definition DFS_STATUS_EBUSY : Z := 16.
Definition DFS_STATUS_EXDEV : Z := 18.
Definition DFS_STATUS_ENODEV : Z := 19.
Definition DFS_STATUS_ENOTDIR : Z := 20.
Definition DFS_STATUS_EINVAL : Z := 22.
Definition DFS_STATUS_ENOSPC : Z := 28.
Definition DFS_STATUS_ENOSYS : Z := 38.

Definition RT_DEVICE_OFLAG_RDWR : Z := 3.

(** ** Data *)

(** [struct dfs_fd]; [fd_path] is the address of a string, [fd_fs] an index into the
    table of file systems. *)
Record dfs_fd : Type := Fd {
  fd_magic : Z; fd_type : Z; fd_path : Z; fd_ref_count : Z; fd_fs : option nat;
  fd_flags : Z; fd_size : Z; fd_pos : Z; fd_data : Z;
}.
Definition fd_zero : dfs_fd := Fd 0 0 0 0 None 0 0 0 0.
Definition set_fd_path v d := Fd (fd_magic d) (fd_type d) v (fd_ref_count d) (fd_fs d) (fd_flags d) (fd_size d) (fd_pos d) (fd_data d).
Definition set_fd_ref v d := Fd (fd_magic d) (fd_type d) (fd_path d) v (fd_fs d) (fd_flags d) (fd_size d) (fd_pos d) (fd_data d).
Definition set_fd_type v d := Fd (fd_magic d) v (fd_path d) (fd_ref_count d) (fd_fs d) (fd_flags d) (fd_size d) (fd_pos d) (fd_data d).
Definition set_fd_flags v d := Fd (fd_magic d) (fd_type d) (fd_path d) (fd_ref_count d) (fd_fs d) v (fd_size d) (fd_pos d) (fd_data d).
Definition set_fd_pos v d := Fd (fd_magic d) (fd_type d) (fd_path d) (fd_ref_count d) (fd_fs d) (fd_flags d) (fd_size d) v (fd_data d).

(** [struct dfs_filesystem]; [fs_ops] is the address of the operations. *)
Record dfs_filesystem : Type := Filesystem { fs_dev_id : Z; fs_path : Z; fs_ops : Z; fs_data : Z }.
Definition fs_zero : dfs_filesystem := Filesystem 0 0 0 0.

(** [struct stat] and [struct statfs]. *)
Record file_stat : Type := Stat { st_dev : Z; st_mode : Z; st_size : Z; st_mtime : Z }.
Record fs_stat : Type := StatFs { f_bsize : Z; f_blocks : Z; f_bfree : Z }.

(** What a file system sees of a descriptor, and what it may change. *)
Record file : Type := File { f_fs : nat; f_path : list Z; f_flags : Z; f_size : Z; f_pos : Z; f_data : Z }.

(** [struct dfs_filesystem_operation]: a missing operation is [None]. *)
Record dfs_filesystem_operation (W : Type) : Type := FsOps {
  op_name : list Z;
  op_flags : Z;
  op_mount : option (nat → Z → Z → W → Z * Z * W);
  op_unmount : option (nat → W → Z * W);
  op_mkfs : option (Z → W → Z * W);
  op_statfs : option (nat → W → Z * fs_stat * W);
  op_open : option (file → W → Z * file * W);
  op_close : option (file → W → Z * file * W);
  op_ioctl : option (Z → Z → file → W → Z * file * W);
  op_read : option (Z → file → W → Z * list Z * file * W);
  op_write : option (list Z → file → W → Z * file * W);
  op_flush : option (file → W → Z * file * W);
  op_lseek : option (Z → file → W → Z * file * W);
  op_getdents : option (Z → file → W → Z * list Z * file * W);
  op_unlink : option (nat → list Z → W → Z * W);
  op_stat : option (nat → list Z → W → Z * file_stat * W);
  op_rename : option (nat → list Z → list Z → W → Z * W);
}.
#[global] Arguments op_name {_}. #[global] Arguments op_flags {_}. #[global] Arguments op_mount {_}.
#[global] Arguments op_unmount {_}. #[global] Arguments op_mkfs {_}. #[global] Arguments op_statfs {_}.
#[global] Arguments op_open {_}. #[global] Arguments op_close {_}. #[global] Arguments op_ioctl {_}.
#[global] Arguments op_read {_}. #[global] Arguments op_write {_}. #[global] Arguments op_flush {_}.
#[global] Arguments op_lseek {_}. #[global] Arguments op_getdents {_}. #[global] Arguments op_unlink {_}.
#[global] Arguments op_stat {_}. #[global] Arguments op_rename {_}.

(** What the code uses: the operations of a file system at an address, the devices,
    and the address that the heap gives for a block of some size, or 0 where it refuses
    it, which may depend on the blocks in use and on all that the rest of the world did. *)
Class FileEnv (W : Type) : Type := {
  fs_operation : Z → option (dfs_filesystem_operation W);
  device_find : list Z → W → Z;
  device_open : Z → Z → W → Z * W;
  device_close : Z → W → Z * W;
  heap_address : W → gmap Z (list Z) → Z → Z;
}.

(** [DIR]: an open directory. *)
Record DIR : Type := Dir { dir_fd : Z; dir_buf : list Z; dir_num : Z; dir_cur : Z }.
Definition DIR_SIZE : Z := 524.

Section dfs.
Context {W : Type} `{!FileEnv W}.

(** [working_directory] is [None] where DFS_USING_WORKDIR is not configured;
    [local_fd] is the descriptor on the stack of [dfs_mount]. *)
Record dfs : Type := Dfs {
  world : W;
  filesystem_operation_table : list Z;
  filesystem_table : list dfs_filesystem;
  fd_table : list dfs_fd;
  local_fd : dfs_fd;
  blocks : gmap Z (list Z);
  dirs : gmap Z DIR;
  fslock : Z;
  errno : Z;
  working_directory : option (list Z);
}.
Definition set_world v s := Dfs v (filesystem_operation_table s) (filesystem_table s) (fd_table s) (local_fd s) (blocks s) (dirs s) (fslock s) (errno s) (working_directory s).
Definition set_types v s := Dfs (world s) v (filesystem_table s) (fd_table s) (local_fd s) (blocks s) (dirs s) (fslock s) (errno s) (working_directory s).
Definition set_systems v s := Dfs (world s) (filesystem_operation_table s) v (fd_table s) (local_fd s) (blocks s) (dirs s) (fslock s) (errno s) (working_directory s).
Definition set_fds v s := Dfs (world s) (filesystem_operation_table s) (filesystem_table s) v (local_fd s) (blocks s) (dirs s) (fslock s) (errno s) (working_directory s).
Definition set_local v s := Dfs (world s) (filesystem_operation_table s) (filesystem_table s) (fd_table s) v (blocks s) (dirs s) (fslock s) (errno s) (working_directory s).
Definition set_blocks v s := Dfs (world s) (filesystem_operation_table s) (filesystem_table s) (fd_table s) (local_fd s) v (dirs s) (fslock s) (errno s) (working_directory s).
Definition set_dirs v s := Dfs (world s) (filesystem_operation_table s) (filesystem_table s) (fd_table s) (local_fd s) (blocks s) v (fslock s) (errno s) (working_directory s).
Definition set_fslock v s := Dfs (world s) (filesystem_operation_table s) (filesystem_table s) (fd_table s) (local_fd s) (blocks s) (dirs s) v (errno s) (working_directory s).
Definition set_errno v s := Dfs (world s) (filesystem_operation_table s) (filesystem_table s) (fd_table s) (local_fd s) (blocks s) (dirs s) (fslock s) v (working_directory s).
Definition set_workdir v s := Dfs (world s) (filesystem_operation_table s) (filesystem_table s) (fd_table s) (local_fd s) (blocks s) (dirs s) (fslock s) (errno s) v.

(** A state monad; [None] is a failed assertion, a null or dangling pointer or an
    access outside an array. *)
Definition D (A : Type) : Type := dfs → option (A * dfs).

#[global] Instance D_ret : MRet D := λ A a s, Some (a, s).
#[global] Instance D_bind : MBind D := λ A B f c s,
  match c s with Some (a, s) => f a s | None => None end.

Definition dfail {A} : D A := λ _, None.
Definition dget {A} (f : dfs → A) : D A := λ s, Some (f s, s).
Definition dset (f : dfs → dfs) : D unit := λ s, Some (tt, f s).
Definition dlift {A} (o : option A) : D A := λ s,
  match o with Some a => Some (a, s) | None => None end.

(** [rt_set_errno]. *)
Definition dfs_set_errno (e : Z) : D unit := dset (set_errno e).

(** ** Memory *)

(** A block that holds [content]. *)
Definition new_block (content : list Z) : D Z :=
  w ← dget world;
  b ← dget blocks;
  let p := heap_address w b (zlen content) in
  if bool_decide (p = 0) then mret 0
  else dset (set_blocks (<[p := content]> b));; mret p.
Definition block_strdup (s : list Z) : D Z := new_block (s ++ [0]).
Definition free_block (p : Z) : D unit :=
  if bool_decide (p = 0) then mret tt
  else
    b ← dget blocks;
    match b !! p with
    | Some _ => dset (set_blocks (delete p b))
    | None => dfail
    end.
(** The string at [p]. *)
Definition string_at (p : Z) : D (list Z) :=
  b ← dget blocks; c ← dlift (b !! p); dlift (cstring c).

(** ** dfs.c *)

Definition dfs_lock : D unit := n ← dget fslock; dset (set_fslock (n + 1)).
Definition dfs_unlock : D unit := n ← dget fslock; dset (set_fslock (if bool_decide (n = 0) then 0 else n - 1)).

Definition dfs_init : D unit :=
  dset (set_types (replicate DFS_FILESYSTEM_TYPES_MAX 0));;
  dset (set_systems (replicate DFS_FILESYSTEMS_MAX fs_zero));;
  dset (set_fds (replicate DFS_FD_MAX fd_zero));;
  dset (set_fslock 0);;
  w ← dget working_directory;
  match w with Some _ => dset (set_workdir (Some [SLASH])) | None => mret tt end.

(** A pointer to a descriptor: one of the table, or the one on the stack. *)
Inductive fdp : Type := Entry (i : nat) | Local.

Definition get_fd (p : fdp) : D dfs_fd :=
  match p with
  | Entry i => t ← dget fd_table; dlift (t !! i)
  | Local => dget local_fd
  end.
Definition put_fd (p : fdp) (d : dfs_fd) : D unit :=
  match p with
  | Entry i => t ← dget fd_table; dset (set_fds (<[i := d]> t))
  | Local => dset (set_local d)
  end.

(** The first entry that is not referred to. *)
Fixpoint free_entry (t : list dfs_fd) (i : nat) : option nat :=
  match t with
  | [] => None
  | d :: t => if bool_decide (fd_ref_count d > 0) then free_entry t (S i) else Some i
  end.

Definition fd_new : D Z :=
  dfs_lock;;
  t ← dget fd_table;
  idx ← match free_entry t 0 with
        | None => mret (-1)
        | Some i =>
            d ← get_fd (Entry i);
            put_fd (Entry i) (Fd DFS_FD_MAGIC (fd_type d) (fd_path d) 1 (fd_fs d) (fd_flags d) (fd_size d) (fd_pos d) (fd_data d));;
            mret (Z.of_nat i)
        end;
  dfs_unlock;;
  mret idx.

Definition fd_get (fd : Z) : D (option fdp) :=
  if bool_decide (fd < 0 ∨ Z.of_nat DFS_FD_MAX <= fd) then mret None
  else
    dfs_lock;;
    let p := Entry (Z.to_nat fd) in
    d ← get_fd p;
    if bool_decide (fd_magic d ≠ DFS_FD_MAGIC) then dfs_unlock;; mret None
    else put_fd p (set_fd_ref (fd_ref_count d + 1) d);; dfs_unlock;; mret (Some p).

Definition fd_put (p : fdp) : D unit :=
  dfs_lock;;
  d ← get_fd p;
  let d := set_fd_ref (fd_ref_count d - 1) d in
  put_fd p (if bool_decide (fd_ref_count d = 0) then fd_zero else d);;
  dfs_unlock.

(** The path made absolute and rewritten in its block; 0 when it goes above its
    start, when there is no directory to start from, or no memory. *)
Definition dfs_normalize_path (directory : option (list Z)) (filename : list Z) : D Z :=
  wd ← dget working_directory;
  let directory := match directory with Some _ => directory | None => wd end in
  fullpath ← (if bool_decide (head filename ≠ Some SLASH) then
                match directory with
                | Some d => new_block (d ++ SLASH :: filename ++ [0])
                | None => mret 0
                end
              else block_strdup filename);
  if bool_decide (fullpath = 0) then mret 0
  else
    b ← dget blocks;
    buf ← dlift (b !! fullpath);
    r ← dlift (normalize_buffer buf);
    match r with
    | None => free_block fullpath;; mret 0
    | Some buf => dset (set_blocks (<[fullpath := buf]> b));; mret fullpath
    end.

(** ** dfs_fs.c *)

(** The search for the longest path of a mounted file system. *)
Fixpoint lookup_loop (path : list Z) (t : list dfs_filesystem) (i : nat) (fs : option nat) (prefixlen : nat) :
    D (option nat) :=
  match t with
  | [] => mret fs
  | iter :: t =>
      if bool_decide (fs_path iter = 0 ∨ fs_ops iter = 0) then lookup_loop path t (S i) fs prefixlen
      else
        p ← string_at (fs_path iter);
        let fspath := length p in
        if bool_decide ((fspath < prefixlen)%nat ∨ take fspath path ≠ p) then lookup_loop path t (S i) fs prefixlen
        else if bool_decide ((1 < fspath < length path)%nat ∧ path !! fspath ≠ Some SLASH)
        then lookup_loop path t (S i) fs prefixlen
        else lookup_loop path t (S i) (Some i) fspath
  end.

Definition dfs_filesystem_lookup (path : list Z) : D (option nat) :=
  dfs_lock;;
  t ← dget filesystem_table;
  fs ← lookup_loop path t 0 None 0;
  dfs_unlock;;
  mret fs.

Definition get_fs (i : nat) : D dfs_filesystem := t ← dget filesystem_table; dlift (t !! i).
Definition put_fs (i : nat) (f : dfs_filesystem) : D unit :=
  t ← dget filesystem_table; dset (set_systems (<[i := f]> t)).
(** [fs->ops], which is looked into. *)
Definition ops_of (i : nat) : D (dfs_filesystem_operation W) := f ← get_fs i; dlift (fs_operation (fs_ops f)).

(** The loop of [fd_is_open]. *)
Fixpoint open_loop (t : list dfs_fd) (fs : nat) (mountpath : list Z) : D bool :=
  match t with
  | [] => mret false
  | d :: t =>
      if bool_decide (fd_fs d = None) then open_loop t fs mountpath
      else if bool_decide (fd_fs d = Some fs) then
        p ← string_at (fd_path d);
        if bool_decide (p = mountpath) then mret true else open_loop t fs mountpath
      else open_loop t fs mountpath
  end.

Definition fd_is_open (pathname : list Z) : D Z :=
  fullpath ← dfs_normalize_path None pathname;
  if bool_decide (fullpath = 0) then mret (-1)
  else
    s ← string_at fullpath;
    fs ← dfs_filesystem_lookup s;
    match fs with
    | None => free_block fullpath;; mret (-1)
    | Some fs =>
        f ← get_fs fs;
        p ← string_at (fs_path f);
        let mountpath := if bool_decide (p = [SLASH]) then s else drop (length p) s in
        dfs_lock;;
        t ← dget fd_table;
        found ← open_loop t fs mountpath;
        free_block fullpath;; dfs_unlock;;
        mret (if (found : bool) then 0 else -1)
    end.

(** [dfs_register]: the table with the new entry, or [None] for a name that is there. *)
Fixpoint register_loop (t : list Z) (i : nat) (empty : option nat) (name : list Z) : D (option (option nat)) :=
  match t with
  | [] => mret (Some empty)
  | iter :: t =>
      if bool_decide (iter = 0) then
        register_loop t (S i) (match empty with None => Some i | Some _ => empty end) name
      else
        o ← dlift (fs_operation iter);
        if bool_decide (op_name o = name) then mret None else register_loop t (S i) empty name
  end.

Definition dfs_register (ops : Z) : D Z :=
  dfs_lock;;
  o ← dlift (fs_operation ops);
  t ← dget filesystem_operation_table;
  r ← register_loop t 0 None (op_name o);
  ret ← match r with
        | None => mret (-1)
        | Some None => mret 0
        | Some (Some i) => dset (set_types (<[i := ops]> t));; mret 0
        end;
  dfs_unlock;;
  mret ret.

(** The address of the path of the first file system on the device. *)
Fixpoint mounted_path_loop (t : list dfs_filesystem) (device : Z) : Z :=
  match t with
  | [] => 0
  | iter :: t =>
      if bool_decide (fs_ops iter = 0) then mounted_path_loop t device
      else if bool_decide (fs_dev_id iter = device) then fs_path iter else mounted_path_loop t device
  end.
Definition dfs_filesystem_get_mounted_path (device : Z) : D Z :=
  dfs_lock;; t ← dget filesystem_table; dfs_unlock;; mret (mounted_path_loop t device).

(** A little-endian word of the partition table, as a C [int]. *)
Definition word_at (buf : list Z) (a : Z) : option Z :=
  b0 ← arr_get a buf; b1 ← arr_get (a + 1) buf; b2 ← arr_get (a + 2) buf; b3 ← arr_get (a + 3) buf;
  Some (s32 (Z.lor (Z.lor (Z.lor b0 (Z.shiftl b1 8)) (Z.shiftl b2 16)) (Z.shiftl b3 24))).

(** The type, the offset and the size of a partition, or an error. *)
Definition dfs_filesystem_get_partition (buf : list Z) (pindex : Z) : option (option (Z * Z * Z)) :=
  let dpt := 0x1be + pindex * 16 in
  flag ← arr_get dpt buf;
  if bool_decide (flag ≠ 0x80 ∧ flag ≠ 0) then Some None
  else
    type ← arr_get (dpt + 4) buf;
    if bool_decide (type = 0) then Some None
    else
      offset ← word_at buf (dpt + 8);
      size ← word_at buf (dpt + 12);
      Some (Some (type, offset, u32 size)).

End dfs.
#[global] Arguments dfs : clear implicits.
#[global] Arguments D : clear implicits.
