(* ===== verification/DfsFile.v ===== *)
(** * Device file systems: files and mounting

    components/dfs/src/dfs_file.c, without its commands, and the functions of
    dfs_fs.c that use it. *)

From stdpp Require Import gmap.
From S2P Require Import Prelude DfsPath Dfs.

Definition DFS_FS_FLAG_FULLPATH : Z := 1.
Definition DFS_O_RDONLY : Z := 0.
Definition DFS_O_CREAT : Z := 0x100.
Definition DFS_O_DIRECTORY : Z := 0x200000.
Definition DFS_F_OPEN : Z := 0x01000000.
Definition DFS_F_DIRECTORY : Z := 0x02000000.
Definition DFS_F_EOF : Z := 0x04000000.
Definition FT_REGULAR : Z := 0.
Definition FT_DIRECTORY : Z := 2.
Definition DFS_S_IFREG : Z := 0x8000.
Definition DFS_S_IFDIR : Z := 0x4000.
(** Reading and writing for all, and searching for all: octal 0666 and 0111. *)
Definition MODE_RW : Z := 0x1b6.
Definition MODE_X : Z := 0x49.

Section file.
Context {W : Type} `{!FileEnv W}.
#[local] Abbreviation D := (D W).

(** ** Calling a file system *)

Definition file_of (d : dfs_fd) : D file :=
  p ← string_at (fd_path d);
  fs ← dlift (fd_fs d);
  mret (File fs p (fd_flags d) (fd_size d) (fd_pos d) (fd_data d)).

(** The operation [op] on the descriptor at [p]. *)
Definition call_file {A} (p : fdp) (op : file → W → A * file * W) : D A :=
  d ← get_fd p;
  f ← file_of d;
  w ← dget world;
  let '(a, f, w) := op f w in
  dset (set_world w);;
  put_fd p (Fd (fd_magic d) (fd_type d) (fd_path d) (fd_ref_count d) (fd_fs d) (fd_flags d) (f_size f) (f_pos f) (f_data f));;
  mret a.

Definition call_world {A} (op : W → A * W) : D A :=
  w ← dget world; let '(a, w) := op w in dset (set_world w);; mret a.

(** The operations of the file system of the descriptor. *)
Definition fd_ops (p : fdp) : D (dfs_filesystem_operation W) :=
  d ← get_fd p; fs ← dlift (fd_fs d); ops_of fs.

Definition full_path (o : dfs_filesystem_operation W) : bool :=
  bool_decide (Z.land (op_flags o) DFS_FS_FLAG_FULLPATH ≠ 0).

(** ** dfs_file.c *)

(** The error path of [dfs_file_open]. *)
Definition open_fails (p : fdp) (result : Z) : D Z :=
  d ← get_fd p;
  free_block (fd_path d);;
  put_fd p (set_fd_path 0 d);;
  mret result.

(** The path for the file system: the full one, or a copy of what is below its
    mount point. *)
Definition open_path (p : fdp) (o : dfs_filesystem_operation W) (fs : nat) (fullpath : Z) (s : list Z) : D unit :=
  d ← get_fd p;
  if full_path o then put_fd p (set_fd_path fullpath d)
  else
    f ← get_fs fs;
    mp ← string_at (fs_path f);
    sub ← dlift (dfs_subdir mp s);
    q ← block_strdup (match sub with None => [SLASH] | Some sub => sub end);
    put_fd p (set_fd_path q d);;
    free_block fullpath.

(** The file system opens the file. *)
Definition open_call (p : fdp) (o : dfs_filesystem_operation W) (flags : Z) : D Z :=
  match op_open o with
  | None => open_fails p (- DFS_STATUS_ENOSYS)
  | Some op =>
      result ← call_file p op;
      if bool_decide (result < 0) then open_fails p result
      else
        d ← get_fd p;
        (let d := set_fd_flags (Z.lor (fd_flags d) DFS_F_OPEN) d in
         put_fd p (if bool_decide (Z.land flags DFS_O_DIRECTORY ≠ 0)
                   then set_fd_type FT_DIRECTORY (set_fd_flags (Z.lor (fd_flags d) DFS_F_DIRECTORY) d)
                   else d));;
        mret 0
  end.

Definition dfs_file_open (fd : option fdp) (path : list Z) (flags : Z) : D Z :=
  match fd with
  | None => mret (- DFS_STATUS_EINVAL)
  | Some p =>
      fullpath ← dfs_normalize_path None path;
      if bool_decide (fullpath = 0) then mret (-1)
      else
        s ← string_at fullpath;
        fs ← dfs_filesystem_lookup s;
        match fs with
        | None => free_block fullpath;; mret (- DFS_STATUS_ENOENT)
        | Some fs =>
            d ← get_fd p;
            put_fd p (Fd (fd_magic d) FT_REGULAR (fd_path d) (fd_ref_count d) (Some fs) flags 0 0 (fd_data d));;
            o ← ops_of fs;
            open_path p o fs fullpath s;;
            open_call p o flags
        end
  end.

(** Of a null pointer the path is looked at in any case. *)
Definition dfs_file_close (fd : option fdp) : D Z :=
  match fd with
  | None => dfail
  | Some p =>
      o ← fd_ops p;
      result ← match op_close o with Some op => call_file p op | None => mret 0 end;
      if bool_decide (result < 0) then mret result
      else
        d ← get_fd p;
        free_block (fd_path d);;
        put_fd p (set_fd_path 0 d);;
        mret result
  end.

Definition dfs_file_ioctl (fd : option fdp) (cmd args : Z) : D Z :=
  match fd with
  | None => mret (- DFS_STATUS_EINVAL)
  | Some p =>
      d ← get_fd p;
      if bool_decide (fd_type d ≠ FT_REGULAR) then mret (- DFS_STATUS_EINVAL)
      else
        o ← fd_ops p;
        match op_ioctl o with
        | Some op => call_file p (op cmd args)
        | None => mret (- DFS_STATUS_ENOSYS)
        end
  end.

(** Returns the data too. *)
Definition dfs_file_read (fd : option fdp) (len : Z) : D (Z * list Z) :=
  match fd with
  | None => mret (- DFS_STATUS_EINVAL, [])
  | Some p =>
      o ← fd_ops p;
      match op_read o with
      | None => mret (- DFS_STATUS_ENOSYS, [])
      | Some op =>
          '(result, data) ← call_file p (op len);
          (if bool_decide (result < 0) then d ← get_fd p; put_fd p (set_fd_flags (Z.lor (fd_flags d) DFS_F_EOF) d)
           else mret tt);;
          mret (result, data)
      end
  end.

Definition dfs_file_getdents (fd : option fdp) (nbytes : Z) : D (Z * list Z) :=
  match fd with
  | None => mret (- DFS_STATUS_EINVAL, [])
  | Some p =>
      d ← get_fd p;
      if bool_decide (fd_type d ≠ FT_DIRECTORY) then mret (- DFS_STATUS_EINVAL, [])
      else
        o ← fd_ops p;
        match op_getdents o with
        | Some op => call_file p (op nbytes)
        | None => mret (- DFS_STATUS_ENOSYS, [])
        end
  end.

Definition dfs_file_write (fd : option fdp) (data : list Z) : D Z :=
  match fd with
  | None => mret (- DFS_STATUS_EINVAL)
  | Some p =>
      o ← fd_ops p;
      match op_write o with Some op => call_file p (op data) | None => mret (- DFS_STATUS_ENOSYS) end
  end.

Definition dfs_file_flush (fd : option fdp) : D Z :=
  match fd with
  | None => mret (- DFS_STATUS_EINVAL)
  | Some p =>
      o ← fd_ops p;
      match op_flush o with Some op => call_file p op | None => mret (- DFS_STATUS_ENOSYS) end
  end.

(** The file system of the descriptor is read before the pointer is tested. *)
Definition dfs_file_lseek (fd : option fdp) (offset : Z) : D Z :=
  match fd with
  | None => dfail
  | Some p =>
      d ← get_fd p;
      match fd_fs d with
      | None => mret (- DFS_STATUS_EINVAL)
      | Some fs =>
          o ← ops_of fs;
          match op_lseek o with
          | None => mret (- DFS_STATUS_ENOSYS)
          | Some op =>
              result ← call_file p (op offset);
              (if bool_decide (0 <= result) then d ← get_fd p; put_fd p (set_fd_pos result d) else mret tt);;
              mret result
          end
      end
  end.

Definition dfs_file_unlink (path : list Z) : D Z :=
  fullpath ← dfs_normalize_path None path;
  if bool_decide (fullpath = 0) then mret (- DFS_STATUS_EINVAL)
  else
    s ← string_at fullpath;
    fs ← dfs_filesystem_lookup s;
    result ← match fs with
             | None => mret (- DFS_STATUS_ENOENT)
             | Some fs =>
                 opened ← fd_is_open s;
                 if bool_decide (opened = 0) then mret (- DFS_STATUS_EBUSY)
                 else
                   o ← ops_of fs;
                   match op_unlink o with
                   | None => mret (- DFS_STATUS_ENOSYS)
                   | Some op =>
                       if full_path o then call_world (op fs s)
                       else
                         f ← get_fs fs;
                         mp ← string_at (fs_path f);
                         sub ← dlift (dfs_subdir mp s);
                         call_world (op fs (match sub with None => [SLASH] | Some sub => sub end))
                   end
             end;
    free_block fullpath;;
    mret result.

(** The root of a file system is described without asking it. *)
Definition root_stat : file_stat := Stat 0 (Z.lor (Z.lor MODE_RW DFS_S_IFDIR) MODE_X) 0 0.

Definition dfs_file_stat (path : list Z) : D (Z * option file_stat) :=
  fullpath ← dfs_normalize_path None path;
  if bool_decide (fullpath = 0) then mret (-1, None)
  else
    s ← string_at fullpath;
    fs ← dfs_filesystem_lookup s;
    match fs with
    | None => free_block fullpath;; mret (- DFS_STATUS_ENOENT, None)
    | Some fs =>
        f ← get_fs fs;
        mp ← string_at (fs_path f);
        sub ← (if bool_decide (s = [SLASH]) then mret None else dlift (dfs_subdir mp s));
        match sub with
        | None => free_block fullpath;; mret (0, Some root_stat)
        | Some sub =>
            o ← ops_of fs;
            match op_stat o with
            | None => free_block fullpath;; mret (- DFS_STATUS_ENOSYS, None)
            | Some op =>
                '(result, st) ← call_world (op fs (if full_path o then s else sub));
                free_block fullpath;;
                mret (result, Some st)
            end
        end
    end.

(** Paths without a file system are compared like any other; a path that is a mount
    point gives a null pointer to the file system, which is taken for a string. *)
Definition dfs_file_rename (oldpath newpath : list Z) : D Z :=
  oldfullpath ← dfs_normalize_path None oldpath;
  if bool_decide (oldfullpath = 0) then mret (- DFS_STATUS_ENOENT)
  else
    newfullpath ← dfs_normalize_path None newpath;
    if bool_decide (newfullpath = 0) then free_block oldfullpath;; mret (- DFS_STATUS_ENOENT)
    else
      s ← string_at oldfullpath;
      t ← string_at newfullpath;
      oldfs ← dfs_filesystem_lookup s;
      newfs ← dfs_filesystem_lookup t;
      result ← (if bool_decide (oldfs = newfs) then
                  fs ← dlift oldfs;
                  o ← ops_of fs;
                  match op_rename o with
                  | None => mret (- DFS_STATUS_ENOSYS)
                  | Some op =>
                      if full_path o then call_world (op fs s t)
                      else
                        f ← get_fs fs;
                        mp ← string_at (fs_path f);
                        old ← dlift (dfs_subdir mp s);
                        new ← dlift (dfs_subdir mp t);
                        match old, new with
                        | Some old, Some new => call_world (op fs old new)
                        | _, _ => dfail
                        end
                  end
                else mret (- DFS_STATUS_EXDEV));
      free_block oldfullpath;; free_block newfullpath;;
      mret result.

(** ** dfs_fs.c *)

(** The type of a file system: every entry of the table is looked into. *)
Fixpoint find_type (t : list Z) (name : list Z) : D (option Z) :=
  match t with
  | [] => mret None
  | o :: t =>
      ops ← dlift (fs_operation o);
      if bool_decide (op_name ops = name) then mret (Some o) else find_type t name
  end.

(** The first empty entry; [None] when the path is mounted. *)
Fixpoint find_slot (t : list dfs_filesystem) (i : nat) (fs : option nat) (path : list Z) : D (option (option nat)) :=
  match t with
  | [] => mret (Some fs)
  | iter :: t =>
      if bool_decide (fs_ops iter = 0) then
        find_slot t (S i) (match fs with None => Some i | Some _ => fs end) path
      else
        p ← string_at (fs_path iter);
        if bool_decide (p = path) then mret None else find_slot t (S i) fs path
  end.

(** [err1] of [dfs_mount] and [dfs_unmount]. *)
Definition mount_err1 (fullpath : Z) : D Z := dfs_unlock;; free_block fullpath;; mret (-1).

(** The directory the file system is to be mounted on is opened and closed. *)
Definition mount_point_exists (fullpath : list Z) : D bool :=
  if bool_decide (fullpath = [SLASH] ∨ fullpath = [SLASH; 100; 101; 118]) then mret true
  else
    r ← dfs_file_open (Some Local) fullpath (Z.lor DFS_O_RDONLY DFS_O_DIRECTORY);
    if bool_decide (r < 0) then mret false
    else dfs_file_close (Some Local);; mret true.

(** The entry is made, the device opened and the file system told. *)
Definition mount_on (fs : nat) (fullpath dev_id ops rwflag data : Z)
    (op : nat → Z → Z → W → Z * Z * W) : D Z :=
  f ← get_fs fs;
  put_fs fs (Filesystem dev_id fullpath ops (fs_data f));;
  dfs_unlock;;
  opened ← (if bool_decide (dev_id = 0) then mret 0 else call_world (device_open dev_id RT_DEVICE_OFLAG_RDWR));
  if bool_decide (opened ≠ 0) then dfs_lock;; put_fs fs fs_zero;; mount_err1 fullpath
  else
    '(result, d) ← call_world (op fs rwflag data);
    f ← get_fs fs;
    put_fs fs (Filesystem (fs_dev_id f) (fs_path f) (fs_ops f) d);;
    if bool_decide (result < 0) then
      (if bool_decide (dev_id = 0) then mret 0 else call_world (device_close dev_id));;
      dfs_lock;; put_fs fs fs_zero;; mount_err1 fullpath
    else mret 0.

Definition dfs_mount (device_name : option (list Z)) (path filesystemtype : list Z) (rwflag data : Z) : D Z :=
  w ← dget world;
  let dev_id := match device_name with None => 0 | Some n => device_find n w end in
  if bool_decide (is_Some device_name ∧ dev_id = 0) then dfs_set_errno (- DFS_STATUS_ENODEV);; mret (-1)
  else
    dfs_lock;;
    t ← dget filesystem_operation_table;
    ops ← find_type t filesystemtype;
    dfs_unlock;;
    match ops with
    | None => dfs_set_errno (- DFS_STATUS_ENODEV);; mret (-1)
    | Some ops =>
        o ← dlift (fs_operation ops);
        match op_mount o with
        | None => dfs_set_errno (- DFS_STATUS_ENOSYS);; mret (-1)
        | Some op =>
            fullpath ← dfs_normalize_path None path;
            if bool_decide (fullpath = 0) then dfs_set_errno (- DFS_STATUS_ENOTDIR);; mret (-1)
            else
              s ← string_at fullpath;
              ok ← mount_point_exists s;
              if (ok : bool) then
                dfs_lock;;
                t ← dget filesystem_table;
                slot ← find_slot t 0 None path;
                match slot with
                | None => dfs_set_errno (- DFS_STATUS_EINVAL);; mount_err1 fullpath
                | Some None => dfs_set_errno (- DFS_STATUS_ENOSPC);; mount_err1 fullpath
                | Some (Some fs) => mount_on fs fullpath dev_id ops rwflag data op
                end
              else free_block fullpath;; dfs_set_errno (- DFS_STATUS_ENOTDIR);; mret (-1)
        end
    end.

(** The file system whose path is exactly [path]. *)
Fixpoint find_mounted (t : list dfs_filesystem) (i : nat) (path : list Z) : D (option nat) :=
  match t with
  | [] => mret None
  | iter :: t =>
      if bool_decide (fs_path iter = 0) then find_mounted t (S i) path
      else
        p ← string_at (fs_path iter);
        if bool_decide (p = path) then mret (Some i) else find_mounted t (S i) path
  end.

Definition dfs_unmount (specialfile : list Z) : D Z :=
  fullpath ← dfs_normalize_path None specialfile;
  if bool_decide (fullpath = 0) then dfs_set_errno (- DFS_STATUS_ENOTDIR);; mret (-1)
  else
    s ← string_at fullpath;
    dfs_lock;;
    t ← dget filesystem_table;
    fs ← find_mounted t 0 s;
    match fs with
    | None => mount_err1 fullpath
    | Some fs =>
        o ← ops_of fs;
        match op_unmount o with
        | None => mount_err1 fullpath
        | Some op =>
            result ← call_world (op fs);
            if bool_decide (result < 0) then mount_err1 fullpath
            else
              f ← get_fs fs;
              (if bool_decide (fs_dev_id f = 0) then mret 0 else call_world (device_close (fs_dev_id f)));;
              free_block (fs_path f);;
              put_fs fs fs_zero;;
              dfs_unlock;;
              free_block fullpath;;
              mret 0
        end
    end.

(** Here empty entries are passed over. *)
Fixpoint mkfs_loop (t : list Z) (name : list Z) : D (option Z) :=
  match t with
  | [] => mret None
  | o :: t =>
      if bool_decide (o = 0) then mkfs_loop t name
      else
        ops ← dlift (fs_operation o);
        if bool_decide (op_name ops = name) then mret (Some o) else mkfs_loop t name
  end.

Definition dfs_mkfs (fs_name : list Z) (device_name : option (list Z)) : D Z :=
  w ← dget world;
  let dev_id := match device_name with None => 0 | Some n => device_find n w end in
  if bool_decide (dev_id = 0) then dfs_set_errno (- DFS_STATUS_ENODEV);; mret (-1)
  else
    dfs_lock;;
    t ← dget filesystem_operation_table;
    ops ← mkfs_loop t fs_name;
    dfs_unlock;;
    match ops with
    | None => mret (-1)
    | Some ops =>
        o ← dlift (fs_operation ops);
        match op_mkfs o with
        | None => dfs_set_errno (- DFS_STATUS_ENOSYS);; mret (-1)
        | Some op => call_world (op dev_id)
        end
    end.

Definition dfs_statfs (path : list Z) : D (Z * option fs_stat) :=
  fs ← dfs_filesystem_lookup path;
  match fs with
  | None => mret (-1, None)
  | Some fs =>
      o ← ops_of fs;
      match op_statfs o with
      | None => mret (-1, None)
      | Some op => '(r, b) ← call_world (op fs); mret (r, Some b)
      end
  end.

End file.
