(* ===== verification/DfsPosix.v ===== *)
(** * Device file systems: the POSIX functions

    components/dfs/src/dfs_posix.c.  The functions that fill a buffer of the caller
    return what they put there. *)

From stdpp Require Import gmap.
From S2P Require Import Prelude DfsPath Dfs DfsFile.

Definition DFS_SEEK_SET : Z := 0.
Definition DFS_SEEK_CUR : Z := 1.
Definition DFS_SEEK_END : Z := 2.
Definition DFS_PATH_MAX : Z := 256.

Section posix.
Context {W : Type} `{!FileEnv W}.
#[local] Abbreviation D := (D W).

(** [rt_set_errno(e); return -1;] *)
Definition fails (e : Z) : D Z := dfs_set_errno e;; mret (-1).

(** Most functions: the descriptor is got, used and put back. *)
Definition with_fd {A} (fd : Z) (bad : A) (f : fdp → D A) : D A :=
  p ← fd_get fd;
  match p with
  | None => dfs_set_errno (- DFS_STATUS_EBADF);; mret bad
  | Some p => f p
  end.

Definition open (path : list Z) (flags : Z) : D Z :=
  fd ← fd_new;
  if bool_decide (fd < 0) then fails (- DFS_STATUS_ENOMEM)
  else
    d ← fd_get fd;
    result ← dfs_file_open d path flags;
    p ← dlift d;
    if bool_decide (result < 0) then fd_put p;; fd_put p;; fails result
    else fd_put p;; mret fd.

Definition close (fd : Z) : D Z :=
  with_fd fd (-1) (λ p,
    result ← dfs_file_close (Some p);
    fd_put p;;
    if bool_decide (result < 0) then fails result
    else fd_put p;; mret 0).

Definition read (fd len : Z) : D (Z * list Z) :=
  with_fd fd (-1, []) (λ p,
    '(result, data) ← dfs_file_read (Some p) len;
    fd_put p;;
    if bool_decide (result < 0) then dfs_set_errno result;; mret (-1, []) else mret (result, data)).

Definition write (fd : Z) (data : list Z) : D Z :=
  with_fd fd (-1) (λ p,
    result ← dfs_file_write (Some p) data;
    fd_put p;;
    if bool_decide (result < 0) then fails result else mret result).

Definition lseek (fd offset whence : Z) : D Z :=
  with_fd fd (-1) (λ p,
    d ← get_fd p;
    let base := if bool_decide (whence = DFS_SEEK_SET) then Some 0
                else if bool_decide (whence = DFS_SEEK_CUR) then Some (fd_pos d)
                else if bool_decide (whence = DFS_SEEK_END) then Some (fd_size d) else None in
    match base with
    | None => fd_put p;; fails (- DFS_STATUS_EINVAL)
    | Some base =>
        let offset := s32 (offset + base) in
        if bool_decide (offset < 0) then fd_put p;; fails (- DFS_STATUS_EINVAL)
        else
          result ← dfs_file_lseek (Some p) offset;
          fd_put p;;
          if bool_decide (result < 0) then fails result else mret offset
    end).

Definition rename (old new : list Z) : D Z :=
  result ← dfs_file_rename old new;
  if bool_decide (result < 0) then fails result else mret 0.

Definition unlink (pathname : list Z) : D Z :=
  result ← dfs_file_unlink pathname;
  if bool_decide (result < 0) then fails result else mret 0.

Definition stat (path : list Z) : D (Z * option file_stat) :=
  '(result, buf) ← dfs_file_stat path;
  if bool_decide (result < 0) then dfs_set_errno result;; mret (-1, buf) else mret (result, buf).

Definition fstat (fildes : Z) : D (Z * option file_stat) :=
  with_fd fildes (-1, None) (λ p,
    d ← get_fd p;
    let mode := Z.lor DFS_S_IFREG MODE_RW in
    let mode := if bool_decide (fd_type d = FT_DIRECTORY)
                then Z.lor (Z.lor (Z.land mode (Z.lnot DFS_S_IFREG)) DFS_S_IFDIR) MODE_X else mode in
    fd_put p;;
    mret (0, Some (Stat 0 mode (fd_size d) 0))).

Definition fsync (fildes : Z) : D Z :=
  with_fd fildes (-1) (λ p, ret ← dfs_file_flush (Some p); fd_put p;; mret ret).

Definition ioctl (fildes cmd data : Z) : D Z :=
  with_fd fildes (-1) (λ p,
    ret ← dfs_file_ioctl (Some p) cmd data;
    ret ← (if bool_decide (ret ≠ 0) then fails ret else mret ret);
    fd_put p;;
    mret ret).

Definition statfs (path : list Z) : D (Z * option fs_stat) :=
  '(result, buf) ← dfs_statfs path;
  if bool_decide (result < 0) then dfs_set_errno result;; mret (-1, buf) else mret (result, buf).

Definition mkdir (path : list Z) : D Z :=
  fd ← fd_new;
  if bool_decide (fd = -1) then fails (- DFS_STATUS_ENOMEM)
  else
    d ← fd_get fd;
    result ← dfs_file_open d path (Z.lor DFS_O_DIRECTORY DFS_O_CREAT);
    p ← dlift d;
    if bool_decide (result < 0) then fd_put p;; fd_put p;; fails result
    else dfs_file_close d;; fd_put p;; fd_put p;; mret 0.

Definition rmdir (pathname : list Z) : D Z :=
  result ← dfs_file_unlink pathname;
  if bool_decide (result < 0) then fails result else mret 0.

(** ** Directories *)

Definition get_dir (t : Z) : D DIR := ds ← dget dirs; dlift (ds !! t).
Definition put_dir (t : Z) (d : DIR) : D unit := ds ← dget dirs; dset (set_dirs (<[t := d]> ds)).

(** The block of a directory is reserved in the heap; its fields are in [dirs]. *)
Definition opendir (name : list Z) : D Z :=
  fd ← fd_new;
  if bool_decide (fd = -1) then dfs_set_errno (- DFS_STATUS_ENOMEM);; mret 0
  else
    d ← fd_get fd;
    result ← dfs_file_open d name (Z.lor DFS_O_RDONLY DFS_O_DIRECTORY);
    p ← dlift d;
    if bool_decide (0 <= result) then
      t ← new_block (replicate (Z.to_nat DIR_SIZE) 0);
      (if bool_decide (t = 0) then dfs_file_close d;; fd_put p
       else put_dir t (Dir fd (replicate 512 0) 0 0));;
      fd_put p;;
      mret t
    else fd_put p;; fd_put p;; dfs_set_errno result;; mret 0.

(** [d_reclen] of the entry at [cur]. *)
Definition reclen (buf : list Z) (cur : Z) : option Z :=
  lo ← arr_get (cur + 2) buf; hi ← arr_get (cur + 3) buf; Some (lo + hi * 256).

(** Where in the buffer the next entry is; [None] at the end. *)
Definition readdir (t : Z) : D (option Z) :=
  d ← get_dir t;
  with_fd (dir_fd d) None (λ p,
    cur ← (if bool_decide (dir_num d ≠ 0) then r ← dlift (reclen (dir_buf d) (dir_cur d)); mret (dir_cur d + r)
           else mret (dir_cur d));
    put_dir t (Dir (dir_fd d) (dir_buf d) (dir_num d) cur);;
    if bool_decide (dir_num d = 0 ∨ dir_num d <= cur) then
      '(result, data) ← dfs_file_getdents (Some p) 511;
      buf ← dlift (arr_write 0 data (dir_buf d));
      if bool_decide (result <= 0) then
        put_dir t (Dir (dir_fd d) buf (dir_num d) cur);; fd_put p;; dfs_set_errno result;; mret None
      else
        put_dir t (Dir (dir_fd d) buf result 0);; fd_put p;; mret (Some 0)
    else fd_put p;; mret (Some cur)).

Definition telldir (t : Z) : D Z :=
  d ← get_dir t;
  with_fd (dir_fd d) 0 (λ p,
    e ← get_fd p; fd_put p;; mret (s32 (fd_pos e - dir_num d + dir_cur d))).

Definition seekdir (t offset : Z) : D unit :=
  d ← get_dir t;
  with_fd (dir_fd d) tt (λ p,
    r ← dfs_file_lseek (Some p) offset;
    (if bool_decide (0 <= r) then put_dir t (Dir (dir_fd d) (dir_buf d) 0 0) else mret tt);;
    fd_put p).

Definition rewinddir (t : Z) : D unit := seekdir t 0.

Definition closedir (t : Z) : D Z :=
  d ← get_dir t;
  with_fd (dir_fd d) (-1) (λ p,
    result ← dfs_file_close (Some p);
    fd_put p;; fd_put p;;
    (ds ← dget dirs; dset (set_dirs (delete t ds)));;
    free_block t;;
    if bool_decide (result < 0) then fails result else mret 0).

(** The working directory; only where DFS_USING_WORKDIR is configured. *)
Definition chdir (path : option (list Z)) : D Z :=
  match path with
  | None => dfs_lock;; dfs_unlock;; mret 0
  | Some path =>
      if bool_decide (DFS_PATH_MAX < zlen path) then fails (- DFS_STATUS_ENOTDIR)
      else
        fullpath ← dfs_normalize_path None path;
        if bool_decide (fullpath = 0) then fails (- DFS_STATUS_ENOTDIR)
        else
          dfs_lock;;
          s ← string_at fullpath;
          d ← opendir s;
          if bool_decide (d = 0) then free_block fullpath;; dfs_unlock;; mret (-1)
          else
            closedir d;;
            dset (set_workdir (Some (take (Z.to_nat DFS_PATH_MAX) s)));;
            free_block fullpath;; dfs_unlock;;
            mret 0
  end.

(** What [rt_strncpy] writes into the buffer of [getcwd]. *)
Definition getcwd (size : Z) : D (option (list Z)) :=
  w ← dget working_directory;
  mret (s ← w; Some (take (Z.to_nat size) (s ++ replicate (Z.to_nat size) 0))).

End posix.
