(* ===== verification/DfsSpec.v ===== *)
(** * What the file functions promise

    The open files as a table of what each descriptor stands for, without reference
    counts, addresses, blocks and locks; and the POSIX functions on it. *)

From stdpp Require Import gmap.
From S2P Require Import Prelude DfsPath Dfs DfsFile DfsPosix.

Section spec.
Context {W : Type} `{!FileEnv W}.

(** The mounted file systems: where, and their operations. *)
Definition mounts : Type := list (option (list Z * dfs_filesystem_operation W)).

(** The file system at [mp] is responsible for [path]. *)
Definition covers_path (mp path : list Z) : bool :=
  bool_decide (take (length mp) path = mp) &&
  bool_decide ((length mp <= 1)%nat ∨ (length path <= length mp)%nat ∨ path !! length mp = Some SLASH).

(** Going through the table for the longest mount point, the last one of several. *)
Fixpoint best_mount (M : mounts) (path : list Z) (i : nat) (best : option nat) (n : nat) : option nat :=
  match M with
  | [] => best
  | None :: M => best_mount M path (S i) best n
  | Some (mp, _) :: M =>
      if bool_decide (n <= length mp)%nat && covers_path mp path
      then best_mount M path (S i) (Some i) (length mp) else best_mount M path (S i) best n
  end.

(** The path below the mount point. *)
Definition below (mp path : list Z) : list Z :=
  if bool_decide (length mp = length path) then [SLASH]
  else if bool_decide (mp = [SLASH]) then path else drop (length mp) path.

(** The path a file system is given. *)
Definition path_in (o : dfs_filesystem_operation W) (mp path : list Z) : list Z :=
  if full_path o then path else below mp path.

(** An open file: its type, and what its file system knows of it. *)
Definition open_file : Type := Z * file.

Record files : Type := Files { a_world : W; a_fds : list (option open_file); a_errno : Z }.
Definition set_a_world v a := Files v (a_fds a) (a_errno a).
Definition set_a_fds v a := Files (a_world a) v (a_errno a).
Definition set_a_errno v a := Files (a_world a) (a_fds a) v.

Fixpoint first_free (t : list (option open_file)) (i : nat) : option nat :=
  match t with [] => None | Some _ :: t => first_free t (S i) | None :: _ => Some i end.

Context (M : mounts).

Definition opened (flags : Z) (f : file) : open_file :=
  let fl := Z.lor (f_flags f) DFS_F_OPEN in
  if bool_decide (Z.land flags DFS_O_DIRECTORY ≠ 0)
  then (FT_DIRECTORY, File (f_fs f) (f_path f) (Z.lor fl DFS_F_DIRECTORY) (f_size f) (f_pos f) (f_data f))
  else (FT_REGULAR, File (f_fs f) (f_path f) fl (f_size f) (f_pos f) (f_data f)).

(** What a file system has done with a file: its fields, not where it is. *)
Definition after (f f' : file) : file := File (f_fs f) (f_path f) (f_flags f) (f_size f') (f_pos f') (f_data f').

Definition a_fails (e : Z) (a : files) : Z * files := (-1, set_a_errno e a).

Definition a_open (path : list Z) (flags : Z) (a : files) : Z * files :=
  match first_free (a_fds a) 0 with
  | None => a_fails (- DFS_STATUS_ENOMEM) a
  | Some i =>
      match best_mount M path 0 None 0 with
      | None => a_fails (- DFS_STATUS_ENOENT) a
      | Some fs =>
          match M !! fs with
          | Some (Some (mp, o)) =>
              match op_open o with
              | None => a_fails (- DFS_STATUS_ENOSYS) a
              | Some op =>
                  let f := File fs (path_in o mp path) flags 0 0 0 in
                  let '(r, f', w) := op f (a_world a) in
                  let a := set_a_world w a in
                  if bool_decide (r < 0) then a_fails r a
                  else (Z.of_nat i, set_a_fds (<[i := Some (opened flags (after f f'))]> (a_fds a)) a)
              end
          | _ => a_fails (- DFS_STATUS_ENOENT) a
          end
      end
  end.

(** The file behind a descriptor and the operations of its file system. *)
Definition a_file (fd : Z) (a : files) : option (nat * Z * file * dfs_filesystem_operation W) :=
  if bool_decide (fd < 0) then None
  else
    '(ty, f) ← (a_fds a !! Z.to_nat fd) ≫= id;
    '(_, o) ← (M !! f_fs f) ≫= id;
    Some (Z.to_nat fd, ty, f, o).

(** An operation of the file system on an open file; [None]: there is none. *)
Definition a_call {A} (i : nat) (ty : Z) (f : file) (op : file → W → A * file * W) (a : files) : A * files :=
  let '(r, f', w) := op f (a_world a) in
  (r, set_a_fds (<[i := Some (ty, after f f')]> (a_fds a)) (set_a_world w a)).

Definition a_close (fd : Z) (a : files) : Z * files :=
  match a_file fd a with
  | None => a_fails (- DFS_STATUS_EBADF) a
  | Some (i, ty, f, o) =>
      let '(r, a) := match op_close o with Some op => a_call i ty f op a | None => (0, a) end in
      if bool_decide (r < 0) then a_fails r a else (0, set_a_fds (<[i := None]> (a_fds a)) a)
  end.

Definition with_flags (fl : Z) (f : file) : file := File (f_fs f) (f_path f) fl (f_size f) (f_pos f) (f_data f).
Definition with_pos (p : Z) (f : file) : file := File (f_fs f) (f_path f) (f_flags f) (f_size f) p (f_data f).

Definition a_update (i : nat) (g : file → file) (a : files) : files :=
  match a_fds a !! i with
  | Some (Some (ty, f)) => set_a_fds (<[i := Some (ty, g f)]> (a_fds a)) a
  | _ => a
  end.

Definition a_read (fd len : Z) (a : files) : (Z * list Z) * files :=
  match a_file fd a with
  | None => ((-1, []), set_a_errno (- DFS_STATUS_EBADF) a)
  | Some (i, ty, f, o) =>
      match op_read o with
      | None => ((-1, []), set_a_errno (- DFS_STATUS_ENOSYS) a)
      | Some op =>
          let '((r, data), a) := a_call i ty f (op len) a in
          if bool_decide (r < 0)
          then ((-1, []), set_a_errno r (a_update i (λ f, with_flags (Z.lor (f_flags f) DFS_F_EOF) f) a))
          else ((r, data), a)
      end
  end.

Definition a_write (fd : Z) (data : list Z) (a : files) : Z * files :=
  match a_file fd a with
  | None => a_fails (- DFS_STATUS_EBADF) a
  | Some (i, ty, f, o) =>
      match op_write o with
      | None => a_fails (- DFS_STATUS_ENOSYS) a
      | Some op => let '(r, a) := a_call i ty f (op data) a in if bool_decide (r < 0) then a_fails r a else (r, a)
      end
  end.

Definition seek_base (whence : Z) (f : file) : option Z :=
  if bool_decide (whence = DFS_SEEK_SET) then Some 0
  else if bool_decide (whence = DFS_SEEK_CUR) then Some (f_pos f)
  else if bool_decide (whence = DFS_SEEK_END) then Some (f_size f) else None.

Definition a_lseek (fd offset whence : Z) (a : files) : Z * files :=
  match a_file fd a with
  | None => a_fails (- DFS_STATUS_EBADF) a
  | Some (i, ty, f, o) =>
      match seek_base whence f with
      | None => a_fails (- DFS_STATUS_EINVAL) a
      | Some base =>
          let offset := s32 (offset + base) in
          if bool_decide (offset < 0) then a_fails (- DFS_STATUS_EINVAL) a
          else
            match op_lseek o with
            | None => a_fails (- DFS_STATUS_ENOSYS) a
            | Some op =>
                let '(r, a) := a_call i ty f (op offset) a in
                if bool_decide (r < 0) then a_fails r a else (offset, a_update i (with_pos r) a)
            end
      end
  end.

Definition a_fstat (fd : Z) (a : files) : (Z * option file_stat) * files :=
  match a_file fd a with
  | None => ((-1, None), set_a_errno (- DFS_STATUS_EBADF) a)
  | Some (_, ty, f, _) =>
      let mode := if bool_decide (ty = FT_DIRECTORY) then 0x41ff else 0x81b6 in
      ((0, Some (Stat 0 mode (f_size f) 0)), a)
  end.

Definition a_fsync (fd : Z) (a : files) : Z * files :=
  match a_file fd a with
  | None => a_fails (- DFS_STATUS_EBADF) a
  | Some (i, ty, f, o) =>
      match op_flush o with None => (- DFS_STATUS_ENOSYS, a) | Some op => a_call i ty f op a end
  end.

Definition a_ioctl (fd cmd args : Z) (a : files) : Z * files :=
  match a_file fd a with
  | None => a_fails (- DFS_STATUS_EBADF) a
  | Some (i, ty, f, o) =>
      if bool_decide (ty ≠ FT_REGULAR) then a_fails (- DFS_STATUS_EINVAL) a
      else
        match op_ioctl o with
        | None => a_fails (- DFS_STATUS_ENOSYS) a
        | Some op => let '(r, a) := a_call i ty f (op cmd args) a in if bool_decide (r ≠ 0) then a_fails r a else (r, a)
        end
  end.

(** ** Names *)

(** The mounted file system for a path. *)
Definition a_mount (path : list Z) : option (nat * list Z * dfs_filesystem_operation W) :=
  fs ← best_mount M path 0 None 0; '(mp, o) ← (M !! fs) ≫= id; Some (fs, mp, o).

(** A mount point is described without its file system. *)
Definition a_stat (path : list Z) (a : files) : (Z * option file_stat) * files :=
  match a_mount path with
  | None => ((-1, None), set_a_errno (- DFS_STATUS_ENOENT) a)
  | Some (fs, mp, o) =>
      if bool_decide (path = mp) then ((0, Some root_stat), a)
      else
        match op_stat o with
        | None => ((-1, None), set_a_errno (- DFS_STATUS_ENOSYS) a)
        | Some op =>
            let '((r, st), w) := op fs (path_in o mp path) (a_world a) in
            let a := set_a_world w a in
            if bool_decide (r < 0) then ((-1, Some st), set_a_errno r a) else ((r, Some st), a)
        end
  end.

(** The name under which an open file is looked for. *)
Definition open_name (mp path : list Z) : list Z :=
  if bool_decide (mp = [SLASH]) then path else drop (length mp) path.

Definition busy (fs : nat) (name : list Z) (t : list (option open_file)) : bool :=
  existsb (λ o, match o with Some (_, f) => bool_decide (f_fs f = fs ∧ f_path f = name) | None => false end) t.

(** The file system removes the name. *)
Definition a_remove (path : list Z) (a : files) : Z * files :=
  match a_mount path with
  | None => a_fails (- DFS_STATUS_ENOENT) a
  | Some (fs, mp, o) =>
      match op_unlink o with
      | None => a_fails (- DFS_STATUS_ENOSYS) a
      | Some op =>
          let '(r, w) := op fs (path_in o mp path) (a_world a) in
          let a := set_a_world w a in
          if bool_decide (r < 0) then a_fails r a else (0, a)
      end
  end.

Definition in_use (path : list Z) (a : files) : bool :=
  match a_mount path with Some (fs, mp, _) => busy fs (open_name mp path) (a_fds a) | None => false end.

Definition a_unlink (path : list Z) (a : files) : Z * files :=
  if in_use path a then a_fails (- DFS_STATUS_EBUSY) a else a_remove path a.

(** Both names have to be in one file system. *)
Definition a_rename (old new : list Z) (a : files) : Z * files :=
  match a_mount old, a_mount new with
  | Some (fs, mp, o), Some (fs', _, _) =>
      if bool_decide (fs = fs') then
        match op_rename o with
        | None => a_fails (- DFS_STATUS_ENOSYS) a
        | Some op =>
            let '(r, w) := op fs (path_in o mp old) (path_in o mp new) (a_world a) in
            let a := set_a_world w a in
            if bool_decide (r < 0) then a_fails r a else (0, a)
        end
      else a_fails (- DFS_STATUS_EXDEV) a
  | _, _ => a_fails (- DFS_STATUS_EXDEV) a
  end.

End spec.
#[global] Arguments files : clear implicits.
#[global] Arguments mounts : clear implicits.
