(* ===== verification/DfsProof.v ===== *)
(** * Files and descriptors: the code keeps its promises *)

From stdpp Require Import gmap.
From S2P Require Import Prelude DfsPath Dfs DfsFile DfsPosix DfsSpec.

(** What is asked of the heap: it may refuse any request, and a block it gives is not
    in use. *)
Class HeapLaws (W : Type) `{!FileEnv W} : Prop := {
  heap_fresh : ∀ w b n, heap_address w b n ≠ 0 → b !! heap_address w b n = None;
}.

Section proof.
Context {W : Type} `{!FileEnv W}.
#[local] Abbreviation D := (D W).
#[local] Abbreviation dfs := (dfs W).

Implicit Types s : dfs.

(** ** Running *)

Lemma bind_run {A B} (c : D A) (f : A → D B) s a s' : c s = Some (a, s') → (c ≫= f) s = f a s'.
Proof. intros E. unfold mbind, D_bind. by rewrite E. Qed.

Definition upd (i : nat) (d : dfs_fd) (s : dfs) : dfs := set_fds (<[i := d]> (fd_table s)) s.

Lemma get_entry i d s : fd_table s !! i = Some d → get_fd (Entry i) s = Some (d, s).
Proof. intros H. unfold get_fd, mbind, D_bind, dget, dlift. by rewrite H. Qed.
Lemma put_entry i d s : put_fd (Entry i) d s = Some (tt, upd i d s).
Proof. done. Qed.
Lemma upd_same i d s : is_Some (fd_table s !! i) → fd_table (upd i d s) !! i = Some d.
Proof. intros H. apply list_lookup_insert_eq. by eapply lookup_lt_is_Some. Qed.
Lemma upd_twice i d e s : upd i d (upd i e s) = upd i d s.
Proof. unfold upd. destruct s. cbn. by rewrite list_insert_insert_eq. Qed.
Lemma upd_id i d s : fd_table s !! i = Some d → upd i d s = s.
Proof. intros H. unfold upd. rewrite list_insert_id by done. by destruct s. Qed.

Lemma upd_deep i d e w b s : upd i d (set_world w (set_blocks b (upd i e s))) = set_world w (set_blocks b (upd i d s)).
Proof. unfold upd. destruct s. cbn. by rewrite list_insert_insert_eq. Qed.

Lemma fd_get_run i d s : fslock s = 0 → fd_table s !! i = Some d → (i < DFS_FD_MAX)%nat → fd_magic d = DFS_FD_MAGIC →
  fd_get (Z.of_nat i) s = Some (Some (Entry i), upd i (set_fd_ref (fd_ref_count d + 1) d) s).
Proof.
  intros Hl Hd Hi Hm. unfold fd_get. rewrite bool_decide_false by lia. rewrite Nat2Z.id.
  destruct s. cbn in *. subst. unfold dfs_lock, dfs_unlock, mbind, D_bind, dget, dset. cbn.
  unfold get_fd, mbind, D_bind, dget, dlift. cbn. rewrite Hd. cbn. rewrite bool_decide_false by (rewrite Hm; auto). done.
Qed.

Lemma fd_get_bad fd s : fslock s = 0 → (∀ d, 0 <= fd < Z.of_nat DFS_FD_MAX → fd_table s !! Z.to_nat fd = Some d → fd_magic d ≠ DFS_FD_MAGIC) →
  length (fd_table s) = DFS_FD_MAX → fd_get fd s = Some (None, s).
Proof.
  intros Hl Hd Hlen. unfold fd_get. case_bool_decide as Hb; [done|].
  destruct (lookup_lt_is_Some_2 (fd_table s) (Z.to_nat fd)) as [d E]; [lia|]. specialize (Hd d ltac:(lia) E).
  destruct s. cbn in *. subst. unfold dfs_lock, dfs_unlock, mbind, D_bind, dget, dset. cbn.
  unfold get_fd, mbind, D_bind, dget, dlift. cbn. rewrite E. cbn. by rewrite bool_decide_true.
Qed.

Lemma fd_put_run i d s : fslock s = 0 → fd_table s !! i = Some d →
  fd_put (Entry i) s =
    Some (tt, upd i (if bool_decide (fd_ref_count d - 1 = 0) then fd_zero else set_fd_ref (fd_ref_count d - 1) d) s).
Proof.
  intros Hl Hd. unfold fd_put. destruct s. cbn in *. subst. unfold dfs_lock, dfs_unlock, mbind, D_bind, dget, dset. cbn.
  unfold get_fd, mbind, D_bind, dget, dlift. cbn. rewrite Hd. done.
Qed.

Lemma string_at_run p buf str s : blocks s !! p = Some buf → cstring buf = Some str → string_at p s = Some (str, s).
Proof. intros H1 H2. unfold string_at, mbind, D_bind, dget, dlift. by rewrite H1, H2. Qed.

(** ** The relation between the code and the promise *)

(** The descriptor of the open file [f], with its path at [p] and [n] references. *)
Definition used (n ty p : Z) (f : file) : dfs_fd :=
  Fd DFS_FD_MAGIC ty p n (Some (f_fs f)) (f_flags f) (f_size f) (f_pos f) (f_data f).

(** A descriptor of the table, and the open file it stands for. *)
Definition entry_for (b : gmap Z (list Z)) (d : dfs_fd) (o : option open_file) : Prop :=
  match o with
  | None => d = fd_zero
  | Some (ty, f) => ∃ p buf,
      d = used 1 ty p f ∧ p ≠ 0 ∧ b !! p = Some buf ∧ cstring buf = Some (f_path f)
  end.

(** An entry of the table of file systems; the mount points are among the blocks [K]. *)
Definition mount_for (K : gmap Z (list Z)) (f : dfs_filesystem) (m : option (list Z * dfs_filesystem_operation W)) : Prop :=
  match m with
  | None => f = fs_zero
  | Some (mp, o) => fs_path f ≠ 0 ∧ fs_ops f ≠ 0 ∧ fs_operation (fs_ops f) = Some o ∧
      ∃ buf, K !! fs_path f = Some buf ∧ cstring buf = Some mp
  end.

Context (M : mounts W) (K : gmap Z (list Z)).

(** The lock is free; every block is one of [K] or the path of exactly one open file. *)
Record stands (s : dfs) (a : files W) : Prop := Stands {
  st_lock : fslock s = 0;
  st_world : world s = a_world a;
  st_errno : errno s = a_errno a;
  st_mounts : Forall2 (mount_for K) (filesystem_table s) M;
  st_len : length (a_fds a) = DFS_FD_MAX;
  st_fds : Forall2 (entry_for (blocks s)) (fd_table s) (a_fds a);
  st_files : ∀ i ty f, a_fds a !! i = Some (Some (ty, f)) → ∃ mp o, M !! f_fs f = Some (Some (mp, o));
  st_kept : K ⊆ blocks s;
  st_null : K !! 0 = None;
  st_own : ∀ i j d e, fd_table s !! i = Some d → fd_table s !! j = Some e → fd_path d ≠ 0 → fd_path d = fd_path e → i = j;
  st_apart : ∀ i d, fd_table s !! i = Some d → fd_path d ≠ 0 → K !! fd_path d = None;
  st_points : ∀ i j f g, filesystem_table s !! i = Some f → filesystem_table s !! j = Some g → fs_path f ≠ 0 → fs_path f = fs_path g → i = j;
  st_leak : ∀ p, is_Some (blocks s !! p) → is_Some (K !! p) ∨ ∃ i d, fd_table s !! i = Some d ∧ fd_path d ≠ 0 ∧ fd_path d = p;
}.

Lemma stands_errno e s a : stands s a → stands (set_errno e s) (set_a_errno e a).
Proof. by intros []. Qed.
Lemma stands_world w s a : stands s a → stands (set_world w s) (set_a_world w a).
Proof. by intros []. Qed.

(** The entry of an open file. *)
Lemma stands_entry s a i ty f : stands s a → a_fds a !! i = Some (Some (ty, f)) →
  (i < DFS_FD_MAX)%nat ∧ ∃ p buf,
    fd_table s !! i = Some (used 1 ty p f) ∧ p ≠ 0 ∧ blocks s !! p = Some buf ∧ cstring buf = Some (f_path f).
Proof.
  intros H E. split; [rewrite <- (st_len _ _ H); by eapply lookup_lt_Some|].
  destruct (Forall2_lookup_r _ _ _ _ _ (st_fds _ _ H) E) as (d&Hd&p&buf&->&?). eauto 10.
Qed.

Lemma stands_length s a : stands s a → length (fd_table s) = DFS_FD_MAX.
Proof. intros H. rewrite (Forall2_length _ _ _ (st_fds _ _ H)). apply H. Qed.

(** A file system has changed what it may change of an open file. *)
Lemma stands_update s a i ty f f' ty' p :
  stands s a → a_fds a !! i = Some (Some (ty, f)) → f_fs f' = f_fs f → f_path f' = f_path f →
  fd_table s !! i = Some (used 1 ty p f) →
  stands (upd i (used 1 ty' p f') s)
         (set_a_fds (<[i := Some (ty', f')]> (a_fds a)) a).
Proof.
  intros H E Hfs Hp Hd0. destruct (stands_entry s a i ty f H E) as (Hi&p0&buf&Hd&Hp0&Hb&Hs).
  rewrite Hd0 in Hd. injection Hd as <-. rename Hd0 into Hd. destruct H. split; try done; cbn.
  - by rewrite length_insert.
  - apply Forall2_insert; [done|]. exists p, buf. rewrite Hp. done.
  - intros j ty2 f2. destruct (decide (i = j)) as [<-|Hij].
    + rewrite (list_lookup_insert_eq (a_fds a)) by (eapply lookup_lt_Some; exact E). intros [= <- <-]. rewrite Hfs. eauto.
    + rewrite list_lookup_insert_ne by done. eauto.
  - intros j k d e. rewrite !list_lookup_insert_Some. intros [(<-&<-&_)|(?&?)] [(<-&<-&_)|(?&?)]; cbn; intros ? ?;
      [done|eapply st_own0; eauto; by cbn|eapply st_own0; eauto; by cbn|eapply st_own0; eauto].
  - intros j d. rewrite list_lookup_insert_Some. intros [(<-&<-&_)|(?&?)]; cbn; [apply (st_apart0 _ _ Hd)|eauto].
  - intros q Hq. destruct (st_leak0 q Hq) as [?|(j&d&Hj&Hne&Heq)]; [by left|right].
    destruct (decide (i = j)) as [<-|Hij].
    + eexists i, _. rewrite list_lookup_insert_eq by (eapply lookup_lt_Some; exact Hd). split; [done|].
      rewrite Hd in Hj. by injection Hj as <-.
    + exists j, d. by rewrite list_lookup_insert_ne.
Qed.

(** ** Calls on open files *)

Lemma get_fs_run i f s : filesystem_table s !! i = Some f → get_fs i s = Some (f, s).
Proof. intros H. unfold get_fs, mbind, D_bind, dget, dlift. by rewrite H. Qed.

Lemma ops_of_run i f o s : filesystem_table s !! i = Some f → fs_operation (fs_ops f) = Some o → ops_of i s = Some (o, s).
Proof. intros H1 H2. unfold ops_of. erewrite bind_run by (by apply get_fs_run). unfold dlift. by rewrite H2. Qed.

Lemma mounted_ops s a fs mp o : stands s a → M !! fs = Some (Some (mp, o)) → ∃ f buf,
  filesystem_table s !! fs = Some f ∧ fs_operation (fs_ops f) = Some o ∧ K !! fs_path f = Some buf ∧
  blocks s !! fs_path f = Some buf ∧ cstring buf = Some mp.
Proof.
  intros H E. destruct (Forall2_lookup_r _ _ _ _ _ (st_mounts _ _ H) E) as (f&Hf&Hp&Ho&Hop&buf&Hb&Hs).
  exists f, buf. split_and!; try done. by eapply lookup_weaken, H.
Qed.

Lemma fd_ops_run i d fs s f o : fd_table s !! i = Some d → fd_fs d = Some fs → filesystem_table s !! fs = Some f →
  fs_operation (fs_ops f) = Some o → fd_ops (Entry i) s = Some (o, s).
Proof.
  intros H1 H2 H3 H4. unfold fd_ops. erewrite bind_run by (by apply get_entry). rewrite H2.
  by eapply ops_of_run.
Qed.

Lemma call_file_run {A} i n ty p f buf (op : file → W → A * file * W) s r f' w :
  fd_table s !! i = Some (used n ty p f) → blocks s !! p = Some buf → cstring buf = Some (f_path f) →
  op f (world s) = (r, f', w) →
  call_file (Entry i) op s = Some (r, set_world w (upd i (used n ty p (after f f')) s)).
Proof.
  intros Hd Hb Hs E. unfold call_file. erewrite bind_run by (by apply get_entry).
  unfold file_of. cbn [used fd_path fd_fs]. unfold mbind at 1, D_bind at 1.
  erewrite bind_run by (by eapply string_at_run). destruct f. cbn in *. unfold mbind, D_bind, dget, dlift, mret, D_ret.
  by rewrite E.
Qed.

Lemma call_world_run {A} (f : W → A * W) s a w : f (world s) = (a, w) → call_world f s = Some (a, set_world w s).
Proof. intros E. unfold call_world, mbind, D_bind, dget. by rewrite E. Qed.

(** The descriptor of an open file is got; [used 2] while it is in use. *)
Lemma get_open fd s a i ty f o : stands s a → a_file M fd a = Some (i, ty, f, o) →
  a_fds a !! i = Some (Some (ty, f)) ∧ (∃ mp, M !! f_fs f = Some (Some (mp, o))) ∧ ∃ p buf,
    fd_table s !! i = Some (used 1 ty p f) ∧ p ≠ 0 ∧ blocks s !! p = Some buf ∧ cstring buf = Some (f_path f) ∧
    fd_get fd s = Some (Some (Entry i), upd i (used 2 ty p f) s).
Proof.
  intros H E. unfold a_file in E. case_bool_decide as Hfd; [done|].
  destruct (a_fds a !! Z.to_nat fd) as [[[ty' f']|]|] eqn:Ea; try done. cbn in E.
  destruct (M !! f_fs f') as [[[mp o']|]|] eqn:Em; try done. cbn in E. injection E as <- <- <- <-.
  split; [done|]. split; [by exists mp|]. destruct (stands_entry s a _ _ _ H Ea) as (Hi&p&buf&Hd&Hp&Hb&Hs).
  exists p, buf. split_and!; try done. rewrite <- (Z2Nat.id fd) at 1 by lia.
  by erewrite fd_get_run by (done || apply H).
Qed.

Lemma get_closed fd s a : stands s a → a_file M fd a = None → fd_get fd s = Some (None, s).
Proof.
  intros H E. apply fd_get_bad; [apply H| |by eapply stands_length]. intros d Hfd Hd.
  destruct (Forall2_lookup_l _ _ _ _ _ (st_fds _ _ H) Hd) as ([[ty f]|]&Ha&He); [|by rewrite He].
  destruct (st_files _ _ H _ _ _ Ha) as (mp&o&Hm). unfold a_file, open_file in *. rewrite bool_decide_false in E by lia.
  rewrite Ha in E. cbn in E. by rewrite Hm in E.
Qed.

Lemma put_used s i p ty f w d : fslock s = 0 → fd_table s !! i = Some d →
  fd_put (Entry i) (set_world w (upd i (used 2 ty p f) s)) = Some (tt, set_world w (upd i (used 1 ty p f) s)).
Proof.
  intros Hl Hd. erewrite fd_put_run; [|done|by apply (upd_same i); exists d]. f_equal. f_equal.
  change (set_world w (upd i (used 1 ty p f) (upd i (used 2 ty p f) s)) = set_world w (upd i (used 1 ty p f) s)).
  by rewrite upd_twice.
Qed.

(** The open file after a call, and its descriptor put back. *)
Lemma put_open s a i ty f p f2 w : stands s a → a_fds a !! i = Some (Some (ty, f)) → fd_table s !! i = Some (used 1 ty p f) →
  f_fs f2 = f_fs f → f_path f2 = f_path f →
  ∃ s', fd_put (Entry i) (set_world w (upd i (used 2 ty p f2) s)) = Some (tt, s') ∧
    stands s' (set_a_fds (<[i := Some (ty, f2)]> (a_fds a)) (set_a_world w a)).
Proof.
  intros H Ha Hd Hfs Hpa. eexists. split; [eapply put_used; [apply H|exact Hd]|].
  apply (stands_world w _ (set_a_fds (<[i := Some (ty, f2)]> (a_fds a)) a)). by eapply stands_update.
Qed.

(** While an open file is in use: its file system, and a call of it. *)
Lemma used_ops s a i ty f o p mp : stands s a → M !! f_fs f = Some (Some (mp, o)) → fd_table s !! i = Some (used 1 ty p f) →
  fd_ops (Entry i) (upd i (used 2 ty p f) s) = Some (o, upd i (used 2 ty p f) s).
Proof.
  intros H Hm Hd. destruct (mounted_ops s a _ _ _ H Hm) as (g&bufm&Hg&Ho&_).
  eapply fd_ops_run; [apply upd_same; eauto|done|exact Hg|done].
Qed.

Lemma used_call {A} s a i ty f p buf (op : file → W → A * file * W) r f' w :
  stands s a → fd_table s !! i = Some (used 1 ty p f) → blocks s !! p = Some buf → cstring buf = Some (f_path f) →
  op f (a_world a) = (r, f', w) →
  call_file (Entry i) op (upd i (used 2 ty p f) s) = Some (r, set_world w (upd i (used 2 ty p (after f f')) s)).
Proof.
  intros H Hd Hb Hs Hop. erewrite call_file_run; [by rewrite upd_twice|apply upd_same; eauto|exact Hb|exact Hs|].
  change (world (upd i (used 2 ty p f) s)) with (world s). by rewrite (st_world _ _ H).
Qed.

(** What a function gives and leaves is what is promised. *)
Definition meets {A} (c : D A) (spec : files W → A * files W) : Prop := ∀ s a, stands s a →
  ∃ s', c s = Some ((spec a).1, s') ∧ stands s' (spec a).2.

(** A descriptor that is not open. *)
Lemma bad_fd {A} (bad : A) g fd s a : stands s a → a_file M fd a = None →
  ∃ s', with_fd fd bad g s = Some (bad, s') ∧ stands s' (set_a_errno (- DFS_STATUS_EBADF) a).
Proof.
  intros H E. unfold with_fd. erewrite bind_run by (by eapply get_closed). eexists. split; [done|]. by apply stands_errno.
Qed.

(** The file was only looked at. *)
Lemma put_same s a i ty f p : stands s a → a_fds a !! i = Some (Some (ty, f)) → fd_table s !! i = Some (used 1 ty p f) →
  fd_put (Entry i) (upd i (used 2 ty p f) s) = Some (tt, s).
Proof.
  intros H Ha Hd. erewrite fd_put_run; [|apply H|apply upd_same; eauto]. do 2 f_equal. rewrite upd_twice. by apply upd_id.
Qed.

(** The frame of the functions on open files: the descriptor is got, the file system
    called, and the descriptor put back. *)
Ltac got_file fd :=
  intros s a H; destruct (a_file M fd a) as [[[[i ty] f] o]|] eqn:E; [|by apply bad_fd];
  destruct (get_open fd s a i ty f o H E) as (Ha&(mp&Hm)&p&buf&Hd&Hp&Hb&Hs&G); unfold with_fd;
  erewrite bind_run by exact G; cbv beta iota.
Ltac found_ops := unfold mbind at 1, D_bind at 1; erewrite bind_run by (by eapply used_ops).
Ltac with_errno := eexists; split; [done|]; by apply stands_errno.

Lemma write_meets fd data : meets (write fd data) (a_write M fd data).
Proof.
  unfold write, a_write. got_file fd. unfold dfs_file_write. found_ops. destruct (op_write o) as [op|].
  - unfold a_call. destruct (op data f (a_world a)) as [[r f'] w] eqn:Eo. erewrite used_call by done.
    destruct (put_open s a i ty f p (after f f') w) as (s'&R&Hs'); try done. erewrite bind_run by exact R.
    case_bool_decide; [with_errno|by eauto].
  - unfold mret at 1, D_ret at 1. erewrite bind_run by (by eapply put_same). with_errno.
Qed.

Lemma fsync_meets fd : meets (fsync fd) (a_fsync M fd).
Proof.
  unfold fsync, a_fsync. got_file fd. unfold dfs_file_flush. found_ops. destruct (op_flush o) as [op|].
  - unfold a_call. destruct (op f (a_world a)) as [[r f'] w] eqn:Eo. erewrite used_call by done.
    destruct (put_open s a i ty f p (after f f') w) as (s'&R&Hs'); try done. erewrite bind_run by exact R. by eauto.
  - unfold mret at 1, D_ret at 1. erewrite bind_run by (by eapply put_same). by eauto.
Qed.

Lemma read_meets fd len : meets (read fd len) (a_read M fd len).
Proof.
  unfold read, a_read. got_file fd. unfold dfs_file_read. found_ops. destruct (op_read o) as [op|].
  - unfold a_call. destruct (op len f (a_world a)) as [[[r data] f'] w] eqn:Eo. unfold mbind at 1, D_bind at 1.
    erewrite used_call by done. destruct (decide (r < 0)) as [Hr|Hr];
      [rewrite !(bool_decide_true (r < 0)) by done|rewrite !(bool_decide_false (r < 0)) by done].
    + unfold mbind at 1, D_bind at 1. erewrite bind_run by (apply get_entry, (upd_same i); eauto).
      rewrite put_entry. unfold mret at 1, D_ret at 1. rewrite (bool_decide_true (r < 0)) by done.
      set (f2 := with_flags (Z.lor (f_flags f) DFS_F_EOF) (after f f')).
      change (upd i _ (set_world w _)) with (set_world w (upd i (used 2 ty p f2) (upd i (used 2 ty p (after f f')) s))).
      rewrite upd_twice. destruct (put_open s a i ty f p f2 w) as (s'&R&Hs'); try done. erewrite bind_run by exact R.
      eexists. split; [done|]. apply stands_errno. unfold a_update. cbn [a_fds set_a_fds set_a_world].
      rewrite list_lookup_insert_eq by (eapply lookup_lt_Some; exact Ha). cbn [set_a_fds a_fds].
      by rewrite list_insert_insert_eq.
    + erewrite bind_run by done. unfold mret at 1, D_ret at 1.
      destruct (put_open s a i ty f p (after f f') w) as (s'&R&Hs'); try done.
      erewrite bind_run by exact R. rewrite bool_decide_false by done. by eauto.
  - unfold mret at 1, D_ret at 1. erewrite bind_run by (by eapply put_same). with_errno.
Qed.

(** An error may be set before the descriptor is put back. *)
Lemma ioctl_meets fd cmd args : meets (ioctl fd cmd args) (a_ioctl M fd cmd args).
Proof.
  unfold ioctl, a_ioctl. got_file fd. unfold dfs_file_ioctl. unfold mbind at 1, D_bind at 1.
  erewrite bind_run by (apply get_entry, upd_same; eauto). cbn [used fd_type].
  assert (∀ e, ∃ s', (fails e ≫= λ ret, fd_put (Entry i);; mret ret) (upd i (used 2 ty p f) s) = Some (-1, s') ∧
    stands s' (set_a_errno e a)) as Herr.
  { intros e. exists (set_errno e s). split; [|by apply stands_errno]. unfold fails.
    rewrite (bind_run _ _ _ (-1) (upd i (used 2 ty p f) (set_errno e s))) by done.
    by erewrite bind_run by (eapply put_same; [by apply stands_errno|done|done]). }
  case_bool_decide as Ht; [unfold mret at 1, D_ret at 1; rewrite bool_decide_true by done; apply Herr|].
  erewrite bind_run by (by eapply used_ops). destruct (op_ioctl o) as [op|];
    [|unfold mret at 1, D_ret at 1; rewrite bool_decide_true by done; apply Herr].
  unfold a_call. destruct (op cmd args f (a_world a)) as [[r f'] w] eqn:Eo. erewrite used_call by done.
  destruct (put_open s a i ty f p (after f f') w) as (s1&R1&Hs1); try done.
  destruct (decide (r = 0)) as [->|Hr].
  - rewrite !(bool_decide_false (0 ≠ 0)) by auto. erewrite bind_run by done.
    erewrite bind_run by exact R1. by eauto.
  - rewrite !(bool_decide_true (r ≠ 0)) by done.
    destruct (put_open (set_errno r s) (set_a_errno r a) i ty f p (after f f') w) as (s2&R2&Hs2);
      [by apply stands_errno|done..|]. unfold fails.
    rewrite (bind_run _ _ _ (-1) (set_world w (upd i (used 2 ty p (after f f')) (set_errno r s)))) by done.
    erewrite bind_run by exact R2. by eauto.
Qed.

Lemma fstat_meets fd : meets (fstat fd) (a_fstat M fd).
Proof.
  unfold fstat, a_fstat. got_file fd. erewrite bind_run by (apply get_entry, upd_same; eauto).
  erewrite bind_run by (by eapply put_same). exists s. split; [|done]. cbn [used fd_type fd_size]. by case_bool_decide.
Qed.

Lemma lseek_meets fd offset whence : meets (lseek fd offset whence) (a_lseek M fd offset whence).
Proof.
  unfold lseek, a_lseek. got_file fd. erewrite bind_run by (apply get_entry, upd_same; eauto). cbn [used fd_pos fd_size].
  change (if bool_decide (whence = DFS_SEEK_SET) then _ else _) with (seek_base whence f).
  destruct (seek_base whence f) as [base|]; [|erewrite bind_run by (by eapply put_same); with_errno].
  case_bool_decide as Hneg; [erewrite bind_run by (by eapply put_same); with_errno|].
  set (off := s32 (offset + base)) in *. unfold dfs_file_lseek. unfold mbind at 1, D_bind at 1.
  erewrite bind_run by (apply get_entry, upd_same; eauto). cbn [used fd_fs].
  destruct (mounted_ops s a _ _ _ H Hm) as (g&bufm&Hg&Ho&_). erewrite bind_run by (eapply ops_of_run; [exact Hg|done]).
  destruct (op_lseek o) as [op|]; [|unfold mret at 1, D_ret at 1; erewrite bind_run by (by eapply put_same); with_errno].
  unfold a_call. destruct (op off f (a_world a)) as [[r f'] w] eqn:Eo. erewrite bind_run by (by eapply used_call).
  destruct (decide (r < 0)) as [Hr|Hr].
  - rewrite (bool_decide_false (0 <= r)), (bool_decide_true (r < 0)) by lia. erewrite bind_run by done.
    unfold mret at 1, D_ret at 1. destruct (put_open s a i ty f p (after f f') w) as (s'&R&Hs'); try done.
    erewrite bind_run by exact R. rewrite bool_decide_true by done. with_errno.
  - rewrite (bool_decide_true (0 <= r)), (bool_decide_false (r < 0)) by lia.
    unfold mbind at 1, D_bind at 1. erewrite bind_run by (apply get_entry, (upd_same i); eauto).
    rewrite put_entry. unfold mret at 1, D_ret at 1.
    change (upd i _ (set_world w _)) with
      (set_world w (upd i (used 2 ty p (with_pos r (after f f'))) (upd i (used 2 ty p (after f f')) s))).
    rewrite upd_twice. destruct (put_open s a i ty f p (with_pos r (after f f')) w) as (s'&R&Hs'); try done.
    erewrite bind_run by exact R. rewrite bool_decide_false by done. eexists. split; [done|].
    unfold a_update. cbn [a_fds set_a_fds set_a_world snd fst].
    rewrite list_lookup_insert_eq by (eapply lookup_lt_Some; exact Ha). cbn [set_a_fds a_fds].
    by rewrite list_insert_insert_eq.
Qed.

(** ** Closing *)

Lemma free_run p buf s : p ≠ 0 → blocks s !! p = Some buf → free_block p s = Some (tt, set_blocks (delete p (blocks s)) s).
Proof.
  intros Hp Hb. unfold free_block. rewrite bool_decide_false by done. unfold mbind, D_bind, dget. by rewrite Hb.
Qed.

(** The blocks change, but not those of the entries other than [i]. *)
Lemma entries_insert b b' t fds i d o : Forall2 (entry_for b) t fds → entry_for b' d o →
  (∀ j ty p f buf, j ≠ i → t !! j = Some (used 1 ty p f) → p ≠ 0 → b !! p = Some buf → b' !! p = Some buf) →
  Forall2 (entry_for b') (<[i := d]> t) (<[i := o]> fds).
Proof.
  intros H Hd Hb. apply Forall2_same_length_lookup. split; [rewrite !length_insert; by eapply Forall2_length|].
  intros j x y Hx Hy. apply list_lookup_insert_Some in Hx as [(<-&<-&Hi)|[Hne Hx]].
  - rewrite list_lookup_insert_eq in Hy by (by rewrite <- (Forall2_length _ _ _ H)). by injection Hy as <-.
  - rewrite list_lookup_insert_ne in Hy by done. pose proof (Forall2_lookup_lr _ _ _ _ _ _ H Hx Hy) as He.
    destruct y as [[ty f]|]; [|done]. destruct He as (p&buf&->&Hp&Hbp&Hs). exists p, buf. split_and!; try done.
    eapply Hb; [|exact Hx|done|done]. done.
Qed.

Lemma stands_close s a i ty f p buf : stands s a → a_fds a !! i = Some (Some (ty, f)) →
  fd_table s !! i = Some (used 1 ty p f) → p ≠ 0 → blocks s !! p = Some buf →
  stands (set_blocks (delete p (blocks s)) (upd i fd_zero s)) (set_a_fds (<[i := None]> (a_fds a)) a).
Proof.
  intros [] Ha Hd Hp Hb. split; try done; cbn.
  - by rewrite length_insert.
  - eapply entries_insert; [done|done|]. intros j ty' q f' buf' Hj Hd' Hq Hb'. rewrite lookup_delete_ne; [done|].
    intros ->. apply Hj. eapply st_own0; [exact Hd'|exact Hd|done|done].
  - intros j ty' f' Hj. apply list_lookup_insert_Some in Hj as [(?&?&?)|[? ?]]; [done|eauto].
  - apply map_subseteq_spec. intros q c Hq. rewrite lookup_delete_ne; [by eapply lookup_weaken|].
    intros <-. pose proof (st_apart0 i _ Hd Hp) as HK. cbn in HK. congruence.
  - intros j k d e. rewrite !list_lookup_insert_Some. intros [(<-&<-&_)|(?&?)] [(<-&<-&_)|(?&?)]; cbn; eauto; try done.
  - intros j d. rewrite list_lookup_insert_Some. intros [(<-&<-&_)|(?&?)]; cbn; eauto; done.
  - intros q [c Hq]. apply lookup_delete_Some in Hq as [Hne Hq]. destruct (st_leak0 q (ex_intro _ c Hq)) as [?|(j&d&Hj&?&?)]; [by left|].
    right. exists j, d. rewrite list_lookup_insert_ne; [done|]. intros <-. rewrite Hd in Hj. injection Hj as <-. done.
Qed.

(** What is left of an open file whose path was freed. *)
Lemma file_close_run s a i ty f o p buf mp : stands s a → a_fds a !! i = Some (Some (ty, f)) → M !! f_fs f = Some (Some (mp, o)) →
  fd_table s !! i = Some (used 1 ty p f) → p ≠ 0 → blocks s !! p = Some buf → cstring buf = Some (f_path f) →
  ∃ r w f2, (match op_close o with Some op => a_call i ty f op a | None => (0, a) end) =
      (r, set_a_fds (<[i := Some (ty, f2)]> (a_fds a)) (set_a_world w a)) ∧ f_fs f2 = f_fs f ∧ f_path f2 = f_path f ∧
    dfs_file_close (Some (Entry i)) (upd i (used 2 ty p f) s) =
      Some (r, if bool_decide (r < 0) then set_world w (upd i (used 2 ty p f2) s)
               else set_world w (set_blocks (delete p (blocks s)) (upd i (used 2 ty 0 f2) s))).
Proof.
  intros H Ha Hm Hd Hp Hb Hs. unfold dfs_file_close. erewrite bind_run by (by eapply used_ops).
  assert (∃ r w f2, (match op_close o with Some op => a_call i ty f op a | None => (0, a) end) =
      (r, set_a_fds (<[i := Some (ty, f2)]> (a_fds a)) (set_a_world w a)) ∧ f_fs f2 = f_fs f ∧ f_path f2 = f_path f ∧
      match op_close o with Some op => call_file (Entry i) op | None => mret 0 end (upd i (used 2 ty p f) s) =
        Some (r, set_world w (upd i (used 2 ty p f2) s))) as (r&w&f2&E1&E2&E3&E4).
  { destruct (op_close o) as [op|].
    - unfold a_call. destruct (op f (a_world a)) as [[r f'] w] eqn:Eo. exists r, w, (after f f'). split_and!; try done.
      by eapply used_call.
    - exists 0, (world s), f. split_and!; try done. rewrite (st_world _ _ H), list_insert_id by done. by destruct a. }
  exists r, w, f2. split_and!; try done. erewrite bind_run by exact E4. case_bool_decide; [done|].
  erewrite bind_run by (apply get_entry, (upd_same i); eauto).
  erewrite bind_run by (by eapply free_run). cbn [used fd_path]. rewrite (bind_run _ _ _ tt _ (put_entry i _ _)).
  unfold mret, D_ret. do 2 f_equal.
  change (set_world w (set_blocks (delete p (blocks s)) (upd i (used 2 ty 0 f2) (upd i (used 2 ty p f2) s))) =
    set_world w (set_blocks (delete p (blocks s)) (upd i (used 2 ty 0 f2) s))). by rewrite upd_twice.
Qed.

Lemma close_meets fd : meets (close fd) (a_close M fd).
Proof.
  unfold close, a_close. got_file fd.
  destruct (file_close_run s a i ty f o p buf mp) as (r&w&f2&E1&E2&E3&R); try done. rewrite E1.
  erewrite bind_run by exact R. case_bool_decide as Hr.
  - destruct (put_open s a i ty f p f2 w) as (s'&R'&Hs'); try done. erewrite bind_run by exact R'. with_errno.
  - set (s1 := set_world w (set_blocks (delete p (blocks s)) s)).
    change (set_world w (set_blocks (delete p (blocks s)) (upd i (used 2 ty 0 f2) s))) with (upd i (used 2 ty 0 f2) s1).
    erewrite bind_run by (eapply fd_put_run; [apply H|apply upd_same; eauto]). rewrite upd_twice.
    erewrite bind_run by (eapply fd_put_run; [apply H|apply upd_same; eauto]). rewrite upd_twice.
    eexists. split; [done|]. cbn [fst snd set_a_fds a_fds]. rewrite list_insert_insert_eq.
    apply (stands_world w (set_blocks (delete p (blocks s)) (upd i fd_zero s)) (set_a_fds (<[i := None]> (a_fds a)) a)).
    by eapply stands_close.
Qed.

(** ** Opening *)

Lemma free_entry_ok b t fds : Forall2 (entry_for b) t fds → ∀ n, free_entry t n = first_free fds n.
Proof.
  induction 1 as [|d o t fds He _ IH]; intros n; [done|]. cbn. destruct o as [[ty f]|].
  - destruct He as (p&buf&->&_). cbn. apply IH.
  - by rewrite He.
Qed.
Lemma first_free_entry fds : ∀ n i, first_free fds n = Some i → (n <= i)%nat ∧ fds !! (i - n)%nat = Some None.
Proof.
  induction fds as [|[x|] fds IH]; intros n i; cbn; [done| |].
  - intros E. destruct (IH _ _ E) as [Hn Hi]. split; [lia|]. by replace (i - n)%nat with (S (i - S n)) by lia.
  - intros [= ->]. by rewrite Nat.sub_diag.
Qed.

(** A descriptor that is reserved. *)
Definition reserved (n : Z) : dfs_fd := Fd DFS_FD_MAGIC 0 0 n None 0 0 0 0.

Lemma fd_new_run s a : stands s a →
  match first_free (a_fds a) 0 with
  | None => fd_new s = Some (-1, s)
  | Some i => a_fds a !! i = Some None ∧ fd_table s !! i = Some fd_zero ∧ (i < DFS_FD_MAX)%nat ∧
      fd_new s = Some (Z.of_nat i, upd i (reserved 1) s)
  end.
Proof.
  intros H. pose proof (free_entry_ok _ _ _ (st_fds _ _ H) 0) as Hf.
  destruct (first_free (a_fds a) 0) as [i|] eqn:E.
  - destruct (first_free_entry _ _ _ E) as [_ Hi]. rewrite Nat.sub_0_r in Hi.
    destruct (Forall2_lookup_r _ _ _ _ _ (st_fds _ _ H) Hi) as (d&Hd&He). cbn in He. subst d.
    split_and!; try done; [rewrite <- (st_len _ _ H); by eapply lookup_lt_Some|].
    pose proof (st_lock _ _ H) as Hl. unfold fd_new. destruct s. cbn in *. subst.
    unfold dfs_lock, dfs_unlock, mbind, D_bind, dget, dset. cbn. rewrite Hf. unfold get_fd, mbind, D_bind, dget, dlift. cbn.
    by rewrite Hd.
  - pose proof (st_lock _ _ H) as Hl. unfold fd_new. destruct s. cbn in *. subst.
    unfold dfs_lock, dfs_unlock, mbind, D_bind, dget, dset. cbn. by rewrite Hf.
Qed.

Lemma stands_open s a i ty f q buf : stands s a → a_fds a !! i = Some None → fd_table s !! i = Some fd_zero →
  q ≠ 0 → blocks s !! q = None → cstring buf = Some (f_path f) → (∃ mp o, M !! f_fs f = Some (Some (mp, o))) →
  stands (set_blocks (<[q := buf]> (blocks s)) (upd i (used 1 ty q f) s)) (set_a_fds (<[i := Some (ty, f)]> (a_fds a)) a).
Proof.
  intros H Ha Hd Hq Hb Hs Hm.
  assert (∀ j d, fd_table s !! j = Some d → fd_path d ≠ 0 → fd_path d ≠ q) as Hne.
  { intros j d Hj Hp <-. destruct (Forall2_lookup_l _ _ _ _ _ (st_fds _ _ H) Hj) as ([[ty' f']|]&_&He); [|by rewrite He in Hp].
    destruct He as (p&c&->&_&Hp'&_). cbn in *. congruence. }
  destruct H. split; try done; cbn.
  - by rewrite length_insert.
  - eapply entries_insert; [done| |].
    + exists q, buf. split_and!; try done. by rewrite lookup_insert_eq.
    + intros j ty' p f' buf' Hj Hd' Hp Hb'. rewrite lookup_insert_ne; [done|]. intros <-. congruence.
  - intros j ty' f' Hj. apply list_lookup_insert_Some in Hj as [(<-&[= <- <-]&?)|[? ?]]; [done|eauto].
  - etrans; [done|by apply insert_subseteq].
  - intros j k d e. rewrite !list_lookup_insert_Some. intros [(<-&<-&_)|(?&?)] [(<-&<-&_)|(?&?)]; cbn; intros ? Heq;
      [done|exfalso; eapply Hne; [done| |by symmetry]; congruence|exfalso; eapply Hne; [done|done|done]|eauto].
  - intros j d. rewrite list_lookup_insert_Some. intros [(<-&<-&_)|(?&?)]; cbn; [|eauto]. intros _.
    destruct (K !! q) eqn:EK; [|done]. pose proof (lookup_weaken _ _ _ _ EK st_kept0). congruence.
  - intros p [c Hp]. destruct (decide (p = q)) as [->|Hpq].
    + right. exists i, (used 1 ty q f). rewrite list_lookup_insert_eq by (by eapply lookup_lt_Some). done.
    + rewrite lookup_insert_ne in Hp by done. destruct (st_leak0 p (ex_intro _ c Hp)) as [?|(j&d&Hj&?&?)]; [by left|].
      right. exists j, d. rewrite list_lookup_insert_ne; [done|]. intros <-. rewrite Hd in Hj. by injection Hj as <-.
Qed.

(** ** Paths *)

Section heap.
Context `{!HeapLaws W}.

(** Where the heap has a block for the string [l], 0 if it refuses. *)
Definition place (s : dfs) (l : list Z) : Z := heap_address (world s) (blocks s) (zlen l + 1).

Lemma place_fresh l s : place s l ≠ 0 → blocks s !! place s l = None.
Proof. apply heap_fresh. Qed.

Lemma strdup_run l s : let p := place s l in
  block_strdup l s = Some (p, if bool_decide (p = 0) then s else set_blocks (<[p := l ++ [0]]> (blocks s)) s).
Proof.
  unfold block_strdup, new_block, place, mbind, D_bind, dget. cbv zeta. rewrite zlen_app. change (zlen [0]) with 1.
  case_bool_decide as E; [by rewrite E|done].
Qed.

Lemma block_null s a : stands s a → blocks s !! 0 = None.
Proof.
  intros H. destruct (blocks s !! 0) eqn:E; [|done].
  destruct (st_leak _ _ H 0 (ex_intro _ _ E)) as [[c Hc]|(i&d&_&Hd&Hd')]; [|done]. by rewrite (st_null _ _ H) in Hc.
Qed.

(** The path that is rewritten: the file name alone or behind the directory. *)
Definition joined (dir : option (list Z)) (filename : list Z) : option (list Z) :=
  if bool_decide (head filename = Some SLASH) then Some filename
  else d ← dir; Some (d ++ SLASH :: filename).

(** The whole function: a new block with the path, or nothing. *)
Lemma normalize_run dir filename path s :
  joined (match dir with Some _ => dir | None => working_directory s end) filename = Some path →
  chars_ok path →
  dfs_normalize_path dir filename s =
    if bool_decide (place s path = 0) then Some (0, s)
    else match normalize_buffer (path ++ [0]) with
         | None => None
         | Some None => Some (0, s)
         | Some (Some buf) => Some (place s path, set_blocks (<[place s path := buf]> (blocks s)) s)
         end.
Proof.
  intros Hj Hok. set (wd := match dir with Some _ => dir | None => working_directory s end) in *.
  unfold dfs_normalize_path. erewrite bind_run by done. cbv zeta. fold wd. unfold joined in Hj.
  erewrite bind_run; [|etrans; [|exact (strdup_run path s)]].
  2: { destruct (decide (head filename = Some SLASH)) as [Hh|Hh].
       - rewrite bool_decide_true in Hj by done. injection Hj as ->. by rewrite bool_decide_false by (intros X; done).
       - rewrite bool_decide_false in Hj by done. rewrite bool_decide_true by done.
         destruct wd as [d|]; [|done]. cbn in Hj. injection Hj as <-. unfold block_strdup. by rewrite <- app_assoc. }
  cbv zeta. destruct (decide (place s path = 0)) as [Hp|Hp];
    [by rewrite !(bool_decide_true (place s path = 0))|rewrite !(bool_decide_false (place s path = 0)) by done]. pose proof (place_fresh path s Hp) as Hb.
  erewrite bind_run by done. unfold mbind at 1, D_bind at 1, dlift at 1. cbn [blocks set_blocks].
  rewrite lookup_insert_eq. unfold mbind at 1, D_bind at 1, dlift at 1.
  destruct (normalize_buffer (path ++ [0])) as [[buf|]|]; [| |done].
  - unfold mbind, D_bind, dset, mret, D_ret. cbn. by rewrite insert_insert_eq.
  - erewrite bind_run by (eapply free_run; [done|apply lookup_insert_eq]). unfold mret, D_ret. do 2 f_equal. cbn.
    rewrite delete_insert_id by done. by destruct s.
Qed.

(** An absolute path: no memory for it, or a path that stays below the root. *)
Lemma normalize_refused l s : chars_ok l → place s (SLASH :: l) = 0 → dfs_normalize_path None (SLASH :: l) s = Some (0, s).
Proof.
  intros Hok E. rewrite (normalize_run None (SLASH :: l) (SLASH :: l) s eq_refl) by (by constructor). by rewrite bool_decide_true.
Qed.

Lemma normalize_inside l ns s : chars_ok l → resolve [] (names l) = Some ns → place s (SLASH :: l) ≠ 0 →
  ∃ p buf, p = place s (SLASH :: l) ∧ p ≠ 0 ∧ blocks s !! p = None ∧ cstring buf = Some (absolute ns) ∧
    dfs_normalize_path None (SLASH :: l) s = Some (p, set_blocks (<[p := buf]> (blocks s)) s).
Proof.
  intros Hok E Hp. assert (chars_ok (SLASH :: l)) as Hok' by (by constructor).
  pose proof (normalize_ok (SLASH :: l) Hok' ltac:(done)) as H. cbn [parts] in H.
  rewrite bool_decide_true in H by done. change (resolve [] ([] :: names l)) with (resolve [[]] (names l)) in H.
  rewrite (resolve_root _ [] _ _ E), render_absolute in H. destruct H as (buf&HN&Hs). exists (place s (SLASH :: l)), buf.
  split_and!; [done|done|by apply place_fresh|done|]. rewrite (normalize_run None (SLASH :: l) (SLASH :: l) s eq_refl Hok').
  by rewrite bool_decide_false, HN.
Qed.

(** ** Finding the file system *)

Lemma lookup_loop_run path s t (M' : mounts W) : Forall2 (mount_for K) t M' → K ⊆ blocks s →
  ∀ i fs n, lookup_loop path t i fs n s = Some (best_mount M' path i fs n, s).
Proof.
  intros H HK. induction H as [|f m t M' Hm _ IH]; intros i fs n; [done|]. cbn [lookup_loop best_mount].
  destruct m as [[mp o]|]; [|cbn in Hm; subst f; by rewrite bool_decide_true by (by left)].
  destruct Hm as (Hp&Ho&_&buf&Hb&Hs). rewrite bool_decide_false by tauto.
  erewrite bind_run by (eapply string_at_run; [by eapply lookup_weaken|done]). cbv zeta. unfold covers_path.
  destruct (decide (n <= length mp)%nat) as [Hn|Hn]; [rewrite (bool_decide_true (n <= _)%nat) by done|
    rewrite (bool_decide_false (n <= _)%nat), bool_decide_true by (done || left; lia); cbn [andb]; apply IH].
  destruct (decide (take (length mp) path = mp)) as [Et|Et]; [rewrite (bool_decide_true (take _ _ = _)) by done|
    rewrite (bool_decide_false (take _ _ = _)), bool_decide_true by (done || by right); cbn [andb]; apply IH].
  rewrite bool_decide_false by (intros [?|?]; [lia|done]). cbn [andb].
  case_bool_decide as H1; case_bool_decide as H2; try apply IH; exfalso.
  - destruct H1 as [? ?], H2 as [?|[?|?]]; [lia|lia|done].
  - apply H2. destruct (decide (length mp <= 1)%nat); [by left|]. destruct (decide (length path <= length mp)%nat); [by right; left|].
    right; right. destruct (decide (path !! length mp = Some SLASH)); [done|]. exfalso. apply H1. split; [lia|done].
Qed.

Lemma lookup_run path s t : fslock s = 0 → filesystem_table s = t → Forall2 (mount_for K) t M → K ⊆ blocks s →
  dfs_filesystem_lookup path s = Some (best_mount M path 0 None 0, s).
Proof.
  intros Hl <- Hm HK. unfold dfs_filesystem_lookup. erewrite bind_run by done. erewrite bind_run by done.
  erewrite bind_run by (by apply lookup_loop_run). destruct s. cbn in *. by subst.
Qed.

Lemma best_mount_sound path (M' : mounts W) : ∀ i fs n r, best_mount M' path i fs n = Some r →
  fs = Some r ∨ (i <= r)%nat ∧ ∃ mp o, M' !! (r - i)%nat = Some (Some (mp, o)) ∧ covers_path mp path = true.
Proof.
  induction M' as [|[[mp o]|] M' IH]; intros i fs n r; cbn [best_mount]; [by left| |].
  - destruct (bool_decide (n <= length mp)%nat && covers_path mp path) eqn:Ec; intros E.
    + destruct (IH _ _ _ _ E) as [[= ->]|(Hr&mp'&o'&Hm&Hc)].
      * right. split; [lia|]. rewrite Nat.sub_diag. exists mp, o. split; [done|]. by apply andb_true_iff in Ec as [_ ?].
      * right. split; [lia|]. replace (r - i)%nat with (S (r - S i)) by lia. eauto.
    + destruct (IH _ _ _ _ E) as [?|(Hr&?)]; [by left|]. right. split; [lia|]. by replace (r - i)%nat with (S (r - S i)) by lia.
  - intros E. destruct (IH _ _ _ _ E) as [?|(Hr&?)]; [by left|]. right. split; [lia|].
    by replace (r - i)%nat with (S (r - S i)) by lia.
Qed.

(** The file systems are mounted on canonical paths. *)
Definition mounts_ok : Prop := ∀ fs mp o, M !! fs = Some (Some (mp, o)) → ∃ ns, canonical ns ∧ mp = absolute ns.

Lemma absolute_root ms : canonical ms → (length (absolute ms) <= 1)%nat → ms = [].
Proof.
  intros Hm Hl. destruct ms as [|m ms]; [done|]. apply Forall_cons in Hm as [(_&_&Hne&_) _]. destruct m; [done|].
  destruct ms; cbn in Hl; lia.
Qed.

Lemma subdir_run ms ns : canonical ms → canonical ns → covers_path (absolute ms) (absolute ns) = true →
  ∃ sub, dfs_subdir (absolute ms) (absolute ns) = Some sub ∧
    match sub with None => [SLASH] | Some sub => sub end = below (absolute ms) (absolute ns).
Proof.
  intros Hm Hn [Ht Hc]%andb_true_iff. apply bool_decide_eq_true in Ht, Hc. unfold dfs_subdir, below.
  case_bool_decide as Hl; [by eexists|].
  assert (length (absolute ms) < length (absolute ns))%nat as Hlt.
  { apply (f_equal length) in Ht. rewrite length_take in Ht. lia. }
  destruct (lookup_lt_is_Some_2 (absolute ns) (length (absolute ms)) Hlt) as [c Ec]. rewrite Ec. cbn [mbind option_bind].
  eexists. split; [done|]. destruct (decide (absolute ms = [SLASH])) as [Hr|Hr];
    [rewrite (bool_decide_true (_ = [SLASH])) by done|rewrite (bool_decide_false (_ = [SLASH])) by done].
  - apply absolute_root in Hm; [|by rewrite Hr]. subst ms. rewrite bool_decide_true; [done|].
    split; [|done]. destruct ns as [|n ns]; [done|]. apply Forall_cons in Hn as [(Hns&_&Hne&_) _].
    destruct n as [|x n]; [done|]. apply Forall_cons in Hns as [Hx _].
    assert (x = c) as <- by (destruct ns; by injection Ec). done.
  - rewrite bool_decide_false; [done|]. intros [Hcs _]. destruct Hc as [Hc|[Hc|Hc]]; [|lia|congruence].
    apply Hr. by rewrite (absolute_root ms).
Qed.

(** The path of the descriptor: the block the file system sees, or no block where
    there is no memory for the part below the mount point. *)
Lemma open_path_run s a i d fs mp o ns p buf : stands s a → mounts_ok → canonical ns →
  M !! fs = Some (Some (mp, o)) → covers_path mp (absolute ns) = true → is_Some (fd_table s !! i) →
  p ≠ 0 → blocks s !! p = None → cstring buf = Some (absolute ns) →
  let s1 := set_blocks (<[p := buf]> (blocks s)) (upd i d s) in
  (full_path o = false ∧ heap_address (world s) (<[p := buf]> (blocks s)) (zlen (below mp (absolute ns)) + 1) = 0 ∧
    open_path (Entry i) o fs p (absolute ns) s1 = Some (tt, upd i (set_fd_path 0 d) s)) ∨
  ∃ q buf', q ≠ 0 ∧ blocks s !! q = None ∧ cstring buf' = Some (path_in o mp (absolute ns)) ∧
    open_path (Entry i) o fs p (absolute ns) s1 =
    Some (tt, set_blocks (<[q := buf']> (blocks s)) (upd i (set_fd_path q d) s)).
Proof.
  intros H Hmo Hns Hm Hc Hi Hp Hb Hs s1. unfold path_in, open_path.
  erewrite bind_run by (apply get_entry, (upd_same i); done). destruct (full_path o).
  - right. exists p, buf. split_and!; try done. rewrite put_entry. do 2 f_equal.
    change (set_blocks (<[p := buf]> (blocks s)) (upd i (set_fd_path p d) (upd i d s)) =
      set_blocks (<[p := buf]> (blocks s)) (upd i (set_fd_path p d) s)). by rewrite upd_twice.
  - destruct (Hmo _ _ _ Hm) as (ms&Hms&->). destruct (subdir_run ms ns Hms Hns Hc) as (sub&Hsub&Hbelow).
    destruct (mounted_ops s a _ _ _ H Hm) as (g&bufm&Hg&_&HK&Hgb&Hgs).
    set (sub' := below (absolute ms) (absolute ns)). set (q := place s1 sub'). 
    match goal with |- context [(get_fs fs ≫= ?k) s1] => set (c := (get_fs fs ≫= k) s1) end.
    assert (c = free_block p (upd i (set_fd_path q d) (if bool_decide (q = 0) then s1 else set_blocks (<[q := sub' ++ [0]]> (blocks s1)) s1))) as ->.
    { unfold c. erewrite bind_run by (by eapply get_fs_run).
      erewrite bind_run by (eapply string_at_run; [apply lookup_insert_Some; right; split; [|exact Hgb]; congruence|exact Hgs]).
      unfold dlift at 1. rewrite Hsub. unfold mbind at 1, D_bind at 1. rewrite Hbelow.
      rewrite (bind_run _ _ _ _ _ (strdup_run sub' s1)). by rewrite (bind_run _ _ _ tt _ (put_entry i _ _)). }
    change (heap_address _ _ _) with q. case_bool_decide as Hq.
    + left. split_and!; [done|done|]. rewrite Hq. erewrite free_run; [|done|apply lookup_insert_eq]. do 2 f_equal.
      cbn [blocks set_blocks s1 upd set_fds]. rewrite delete_insert_id by done.
      change (set_blocks (blocks s) (upd i (set_fd_path 0 d) (upd i d s)) = upd i (set_fd_path 0 d) s).
      rewrite upd_twice. by destruct s.
    + right. pose proof (place_fresh _ _ Hq) as Hqb. fold q in Hqb.
      cbn [s1 blocks set_blocks] in Hqb. apply lookup_insert_None in Hqb as [Hqb Hpq].
      exists q, (sub' ++ [0]). split_and!; [done|done| |].
      { apply cstring_ok. unfold sub', below. case_bool_decide; [by repeat constructor|].
        destruct (canonical_fixed ns Hns) as (_&_&Hok). case_bool_decide; [done|by apply Forall_drop]. }
      erewrite free_run; [|done|cbn; rewrite lookup_insert_ne by done; apply lookup_insert_eq]. do 2 f_equal.
      cbn [blocks set_blocks s1 upd set_fds]. rewrite delete_insert_ne, delete_insert_id by done.
      change (set_blocks (<[q := sub' ++ [0]]> (blocks s)) (upd i (set_fd_path q d) (upd i d s)) =
        set_blocks (<[q := sub' ++ [0]]> (blocks s)) (upd i (set_fd_path q d) s)). by rewrite upd_twice.
Qed.

(** An open that fails leaves only the reserved descriptor. *)
Definition open_failed (i : nat) (flags : Z) (path : list Z) (s : dfs) (a : files W) (c : D Z) : Prop :=
  ∃ r d w, r < 0 ∧ c (upd i (reserved 2) s) = Some (r, set_world w (upd i d s)) ∧ fd_ref_count d = 2 ∧
    a_open M path flags a = a_fails r (set_a_world w a).
(** One that succeeds leaves the open file. *)
Definition open_done (i : nat) (flags : Z) (path : list Z) (s : dfs) (a : files W) (c : D Z) : Prop :=
  ∃ ty f w q buf, c (upd i (reserved 2) s) =
      Some (0, set_world w (set_blocks (<[q := buf]> (blocks s)) (upd i (used 2 ty q f) s))) ∧
    q ≠ 0 ∧ blocks s !! q = None ∧ cstring buf = Some (f_path f) ∧ (∃ mp o, M !! f_fs f = Some (Some (mp, o))) ∧
    a_open M path flags a = (Z.of_nat i, set_a_fds (<[i := Some (ty, f)]> (a_fds a)) (set_a_world w a)).

Lemma open_fails_run i d s q buf r w : q ≠ 0 → blocks s !! q = None → fd_path d = q → is_Some (fd_table s !! i) →
  open_fails (Entry i) r (set_world w (set_blocks (<[q := buf]> (blocks s)) (upd i d s))) =
    Some (r, set_world w (upd i (set_fd_path 0 d) s)).
Proof.
  intros Hq Hb Hd Hi. unfold open_fails. erewrite bind_run by (apply get_entry, (upd_same i); done). rewrite Hd.
  erewrite bind_run by (eapply free_run; [done|apply lookup_insert_eq]). rewrite (bind_run _ _ _ tt _ (put_entry i _ _)).
  unfold mret, D_ret. do 2 f_equal. cbn [blocks set_blocks set_world upd set_fds]. rewrite delete_insert_id by done.
  change (set_world w (set_blocks (blocks s) (upd i (set_fd_path 0 d) (upd i d s))) = set_world w (upd i (set_fd_path 0 d) s)).
  by rewrite upd_twice.
Qed.

(** The call of the file system on a descriptor that has its path. *)
Lemma open_call_run s a i fs o mp q buf path flags : stands s a → is_Some (fd_table s !! i) →
  first_free (a_fds a) 0 = Some i → best_mount M path 0 None 0 = Some fs → M !! fs = Some (Some (mp, o)) →
  q ≠ 0 → blocks s !! q = None → cstring buf = Some (path_in o mp path) →
  let s1 := set_blocks (<[q := buf]> (blocks s)) (upd i (used 2 FT_REGULAR q (File fs (path_in o mp path) flags 0 0 0)) s) in
  open_failed i flags path s a (λ _, open_call (Entry i) o flags s1) ∨ open_done i flags path s a (λ _, open_call (Entry i) o flags s1).
Proof.
  intros H Hi Hfree Ebest Hm Hq Hqb Hqs s1. unfold open_failed, open_done, a_open, open_call. rewrite Hfree, Ebest, Hm.
  set (f := File fs (path_in o mp path) flags 0 0 0) in *. destruct (op_open o) as [op|].
  2: { left. exists (- DFS_STATUS_ENOSYS), (set_fd_path 0 (used 2 FT_REGULAR q f)), (world s). split_and!; [done| |done|].
       - apply (open_fails_run i (used 2 FT_REGULAR q f) s q buf (- DFS_STATUS_ENOSYS) (world s) Hq Hqb eq_refl Hi).
       - unfold a_fails. rewrite (st_world _ _ H). by destruct a. }
  destruct (op f (a_world a)) as [[r f'] w] eqn:Eop.
  erewrite bind_run by (eapply call_file_run; [apply (upd_same i); done|apply lookup_insert_eq|exact Hqs|
    change (world s1) with (world s); rewrite (st_world _ _ H); exact Eop]).
  change (set_world w (upd i _ s1)) with (set_world w (set_blocks (<[q := buf]> (blocks s))
    (upd i (used 2 FT_REGULAR q (after f f')) (upd i (used 2 FT_REGULAR q f) s)))).
  rewrite upd_twice. case_bool_decide as Hr.
  - left. exists r, (set_fd_path 0 (used 2 FT_REGULAR q (after f f'))), w. split_and!; [done| |done|done].
    by apply open_fails_run.
  - right. exists (opened flags (after f f')).1, (opened flags (after f f')).2, w, q, buf.
    erewrite bind_run by (apply get_entry, (upd_same i); done). rewrite (bind_run _ _ _ tt _ (put_entry i _ _)).
    rewrite upd_deep. unfold opened. case_bool_decide; split_and!; eauto.
Qed.

(** One that is refused memory for the path the file system is to be given: it
    hands a null pointer to the file system. *)
Definition open_faults (i : nat) (path' path : list Z) (s : dfs) (c : D Z) : Prop :=
  place s path' ≠ 0 ∧
  ∃ fs mp o buf, best_mount M path 0 None 0 = Some fs ∧ M !! fs = Some (Some (mp, o)) ∧ full_path o = false ∧ is_Some (op_open o) ∧
    heap_address (world s) (<[place s path' := buf]> (blocks s)) (zlen (below mp path) + 1) = 0 ∧ c (upd i (reserved 2) s) = None.

(** No path, and the call of the file system. *)
Lemma open_call_null s a i fs o mp path flags : stands s a → is_Some (fd_table s !! i) →
  first_free (a_fds a) 0 = Some i → best_mount M path 0 None 0 = Some fs → M !! fs = Some (Some (mp, o)) →
  let s1 := upd i (Fd DFS_FD_MAGIC FT_REGULAR 0 2 (Some fs) flags 0 0 0) s in
  (is_Some (op_open o) ∧ open_call (Entry i) o flags s1 = None) ∨ open_failed i flags path s a (λ _, open_call (Entry i) o flags s1).
Proof.
  intros H Hi Hfree Ebest Hm s1. unfold open_failed, open_call, a_open. rewrite Hfree, Ebest, Hm. destruct (op_open o) as [op|].
  - left. split; [done|]. unfold mbind, D_bind, call_file. erewrite bind_run by (by apply get_entry, (upd_same i)).
    unfold file_of, string_at, mbind, D_bind, dget, dlift. cbn [fd_path blocks s1 upd set_fds]. by rewrite (block_null s a H).
  - right. exists (- DFS_STATUS_ENOSYS), (Fd DFS_FD_MAGIC FT_REGULAR 0 2 (Some fs) flags 0 0 0), (world s). split_and!; [done| |done|].
    + unfold open_fails. erewrite bind_run by (by apply get_entry, (upd_same i)). erewrite bind_run by done.
      rewrite (bind_run _ _ _ tt _ (put_entry i _ _)). unfold mret, D_ret, s1. do 2 f_equal. rewrite upd_twice. by destruct s.
    + unfold a_fails. rewrite (st_world _ _ H). by destruct a.
Qed.

Lemma file_open_run l ns flags s a i : stands s a → mounts_ok → chars_ok l → resolve [] (names l) = Some ns → place s (SLASH :: l) ≠ 0 →
  first_free (a_fds a) 0 = Some i → fd_table s !! i = Some fd_zero →
  let c := dfs_file_open (Some (Entry i)) (SLASH :: l) flags in
  open_faults i (SLASH :: l) (absolute ns) s c ∨ open_failed i flags (absolute ns) s a c ∨ open_done i flags (absolute ns) s a c.
Proof.
  intros H Hmo Hl Hres Hpl Hfree Hz. pose proof (resolve_canonical l ns Hl Hres) as Hns.
  set (s0 := upd i (reserved 2) s). destruct (normalize_inside l ns s0 Hl Hres Hpl) as (p&buf&Ep&Hp&Hb&Hs&R1).
  unfold open_faults, open_failed, open_done, dfs_file_open. cbv zeta. fold s0. rewrite (bind_run _ _ _ _ _ R1), bool_decide_false by done.
  rewrite (bind_run _ _ _ _ _ (string_at_run p buf (absolute ns) _ (lookup_insert_eq _ _ _) Hs)).
  erewrite (bind_run _ _ (set_blocks _ s0)) by (eapply lookup_run; [apply H|done|apply H|etrans; [apply H|by apply insert_subseteq]]).
  destruct (best_mount M (absolute ns) 0 None 0) as [fs|] eqn:Ebest.
  - destruct (best_mount_sound _ _ _ _ _ _ Ebest) as [?|(_&mp&o&Hm&Hc)]; [done|]. rewrite Nat.sub_0_r in Hm.
    destruct (mounted_ops s a _ _ _ H Hm) as (g&bufm&Hg&Ho&_).
    rewrite (bind_run _ _ _ (reserved 2) (set_blocks (<[p := buf]> (blocks s)) s0)) by (apply get_entry, (upd_same i); eauto).
    rewrite (bind_run _ _ _ tt _ (put_entry i _ _)).
    set (d1 := Fd DFS_FD_MAGIC FT_REGULAR 0 2 (Some fs) flags 0 0 0).
    change (upd i _ (set_blocks _ s0)) with (set_blocks (<[p := buf]> (blocks s)) (upd i d1 s0)). unfold s0. rewrite upd_twice.
    erewrite bind_run by (eapply ops_of_run; [exact Hg|done]).
    destruct (open_path_run s a i d1 fs mp o ns p buf) as [(Hfull&Hno&R2)|(q&buf'&Hq&Hqb&Hqs&R2)]; try done;
      rewrite (bind_run _ _ _ _ _ R2).
    + destruct (open_call_null s a i fs o mp (absolute ns) flags) as [[Hop R3]|HF]; try done; [left|right; by left].
      split; [done|]. exists fs, mp, o, buf. split_and!; try done. change (place s (SLASH :: l)) with (place s0 (SLASH :: l)). by rewrite <- Ep.
    + right. apply (open_call_run s a i fs o mp q buf' (absolute ns) flags); try done.
  - right. left. exists (- DFS_STATUS_ENOENT), (reserved 2), (world s). split_and!; [done| |done|].
    + erewrite bind_run by (eapply free_run; [done|apply lookup_insert_eq]).
      unfold mret, D_ret. do 2 f_equal. cbn. rewrite delete_insert_id by done. by destruct s.
    + unfold a_open. rewrite Hfree, Ebest. unfold a_fails. rewrite (st_world _ _ H). by destruct a.
Qed.

(** Both references of a descriptor that was reserved are given back. *)
Lemma put_twice i d w s : fslock s = 0 → fd_table s !! i = Some fd_zero → fd_ref_count d = 2 →
  ∃ s1, fd_put (Entry i) (set_world w (upd i d s)) = Some (tt, s1) ∧ fd_put (Entry i) s1 = Some (tt, set_world w s).
Proof.
  intros Hl Hz Hd. change (set_world w (upd i d s)) with (upd i d (set_world w s)). eexists. split.
  - eapply fd_put_run; [done|]. apply upd_same. by exists fd_zero.
  - rewrite upd_twice, Hd. erewrite fd_put_run; [|done|by apply upd_same; exists fd_zero]. do 2 f_equal.
    rewrite upd_twice. cbn [fd_ref_count set_fd_ref]. by apply upd_id.
Qed.

(** Memory is refused: for the path, or afterwards for a second string. *)
Definition no_path (path : list Z) (w : W) (b : gmap Z (list Z)) : Prop := heap_address w b (zlen path + 1) = 0.
Definition no_copy (path second : list Z) (w : W) (b : gmap Z (list Z)) : Prop :=
  ¬ no_path path w b ∧ ∃ buf, no_path second w (<[heap_address w b (zlen path + 1) := buf]> b).

(** What a function gives and leaves is what is promised, or what it may do instead
    when memory is refused; [None] is a fault. *)
Definition meets_or {A} (c : D A) (spec : files W → A * files W) (short : gmap Z (list Z) → files W → option (A * files W) → Prop) : Prop :=
  ∀ s a, stands s a →
    (∃ s', c s = Some ((spec a).1, s') ∧ stands s' (spec a).2) ∨
    (∃ r a' s', short (blocks s) a (Some (r, a')) ∧ c s = Some (r, s') ∧ stands s' a') ∨
    (short (blocks s) a None ∧ c s = None).

(** [open] without memory: an error, or a null pointer given to the file system. *)
Inductive open_short (path' path : list Z) (b : gmap Z (list Z)) (a : files W) : option (Z * files W) → Prop :=
  | open_no_path : no_path path' (a_world a) b → open_short path' path b a (Some (a_fails (-1) a))
  | open_no_copy fs mp o : a_mount M path = Some (fs, mp, o) → full_path o = false → is_Some (op_open o) →
      no_copy path' (below mp path) (a_world a) b → open_short path' path b a None.

Lemma open_meets l ns flags : mounts_ok → chars_ok l → resolve [] (names l) = Some ns →
  meets_or (open (SLASH :: l) flags) (a_open M (absolute ns) flags) (open_short (SLASH :: l) (absolute ns)).
Proof.
  intros Hmo Hl Hres s a H. pose proof (fd_new_run s a H) as Hnew. unfold open.
  destruct (first_free (a_fds a) 0) as [i|] eqn:Efree.
  2: { left. erewrite bind_run by exact Hnew. rewrite bool_decide_true by done. unfold a_open. rewrite Efree. with_errno. }
  destruct Hnew as (Ha&Hz&Hi&R). rewrite !(bind_run _ _ _ _ _ R), bool_decide_false by lia.
  assert (fd_get (Z.of_nat i) (upd i (reserved 1) s) = Some (Some (Entry i), upd i (reserved 2) s)) as G.
  { erewrite fd_get_run by (done || apply H || apply upd_same; by exists fd_zero). by rewrite upd_twice. }
  rewrite !(bind_run _ _ _ _ _ G). destruct (decide (place s (SLASH :: l) = 0)) as [Hpl|Hpl].
  { right. left. exists (-1), (set_a_errno (-1) a). eexists. split; [apply open_no_path; by rewrite <- (st_world _ _ H)|]. unfold dfs_file_open, mbind at 1, D_bind at 1.
    erewrite bind_run by (by apply normalize_refused). rewrite bool_decide_true by done. unfold mret at 1, D_ret at 1.
    erewrite bind_run by done. rewrite bool_decide_true by done.
    destruct (put_twice i (reserved 2) (world s) s) as (s1&R2&R3); [apply H|done|done|].
    replace (set_world (world s) _) with (upd i (reserved 2) s) in R2 by (by destruct s).
    erewrite bind_run by exact R2. erewrite bind_run by exact R3. split; [done|]. apply stands_errno.
    replace (set_world (world s) s) with s by (by destruct s). done. }
  destruct (file_open_run l ns flags s a i) as [(_&fs&mp&o&buf&Eb&Em&Hf&Hop&Hno&R1)|[(r&d&w&Hr&R1&Hd&->)|(ty&f&w&q&buf&R1&Hq&Hb&Hs&Hm&->)]];
    try done.
  - right. right. split; [|unfold mbind at 1, D_bind at 1; by rewrite R1]. apply (open_no_copy _ _ _ _ fs mp o); try done; [unfold a_mount; rewrite Eb; cbn; by rewrite Em|rewrite <- (st_world _ _ H)].
    split; [done|]. by exists buf.
  - left. erewrite bind_run by exact R1. erewrite bind_run by done. rewrite bool_decide_true by done. destruct (put_twice i d w s) as (s1&R2&R3); [apply H|done|done|].
    erewrite bind_run by exact R2. erewrite bind_run by exact R3. eexists. split; [done|].
    by apply stands_errno, stands_world.
  - left. erewrite bind_run by exact R1. erewrite bind_run by done. rewrite bool_decide_false by done. set (s1 := set_blocks (<[q := buf]> (blocks s)) s).
    change (set_world w (set_blocks _ _)) with (set_world w (upd i (used 2 ty q f) s1)).
    erewrite bind_run by (eapply put_used; [apply H|exact Hz]). eexists. split; [done|].
    apply (stands_world w (set_blocks (<[q := buf]> (blocks s)) (upd i (used 1 ty q f) s)) (set_a_fds (<[i := Some (ty, f)]> (a_fds a)) a)).
    by apply stands_open.
Qed.

End heap.
End proof.
