(* ===== verification/DfsNames.v ===== *)
(** * Files by name: the code keeps its promises

    [stat], [unlink], [rmdir] and [rename]: the path is made canonical in a block of its own,
    which is given back on every branch. *)

From stdpp Require Import gmap.
From S2P Require Import Prelude DfsPath Dfs DfsFile DfsPosix DfsSpec DfsProof.

Section named.
Context {W : Type} `{!FileEnv W, !HeapLaws W}.
#[local] Abbreviation D := (D W).
#[local] Abbreviation dfs := (dfs W).
Context (M : mounts W) (K : gmap Z (list Z)) (Hok : mounts_ok M).

Implicit Types (s : dfs) (a : files W).

Definition with_block (p : Z) (buf : list Z) s : dfs := set_blocks (<[p := buf]> (blocks s)) s.

(** The frame: the string of the block, and the state once it is given back. *)
Lemma block_string p buf path w s : cstring buf = Some path →
  string_at p (set_world w (with_block p buf s)) = Some (path, set_world w (with_block p buf s)).
Proof. intros H. eapply string_at_run; [apply lookup_insert_eq|done]. Qed.

Lemma free_path p buf w s : p ≠ 0 → blocks s !! p = None →
  free_block p (set_world w (with_block p buf s)) = Some (tt, set_world w s).
Proof.
  intros Hp Hb. erewrite free_run; [|done|apply lookup_insert_eq]. do 2 f_equal. cbn. rewrite delete_insert_id by done.
  by destruct s.
Qed.

Lemma world_id s : set_world (world s) s = s.
Proof. by destruct s. Qed.
Lemma a_world_id s a : stands M K s a → set_a_world (world s) a = a.
Proof. intros H. rewrite (st_world _ _ _ _ H). by destruct a. Qed.

(** What is needed of the state to look at it; further blocks may be taken. *)
Record shows s a : Prop := Shows {
  sh_lock : fslock s = 0;
  sh_mounts : Forall2 (mount_for K) (filesystem_table s) M;
  sh_kept : K ⊆ blocks s;
  sh_fds : Forall2 (entry_for (blocks s)) (fd_table s) (a_fds a);
}.

Lemma stands_shows s a : stands M K s a → shows s a.
Proof. by intros []. Qed.

Lemma shows_block s a p buf : shows s a → blocks s !! p = None → shows (with_block p buf s) a.
Proof.
  intros [] Hb. split; try done; cbn.
  - etrans; [done|by apply insert_subseteq].
  - eapply Forall2_impl; [done|]. intros d [[ty f]|]; [|done]. intros (q&c&->&Hq&Hc&Hs). exists q, c. split_and!; try done.
    rewrite lookup_insert_ne; [done|]. intros <-. congruence.
Qed.

Lemma shows_lookup path s a : shows s a → dfs_filesystem_lookup path s = Some (best_mount M path 0 None 0, s).
Proof. intros []. by eapply lookup_run. Qed.

(** The file system for a canonical path. *)
Lemma shows_mount ns s a : shows s a →
  match best_mount M (absolute ns) 0 None 0 with
  | None => a_mount M (absolute ns) = None
  | Some fs => ∃ ms o g, a_mount M (absolute ns) = Some (fs, absolute ms, o) ∧ canonical ms ∧
      covers_path (absolute ms) (absolute ns) = true ∧
      get_fs fs s = Some (g, s) ∧ ops_of fs s = Some (o, s) ∧ string_at (fs_path g) s = Some (absolute ms, s)
  end.
Proof.
  intros H. unfold a_mount. destruct (best_mount M (absolute ns) 0 None 0) as [fs|] eqn:E; [|done].
  destruct (best_mount_sound _ _ _ _ _ _ E) as [?|(_&mp&o&Hm&Hc)]; [done|]. rewrite Nat.sub_0_r in Hm.
  destruct (Hok _ _ _ Hm) as (ms&Hms&->).
  destruct (Forall2_lookup_r _ _ _ _ _ (sh_mounts _ _ H) Hm) as (g&Hg&_&_&Ho&buf&Hb&Hs).
  exists ms, o, g. cbn. rewrite Hm. split_and!; try done; [by apply get_fs_run|by eapply ops_of_run|].
  eapply string_at_run; [|done]. eapply lookup_weaken; [done|apply H].
Qed.

(** A covered path of the length of its mount point is the mount point. *)
Lemma same_length ms ns : covers_path (absolute ms) (absolute ns) = true →
  length (absolute ms) = length (absolute ns) ↔ absolute ns = absolute ms.
Proof.
  intros [Ht%bool_decide_eq_true _]%andb_true_iff. split; [|by intros ->]. intros E. by rewrite <- Ht, E, firstn_all.
Qed.
Lemma covers_root ms : canonical ms → covers_path (absolute ms) [SLASH] = true → absolute ms = [SLASH].
Proof.
  intros Hms [Ht%bool_decide_eq_true _]%andb_true_iff. apply absolute_root in Hms as ->; [done|].
  rewrite <- Ht, length_take. cbn [length]. lia.
Qed.

Lemma subdir_none ms ns : covers_path (absolute ms) (absolute ns) = true → canonical ms → canonical ns →
  dfs_subdir (absolute ms) (absolute ns) =
    Some (if bool_decide (absolute ns = absolute ms) then None else Some (below (absolute ms) (absolute ns))).
Proof.
  intros Hc Hms Hns. destruct (subdir_run ms ns Hms Hns Hc) as (sub&Hs&Hb). rewrite Hs.
  pose proof (same_length ms ns Hc) as Hl. unfold dfs_subdir in Hs. case_bool_decide as H1; case_bool_decide as H2; try tauto.
  - by injection Hs as <-.
  - destruct (_ !! _); [|done]. injection Hs as <-. by rewrite Hb.
Qed.

(** [stat] without memory for the path. *)
Inductive stat_short (path : list Z) (b : gmap Z (list Z)) a : option ((Z * option file_stat) * files W) → Prop :=
  | stat_no_path : no_path path (a_world a) b → stat_short path b a (Some ((-1, None), set_a_errno (-1) a)).

Lemma stat_meets l ns : chars_ok l → resolve [] (names l) = Some ns →
  meets_or M K (stat (SLASH :: l)) (a_stat M (absolute ns)) (stat_short (SLASH :: l)).
Proof.
  intros Hl Hres s a H. pose proof (resolve_canonical l ns Hl Hres) as Hns.
  destruct (decide (place s (SLASH :: l) = 0)) as [Hpl|Hpl].
  { right. left. exists (-1, None), (set_a_errno (-1) a), (set_errno (-1) s). split_and!; [apply stat_no_path; by rewrite <- (st_world _ _ _ _ H)| |by apply stands_errno].
    unfold stat, dfs_file_stat, mbind at 1, D_bind at 1. erewrite bind_run by (by apply normalize_refused). done. }
  left. destruct (normalize_inside l ns s Hl Hres Hpl) as (p&buf&_&Hp&Hb&Hs&R). fold (with_block p buf s) in R.
  assert (∀ w, free_block p (set_world w (with_block p buf s)) = Some (tt, set_world w s)) as Hfree by (intros; by apply free_path).
  pose proof (Hfree (world s)) as Hfree0. rewrite !world_id in Hfree0. change (set_world (world s) _) with (with_block p buf s) in Hfree0.
  pose proof (shows_block s a p buf (stands_shows _ _ H) Hb) as Hsh.
  unfold stat, dfs_file_stat, a_stat. unfold mbind at 1, D_bind at 1. erewrite bind_run by exact R. rewrite bool_decide_false by done.
  erewrite bind_run by (eapply string_at_run; [apply lookup_insert_eq|done]). erewrite bind_run by (by eapply shows_lookup).
  pose proof (shows_mount ns _ _ Hsh) as Hm. destruct (best_mount _ _ _ _ _) as [fs|].
  2: { rewrite Hm. erewrite bind_run by exact Hfree0. eexists. split; [done|]. by apply stands_errno. }
  destruct Hm as (ms&o&g&->&Hms&Hc&Hg&Ho&Hmp). erewrite bind_run by exact Hg. erewrite bind_run by exact Hmp.
  rewrite (bind_run _ _ _ (if bool_decide (absolute ns = absolute ms) then None else Some (below (absolute ms) (absolute ns))) (with_block p buf s)).
  2: { case_bool_decide as Hr; [|by rewrite subdir_none]. rewrite Hr in Hc. apply covers_root in Hc; [|done].
       rewrite bool_decide_true by congruence. done. }
  case_bool_decide as Hmount.
  { erewrite bind_run by exact Hfree0. exists s. done. }
  erewrite bind_run by exact Ho. destruct (op_stat o) as [op|].
  2: { erewrite bind_run by exact Hfree0. eexists. split; [done|]. by apply stands_errno. }
  change (if full_path o then absolute ns else _) with (path_in o (absolute ms) (absolute ns)).
  destruct (op fs (path_in o (absolute ms) (absolute ns)) (a_world a)) as [[r st] w] eqn:Eop.
  unfold mbind at 1, D_bind at 1. erewrite call_world_run by (change (world (with_block p buf s)) with (world s);
    rewrite (st_world _ _ _ _ H); exact Eop). cbv beta iota. erewrite bind_run by apply Hfree.
  unfold mret at 1, D_ret at 1. case_bool_decide.
  - eexists. split; [done|]. by apply stands_errno, stands_world.
  - eexists. split; [done|]. by apply stands_world.
Qed.

(** ** Removing *)

Lemma open_loop_run fs name s t fds : Forall2 (entry_for (blocks s)) t fds → open_loop t fs name s = Some (busy fs name fds, s).
Proof.
  induction 1 as [|d o t fds He _ IH]; [done|]. cbn [open_loop busy existsb]. destruct o as [[ty f]|].
  - destruct He as (p&buf&->&_&Hb&Hs). cbn [used fd_fs fd_path]. rewrite bool_decide_false by done.
    destruct (decide (f_fs f = fs)) as [->|Hne].
    + rewrite bool_decide_true by done. erewrite bind_run by (by eapply string_at_run). case_bool_decide as Hn.
      * by rewrite bool_decide_true.
      * rewrite bool_decide_false by tauto. apply IH.
    + rewrite !bool_decide_false by (congruence || tauto). apply IH.
  - rewrite He. cbn [fd_zero fd_fs]. rewrite bool_decide_true by done. apply IH.
Qed.

(** Without memory no file is found open. *)
Lemma is_open_run ns s a : shows s a → canonical ns →
  fd_is_open (absolute ns) s = Some (if bool_decide (place s (absolute ns) ≠ 0) && in_use M (absolute ns) a then 0 else -1, s).
Proof.
  intros H Hns. destruct (canonical_fixed ns Hns) as (_&E&Hch). apply Forall_cons in Hch as [_ Hch]. unfold fd_is_open, in_use.
  case_bool_decide as Hpl; cbn [andb]; [|erewrite bind_run by (apply normalize_refused; [done|exact Hpl]); done].
  destruct (normalize_inside (join ns) ns s Hch E Hpl) as (p&buf&_&Hp&Hb&Hs&R). fold (with_block p buf s) in R.
  pose proof (shows_block s a p buf H Hb) as Hsh.
  erewrite bind_run by exact R. rewrite bool_decide_false by done.
  erewrite bind_run by (eapply string_at_run; [apply lookup_insert_eq|done]). erewrite bind_run by (by eapply shows_lookup).
  pose proof (shows_mount ns _ _ Hsh) as Hm. destruct (best_mount _ _ _ _ _) as [fs|].
  2: { rewrite Hm. erewrite bind_run by (apply (free_path p buf (world s)); done). by rewrite world_id. }
  destruct Hm as (ms&o&g&->&Hms&Hc&Hg&Ho&Hmp). erewrite bind_run by exact Hg. erewrite bind_run by exact Hmp.
  erewrite bind_run by done. erewrite bind_run by done.
  change (if bool_decide (absolute ms = [SLASH]) then _ else _) with (open_name (absolute ms) (absolute ns)).
  erewrite bind_run by (apply open_loop_run; apply Hsh).
  erewrite bind_run by (apply (free_run _ buf); [done|apply lookup_insert_eq]). pose proof (sh_lock _ _ H) as Hl.
  cbn [blocks with_block set_blocks set_fslock fslock]. rewrite delete_insert_id by done. destruct s. cbn in *. subst. done.
Qed.

(** The functions that give 0 or an error. *)
Definition result_of (r : Z) (w : W) a : Z * files W :=
  if bool_decide (r < 0) then a_fails r (set_a_world w a) else (0, set_a_world w a).

Lemma path_done p buf s (c : D Z) (Q : Z → W → Prop) : p ≠ 0 → blocks s !! p = None →
  (∃ r w, c (with_block p buf s) = Some (r, set_world w (with_block p buf s)) ∧ Q r w) →
  ∃ r w, (c ≫= λ r, free_block p;; mret r) (with_block p buf s) = Some (r, set_world w s) ∧ Q r w.
Proof.
  intros Hp Hb (r&w&R&HQ). exists r, w. split; [|done]. erewrite bind_run by exact R. by erewrite bind_run by (by apply free_path).
Qed.

(** The result is the promised one, or one for want of memory. *)
Definition result_ok (spec : files W → Z * files W) (short : gmap Z (list Z) → files W → option (Z * files W) → Prop) s a (r : Z) (w : W) : Prop :=
  spec a = result_of r w a ∨ short (blocks s) a (Some (result_of r w a)).

Lemma named_meets (c : D Z) spec short :
  (∀ s a, stands M K s a → ∃ r w, c s = Some (r, set_world w s) ∧ result_ok spec short s a r w) →
  meets_or M K (result ← c; if bool_decide (result < 0) then fails result else mret 0) spec short.
Proof.
  intros Hc s a H. destruct (Hc s a H) as (r&w&R&HQ).
  assert (∃ s', (c ≫= λ result, if bool_decide (result < 0) then fails result else mret 0) s = Some ((result_of r w a).1, s') ∧
    stands M K s' (result_of r w a).2) as (s'&R'&H').
  { erewrite bind_run by exact R. unfold result_of. case_bool_decide.
    - eexists. split; [done|]. by apply stands_errno, stands_world.
    - eexists. split; [done|]. by apply stands_world. }
  destruct HQ as [-> | HQ]; [left; eauto|right; left]. destruct (result_of r w a) as [x a']. eauto 10.
Qed.

(** A result without a call. *)
Lemma plain_result s a e r : stands M K s a → e < 0 → r = a_fails e a → r = result_of e (world s) a.
Proof. intros H He ->. unfold result_of. by rewrite bool_decide_true, (a_world_id s a H). Qed.
Lemma plain_ok spec short s a e : stands M K s a → e < 0 → spec a = a_fails e a → result_ok spec short s a e (world s).
Proof. intros H He E. left. by apply plain_result. Qed.
Lemma plain_short spec (short : _ → _ → _ → Prop) s a e : stands M K s a → e < 0 → short (blocks s) a (Some (a_fails e a)) →
  result_ok spec short s a e (world s).
Proof. intros H He E. right. by rewrite <- (plain_result s a e _ H He eq_refl). Qed.

(** [unlink] without memory: an error; or the file is removed though it may be open. *)
Inductive unlink_short (path' path : list Z) (b : gmap Z (list Z)) a : option (Z * files W) → Prop :=
  | unlink_no_path : no_path path' (a_world a) b → unlink_short path' path b a (Some (a_fails (- DFS_STATUS_EINVAL) a))
  | unlink_no_copy : no_copy path' path (a_world a) b → unlink_short path' path b a (Some (a_remove M path a)).

(** The call of the file system. *)
Lemma remove_run ns s a fs : shows s a → world s = a_world a → canonical ns → best_mount M (absolute ns) 0 None 0 = Some fs →
  ∃ r w, (o ← ops_of fs;
     match op_unlink o with
     | None => mret (- DFS_STATUS_ENOSYS)
     | Some op =>
         if full_path o then call_world (op fs (absolute ns))
         else f ← get_fs fs; mp ← string_at (fs_path f); sub ← dlift (dfs_subdir mp (absolute ns));
              call_world (op fs (match sub with None => [SLASH] | Some sub => sub end))
     end) s = Some (r, set_world w s) ∧ a_remove M (absolute ns) a = result_of r w a.
Proof.
  intros H Hw Hns E. pose proof (shows_mount ns _ _ H) as Hm. rewrite E in Hm. destruct Hm as (ms&o&g&Em&Hms&Hc&Hg&Ho&Hmp).
  unfold a_remove. rewrite Em. erewrite bind_run by exact Ho. destruct (op_unlink o) as [op|].
  2: { exists (- DFS_STATUS_ENOSYS), (world s). rewrite world_id. split; [done|]. unfold result_of.
       rewrite bool_decide_true, Hw by done. by destruct a. }
  destruct (op fs (path_in o (absolute ms) (absolute ns)) (a_world a)) as [r w] eqn:Eop. exists r, w. split; [|done].
  rewrite <- Hw in Eop. unfold path_in in Eop. destruct (full_path o); [by apply call_world_run|].
  erewrite bind_run by exact Hg. erewrite bind_run by exact Hmp.
  destruct (subdir_run ms ns Hms Hns Hc) as (sub&Hsub&Hbelow). rewrite Hsub. erewrite bind_run by done. rewrite Hbelow. by apply call_world_run.
Qed.

Lemma unlink_meets l ns : chars_ok l → resolve [] (names l) = Some ns →
  meets_or M K (unlink (SLASH :: l)) (a_unlink M (absolute ns)) (unlink_short (SLASH :: l) (absolute ns)).
Proof.
  intros Hl Hres. apply named_meets. intros s a H. pose proof (resolve_canonical l ns Hl Hres) as Hns.
  unfold dfs_file_unlink. destruct (decide (place s (SLASH :: l) = 0)) as [Hpl|Hpl].
  { exists (- DFS_STATUS_EINVAL), (world s). rewrite world_id. erewrite bind_run by (by apply normalize_refused).
    split; [done|]. apply plain_short; [done|done|apply unlink_no_path; by rewrite <- (st_world _ _ _ _ H)]. }
  destruct (normalize_inside l ns s Hl Hres Hpl) as (p&buf&Ep&Hp&Hb&Hs&R). fold (with_block p buf s) in R.
  pose proof (shows_block s a p buf (stands_shows _ _ H) Hb) as Hsh.
  erewrite bind_run by exact R. rewrite bool_decide_false by done.
  erewrite bind_run by (eapply string_at_run; [apply lookup_insert_eq|done]). erewrite bind_run by (by eapply shows_lookup).
  apply path_done; [done|done|]. destruct (best_mount M (absolute ns) 0 None 0) as [fs|] eqn:Eb.
  2: { exists (- DFS_STATUS_ENOENT), (world s). split; [done|]. apply plain_ok; [done|done|].
       unfold a_unlink, in_use, a_remove, a_mount. by rewrite Eb. }
  erewrite bind_run by (by apply is_open_run). destruct (remove_run ns _ a fs Hsh (st_world _ _ _ _ H) Hns Eb) as (r&w&R2&E2).
  destruct (decide (place (with_block p buf s) (absolute ns) = 0)) as [Hpl2|Hpl2];
    [rewrite (bool_decide_false (place _ _ ≠ 0)) by (by intros ?)|rewrite (bool_decide_true (place _ _ ≠ 0)) by done]; cbn [andb].
  - rewrite bool_decide_false by done. exists r, w. split; [exact R2|]. right. rewrite <- E2. apply unlink_no_copy.
    rewrite <- (st_world _ _ _ _ H). split; [exact Hpl|]. exists buf. unfold place in Ep. rewrite <- Ep. exact Hpl2.
  - destruct (in_use M (absolute ns) a) eqn:Eu.
    + rewrite bool_decide_true by done. exists (- DFS_STATUS_EBUSY), (world s). split; [done|]. apply plain_ok; [done|done|].
      unfold a_unlink. by rewrite Eu.
    + rewrite bool_decide_false by done. exists r, w. split; [exact R2|]. left. unfold a_unlink. by rewrite Eu.
Qed.

Lemma rmdir_meets l ns : chars_ok l → resolve [] (names l) = Some ns →
  meets_or M K (rmdir (SLASH :: l)) (a_unlink M (absolute ns)) (unlink_short (SLASH :: l) (absolute ns)).
Proof. exact (unlink_meets l ns). Qed.

(** ** Renaming *)

(** Names that [rename] can be asked about: one of them is in a file system, and
    neither is the mount point of the one that both are in. *)
Definition rename_ok (old new : list Z) : Prop :=
  match a_mount M old, a_mount M new with
  | None, None => False
  | Some (fs, mp, o), Some (fs', _, _) => fs = fs' → full_path o = true ∨ old ≠ mp ∧ new ≠ mp
  | _, _ => True
  end.

Lemma two_done p buf q buf' s (c : D Z) (Q : Z → W → Prop) : p ≠ 0 → blocks s !! p = None → q ≠ 0 →
  blocks (with_block p buf s) !! q = None →
  let s2 := with_block q buf' (with_block p buf s) in
  (∃ r w, c s2 = Some (r, set_world w s2) ∧ Q r w) →
  ∃ r w, (c ≫= λ r, free_block p;; free_block q;; mret r) s2 = Some (r, set_world w s) ∧ Q r w.
Proof.
  intros Hp Hb Hq Hb' s2 (r&w&R&HQ). exists r, w. split; [|done]. erewrite bind_run by exact R.
  cbn in Hb'. apply lookup_insert_None in Hb' as [Hb' Hpq].
  erewrite bind_run by (apply (free_run _ buf); [done|cbn; rewrite lookup_insert_ne by done; apply lookup_insert_eq]).
  erewrite bind_run by (apply (free_run _ buf'); [done|cbn; rewrite lookup_delete_ne by done; apply lookup_insert_eq]).
  unfold mret, D_ret. do 2 f_equal. cbn. rewrite delete_insert_ne by done. rewrite (delete_insert_id (blocks s) p), delete_insert_id by done.
  by destruct s.
Qed.

(** The call of the file system, both names in it. *)
Lemma rename_call os ns s a w fs mp (o : dfs_filesystem_operation W) (op : nat → list Z → list Z → W → Z * W) g r : world s = a_world a → canonical os → canonical ns → canonical mp →
  covers_path (absolute mp) (absolute os) = true → covers_path (absolute mp) (absolute ns) = true →
  get_fs fs s = Some (g, s) → string_at (fs_path g) s = Some (absolute mp, s) →
  full_path o = true ∨ absolute os ≠ absolute mp ∧ absolute ns ≠ absolute mp →
  op fs (path_in o (absolute mp) (absolute os)) (path_in o (absolute mp) (absolute ns)) (a_world a) = (r, w) →
  (if full_path o then call_world (op fs (absolute os) (absolute ns))
   else
     f ← get_fs fs;
     mp ← string_at (fs_path f);
     old ← dlift (dfs_subdir mp (absolute os));
     new ← dlift (dfs_subdir mp (absolute ns));
     match old, new with Some old, Some new => call_world (op fs old new) | _, _ => dfail end) s = Some (r, set_world w s).
Proof.
  intros Hw Hos Hns Hmp Hco Hcn Hg Hs Hne Eop. rewrite <- Hw in Eop. unfold path_in in Eop.
  destruct (full_path o); [by apply call_world_run|]. destruct Hne as [?|[Ho Hn]]; [done|].
  erewrite bind_run by exact Hg. erewrite bind_run by exact Hs.
  rewrite !subdir_none by done. rewrite !bool_decide_false by done.
  erewrite bind_run by done. erewrite bind_run by done. by apply call_world_run.
Qed.

(** [rename] without memory for one of the paths. *)
Inductive rename_short (old new : list Z) (b : gmap Z (list Z)) a : option (Z * files W) → Prop :=
  | rename_no_path : no_path old (a_world a) b ∨ no_copy old new (a_world a) b → rename_short old new b a (Some (a_fails (- DFS_STATUS_ENOENT) a)).

(** Both paths have their blocks. *)
Lemma rename_run os ns s a : shows s a → world s = a_world a → canonical os → canonical ns → rename_ok (absolute os) (absolute ns) →
  ∃ r w, (if bool_decide (best_mount M (absolute os) 0 None 0 = best_mount M (absolute ns) 0 None 0) then
      fs ← dlift (best_mount M (absolute os) 0 None 0);
      o ← ops_of fs;
      match op_rename o with
      | None => mret (- DFS_STATUS_ENOSYS)
      | Some op =>
          if full_path o then call_world (op fs (absolute os) (absolute ns))
          else
            f ← get_fs fs;
            mp ← string_at (fs_path f);
            old ← dlift (dfs_subdir mp (absolute os));
            new ← dlift (dfs_subdir mp (absolute ns));
            match old, new with Some old, Some new => call_world (op fs old new) | _, _ => dfail end
      end
    else mret (- DFS_STATUS_EXDEV)) s = Some (r, set_world w s) ∧ a_rename M (absolute os) (absolute ns) a = result_of r w a.
Proof.
  intros H Hw Hos Hns Hrn.
  assert (∀ e, e < 0 → ∀ c : D Z, c s = Some (e, s) → ∃ r w, c s = Some (r, set_world w s) ∧ a_fails e a = result_of r w a) as Hplain.
  { intros e He c E. exists e, (world s). rewrite world_id. split; [done|]. unfold result_of. rewrite bool_decide_true, Hw by done. by destruct a. }
  pose proof (shows_mount os _ _ H) as Hm. pose proof (shows_mount ns _ _ H) as Hm'. unfold rename_ok in Hrn. unfold a_rename.
  destruct (best_mount M (absolute os) 0 None 0) as [fs|] eqn:E1, (best_mount M (absolute ns) 0 None 0) as [fs'|] eqn:E2.
  - destruct Hm as (ms&o&g&Em&Hms&Hc&Hg&Ho&Hmp), Hm' as (ms'&o'&g'&Em'&Hms'&Hc'&Hg'&Ho'&Hmp'). rewrite Em, Em' in *.
    destruct (decide (fs = fs')) as [<-|Hne]; [|rewrite !bool_decide_false by congruence; by apply Hplain].
    rewrite !bool_decide_true by done. erewrite bind_run by done. erewrite bind_run by exact Ho.
    assert (g' = g) as -> by congruence. assert (absolute ms' = absolute ms) as Ems by congruence. rewrite Ems in *.
    destruct (op_rename o) as [op|]; [|by apply Hplain].
    destruct (op fs _ _ (a_world a)) as [r w] eqn:Eop. exists r, w. split; [|done].
    eapply rename_call; [exact Hw|exact Hos|exact Hns|exact Hms|done..|by apply Hrn|exact Eop].
  - destruct Hm as (ms&o&g&Em&_). rewrite Em, Hm'. rewrite bool_decide_false by done. by apply Hplain.
  - rewrite Hm. rewrite bool_decide_false by done. by apply Hplain.
  - by rewrite Hm, Hm' in Hrn.
Qed.

Lemma rename_meets l os l' ns : chars_ok l → resolve [] (names l) = Some os → chars_ok l' → resolve [] (names l') = Some ns →
  rename_ok (absolute os) (absolute ns) →
  meets_or M K (rename (SLASH :: l) (SLASH :: l')) (a_rename M (absolute os) (absolute ns)) (rename_short (SLASH :: l) (SLASH :: l')).
Proof.
  intros Hl Hres Hl' Hres' Hrn. apply named_meets. intros s a H.
  pose proof (resolve_canonical l os Hl Hres) as Hos. pose proof (resolve_canonical l' ns Hl' Hres') as Hns.
  unfold dfs_file_rename. destruct (decide (place s (SLASH :: l) = 0)) as [Hpl|Hpl].
  { exists (- DFS_STATUS_ENOENT), (world s). rewrite world_id. erewrite bind_run by (by apply normalize_refused).
    split; [done|]. apply plain_short; [done|done|]. apply rename_no_path. rewrite <- (st_world _ _ _ _ H). by left. }
  destruct (normalize_inside l os s Hl Hres Hpl) as (p&buf&Ep&Hp&Hb&Hs&R). fold (with_block p buf s) in R.
  pose proof (shows_block s a p buf (stands_shows _ _ H) Hb) as Hsh1.
  erewrite bind_run by exact R. rewrite bool_decide_false by done.
  destruct (decide (place (with_block p buf s) (SLASH :: l') = 0)) as [Hpl'|Hpl'].
  { exists (- DFS_STATUS_ENOENT), (world s). erewrite bind_run by (by apply normalize_refused). rewrite bool_decide_true by done.
    erewrite bind_run by (apply (free_path p buf (world s)); done). split; [done|].
    apply plain_short; [done|done|]. apply rename_no_path. rewrite <- (st_world _ _ _ _ H). right. split; [exact Hpl|]. exists buf. unfold place in Ep. rewrite <- Ep. exact Hpl'. }
  destruct (normalize_inside l' ns (with_block p buf s) Hl' Hres' Hpl') as (q&buf'&_&Hq&Hb'&Hs'&R').
  fold (with_block q buf' (with_block p buf s)) in R'.
  pose proof (shows_block _ a q buf' Hsh1 Hb') as Hsh. assert (q ≠ p) as Hqp.
  { intros ->. cbn in Hb'. by rewrite lookup_insert_eq in Hb'. }
  erewrite bind_run by exact R'. rewrite bool_decide_false by done.
  erewrite bind_run by (eapply (string_at_run p); [cbn; rewrite lookup_insert_ne by done; apply lookup_insert_eq|exact Hs]).
  erewrite bind_run by (eapply (string_at_run q); [apply lookup_insert_eq|exact Hs']).
  erewrite bind_run by (by eapply shows_lookup). erewrite bind_run by (by eapply shows_lookup).
  apply two_done; try done. destruct (rename_run os ns _ a Hsh (st_world _ _ _ _ H) Hos Hns Hrn) as (r&w&R2&E2).
  exists r, w. split; [exact R2|by left].
Qed.

End named.
