(* ===== verification/DfsMount.v ===== *)
(** * Mounting and unmounting

    What [dfs_init], [dfs_register], [dfs_mount] and [dfs_unmount] do to the tables,
    the open files and the heap. *)

From stdpp Require Import gmap.
From S2P Require Import Prelude DfsPath Dfs DfsFile DfsPosix DfsSpec DfsProof DfsNames.

Section mounting.
Context {W : Type} `{!FileEnv W, !HeapLaws W}.
#[local] Abbreviation D := (D W).
#[local] Abbreviation dfs := (dfs W).

Implicit Types (s : dfs) (M : mounts W).

(** A file system is registered and mounted at the root. *)
Definition start (ops : Z) (device : option (list Z)) (name : list Z) (rwflag data : Z) : D Z :=
  dfs_init;; dfs_register ops;; dfs_mount device [SLASH] name rwflag data.

(** The device of the file system, if it has one: found, opened and closed. *)
Definition device_id (device : option (list Z)) (w : W) : Z := match device with None => 0 | Some n => device_find n w end.
Definition device_found (device : option (list Z)) (w : W) : Prop := match device with None => True | Some n => device_find n w ≠ 0 end.
Definition opens (dev : Z) (w : W) : Z * W := if bool_decide (dev = 0) then (0, w) else device_open dev RT_DEVICE_OFLAG_RDWR w.
Definition closes (dev : Z) (w : W) : W := if bool_decide (dev = 0) then w else (device_close dev w).2.

(** ** Mounting *)

(** The first entry without a file system. *)
Fixpoint first_slot M (i : nat) : option nat :=
  match M with [] => None | Some _ :: M => first_slot M (S i) | None :: _ => Some i end.

Lemma first_slot_entry M : ∀ n i, first_slot M n = Some i → (n <= i)%nat ∧ M !! (i - n)%nat = Some None.
Proof.
  induction M as [|[x|] M IH]; intros n i; cbn; [done| |].
  - intros E. destruct (IH _ _ E) as [Hn Hi]. split; [lia|]. by replace (i - n)%nat with (S (i - S n)) by lia.
  - intros [= ->]. by rewrite Nat.sub_diag.
Qed.

(** A file system is mounted at [mp]. *)
Definition mounted_at (mp : list Z) M : bool :=
  existsb (λ m, match m with Some (mp', _) => bool_decide (mp' = mp) | None => false end) M.

Lemma find_slot_run K path s t M : Forall2 (mount_for K) t M → K ⊆ blocks s → ∀ i fs,
  find_slot t i fs path s = Some (if mounted_at path M then None else Some (match fs with Some _ => fs | None => first_slot M i end), s).
Proof.
  intros H HK. induction H as [|f m t M Hm _ IH]; intros i fs; [by destruct fs|]. cbn [find_slot first_slot mounted_at existsb].
  destruct m as [[mp o]|].
  - destruct Hm as (_&Ho&_&buf&Hb&Hs). rewrite bool_decide_false by done.
    erewrite bind_run by (eapply string_at_run; [by eapply lookup_weaken|done]). case_bool_decide; [done|]. apply IH.
  - cbn in Hm. subst f. rewrite bool_decide_true by done. rewrite IH. by destruct fs.
Qed.

Lemma not_mounted_at mp M : mounted_at mp M = false → ∀ j o, M !! j ≠ Some (Some (mp, o)).
Proof.
  intros H j o E. enough (mounted_at mp M = true) by congruence. apply existsb_exists.
  exists (Some (mp, o)). split; [by apply list_elem_of_In, (list_elem_of_lookup_2 M j)|]. by apply bool_decide_true.
Qed.

(** The type [name] is registered, with only other types in front of it. *)
Definition registered (name : list Z) (ops : Z) (o : dfs_filesystem_operation W) s : Prop :=
  ops ≠ 0 ∧ fs_operation ops = Some o ∧ op_name o = name ∧ ∃ t1 t2, filesystem_operation_table s = t1 ++ ops :: t2 ∧
    Forall (λ x, ∃ o', fs_operation x = Some o' ∧ op_name o' ≠ name) t1.

Lemma find_type_run name ops o s : registered name ops o s → ∀ s', find_type (filesystem_operation_table s) name s' = Some (Some ops, s').
Proof.
  intros (_&Ho&Hn&t1&t2&->&H) s'. induction H as [|x t1 (o'&Hx&Hn') _ IH]; cbn [app find_type]; unfold mbind, D_bind, dlift.
  - by rewrite Ho, bool_decide_true.
  - by rewrite Hx, bool_decide_false.
Qed.

Lemma err1_run p buf s : p ≠ 0 → blocks s !! p = Some buf → fslock s = 1 →
  mount_err1 p s = Some (-1, set_fslock 0 (set_blocks (delete p (blocks s)) s)).
Proof.
  intros Hp Hb Hl. unfold mount_err1. erewrite bind_run by done. erewrite bind_run by (by eapply free_run).
  unfold mret, D_ret. do 2 f_equal. destruct s. cbn in *. by subst.
Qed.

Lemma opens_run dev s : (if bool_decide (dev = 0) then mret 0 else call_world (device_open dev RT_DEVICE_OFLAG_RDWR)) s =
  Some ((opens dev (world s)).1, set_world (opens dev (world s)).2 s).
Proof. unfold opens. case_bool_decide; [by destruct s|]. apply call_world_run. by destruct (device_open _ _ _). Qed.
Lemma closes_run dev s : ∃ x, (if bool_decide (dev = 0) then mret 0 else call_world (device_close dev)) s = Some (x, set_world (closes dev (world s)) s).
Proof.
  unfold closes. case_bool_decide; [exists 0; by destruct s|]. exists (device_close dev (world s)).1. apply call_world_run.
  by destruct (device_close _ _).
Qed.

(** The entry is made, and taken away again when the device or the file system refuses. *)
Lemma mount_on_run i s p buf dev_id ops rwflag data op : fslock s = 1 → filesystem_table s !! i = Some fs_zero →
  p ≠ 0 → blocks s !! p = Some buf →
  mount_on i p dev_id ops rwflag data op s =
    let s1 := set_fslock 0 (set_blocks (delete p (blocks s)) s) in
    let '(e, w1) := opens dev_id (world s) in
    if bool_decide (e ≠ 0) then Some (-1, set_world w1 s1)
    else let '(r, d, w2) := op i rwflag data w1 in
      if bool_decide (r < 0) then Some (-1, set_world (closes dev_id w2) s1)
      else Some (0, set_world w2 (set_fslock 0 (set_systems (<[i := Filesystem dev_id p ops d]> (filesystem_table s)) s))).
Proof.
  intros Hl Ht Hp Hb. unfold mount_on. erewrite bind_run by (by apply get_fs_run).
  erewrite bind_run by done. erewrite bind_run by done.
  set (s1 := set_fslock 0 (set_systems (<[i := Filesystem dev_id p ops 0]> (filesystem_table s)) s)).
  match goal with |- (_ ≫= _) ?x = _ => replace x with s1 by (destruct s; cbn in *; by subst) end.
  assert (∀ w d, (dfs_lock;; put_fs i fs_zero;; mount_err1 p)
    (set_world w (set_systems (<[i := Filesystem dev_id p ops d]> (filesystem_table s)) s1)) =
      Some (-1, set_world w (set_fslock 0 (set_blocks (delete p (blocks s)) s)))) as Hback.
  { intros w d. erewrite bind_run by done. erewrite bind_run by done. erewrite err1_run by done. do 2 f_equal.
    unfold s1. destruct s. cbn in *. by rewrite list_insert_insert_eq, list_insert_id. }
  rewrite (bind_run _ _ _ _ _ (opens_run dev_id s1)). change (world s1) with (world s).
  destruct (opens dev_id (world s)) as [e w1]. cbn [fst snd]. case_bool_decide as He.
  { rewrite <- (Hback w1 0). unfold s1. destruct s. cbn. done. }
  destruct (op i rwflag data w1) as [[r d] w2] eqn:Hop. unfold mbind at 1, D_bind at 1. erewrite call_world_run by exact Hop. cbv beta iota.
  erewrite bind_run by (apply get_fs_run; apply list_lookup_insert_eq; by eapply lookup_lt_Some). erewrite bind_run by done.
  match goal with |- (if _ then _ else _) ?x = _ => replace x with (set_world w2 (set_systems (<[i := Filesystem dev_id p ops d]> (filesystem_table s)) s1))
    by (unfold s1; destruct s; cbn; by rewrite list_insert_insert_eq) end.
  case_bool_decide as Hr; [|unfold mret, D_ret; by destruct s].
  match goal with |- (_ ≫= _) ?x = _ => destruct (closes_run dev_id x) as (x0&R) end.
  erewrite bind_run by exact R. apply Hback.
Qed.

Lemma mount_for_mono K K' f m : K ⊆ K' → mount_for K f m → mount_for K' f m.
Proof.
  intros HK. destruct m as [[mp o]|]; [|done]. intros (?&?&?&buf&Hb&?). split_and!; try done. exists buf. split; [|done].
  by eapply lookup_weaken.
Qed.

(** The table with one file system more. *)
Lemma stands_mount M K s a i p buf ops o dev_id d ns : stands M K s a → M !! i = Some None → ops ≠ 0 → fs_operation ops = Some o →
  p ≠ 0 → blocks s !! p = None → cstring buf = Some (absolute ns) →
  stands (<[i := Some (absolute ns, o)]> M) (<[p := buf]> K)
    (set_fslock 0 (set_systems (<[i := Filesystem dev_id p ops d]> (filesystem_table s)) (with_block p buf s))) a.
Proof.
  intros H Hi Ho Hop Hp Hb Hs.
  assert (K !! p = None) as HKp by (destruct (K !! p) eqn:E; [|done]; pose proof (lookup_weaken _ _ _ _ E (st_kept _ _ _ _ H)); congruence).
  assert (∀ j e, fd_table s !! j = Some e → fd_path e ≠ 0 → fd_path e ≠ p) as Hne.
  { intros j e Hj He <-. destruct (Forall2_lookup_l _ _ _ _ _ (st_fds _ _ _ _ H) Hj) as ([[ty f]|]&_&Hx); [|by rewrite Hx in He].
    destruct Hx as (q&c&->&_&Hq&_). cbn in *. congruence. }
  assert (∀ j g, filesystem_table s !! j = Some g → fs_path g ≠ p) as Hmp.
  { intros j g Hj <-. destruct (Forall2_lookup_l _ _ _ _ _ (st_mounts _ _ _ _ H) Hj) as ([[mp o']|]&_&Hx); [|cbn in Hx; by subst g].
    destruct Hx as (_&_&_&c&Hc&_). congruence. }
  destruct (shows_block M K s a p buf (stands_shows _ _ _ _ H) Hb) as [_ _ _ Hfds].
  split; try (done || apply H); cbn.
  - apply Forall2_insert.
    + eapply Forall2_impl; [apply H|]. intros f m. apply mount_for_mono. by apply insert_subseteq.
    + split_and!; try done. exists buf. by rewrite lookup_insert_eq.
  - intros j ty f Hj. destruct (st_files _ _ _ _ H j ty f Hj) as (mp&o'&Hm). exists mp, o'.
    rewrite <- Hm. apply (list_lookup_insert_ne M). congruence.
  - apply insert_mono, H.
  - rewrite lookup_insert_ne by done. apply H.
  - intros j e Hj He. rewrite lookup_insert_ne by (symmetry; by eapply Hne). by eapply (st_apart _ _ _ _ H).
  - intros j k f g. rewrite !list_lookup_insert_Some. intros [(<-&<-&_)|(?&Hj)] [(<-&<-&_)|(?&Hk)]; cbn; intros Hf Heq; try done.
    + exfalso. by apply (Hmp k g Hk).
    + exfalso. by apply (Hmp j f Hj).
    + by eapply (st_points _ _ _ _ H).
  - intros q [c Hq]. apply lookup_insert_Some in Hq as [[<- _]|[Hqp Hq]]; [left; by rewrite lookup_insert_eq|].
    rewrite lookup_insert_ne by done. apply H. by exists c.
Qed.

(** The mount points that need no directory. *)
Definition plain_mount_point (ns : list (list Z)) : Prop := ns = [] ∨ ns = [[100; 101; 118]].

(** What [dfs_mount] promises, given memory for the path or not: the entry of the file
    system, and what it leaves. *)
Definition a_mounts (given : bool) M (dev : Z) (mp : list Z) (op : nat → Z → Z → W → Z * Z * W) (rwflag data : Z) (a : files W) :
    option nat * files W :=
  if negb given then (None, set_a_errno (- DFS_STATUS_ENOTDIR) a)
  else if mounted_at mp M then (None, set_a_errno (- DFS_STATUS_EINVAL) a)
  else
    match first_slot M 0 with
    | None => (None, set_a_errno (- DFS_STATUS_ENOSPC) a)
    | Some i =>
        let '(e, w1) := opens dev (a_world a) in
        if bool_decide (e ≠ 0) then (None, set_a_world w1 a)
        else
          let '(r, _, w2) := op i rwflag data w1 in
          if bool_decide (r < 0) then (None, set_a_world (closes dev w2) a) else (Some i, set_a_world w2 a)
    end.

Lemma a_mounts_fds b M dev mp op rwflag data a : a_fds (a_mounts b M dev mp op rwflag data a).2 = a_fds a.
Proof. unfold a_mounts. repeat case_match; done. Qed.

Definition given (s : dfs) (path : list Z) : bool := bool_decide (place s path ≠ 0).

(** [dfs_mount] up to the entry. *)
Lemma mount_start M K s a ns name ops o op device rwflag data : stands M K s a → plain_mount_point ns →
  registered name ops o s → op_mount o = Some op → device_found device (world s) →
  if given s (absolute ns) then ∃ p buf, p ≠ 0 ∧ blocks s !! p = None ∧ cstring buf = Some (absolute ns) ∧
    dfs_mount device (absolute ns) name rwflag data s =
      (if mounted_at (absolute ns) M then dfs_set_errno (- DFS_STATUS_EINVAL);; mount_err1 p
       else match first_slot M 0 with
            | None => dfs_set_errno (- DFS_STATUS_ENOSPC);; mount_err1 p
            | Some fs => mount_on fs p (device_id device (world s)) ops rwflag data op
            end) (set_fslock 1 (with_block p buf s))
  else dfs_mount device (absolute ns) name rwflag data s = Some (-1, set_errno (- DFS_STATUS_ENOTDIR) s).
Proof.
  intros H Hns Hreg Hm Hdev. assert (canonical ns) as Hc by (destruct Hns as [-> | ->]; by repeat constructor).
  destruct (canonical_fixed ns Hc) as (_&E&Hok). apply Forall_cons in Hok as [_ Hok]. pose proof (st_lock _ _ _ _ H) as Hl.
  unfold dfs_mount. erewrite (bind_run (dget world)) by done. cbv zeta. fold (device_id device (world s)).
  rewrite bool_decide_false by (intros [[n ->] ?]; by apply Hdev).
  rewrite (bind_run dfs_lock _ _ tt (set_fslock 1 s)) by (unfold dfs_lock, mbind, D_bind, dget, dset; by rewrite Hl).
  erewrite (bind_run (dget filesystem_operation_table)) by done.
  rewrite (bind_run _ _ _ _ _ (find_type_run name ops o s Hreg _)). destruct Hreg as (Hne&Ho&_&_).
  rewrite (bind_run dfs_unlock _ _ tt s) by (destruct s; cbn in *; by subst).
  rewrite (bind_run (dlift _) _ _ o s) by (unfold dlift; by rewrite Ho). rewrite Hm. unfold given. case_bool_decide as Hpl.
  2: { erewrite bind_run by (by apply normalize_refused). done. }
  destruct (normalize_inside (join ns) ns s Hok E Hpl) as (p&buf&_&Hp&Hb&Hs&R). exists p, buf. split_and!; try done.
  erewrite bind_run by exact R. rewrite bool_decide_false by done.
  rewrite (bind_run _ _ _ _ _ (string_at_run p buf (absolute ns) _ (lookup_insert_eq _ _ _) Hs)).
  erewrite (bind_run _ _ _ true) by (destruct Hns as [-> | ->]; done). cbv beta iota.
  rewrite (bind_run dfs_lock _ _ tt (set_fslock 1 (with_block p buf s))) by (unfold dfs_lock, mbind, D_bind, dget, dset; cbn; by rewrite Hl).
  erewrite bind_run by done.
  erewrite bind_run by (eapply find_slot_run; [apply H|etrans; [apply H|by apply insert_subseteq]]).
  destruct (mounted_at _ _); [done|]. by destruct (first_slot M 0).
Qed.

(** The block of the path is given back. *)
Lemma unwound p buf w s : fslock s = 0 → blocks s !! p = None →
  set_world w (set_fslock 0 (set_blocks (delete p (blocks (set_fslock 1 (with_block p buf s)))) (set_fslock 1 (with_block p buf s)))) = set_world w s.
Proof. intros Hl Hb. destruct s. cbn in *. subst. by rewrite delete_insert_id. Qed.

Lemma refuse_run e p buf s : p ≠ 0 → blocks s !! p = None → fslock s = 0 →
  (dfs_set_errno e;; mount_err1 p) (set_fslock 1 (with_block p buf s)) = Some (-1, set_errno e s).
Proof.
  intros Hp Hb Hl. erewrite bind_run by done. erewrite (err1_run p buf); [|done|apply lookup_insert_eq|done].
  do 2 f_equal. destruct s. cbn in *. subst. by rewrite delete_insert_id.
Qed.

Lemma mount_run M K s a ns name ops o op device rwflag data : stands M K s a → plain_mount_point ns →
  registered name ops o s → op_mount o = Some op → device_found device (a_world a) →
  match a_mounts (given s (absolute ns)) M (device_id device (a_world a)) (absolute ns) op rwflag data a with
  | (None, a') => ∃ s', dfs_mount device (absolute ns) name rwflag data s = Some (-1, s') ∧ stands M K s' a'
  | (Some i, a') => first_slot M 0 = Some i ∧ mounted_at (absolute ns) M = false ∧
      ∃ p buf s', dfs_mount device (absolute ns) name rwflag data s = Some (0, s') ∧ K !! p = None ∧
        stands (<[i := Some (absolute ns, o)]> M) (<[p := buf]> K) s' a' ∧
        ∃ d, filesystem_table s' !! i = Some (Filesystem (device_id device (a_world a)) p ops d)
  end.
Proof.
  intros H Hns Hreg Hm Hdev. pose proof (st_world _ _ _ _ H) as Hw. rewrite <- Hw in Hdev. unfold a_mounts. rewrite <- Hw.
  pose proof (mount_start M K s a ns name ops o op device rwflag data H Hns Hreg Hm Hdev) as HS.
  destruct (given s (absolute ns)); cbn [negb]; [|eexists; split; [exact HS|]; by apply stands_errno].
  destruct HS as (p&buf&Hp&Hb&Hs&->). pose proof (st_lock _ _ _ _ H) as Hl. destruct (mounted_at (absolute ns) M).
  { erewrite refuse_run by done. eexists. split; [done|]. by apply stands_errno. }
  destruct (first_slot M 0) as [i|] eqn:Hslot; [|erewrite refuse_run by done; eexists; split; [done|]; by apply stands_errno].
  destruct (first_slot_entry M 0 i Hslot) as [_ Hi]. rewrite Nat.sub_0_r in Hi.
  destruct (Forall2_lookup_r _ _ _ _ _ (st_mounts _ _ _ _ H) Hi) as (f&Hf&Hz). cbn in Hz. subst f.
  rewrite (mount_on_run i (set_fslock 1 (with_block p buf s)) p buf (device_id device (world s)) ops rwflag data op eq_refl Hf Hp (lookup_insert_eq _ _ _)).
  cbv zeta. change (world (set_fslock 1 (with_block p buf s))) with (world s). set (dev := device_id device (world s)).
  destruct (opens dev (world s)) as [e w1]. case_bool_decide; [eexists; split; [done|]; rewrite unwound by done; by apply stands_world|].
  destruct (op i rwflag data w1) as [[r d] w2]. case_bool_decide; [eexists; split; [done|]; rewrite unwound by done; by apply stands_world|].
  split_and!; [done|done|]. exists p, buf. eexists. split_and!; [done| | |].
  - destruct (K !! p) eqn:EK; [|done]. pose proof (lookup_weaken _ _ _ _ EK (st_kept _ _ _ _ H)). congruence.
  - exact (stands_world _ _ w2 _ _ (stands_mount M K s a i p buf ops o dev d ns H Hi (proj1 Hreg) (proj1 (proj2 Hreg)) Hp Hb Hs)).
  - exists d. cbn. apply list_lookup_insert_eq. by eapply lookup_lt_Some.
Qed.

(** Nothing is mounted and no file is open. *)
Lemma init_run ops o s : ops ≠ 0 → fs_operation ops = Some o → blocks s !! 0 = None →
  ∃ s0, (dfs_init;; dfs_register ops) s = Some (0, s0) ∧ blocks s0 = blocks s ∧
  stands [None; None] (blocks s) s0 (Files (world s) (replicate DFS_FD_MAX None) (errno s)) ∧ registered (op_name o) ops o s0.
Proof.
  intros Hne Ho H0. exists (Dfs (world s) [ops; 0; 0; 0] (replicate DFS_FILESYSTEMS_MAX fs_zero) (replicate DFS_FD_MAX fd_zero)
    (local_fd s) (blocks s) (dirs s) 0 (errno s) (match working_directory s with Some _ => Some [SLASH] | None => None end)). split_and!.
  - destruct s as [? ? ? ? ? ? ? ? ? [wd|]]; unfold dfs_init, dfs_register, dfs_lock, dfs_unlock, mbind, D_bind, dget, dset, dlift, mret, D_ret;
      cbn; rewrite Ho; done.
  - done.
  - split; try done; cbn; try by repeat constructor.
    + intros [|[|[|[|i]]]] ty f; cbn; done.
    + intros [|[|[|[|i]]]] j e e'; cbn; intros [= <-] _ []; done.
    + intros [|[|[|[|i]]]] e; cbn; intros [= <-] []; done.
    + intros [|[|i]] j f g; cbn; intros [= <-] _ []; done.
  - split_and!; try done. by exists [], [0; 0; 0].
Qed.

Lemma start_run ops o op device rwflag data s w1 r d w2 : ops ≠ 0 → fs_operation ops = Some o → op_mount o = Some op →
  blocks s !! 0 = None → place s [SLASH] ≠ 0 → device_found device (world s) → opens (device_id device (world s)) (world s) = (0, w1) →
  op 0%nat rwflag data w1 = (r, d, w2) → 0 <= r →
  ∃ p buf s', start ops device (op_name o) rwflag data s = Some (0, s') ∧
    stands [Some ([SLASH], o); None] (<[p := buf]> (blocks s)) s' (Files w2 (replicate DFS_FD_MAX None) (errno s)).
Proof.
  intros Hne Ho Hm H0 Hpl Hdev Hopen Hop Hr. destruct (init_run ops o s Hne Ho H0) as (s0&R&Hb&Hst&Hreg).
  pose proof (mount_run [None; None] (blocks s) s0 _ [] (op_name o) ops o op device rwflag data Hst ltac:(by left) Hreg Hm Hdev) as HM.
  unfold given in HM. rewrite bool_decide_true in HM by (unfold place; by rewrite Hb, (st_world _ _ _ _ Hst)). unfold a_mounts in HM. cbn [negb a_world] in HM.
  change (mounted_at (absolute []) [None; None]) with false in HM. cbv iota in HM. change (first_slot _ 0) with (Some 0%nat) in HM. cbv iota in HM. rewrite Hopen in HM.
  rewrite (bool_decide_false (0 ≠ 0)) in HM by auto. rewrite Hop, bool_decide_false in HM by lia.
  destruct HM as (_&_&p&buf&s'&R'&_&Hs&_). exists p, buf, s'. split; [|done]. unfold start.
  change (absolute []) with [SLASH] in R'. rewrite <- R'. unfold mbind, D_bind in *. destruct (dfs_init s) as [[[] s1]|]; [|done]. by rewrite R.
Qed.

(** ** Unmounting *)

(** The file systems with the mount point [mp] come not before entry [i]. *)
Definition first_at M (i : nat) (mp : list Z) : Prop := ∀ j o, M !! j = Some (Some (mp, o)) → (i <= j)%nat.

Lemma find_mounted_run K s t mp M : Forall2 (mount_for K) t M → K ⊆ blocks s → ∀ k i o, M !! i = Some (Some (mp, o)) → first_at M i mp →
  find_mounted t k mp s = Some (Some (k + i)%nat, s).
Proof.
  intros H HK. induction H as [|f m t M Hm _ IH]; intros k i o Hi Hfirst; [done|]. cbn [find_mounted].
  assert (∀ i', i = S i' → find_mounted t (S k) mp s = Some (Some (k + i)%nat, s)) as Hnext.
  { intros i' ->. rewrite (IH (S k) i' o Hi); [do 3 f_equal; lia|]. intros j o' Hj. specialize (Hfirst (S j) o' Hj). lia. }
  destruct m as [[mp' o']|].
  - destruct Hm as (Hp&_&_&buf&Hb&Hs). rewrite bool_decide_false by done.
    erewrite bind_run by (eapply string_at_run; [by eapply lookup_weaken|done]). case_bool_decide as E.
    + subst mp'. specialize (Hfirst 0%nat o' eq_refl). destruct i; [|lia]. by rewrite Nat.add_0_r.
    + destruct i as [|i]; [injection Hi; congruence|]. by apply Hnext with i.
  - cbn in Hm. subst f. rewrite bool_decide_true by done. destruct i as [|i]; [done|]. by apply Hnext with i.
Qed.

(** What [dfs_unmount] promises of the file system in entry [i], given memory for the
    path or not: whether it is taken off, and what is left. *)
Definition a_unmounts (given : bool) (i : nat) (o : dfs_filesystem_operation W) (dev : Z) (a : files W) : bool * files W :=
  if negb given then (false, set_a_errno (- DFS_STATUS_ENOTDIR) a)
  else
    match op_unmount o with
    | None => (false, a)
    | Some op =>
        let '(r, w) := op i (a_world a) in
        if bool_decide (r < 0) then (false, set_a_world w a) else (true, set_a_world (closes dev w) a)
    end.

Lemma a_unmounts_world b i o dev a : (a_unmounts b i o dev a).1 = true →
  (a_unmounts b i o dev a).2 = set_a_world (a_world (a_unmounts b i o dev a).2) a.
Proof. unfold a_unmounts. repeat case_match; done. Qed.

(** A file system is taken off: its entry and the block of its mount point. *)
Lemma unmount_run M K s a ms i o : canonical ms → stands M K s a → M !! i = Some (Some (absolute ms, o)) →
  first_at M i (absolute ms) →
  ∃ f, filesystem_table s !! i = Some f ∧ fs_path f ≠ 0 ∧ is_Some (K !! fs_path f) ∧
    match a_unmounts (given s (absolute ms)) i o (fs_dev_id f) a with
    | (true, a') => dfs_unmount (absolute ms) s = Some (0, set_world (a_world a') (set_blocks (delete (fs_path f) (blocks s))
        (set_systems (<[i := fs_zero]> (filesystem_table s)) s)))
    | (false, a') => ∃ s', dfs_unmount (absolute ms) s = Some (-1, s') ∧ stands M K s' a'
    end.
Proof.
  intros Hms H Hi Hfirst. destruct (canonical_fixed ms Hms) as (_&Ems&Hok). apply Forall_cons in Hok as [_ Hok].
  destruct (Forall2_lookup_r _ _ _ _ _ (st_mounts _ _ _ _ H) Hi) as (f&Hf&Hfp&Hfo&Hfop&fb&HK&Hfs). exists f. split_and!; [done|done|done|].
  pose proof (st_lock _ _ _ _ H) as Hl. unfold a_unmounts, dfs_unmount, given. case_bool_decide as Hpl; cbn [negb].
  2: { erewrite bind_run by (by apply normalize_refused). eexists. split; [done|]. by apply stands_errno. }
  destruct (normalize_inside (join ms) ms s Hok Ems Hpl) as (p&buf&_&Hp&Hb&Hs&R).
  pose proof (lookup_weaken _ _ _ _ HK (st_kept _ _ _ _ H)) as Hfb. assert (p ≠ fs_path f) as Hpf by congruence.
  set (s2 := set_fslock 1 (with_block p buf s)).
  assert (∀ w, mount_err1 p (set_world w s2) = Some (-1, set_world w s)) as Hback.
  { intros w. erewrite (err1_run p buf); [|done|apply lookup_insert_eq|done]. do 2 f_equal. by apply (unwound p buf w). }
  erewrite (bind_run (dfs_normalize_path _ _)) by exact R. rewrite bool_decide_false by done.
  rewrite (bind_run _ _ _ _ _ (string_at_run p buf (absolute ms) (with_block p buf s) (lookup_insert_eq _ _ _) Hs)).
  rewrite (bind_run dfs_lock _ _ tt s2) by (unfold dfs_lock, mbind, D_bind, dget, dset; cbn; by rewrite Hl). erewrite (bind_run (dget _)) by done.
  erewrite (bind_run (find_mounted _ _ _)) by (eapply (find_mounted_run K s2 _ _ M); [apply H|etrans; [apply H|by apply insert_subseteq]|exact Hi|done]).
  rewrite Nat.add_0_l. erewrite (bind_run (ops_of _)) by (eapply ops_of_run; [exact Hf|exact Hfop]). destruct (op_unmount o) as [op|].
  2: { exists s. split; [|done]. rewrite <- (world_id s). rewrite <- (Hback (world s)). by destruct s. }
  destruct (op i (a_world a)) as [r w] eqn:E.
  erewrite (bind_run (call_world _)) by (apply call_world_run; change (world s2) with (world s); rewrite (st_world _ _ _ _ H); exact E).
  case_bool_decide; [exists (set_world w s); split; [apply Hback|by apply stands_world]|].
  erewrite bind_run by (apply get_fs_run; exact Hf). destruct (closes_run (fs_dev_id f) (set_world w s2)) as (x&Ed).
  erewrite bind_run by exact Ed. change (world (set_world w s2)) with w.
  erewrite bind_run by (apply (free_run _ fb); [done|cbn; rewrite lookup_insert_ne by done; exact Hfb]).
  erewrite bind_run by done. erewrite bind_run by done.
  erewrite bind_run by (apply (free_run _ buf); [done|cbn; rewrite lookup_delete_ne by done; apply lookup_insert_eq]).
  unfold mret, D_ret. do 2 f_equal. destruct s. cbn in *. subst.
  rewrite delete_insert_ne, delete_insert_id by (done || by rewrite lookup_delete_ne). done.
Qed.

(** The table with one file system less, of which no file is open. *)
Lemma stands_unmount M K s a i f : stands M K s a → filesystem_table s !! i = Some f → fs_path f ≠ 0 →
  (∀ j ty g, a_fds a !! j = Some (Some (ty, g)) → f_fs g ≠ i) → is_Some (K !! fs_path f) →
  stands (<[i := None]> M) (delete (fs_path f) K)
    (set_blocks (delete (fs_path f) (blocks s)) (set_systems (<[i := fs_zero]> (filesystem_table s)) s)) a.
Proof.
  intros H Hf Hp Hfree HK. split; try (done || apply H); cbn.
  - pose (M' := M : list (option (list Z * dfs_filesystem_operation W))).
    change (Forall2 (mount_for (delete (fs_path f) K)) (<[i := fs_zero]> (filesystem_table s)) (<[i := None]> M')).
    apply Forall2_same_length_lookup. rewrite !length_insert. split; [eapply Forall2_length; apply H|].
    intros j x y. rewrite !list_lookup_insert_Some. intros [(<-&<-&_)|(Hne&Hx)] [(E&<-&_)|(Hne'&Hy)]; try done.
    pose proof (Forall2_lookup_lr _ _ _ _ _ _ (st_mounts _ _ _ _ H) Hx Hy) as Hm. destruct y as [[mp o]|]; [|done].
    destruct Hm as (?&?&?&c&Hc&?). split_and!; try done. exists c. split; [|done]. rewrite lookup_delete_ne; [done|].
    intros E. apply Hne. by eapply (st_points _ _ _ _ H).
  - eapply Forall2_impl; [|intros d x; exact id]. apply Forall2_same_length_lookup.
    split; [eapply Forall2_length; apply H|]. intros j d x Hd Hx.
    pose proof (Forall2_lookup_lr _ _ _ _ _ _ (st_fds _ _ _ _ H) Hd Hx) as He. destruct x as [[ty g]|]; [|done].
    destruct He as (q&c&->&Hq&Hc&Hs). exists q, c. split_and!; try done. rewrite lookup_delete_ne; [done|].
    intros E. pose proof (st_apart _ _ _ _ H j _ Hd Hq) as HN. cbn in HN. rewrite <- E in HN. destruct HK as [? HK]. congruence.
  - intros j ty g Hj. destruct (st_files _ _ _ _ H j ty g Hj) as (mp&o&Hm). exists mp, o. rewrite <- Hm.
    apply (list_lookup_insert_ne M). symmetry. by eapply Hfree.
  - apply delete_mono, H.
  - apply lookup_delete_None. right. apply H.
  - intros j d Hj Hd. apply lookup_delete_None. right. by eapply (st_apart _ _ _ _ H).
  - intros j k g g'. rewrite !list_lookup_insert_Some. intros [(<-&<-&_)|(?&Hj)] [(<-&<-&_)|(?&Hk)]; cbn; intros Hg Heq; try done.
    by eapply (st_points _ _ _ _ H).
  - intros q [c Hq]. apply lookup_delete_Some in Hq as [Hne Hq]. destruct (st_leak _ _ _ _ H q (ex_intro _ c Hq)) as [[c' Hc]|?]; [|by right].
    left. exists c'. by rewrite lookup_delete_ne.
Qed.

End mounting.
