(* ===== verification/DfsCorrect.v ===== *)
(** * Device file systems: what the functions do

    The mounted file system that is responsible for a path, histories of calls on
    files, and the start of a system with a file system at the root. *)

From stdpp Require Import gmap.
From S2P Require Import Prelude DfsPath Dfs DfsFile DfsPosix DfsSpec DfsProof DfsNames DfsMount.

(** ** Paths as lists of names *)

Lemma split_app l t : split (l ++ SLASH :: t) = split l ++ split t.
Proof.
  induction l as [|c l IH]; [done|]. cbn. case_bool_decide; [by rewrite IH|]. rewrite IH.
  by destruct (split l) eqn:E; [by apply split_not_nil in E|].
Qed.
Lemma names_app l t : names (l ++ SLASH :: t) = names l ++ names t.
Proof. unfold names. by rewrite split_app, filter_app. Qed.

Lemma join_app ms k : ms ≠ [] → k ≠ [] → join (ms ++ k) = join ms ++ SLASH :: join k.
Proof.
  intros Hm Hk. induction ms as [|m ms IH]; [done|]. destruct ms as [|m' ms].
  - cbn. by destruct k.
  - change (join ((m :: m' :: ms) ++ k)) with (m ++ SLASH :: join ((m' :: ms) ++ k)). rewrite IH by done. cbn [join].
    by rewrite <- app_assoc.
Qed.

Lemma names_canonical ns : canonical ns → names (join ns) = ns.
Proof. intros H. apply names_join. eapply Forall_impl; [exact H|]. cbv beta. tauto. Qed.

Lemma absolute_prefix ms k : ms ≠ [] → k ≠ [] → absolute (ms ++ k) = absolute ms ++ SLASH :: join k.
Proof. intros. unfold absolute. by rewrite join_app. Qed.

(** A mount point covers the paths whose names start with its own. *)
Lemma covers_names ms ns : canonical ms → canonical ns →
  covers_path (absolute ms) (absolute ns) = true ↔ ms `prefix_of` ns.
Proof.
  intros Hm Hn. unfold covers_path. rewrite andb_true_iff, !bool_decide_eq_true. split.
  - intros [Ht Hb]. destruct (decide (ms = [])) as [->|Hne]; [apply prefix_nil|].
    assert (absolute ns = absolute ms ++ drop (length (absolute ms)) (absolute ns)) as E.
    { rewrite <- Ht at 1. symmetry. apply take_drop. }
    destruct Hb as [Hb|[Hb|Hb]].
    + exfalso. by apply Hne, absolute_root.
    + rewrite drop_ge, app_nil_r in E by done. injection E as E. apply (f_equal names) in E.
      by rewrite !names_canonical in E by done; subst.
    + destruct (drop _ _) as [|c rest] eqn:Ed.
      { apply lookup_lt_Some in Hb. apply (f_equal length) in Ed. rewrite length_drop in Ed. cbn [length] in Ed. lia. }
      rewrite E, list_lookup_middle in Hb by done. injection Hb as ->. injection E as E. apply (f_equal names) in E.
      rewrite names_app, !names_canonical in E by done. rewrite E. by eexists.
  - intros (k&->). destruct (decide (ms = [])) as [->|Hne]; [by split; [|left]|].
    destruct (decide (k = [])) as [->|Hk].
    + rewrite app_nil_r. split; [by rewrite firstn_all|right; by left].
    + rewrite absolute_prefix by done. split; [by rewrite take_app_length|]. right; right. by rewrite list_lookup_middle.
Qed.

Lemma absolute_longer ms ms' ns : ms `prefix_of` ns → ms' `prefix_of` ns → canonical ns →
  (length (absolute ms') <= length (absolute ms))%nat → (length ms' <= length ms)%nat.
Proof.
  intros H H' Hn Hl. destruct (prefix_weak_total _ _ _ H H') as [[k ->]|[k ->]]; rewrite length_app; [|lia].
  destruct (decide (k = [])) as [->|Hk]; [cbn; lia|]. exfalso.
  destruct H' as [k' ->]. apply Forall_app in Hn as [[_ Hc]%Forall_app _].
  destruct k as [|n k]; [done|]. apply Forall_cons in Hc as [(_&_&Hne&_) _].
  assert (0 < length (join (n :: k)))%nat by (destruct n; [done|]; destruct k; cbn; lia).
  destruct (decide (ms = [])) as [->|Hms].
  - cbn [app absolute length join] in *. lia.
  - rewrite absolute_prefix, length_app in Hl by done. cbn [length] in Hl. lia.
Qed.

Section correct.
Context {W : Type} `{!FileEnv W}.
#[local] Abbreviation D := (D W).
#[local] Abbreviation dfs := (dfs W).

Implicit Types (s : dfs) (M : mounts W).

(** ** The longest mount point *)

Lemma best_mount_some path M : ∀ i r n, best_mount M path i (Some r) n ≠ None.
Proof.
  induction M as [|[[mp o]|] M IH]; intros i r n; cbn [best_mount]; [done| |apply IH].
  destruct (_ && _); apply IH.
Qed.

Lemma best_mount_longest path M : ∀ i fs n,
  match best_mount M path i fs n with
  | None => ∀ j mp o, M !! j = Some (Some (mp, o)) → covers_path mp path = true → (length mp < n)%nat
  | Some r => (fs = Some r ∧ ∀ j mp o, M !! j = Some (Some (mp, o)) → covers_path mp path = true → (length mp < n)%nat) ∨
      ∃ mp o, M !! (r - i)%nat = Some (Some (mp, o)) ∧ (i <= r)%nat ∧ covers_path mp path = true ∧ (n <= length mp)%nat ∧
        ∀ j mp' o', M !! j = Some (Some (mp', o')) → covers_path mp' path = true → (length mp' <= length mp)%nat
  end.
Proof.
  induction M as [|m M IH]; intros i fs n; cbn [best_mount]; [by destruct fs; [left|]|].
  destruct (match m with Some (mp, _) => bool_decide (n <= length mp)%nat && covers_path mp path | None => false end) eqn:E.
  - destruct m as [[mp o]|]; [|done]. rewrite E. apply andb_true_iff in E as [Hn%bool_decide_eq_true Hc].
    specialize (IH (S i) (Some i) (length mp)). destruct (best_mount M path (S i) (Some i) (length mp)) as [r|] eqn:Er.
    2: { by apply best_mount_some in Er. }
    right. destruct IH as [[[= <-] Hall]|(mp1&o1&H1&Hr&Hc1&Hl1&Hall)].
    + exists mp, o. rewrite Nat.sub_diag. split_and!; try done. intros [|j] mp' o' Hj Hc'; [by injection Hj as <- <-|].
      specialize (Hall j mp' o' Hj Hc'). lia.
    + exists mp1, o1. replace (r - i)%nat with (S (r - S i)) by lia. split_and!; try done; [lia|lia|].
      intros [|j] mp' o' Hj Hc'; [by injection Hj as <- <-|]. by eapply Hall.
  - specialize (IH (S i) fs n).
    assert (∀ mp o, m = Some (mp, o) → covers_path mp path = true → (length mp < n)%nat) as Hm.
    { intros mp o -> Hc. rewrite Hc, andb_true_r in E. apply bool_decide_eq_false in E. lia. }
    assert (best_mount (m :: M) path i fs n = best_mount M path (S i) fs n) as Eb.
    { cbn [best_mount]. destruct m as [[mp o]|]; [by rewrite E|done]. }
    cbn [best_mount] in Eb. rewrite Eb. destruct (best_mount M path (S i) fs n) as [r|].
    + destruct IH as [[? Hall]|(mp1&o1&H1&Hr&Hc1&Hl1&Hall)].
      * left. split; [done|]. intros [|j] mp o Hj; [injection Hj; by apply Hm|by apply Hall with j o].
      * right. exists mp1, o1. replace (r - i)%nat with (S (r - S i)) by lia. split_and!; try done; [lia|].
        intros [|j] mp o Hj Hc; [|by eapply Hall]. injection Hj as Hj. specialize (Hm _ _ Hj Hc). lia.
    + intros [|j] mp o Hj; [injection Hj; by apply Hm|by apply IH with j o].
Qed.

(** The table of file systems is [M], mounted on canonical paths. *)
Definition mounted M s : Prop := fslock s = 0 ∧ Forall2 (mount_for (blocks s)) (filesystem_table s) M ∧ mounts_ok M.

(** C27: [dfs_filesystem_lookup] finds, for every canonical path, the mounted file
    system whose mount point is the longest sequence of names with which the path
    starts, and none exactly if no mount point is such a sequence; a mount point
    never covers a path that only continues its last name.  The state is not changed. *)
Theorem dfs_filesystem_lookup_longest M s ns : mounted M s → canonical ns →
  ∃ r, dfs_filesystem_lookup (absolute ns) s = Some (r, s) ∧
    match r with
    | None => ∀ fs ms o, M !! fs = Some (Some (absolute ms, o)) → canonical ms → ¬ ms `prefix_of` ns
    | Some fs => ∃ ms o, M !! fs = Some (Some (absolute ms, o)) ∧ canonical ms ∧ ms `prefix_of` ns ∧
        ∀ fs' ms' o', M !! fs' = Some (Some (absolute ms', o')) → canonical ms' → ms' `prefix_of` ns →
          (length ms' <= length ms)%nat
    end.
Proof.
  intros (Hl&HM&Hok) Hns. exists (best_mount M (absolute ns) 0 None 0). split; [by eapply lookup_run|].
  pose proof (best_mount_longest (absolute ns) M 0 None 0) as H. destruct (best_mount _ _ _ _ _) as [fs|].
  - destruct H as [[? _]|(mp&o&Hfs&_&Hc&_&Hall)]; [done|]. rewrite Nat.sub_0_r in Hfs.
    destruct (Hok _ _ _ Hfs) as (ms&Hms&->). apply covers_names in Hc as Hp; [|done|done]. exists ms, o. split_and!; try done.
    intros fs' ms' o' Hfs' Hms' Hp'. eapply absolute_longer; [exact Hp|done|done|]. eapply Hall; [exact Hfs'|]. by apply covers_names.
  - intros fs ms o Hfs Hms Hp%covers_names; [|done|done]. specialize (H _ _ _ Hfs Hp). lia.
Qed.

(** ** Paths that are normalised *)

Section heap.
Context `{!HeapLaws W}.

(** The path is made canonical in a new block; nothing is done where the heap refuses
    a block for it. *)
Definition normalizes (path : list Z) (ns : list (list Z)) s : Prop :=
  (place s path = 0 ∧ dfs_normalize_path None path s = Some (0, s)) ∨
  ∃ p buf, place s path ≠ 0 ∧ dfs_normalize_path None path s = Some (p, set_blocks (<[p := buf]> (blocks s)) s) ∧
    p ≠ 0 ∧ blocks s !! p = None ∧ cstring buf = Some (absolute ns).

Lemma normalizes_inside l ns s : chars_ok l → resolve [] (names l) = Some ns → normalizes (SLASH :: l) ns s.
Proof.
  intros Hl E. destruct (decide (place s (SLASH :: l) = 0)) as [H|H]; [left; by split; [|apply normalize_refused]|right].
  destruct (normalize_inside l ns s Hl E H) as (p&buf&_&?&?&?&R). eauto 10.
Qed.

(** C26: [dfs_normalize_path] makes a canonical path of every absolute path that stays
    below the root: it removes doubled slashes, "." and "..", and gives a new block
    with the names that are left; nothing else is allocated.  The result does not
    change when it is normalised again.  Exactly where the heap refuses a block for
    the path, it gives a null pointer and changes nothing. *)
Theorem dfs_normalize_path_canonical l ns s : chars_ok l → resolve [] (names l) = Some ns →
  canonical ns ∧ normalizes (SLASH :: l) ns s ∧ ∀ s', normalizes (absolute ns) ns s'.
Proof.
  intros Hl E. pose proof (resolve_canonical l ns Hl E) as Hns. destruct (canonical_fixed ns Hns) as (_&E'&Hok).
  split_and!; [done|by apply normalizes_inside|]. intros s'. apply Forall_cons in Hok as [_ Hok]. by apply normalizes_inside.
Qed.

(** C35: of an absolute path that goes above the root [dfs_normalize_path] does not
    make an absolute path: it gives nothing, or reads outside its buffer, or gives a
    path without the leading slash. *)
Theorem dfs_normalize_path_above_root l s : chars_ok l → resolve [] (names l) = None →
  dfs_normalize_path None (SLASH :: l) s = Some (0, s) ∨
  dfs_normalize_path None (SLASH :: l) s = None ∨
  ∃ p buf path, dfs_normalize_path None (SLASH :: l) s = Some (p, set_blocks (<[p := buf]> (blocks s)) s) ∧
    cstring buf = Some path ∧ head path ≠ Some SLASH.
Proof.
  intros Hl E. assert (chars_ok (SLASH :: l)) as Hok by (by constructor).
  rewrite (normalize_run None (SLASH :: l) (SLASH :: l) s eq_refl Hok). case_bool_decide as Hpl; [by left|].
  pose proof (normalize_ok (SLASH :: l) Hok ltac:(done)) as H.
  destruct (resolve [] (parts (SLASH :: l))) as [ps|] eqn:Er; [|left; by rewrite H]. cbn [parts] in Er.
  rewrite bool_decide_true in Er by done. change (resolve [] ([] :: names l)) with (resolve [[]] (names l)) in Er.
  pose proof (resolve_above (names l) [] ps (names_proper l Hl) ltac:(constructor) E Er) as Hne.
  destruct ps as [|p0 ps]; [right; left; by rewrite H|right; right]. destruct H as (buf&HN&Hs). rewrite HN.
  exists (place s (SLASH :: l)), buf, (render (p0 :: ps)). split_and!; try done.
  apply Forall_cons in Hne as [Hp0 _]. unfold render. rewrite bool_decide_false by congruence.
  destruct (resolve_parts (SLASH :: l) (p0 :: ps)) as [[Ht _] _]; [done| |].
  { cbn [parts]. by rewrite bool_decide_true. }
  apply Forall_cons in Ht as [[Hns _] _]. destruct p0 as [|c p0]; [done|]. apply Forall_cons in Hns as [Hc _].
  intros Eh. apply Hc. destruct ps; cbn in Eh; congruence.
Qed.

(** ** Histories of calls *)






















(** With every file closed the heap is as it was. *)
Lemma stands_idle M K s a : stands M K s a → Forall (eq None) (a_fds a) → blocks s = K.
Proof.
  intros H Ha. apply map_eq. intros p. destruct (blocks s !! p) as [c|] eqn:E.
  - destruct (st_leak _ _ _ _ H p) as [[c' Hc]|(i&d&Hi&Hp&_)]; [by exists c| |].
    + pose proof (lookup_weaken _ _ _ _ Hc (st_kept _ _ _ _ H)). congruence.
    + exfalso. destruct (Forall2_lookup_l _ _ _ _ _ (st_fds _ _ _ _ H) Hi) as (o&Ho&He).
      rewrite Forall_lookup in Ha. specialize (Ha _ _ Ho). subst o. cbn in He. by rewrite He in Hp.
  - destruct (K !! p) as [c|] eqn:EK; [|done]. pose proof (lookup_weaken _ _ _ _ EK (st_kept _ _ _ _ H)). congruence.
Qed.


(** ** Faults *)

(** [dfs_mount] looks into the empty entries of the table of types: a type that
    is not registered in front of the first empty entry makes it dereference a null
    pointer, instead of the error that is meant. *)
Theorem dfs_mount_unknown_type_faults device path name rwflag data s t1 t2 : fs_operation 0 = None →
  filesystem_operation_table s = t1 ++ 0 :: t2 →
  Forall (λ x, ∃ o, fs_operation x = Some o ∧ op_name o ≠ name) t1 →
  match device with Some n => device_find n (world s) ≠ 0 | None => True end →
  dfs_mount device path name rwflag data s = None.
Proof.
  intros H0 Ht H1 Hdev. unfold dfs_mount. erewrite bind_run by done. cbv zeta.
  rewrite bool_decide_false by (intros [[n ->] ?]; done). erewrite bind_run by done. erewrite bind_run by done.
  cbn [filesystem_operation_table set_fslock]. rewrite Ht.
  assert (∀ s', find_type (t1 ++ 0 :: t2) name s' = None) as E.
  { intros s'. clear Ht. induction H1 as [|x t1 (o&Hx&Hn) _ IH]; cbn [find_type app].
    - unfold mbind, D_bind, dlift. by rewrite H0.
    - unfold mbind, D_bind, dlift. rewrite Hx, bool_decide_false by done. apply IH. }
  unfold mbind at 1, D_bind at 1. by rewrite E.
Qed.

Lemma close_unmounted s i ty p f : fs_operation 0 = None → fslock s = 0 → (i < DFS_FD_MAX)%nat →
  fd_table s !! i = Some (used 1 ty p f) → filesystem_table s !! f_fs f = Some fs_zero → close (Z.of_nat i) s = None.
Proof.
  intros H0 Hl Hi Hd Hf. unfold close, with_fd. erewrite bind_run by (by eapply fd_get_run). unfold mbind at 1, D_bind at 1.
  unfold dfs_file_close. unfold mbind at 1, D_bind at 1. unfold fd_ops. erewrite bind_run by (apply get_entry, upd_same; eauto).
  cbn [set_fd_ref used fd_fs]. erewrite bind_run by done. unfold ops_of. erewrite bind_run by (by apply get_fs_run). cbn [fs_zero fs_ops]. unfold dlift.
  by rewrite H0.
Qed.

(** C36: mounting a registered file system on "/" or "/dev", on a device that is found
    or on none.  It fails, with its error and nothing else changed, exactly where the
    heap refuses a block for the path, something is mounted there, the table is full,
    the device does not open or the file system refuses; the file system and the
    device are told in this order, and the device is closed again.  Otherwise the file
    system is at that path from then on, in the first free entry, beside those mounted
    before, with all open files as they were and one block of the heap for the path.
    [dfs_unmount] undoes this: it leaves the table of file systems, the open files and
    the heap as they were before, and fails, with the file system still there, exactly
    where the heap refuses a block for the path or the file system refuses or has no
    such operation. *)
Theorem dfs_unmount_undoes_mount M K s a ns name ops o op device rwflag data : stands M K s a → plain_mount_point ns →
  registered name ops o s → op_mount o = Some op → device_found device (a_world a) →
  let dev := device_id device (a_world a) in
  match a_mounts (given s (absolute ns)) M dev (absolute ns) op rwflag data a with
  | (None, a') => ∃ s', dfs_mount device (absolute ns) name rwflag data s = Some (-1, s') ∧ stands M K s' a'
  | (Some i, a1) => ∃ s1 p buf, dfs_mount device (absolute ns) name rwflag data s = Some (0, s1) ∧ K !! p = None ∧
      stands (<[i := Some (absolute ns, o)]> M) (<[p := buf]> K) s1 a1 ∧
      match a_unmounts (given s1 (absolute ns)) i o dev a1 with
      | (false, a2) => ∃ s2, dfs_unmount (absolute ns) s1 = Some (-1, s2) ∧
          stands (<[i := Some (absolute ns, o)]> M) (<[p := buf]> K) s2 a2
      | (true, a2) => ∃ s2, dfs_unmount (absolute ns) s1 = Some (0, s2) ∧ stands M K s2 a2
      end
  end.
Proof.
  intros H Hns Hreg Hm Hdev. cbv zeta. pose proof (mount_run M K s a ns name ops o op device rwflag data H Hns Hreg Hm Hdev) as HM.
  pose proof (a_mounts_fds (given s (absolute ns)) M (device_id device (a_world a)) (absolute ns) op rwflag data a) as Hfds.
  destruct (a_mounts _ _ _ _ _ _ _ _) as [[i|] a1]; [|done]. destruct HM as (Hslot&Hnew&p&buf&s1&R1&HKp&H1&d&Hg). cbn [snd] in Hfds.
  exists s1, p, buf. split_and!; [done|done|done|]. assert (canonical ns) as Hc by (destruct Hns as [-> | ->]; by repeat constructor).
  destruct (first_slot_entry M 0 i Hslot) as [_ Hi]. rewrite Nat.sub_0_r in Hi.
  destruct (unmount_run _ _ s1 _ ns i o Hc H1) as (f&Hf&Hfp&HKf&HU); [apply (list_lookup_insert_eq M); by eapply lookup_lt_Some| |].
  { intros j o' Hj. destruct (decide (i = j)) as [->|Hne]; [done|]. exfalso. apply (not_mounted_at _ _ Hnew j o'). rewrite <- Hj. symmetry.
    by apply (list_lookup_insert_ne M). }
  rewrite Hg in Hf. injection Hf as <-. cbn [fs_dev_id fs_path] in *.
  pose proof (a_unmounts_world (given s1 (absolute ns)) i o (device_id device (a_world a)) a1) as Hw.
  destruct (a_unmounts _ _ _ _ _) as [[] a2]; [|done]. eexists. split; [exact HU|].
  pose proof (stands_unmount _ _ s1 _ i _ H1 Hg Hfp) as H2. cbn [fs_path] in H2. rewrite delete_insert_id in H2 by done.
  replace (<[i := None]> (<[i := Some (absolute ns, o)]> M)) with M in H2.
  - rewrite (Hw eq_refl) at 2. apply stands_world, H2; [|done]. intros j ty h Hj E. rewrite Hfds in Hj.
    destruct (st_files _ _ _ _ H j ty h Hj) as (mp&o'&Hx). congruence.
  - symmetry. etrans; [apply (list_insert_insert_eq M)|]. by apply (list_insert_id M).
Qed.

(** C37: [dfs_unmount] takes off a file system of which a file is open: given memory for
    the path it succeeds, and closing the file afterwards dereferences a null pointer. *)
Theorem dfs_unmount_open_file_faults M K s a ms i o op j ty f r w : fs_operation 0 = None → canonical ms →
  stands M K s a → M !! i = Some (Some (absolute ms, o)) → first_at M i (absolute ms) → place s (absolute ms) ≠ 0 →
  a_fds a !! j = Some (Some (ty, f)) → f_fs f = i →
  op_unmount o = Some op → op i (a_world a) = (r, w) → 0 <= r →
  ∃ s', dfs_unmount (absolute ms) s = Some (0, s') ∧ close (Z.of_nat j) s' = None.
Proof.
  intros H0 Hms H Hi Hfirst Hpl Ha Hf Hop E Hr. destruct (unmount_run M K s a ms i o) as (g&Hg&_&_&R); try done.
  unfold a_unmounts, given in R. rewrite bool_decide_true in R by done. cbn [negb] in R. rewrite Hop, E, bool_decide_false in R by lia.
  eexists. split; [exact R|]. destruct (stands_entry _ _ s a j ty f H Ha) as (Hj&p&buf&Hd&_).
  eapply close_unmounted; [done|apply H|done|exact Hd|]. rewrite Hf. cbn. apply list_lookup_insert_eq. by eapply lookup_lt_Some.
Qed.

End heap.
End correct.

(** ** A file system with one file in memory *)

Module Ram.

(** An address above those in use. *)
Definition top (b : gmap Z (list Z)) : Z := map_fold (λ p _ m, Z.max p m) 0 b.
Definition next_address (b : gmap Z (list Z)) : Z := 1 + top b.

Lemma next_above b : 0 <= top b ∧ ∀ p c, b !! p = Some c → p <= top b.
Proof.
  unfold top. apply (map_fold_weak_ind (λ m b, 0 <= m ∧ ∀ p (c : list Z), b !! p = Some c → p <= m)); [done|].
  intros p c m r _ [H0 H]. split; [lia|]. intros q d [[<- _]|[_ Hq]]%lookup_insert_Some; [lia|]. specialize (H q d Hq). lia.
Qed.

Lemma next_nonzero b : next_address b ≠ 0.
Proof. unfold next_address. destruct (next_above b). lia. Qed.

Definition at_pos (p n : Z) (f : file) : file := File (f_fs f) (f_path f) (f_flags f) n p (f_data f).

(** The world is the content of the file, which is there under every name. *)
Definition ram : dfs_filesystem_operation (list Z) :=
  FsOps (list Z) [114; 97; 109] 0
    (Some (λ _ _ _ w, (0, 0, w))) (Some (λ _ w, (0, w))) None None
    (Some (λ f w, (0, at_pos 0 (zlen w) f, w)))
    (Some (λ f w, (0, f, w))) None
    (Some (λ n f w, let d := take (Z.to_nat n) (drop (Z.to_nat (f_pos f)) w) in (zlen d, d, at_pos (f_pos f + zlen d) (zlen w) f, w)))
    (Some (λ d f w, let w := take (Z.to_nat (f_pos f)) w ++ d in (zlen d, at_pos (zlen w) (zlen w) f, w)))
    None
    (Some (λ n f w, (n, f, w))) None
    (Some (λ _ _ _, (0, []))) (Some (λ _ _ w, (0, Stat 0 0 (zlen w) 0, w)))
    (Some (λ _ _ _ w, (0, w))).

(** The heap refuses blocks of more than 16 bytes. *)
#[local] Instance ram_env : FileEnv (list Z) := {
  fs_operation x := if bool_decide (x = 100) then Some ram else None;
  device_find _ _ := 0;
  device_open _ _ w := (0, w);
  device_close _ w := (0, w);
  heap_address _ b n := if bool_decide (n <= 16) then next_address b else 0;
}.
#[local] Instance ram_heap : HeapLaws (list Z).
Proof.
  split. intros w b n. cbn. case_bool_decide as Hn; [|done]. intros _. unfold next_address. destruct (next_above b) as [H0 H].
  destruct (b !! _) eqn:E; [|done]. apply H in E. lia.
Qed.

Definition fresh_system : dfs (list Z) := Dfs [] [] [] [] fd_zero ∅ ∅ 0 0 None.

Definition table : mounts (list Z) := [Some ([SLASH], ram); None].

Lemma table_ok : mounts_ok table.
Proof. intros [|[|fs]] mp o; cbn; [intros [= <- _]|done|done]. exists []. split; [constructor|done]. Qed.


(** "/a/../f" *)
Definition name : list Z := [47; 97; 47; 46; 46; 47; 102].




Lemma dfs_normalize_path_canonical_witness : canonical [[102]] ∧
  (∃ p buf, dfs_normalize_path None name fresh_system = Some (p, set_blocks (<[p := buf]> ∅) fresh_system) ∧
    p ≠ 0 ∧ (∅ : gmap Z (list Z)) !! p = None ∧ cstring buf = Some [47; 102]) ∧ ∀ s', normalizes [47; 102] [[102]] s'.
Proof.
  destruct (dfs_normalize_path_canonical [97; 47; 46; 46; 47; 102] [[102]] fresh_system) as (Hc&[[E _]|(p&buf&_&R)]&H);
    [by repeat constructor|done|by vm_compute in E|]. split_and!; [done|by exists p, buf|exact H].
Defined.

(** "/../f" is made "f". *)
Lemma dfs_normalize_path_above_root_witness :
  ∃ p buf path, dfs_normalize_path None [47; 46; 46; 47; 102] fresh_system = Some (p, set_blocks (<[p := buf]> ∅) fresh_system) ∧
    cstring buf = Some path ∧ head path ≠ Some SLASH.
Proof.
  destruct (dfs_normalize_path_above_root [46; 46; 47; 102] fresh_system) as [E|[E|E]];
    [by repeat constructor|done|vm_compute in E; congruence|vm_compute in E; congruence|exact E].
Defined.

(** File systems at "/" and at "/a". *)
Definition two_systems : dfs (list Z) :=
  Dfs [] [100; 0; 0; 0] [Filesystem 0 1 100 0; Filesystem 0 2 100 0] (replicate DFS_FD_MAX fd_zero) fd_zero
    (<[1 := [47; 0]]> (<[2 := [47; 97; 0]]> ∅)) ∅ 0 0 None.

Lemma two_mounted : mounted [Some (absolute [], ram); Some (absolute [[97]], ram)] two_systems.
Proof.
  split_and!; [done| |].
  - repeat constructor; try done; by eexists.
  - intros [|[|fs]] mp o; cbn; [intros [= <- _]; exists []|intros [= <- _]; exists [[97]]|done]; (split; [|done]); repeat constructor; done.
Qed.

(** "/a/b" is below "/a", "/ab" is not. *)
Lemma dfs_filesystem_lookup_longest_witness :
  (∃ r, dfs_filesystem_lookup [47; 97; 47; 98] two_systems = Some (r, two_systems) ∧ r = Some 1%nat) ∧
  (∃ r, dfs_filesystem_lookup [47; 97; 98] two_systems = Some (r, two_systems) ∧ r = Some 0%nat).
Proof.
  split.
  - destruct (dfs_filesystem_lookup_longest _ two_systems [[97]; [98]] two_mounted) as (r&R&_); [by repeat constructor|].
    exists r. split; [exact R|]. vm_compute in R. congruence.
  - destruct (dfs_filesystem_lookup_longest _ two_systems [[97; 98]] two_mounted) as (r&R&_); [by repeat constructor|].
    exists r. split; [exact R|]. vm_compute in R. congruence.
Defined.

Lemma dfs_mount_unknown_type_faults_witness : dfs_mount None [47; 98] [120] 0 0 two_systems = None.
Proof.
  apply (dfs_mount_unknown_type_faults None [47; 98] [120] 0 0 two_systems [100] [0; 0]); try done.
  constructor; [by exists ram|constructor].
Defined.

Lemma dfs_unmount_open_file_faults_witness : ∃ s s', (start 100 None (op_name ram) 0 0 ≫= λ _, open name 0) fresh_system = Some (0, s) ∧
  dfs_unmount [47] s = Some (0, s') ∧ close 0 s' = None.
Proof.
  destruct (start_run 100 ram (λ _ _ _ w, (0, 0, w)) None 0 0 fresh_system [] 0 0 []) as (p&buf&s0&R&Hs); try done.
  assert (open name 0 s0 = (start 100 None (op_name ram) 0 0 ≫= λ _, open name 0) fresh_system) as E by (by erewrite (bind_run (start _ _ _ _ _)) by exact R).
  destruct (open_meets table _ (tail name) [[102]] 0 table_ok ltac:(by repeat constructor) eq_refl _ _ Hs) as [(s&R1&H1)|[(r&a'&s'&Hsh&_)|[_ R1]]].
  - exists s. pose proof (dfs_unmount_open_file_faults table (<[p := buf]> ∅) s _ [] 0 ram (λ _ w, (0, w)) 0 _ _ _ _
      eq_refl ltac:(constructor) H1 eq_refl ltac:(intros ? ? ?; lia) ltac:(apply next_nonzero) eq_refl eq_refl eq_refl eq_refl ltac:(done)) as (s'&R2&R3).
    exists s'. split_and!; [|done|done]. rewrite <- E. exact R1.
  - exfalso. inversion Hsh as [Hno|]. by apply next_nonzero in Hno.
  - exfalso. change (SLASH :: tail name) with name in R1. rewrite R1 in E. vm_compute in E. done.
Defined.

Lemma dfs_unmount_undoes_mount_witness : ∃ s s1 s2, (dfs_init;; dfs_register 100) fresh_system = Some (0, s) ∧
  dfs_mount None [47; 100; 101; 118] (op_name ram) 0 0 s = Some (0, s1) ∧
  (∃ p buf, stands [Some ([47; 100; 101; 118], ram); None] (<[p := buf]> ∅) s1 (Files [] (replicate DFS_FD_MAX None) 0)) ∧
  dfs_unmount [47; 100; 101; 118] s1 = Some (0, s2) ∧ blocks s2 = ∅.
Proof.
  destruct (init_run 100 ram fresh_system) as (s&R&Hb&Hs&Hreg); [done|done|done|].
  pose proof (dfs_unmount_undoes_mount [None; None] ∅ s _ [[100; 101; 118]] (op_name ram) 100 ram (λ _ _ _ w, (0, 0, w)) None 0 0
    Hs ltac:(by right) Hreg eq_refl I) as HM. cbv zeta in HM.
  assert (∀ s : dfs (list Z), given s (absolute [[100; 101; 118]]) = true) as Hg by (intros; apply bool_decide_true, next_nonzero).
  rewrite Hg in HM. cbn -[dfs_mount dfs_unmount absolute] in HM. destruct HM as (s1&p&buf&R1&_&H1&HU).
  rewrite Hg in HU. cbn -[dfs_mount dfs_unmount absolute] in HU. destruct HU as (s2&R2&H2).
  exists s, s1, s2. split_and!; try done; [by exists p, buf|]. by eapply stands_idle; [exact H2|repeat constructor].
Defined.

End Ram.
